(* ===== verification/_CoqProject ===== *)
-Q . S2P
Prelude.v
UserState.v
UserStateInv.v
UserStateProps.v
Traffic.v
HotRules.v
Registry.v
OutboundManager.v
OutboundProps.v
DnsTransports.v
Bytes.v
MatchState.v
RuleItems.v
Netip.v
Rules.v
RulesSpec.v
RulesProps.v
RuleAction.v
RuleBuild.v
RuleBuildProps.v
Srs.v
SrsProps.v
SrsRoundtrip.v
SrsMeaning.v
SrsRun.v
Json.v
UserPlan.v
UserPlanSpec.v
UserPlanPolicy.v
UserPlanProps.v
UserPlanStable.v
InboundUsers.v
InboundUsersProps.v
BoxReload.v
BoxReloadSpec.v
BoxReloadProps.v
BoxReloadRun.v
Management.v
ManagementProps.v
Commands.v
VlessCodec.v
Vision.v
VisionProps.v
VlessRun.v
VmessStream.v
Vmess.v
VmessProps.v
VmessRun.v
VmessMux.v
Trojan.v
DnsRule.v
DnsClient.v
Sniff.v
Detectors.v
Quic.v
QuicFrames.v
QuicHello.v
QuicProps.v
QuicSafety.v
QuicRun.v
Route.v
RouteDispatch.v
RouteProps.v
RouteRun.v
FakeIP.v
CacheFile.v
FakeIPRange.v
FakeIPProps.v
CacheFileProps.v
CacheFileSettings.v
RuleSets.v
RuleSetsProps.v
Groups.v
GroupsProps.v
StorageRun.v
DnsRouter.v
DnsRuleProps.v
DnsProps.v
DnsRun.v
FakeIPRoute.v
