(* ===== verification/Prelude.v ===== *)
(** * Verification library for the Node-Manager sing-box runtime

    The program is the fork of sing-box under src/runtime/sing-box whose
    users, user routes and user outbounds can be changed while it runs.  This
    library models the code that carries that promise, the path of a connection
    through sniffers, rules, DNS and outbound groups, the stores and rule sets
    that path relies on, and the VLESS, VMess and Trojan protocols that live in
    the repository.  All paths below are relative to src/runtime/sing-box.

    ** How the parts interact

    An instance (box.go) owns a user-state manager, a router with a published
    slice of rules, an outbound manager, and inbounds with user tables.  A
    reload request arrives over the management socket or a hang-up signal.  It
    is fenced by the identifier and the revision of the instance, validated by
    a planner that compares the old and the new configuration as JSON objects,
    prepared in every component without visible effect, and then published
    everywhere under the admission gate of the user state, which closes the
    sessions of revoked users.

    A connection enters through an inbound, which authenticates its user (the
    VLESS, VMess and Trojan services).  The router (route/route.go) sniffs its first
    bytes, replaces a fake address by the domain it stands for, asks the DNS
    router where a rule says so, and walks the rules; rules refer to rule sets,
    which come from files or servers and are kept in the cache file.  The outbound
    it reaches may be a group that selects among others.

    ** Files

    - Prelude: errors and results of Go, the [let?] notation, folds with early
      return, closure of step relations, machine integers, strings; the hint
      database [go].
    - UserState, UserStateInv, UserStateProps: common/userstate/manager.go over
      a heap of managers, tables, identities, sessions and counters
      ([World]); every critical section is one step of an interleaving
      semantics whose invariant [Inv] is proved by rule induction.
    - Traffic: common/userstate/traffic.go; the 64-bit counters refine a ledger.
    - HotRules: route/hot_add.go, publication of rules and leases.
    - Registry: adapter/{endpoint,inbound,service}/manager.go and the lifecycle;
      [EndpointManager] is the interface the outbound manager relies on.
    - OutboundManager, OutboundProps: adapter/outbound/manager.go and
      user_update.go.
    - Bytes, Netip: bytes, readers and big-endian numbers; addresses and
      prefixes of net/netip as the rules and stores use them.
    - MatchState, RuleItems, Rules, RulesSpec, RulesProps: route/rule/
      match_state.go, the rule items, rule_abstract.go and the rule sets.
    - RuleAction, RuleBuild, RuleBuildProps: route/rule/rule_action.go,
      rule_default.go, rule_headless.go, rule_set.go and their options.
    - Srs, SrsProps, SrsRoundtrip, SrsMeaning, SrsRun: common/srs, the binary
      format of rule sets.
    - RuleSets, RuleSetsProps: route/rule/rule_set_local.go and
      rule_set_remote.go, loading and updating rule sets.
    - Groups, GroupsProps: common/interrupt and protocol/group, the
      selector and URL-test groups.
    - FakeIP, FakeIPRange, FakeIPProps, FakeIPRoute: dns/transport/fakeip over the
      interface [FakeIPStorage] of storages; FakeIPRoute joins it to the router.
    - CacheFile, CacheFileProps, CacheFileSettings: experimental/cachefile over
      buckets of the database; it implements the storage of the fake-IP store,
      the selections of groups and the content of remote rule sets.
    - StorageRun: runs of the cache file, the groups and the rule sets.
    - Sniff, Detectors: common/sniff and common/ja3; Quic, QuicFrames,
      QuicHello, QuicProps, QuicSafety, QuicRun: common/sniff/quic.go.
    - Route, RouteDispatch, RouteProps, RouteRun: route/process_cache.go and
      route/route.go, the path of a connection from its metadata over the rule
      loop to an outbound.
    - DnsRule, DnsRuleProps: route/rule/rule_dns.go; DnsClient: dns/client.go and
      extension_edns0_subnet.go; DnsRouter, DnsProps: dns/router.go; DnsRun:
      concrete queries; DnsTransports: dns/transport_manager.go.
    - Json, UserPlan, UserPlanSpec, UserPlanPolicy, UserPlanProps,
      UserPlanStable: the planner [planUserUpdate] of user_reload.go.
    - InboundUsers, InboundUsersProps: protocol/{socks,vless,vmess}/hot_add.go
      and the user tables of local-modules/sing-vmess.
    - BoxReload, BoxReloadSpec, BoxReloadProps, BoxReloadRun: the run-time part
      of user_reload.go, hot_add.go and option/options.go, composed from the
      components above.
    - Management, ManagementProps: cmd/sing-box/cmd_user_management.go.
    - Commands: cmd/sing-box/cmd_run.go and cmd_reload_receipt.go.
    - VlessCodec: local-modules/sing-vmess/vless/protocol.go; Vision, VisionProps:
      vision.go and constant.go; VlessRun: concrete runs of both.
    - VmessStream: the chunk readers and writers and CreateReader and CreateWriter
      of local-modules/sing-vmess; Vmess: service.go and client.go there;
      VmessProps, VmessRun: sessions between the two; VmessMux: mux.go,
      mux_wrapper.go and xudp.go there.
    - Trojan: transport/trojan.

    Structs are records, tagged unions and enums inductive types, Go maps
    [gmap]s, slices lists, [uint64] an integer of [Z] with its wrap-around
    written out.  Objects that are shared (identities, sessions, tables,
    rules, adapters) are addressed by number in a heap, so that aliasing is
    visible.  Errors are values of [result]; sentinel errors are constructors
    of their own because callers compare them by identity; a panic is the
    error [EPanic].

    ** What the theorems show

    - Reload: a refused update publishes nothing; an accepted one that changes
      nothing publishes nothing, and any other closes exactly the sessions whose
      credentials or policy it changes; the reported status is true after any
      history, its hash that of the content the instance runs on; a request that
      carries an old revision can not change the configuration; over the
      management interface every change of users, rules or outbounds is the effect
      of a fenced request, and of competing requests at most one wins; a hang-up
      signal is answered truthfully and replaces the instance only when that was
      allowed.  A panic of the planner drops the request or ends the process, as
      in Go.
    - Users: a revoked identity never becomes valid again and its sessions are
      closed, under every interleaving; unchanged users keep their identity; a
      SOCKS inbound with users never becomes anonymous; the VLESS service
      admits exactly the listed users.
    - Planner: an accepted plan leaves the topology alone, describes the
      outbounds and rules of the target, leaves unchanged users the policy
      they had, never panics on well-typed input and is stable.
    - Publication: published rules stay open, retired ones are closed once
      their leases are returned; the outbound manager starts in dependency
      order, keeps what others depend on as long as no outbound names a dependency
      twice, and its updates are all-or-nothing.
    - Rules: what a default rule and a logical rule match, in terms of their
      conditions; a rule that is built decides as its options ask.
    - Dispatch: under user routes a connection reaches the outbound of the first
      route that admits its inbound and user; connections go only where a rule
      in force sends them, and what the outbound reads is what the client sent
      when at most one sniff action read ahead.
    - DNS: retrying a query under address limits ends, and a response that is
      not from the cache satisfies the limits of the rule that asked; what those
      limits decide; cached responses are those a server sent, with at most the
      lifetime it allowed less the time they were kept; the manager of servers
      stays consistent, as long as no server names a dependency twice, and starts
      them after what they depend on.
    - Stores: a domain that was given a fake address is what a connection to it
      is routed by, until the range is used up, also after a restart; the selection of a group survives a
      restart; a remote rule set always holds what the last successful answer of
      its server decodes to.
    - Groups: a URL-test round selects the fastest outbound up to the tolerance
      and is stable, for delays that are positive and do not overflow; switching a
      selector interrupts exactly the connections it gave out that it has to.
    - Formats: VLESS requests survive the wire; what one end of a vision
      connection writes is what [Read] of the other hands out, on conditions that
      are shown to be needed, and the decoder of its frames agrees with one that
      works byte by byte; binary rule sets
      are read back as they were written, decide as the source rules do, and
      reading ends on every input; the server name in a QUIC hello is found
      however its frames are ordered, and which packets crash the sniffer.
    - VMess: a client the service knows gets through and the streams of both
      sides are delivered, for each security type and option; an AEAD request of
      a user is not accepted again within the 120 seconds the replay filter keeps
      it, and not after 240; a multiplexed connection implements streams that do
      not know of each other, from the frame that opens each to its end, and XUDP
      packets that are not empty arrive with their addresses.
    - Trojan: the service serves exactly the users it was given and hands
      everything else, complete, to the fallback.

    Some theorems state what the code does where that differs from what it
    means to do; the manifest lists them as findings.

    ** Bounds and fuel

    Loops over slices are structural or folds.  The outbound start loop and
    the readers of variable-length data run on fuel that is a measure of their
    input (the number of outbounds still to start, the bytes left), and the
    lemmas show that it suffices: no theorem is about a run out of fuel.  A DNS
    query is given one iteration more than there are rules, which is proved to
    be enough.  The reader of binary rule sets and the frame loop of QUIC run on
    the bytes they have left; the search for the pieces of a QUIC hello, which
    the code may repeat forever, on one step more than there are pieces, and
    running out of it is the error the theorems name.  A VMess stream is read
    with more steps than it has bytes.  [AlterId] hashes until the result differs
    and has no result when its fuel is not enough.
    Theorems about revisions hold until 2^64 changes, those about vision
    frames for writes below 64 KiB, because the code wraps there.

    ** Not modelled

    Network and file I/O, goroutine scheduling inside libraries, and code of
    packages that are not in the repository (sing, sing-tun, miekg/dns, gVisor,
    QUIC, TLS) are parameters or left out: the protocols other than the parts
    above, the transports, the DNS servers, TLS and certificates, the Clash and
    V2Ray APIs, the mobile bindings, the services and the release tools.  Of
    VMess, the packet connections of its UDP command; of the router, its set-up
    and the copying of connections; of the cache file, opening the database and
    removing old buckets.  The Python node manager under src/node-manager is
    another program. *)
From stdpp Require Export base gmap strings list fin_maps sets.
From stdpp Require Export sorting pretty.
From Stdlib Require Export ZArith Lia.
From Stdlib Require OrderedTypeEx.

(** ** Go errors and fallible results *)

(** An error value.  Sentinel errors, which callers compare by identity with
    [errors.Is], are constructors of their own; [ENew] is an error built from
    a message ([fmt.Errorf], [E.New]); [ECause] is [E.Cause]; [EEnv] is an
    error a callee outside the model returned; [EPanic] is a run-time panic. *)
Inductive error :=
| ErrRevoked
| ErrRuntimeConflict
| ErrUnsupportedUserUpdate
| ErrInvalid
| ErrBadPortRange (detail : string)
| ENew (msg : string)
| ECause (cause : error) (msg : string)
| EEnv (code : nat)
| EPanic (msg : string).

#[export] Instance error_eq_dec : EqDecision error.
Proof. solve_decision. Defined.

(** A Go pair [(value, err)] of which exactly one side is meaningful. *)
Inductive result (A : Type) :=
| Ok (a : A)
| Err (e : error).
Arguments Ok {A} a.
Arguments Err {A} e.

#[export] Instance result_eq_dec {A} `{EqDecision A} : EqDecision (result A).
Proof. solve_decision. Defined.

Definition result_bind {A B} (r : result A) (k : A → result B) : result B :=
  match r with Ok a => k a | Err e => Err e end.

Declare Scope go_scope.
Delimit Scope go_scope with go.
Notation "'let?' x := e 'in' k" := (result_bind e (λ x, k))
  (at level 10, x pattern, e at level 100, k at level 200,
   format "'[v' 'let?'  x  :=  e  'in'  '/' k ']'") : go_scope.
#[global] Open Scope go_scope.

Definition is_ok {A} (r : result A) : bool :=
  match r with Ok _ => true | Err _ => false end.

(** A loop over a slice whose body may return early with an error. *)
Fixpoint fold_result {A B} (f : B → A → result B) (l : list A) (b : B) : result B :=
  match l with
  | [] => Ok b
  | x :: l => let? b' := f b x in fold_result f l b'
  end.

(** ** Development tactics *)

(** Case analysis on every [match] and [decide] in sight, closing the
    contradictory branches. *)
Ltac go_cases := repeat first [ case_decide | case_match ]; simplify_eq/=.

(** Invert a successful [result_bind] in a hypothesis. *)
Ltac inv_bind H :=
  match type of H with
  | result_bind ?r _ = _ =>
      let E := fresh "E" in
      destruct r eqn:E; cbn [result_bind] in H; [|try discriminate H]
  end.

Create HintDb go discriminated.

(** ** Generic lemmas *)

Lemma fold_result_app {A B} (f : B → A → result B) l1 l2 b :
  fold_result f (l1 ++ l2) b = (let? b' := fold_result f l1 b in fold_result f l2 b').
Proof.
  revert b; induction l1 as [|x l1 IH]; intros b; simpl; [done|].
  destruct (f b x); simpl; [apply IH|done].
Qed.

(** An invariant of the body of a fallible loop, indexed by the prefix of the
    slice already visited, holds after the loop. *)
Lemma fold_result_inv {A B} (f : B → A → result B) (I : list A → B → Prop) l b b' :
  I [] b →
  (∀ pre x c c', pre ++ [x] `prefix_of` l → I pre c → f c x = Ok c' → I (pre ++ [x]) c') →
  fold_result f l b = Ok b' → I l b'.
Proof.
  intros Hinit Hstep.
  assert (∀ l2 l1 c, l = l1 ++ l2 → I l1 c → fold_result f l2 c = Ok b' → I l b') as Hgen.
  { induction l2 as [|x l2 IH]; intros l1 c Hl HI Hf; simpl in Hf.
    - simplify_eq. by rewrite app_nil_r.
    - inv_bind Hf. eapply (IH (l1 ++ [x])); [by rewrite <-app_assoc| |done].
      eapply Hstep; [|done|done]. exists l2. by rewrite <-app_assoc. }
  by apply (Hgen l []).
Qed.

(** A loop none of whose iterations fails returns a result. *)
Lemma fold_result_total {A B} (f : B → A → result B) l b :
  (∀ b x, x ∈ l → ∃ b', f b x = Ok b') → ∃ b', fold_result f l b = Ok b'.
Proof.
  revert b. induction l as [|x l IH]; intros b Hf; cbn [fold_result]; [eauto|].
  destruct (Hf b x) as [b' ->]; [by left|]. cbn [result_bind]. apply IH. intros. apply Hf. by right.
Qed.

Lemma elem_of_snoc {A} (x y : A) l : x ∈ l ++ [y] ↔ x ∈ l ∨ x = y.
Proof. by rewrite elem_of_app, list_elem_of_singleton. Qed.

Lemma NoDup_omap_inj {A B} (f : A → option B) (l : list A) :
  (∀ x y z, x ∈ l → y ∈ l → f x = Some z → f y = Some z → x = y) →
  NoDup l → NoDup (omap f l).
Proof.
  intros Hinj Hnd. induction Hnd as [|x l Hx Hnd IH]; simpl; [constructor|].
  assert (NoDup (omap f l)) as Hl.
  { apply IH. intros y y' z ??. apply Hinj; by right. }
  destruct (f x) as [z|] eqn:Hf; [|done]. apply NoDup_cons. split; [|done].
  rewrite list_elem_of_omap. intros (y & Hy & Hfy). destruct Hx.
  by rewrite (Hinj x y z); [|left|right|..].
Qed.

Lemma NoDup_fmap_elem {A B} (f : A → B) (l : list A) x y :
  NoDup (f <$> l) → x ∈ l → y ∈ l → f x = f y → x = y.
Proof.
  intros Hnd [i Hi]%list_elem_of_lookup [j Hj]%list_elem_of_lookup Hf.
  assert (i = j) as <-; [|congruence].
  eapply (NoDup_lookup (f <$> l)); [done|..]; rewrite list_lookup_fmap, ?Hi, ?Hj; simpl; by f_equal.
Qed.

(** The reflexive-transitive closure of a step relation. *)
Inductive star {A} (R : A → A → Prop) : A → A → Prop :=
| star_refl a : star R a a
| star_step a b c : R a b → star R b c → star R a c.

Lemma star_trans {A} (R : A → A → Prop) a b c : star R a b → star R b c → star R a c.
Proof. intros H. revert c. induction H; eauto using star. Qed.

(** A property preserved by every step from a state satisfying an invariant is
    preserved by sequences of steps. *)
Lemma star_preserves {A} (R : A → A → Prop) (I P : A → Prop) :
  (∀ a b, I a → R a b → I b) → (∀ a b, I a → P a → R a b → P b) →
  ∀ a b, star R a b → I a → P a → P b.
Proof. intros HI HP a b Hs. induction Hs; eauto. Qed.

(** ** Machine integers *)

(** Two's-complement wrap-around of [int64] and truncation to [uint64]. *)
Definition wrap_int64 (z : Z) : Z := ((z + 2 ^ 63) mod 2 ^ 64 - 2 ^ 63)%Z.
Definition wrap_uint64 (z : Z) : Z := (z mod 2 ^ 64)%Z.

Lemma wrap_int64_add a b : wrap_int64 (wrap_int64 a + b) = wrap_int64 (a + b).
Proof.
  unfold wrap_int64. f_equal.
  replace ((a + 2 ^ 63) mod 2 ^ 64 - 2 ^ 63 + b + 2 ^ 63)%Z
    with ((a + 2 ^ 63) mod 2 ^ 64 + b)%Z by lia.
  rewrite Zplus_mod_idemp_l. f_equal. lia.
Qed.

(** ** Strings *)

(** [strings.Join]. *)
Fixpoint Join (sep : string) (xs : list string) : string :=
  match xs with
  | [] => ""
  | [x] => x
  | x :: xs => x +:+ sep +:+ Join sep xs
  end.

(** [strings.Index] and [strings.Contains]. *)
Definition strings_Index (s sub : string) : option nat := String.index 0 sub s.
Definition strings_Contains (s sub : string) : bool := bool_decide (is_Some (strings_Index s sub)).

(** Go's [<] on strings compares bytes. *)
Definition string_lt (a b : string) : bool :=
  match String.compare a b with Lt => true | _ => false end.

Lemma string_compare_refl a : String.compare a a = Eq.
Proof. pose proof (String.compare_antisym a a). by destruct (String.compare a a). Qed.

Lemma string_lt_trans a b c : string_lt a b = true → string_lt b c = true → string_lt a c = true.
Proof.
  unfold string_lt. intros H1 H2.
  destruct (String.compare a b) eqn:E1; try done. destruct (String.compare b c) eqn:E2; try done.
  assert (String.compare a c = Lt) as ->; [|done].
  apply OrderedTypeEx.String_as_OT.cmp_lt.
  eapply OrderedTypeEx.String_as_OT.lt_trans; by apply OrderedTypeEx.String_as_OT.cmp_lt.
Qed.

Lemma string_lt_irrefl a : string_lt a a = false.
Proof. unfold string_lt. by rewrite string_compare_refl. Qed.

Lemma string_lt_trichotomy a b : string_lt a b = true ∨ a = b ∨ string_lt b a = true.
Proof.
  unfold string_lt. rewrite (String.compare_antisym b a).
  destruct (String.compare a b) eqn:E; simpl; auto. right; left. by apply String.compare_eq_iff.
Qed.

Lemma alter_missing {K A} `{Countable K} (f : A → A) (k : K) (m : gmap K A) :
  m !! k = None → alter f k m = m.
Proof.
  intros Hk. apply map_eq; intros j. rewrite lookup_alter. case_decide; subst; [|done].
  by rewrite Hk.
Qed.

(** ** Absence of panics *)

Definition safe {A} (r : result A) : Prop := match r with Err (EPanic _) => False | _ => True end.

Lemma safe_bind {A B} (r : result A) (k : A → result B) :
  safe r → (∀ a, r = Ok a → safe (k a)) → safe (result_bind r k).
Proof. destruct r as [a|[]]; simpl; auto. Qed.

Lemma safe_fold {A B} (f : B → A → result B) l b :
  (∀ b x, x ∈ l → safe (f b x)) → safe (fold_result f l b).
Proof.
  revert b. induction l as [|x l IH]; intros b Hf; cbn [fold_result]; [done|].
  apply safe_bind; [apply Hf; by left|]. intros b' _. apply IH. intros. apply Hf. by right.
Qed.

(** Split a goal [safe _] along the control flow. *)
Ltac safe_step :=
  match goal with
  | |- safe (Ok _) => exact I
  | |- safe (Err _) => exact I
  | |- safe (let _ := _ in _) => cbv zeta
  | |- safe (result_bind _ _) => apply safe_bind; [|intros ? ?]
  | |- safe (if ?c then _ else _) => destruct c eqn:?
  | |- safe (match ?x with _ => _ end) => destruct x eqn:?
  | |- safe (fold_result _ _ _) => apply safe_fold; intros ? ? ?
  end.
