(* ===== verification/UserState.v ===== *)
(** * User credentials and authenticated sessions

    Model of src/runtime/sing-box/common/userstate/manager.go: the [Manager]
    that couples credential publication with the sessions authenticated by
    those credentials.  Go pointers are natural numbers into per-type heaps
    kept in one [World]; a Go closure captured by [Prepare] is the record of
    the variables it captures. *)
From S2P Require Import Prelude.

(** ** Data *)

(** manager.go, [Identity].  [id_manager] is the manager pointer. *)
Record Identity := mkIdentity {
  id_manager : nat;
  id_Name : string;
  id_valid : bool;
}.

(** manager.go, [entry]. *)
Record entry := mkEntry {
  e_fingerprint : string;
  e_identity : nat;
}.

(** manager.go, [Table]. *)
Record Table := mkTable {
  t_manager : nat;
  t_users : gmap string entry;
}.

(** manager.go, [Manager]; the two locks are modelled by the atomicity of the
    steps below.  [m_counters] holds pointers to traffic counters. *)
Record Manager := mkManager {
  m_sessions : gmap nat (gset nat);
  m_counters : gmap (string * string) nat;
}.

(** manager.go, [Session].  [s_conn], [s_closeTransport] and [s_extra] name
    the closable resources the session owns. *)
Record Session := mkSession {
  s_conn : nat;
  s_closeTransport : option nat;
  s_manager : nat;
  s_identity : option nat;
  s_closed : bool;
  s_extra : list nat;
}.

(** traffic.go, [TrafficCounter]: two [atomic.Int64]. *)
Record TrafficCounter := mkTrafficCounter { upload : Z; download : Z }.

(** The externally visible effects, in order. *)
Inductive event :=
| EvCancel (s : nat)        (** the session's context is cancelled *)
| EvCloseConn (c : nat).    (** [Close] is called on a resource *)

Record World := mkWorld {
  managers : gmap nat Manager;
  identities : gmap nat Identity;
  tables : gmap nat Table;
  sessions : gmap nat Session;
  counters : gmap nat TrafficCounter;
  events : list event;
}.

#[export] Instance entry_eq_dec : EqDecision entry.
Proof. solve_decision. Defined.
#[export] Instance event_eq_dec : EqDecision event.
Proof. solve_decision. Defined.

(** The context a protocol handler passes around: its error, if it is already
    cancelled, and the session stored under [sessionKey]. *)
Record Ctx := mkCtx { ctx_Err : option error; ctx_session : option nat }.

(** A [map[string]bool] read as Go reads it: a missing key is [false]. *)
Definition flag (m : gmap string bool) (k : string) : bool := default false (m !! k).

(** ** Field updates *)

Definition set_managers (f : gmap nat Manager → gmap nat Manager) (w : World) : World :=
  mkWorld (f (managers w)) (identities w) (tables w) (sessions w) (counters w) (events w).
Definition set_identities (f : gmap nat Identity → gmap nat Identity) (w : World) : World :=
  mkWorld (managers w) (f (identities w)) (tables w) (sessions w) (counters w) (events w).
Definition set_tables (f : gmap nat Table → gmap nat Table) (w : World) : World :=
  mkWorld (managers w) (identities w) (f (tables w)) (sessions w) (counters w) (events w).
Definition set_sessions (f : gmap nat Session → gmap nat Session) (w : World) : World :=
  mkWorld (managers w) (identities w) (tables w) (f (sessions w)) (counters w) (events w).
Definition emit (es : list event) (w : World) : World :=
  mkWorld (managers w) (identities w) (tables w) (sessions w) (counters w) (events w ++ es).
Definition set_valid (b : bool) (i : nat) (w : World) : World :=
  set_identities (alter (λ x, mkIdentity (id_manager x) (id_Name x) b) i) w.

(** [m.sessions[identity]], where a missing key is the nil map. *)
Definition sessions_of (mg : Manager) (i : nat) : gset nat := default ∅ (m_sessions mg !! i).

(** ** Operations *)

(** manager.go, [NewManager]. *)
Definition NewManager (w : World) : World * nat :=
  let m := fresh (dom (managers w)) in
  (set_managers <[m := mkManager ∅ ∅]> w, m).

(** manager.go, [(m *Manager) NewTable]. *)
Definition NewTable (m : nat) (w : World) : World * nat :=
  let t := fresh (dom (tables w)) in
  (set_tables <[t := mkTable m ∅]> w, t).

(** The variables captured by the publication closure [Prepare] returns. *)
Record Publication := mkPublication {
  p_table : nat;
  p_retired : list nat;
  p_next : gmap string entry;
}.

(** One iteration of the first loop of [Prepare]: keep the entry whose
    fingerprint is unchanged and not forced, or allocate a new identity. *)
Definition prepare_entry (tb : Table) (force : gmap string bool)
    (acc : World * gmap string entry) (kv : string * string) : World * gmap string entry :=
  let '(w, next) := acc in
  let '(name, fingerprint) := kv in
  let allocate :=
    let i := fresh (dom (identities w)) in
    (set_identities <[i := mkIdentity (t_manager tb) name false]> w,
     <[name := mkEntry fingerprint i]> next) in
  match t_users tb !! name with
  | Some old =>
      if bool_decide (e_fingerprint old ≠ fingerprint) || flag force name then allocate
      else (w, <[name := old]> next)
  | None => allocate
  end.

(** The second loop of [Prepare]: every current identity the next table does
    not carry over is retired. *)
Definition retired_of (users next : gmap string entry) : list nat :=
  omap (λ kv : string * entry,
          if bool_decide (e_identity <$> next !! kv.1 = Some (e_identity kv.2)) then None
          else Some (e_identity kv.2))
       (map_to_list users).

(** manager.go, [(t *Table) Prepare].  It returns the identities by name and
    the publication; the only effect is the allocation of new identities. *)
Definition Prepare (t : nat) (tb : Table) (fingerprints : gmap string string)
    (force : gmap string bool) (w : World) : World * gmap string nat * Publication :=
  let '(w', next) := foldl (prepare_entry tb force) (w, ∅) (map_to_list fingerprints) in
  (w', e_identity <$> next, mkPublication t (retired_of (t_users tb) next) next).

(** The closure returned by [Prepare], run inside [Commit]. *)
Definition publish (p : Publication) (w : World) : World * list nat :=
  let w1 := foldl (λ w i, set_valid false i w) w (p_retired p) in
  let w2 := foldl (λ w e, set_valid true (e_identity e) w) w1 (map_to_list (p_next p)).*2 in
  (set_tables (alter (λ tb, mkTable (t_manager tb) (p_next p)) (p_table p)) w2, p_retired p).

(** manager.go, [(s *Session) Close].  The second component is the resource
    whose [Close] result is returned, [None] for an already closed session. *)
Definition Session_Close (s : nat) (w : World) : World * option nat :=
  match sessions w !! s with
  | None => (w, None)
  | Some se =>
      if s_closed se then (w, None)
      else
        let unregister (mg : Manager) : Manager :=
          match s_identity se with
          | None => mg
          | Some i =>
              let rest := sessions_of mg i ∖ {[s]} in
              mkManager
                (if bool_decide (size rest = 0) then delete i (m_sessions mg)
                 else <[i := rest]> (m_sessions mg))
                (m_counters mg)
          end in
        let w1 := set_managers (alter unregister (s_manager se)) w in
        let w2 := set_sessions
          <[s := mkSession (s_conn se) (s_closeTransport se) (s_manager se) (s_identity se)
                           true []]> w1 in
        (emit (EvCancel s ::
               match s_closeTransport se with Some c => [EvCloseConn c] | None => [] end ++
               [EvCloseConn (s_conn se)] ++ (EvCloseConn <$> s_extra se)) w2,
         Some (s_conn se))
  end.

(** The sessions [Commit] collects for the retired identities. *)
Definition collect (mg : Manager) (retired : list nat) : list nat :=
  retired ≫= λ i, elements (sessions_of mg i).

(** The part of [Commit] that runs under the gate: publish, then collect the
    sessions of the retired identities. *)
Definition commit_gate (m : nat) (publish : World → World * list nat) (w : World)
    : World * list nat :=
  let '(w1, retired) := publish w in
  (w1, match managers w1 !! m with Some mg => collect mg retired | None => [] end).

Definition close_all (ss : list nat) (w : World) : World :=
  foldl (λ w s, (Session_Close s w).1) w ss.

(** manager.go, [(m *Manager) Commit]: the gated part, then closing each
    collected session after the gate is released. *)
Definition Commit (m : nat) (publish : World → World * list nat) (w : World) : World * nat :=
  let '(w1, ss) := commit_gate m publish w in
  (close_all ss w1, length ss).

(** The publication [Table.Close] passes to [Commit]. *)
Definition close_publish (t : nat) (w : World) : World * list nat :=
  match tables w !! t with
  | None => (w, [])
  | Some tb =>
      let retired := e_identity <$> (map_to_list (t_users tb)).*2 in
      (set_tables <[t := mkTable (t_manager tb) ∅]> (foldl (λ w i, set_valid false i w) w retired),
       retired)
  end.

(** manager.go, [(t *Table) Close]. *)
Definition Table_Close (t : nat) (w : World) : World :=
  match tables w !! t with
  | None => w
  | Some tb => (Commit (t_manager tb) (close_publish t) w).1
  end.

(** manager.go, [(m *Manager) NewSession]; [transport] is the variadic tail,
    of which only the first element is kept. *)
Definition NewSession (m conn : nat) (transport : list nat) (w : World) : World * Ctx * nat :=
  let s := fresh (dom (sessions w)) in
  (set_sessions <[s := mkSession conn (head transport) m None false []]> w,
   mkCtx None (Some s), s).

(** manager.go, [Bind]: admission of an authenticated session. *)
Definition Bind (ctx : Ctx) (identity : option nat) (w : World) : World * option error :=
  match ctx_Err ctx with
  | Some err => (w, Some err)
  | None =>
      match ctx_session ctx ≫= λ s, pair s <$> sessions w !! s,
            identity ≫= λ i, pair i <$> identities w !! i with
      | Some (s, se), Some (i, idn) =>
          let m := s_manager se in
          if bool_decide (id_manager idn ≠ m) || negb (id_valid idn) then (w, Some ErrRevoked)
          else if s_closed se ||
                  (bool_decide (is_Some (s_identity se)) &&
                   bool_decide (s_identity se ≠ Some i)) then (w, Some ErrRevoked)
          else if bool_decide (s_identity se = None) then
            let register (mg : Manager) : Manager :=
              mkManager (<[i := sessions_of mg i ∪ {[s]}]> (m_sessions mg)) (m_counters mg) in
            (set_managers (alter register m)
               (set_sessions <[s := mkSession (s_conn se) (s_closeTransport se) m (Some i)
                                              (s_closed se) (s_extra se)]> w),
             None)
          else (w, None)
      | _, _ => (w, Some ErrRevoked)
      end
  end.

(** manager.go, [Attach]: a resource whose lifetime is the session's. *)
Definition Attach (ctx : Ctx) (closer : nat) (w : World) : World * option error :=
  match ctx_session ctx ≫= λ s, pair s <$> sessions w !! s with
  | None => (emit [EvCloseConn closer] w, Some ErrRevoked)
  | Some (s, se) =>
      if s_closed se then (emit [EvCloseConn closer] w, Some ErrRevoked)
      else (set_sessions <[s := mkSession (s_conn se) (s_closeTransport se) (s_manager se)
                                  (s_identity se) (s_closed se) (s_extra se ++ [closer])]> w,
            None)
  end.

(** manager.go, [Key]. *)
Definition Key (name : string) (index : nat) : string :=
  if bool_decide (name ≠ "") then name
  else String (Ascii.ascii_of_nat 0) ("anonymous:" +:+ pretty (N.of_nat index)).

(** manager.go, [(m *Manager) SessionCount]. *)
Definition SessionCount (m : nat) (w : World) : nat :=
  match managers w !! m with
  | None => 0
  | Some mg => foldl (λ count ss, count + size ss) 0 (map_to_list (m_sessions mg)).*2
  end.

#[global] Arguments publish : simpl never.
#[global] Arguments Session_Close : simpl never.
#[global] Arguments Bind : simpl never.
#[global] Arguments Prepare : simpl never.
