(* ===== verification/UserStateInv.v ===== *)
(** * Invariants of the user-state manager under interleaving

    The steps below are the atomic sections of
    src/runtime/sing-box/common/userstate/manager.go: [Bind] and the gated
    part of [Commit] exclude each other through [Manager.gate], and the
    closing loop of [Commit] runs one [Session.Close] at a time after the gate
    is released.  [Prepare], publication and [Table.Close] are serialised by
    [Box.reloadMu]; admission and session teardown interleave freely. *)
From S2P Require Import Prelude UserState.

(** ** Views of a world *)

Definition registered (w : World) (m i s : nat) : Prop :=
  ∃ mg, managers w !! m = Some mg ∧ s ∈ sessions_of mg i.

Definition open_bound (w : World) (s m i : nat) : Prop :=
  ∃ se, sessions w !! s = Some se ∧ s_manager se = m ∧ s_identity se = Some i ∧
        s_closed se = false.

Definition owner (w : World) (t : nat) (name : string) (i : nat) : Prop :=
  ∃ tb e, tables w !! t = Some tb ∧ t_users tb !! name = Some e ∧ e_identity e = i.

Definition is_valid (w : World) (i : nat) : Prop :=
  ∃ idn, identities w !! i = Some idn ∧ id_valid idn = true.

(** What a prepared publication promises about the world it will run in. *)
Definition prepared_ok (w : World) (p : Publication) : Prop :=
  ∃ tb, tables w !! p_table p = Some tb ∧
    p_retired p = retired_of (t_users tb) (p_next p) ∧
    ∀ name e, p_next p !! name = Some e →
      t_users tb !! name = Some e ∨
      (identities w !! e_identity e = Some (mkIdentity (t_manager tb) name false)).

(** ** The invariant *)

Record Inv (w : World) (pending : list nat) (prep : list Publication) : Prop := {
  inv_mgr : ∀ s se, sessions w !! s = Some se → is_Some (managers w !! s_manager se);
  inv_reg : ∀ m i s, registered w m i s ↔ open_bound w s m i;
  inv_ne : ∀ m mg i ss, managers w !! m = Some mg → m_sessions mg !! i = Some ss → ss ≠ ∅;
  inv_sid : ∀ s se i, sessions w !! s = Some se → s_identity se = Some i →
    ∃ idn, identities w !! i = Some idn ∧ id_manager idn = s_manager se;
  inv_own : ∀ t tb name e, tables w !! t = Some tb → t_users tb !! name = Some e →
    identities w !! e_identity e = Some (mkIdentity (t_manager tb) name true);
  inv_inj : ∀ t name t' name' i, owner w t name i → owner w t' name' i → t = t' ∧ name = name';
  inv_valid : ∀ i, is_valid w i → ∃ t name, owner w t name i;
  inv_pend : ∀ s m i, open_bound w s m i → ¬ is_valid w i → s ∈ pending;
  inv_prep_nodup : NoDup (p_table <$> prep);
  inv_prep : ∀ p, p ∈ prep → prepared_ok w p;
  inv_prep_inj : ∀ p p' name name' e e', p ∈ prep → p' ∈ prep →
    p_next p !! name = Some e → p_next p' !! name' = Some e' →
    e_identity e = e_identity e' → p_table p = p_table p' ∧ name = name';
}.

(** ** Frames: what the loops over [set_valid] touch *)

Lemma foldl_set_valid_frame {A} (f : A → nat) b l w :
  let w' := foldl (λ w x, set_valid b (f x) w) w l in
  managers w' = managers w ∧ tables w' = tables w ∧ sessions w' = sessions w ∧
  counters w' = counters w ∧ events w' = events w.
Proof. revert w; induction l as [|x l IH]; intros w; simpl; [done|]. apply (IH (set_valid _ _ _)). Qed.

Definition with_valid (b : bool) (x : Identity) : Identity :=
  mkIdentity (id_manager x) (id_Name x) b.

Lemma foldl_set_valid_lookup {A} (f : A → nat) b l w j :
  identities (foldl (λ w x, set_valid b (f x) w) w l) !! j =
  (if decide (j ∈ f <$> l) then with_valid b <$> identities w !! j else identities w !! j).
Proof.
  revert w; induction l as [|x l IH]; intros w; simpl; [done|].
  rewrite IH; simpl. rewrite lookup_alter.
  destruct (decide (f x = j)) as [->|Hne]; simpl; repeat case_decide; try set_solver;
    by destruct (identities w !! j).
Qed.

(** The identities a publication makes valid. *)
Definition next_ids (p : Publication) : list nat := e_identity <$> (map_to_list (p_next p)).*2.

Lemma elem_of_next_ids p i :
  i ∈ next_ids p ↔ ∃ name e, p_next p !! name = Some e ∧ e_identity e = i.
Proof.
  unfold next_ids. rewrite list_elem_of_fmap. setoid_rewrite list_elem_of_fmap.
  split.
  - intros (e & -> & [name e'] & -> & Hin%elem_of_map_to_list). eauto.
  - intros (name & e & Hl & <-). exists e; split; [done|].
    exists (name, e); split; [done|]. by apply elem_of_map_to_list.
Qed.

(** The identities after a publication: those of the next table are valid,
    the retired ones are not, every other identity is untouched. *)
Lemma publish_identities p w j :
  identities (publish p w).1 !! j =
  (if decide (j ∈ next_ids p) then with_valid true <$> identities w !! j
   else if decide (j ∈ p_retired p) then with_valid false <$> identities w !! j
   else identities w !! j).
Proof.
  unfold publish; simpl.
  rewrite (foldl_set_valid_lookup e_identity).
  rewrite (foldl_set_valid_lookup id), list_fmap_id. fold (next_ids p).
  repeat case_decide; try done. by destruct (identities w !! j).
Qed.

Lemma publish_frame p w :
  managers (publish p w).1 = managers w ∧ sessions (publish p w).1 = sessions w ∧
  counters (publish p w).1 = counters w ∧ events (publish p w).1 = events w ∧
  tables (publish p w).1 = alter (λ tb, mkTable (t_manager tb) (p_next p)) (p_table p) (tables w).
Proof.
  unfold publish; simpl.
  destruct (foldl_set_valid_frame e_identity true (map_to_list (p_next p)).*2
             (foldl (λ w i, set_valid false i w) w (p_retired p))) as (-> & -> & -> & -> & ->).
  pose proof (foldl_set_valid_frame (λ i, i) false (p_retired p) w) as Hf; simpl in Hf.
  by destruct Hf as (-> & -> & -> & -> & ->).
Qed.

(** An identity of the current table is retired exactly when the next table
    does not carry it over under the same name. *)
Lemma elem_of_retired_of users next i :
  i ∈ retired_of users next ↔
  ∃ name e, users !! name = Some e ∧ e_identity e = i ∧
            e_identity <$> next !! name ≠ Some i.
Proof.
  unfold retired_of. rewrite list_elem_of_omap. split.
  - intros ([name e] & Hin%elem_of_map_to_list & Hf); simpl in *.
    case_bool_decide; simplify_eq. eauto.
  - intros (name & e & Hu & <- & Hne). exists (name, e).
    split; [by apply elem_of_map_to_list|]. simpl. by rewrite bool_decide_eq_false_2.
Qed.

(** ** Publication preserves the invariant *)

Lemma is_valid_eq w i idn : identities w !! i = Some idn → is_valid w i ↔ id_valid idn = true.
Proof. unfold is_valid. naive_solver. Qed.

Lemma publish_owner p w t name i :
  (∃ tb, tables w !! p_table p = Some tb) →
  owner (publish p w).1 t name i ↔
  (t = p_table p ∧ ∃ e, p_next p !! name = Some e ∧ e_identity e = i) ∨
  (t ≠ p_table p ∧ owner w t name i).
Proof.
  intros [tb Htb]. unfold owner.
  destruct (publish_frame p w) as (_ & _ & _ & _ & ->).
  destruct (decide (t = p_table p)) as [->|Hne].
  - rewrite lookup_alter_eq, Htb; simpl. naive_solver.
  - rewrite lookup_alter_ne by done. naive_solver.
Qed.

Section publish.
Context (w : World) (pending : list nat) (p : Publication) (prep : list Publication).
Context (HI : Inv w pending (p :: prep)).
Context (tb : Table) (Htb : tables w !! p_table p = Some tb).

Lemma publish_prepared : prepared_ok w p.
Proof. apply (inv_prep _ _ _ HI). set_solver. Qed.

Lemma publish_retired_owner i : i ∈ p_retired p → ∃ name e,
  t_users tb !! name = Some e ∧ e_identity e = i ∧ e_identity <$> p_next p !! name ≠ Some i.
Proof.
  destruct publish_prepared as (tb' & Htb' & Hret & _). simplify_eq.
  rewrite Hret. apply elem_of_retired_of.
Qed.

Lemma publish_retired_identity i : i ∈ p_retired p → ∃ name,
  identities w !! i = Some (mkIdentity (t_manager tb) name true).
Proof.
  intros (name & e & Hu & <- & _)%publish_retired_owner.
  exists name. by eapply inv_own.
Qed.

Lemma publish_next_identity name e : p_next p !! name = Some e →
  with_valid true <$> identities w !! e_identity e = Some (mkIdentity (t_manager tb) name true).
Proof.
  intros Hn. destruct publish_prepared as (tb' & Htb' & _ & Hnext). simplify_eq.
  destruct (Hnext _ _ Hn) as [Hu | ->]; [|done].
  by rewrite (inv_own _ _ _ HI _ _ _ _ Htb Hu).
Qed.

Lemma publish_inv_own t' tb' name e :
  tables (publish p w).1 !! t' = Some tb' → t_users tb' !! name = Some e →
  identities (publish p w).1 !! e_identity e = Some (mkIdentity (t_manager tb') name true).
Proof.
  intros Ht' Hu. rewrite publish_identities.
  destruct (publish_frame p w) as (_ & _ & _ & _ & Hta). rewrite Hta in Ht'.
  destruct (decide (t' = p_table p)) as [->|Hne].
  - rewrite lookup_alter_eq, Htb in Ht'. simplify_eq/=.
    rewrite decide_True by (apply elem_of_next_ids; eauto).
    by apply publish_next_identity.
  - rewrite lookup_alter_ne in Ht' by done.
    pose proof (inv_own _ _ _ HI _ _ _ _ Ht' Hu) as Hown.
    repeat case_decide; rewrite ?Hown; try done. exfalso.
    apply publish_retired_owner in H0 as (name' & e' & Hu' & He' & _).
    destruct (inv_inj _ _ _ HI t' name (p_table p) name' (e_identity e)) as [? _];
      [by eexists _, _|by eexists _, _|done].
Qed.

Lemma publish_inv_inj t1 n1 t2 n2 i :
  owner (publish p w).1 t1 n1 i → owner (publish p w).1 t2 n2 i → t1 = t2 ∧ n1 = n2.
Proof.
  assert (∀ name e t' n', p_next p !! name = Some e → t' ≠ p_table p →
            ¬ owner w t' n' (e_identity e)) as Hsep.
  { intros name e t' n' Hn Hne (tb' & e' & Ht' & Hu' & He').
    pose proof (inv_own _ _ _ HI _ _ _ _ Ht' Hu') as Hown. rewrite He' in Hown.
    destruct publish_prepared as (tb'' & ? & _ & Hnext). simplify_eq.
    destruct (Hnext _ _ Hn) as [Hu | Hfr]; [|congruence].
    destruct (inv_inj _ _ _ HI t' n' (p_table p) name (e_identity e)) as [? _];
      [by eexists _, _|by eexists _, _|done]. }
  rewrite !publish_owner by eauto.
  intros [[-> (e1 & Hn1 & He1)]|[Ht1 Ho1]] [[-> (e2 & Hn2 & He2)]|[Ht2 Ho2]].
  - eapply (inv_prep_inj _ _ _ HI p p); [set_solver|set_solver|done|done|congruence].
  - subst i. by edestruct Hsep.
  - subst i. by edestruct Hsep.
  - by eapply (inv_inj _ _ _ HI).
Qed.

Lemma publish_inv_valid i : is_valid (publish p w).1 i → ∃ t name, owner (publish p w).1 t name i.
Proof.
  intros (idn & Hi & Hv). rewrite publish_identities in Hi.
  destruct (decide (i ∈ next_ids p)) as [Hin|Hnin].
  { apply elem_of_next_ids in Hin as (name & e & Hn & He).
    exists (p_table p), name. apply publish_owner; eauto. }
  destruct (decide (i ∈ p_retired p)) as [Hr|Hr].
  { destruct (identities w !! i); simplify_eq/=. }
  destruct (inv_valid _ _ _ HI i) as (t & name & Ho); [by exists idn|].
  exists t, name. apply publish_owner; [by eauto|].
  destruct (decide (t = p_table p)) as [->|]; [left|by right]. split; [done|].
  destruct Ho as (tb' & e & ? & Hu & He). simplify_eq.
  destruct publish_prepared as (tb'' & ? & Hret & _). simplify_eq.
  destruct (decide (e_identity <$> p_next p !! name = Some (e_identity e))) as [Heq|Hneq].
  - apply fmap_Some in Heq as (e' & ? & ?). eauto.
  - exfalso. apply Hr. rewrite Hret. apply elem_of_retired_of. eauto.
Qed.

Lemma publish_inv_pend m mg s m' i :
  managers w !! m = Some mg → t_manager tb = m →
  open_bound (publish p w).1 s m' i → ¬ is_valid (publish p w).1 i →
  s ∈ pending ++ collect mg (p_retired p).
Proof.
  intros Hmg Htm Hb Hv. unfold open_bound in Hb.
  destruct (publish_frame p w) as (_ & Hse & _). rewrite Hse in Hb.
  fold (open_bound w s m' i) in Hb.
  rewrite elem_of_app.
  destruct Hb as (se & Hs & Hm' & Hid & Hcl).
  destruct (inv_sid _ _ _ HI _ _ _ Hs Hid) as (idn & Hi & Him).
  destruct (id_valid idn) eqn:Hvi; [right|left].
  - unfold is_valid in Hv. rewrite publish_identities, Hi in Hv. simpl in Hv.
    destruct (decide (i ∈ next_ids p)); [naive_solver|].
    destruct (decide (i ∈ p_retired p)) as [Hr|]; [|naive_solver].
    destruct (publish_retired_identity _ Hr) as (name & Hi'). simplify_eq/=.
    apply list_elem_of_bind. exists i. split; [|done]. apply elem_of_elements.
    destruct (proj2 (inv_reg _ _ _ HI (s_manager se) i s)) as (mg' & ? & ?).
    { by exists se. }
    congruence.
  - eapply (inv_pend _ _ _ HI s m' i); [by exists se|].
    rewrite is_valid_eq by done. congruence.
Qed.

Lemma publish_prepared_other p' : p' ∈ prep → prepared_ok (publish p w).1 p'.
Proof.
  intros Hp'.
  assert (p_table p' ≠ p_table p) as Hne.
  { pose proof (inv_prep_nodup _ _ _ HI) as Hnd. rewrite fmap_cons, NoDup_cons in Hnd.
    destruct Hnd as [Hni _]. intros Heq. apply Hni. rewrite <-Heq.
    by apply list_elem_of_fmap_2. }
  destruct (inv_prep _ _ _ HI p') as (tb' & Ht' & Hret & Hnext); [set_solver|].
  exists tb'. destruct (publish_frame p w) as (_ & _ & _ & _ & ->).
  rewrite lookup_alter_ne by done. split; [done|]. split; [done|].
  intros name e Hn. destruct (Hnext _ _ Hn) as [?|Hfr]; [by left|right].
  rewrite publish_identities, Hfr. repeat case_decide; [exfalso|exfalso|done].
  - apply elem_of_next_ids in H as (name' & e' & Hn' & He').
    apply Hne. by eapply (inv_prep_inj _ _ _ HI p' p); [set_solver|set_solver|done..].
  - apply publish_retired_identity in H0 as [? ?]. congruence.
Qed.

Lemma publish_inv m mg :
  managers w !! m = Some mg → t_manager tb = m →
  Inv (publish p w).1 (pending ++ collect mg (p_retired p)) prep.
Proof.
  intros Hmg Htm. destruct (publish_frame p w) as (Hman & Hses & _ & _ & _).
  constructor.
  - rewrite Hses, Hman. apply (inv_mgr _ _ _ HI).
  - intros m' i s. unfold registered, open_bound. rewrite Hses, Hman. apply (inv_reg _ _ _ HI).
  - rewrite Hman. apply (inv_ne _ _ _ HI).
  - rewrite Hses. intros s se i Hs Hid.
    destruct (inv_sid _ _ _ HI _ _ _ Hs Hid) as (idn & Hi & Him).
    rewrite publish_identities, Hi. repeat case_decide; simpl; eauto.
  - apply publish_inv_own.
  - apply publish_inv_inj.
  - apply publish_inv_valid.
  - intros s m' i. by eapply publish_inv_pend.
  - pose proof (inv_prep_nodup _ _ _ HI) as Hnd. by inversion Hnd.
  - apply publish_prepared_other.
  - intros p1 p2 n1 n2 e1 e2 Hp1 Hp2.
    eapply (inv_prep_inj _ _ _ HI p1 p2); set_solver.
Qed.
End publish.

(** The composite publication run inside one [Commit]: every prepared
    publication in order, the retired identities concatenated. *)
Fixpoint publish_all (ps : list Publication) (w : World) : World * list nat :=
  match ps with
  | [] => (w, [])
  | p :: ps =>
      let '(w1, retired) := publish p w in
      let '(w2, rest) := publish_all ps w1 in
      (w2, retired ++ rest)
  end.

Lemma publish_all_cons p ps w :
  publish_all (p :: ps) w =
  ((publish_all ps (publish p w).1).1, p_retired p ++ (publish_all ps (publish p w).1).2).
Proof.
  change (publish_all (p :: ps) w) with
    (let '(w1, retired) := publish p w in
     let '(w2, rest) := publish_all ps w1 in (w2, retired ++ rest)).
  rewrite (surjective_pairing (publish p w)).
  by rewrite (surjective_pairing (publish_all ps _)).
Qed.

Lemma publish_all_frame ps w :
  managers (publish_all ps w).1 = managers w ∧ sessions (publish_all ps w).1 = sessions w.
Proof.
  revert w; induction ps as [|p ps IH]; intros w; [done|].
  rewrite publish_all_cons; cbn [fst].
  destruct (IH (publish p w).1) as [-> ->], (publish_frame p w) as (-> & -> & _). done.
Qed.

Lemma publish_all_inv m mg ps w pending prep :
  Inv w pending (ps ++ prep) → managers w !! m = Some mg →
  (∀ p tb, p ∈ ps → tables w !! p_table p = Some tb → t_manager tb = m) →
  Inv (publish_all ps w).1 (pending ++ collect mg (publish_all ps w).2) prep.
Proof.
  revert w pending; induction ps as [|p ps IH]; intros w pending HI Hmg Hm.
  { simpl. by rewrite app_nil_r. }
  rewrite publish_all_cons; cbn [fst snd].
  destruct (inv_prep _ _ _ HI p) as (tb & Htb & _); [set_solver|].
  destruct (publish_frame p w) as (Hman & _ & _ & _ & Hta).
  unfold collect. rewrite bind_app, app_assoc. apply IH.
  - eapply publish_inv; [done..|]. apply (Hm p); [left|done].
  - by rewrite Hman.
  - intros p' tb' Hp' Htb'. rewrite Hta in Htb'.
    destruct (decide (p_table p' = p_table p)) as [Heq|Hne].
    + rewrite Heq, lookup_alter_eq, Htb in Htb'. simplify_eq/=.
      by apply (Hm p); [left|].
    + rewrite lookup_alter_ne in Htb' by done. by apply (Hm p'); [right|].
Qed.

(** ** Session teardown preserves the invariant *)

(** The manager record after one session was taken out of its identity's set. *)
Definition unregister (s i : nat) (mg : Manager) : Manager :=
  let rest := sessions_of mg i ∖ {[s]} in
  mkManager
    (if bool_decide (size rest = 0) then delete i (m_sessions mg)
     else <[i := rest]> (m_sessions mg))
    (m_counters mg).

Lemma sessions_of_unregister s i mg j :
  sessions_of (unregister s i mg) j =
  (if decide (i = j) then sessions_of mg i ∖ {[s]} else sessions_of mg j).
Proof.
  unfold unregister, sessions_of at 1; simpl.
  case_bool_decide as Hz; case_decide as Hij; subst.
  - rewrite lookup_delete_eq; simpl. symmetry. by apply leibniz_equiv, size_empty_inv.
  - by rewrite lookup_delete_ne.
  - by rewrite lookup_insert_eq.
  - by rewrite lookup_insert_ne.
Qed.

Lemma unregister_ne s i mg j ss :
  (∀ j ss, m_sessions mg !! j = Some ss → ss ≠ ∅) →
  m_sessions (unregister s i mg) !! j = Some ss → ss ≠ ∅.
Proof.
  intros Hne. unfold unregister; simpl. case_bool_decide as Hz.
  - rewrite lookup_delete_Some. naive_solver.
  - rewrite lookup_insert_Some. intros [[-> <-]|[? ?]]; [|naive_solver].
    intros He. apply Hz. by rewrite He, size_empty.
Qed.

(** What [Session.Close] does to an open session's world. *)
Lemma Session_Close_open s se w :
  sessions w !! s = Some se → s_closed se = false →
  let w' := (Session_Close s w).1 in
  identities w' = identities w ∧ tables w' = tables w ∧ counters w' = counters w ∧
  sessions w' = <[s := mkSession (s_conn se) (s_closeTransport se) (s_manager se)
                         (s_identity se) true []]> (sessions w) ∧
  managers w' = match s_identity se with
                | None => managers w
                | Some i => alter (unregister s i) (s_manager se) (managers w)
                end.
Proof.
  intros Hs Hc. unfold Session_Close. rewrite Hs, Hc; simpl.
  split_and!; try done. destruct (s_identity se); [done|].
  apply map_eq; intros m. rewrite lookup_alter. case_decide; subst; [|done].
  by destruct (managers w !! _).
Qed.

Lemma Session_Close_noop s w :
  (∀ se, sessions w !! s = Some se → s_closed se = true) → Session_Close s w = (w, None).
Proof. intros H. unfold Session_Close. destruct (sessions w !! s); [|done]. by rewrite H. Qed.

(** The credential half of the invariant only reads identities and tables. *)
Lemma Inv_sessions w w' pending pending' prep :
  Inv w pending prep → identities w' = identities w → tables w' = tables w →
  (∀ s se, sessions w' !! s = Some se → is_Some (managers w' !! s_manager se)) →
  (∀ m i s, registered w' m i s ↔ open_bound w' s m i) →
  (∀ m mg i ss, managers w' !! m = Some mg → m_sessions mg !! i = Some ss → ss ≠ ∅) →
  (∀ s se i, sessions w' !! s = Some se → s_identity se = Some i →
     ∃ idn, identities w !! i = Some idn ∧ id_manager idn = s_manager se) →
  (∀ s m i, open_bound w' s m i → ¬ is_valid w i → s ∈ pending') →
  Inv w' pending' prep.
Proof.
  intros HI Hid Htb Hmgr Hreg Hne Hsid Hpend.
  constructor; try done; unfold owner, is_valid, prepared_ok in *; rewrite ?Hid, ?Htb; try apply HI.
  - done.
  - done.
Qed.

Lemma open_bound_det w s m i m' i' : open_bound w s m i → open_bound w s m' i' → m = m' ∧ i = i'.
Proof. intros (se & ? & ? & ? & ?) (se' & ? & ? & ? & ?). by simplify_eq. Qed.

Section close.
Context (w : World) (pending : list nat) (prep : list Publication) (HI : Inv w pending prep).
Context (s : nat) (se : Session) (Hs : sessions w !! s = Some se) (Hc : s_closed se = false).

Lemma Session_Close_open_bound s' m i :
  open_bound (Session_Close s w).1 s' m i ↔ s' ≠ s ∧ open_bound w s' m i.
Proof using Hs Hc.
  destruct (Session_Close_open s se w Hs Hc) as (_ & _ & _ & Hse & _).
  unfold open_bound. rewrite Hse. setoid_rewrite lookup_insert_Some.
  split; [intros (x & [[<- <-]|[? ?]] & ? & ? & ?); [done|by eauto 10]|].
  intros [? (x & ? & ?)]. exists x; split; [right|]; done.
Qed.

(** The closed session is registered only under its own identity. *)
Lemma registered_only_own m i :
  registered w m i s → m = s_manager se ∧ s_identity se = Some i.
Proof using HI Hs.
  intros Hr. apply (inv_reg _ _ _ HI) in Hr as (? & ? & ? & ? & ?). split; congruence.
Qed.

Lemma Session_Close_registered s' m i :
  registered (Session_Close s w).1 m i s' ↔ s' ≠ s ∧ registered w m i s'.
Proof using HI Hs Hc.
  destruct (Session_Close_open s se w Hs Hc) as (_ & _ & _ & _ & Hman).
  unfold registered at 1. rewrite Hman. split.
  - intros (mg' & Hmg' & Hin).
    destruct (decide (m = s_manager se ∧ s_identity se = Some i)) as [[-> Hi]|Hother].
    + rewrite Hi, lookup_alter_eq in Hmg'. apply fmap_Some in Hmg' as (mg & Hmg & ->).
      rewrite sessions_of_unregister, decide_True in Hin by done.
      split; [|exists mg]; set_solver.
    + assert (registered w m i s') as Hr; [|split; [intros ->; by apply Hother, registered_only_own|done]].
      destruct (s_identity se) as [j|]; [|by exists mg'].
      rewrite lookup_alter in Hmg'. case_decide; subst; [|by exists mg'].
      apply fmap_Some in Hmg' as (mg & Hmg & ->). exists mg; split; [done|].
      rewrite sessions_of_unregister in Hin. case_decide; set_solver.
  - intros [Hne (mg & Hmg & Hin)].
    destruct (s_identity se) as [j|]; [|by exists mg].
    rewrite lookup_alter. case_decide; subst; [|by exists mg].
    rewrite Hmg; simpl. eexists; split; [done|]. rewrite sessions_of_unregister.
    case_decide; subst; set_solver.
Qed.
End close.

Lemma Session_Close_inv s w pending pending' prep :
  Inv w pending prep → (∀ s', s' ∈ pending → s' = s ∨ s' ∈ pending') →
  Inv (Session_Close s w).1 pending' prep.
Proof.
  intros HI Hsub.
  destruct (sessions w !! s) as [se|] eqn:Hs; [destruct (s_closed se) eqn:Hc|].
  1,3: rewrite Session_Close_noop by congruence; cbn [fst];
    eapply Inv_sessions; [done..|apply HI|apply HI|apply HI|apply HI|];
    intros s' m i Hb Hv; destruct (Hsub s') as [->|]; [by eapply inv_pend| |done];
    destruct Hb as (? & ? & ? & ? & ?); congruence.
  destruct (Session_Close_open s se w Hs Hc) as (Hid & Htb & _ & Hse & Hman).
  eapply Inv_sessions; [exact HI|done|done|..].
  - intros s' se'. rewrite Hse, Hman, lookup_insert_Some.
    assert (is_Some (managers w !! s_manager se') →
            is_Some (match s_identity se with
                     | Some i => alter (unregister s i) (s_manager se) (managers w)
                     | None => managers w end !! s_manager se')) as Hk.
    { destruct (s_identity se); [|done]. rewrite lookup_alter. case_decide; [|done].
      intros Hx. apply fmap_is_Some. congruence. }
    intros [[<- <-]|[_ H]]; apply Hk; [exact (inv_mgr _ _ _ HI _ _ Hs)|exact (inv_mgr _ _ _ HI _ _ H)].
  - intros m i s'.
    rewrite (Session_Close_open_bound _ _ se), (Session_Close_registered _ _ _ HI _ se) by done.
    by rewrite (inv_reg _ _ _ HI).
  - intros m mg i ss Hmg. rewrite Hman in Hmg. destruct (s_identity se) as [j|].
    + rewrite lookup_alter in Hmg. case_decide; subst; [|by eapply (inv_ne _ _ _ HI)].
      apply fmap_Some in Hmg as (mg0 & Hmg0 & ->).
      apply unregister_ne. intros ??; by eapply (inv_ne _ _ _ HI).
    + by eapply (inv_ne _ _ _ HI).
  - intros s' se' i. rewrite Hse, lookup_insert_Some. intros [[<- <-]|[_ H]]; simpl;
      by eapply (inv_sid _ _ _ HI).
  - intros s' m i [Hne Hb]%(Session_Close_open_bound _ _ se Hs Hc) Hv.
    destruct (Hsub s') as [->|]; [by eapply (inv_pend _ _ _ HI)|done..].
Qed.

(** ** Admission preserves the invariant *)

Lemma sessions_of_register s i mg j :
  sessions_of (mkManager (<[i := sessions_of mg i ∪ {[s]}]> (m_sessions mg)) (m_counters mg)) j =
  (if decide (i = j) then sessions_of mg i ∪ {[s]} else sessions_of mg j).
Proof.
  unfold sessions_of at 1; simpl. case_decide; subst.
  - by rewrite lookup_insert_eq.
  - by rewrite lookup_insert_ne.
Qed.

(** The ways [Bind] can end: an error or a rebinding of the same identity
    leaves the world alone, an admission registers the session. *)
Lemma Bind_cases ctx io w :
  ((Bind ctx io w).1 = w) ∨
  (∃ s se i idn, ctx_session ctx = Some s ∧ io = Some i ∧ sessions w !! s = Some se ∧
     identities w !! i = Some idn ∧ id_manager idn = s_manager se ∧ id_valid idn = true ∧
     s_closed se = false ∧ s_identity se = None ∧
     Bind ctx io w =
       (set_managers
          (alter (λ mg, mkManager (<[i := sessions_of mg i ∪ {[s]}]> (m_sessions mg))
                                  (m_counters mg)) (s_manager se))
          (set_sessions <[s := mkSession (s_conn se) (s_closeTransport se) (s_manager se)
                                 (Some i) false (s_extra se)]> w), None)).
Proof.
  unfold Bind. destruct (ctx_Err ctx); [by left|].
  destruct (ctx_session ctx) as [s|]; simpl; [|by left].
  destruct (sessions w !! s) as [s0|] eqn:Hs; simpl; [|by left].
  destruct io as [i|]; simpl; [|by left].
  destruct (identities w !! i) as [idn|] eqn:Hi; simpl; [|by left].
  case_bool_decide as Hm; simpl; [by left|].
  destruct (id_valid idn) eqn:Hv; simpl; [|by left].
  destruct (s_closed s0) eqn:Hc; simpl; [by left|].
  destruct (s_identity s0) as [j|] eqn:Hj.
  - rewrite (bool_decide_eq_true_2 (is_Some _)) by eauto. simpl.
    repeat case_bool_decide; by left.
  - rewrite (bool_decide_eq_false_2 (is_Some _)) by (intros [? ?]; done). simpl.
    right. by exists s, s0, i, idn.
Qed.

Lemma Bind_inv ctx io w pending prep :
  Inv w pending prep → Inv (Bind ctx io w).1 pending prep.
Proof.
  intros HI. destruct (Bind_cases ctx io w) as [->|Hb]; [done|].
  destruct Hb as (s & se & i & idn & _ & _ & Hs & Hi & Him & Hv & Hc & Hnone & ->). cbn [fst].
  destruct (inv_mgr _ _ _ HI _ _ Hs) as [mg Hmg].
  set (w' := set_managers _ _).
  assert (∀ s' m j, open_bound w' s' m j ↔
            (s' = s ∧ m = s_manager se ∧ j = i) ∨ open_bound w s' m j) as Hob.
  { intros s' m j. unfold open_bound, w'; simpl. destruct (decide (s' = s)) as [->|Hne].
    - rewrite lookup_insert_eq, Hs. split.
      + intros (? & ? & ? & ? & ?). simplify_eq/=. by left.
      + intros [(_ & -> & ->)|(? & ? & ? & ? & ?)]; [eauto|congruence].
    - rewrite lookup_insert_ne by done. split; [by right|]. by intros [(? & _)|?]. }
  assert (∀ s' m j, registered w' m j s' ↔
            (s' = s ∧ m = s_manager se ∧ j = i) ∨ registered w m j s') as Hrg.
  { intros s' m j. unfold registered, w'; simpl. rewrite lookup_alter. case_decide; subst.
    - rewrite Hmg; simpl. setoid_rewrite (inj_iff Some). split.
      + intros (? & <- & Hin). rewrite sessions_of_register in Hin. case_decide; set_solver.
      + intros Hor. eexists; split; [done|]. rewrite sessions_of_register.
        case_decide; set_solver.
    - split; [by right|]. intros [(_ & ? & _)|?]; [congruence|done]. }
  eapply Inv_sessions; [exact HI|done|done|..].
  - intros s' se'. unfold w'; simpl. rewrite lookup_insert_Some, lookup_alter.
    intros [[<- <-]|[_ H]]; case_decide as Hd; try apply fmap_is_Some; simpl in *; try congruence.
    + by rewrite Hmg.
    + rewrite Hd. by eapply (inv_mgr _ _ _ HI).
    + by eapply (inv_mgr _ _ _ HI).
  - intros m j s'. rewrite Hob, Hrg. by rewrite (inv_reg _ _ _ HI).
  - intros m mg' j ss. unfold w'; simpl. rewrite lookup_alter. case_decide; subst.
    + rewrite Hmg. intros [= <-]; simpl. rewrite lookup_insert_Some.
      intros [[_ <-]|[_ H]]; [set_solver|by eapply (inv_ne _ _ _ HI)].
    + by apply (inv_ne _ _ _ HI).
  - intros s' se' j. unfold w'; simpl. rewrite lookup_insert_Some.
    intros [[<- <-]|[_ H]]; simpl; [intros [= <-]; by exists idn|by eapply (inv_sid _ _ _ HI)].
  - intros s' m j [(-> & -> & ->)|Hb]%Hob Hnv; [|by eapply (inv_pend _ _ _ HI)].
    destruct Hnv. by exists idn.
Qed.

(** A session update that keeps manager, identity and closed flag. *)
Lemma session_update_inv s se se' w pending prep :
  Inv w pending prep → sessions w !! s = Some se →
  s_manager se' = s_manager se → s_identity se' = s_identity se → s_closed se' = s_closed se →
  Inv (set_sessions <[s := se']> w) pending prep.
Proof.
  intros HI Hs Hm Hi Hc.
  assert (∀ s' m i, open_bound (set_sessions <[s := se']> w) s' m i ↔ open_bound w s' m i) as Hob.
  { intros s' m i. unfold open_bound; simpl. destruct (decide (s' = s)) as [->|Hne].
    - rewrite lookup_insert_eq, Hs. split; intros (? & ? & ? & ? & ?); simplify_eq;
        eexists; split_and!; try done; congruence.
    - by rewrite lookup_insert_ne. }
  eapply Inv_sessions; [exact HI|done|done|..]; simpl.
  - intros s' x. rewrite lookup_insert_Some. intros [[<- <-]|[_ H]].
    + rewrite Hm. by eapply (inv_mgr _ _ _ HI).
    + by eapply (inv_mgr _ _ _ HI).
  - intros m i s'. rewrite Hob. apply (inv_reg _ _ _ HI).
  - apply (inv_ne _ _ _ HI).
  - intros s' x i. rewrite lookup_insert_Some. intros [[<- <-]|[_ H]].
    + rewrite Hm, Hi. by eapply (inv_sid _ _ _ HI).
    + by eapply (inv_sid _ _ _ HI).
  - intros s' m i. rewrite Hob. apply (inv_pend _ _ _ HI).
Qed.

Lemma emit_inv es w pending prep : Inv w pending prep → Inv (emit es w) pending prep.
Proof. intros HI. eapply Inv_sessions; [exact HI|done|done|apply HI..]. Qed.

Lemma Attach_inv ctx c w pending prep : Inv w pending prep → Inv (Attach ctx c w).1 pending prep.
Proof.
  intros HI. unfold Attach. destruct (ctx_session ctx) as [s|]; simpl; [|by apply emit_inv].
  destruct (sessions w !! s) as [se|] eqn:Hs; simpl; [|by apply emit_inv].
  destruct (s_closed se) eqn:Hc; simpl; [by apply emit_inv|].
  by eapply session_update_inv.
Qed.

Lemma NewSession_inv m conn tr w pending prep :
  Inv w pending prep → is_Some (managers w !! m) →
  Inv (NewSession m conn tr w).1.1 pending prep.
Proof.
  intros HI Hm. unfold NewSession; cbn [fst]. set (s := fresh (dom (sessions w))).
  assert (sessions w !! s = None) as Hs.
  { apply not_elem_of_dom. apply is_fresh. }
  assert (∀ s' m' i, open_bound (set_sessions <[s := mkSession conn (head tr) m None false []]> w)
            s' m' i ↔ open_bound w s' m' i) as Hob.
  { intros s' m' i. unfold open_bound; simpl. destruct (decide (s' = s)) as [->|Hne].
    - rewrite lookup_insert_eq, Hs. split; intros (? & ? & ? & ? & ?); simplify_eq/=.
    - by rewrite lookup_insert_ne. }
  eapply Inv_sessions; [exact HI|done|done|..]; simpl.
  - intros s' x. rewrite lookup_insert_Some. intros [[<- <-]|[_ H]]; [done|].
    by eapply (inv_mgr _ _ _ HI).
  - intros m' i s'. rewrite Hob. apply (inv_reg _ _ _ HI).
  - apply (inv_ne _ _ _ HI).
  - intros s' x i. rewrite lookup_insert_Some. intros [[<- <-]|[_ H]]; [done|].
    by eapply (inv_sid _ _ _ HI).
  - intros s' m' i. rewrite Hob. apply (inv_pend _ _ _ HI).
Qed.

Lemma NewManager_inv w pending prep : Inv w pending prep → Inv (NewManager w).1 pending prep.
Proof.
  intros HI. unfold NewManager; cbn [fst]. set (m := fresh (dom (managers w))).
  assert (managers w !! m = None) as Hm.
  { apply not_elem_of_dom. apply is_fresh. }
  eapply Inv_sessions; [exact HI|done|done|..]; simpl.
  - intros s se Hs. destruct (inv_mgr _ _ _ HI _ _ Hs) as [mg Hmg].
    rewrite lookup_insert_ne by congruence. eauto.
  - intros m' i s. transitivity (registered w m' i s); [|apply (inv_reg _ _ _ HI)].
    unfold registered; simpl.
    destruct (decide (m' = m)) as [->|].
    + rewrite lookup_insert_eq, Hm. split; intros (? & ? & ?); simplify_eq.
      unfold sessions_of in *; simpl in *. set_solver.
    + by rewrite lookup_insert_ne.
  - intros m' mg i ss. rewrite lookup_insert_Some. intros [[<- <-]|[_ H]]; simpl.
    + by rewrite lookup_empty.
    + by eapply (inv_ne _ _ _ HI).
  - apply (inv_sid _ _ _ HI).
  - apply (inv_pend _ _ _ HI).
Qed.

(** ** Preparation *)

(** What the first loop of [Prepare] has established after visiting the
    pairs of [l]. *)
Record PrepareSpec (tb : Table) (force : gmap string bool) (w : World)
    (l : list (string * string)) (w' : World) (next : gmap string entry) : Prop := {
  ps_frame : managers w' = managers w ∧ tables w' = tables w ∧ sessions w' = sessions w ∧
             counters w' = counters w ∧ events w' = events w;
  ps_old : identities w ⊆ identities w';
  ps_new : ∀ i idn, identities w' !! i = Some idn → identities w !! i = None →
    id_valid idn = false;
  ps_next : ∀ name e, next !! name = Some e →
    (name, e_fingerprint e) ∈ l ∧
    ((t_users tb !! name = Some e ∧ flag force name = false) ∨
     (identities w !! e_identity e = None ∧
      identities w' !! e_identity e = Some (mkIdentity (t_manager tb) name false) ∧
      ∀ old, t_users tb !! name = Some old →
        e_fingerprint old ≠ e_fingerprint e ∨ flag force name = true));
  ps_dom : ∀ name fp, (name, fp) ∈ l → is_Some (next !! name);
}.

Lemma prepare_entry_cases tb force w next name fp :
  (∃ old, t_users tb !! name = Some old ∧ e_fingerprint old = fp ∧ flag force name = false ∧
     prepare_entry tb force (w, next) (name, fp) = (w, <[name := old]> next)) ∨
  ((∀ old, t_users tb !! name = Some old → e_fingerprint old ≠ fp ∨ flag force name = true) ∧
   ∃ i, identities w !! i = None ∧
     prepare_entry tb force (w, next) (name, fp) =
       (set_identities <[i := mkIdentity (t_manager tb) name false]> w,
        <[name := mkEntry fp i]> next)).
Proof.
  assert (identities w !! fresh (dom (identities w)) = None) as Hf.
  { apply not_elem_of_dom, is_fresh. }
  unfold prepare_entry. destruct (t_users tb !! name) as [old|] eqn:Hu; [|right; by eauto].
  case_bool_decide as Hfp; simpl; [right; split; [naive_solver|by eauto]|].
  destruct (flag force name) eqn:Hfl; [right; split; [naive_solver|by eauto]|].
  left. exists old. split_and!; try done.
Qed.

Lemma prepare_loop_spec tb force w l :
  NoDup l.*1 →
  PrepareSpec tb force w l (foldl (prepare_entry tb force) (w, ∅) l).1
                           (foldl (prepare_entry tb force) (w, ∅) l).2.
Proof.
  induction l as [|[name fp] l IH] using rev_ind; intros Hnd.
  { simpl. constructor; try done; [congruence|set_solver]. }
  rewrite fmap_app, NoDup_app in Hnd. destruct Hnd as (Hnd & Hni & _). specialize (IH Hnd).
  rewrite foldl_app. cbn [foldl].
  destruct (foldl (prepare_entry tb force) (w, ∅) l) as [w1 next]; cbn [fst snd] in *.
  destruct IH as [Hfr Hold Hnew Hnext Hdom].
  assert (next !! name = None) as Hnn.
  { destruct (next !! name) as [e|] eqn:He; [|done]. exfalso.
    apply Hnext in He as [Hin _]. apply (Hni name); [|set_solver].
    apply list_elem_of_fmap. by eexists (_, _). }
  destruct (prepare_entry_cases tb force w1 next name fp)
    as [(old & Hu & <- & Hfl & ->)|(Hch & i & Hi & ->)]; cbn [fst snd].
  - constructor; try done.
    + intros name' e. rewrite lookup_insert_Some. intros [[<- <-]|[Hne He]].
      * split; [set_solver|by left].
      * destruct (Hnext _ _ He) as [? ?]. split; [set_solver|done].
    + intros name' fp' [?|?]%elem_of_app; rewrite lookup_insert_is_Some'; [right; by eapply Hdom|].
      left. set_solver.
  - assert (∀ j idn, identities w1 !! j = Some idn → i ≠ j) as Hij by (intros ????; congruence).
    constructor; simpl; try done.
    + etrans; [exact Hold|]. by apply insert_subseteq.
    + intros j idn. rewrite lookup_insert_Some. intros [[<- <-]|[_ Hj]]; [done|by apply Hnew].
    + intros name' e. rewrite lookup_insert_Some. intros [[<- <-]|[Hne He]].
      * split; [set_solver|]. right. simpl. rewrite lookup_insert_eq. split_and!; try done.
        by eapply lookup_weaken_None.
      * destruct (Hnext _ _ He) as [Hin Hor]. split; [apply elem_of_app; by left|].
        destruct Hor as [?|(Hn1 & Hn2 & Hn3)]; [by left|].
        right. split_and!; try done. by rewrite lookup_insert_ne by (by eapply Hij).
    + intros name' fp' [?|?]%elem_of_app; rewrite lookup_insert_is_Some'; [right; by eapply Hdom|].
      left. set_solver.
Qed.

(** The new identities are pairwise distinct: the name is part of the identity. *)
Lemma prepare_fresh_inj tb force w l w' next n1 n2 e1 e2 :
  PrepareSpec tb force w l w' next →
  next !! n1 = Some e1 → next !! n2 = Some e2 → e_identity e1 = e_identity e2 →
  identities w !! e_identity e1 = None → 
  (∀ name e, t_users tb !! name = Some e → is_Some (identities w !! e_identity e)) → n1 = n2.
Proof.
  intros HS H1 H2 He Hf Hu.
  destruct (ps_next _ _ _ _ _ _ HS _ _ H1) as [_ [[Hu1 _]|(_ & Hi1 & _)]].
  { apply Hu in Hu1 as [? ?]. congruence. }
  destruct (ps_next _ _ _ _ _ _ HS _ _ H2) as [_ [[Hu2 _]|(_ & Hi2 & _)]].
  { apply Hu in Hu2 as [? ?]. congruence. }
  congruence.
Qed.

(** Allocating identities that are not yet valid preserves the invariant. *)
Lemma grow_identities_inv w w' pending prep :
  Inv w pending prep →
  managers w' = managers w → tables w' = tables w → sessions w' = sessions w →
  identities w ⊆ identities w' →
  (∀ i idn, identities w' !! i = Some idn → identities w !! i = None → id_valid idn = false) →
  Inv w' pending prep.
Proof.
  intros HI Hm Ht Hs Hsub Hnew.
  assert (∀ i, is_valid w' i ↔ is_valid w i) as Hv.
  { intros i. split; intros (idn & Hi & Hb); [|exists idn; split; [by eapply lookup_weaken|done]].
    destruct (identities w !! i) as [idn'|] eqn:Hi'.
    - pose proof (lookup_weaken _ _ _ _ Hi' Hsub). exists idn'. split; [done|congruence].
    - rewrite (Hnew i idn) in Hb by done. done. }
  constructor; unfold registered, open_bound, owner, prepared_ok; rewrite ?Hm, ?Ht, ?Hs;
    try apply HI.
  - intros s se i H1 H2. destruct (inv_sid _ _ _ HI _ _ _ H1 H2) as (idn & ? & ?).
    exists idn. split; [by eapply lookup_weaken|done].
  - intros t tb name e H1 H2. eapply lookup_weaken; [|done]. by eapply (inv_own _ _ _ HI).
  - intros i. rewrite Hv. apply (inv_valid _ _ _ HI).
  - intros s m i. rewrite Hv. apply (inv_pend _ _ _ HI).
  - intros p Hp. destruct (inv_prep _ _ _ HI p Hp) as (tb & ? & ? & Hn).
    exists tb. split_and!; [done..|]. intros name e He.
    destruct (Hn _ _ He); [by left|right]. by eapply lookup_weaken.
Qed.

(** The identity of an entry of a prepared publication determines where it is
    published, provided new identities were unknown before. *)
Lemma prepared_entry_inj w pending prep p p' name name' e e' :
  Inv w pending prep → prepared_ok w p → prepared_ok w p' →
  p_next p !! name = Some e → p_next p' !! name' = Some e' → e_identity e = e_identity e' →
  (∃ t n, owner w t n (e_identity e)) → p_table p = p_table p' ∧ name = name'.
Proof.
  intros HI (tb & Htb & _ & Hn) (tb' & Htb' & _ & Hn') He He' Heq (t & n & tb0 & e0 & H1 & H2 & H3).
  pose proof (inv_own _ _ _ HI _ _ _ _ H1 H2) as Hown. rewrite H3 in Hown.
  destruct (Hn _ _ He) as [Hu|?]; [|congruence].
  destruct (Hn' _ _ He') as [Hu'|?]; [|congruence].
  apply (inv_inj _ _ _ HI _ _ _ _ (e_identity e)); [by eexists _, _|].
  rewrite Heq. by eexists _, _.
Qed.

Lemma Prepare_spec t tb fps force w :
  let '(w', ids, p) := Prepare t tb fps force w in
  PrepareSpec tb force w (map_to_list fps) w' (p_next p) ∧ ids = e_identity <$> p_next p ∧
  p_table p = t ∧ p_retired p = retired_of (t_users tb) (p_next p).
Proof.
  unfold Prepare.
  pose proof (prepare_loop_spec tb force w (map_to_list fps) (NoDup_fst_map_to_list fps)) as HS.
  destruct (foldl _ _ _) as [w' next]. by split_and!.
Qed.

Lemma Prepare_inv t tb fps force w pending prep :
  Inv w pending prep → tables w !! t = Some tb → t ∉ p_table <$> prep →
  Inv (Prepare t tb fps force w).1.1 pending (prep ++ [(Prepare t tb fps force w).2]).
Proof.
  intros HI Htb Hnp. pose proof (Prepare_spec t tb fps force w) as HP.
  destruct (Prepare t tb fps force w) as [[w' ids] p]; cbn [fst snd].
  destruct HP as (HS & _ & Hpt & Hpr).
  destruct (ps_frame _ _ _ _ _ _ HS) as (Hm & Ht & Hs & _ & _).
  assert (Inv w' pending prep) as HI'.
  { eapply grow_identities_inv; [exact HI|done..|apply HS|apply HS]. }
  assert (prepared_ok w' p) as Hok.
  { exists tb. rewrite Hpt, Ht. split_and!; [done..|]. intros name e He.
    destruct (ps_next _ _ _ _ _ _ HS _ _ He) as [_ [[? _]|(_ & ? & _)]]; [by left|by right]. }
  assert (∀ p' name name' e e', p' ∈ prep ++ [p] →
            p_next p !! name = Some e → p_next p' !! name' = Some e' →
            e_identity e = e_identity e' → p_table p = p_table p' ∧ name = name') as Hinj.
  { intros p' name name' e e' Hp' He He' Heq.
    assert (prepared_ok w' p') as Hok'.
    { apply elem_of_snoc in Hp' as [?| ->]; [by apply HI'|done]. }
    destruct (ps_next _ _ _ _ _ _ HS _ _ He) as [_ [[Hu _]|(Hf & Hi & _)]].
    { eapply prepared_entry_inj; [exact HI'|done..|]. exists t, name, tb, e. by rewrite Ht. }
    apply elem_of_snoc in Hp' as [Hp'| ->].
    - exfalso. destruct (inv_prep _ _ _ HI p' Hp') as (tb' & Ht' & _ & Hn').
      destruct (Hn' _ _ He') as [Hu'|Hi']; [|congruence].
      pose proof (inv_own _ _ _ HI _ _ _ _ Ht' Hu'). congruence.
    - split; [done|]. eapply prepare_fresh_inj; [exact HS|done..|].
      intros n0 e0 Hu0. rewrite (inv_own _ _ _ HI _ _ _ _ Htb Hu0). eauto. }
  destruct HI'. constructor; try done.
  - rewrite fmap_app. apply NoDup_app. split_and!; [done| |apply NoDup_singleton].
    intros x Hx Heq%list_elem_of_singleton. congruence.
  - intros p' [?| ->]%elem_of_snoc; [by apply inv_prep0|done].
  - intros p1 p2 n1 n2 e1 e2 Hp1 Hp2 H1 H2 Heq.
    apply elem_of_snoc in Hp1 as [Hp1| ->]; [|by eapply Hinj].
    apply elem_of_snoc in Hp2 as [Hp2| ->];
      [by eapply (inv_prep_inj0 p1 p2)|].
    destruct (Hinj p1 n2 n1 e2 e1) as [? ?]; [apply elem_of_app; by left|done..].
Qed.

Lemma NewTable_inv m w pending prep : Inv w pending prep → Inv (NewTable m w).1 pending prep.
Proof.
  intros HI. unfold NewTable; cbn [fst]. set (t := fresh (dom (tables w))).
  assert (tables w !! t = None) as Ht.
  { apply not_elem_of_dom, is_fresh. }
  assert (∀ t' name i, owner (set_tables <[t := mkTable m ∅]> w) t' name i ↔ owner w t' name i) as Ho.
  { intros t' name i. unfold owner; simpl. destruct (decide (t' = t)) as [->|Hne].
    - rewrite lookup_insert_eq, Ht. split; intros (? & ? & ? & ? & ?); simplify_map_eq.
    - by rewrite lookup_insert_ne. }
  destruct HI. constructor; try done.
  - intros t' tb name e; simpl. rewrite lookup_insert_Some.
    intros [[<- <-]|[_ H]]; [simpl; by rewrite lookup_empty|by eapply inv_own0].
  - intros t1 n1 t2 n2 i. rewrite !Ho. apply inv_inj0.
  - intros i Hi. destruct (inv_valid0 i Hi) as (t' & n & ?). exists t', n. by apply Ho.
  - intros p Hp. destruct (inv_prep0 p Hp) as (tb & Htb & ?). exists tb. split; [|done].
    simpl. rewrite lookup_insert_ne by congruence. done.
Qed.

(** Shutting a table down is the publication of an empty table. *)
Lemma close_publish_publish t tb w :
  tables w !! t = Some tb →
  close_publish t w = publish (mkPublication t (retired_of (t_users tb) ∅) ∅) w.
Proof.
  intros Ht. unfold close_publish, publish. rewrite Ht; cbn [p_retired p_next p_table].
  rewrite map_to_list_empty; simpl.
  replace (retired_of (t_users tb) ∅) with (e_identity <$> (map_to_list (t_users tb)).*2).
  - f_equal. unfold set_tables. f_equal. apply map_eq; intros t'.
    pose proof (foldl_set_valid_frame (λ i, i) false
      (e_identity <$> (map_to_list (t_users tb)).*2) w) as (_ & Hta & _); simpl in Hta.
    rewrite Hta, lookup_alter. destruct (decide (t = t')) as [<-|Hne].
    + by rewrite lookup_insert_eq, Ht.
    + by rewrite lookup_insert_ne.
  - unfold retired_of. induction (map_to_list (t_users tb)) as [|[n e] l IH]; simpl; [done|].
    rewrite lookup_empty; simpl. f_equal. exact IH.
Qed.

(** ** The interleaved system *)

(** A configuration: the world, the sessions some [Commit] collected and has
    not closed yet, and the publications prepared by the reload in progress. *)
Record Conf := mkConf { c_world : World; c_pending : list nat; c_prep : list Publication }.

Inductive step : Conf → Conf → Prop :=
| step_new_manager w pe pr :
    step (mkConf w pe pr) (mkConf (NewManager w).1 pe pr)
| step_new_table m w pe pr :
    step (mkConf w pe pr) (mkConf (NewTable m w).1 pe pr)
| step_new_session m conn tr w pe pr :
    is_Some (managers w !! m) →
    step (mkConf w pe pr) (mkConf (NewSession m conn tr w).1.1 pe pr)
| step_bind ctx identity w pe pr :
    step (mkConf w pe pr) (mkConf (Bind ctx identity w).1 pe pr)
| step_attach ctx c w pe pr :
    step (mkConf w pe pr) (mkConf (Attach ctx c w).1 pe pr)
| step_close s w pe pr :
    step (mkConf w pe pr) (mkConf (Session_Close s w).1 pe pr)
| step_prepare t tb fps force w pe pr :
    tables w !! t = Some tb → t ∉ p_table <$> pr →
    step (mkConf w pe pr)
         (mkConf (Prepare t tb fps force w).1.1 pe (pr ++ [(Prepare t tb fps force w).2]))
| step_abort w pe pr :
    step (mkConf w pe pr) (mkConf w pe [])
| step_commit m w pe pr :
    is_Some (managers w !! m) →
    (∀ p tb, p ∈ pr → tables w !! p_table p = Some tb → t_manager tb = m) →
    step (mkConf w pe pr)
         (mkConf (commit_gate m (publish_all pr) w).1 
                 (pe ++ (commit_gate m (publish_all pr) w).2) [])
| step_table_close t tb w pe :
    tables w !! t = Some tb → is_Some (managers w !! t_manager tb) →
    step (mkConf w pe [])
         (mkConf (commit_gate (t_manager tb) (close_publish t) w).1
                 (pe ++ (commit_gate (t_manager tb) (close_publish t) w).2) [])
| step_drain w pe1 s pe2 pr :
    step (mkConf w (pe1 ++ s :: pe2) pr) (mkConf (Session_Close s w).1 (pe1 ++ pe2) pr).

Definition empty_world : World := mkWorld ∅ ∅ ∅ ∅ ∅ [].

Inductive reachable : Conf → Prop :=
| reach_init : reachable (mkConf empty_world [] [])
| reach_step c c' : reachable c → step c c' → reachable c'.

Definition conf_inv (c : Conf) : Prop := Inv (c_world c) (c_pending c) (c_prep c).

Lemma empty_inv : Inv empty_world [] [].
Proof.
  constructor; unfold registered, open_bound, owner, is_valid; simpl; try set_solver;
    try (intros; simplify_map_eq; done); try (by apply NoDup_nil_2).
Qed.

Lemma drop_prep_inv w pending prep : Inv w pending prep → Inv w pending [].
Proof.
  intros []. constructor; try done; [apply NoDup_nil_2| |];
    intros p; intros; exfalso; by eapply not_elem_of_nil.
Qed.

Lemma commit_gate_managers m ps w mg :
  managers w !! m = Some mg →
  commit_gate m (publish_all ps) w =
  ((publish_all ps w).1, collect mg (publish_all ps w).2).
Proof.
  intros Hm. unfold commit_gate. rewrite (surjective_pairing (publish_all ps w)).
  destruct (publish_all_frame ps w) as [-> _]. by rewrite Hm.
Qed.

Lemma commit_inv m ps w pending :
  Inv w pending ps → is_Some (managers w !! m) →
  (∀ p tb, p ∈ ps → tables w !! p_table p = Some tb → t_manager tb = m) →
  Inv (commit_gate m (publish_all ps) w).1 (pending ++ (commit_gate m (publish_all ps) w).2) [].
Proof.
  intros HI [mg Hm] Hmt. rewrite (commit_gate_managers _ _ _ mg) by done; cbn [fst snd].
  eapply publish_all_inv; [by rewrite app_nil_r|done..].
Qed.

Lemma close_gate_publish_all t tb m w :
  tables w !! t = Some tb →
  commit_gate m (close_publish t) w =
  commit_gate m (publish_all [mkPublication t (retired_of (t_users tb) ∅) ∅]) w.
Proof.
  intros Ht. unfold commit_gate. rewrite (close_publish_publish t tb w Ht), publish_all_cons.
  set (p := mkPublication _ _ _). rewrite (surjective_pairing (publish p w)); simpl.
  by rewrite app_nil_r.
Qed.

(** A single closing publication is prepared as soon as its table exists. *)
Lemma close_prepared_inv t tb w pending :
  Inv w pending [] → tables w !! t = Some tb →
  Inv w pending [mkPublication t (retired_of (t_users tb) ∅) ∅].
Proof.
  intros [] Ht. constructor; try done.
  - apply NoDup_singleton.
  - intros p Hp%list_elem_of_singleton; subst p. exists tb. simpl. split_and!; try done.
  - intros p p' n n' e e' Hp%list_elem_of_singleton; subst p. simpl. by rewrite lookup_empty.
Qed.

Lemma step_inv c c' : conf_inv c → step c c' → conf_inv c'.
Proof.
  unfold conf_inv. intros HI Hs; destruct Hs; simpl in *.
  - by apply NewManager_inv.
  - by apply NewTable_inv.
  - by apply NewSession_inv.
  - by apply Bind_inv.
  - by apply Attach_inv.
  - eapply Session_Close_inv; [done|by right].
  - by apply Prepare_inv.
  - by eapply drop_prep_inv.
  - by apply commit_inv.
  - rewrite (close_gate_publish_all t tb) by done.
    apply commit_inv; [by apply close_prepared_inv|done|].
    intros p' tb' Hp%list_elem_of_singleton; subst p'; simpl. congruence.
  - eapply Session_Close_inv; [done|]. intros s'. rewrite !elem_of_app, elem_of_cons. tauto.
Qed.

Lemma reachable_inv c : reachable c → conf_inv c.
Proof. induction 1; [apply empty_inv|by eapply step_inv]. Qed.
