(* ===== verification/UserStateProps.v ===== *)
(** * Correctness of credential publication and session revocation

    The theorems about src/runtime/sing-box/common/userstate/manager.go,
    proved from the invariant of UserStateInv. *)
From S2P Require Import Prelude UserState UserStateInv.

(** ** Revocation *)

(** C13: in every state the interleaved system can reach, a session that is
    still open although the identity it authenticated as is no longer valid is
    in the list of sessions a [Commit] has collected and is about to close:
    admission racing with a publication never lets a session escape
    revocation. *)
Theorem revoked_session_is_pending c s m i :
  reachable c → open_bound (c_world c) s m i → ¬ is_valid (c_world c) i → s ∈ c_pending c.
Proof. intros Hr%reachable_inv. apply (inv_pend _ _ _ Hr). Qed.

(** An identity that was retired: allocated, not valid, and not about to be
    published by the reload in progress. *)
Definition retired_identity (i : nat) (c : Conf) : Prop :=
  is_Some (identities (c_world c) !! i) ∧ ¬ is_valid (c_world c) i ∧
  ∀ p, p ∈ c_prep c → i ∉ next_ids p.

Lemma publish_all_valid ps w i :
  is_valid (publish_all ps w).1 i → is_valid w i ∨ ∃ p, p ∈ ps ∧ i ∈ next_ids p.
Proof.
  revert w; induction ps as [|p ps IH]; intros w; [by left|].
  rewrite publish_all_cons; cbn [fst]. intros [Hv|(p' & ? & ?)]%IH; [|right; set_solver].
  destruct Hv as (idn & Hi & Hb). rewrite publish_identities in Hi.
  destruct (decide (i ∈ next_ids p)); [right; set_solver|].
  destruct (decide (i ∈ p_retired p)); [|left; by exists idn].
  destruct (identities w !! i); simplify_eq/=.
Qed.

Lemma publish_all_allocated ps w i :
  is_Some (identities w !! i) → is_Some (identities (publish_all ps w).1 !! i).
Proof.
  revert w; induction ps as [|p ps IH]; intros w Hi; [done|].
  rewrite publish_all_cons; cbn [fst]. apply IH. rewrite publish_identities.
  repeat case_decide; try rewrite fmap_is_Some; done.
Qed.

Lemma retired_same_identities i w w' pe pe' pr pr' :
  identities w' = identities w → (∀ p, p ∈ pr' → p ∈ pr) →
  retired_identity i (mkConf w pe pr) → retired_identity i (mkConf w' pe' pr').
Proof.
  unfold retired_identity, is_valid; simpl. intros -> Hsub (? & ? & Hn).
  split_and!; [done..|]. intros p Hp. apply Hn, Hsub, Hp.
Qed.

Lemma Session_Close_identities s w : identities (Session_Close s w).1 = identities w.
Proof.
  unfold Session_Close. destruct (sessions w !! s) as [se|]; [|done]. by destruct (s_closed se).
Qed.

Lemma Bind_identities ctx io w : identities (Bind ctx io w).1 = identities w.
Proof.
  destruct (Bind_cases ctx io w) as [->|(s & se & i & idn & Hb)]; [done|].
  destruct Hb as (_ & _ & _ & _ & _ & _ & _ & _ & ->). done.
Qed.

Lemma commit_retired i m ps w pe pe' :
  is_Some (managers w !! m) → retired_identity i (mkConf w pe ps) →
  retired_identity i (mkConf (commit_gate m (publish_all ps) w).1 pe' []).
Proof.
  intros [mg Hm] (Ha & Hv & Hn). rewrite (commit_gate_managers _ _ _ mg) by done.
  unfold retired_identity; simpl in *. split_and!; [by apply publish_all_allocated| |set_solver].
  intros [?|(p & Hp & Hi)]%publish_all_valid; [done|]. by apply (Hn p).
Qed.

Lemma Prepare_retired i t tb fps force w pe pr :
  Inv w pe pr → tables w !! t = Some tb → retired_identity i (mkConf w pe pr) →
  retired_identity i (mkConf (Prepare t tb fps force w).1.1 pe
                             (pr ++ [(Prepare t tb fps force w).2])).
Proof.
  intros HI Htb (Ha & Hv & Hn). pose proof (Prepare_spec t tb fps force w) as HP.
  destruct (Prepare t tb fps force w) as [[w' ids] p]; cbn [fst snd].
  destruct HP as (HS & _). unfold retired_identity; simpl in *. destruct Ha as [idn Hi].
  pose proof (lookup_weaken _ _ _ _ Hi (ps_old _ _ _ _ _ _ HS)) as Hi'.
  split_and!; [by eauto| |].
  { rewrite (is_valid_eq w' i idn) by done. by rewrite (is_valid_eq w i idn) in Hv by done. }
  intros p' [Hp'| ->]%elem_of_snoc; [by apply Hn|].
  intros (name & e & He & Hie)%elem_of_next_ids. subst i.
  destruct (ps_next _ _ _ _ _ _ HS _ _ He) as [_ [[Hu _]|(Hf & _)]]; [|congruence].
  destruct Hv. eexists. split; [by eapply (inv_own _ _ _ HI)|done].
Qed.

Lemma step_retired i c c' : conf_inv c → retired_identity i c → step c c' → retired_identity i c'.
Proof.
  intros HI Hr Hs; destruct Hs; unfold conf_inv in HI; simpl in *.
  all: try (eapply retired_same_identities; [..|exact Hr]; by rewrite ?Bind_identities).
  - eapply retired_same_identities; [..|exact Hr]; [|done].
    unfold Attach. repeat case_match; done.
  - eapply retired_same_identities; [..|exact Hr]; [|done]. apply Session_Close_identities.
  - by apply Prepare_retired.
  - apply (retired_same_identities i w w pe pe pr []); [done|by intros ? ?%not_elem_of_nil|done].
  - by eapply commit_retired.
  - rewrite (close_gate_publish_all t tb) by done.
    apply (commit_retired _ _ _ _ pe); [done|]. destruct Hr as (? & ? & _). split_and!; [done..|].
    simpl. intros p' Hp%list_elem_of_singleton; subst p'. unfold next_ids; simpl.
    rewrite map_to_list_empty. set_solver.
  - eapply retired_same_identities; [..|exact Hr]; [|done]. apply Session_Close_identities.
Qed.

(** C14: a retired identity never becomes valid again, whatever is prepared,
    published, admitted or closed afterwards.  A user that is deleted and
    created again gets a new identity, so a session of the old one can not be
    taken for a session of the new one. *)
Theorem retired_identity_stays_retired c c' i :
  reachable c → retired_identity i c → star step c c' → ¬ is_valid (c_world c') i.
Proof.
  intros Hr%reachable_inv Hi Hs.
  eapply (star_preserves step conf_inv (retired_identity i)); [apply step_inv|apply step_retired|done..].
Qed.

(** ** One whole commit *)

(** A session after [Close]: nothing changes if it was closed already. *)
Definition closed_session (se : Session) : Session :=
  if s_closed se then se
  else mkSession (s_conn se) (s_closeTransport se) (s_manager se) (s_identity se) true [].

Lemma Session_Close_sessions s w s' :
  sessions (Session_Close s w).1 !! s' =
  (if decide (s' = s) then closed_session <$> sessions w !! s' else sessions w !! s').
Proof.
  unfold Session_Close, closed_session.
  destruct (sessions w !! s) as [se|] eqn:Hs; [destruct (s_closed se) eqn:Hc|]; simpl;
    case_decide; subst; rewrite ?Hs; simpl; rewrite ?Hc; try done.
  - by rewrite lookup_insert_eq.
  - by rewrite lookup_insert_ne.
Qed.

Lemma close_all_sessions ss w s :
  sessions (close_all ss w) !! s =
  (if decide (s ∈ ss) then closed_session <$> sessions w !! s else sessions w !! s).
Proof.
  revert w; induction ss as [|s' ss IH]; intros w; [done|].
  cbn [close_all foldl]. fold (close_all ss (Session_Close s' w).1).
  rewrite IH, Session_Close_sessions.
  repeat case_decide; try set_solver. subst. destruct (sessions w !! s') as [se|]; simpl; [|done].
  unfold closed_session. destruct (s_closed se) eqn:Hc; rewrite ?Hc; done.
Qed.

Lemma close_all_inv ss w pending prep :
  Inv w (ss ++ pending) prep → Inv (close_all ss w) pending prep.
Proof.
  revert w; induction ss as [|s ss IH]; intros w HI; [done|].
  apply IH. eapply Session_Close_inv; [exact HI|]. intros s'. simpl. rewrite elem_of_cons. tauto.
Qed.

Lemma publish_all_retired ps w : (publish_all ps w).2 = ps ≫= p_retired.
Proof.
  revert w; induction ps as [|p ps IH]; intros w; [done|].
  rewrite publish_all_cons; simpl. by rewrite IH.
Qed.

Lemma prepared_retired_owner w pending ps p i :
  Inv w pending ps → p ∈ ps → i ∈ p_retired p → ∃ name, owner w (p_table p) name i.
Proof.
  intros HI Hp Hi. destruct (inv_prep _ _ _ HI p Hp) as (tb & Htb & Hr & _). rewrite Hr in Hi.
  apply elem_of_retired_of in Hi as (name & e & ? & ? & _). exists name, tb, e. done.
Qed.

Lemma retired_NoDup w pending ps : Inv w pending ps → NoDup (ps ≫= p_retired).
Proof.
  intros HI. apply NoDup_bind.
  - intros p p' i Hp Hp' Hi Hi'.
    destruct (prepared_retired_owner _ _ _ _ _ HI Hp Hi) as [n Ho].
    destruct (prepared_retired_owner _ _ _ _ _ HI Hp' Hi') as [n' Ho'].
    destruct (inv_inj _ _ _ HI _ _ _ _ _ Ho Ho') as [Ht _].
    apply list_elem_of_lookup in Hp as [k Hk], Hp' as [k' Hk'].
    assert (k = k') as ->; [|congruence].
    eapply (NoDup_lookup (p_table <$> ps)); [apply HI|..]; rewrite list_lookup_fmap, ?Hk, ?Hk'; simpl;
      by f_equal.
  - intros p Hp. destruct (inv_prep _ _ _ HI p Hp) as (tb & Htb & -> & _).
    apply NoDup_omap_inj; [|apply NoDup_map_to_list].
    intros [n e] [n' e'] i Hin Hin'. apply elem_of_map_to_list in Hin, Hin'. simpl.
    repeat case_bool_decide; intros; simplify_eq.
    destruct (inv_inj _ _ _ HI (p_table p) n (p_table p) n' (e_identity e)) as [_ ->];
      [by exists tb, e|exists tb, e'; split_and!; congruence|congruence].
  - eapply NoDup_fmap_1, HI.
Qed.

Lemma collect_NoDup w pending ps m mg l :
  Inv w pending ps → managers w !! m = Some mg → NoDup l → NoDup (collect mg l).
Proof.
  intros HI Hm Hl. apply NoDup_bind; [|intros; apply NoDup_elements|done].
  intros i i' s _ _ Hi%elem_of_elements Hi'%elem_of_elements.
  assert (open_bound w s m i) as H1 by (apply (inv_reg _ _ _ HI); by exists mg).
  assert (open_bound w s m i') as H2 by (apply (inv_reg _ _ _ HI); by exists mg).
  by destruct (open_bound_det _ _ _ _ _ _ H1 H2).
Qed.

Lemma elem_of_collect w pending ps m mg l s :
  Inv w pending ps → managers w !! m = Some mg →
  s ∈ collect mg l ↔ ∃ i, open_bound w s m i ∧ i ∈ l.
Proof.
  intros HI Hm. unfold collect. rewrite list_elem_of_bind. setoid_rewrite elem_of_elements.
  setoid_rewrite <-(inv_reg _ _ _ HI). unfold registered. naive_solver.
Qed.

(** With nothing left to close, every open bound session is valid. *)
Lemma Inv_no_pending_valid w ps : Inv w [] ps → ∀ s m i, open_bound w s m i → is_valid w i.
Proof.
  intros HI s m i Hb. destruct (Hb) as (se & Hs & _ & Hi & _).
  destruct (inv_sid _ _ _ HI _ _ _ Hs Hi) as (idn & Hidn & _).
  apply (is_valid_eq _ _ _ Hidn). apply not_false_is_true. intros Hv.
  apply (not_elem_of_nil s), (inv_pend _ _ _ HI _ _ _ Hb).
  rewrite (is_valid_eq _ _ _ Hidn). congruence.
Qed.

Section commit.
Context (m : nat) (mg : Manager) (ps : list Publication) (w : World).
Context (HI : Inv w [] ps) (Hm : managers w !! m = Some mg).
Context (Hmt : ∀ p tb, p ∈ ps → tables w !! p_table p = Some tb → t_manager tb = m).

Lemma Commit_eq :
  Commit m (publish_all ps) w =
  (close_all (collect mg (publish_all ps w).2) (publish_all ps w).1, length (collect mg (publish_all ps w).2)).
Proof. unfold Commit. by rewrite (commit_gate_managers _ _ _ mg Hm). Qed.

Lemma Commit_sessions s se :
  sessions w !! s = Some se →
  sessions (Commit m (publish_all ps) w).1 !! s =
    Some (match s_identity se with
          | Some i => if decide (i ∈ (publish_all ps w).2) then closed_session se else se
          | None => se
          end).
Proof.
  intros Hs. rewrite Commit_eq. cbn [fst]. destruct (publish_all_frame ps w) as [_ Hses].
  rewrite close_all_sessions, Hses, Hs.
  pose proof (elem_of_collect w [] ps m mg (publish_all ps w).2 s HI Hm) as Hec.
  destruct (decide (s ∈ _)) as [Hd|Hd]; simpl.
  - apply Hec in Hd. destruct Hd as (i & (se' & ? & _ & Hi & _) & Hr). simplify_eq. rewrite Hi.
    by rewrite decide_True.
  - f_equal. destruct (s_identity se) as [i|] eqn:Hi; [|done]. destruct (decide _) as [Hr|]; [|done].
    unfold closed_session. destruct (s_closed se) eqn:Hc; [done|]. exfalso. apply Hd, Hec.
    exists i; split; [|done]. exists se. split_and!; try done.
    destruct (inv_sid _ _ _ HI _ _ _ Hs Hi) as (idn & Hidn & <-).
    rewrite publish_all_retired in Hr. apply list_elem_of_bind in Hr as (p & Hip & Hp).
    destruct (prepared_retired_owner _ _ _ _ _ HI Hp Hip) as (n & tb & e & Htb & Hu & <-).
    rewrite (inv_own _ _ _ HI _ _ _ _ Htb Hu) in Hidn. simplify_eq/=. by eapply Hmt.
Qed.

Lemma Commit_inv : Inv (Commit m (publish_all ps) w).1 [] [].
Proof.
  rewrite Commit_eq. cbn [fst]. apply close_all_inv. rewrite app_nil_r.
  apply (publish_all_inv m mg ps w [] []); by rewrite ?app_nil_r.
Qed.
End commit.

(** A complete [Commit] of the prepared publications.  It closes exactly
    the sessions whose identity is retired and leaves every other session as
    it was; the number it returns is the number of sessions it closed; no open
    session of an invalid identity is left behind. *)
Lemma Commit_closes_exactly_retired m ps w :
  Inv w [] ps → is_Some (managers w !! m) →
  (∀ p tb, p ∈ ps → tables w !! p_table p = Some tb → t_manager tb = m) →
  let retired := (publish_all ps w).2 in
  let w' := (Commit m (publish_all ps) w).1 in
  (∀ s se, sessions w !! s = Some se →
     sessions w' !! s =
       Some (match s_identity se with
             | Some i => if decide (i ∈ retired) then closed_session se else se
             | None => se
             end)) ∧
  (∃ closed, NoDup closed ∧ length closed = (Commit m (publish_all ps) w).2 ∧
     ∀ s, s ∈ closed ↔ ∃ i, open_bound w s m i ∧ i ∈ retired) ∧
  (∀ s m' i, open_bound w' s m' i → is_valid w' i).
Proof.
  intros HI [mg Hm] Hmt retired w'. subst w'. split_and!.
  - intros s se Hs. by eapply Commit_sessions.
  - exists (collect mg retired). rewrite (Commit_eq m mg ps w Hm). cbn [snd].
    split_and!; [|done|intros s; by eapply elem_of_collect].
    eapply collect_NoDup; [done..|]. unfold retired. rewrite publish_all_retired.
    by eapply retired_NoDup.
  - apply (Inv_no_pending_valid _ []). by eapply Commit_inv.
Qed.

(** ** Preparation, admission, counting and teardown *)

(** The identities a preparation retires: those of users that are not listed
    with the same fingerprint, and of forced ones. *)
Lemma Prepare_retires t tb fps force w pending prep name old :
  Inv w pending prep → tables w !! t = Some tb → t_users tb !! name = Some old →
  e_identity old ∈ p_retired (Prepare t tb fps force w).2 ↔
  fps !! name ≠ Some (e_fingerprint old) ∨ flag force name = true.
Proof.
  intros HI Htb Hu. pose proof (Prepare_spec t tb fps force w) as HP.
  destruct (Prepare t tb fps force w) as [[w' ids] p]. cbn [snd].
  destruct HP as (HS & -> & _ & Hret).
  assert (∀ name e, p_next p !! name = Some e → fps !! name = Some (e_fingerprint e)) as Hfp.
  { intros n e [Hin _]%(ps_next _ _ _ _ _ _ HS). by apply elem_of_map_to_list. }
  rewrite Hret, elem_of_retired_of. split.
  - intros (name' & e & Hu' & Hid & Hne).
    destruct (inv_inj _ _ _ HI t name t name' (e_identity old)) as [_ <-];
      [by exists tb, old|by exists tb, e|].
    simplify_eq. destruct (flag force name) eqn:Hfl; [by right|left].
    intros Hf. apply Hne.
    destruct (ps_dom _ _ _ _ _ _ HS name (e_fingerprint old)) as [e He];
      [by apply elem_of_map_to_list|].
    pose proof (Hfp _ _ He). rewrite He; simpl.
    destruct (ps_next _ _ _ _ _ _ HS _ _ He) as [_ [[Hu2 _]|(_ & _ & H3)]]; [congruence|].
    destruct (H3 _ Hu); congruence.
  - intros Hch. exists name, old. split_and!; [done..|]. rewrite fmap_Some.
    intros (e & He & Hid). pose proof (Hfp _ _ He).
    destruct (ps_next _ _ _ _ _ _ HS _ _ He) as [_ [[Hu2 Hfl]|(Hfr & _)]].
    + simplify_eq. destruct Hch; congruence.
    + pose proof (inv_own _ _ _ HI _ _ _ _ Htb Hu). congruence.
Qed.

(** What [Prepare] decides for a table of a well-formed world.  A user
    whose fingerprint is unchanged and that is not forced keeps its identity;
    any other listed user gets an identity that did not exist before and is not
    valid yet; unlisted users get none; and exactly the current identities
    that are not kept are retired. *)
Lemma Prepare_keeps_unchanged_users t tb fps force w pending prep :
  Inv w pending prep → tables w !! t = Some tb →
  let '(w', ids, p) := Prepare t tb fps force w in
  (∀ name, ids !! name = None ↔ fps !! name = None) ∧
  (∀ name fp i, fps !! name = Some fp → ids !! name = Some i →
     (∃ old, t_users tb !! name = Some old ∧ e_fingerprint old = fp ∧
        flag force name = false ∧ i = e_identity old) ∨
     ((∀ old, t_users tb !! name = Some old → e_fingerprint old ≠ fp ∨ flag force name = true) ∧
      identities w !! i = None ∧
      identities w' !! i = Some (mkIdentity (t_manager tb) name false))) ∧
  (∀ name old, t_users tb !! name = Some old →
     e_identity old ∈ p_retired p ↔
     fps !! name ≠ Some (e_fingerprint old) ∨ flag force name = true).
Proof.
  intros HI Htb. pose proof (Prepare_spec t tb fps force w) as HP.
  destruct (Prepare t tb fps force w) as [[w' ids] p] eqn:HPeq.
  destruct HP as (HS & -> & _ & Hret).
  assert (∀ name e, p_next p !! name = Some e → fps !! name = Some (e_fingerprint e)) as Hfp.
  { intros name e [Hin _]%(ps_next _ _ _ _ _ _ HS). by apply elem_of_map_to_list. }
  split_and!.
  - intros name. rewrite lookup_fmap, fmap_None. split; intros Hn.
    + destruct (fps !! name) as [fp|] eqn:Hf; [|done].
      destruct (ps_dom _ _ _ _ _ _ HS name fp) as [e He]; [by apply elem_of_map_to_list|congruence].
    + destruct (p_next p !! name) as [e|] eqn:He; [|done]. apply Hfp in He. congruence.
  - intros name fp i Hf. rewrite lookup_fmap, fmap_Some. intros (e & He & ->).
    pose proof (Hfp _ _ He). simplify_eq.
    destruct (ps_next _ _ _ _ _ _ HS _ _ He) as [_ [[Hu Hfl]|(H1 & H2 & H3)]];
      [left; by exists e|right; by split_and!].
  - intros name old Hu. pose proof (Prepare_retires t tb fps force w pending prep name old HI Htb Hu) as Hr.
    rewrite HPeq in Hr. exact Hr.
Qed.

(** The branches of [Bind] that refuse the session. *)
Ltac refused :=
  split_and!;
  [split; [done|intros (? & s' & se' & i' & idn' & ? & ? & ? & ? & ? & ? & ? & [?|?])]|done|done];
  simplify_eq; congruence.

(** [Bind] admits a session exactly when its context is live, the session
    is open and not bound to another identity, and the identity belongs to the
    session's manager and is valid; after an admission the session is open and
    bound to that identity, and a refusal changes nothing. *)
Lemma Bind_admits_iff ctx io w :
  ((Bind ctx io w).2 = None ↔
   ctx_Err ctx = None ∧
   ∃ s se i idn, ctx_session ctx = Some s ∧ io = Some i ∧ sessions w !! s = Some se ∧
     identities w !! i = Some idn ∧ id_manager idn = s_manager se ∧ id_valid idn = true ∧
     s_closed se = false ∧ (s_identity se = None ∨ s_identity se = Some i)) ∧
  ((Bind ctx io w).2 = None → ∃ s m i, ctx_session ctx = Some s ∧ io = Some i ∧
     open_bound (Bind ctx io w).1 s m i ∧ is_valid (Bind ctx io w).1 i) ∧
  ((Bind ctx io w).2 ≠ None → (Bind ctx io w).1 = w).
Proof.
  unfold Bind, open_bound, is_valid. destruct (ctx_Err ctx) as [err|]; [refused|].
  destruct (ctx_session ctx) as [s|]; simpl; [|refused].
  destruct (sessions w !! s) as [se|] eqn:Hs; simpl; [|refused].
  destruct io as [i|]; simpl; [|refused].
  destruct (identities w !! i) as [idn|] eqn:Hi; simpl; [|refused].
  case_bool_decide; simpl; [refused|].
  destruct (id_valid idn) eqn:Hv; simpl; [|refused].
  destruct (s_closed se) eqn:Hc; simpl; [refused|].
  destruct (s_identity se) as [j|] eqn:Hj; simpl.
  - case_bool_decide as Hij; simpl; [refused|]. simplify_eq.
    split_and!; [split; [|done]| |done]; intros _.
    + split; [done|]. exists s, se, i, idn. by auto 10.
    + exists s, (s_manager se), i. split_and!; [done..|by exists se|by exists idn].
  - split_and!; [split; [|done]| |done]; intros _.
    + split; [done|]. exists s, se, i, idn. by auto 10.
    + exists s, (s_manager se), i. rewrite lookup_insert_eq.
      split_and!; [done..|by eexists|by exists idn].
Qed.

Lemma foldl_size_sum (l : list (gset nat)) n :
  foldl (λ count ss, count + size ss) n l = n + length (l ≫= elements).
Proof.
  revert n; induction l as [|x l IH]; intros n; csimpl; [lia|].
  rewrite IH, length_app. change (size x) with (length (elements x)). lia.
Qed.

(** [SessionCount] is the number of distinct open sessions that are bound
    to some identity of the manager. *)
Lemma SessionCount_counts_open_bound m w pending prep :
  Inv w pending prep →
  ∃ l, NoDup l ∧ (∀ s, s ∈ l ↔ ∃ i, open_bound w s m i) ∧ SessionCount m w = length l.
Proof.
  intros HI. unfold SessionCount. destruct (managers w !! m) as [mg|] eqn:Hm.
  - exists (collect mg (map_to_list (m_sessions mg)).*1). split_and!.
    + eapply collect_NoDup; [done..|]. apply NoDup_fst_map_to_list.
    + intros s. rewrite elem_of_collect by done. split; [naive_solver|].
      intros (i & Hb). exists i; split; [done|].
      apply (inv_reg _ _ _ HI) in Hb as (mg' & ? & Hin). simplify_eq.
      unfold sessions_of in Hin. destruct (m_sessions mg !! i) as [ss|] eqn:Hss; [|set_solver].
      apply list_elem_of_fmap. exists (i, ss); split; [done|]. by apply elem_of_map_to_list.
    + rewrite foldl_size_sum. simpl. f_equal. unfold collect.
      assert (∀ l : list (nat * gset nat), (∀ x, x ∈ l → m_sessions mg !! x.1 = Some x.2) →
                l.*2 ≫= elements = l.*1 ≫= (λ i, elements (sessions_of mg i))) as Hl.
      { induction l as [|[i ss] l IH]; intros Hx; [done|]. csimpl.
        rewrite IH by (intros; apply Hx; by right). f_equal.
        pose proof (Hx (i, ss) ltac:(left)) as Hi; simpl in Hi. unfold sessions_of. by rewrite Hi. }
      apply Hl. intros [i ss] Hin. by apply elem_of_map_to_list.
  - exists []. split_and!; [constructor| |done]. intros s. split; [by intros ?%not_elem_of_nil|].
    intros (i & Hb). apply (inv_reg _ _ _ HI) in Hb as (mg & ? & _). congruence.
Qed.

(** Closing an open session cancels its context, then closes the
    per-session transport, then the connection, then every attached resource
    in the order of attachment; closing it again does nothing, and a resource
    attached after the close is closed at once and refused. *)
Lemma Session_Close_releases_once s se w :
  sessions w !! s = Some se → s_closed se = false →
  let w' := (Session_Close s w).1 in
  events w' = events w ++ EvCancel s ::
    (EvCloseConn <$> option_list (s_closeTransport se)) ++
    EvCloseConn (s_conn se) :: (EvCloseConn <$> s_extra se) ∧
  Session_Close s w' = (w', None) ∧
  (∀ err c, Attach (mkCtx err (Some s)) c w' = (emit [EvCloseConn c] w', Some ErrRevoked)).
Proof.
  intros Hs Hc w'.
  assert (sessions w' !! s = Some (closed_session se)) as Hs'.
  { unfold w'. by rewrite Session_Close_sessions, decide_True, Hs. }
  assert (s_closed (closed_session se) = true) as Hc'.
  { unfold closed_session. by rewrite Hc. }
  split_and!.
  - unfold w', Session_Close. rewrite Hs, Hc; simpl. by destruct (s_closeTransport se).
  - apply Session_Close_noop. congruence.
  - intros err c. unfold Attach; simpl. by rewrite Hs'; simpl; rewrite Hc'.
Qed.

(** ** A concrete run: user alice is published, authenticates and is removed *)

Module Run.
Definition w1 : World := (NewManager empty_world).1.
Definition m : nat := (NewManager empty_world).2.
Definition w2 : World := (NewTable m w1).1.
Definition t : nat := (NewTable m w1).2.
Definition tb : Table := mkTable m ∅.
Definition prep1 := Prepare t tb {[ "alice" := "fp1"; "bob" := "fp2" ]} ∅ w2.
Definition gate1 := commit_gate m (publish_all [prep1.2]) prep1.1.1.
Definition w3 : World := gate1.1.
Definition alice : nat := default 0 (prep1.1.2 !! "alice").
Definition bob : nat := default 0 (prep1.1.2 !! "bob").
Definition sess := NewSession m 7 [8] w3.
Definition w4 : World := sess.1.1.
Definition w5 : World := (Bind sess.1.2 (Some alice) w4).1.
Definition sess' := NewSession m 9 [] w5.
Definition w6 : World := sess'.1.1.
Definition w7 : World := (Bind sess'.1.2 (Some bob) w6).1.
Definition tb' : Table := default tb (tables w7 !! t).
Definition prep2 := Prepare t tb' {[ "bob" := "fp2" ]} ∅ w7.
Definition gate2 := commit_gate m (publish_all [prep2.2]) prep2.1.1.

(** The state between the publication that removes alice and the closing of
    her session. *)
Definition revoked : Conf := mkConf gate2.1 gate2.2 [].

Local Ltac run := first [ eexists; vm_compute; reflexivity | vm_compute; reflexivity ].

Lemma reach_w7 : reachable (mkConf w7 [] []).
Proof.
  eapply reach_step; [|apply (step_bind sess'.1.2 (Some bob) w6 [] [])].
  eapply reach_step; [|apply (step_new_session m 9 [] w5 [] []); run].
  eapply reach_step; [|apply (step_bind sess.1.2 (Some alice) w4 [] [])].
  eapply reach_step; [|apply (step_new_session m 7 [8] w3 [] []); run].
  eapply reach_step; [|apply (step_commit m prep1.1.1 [] [prep1.2])].
  - eapply reach_step;
      [|apply (step_prepare t tb {[ "alice" := "fp1"; "bob" := "fp2" ]} ∅ w2 [] [])].
    + eapply reach_step; [|apply (step_new_table m w1 [] [])].
      eapply reach_step; [apply reach_init|apply step_new_manager].
    + run.
    + apply not_elem_of_nil.
  - run.
  - intros p tb0 Hp%list_elem_of_singleton; subst p. vm_compute. by intros [= <-].
Defined.

Lemma reach_prep2 : reachable (mkConf prep2.1.1 [] [prep2.2]).
Proof.
  eapply reach_step; [exact reach_w7|].
  apply (step_prepare t tb' {[ "bob" := "fp2" ]} ∅ w7 [] []); [run|apply not_elem_of_nil].
Defined.

Lemma reach_revoked : reachable revoked.
Proof.
  eapply reach_step; [exact reach_prep2|].
  apply (step_commit m prep2.1.1 [] [prep2.2]); [run|].
  intros p tb0 Hp%list_elem_of_singleton; subst p. vm_compute. by intros [= <-].
Defined.
End Run.

Lemma revoked_session_is_pending_witness :
  open_bound (c_world Run.revoked) Run.sess.2 Run.m Run.alice ∧
  ¬ is_valid (c_world Run.revoked) Run.alice ∧ Run.sess.2 ∈ c_pending Run.revoked.
Proof.
  assert (open_bound (c_world Run.revoked) Run.sess.2 Run.m Run.alice) as Hb.
  { eexists. vm_compute. split; [reflexivity|]. by split_and!. }
  assert (¬ is_valid (c_world Run.revoked) Run.alice) as Hv.
  { intros (idn & Hi & Ht). vm_compute in Hi. by simplify_eq. }
  split_and!; [exact Hb|exact Hv|].
  exact (revoked_session_is_pending _ _ _ _ Run.reach_revoked Hb Hv).
Defined.

Lemma retired_identity_stays_retired_witness :
  star step Run.revoked
    (mkConf (Session_Close Run.sess.2 (c_world Run.revoked)).1 [] []) ∧
  ¬ is_valid (Session_Close Run.sess.2 (c_world Run.revoked)).1 Run.alice.
Proof.
  assert (star step Run.revoked
            (mkConf (Session_Close Run.sess.2 (c_world Run.revoked)).1 [] [])) as Hs.
  { eapply star_step; [exact (step_drain (c_world Run.revoked) [] Run.sess.2 [] [])|].
    apply star_refl. }
  split; [exact Hs|].
  refine (retired_identity_stays_retired _ _ Run.alice Run.reach_revoked _ Hs).
  split_and!.
  - eexists; vm_compute; reflexivity.
  - intros (idn & Hi & Ht). vm_compute in Hi. by simplify_eq.
  - simpl. intros p Hp. by apply not_elem_of_nil in Hp.
Defined.

Lemma Commit_closes_exactly_retired_witness :
  sessions (Commit Run.m (publish_all [Run.prep2.2]) Run.prep2.1.1).1 !! Run.sess'.2 =
    sessions Run.prep2.1.1 !! Run.sess'.2 ∧
  (Commit Run.m (publish_all [Run.prep2.2]) Run.prep2.1.1).2 = 1.
Proof.
  destruct (Commit_closes_exactly_retired Run.m [Run.prep2.2] Run.prep2.1.1) as (Hs & _ & _).
  - exact (reachable_inv _ Run.reach_prep2).
  - eexists; vm_compute; reflexivity.
  - intros p tb Hp%list_elem_of_singleton; subst p. vm_compute. by intros [= <-].
  - split; [|vm_compute; reflexivity].
    assert (∃ se, sessions Run.prep2.1.1 !! Run.sess'.2 = Some se) as [se Hse]
      by (eexists; vm_compute; reflexivity).
    rewrite (Hs _ _ Hse), Hse. vm_compute in Hse. injection Hse as <-. vm_compute. reflexivity.
Defined.

Lemma Prepare_keeps_unchanged_users_witness :
  Run.prep2.1.2 !! "bob" = Some Run.bob ∧ Run.prep2.1.2 !! "alice" = None ∧
  Run.alice ∈ p_retired Run.prep2.2 ∧ Run.bob ∉ p_retired Run.prep2.2.
Proof.
  pose proof (Prepare_keeps_unchanged_users Run.t Run.tb' {[ "bob" := "fp2" ]} ∅ Run.w7 [] []
    (reachable_inv _ Run.reach_w7) ltac:(vm_compute; reflexivity)) as H.
  fold Run.prep2 in H. destruct Run.prep2 as [[w' ids] p] eqn:E. destruct H as (H1 & H2 & H3).
  assert (∀ A (f : _ → A), f Run.prep2 = f (w', ids, p)) as Hf by (intros; by rewrite E).
  split_and!.
  - rewrite <-(Hf _ (λ x, x.1.2 !! "bob")). vm_compute. reflexivity.
  - apply H1. vm_compute. reflexivity.
  - apply (H3 "alice" (mkEntry "fp1" Run.alice)); [vm_compute; reflexivity|].
    left. vm_compute. discriminate.
  - rewrite (H3 "bob" (mkEntry "fp2" Run.bob)); [|vm_compute; reflexivity].
    intros [Hx|Hx]; [|vm_compute in Hx; discriminate]. apply Hx. vm_compute. reflexivity.
Defined.

Lemma SessionCount_counts_open_bound_witness :
  ∃ l, NoDup l ∧ (∀ s, s ∈ l ↔ ∃ i, open_bound Run.w7 s Run.m i) ∧ length l = 2.
Proof.
  destruct (SessionCount_counts_open_bound Run.m Run.w7 [] [] (reachable_inv _ Run.reach_w7))
    as (l & H1 & H2 & H3).
  exists l. split_and!; [exact H1|exact H2|]. rewrite <-H3. vm_compute. reflexivity.
Defined.

Lemma Session_Close_releases_once_witness :
  events (Session_Close Run.sess.2 Run.w7).1 =
    [EvCancel Run.sess.2; EvCloseConn 8; EvCloseConn 7].
Proof.
  destruct (Session_Close_releases_once Run.sess.2
    (mkSession 7 (Some 8) Run.m (Some Run.alice) false []) Run.w7) as (H & _ & _);
    [vm_compute; reflexivity..|].
  rewrite H. vm_compute. reflexivity.
Defined.
