(* ===== verification/Traffic.v ===== *)
(** * Per-user traffic counters

    Model of src/runtime/sing-box/common/userstate/traffic.go.  The counters
    live in the same [World] as the sessions; a connection handed to a router
    carries the pointer of the counter it reports to. *)
From S2P Require Import Prelude UserState.

(** ** Operations *)

(** traffic.go, [TrafficSnapshot]. *)
Record TrafficSnapshot := mkSnapshot {
  Inbound : string;
  User : string;
  Upload : Z;
  Download : Z;
}.

Definition set_counters (f : gmap nat TrafficCounter → gmap nat TrafficCounter) (w : World) : World :=
  mkWorld (managers w) (identities w) (tables w) (sessions w) (f (counters w)) (events w).

(** traffic.go, [(m *Manager) counter]: no counter for an anonymous
    connection, otherwise the counter of the key, created on first use. *)
Definition counter (m : nat) (inbound user : string) (w : World) : World * option nat :=
  if bool_decide (user = "") then (w, None)
  else
    match managers w !! m with
    | None => (w, None)
    | Some mg =>
        match m_counters mg !! (inbound, user) with
        | Some c => (w, Some c)
        | None =>
            let c := fresh (dom (counters w)) in
            (set_counters <[c := mkTrafficCounter 0 0]>
               (set_managers
                  <[m := mkManager (m_sessions mg) (<[(inbound, user) := c]> (m_counters mg))]> w),
             Some c)
        end
    end.

(** traffic.go, [RoutedConnection] and [RoutedPacketConnection]: the wrapped
    connection, identified by the counter its count functions update. *)
Definition RoutedConnection (m : nat) (inbound user : string) (w : World) : World * option nat :=
  counter m inbound user w.

(** The count functions of a wrapped connection. *)
Definition count_upload (c : option nat) (n : Z) (w : World) : World :=
  match c with
  | None => w
  | Some c => set_counters (alter (λ k, mkTrafficCounter (wrap_int64 (upload k + n)) (download k)) c) w
  end.
Definition count_download (c : option nat) (n : Z) (w : World) : World :=
  match c with
  | None => w
  | Some c => set_counters (alter (λ k, mkTrafficCounter (upload k) (wrap_int64 (download k + n))) c) w
  end.

(** The comparison passed to [sort.Slice] in [Counters]. *)
Definition snapshot_less (a b : TrafficSnapshot) : bool :=
  if bool_decide (Inbound a ≠ Inbound b) then string_lt (Inbound a) (Inbound b)
  else string_lt (User a) (User b).

Definition snapshot_le (a b : TrafficSnapshot) : Prop := snapshot_less b a = false.
#[export] Instance snapshot_le_dec a b : Decision (snapshot_le a b).
Proof. unfold snapshot_le. apply _. Defined.

(** traffic.go, [(m *Manager) Counters]. *)
Definition Counters (m : nat) (w : World) : list TrafficSnapshot :=
  match managers w !! m with
  | None => []
  | Some mg =>
      merge_sort snapshot_le
        (omap (λ kc : string * string * nat,
                 (λ k, mkSnapshot kc.1.1 kc.1.2 (upload k) (download k)) <$> counters w !! kc.2)
              (map_to_list (m_counters mg)))
  end.

(** ** Runs of traffic operations *)

(** A run: connections are routed in turn, and any connection routed so far
    may report bytes, also after its session was closed. *)
Inductive op :=
| ORoute (inbound user : string)
| OUp (conn : nat) (n : Z)
| ODown (conn : nat) (n : Z).

Definition run_op (m : nat) (st : World * list (option nat)) (o : op) : World * list (option nat) :=
  let '(w, conns) := st in
  match o with
  | ORoute inbound user =>
      let '(w', c) := RoutedConnection m inbound user w in (w', conns ++ [c])
  | OUp h n => (count_upload (mjoin (conns !! h)) n w, conns)
  | ODown h n => (count_download (mjoin (conns !! h)) n w, conns)
  end.

Definition run (m : nat) (ops : list op) (w : World) : World * list (option nat) :=
  foldl (run_op m) (w, []) ops.

(** The reference: the key each connection was routed with, and what the
    connections of a key reported so far, as unbounded integers. *)
Record ledger := mkLedger {
  l_keys : list (string * string);
  l_totals : gmap (string * string) (Z * Z);
}.

Definition ledger_add (h : nat) (du dd : Z) (l : ledger) : ledger :=
  match l_keys l !! h with
  | None => l
  | Some k => mkLedger (l_keys l) (alter (λ t, (t.1 + du, t.2 + dd)%Z) k (l_totals l))
  end.

Definition ledger_op (l : ledger) (o : op) : ledger :=
  match o with
  | ORoute inbound user =>
      mkLedger (l_keys l ++ [(inbound, user)])
        (if bool_decide (user = "") then l_totals l
         else match l_totals l !! (inbound, user) with
              | Some _ => l_totals l
              | None => <[(inbound, user) := (0, 0)%Z]> (l_totals l)
              end)
  | OUp h n => ledger_add h n 0 l
  | ODown h n => ledger_add h 0 n l
  end.

Definition ledger_run (ops : list op) : ledger := foldl ledger_op (mkLedger [] ∅) ops.

(** ** Refinement *)

(** The counter a connection routed with key [k] reports to. *)
Definition conn_of (cs : gmap (string * string) nat) (k : string * string) : option nat :=
  if decide (k.2 = "") then None else cs !! k.

(** The simulation relation between a run and its ledger: every keyed counter
    holds the ledger's totals at machine width, counters are not shared, and
    each connection points to the counter of the key it was routed with. *)
Record sim (m : nat) (w : World) (conns : list (option nat)) (l : ledger)
    (mg : Manager) : Prop := {
  sim_mgr : managers w !! m = Some mg;
  sim_dom : ∀ k, is_Some (m_counters mg !! k) ↔ is_Some (l_totals l !! k);
  sim_val : ∀ k c t, m_counters mg !! k = Some c → l_totals l !! k = Some t →
    counters w !! c = Some (mkTrafficCounter (wrap_int64 t.1) (wrap_int64 t.2));
  sim_inj : ∀ k k' c, m_counters mg !! k = Some c → m_counters mg !! k' = Some c → k = k';
  sim_user : ∀ k, is_Some (m_counters mg !! k) → k.2 ≠ "";
  sim_conns : conns = conn_of (m_counters mg) <$> l_keys l;
  sim_keys : ∀ k, k ∈ l_keys l → k.2 ≠ "" → is_Some (m_counters mg !! k);
}.

Lemma sim_route m w conns l mg inbound user :
  sim m w conns l mg →
  ∃ mg', sim m (RoutedConnection m inbound user w).1
               (conns ++ [(RoutedConnection m inbound user w).2])
               (ledger_op l (ORoute inbound user)) mg'.
Proof.
  intros [Hm Hd Hv Hinj Hu Hc Hk].
  unfold RoutedConnection, counter, ledger_op.
  case_bool_decide as He; subst.
  { exists mg. constructor; simpl; try done.
    - rewrite fmap_app. f_equal.
    - intros k [?| ->]%elem_of_snoc; [by apply Hk|done]. }
  rewrite Hm. destruct (m_counters mg !! (inbound, user)) as [c|] eqn:Hcn; simpl.
  - destruct (proj1 (Hd (inbound, user))) as [t Ht]; [eauto|]. rewrite Ht.
    exists mg. constructor; simpl; try done.
    + rewrite fmap_app. f_equal. simpl. unfold conn_of; simpl. by rewrite decide_False, Hcn.
    + intros k [?| ->]%elem_of_snoc; [by apply Hk|eauto].
  - assert (l_totals l !! (inbound, user) = None) as Ht.
    { apply eq_None_not_Some. rewrite <-Hd. rewrite Hcn. by intros [? ?]. }
    rewrite Ht. set (c := fresh (dom (counters w))).
    assert (counters w !! c = None) as Hfr by apply not_elem_of_dom, is_fresh.
    assert (∀ k, is_Some (m_counters mg !! k) → m_counters mg !! k ≠ Some c) as Hnc.
    { intros k Hsk Hsc. destruct (proj1 (Hd k) Hsk) as [t Htk].
      rewrite (Hv _ _ _ Hsc Htk) in Hfr. done. }
    eexists (mkManager _ (<[(inbound, user):=c]> (m_counters mg))). constructor; simpl.
    + by rewrite lookup_insert_eq.
    + intros k. rewrite !lookup_insert_is_Some'. by rewrite Hd.
    + intros k c' t. rewrite !lookup_insert_Some.
      intros [[<- <-]|[Hne H1]] [[H2 <-]|[Hne' H2]]; simplify_eq; try done.
      * by left.
      * right. split; [|by eapply Hv]. intros ->. by eapply (Hnc k); eauto.
    + intros k k' c'. rewrite !lookup_insert_Some.
      intros [[<- <-]|[Hne H1]] [[<- H2]|[Hne' H2]]; try done.
      * edestruct Hnc; eauto.
      * subst c'. edestruct Hnc; eauto.
      * by eapply Hinj.
    + intros k. rewrite lookup_insert_is_Some'. intros [<-|?]; [done|by apply Hu].
    + rewrite fmap_app; simpl.
      replace (conn_of (<[(inbound, user):=c]> (m_counters mg)) (inbound, user)) with (Some c)
        by (unfold conn_of; simpl; by rewrite decide_False, lookup_insert_eq).
      f_equal. apply list_fmap_ext. intros i k Hik. unfold conn_of. case_decide as Hke; [done|].
      rewrite lookup_insert_ne; [done|]. intros <-.
      destruct (Hk (inbound, user)) as [? ?]; [by eapply list_elem_of_lookup_2|done|congruence].
    + intros k [?| ->]%elem_of_snoc ?; rewrite lookup_insert_is_Some'; [right; by apply Hk|by left].
Qed.

(** Reporting [du] uploaded and [dd] downloaded bytes on a connection, by any
    counter update [f] that adds them at machine width. *)
Lemma sim_count m w conns l mg h du dd f :
  (∀ a b, f (mkTrafficCounter (wrap_int64 a) (wrap_int64 b)) =
          mkTrafficCounter (wrap_int64 (a + du)) (wrap_int64 (b + dd))) →
  sim m w conns l mg →
  sim m (match mjoin (conns !! h) with
         | None => w
         | Some c => set_counters (alter f c) w
         end) conns (ledger_add h du dd l) mg.
Proof.
  intros Hf [Hm Hd Hv Hinj Hu Hc Hk]. unfold ledger_add. rewrite Hc, list_lookup_fmap.
  destruct (l_keys l !! h) as [k|] eqn:Hh; simpl; [|done].
  assert (k ∈ l_keys l) as Hin by by eapply list_elem_of_lookup_2.
  unfold conn_of at 1. case_decide as Hke.
  { rewrite alter_missing; [by constructor|]. apply eq_None_not_Some. rewrite <-Hd.
    intros Hs. by apply (Hu k Hs). }
  destruct (Hk k Hin Hke) as [c Hck]. rewrite Hck.
  constructor; simpl; try done.
  - intros k'. rewrite Hd, lookup_alter. case_decide; subst; [by rewrite fmap_is_Some|done].
  - intros k' c' t Hck' Ht. rewrite lookup_alter in Ht. case_decide; subst.
    + simplify_eq. apply fmap_Some in Ht as (t0 & Ht0 & ->); simpl.
      by rewrite lookup_alter_eq, (Hv _ _ _ Hck Ht0); simpl; rewrite Hf.
    + rewrite lookup_alter_ne by (intros ->; by eauto using eq_sym). by eapply Hv.
Qed.

Lemma run_sim m w ops :
  managers w !! m = Some (mkManager ∅ ∅) →
  ∃ mg, sim m (run m ops w).1 (run m ops w).2 (ledger_run ops) mg.
Proof.
  intros Hm. induction ops as [|o ops IH] using rev_ind.
  { exists (mkManager ∅ ∅). constructor; simpl; try done.
    - intros k. by rewrite !lookup_empty.
    - intros k [? ?]. by rewrite lookup_empty in *.
    - intros k ?%not_elem_of_nil. done. }
  unfold run, ledger_run in *. rewrite !foldl_snoc. destruct IH as [mg IH].
  destruct (foldl (run_op m) (w, []) ops) as [w1 conns]; cbn [fst snd] in *.
  destruct o as [inbound user|h n|h n]; cbn [run_op ledger_op].
  - destruct (sim_route _ _ _ _ _ inbound user IH) as [mg' IH'].
    destruct (RoutedConnection m inbound user w1); simpl in *. by exists mg'.
  - exists mg. refine (sim_count _ _ _ _ _ h n 0 _ _ IH). intros a b; simpl.
    rewrite wrap_int64_add. by rewrite Z.add_0_r.
  - exists mg. refine (sim_count _ _ _ _ _ h 0 n _ _ IH). intros a b; simpl.
    rewrite wrap_int64_add. by rewrite Z.add_0_r.
Qed.

(** ** The snapshot order *)

Lemma snapshot_less_spec a b :
  snapshot_less a b = true ↔
  string_lt (Inbound a) (Inbound b) = true ∨
  (Inbound a = Inbound b ∧ string_lt (User a) (User b) = true).
Proof.
  unfold snapshot_less. case_bool_decide as He.
  - split; [by left|]. intros [?|[? _]]; done.
  - rewrite He, string_lt_irrefl. naive_solver.
Qed.

Lemma snapshot_less_trans a b c :
  snapshot_less a b = true → snapshot_less b c = true → snapshot_less a c = true.
Proof.
  rewrite !snapshot_less_spec. intros [H1|[-> H1]] [H2|[E H2]].
  - left. by eapply string_lt_trans.
  - left. by rewrite <-E.
  - by left.
  - right. split; [done|]. by eapply string_lt_trans.
Qed.

Lemma snapshot_less_irrefl a : snapshot_less a a = false.
Proof.
  apply not_true_is_false. rewrite snapshot_less_spec, !string_lt_irrefl. naive_solver.
Qed.

Lemma snapshot_trichotomy a b :
  snapshot_less a b = true ∨ (Inbound a = Inbound b ∧ User a = User b) ∨ snapshot_less b a = true.
Proof.
  rewrite !snapshot_less_spec.
  destruct (string_lt_trichotomy (Inbound a) (Inbound b)) as [?|[E|?]]; [by auto| |by auto].
  destruct (string_lt_trichotomy (User a) (User b)) as [?|[E'|?]]; auto.
Qed.

#[export] Instance snapshot_le_total : Total snapshot_le.
Proof.
  intros a b. unfold snapshot_le. destruct (snapshot_less b a) eqn:E1; [|by left].
  right. apply not_true_is_false. intros E2.
  pose proof (snapshot_less_trans _ _ _ E1 E2). by rewrite snapshot_less_irrefl in *.
Qed.

#[export] Instance snapshot_le_trans : Transitive snapshot_le.
Proof.
  intros a b c. unfold snapshot_le. intros H1 H2. apply not_true_is_false. intros H3.
  destruct (snapshot_trichotomy a b) as [Hab|[[Hi Hu]|Hab]]; [| |congruence].
  - pose proof (snapshot_less_trans _ _ _ H3 Hab). congruence.
  - apply snapshot_less_spec in H3. rewrite Hi, Hu in H3.
    apply snapshot_less_spec in H3. congruence.
Qed.

(** C18: after any run of routed connections reporting bytes, also on
    connections whose sessions are gone, [Counters] lists every key exactly
    once, in strictly increasing (inbound, user) order, with the totals of the
    unbounded ledger reduced to 64-bit two's complement. *)
Theorem Counters_refine_ledger m w ops :
  managers w !! m = Some (mkManager ∅ ∅) →
  let snapshots := Counters m (run m ops w).1 in
  StronglySorted (λ a b, snapshot_less a b = true) snapshots ∧
  (∀ i u up down, mkSnapshot i u up down ∈ snapshots ↔
     ∃ a b, l_totals (ledger_run ops) !! (i, u) = Some (a, b) ∧
            up = wrap_int64 a ∧ down = wrap_int64 b).
Proof.
  intros Hm. destruct (run_sim m w ops Hm) as [mg [Hm' Hd Hv Hinj Hu _ _]].
  set (w' := (run m ops w).1) in *. set (l := ledger_run ops) in *. clearbody w' l.
  simpl. unfold Counters. rewrite Hm'.
  set (snaps := omap _ _).
  assert (∀ i u up down, mkSnapshot i u up down ∈ snaps ↔
            ∃ a b, l_totals l !! (i, u) = Some (a, b) ∧ up = wrap_int64 a ∧ down = wrap_int64 b) as Hel.
  { intros i u up down. unfold snaps. rewrite list_elem_of_omap. split.
    - intros ([[i' u'] c] & Hin%elem_of_map_to_list & Hs); simpl in *.
      destruct (proj1 (Hd (i', u'))) as [[a b] Ht]; [eauto|].
      rewrite (Hv _ _ _ Hin Ht) in Hs. simplify_eq/=. eauto.
    - intros (a & b & Ht & -> & ->). destruct (proj2 (Hd (i, u))) as [c Hc]; [eauto|].
      exists (i, u, c). split; [by apply elem_of_map_to_list|]. simpl.
      by rewrite (Hv _ _ _ Hc Ht). }
  assert (NoDup ((λ s, (Inbound s, User s)) <$> snaps)) as Hnd.
  { pose proof (NoDup_fst_map_to_list (m_counters mg)) as Hk.
    assert (∀ kc, kc ∈ map_to_list (m_counters mg) → is_Some (counters w' !! kc.2)) as Hsome.
    { intros [k c] Hin%elem_of_map_to_list; simpl.
      destruct (proj1 (Hd k)) as [t Ht]; [eauto|]. rewrite (Hv _ _ _ Hin Ht). eauto. }
    unfold snaps. clear -Hk Hsome. induction (map_to_list (m_counters mg)) as [|[[i u] c] kcs IH];
      [constructor|]. csimpl. destruct (Hsome (i, u, c)) as [x Hx]; [left|]. simpl in *.
    rewrite Hx; simpl. inversion Hk as [|? ? Hni Hk']; subst.
    constructor; [|apply IH; [done|intros; apply Hsome; by right]].
    intros Hin. apply Hni. apply list_elem_of_fmap in Hin as (s & Heq & Hin).
    apply list_elem_of_omap in Hin as ([[i' u'] c'] & Hin & Hs).
    apply list_elem_of_fmap. exists (i', u', c'). split; [|done].
    simpl in *. destruct (counters w' !! c'); simplify_eq/=. done. }
  split.
  - pose proof (StronglySorted_merge_sort snapshot_le snaps) as Hs.
    pose proof (merge_sort_Permutation snapshot_le snaps) as Hp. rewrite <-Hp in Hnd.
    revert Hs Hnd. generalize (merge_sort snapshot_le snaps). clear.
    induction 1 as [|a l Hs IH Ha]; intros Hnd; [constructor|].
    inversion Hnd as [|? ? Hni Hnd']; subst. constructor; [by apply IH|].
    rewrite Forall_forall in *. intros b Hb. specialize (Ha b Hb). unfold snapshot_le in Ha.
    destruct (snapshot_trichotomy a b) as [?|[[Hi Hu]|?]]; [done| |congruence].
    destruct Hni. apply list_elem_of_fmap. exists b. split; [congruence|done].
  - intros i u up down. by rewrite merge_sort_Permutation.
Qed.

Lemma Counters_refine_ledger_witness :
  StronglySorted (λ a b, snapshot_less a b = true)
    (Counters 0 (run 0 [ORoute "vless" "bob"; ORoute "socks" "alice"; OUp 0 10; ORoute "vless" "bob";
                        ODown 2 5; OUp 1 (2 ^ 63)]
                   (mkWorld {[ 0 := mkManager ∅ ∅ ]} ∅ ∅ ∅ ∅ [])).1) ∧
  Counters 0 (run 0 [ORoute "vless" "bob"; ORoute "socks" "alice"; OUp 0 10; ORoute "vless" "bob";
                     ODown 2 5; OUp 1 (2 ^ 63)]
                (mkWorld {[ 0 := mkManager ∅ ∅ ]} ∅ ∅ ∅ ∅ [])).1 =
    [mkSnapshot "socks" "alice" (- 2 ^ 63) 0; mkSnapshot "vless" "bob" 10 5].
Proof.
  split; [|vm_compute; reflexivity].
  refine (proj1 (Counters_refine_ledger 0 _ _ _)). vm_compute. reflexivity.
Defined.
