(* ===== verification/HotRules.v ===== *)
(** * Live replacement of routing rules

    Model of src/runtime/sing-box/route/hot_add.go: rules are reused by
    pointer, a publication replaces an immutable slice, and a rule that left
    the slice is closed when the leases on the snapshot it left are returned.
    Rule objects and snapshots are pointers; the closures returned by
    [PrepareAddedRules] and [acquireRules] are the variables they capture. *)
From S2P Require Import Prelude.

(** ** Data and operations *)

(** hot_add.go, [ruleSnapshot]. *)
Record ruleSnapshot := mkRuleSnapshot {
  sn_rules : list nat;
  sn_leases : Z;
  sn_retired : list nat;
}.

(** The part of [Router] hot_add.go touches, with the rule objects allocated
    so far and the log of [rule.Close] calls. *)
Record Router := mkRouter {
  r_rules : list nat;
  r_addedRules : option nat;
  r_snapshots : gmap nat ruleSnapshot;
  r_allocated : gset nat;
  r_closed : list nat;
}.

Definition set_snapshot (p : nat) (s : ruleSnapshot) (r : Router) : Router :=
  mkRouter (r_rules r) (r_addedRules r) (<[p := s]> (r_snapshots r)) (r_allocated r) (r_closed r).
Definition set_added (p : nat) (r : Router) : Router :=
  mkRouter (r_rules r) (Some p) (r_snapshots r) (r_allocated r) (r_closed r).
Definition close_rules (l : list nat) (r : Router) : Router :=
  mkRouter (r_rules r) (r_addedRules r) (r_snapshots r) (r_allocated r) (r_closed r ++ l).
Definition alloc_rule (x : nat) (r : Router) : Router :=
  mkRouter (r_rules r) (r_addedRules r) (r_snapshots r) ({[x]} ∪ r_allocated r) (r_closed r).

(** hot_add.go, [(r *Router) currentRules]. *)
Definition currentRules (r : Router) : list nat :=
  match r_addedRules r ≫= λ p, r_snapshots r !! p with
  | Some snapshot => sn_rules snapshot
  | None => r_rules r
  end.

(** [slice[i]] with Go's bounds check. *)
Definition index {A} (l : list A) (i : Z) : result A :=
  if decide (0 ≤ i)%Z then
    match l !! Z.to_nat i with Some x => Ok x | None => Err (EPanic "index out of range") end
  else Err (EPanic "index out of range").

(** The variables captured by [commit] and [abort]. *)
Record PreparedRules := mkPreparedRules {
  pr_next : list nat;
  pr_retired : list nat;
  pr_added : list nat;
}.

Section prepare.
(** [R.NewRule] and [rule.Start], which may fail on an option. *)
Context {O : Type} (NewRule Start : O → option error).

(** The loop over the options.  The state is the router, [next] so far and
    [added] so far; an error aborts, closing what was added. *)
Fixpoint prepare_loop (previous : list nat) (previousIndexes : list Z) (options : list O)
    (i : nat) (r : Router) (next added : list nat) : Router * result (list nat * list nat) :=
  match options with
  | [] => (r, Ok (next, added))
  | option :: options =>
      match index previousIndexes (Z.of_nat i) with
      | Err e => (r, Err e)
      | Ok previousIndex =>
          if decide (0 ≤ previousIndex)%Z then
            match index previous previousIndex with
            | Err e => (r, Err e)
            | Ok rule => prepare_loop previous previousIndexes options (S i) r (next ++ [rule]) added
            end
          else
            match NewRule option with
            | Some e => (close_rules added r, Err e)
            | None =>
                let rule := fresh (r_allocated r) in
                let r := alloc_rule rule r in
                let added := added ++ [rule] in
                match Start option with
                | Some e => (close_rules added r, Err e)
                | None => prepare_loop previous previousIndexes options (S i) r (next ++ [rule]) added
                end
            end
      end
  end.

(** hot_add.go, [(r *Router) PrepareAddedRules]. *)
Definition PrepareAddedRules (options : list O) (previousIndexes : list Z) (r : Router)
    : Router * result PreparedRules :=
  let previous := currentRules r in
  match prepare_loop previous previousIndexes options 0 r [] [] with
  | (r', Err e) => (r', Err e)
  | (r', Ok (next, added)) =>
      (r', Ok (mkPreparedRules next (filter (λ rule, rule ∉ next) previous) added))
  end.
End prepare.

(** The [abort] closure. *)
Definition abortRules (p : PreparedRules) (r : Router) : Router := close_rules (pr_added p) r.

(** The [commit] closure. *)
Definition commitRules (p : PreparedRules) (r : Router) : Router :=
  let '(r0, old, old_sn) :=
    match r_addedRules r ≫= λ q, pair q <$> r_snapshots r !! q with
    | Some (q, sn) => (r, q, sn)
    | None =>
        let q := fresh (dom (r_snapshots r)) in
        (r, q, mkRuleSnapshot (r_rules r) 0 [])
    end in
  let old_sn := mkRuleSnapshot (sn_rules old_sn) (sn_leases old_sn) (pr_retired p) in
  let r1 := set_snapshot old old_sn r0 in
  let q := fresh (dom (r_snapshots r1)) in
  let r2 := set_added q (set_snapshot q (mkRuleSnapshot (pr_next p) 0 []) r1) in
  if decide (sn_leases old_sn = 0)%Z then
    set_snapshot old (mkRuleSnapshot (sn_rules old_sn) 0 []) (close_rules (sn_retired old_sn) r2)
  else r2.

(** hot_add.go, [(r *Router) acquireRules]: the rules and the snapshot the
    release closure captures. *)
Definition acquireRules (r : Router) : Router * list nat * nat :=
  let '(r, q, sn) :=
    match r_addedRules r ≫= λ q, pair q <$> r_snapshots r !! q with
    | Some (q, sn) => (r, q, sn)
    | None =>
        let q := fresh (dom (r_snapshots r)) in
        let sn := mkRuleSnapshot (r_rules r) 0 [] in
        (set_added q (set_snapshot q sn r), q, sn)
    end in
  (set_snapshot q (mkRuleSnapshot (sn_rules sn) (sn_leases sn + 1) (sn_retired sn)) r,
   sn_rules sn, q).

(** The release closure returned by [acquireRules]. *)
Definition releaseRules (q : nat) (r : Router) : Router :=
  match r_snapshots r !! q with
  | None => r
  | Some sn =>
      let leases := (sn_leases sn - 1)%Z in
      if decide (leases = 0)%Z then
        set_snapshot q (mkRuleSnapshot (sn_rules sn) 0 []) (close_rules (sn_retired sn) r)
      else set_snapshot q (mkRuleSnapshot (sn_rules sn) leases (sn_retired sn)) r
  end.

(** ** What preparation establishes *)

(** The state of the loop after the options with indexes below [i]. *)
Record loop_state (previous : list nat) (idx : list Z) (r0 : Router) (i : nat)
    (r : Router) (next added : list nat) : Prop := {
  ls_router : r = mkRouter (r_rules r0) (r_addedRules r0) (r_snapshots r0)
                    (list_to_set added ∪ r_allocated r0) (r_closed r0);
  ls_fresh : ∀ x, x ∈ added → x ∉ r_allocated r0;
  ls_added : NoDup added;
  ls_sub : ∀ x, x ∈ added → x ∈ next;
  ls_next : ∀ x, x ∈ next → x ∈ added ∨
    ∃ j k, j < i ∧ idx !! j = Some (Z.of_nat k) ∧ previous !! k = Some x;
  ls_nodup : NoDup next;
}.

(** The indexes a plan passes: one per option, each negative or the position
    of a distinct current rule. *)
Record indexes_ok (n : nat) (previous : list nat) (idx : list Z) : Prop := {
  io_length : length idx = n;
  io_range : ∀ j k, idx !! j = Some k → (k < Z.of_nat (length previous))%Z;
  io_inj : ∀ j j' k, idx !! j = Some (Z.of_nat k) → idx !! j' = Some (Z.of_nat k) → j = j';
}.

Lemma index_lookup {A} (l : list A) (i : nat) x : l !! i = Some x → index l (Z.of_nat i) = Ok x.
Proof. intros Hi. unfold index. rewrite decide_True by lia. by rewrite Nat2Z.id, Hi. Qed.

Lemma loop_init previous idx r : loop_state previous idx r 0 r [] [].
Proof.
  constructor; try (by intros x ?%not_elem_of_nil); try apply NoDup_nil_2.
  destruct r; simpl. f_equal. set_solver.
Qed.

Section prepare_proofs.
Context {O : Type} (NewRule Start : O → option error).
Context (previous : list nat) (idx : list Z) (r0 : Router).
Context (Hprev : NoDup previous) (Halloc : ∀ x, x ∈ previous → x ∈ r_allocated r0).

Lemma loop_reuse i r next added k rule :
  loop_state previous idx r0 i r next added →
  (∀ j j' k, idx !! j = Some (Z.of_nat k) → idx !! j' = Some (Z.of_nat k) → j = j') →
  idx !! i = Some (Z.of_nat k) → previous !! k = Some rule →
  loop_state previous idx r0 (S i) r (next ++ [rule]) added.
Proof.
  intros [Hr Hf Ha Hs Hn Hnd] Hinj Hi Hk. constructor; try done.
  - intros x Hx. apply elem_of_snoc. left. by apply Hs.
  - intros x [Hx| ->]%elem_of_snoc; [|right; exists i, k; split_and!; [lia|done..]].
    destruct (Hn _ Hx) as [?|(j & k' & ? & ? & ?)]; [by left|right].
    exists j, k'. split_and!; [lia|done..].
  - apply NoDup_app. split_and!; [done| |apply NoDup_singleton].
    intros x Hx Heq%list_elem_of_singleton. subst x.
    destruct (Hn _ Hx) as [Hadd|(j & k' & Hj & Hjk & Hk')].
    + apply (Hf _ Hadd), Halloc. by eapply list_elem_of_lookup_2.
    + assert (k = k') as <- by (eapply (NoDup_lookup previous); done).
      rewrite (Hinj j i k) in Hj by done. lia.
Qed.

Lemma loop_fresh i r next added :
  loop_state previous idx r0 i r next added →
  let rule := fresh (r_allocated r) in
  loop_state previous idx r0 (S i) (alloc_rule rule r) (next ++ [rule]) (added ++ [rule]).
Proof.
  intros [Hr Hf Ha Hs Hn Hnd] rule.
  assert (rule ∉ r_allocated r) as Hfr by apply is_fresh.
  assert (rule ∉ added ∧ rule ∉ r_allocated r0) as [Hfa Hf0].
  { rewrite Hr in Hfr. simpl in Hfr. rewrite elem_of_union, elem_of_list_to_set in Hfr. tauto. }
  clearbody rule. constructor.
  - unfold alloc_rule. rewrite Hr; simpl. f_equal. rewrite list_to_set_app_L; simpl. set_solver.
  - intros x [?| ->]%elem_of_snoc; [by apply Hf|done].
  - apply NoDup_app. split_and!; [done| |apply NoDup_singleton].
    intros x Hx Heq%list_elem_of_singleton. by subst.
  - intros x [?| ->]%elem_of_snoc; apply elem_of_snoc; [left; by apply Hs|by right].
  - intros x [Hx| ->]%elem_of_snoc; [|left; apply elem_of_snoc; by right].
    destruct (Hn _ Hx) as [?|(j & k' & ? & ? & ?)]; [left; apply elem_of_snoc; by left|right].
    exists j, k'. split_and!; [lia|done..].
  - apply NoDup_app. split_and!; [done| |apply NoDup_singleton].
    intros x Hx Heq%list_elem_of_singleton. subst x.
    destruct (Hn _ Hx) as [?|(j & k' & _ & _ & Hk')]; [done|].
    apply Hf0, Halloc. by eapply list_elem_of_lookup_2.
Qed.

(** The loop ends with the new slice, or with an error after which every
    rule it allocated has been closed once. *)
Lemma prepare_rules_spec options i r next added :
  indexes_ok (i + length options) previous idx →
  loop_state previous idx r0 i r next added →
  match prepare_loop NewRule Start previous idx options i r next added with
  | (r', Ok (next', added')) => loop_state previous idx r0 (i + length options) r' next' added'
  | (r', Err e) => ∃ added', NoDup added' ∧ (∀ x, x ∈ added' → x ∉ r_allocated r0) ∧
      r' = mkRouter (r_rules r0) (r_addedRules r0) (r_snapshots r0)
             (list_to_set added' ∪ r_allocated r0) (r_closed r0 ++ added')
  end.
Proof.
  revert i r next added; induction options as [|o options IH]; intros i r next added Hio HL; simpl.
  { by rewrite Nat.add_0_r. }
  simpl in Hio. destruct (Hio) as [Hlen Hrange Hinj].
  destruct (lookup_lt_is_Some_2 idx i) as [k Hk]; [lia|].
  rewrite (index_lookup _ _ _ Hk). rewrite <-Nat.add_succ_comm in Hio |- *.
  case_decide as Hpos.
  - assert (idx !! i = Some (Z.of_nat (Z.to_nat k))) as Hk' by by rewrite Z2Nat.id.
    destruct (lookup_lt_is_Some_2 previous (Z.to_nat k)) as [rule Hrule].
    { pose proof (Hrange _ _ Hk). lia. }
    pose proof (index_lookup _ _ _ Hrule) as Hix. rewrite Z2Nat.id in Hix by done. rewrite Hix.
    apply IH; [done|]. by eapply loop_reuse.
  - destruct (NewRule o) as [e|].
    + exists added. destruct HL as [-> ? ? _ _ _]. by split_and!.
    + pose proof (loop_fresh _ _ _ _ HL) as HL'. destruct (Start o) as [e|].
      * eexists (added ++ [_]). destruct HL' as [-> ? ? _ _ _]. by split_and!.
      * by apply IH.
Qed.
End prepare_proofs.

(** ** The interleaved system *)

(** Outstanding leases (a snapshot may be leased several times) and the rules
    prepared by the reload in progress. *)
Record RConf := mkRConf {
  rc_router : Router;
  rc_leases : list nat;
  rc_prep : option PreparedRules;
}.

Section system.
Context {O : Type} (NewRule Start : O → option error).

(** Connections lease and return snapshots at any time; [Box.reloadMu]
    serialises preparation, abort and publication. *)
Inductive rstep : RConf → RConf → Prop :=
| rs_acquire r ls pr :
    rstep (mkRConf r ls pr) (mkRConf (acquireRules r).1.1 ((acquireRules r).2 :: ls) pr)
| rs_release r ls1 q ls2 pr :
    rstep (mkRConf r (ls1 ++ q :: ls2) pr) (mkRConf (releaseRules q r) (ls1 ++ ls2) pr)
| rs_prepare r ls options idx p :
    indexes_ok (length options) (currentRules r) idx →
    (PrepareAddedRules NewRule Start options idx r).2 = Ok p →
    rstep (mkRConf r ls None)
          (mkRConf (PrepareAddedRules NewRule Start options idx r).1 ls (Some p))
| rs_prepare_fails r ls options idx e :
    indexes_ok (length options) (currentRules r) idx →
    (PrepareAddedRules NewRule Start options idx r).2 = Err e →
    rstep (mkRConf r ls None) (mkRConf (PrepareAddedRules NewRule Start options idx r).1 ls None)
| rs_abort r ls p : rstep (mkRConf r ls (Some p)) (mkRConf (abortRules p r) ls None)
| rs_commit r ls p : rstep (mkRConf r ls (Some p)) (mkRConf (commitRules p r) ls None).

(** A router that starts with distinct rules. *)
Definition initial (rules : list nat) : RConf :=
  mkRConf (mkRouter rules None ∅ (list_to_set rules) []) [] None.

Inductive rreachable : RConf → Prop :=
| rr_init rules : NoDup rules → rreachable (initial rules)
| rr_step c c' : rreachable c → rstep c c' → rreachable c'.
End system.

(** ** The invariant *)

(** How often a snapshot is leased. *)
Fixpoint count (q : nat) (l : list nat) : Z :=
  match l with [] => 0 | x :: l => (if decide (x = q) then 1 else 0) + count q l end%Z.

(** Where an allocated rule can be. *)
Definition parked (r : Router) (x : nat) : Prop :=
  ∃ q sn, r_snapshots r !! q = Some sn ∧ x ∈ sn_retired sn.

Record RInv (r : Router) (ls : list nat) (pr : option PreparedRules) : Prop := {
  ri_cur : NoDup (currentRules r);
  ri_closed : NoDup (r_closed r);
  ri_disj : ∀ x, x ∈ currentRules r → x ∉ r_closed r ∧ ¬ parked r x;
  ri_parked : ∀ x, parked r x → x ∉ r_closed r;
  ri_alloc : ∀ x, x ∈ currentRules r ∨ x ∈ r_closed r ∨ parked r x → x ∈ r_allocated r;
  ri_cover : ∀ x, x ∈ r_allocated r → x ∈ currentRules r ∨ x ∈ r_closed r ∨ parked r x ∨
    ∃ p, pr = Some p ∧ x ∈ pr_added p;
  ri_leases : ∀ q sn, r_snapshots r !! q = Some sn → sn_leases sn = count q ls;
  ri_leased : ∀ q, q ∈ ls → is_Some (r_snapshots r !! q);
  ri_retired : ∀ q sn, r_snapshots r !! q = Some sn → NoDup (sn_retired sn) ∧
    (sn_retired sn ≠ [] → sn_leases sn ≠ 0%Z);
  ri_sep : ∀ q q' sn sn' x, r_snapshots r !! q = Some sn → r_snapshots r !! q' = Some sn' →
    x ∈ sn_retired sn → x ∈ sn_retired sn' → q = q';
  ri_added : ∀ q, r_addedRules r = Some q → ∃ sn, r_snapshots r !! q = Some sn ∧ sn_retired sn = [];
  ri_none : r_addedRules r = None → r_snapshots r = ∅;
  ri_prep : ∀ p, pr = Some p →
    pr_retired p = filter (λ x, x ∉ pr_next p) (currentRules r) ∧ NoDup (pr_next p) ∧
    (∀ x, x ∈ pr_next p → x ∈ pr_added p ∨ x ∈ currentRules r) ∧
    (∀ x, x ∈ pr_added p → x ∈ pr_next p) ∧ NoDup (pr_added p) ∧
    (∀ x, x ∈ pr_added p → x ∈ r_allocated r ∧ x ∉ currentRules r ∧ x ∉ r_closed r ∧ ¬ parked r x);
}.

(** ** Every step preserves the invariant *)

(** The first snapshot is created on demand; creating it early changes nothing
    an observer of the router can see. *)
Definition ensure (r : Router) : Router :=
  match r_addedRules r with
  | Some _ => r
  | None =>
      let q := fresh (dom (r_snapshots r)) in
      set_added q (set_snapshot q (mkRuleSnapshot (r_rules r) 0 []) r)
  end.

Lemma count_zero q ls : q ∉ ls → count q ls = 0%Z.
Proof.
  induction ls as [|x ls IH]; simpl; [done|]. rewrite not_elem_of_cons. intros [Hne Hin].
  rewrite decide_False by congruence. by rewrite IH.
Qed.

Lemma count_nonneg q ls : (0 ≤ count q ls)%Z.
Proof. induction ls; simpl; [done|]. case_decide; lia. Qed.

Lemma count_remove q x ls1 ls2 :
  count q (ls1 ++ x :: ls2) = ((if decide (x = q) then 1 else 0) + count q (ls1 ++ ls2))%Z.
Proof. induction ls1; simpl; [done|]. rewrite IHls1. lia. Qed.

Section none.
Context (r : Router) (ls : list nat) (pr : option PreparedRules) (HI : RInv r ls pr).

Lemma ls_nil_of_none : r_addedRules r = None → ls = [].
Proof using HI.
  intros Hn. apply (ri_none _ _ _ HI) in Hn. destruct ls as [|q ls']; [done|].
  destruct (ri_leased _ _ _ HI q) as [? Hq]; [left|]. by rewrite Hn, lookup_empty in Hq.
Qed.

Lemma ensure_inv : RInv (ensure r) ls pr.
Proof using HI.
  unfold ensure. destruct (r_addedRules r) as [q|] eqn:Ha; [done|].
  pose proof (ls_nil_of_none Ha) as Hls. pose proof (ri_none _ _ _ HI Ha) as Hsn.
  set (q := fresh (dom (r_snapshots r))). clearbody q.
  set (r' := set_added q (set_snapshot q (mkRuleSnapshot (r_rules r) 0 []) r)).
  assert (r_snapshots r' = {[ q := mkRuleSnapshot (r_rules r) 0 [] ]}) as Hs'
    by (unfold r'; simpl; by rewrite Hsn).
  assert (currentRules r' = currentRules r) as Hcur.
  { unfold currentRules. rewrite Hs', Ha. unfold r'; simpl. by rewrite lookup_singleton_eq. }
  assert (∀ x, parked r' x ↔ parked r x) as Hpk.
  { intros x. unfold parked. rewrite Hs', Hsn. split; intros (q' & sn & Hq & Hx).
    - apply lookup_singleton_Some in Hq as [_ <-]. simpl in Hx. by apply not_elem_of_nil in Hx.
    - by rewrite lookup_empty in Hq. }
  destruct HI. constructor; rewrite ?Hcur; try setoid_rewrite Hpk; try done.
  - intros q' sn. rewrite Hs'. intros [<- <-]%lookup_singleton_Some. subst ls; done.
  - subst ls. by intros q' ?%not_elem_of_nil.
  - intros q' sn. rewrite Hs'. intros [<- <-]%lookup_singleton_Some; simpl.
    split; [constructor|done].
  - intros q1 q2 sn1 sn2 x. rewrite Hs'. intros [<- <-]%lookup_singleton_Some.
    by intros [<- <-]%lookup_singleton_Some.
  - intros q' [= <-]. rewrite Hs', lookup_singleton_eq. eauto.
Qed.

Lemma ensure_snapshot : ∃ q sn, r_addedRules (ensure r) = Some q ∧
  r_snapshots (ensure r) !! q = Some sn ∧ sn_retired sn = [] ∧
  sn_rules sn = currentRules r ∧ r_closed (ensure r) = r_closed r ∧
  r_allocated (ensure r) = r_allocated r ∧ currentRules (ensure r) = currentRules r.
Proof using HI.
  unfold ensure. destruct (r_addedRules r) as [q|] eqn:Ha.
  - destruct (ri_added _ _ _ HI q Ha) as (sn & Hsn & Hr). exists q, sn.
    unfold currentRules. rewrite Ha; simpl. rewrite Hsn. by split_and!.
  - eexists _, _. split; [reflexivity|]. simpl. rewrite lookup_insert_eq.
    unfold currentRules; simpl. rewrite lookup_insert_eq, Ha. by split_and!.
Qed.

Lemma acquire_ensure : acquireRules r = acquireRules (ensure r).
Proof using HI.
  unfold ensure. destruct (r_addedRules r) as [q|] eqn:Ha; [done|].
  unfold acquireRules at 2; simpl. rewrite lookup_insert_eq; simpl.
  unfold acquireRules. rewrite Ha; simpl. done.
Qed.

Lemma commit_ensure p : commitRules p r = commitRules p (ensure r).
Proof using HI.
  unfold ensure. destruct (r_addedRules r) as [q|] eqn:Ha; [done|].
  unfold commitRules at 2; simpl. rewrite lookup_insert_eq; simpl.
  unfold commitRules. rewrite Ha; simpl. unfold set_snapshot, set_added, close_rules; simpl.
  by rewrite !insert_insert_eq.
Qed.
End none.

(** An update of the lease count of one snapshot. *)
Lemma lease_inv r ls pr q sn n ls' :
  RInv r ls pr → r_snapshots r !! q = Some sn →
  (∀ q', count q' ls' = if decide (q' = q) then n else count q' ls) →
  (sn_retired sn ≠ [] → n ≠ 0%Z) → (∀ q', q' ∈ ls' → q' = q ∨ q' ∈ ls) →
  RInv (set_snapshot q (mkRuleSnapshot (sn_rules sn) n (sn_retired sn)) r) ls' pr.
Proof.
  intros HI Hq Hcount Hn Hsub. set (r' := set_snapshot _ _ _).
  assert (∀ q' sn', r_snapshots r' !! q' = Some sn' → ∃ sn0, r_snapshots r !! q' = Some sn0 ∧
            sn_rules sn' = sn_rules sn0 ∧ sn_retired sn' = sn_retired sn0 ∧
            sn_leases sn' = if decide (q' = q) then n else sn_leases sn0) as Hsn.
  { intros q' sn'. simpl. rewrite lookup_insert_Some. intros [[<- <-]|[Hne H]]; simpl.
    - exists sn. by rewrite decide_True.
    - exists sn'. by rewrite decide_False. }
  assert (currentRules r' = currentRules r) as Hcur.
  { unfold currentRules; simpl. destruct (r_addedRules r) as [q'|]; simpl; [|done].
    destruct (decide (q' = q)) as [->|]; [by rewrite lookup_insert_eq, Hq|].
    by rewrite lookup_insert_ne. }
  assert (∀ x, parked r' x ↔ parked r x) as Hpk.
  { intros x. unfold parked. split; intros (q' & sn' & Hq' & Hx).
    - destruct (Hsn _ _ Hq') as (sn0 & ? & _ & Hr & _). exists q', sn0. by rewrite <-Hr.
    - simpl. destruct (decide (q' = q)) as [->|].
      + eexists q, _. rewrite lookup_insert_eq. simplify_eq. by split.
      + exists q', sn'. by rewrite lookup_insert_ne. }
  destruct HI. constructor; rewrite ?Hcur; try setoid_rewrite Hpk; try done.
  - intros q' sn' H. destruct (Hsn _ _ H) as (sn0 & H0 & _ & _ & ->).
    rewrite Hcount, (ri_leases0 _ _ H0). done.
  - intros q' H. simpl. rewrite lookup_insert_is_Some'. destruct (Hsub _ H); [by left|right; auto].
  - intros q' sn' H. destruct (Hsn _ _ H) as (sn0 & H0 & _ & Hr & Hl).
    rewrite Hr. destruct (ri_retired0 _ _ H0) as [? Hnz]. split; [done|].
    intros Hne. rewrite Hl. case_decide; subst; [|by apply Hnz]. simplify_eq. by apply Hn.
  - intros q1 q2 sn1 sn2 x H1 H2.
    destruct (Hsn _ _ H1) as (sn1' & H1' & _ & -> & _), (Hsn _ _ H2) as (sn2' & H2' & _ & -> & _).
    by eapply ri_sep0.
  - intros q' Ha. simpl in Ha. destruct (ri_added0 q' Ha) as (sn' & Hs' & Hr').
    simpl. destruct (decide (q' = q)) as [->|].
    + rewrite lookup_insert_eq. eexists; split; [done|]. simpl. congruence.
    + rewrite lookup_insert_ne by done. eauto.
  - intros Ha. simpl in Ha. apply ri_none0 in Ha. rewrite Ha, lookup_empty in Hq. done.
Qed.

Lemma acquire_inv r ls pr :
  RInv r ls pr → RInv (acquireRules r).1.1 ((acquireRules r).2 :: ls) pr.
Proof.
  intros HI. rewrite (acquire_ensure _ _ _ HI).
  destruct (ensure_snapshot _ _ _ HI) as (q & sn & Ha & Hsn & Hr & _).
  pose proof (ensure_inv _ _ _ HI) as HE.
  unfold acquireRules. rewrite Ha; simpl. rewrite Hsn; simpl.
  eapply lease_inv; [exact HE|done| |done|].
  - intros q'. simpl. rewrite (ri_leases _ _ _ HE _ _ Hsn).
    case_decide; case_decide; subst; try done; lia.
  - intros q' [->|?]%elem_of_cons; auto.
Qed.

(** Closing everything a snapshot retired. *)
Lemma release_last_inv r ls pr q sn ls' :
  RInv r ls pr → r_snapshots r !! q = Some sn →
  (∀ q', count q' ls' = if decide (q' = q) then 0%Z else count q' ls) →
  (∀ q', q' ∈ ls' → q' ∈ ls) →
  RInv (set_snapshot q (mkRuleSnapshot (sn_rules sn) 0 []) (close_rules (sn_retired sn) r)) ls' pr.
Proof.
  intros HI Hq Hcount Hsub. set (r' := set_snapshot _ _ _).
  assert (∀ q' sn', r_snapshots r' !! q' = Some sn' →
            (q' = q ∧ sn' = mkRuleSnapshot (sn_rules sn) 0 []) ∨
            (q' ≠ q ∧ r_snapshots r !! q' = Some sn')) as Hsn.
  { intros q' sn'. simpl. rewrite lookup_insert_Some. naive_solver. }
  assert (currentRules r' = currentRules r) as Hcur.
  { unfold currentRules; simpl. destruct (r_addedRules r) as [q'|]; simpl; [|done].
    destruct (decide (q' = q)) as [->|]; [by rewrite lookup_insert_eq, Hq|].
    by rewrite lookup_insert_ne. }
  assert (∀ x, parked r x ↔ parked r' x ∨ x ∈ sn_retired sn) as Hpk.
  { intros x. unfold parked. split.
    - intros (q' & sn' & Hq' & Hx). destruct (decide (q' = q)) as [->|]; [right; by simplify_eq|left].
      exists q', sn'. simpl. by rewrite lookup_insert_ne.
    - intros [(q' & sn' & Hq' & Hx)|Hx]; [|by exists q, sn].
      destruct (Hsn _ _ Hq') as [[-> ->]|[? ?]]; [by apply not_elem_of_nil in Hx|by exists q', sn']. }
  assert (∀ x, parked r' x → x ∉ sn_retired sn) as Hsep.
  { intros x (q' & sn' & Hq' & Hx) Hx'.
    destruct (Hsn _ _ Hq') as [[-> ->]|[? ?]]; [by apply not_elem_of_nil in Hx|].
    by destruct (ri_sep _ _ _ HI q' q sn' sn x). }
  destruct HI. constructor; rewrite ?Hcur; simpl; try done.
  - apply NoDup_app. split_and!; [done| |by eapply ri_retired0].
    intros x Hx Hr. apply (ri_parked0 x); [|done]. by exists q, sn.
  - intros x Hx. rewrite elem_of_app. destruct (ri_disj0 x Hx) as [? Hnp].
    rewrite Hpk in Hnp. tauto.
  - intros x Hp. rewrite elem_of_app. intros [?|?]; [|by eapply Hsep].
    by eapply ri_parked0; [apply Hpk; left|].
  - intros x. rewrite elem_of_app. intros Hx. apply ri_alloc0. rewrite Hpk. tauto.
  - intros x Hx. rewrite elem_of_app. destruct (ri_cover0 x Hx) as [?|[?|[Hp|?]]]; try tauto.
    apply Hpk in Hp. tauto.
  - intros q' sn' H. rewrite Hcount. destruct (Hsn _ _ H) as [[-> ->]|[? ?]].
    + by rewrite decide_True.
    + rewrite decide_False by done. by apply ri_leases0.
  - intros q' H%Hsub. simpl. rewrite lookup_insert_is_Some'. right. by apply ri_leased0.
  - intros q' sn' H. destruct (Hsn _ _ H) as [[-> ->]|[? ?]]; [|by eapply ri_retired0].
    split; [constructor|done].
  - intros q1 q2 sn1 sn2 x H1 H2 Hx1 Hx2.
    destruct (Hsn _ _ H1) as [[-> ->]|[? ?]]; [by apply not_elem_of_nil in Hx1|].
    destruct (Hsn _ _ H2) as [[-> ->]|[? ?]]; [by apply not_elem_of_nil in Hx2|].
    by eapply ri_sep0.
  - intros q' Ha. destruct (ri_added0 q' Ha) as (sn' & Hs' & Hr').
    destruct (decide (q' = q)) as [->|].
    + rewrite lookup_insert_eq. eauto.
    + rewrite lookup_insert_ne by done. eauto.
  - intros Ha. apply ri_none0 in Ha. rewrite Ha, lookup_empty in Hq. done.
  - intros p Hp. destruct (ri_prep0 p Hp) as (? & ? & ? & ? & ? & Hadd). split_and!; try done.
    intros x Hx. destruct (Hadd x Hx) as (? & ? & ? & Hnp). rewrite Hpk in Hnp.
    rewrite elem_of_app. tauto.
Qed.

Lemma release_inv r ls1 q ls2 pr :
  RInv r (ls1 ++ q :: ls2) pr → RInv (releaseRules q r) (ls1 ++ ls2) pr.
Proof.
  intros HI. destruct (ri_leased _ _ _ HI q) as [sn Hsn]; [set_solver|].
  unfold releaseRules. rewrite Hsn.
  pose proof (ri_leases _ _ _ HI _ _ Hsn) as Hl. rewrite count_remove, decide_True in Hl by done.
  case_decide as Hz.
  - eapply release_last_inv; [exact HI|done| |set_solver].
    intros q'. rewrite count_remove. case_decide; subst; [|by rewrite decide_False].
    lia.
  - eapply lease_inv; [exact HI|done| |done|set_solver].
    intros q'. rewrite count_remove. case_decide; subst; [|by rewrite decide_False]. lia.
Qed.

(** The router changed only by allocating the rules in [added]. *)
Lemma alloc_prep_inv r ls p :
  RInv r ls None → NoDup (pr_added p) → (∀ x, x ∈ pr_added p → x ∉ r_allocated r) →
  pr_retired p = filter (λ x, x ∉ pr_next p) (currentRules r) → NoDup (pr_next p) →
  (∀ x, x ∈ pr_next p → x ∈ pr_added p ∨ x ∈ currentRules r) →
  (∀ x, x ∈ pr_added p → x ∈ pr_next p) →
  RInv (mkRouter (r_rules r) (r_addedRules r) (r_snapshots r)
          (list_to_set (pr_added p) ∪ r_allocated r) (r_closed r)) ls (Some p).
Proof.
  intros HI Hnd Hfr Hret Hnn Hnext Hsub. set (r' := mkRouter _ _ _ _ _).
  assert (∀ x, x ∈ currentRules r ∨ x ∈ r_closed r ∨ parked r x → x ∉ pr_added p) as Hout.
  { intros x Hx Hp. by apply (Hfr x Hp), (ri_alloc _ _ _ HI). }
  destruct HI. constructor; try done.
  - intros x Hx. simpl. apply elem_of_union. right. by apply ri_alloc0.
  - intros x. simpl. rewrite elem_of_union, elem_of_list_to_set. intros [?|Hx]; [by eauto 10|].
    destruct (ri_cover0 x Hx) as [?|[?|[?|(? & ? & _)]]]; [by auto|by auto|by auto|done].
  - intros p' [= <-]. split_and!; try done. intros x Hx.
    split_and!; [simpl; set_solver|intros ?; eapply Hout; eauto..].
Qed.

Lemma prepare_inv {O} (NewRule Start : O → option error) r ls options idx :
  RInv r ls None → indexes_ok (length options) (currentRules r) idx →
  match PrepareAddedRules NewRule Start options idx r with
  | (r', Ok p) => RInv r' ls (Some p)
  | (r', Err _) => RInv r' ls None
  end.
Proof.
  intros HI Hidx. unfold PrepareAddedRules.
  pose proof (prepare_rules_spec NewRule Start (currentRules r) idx r (ri_cur _ _ _ HI)
    ltac:(intros x Hx; apply (ri_alloc _ _ _ HI); by left) options 0 r [] [] Hidx) as HL.
  destruct (prepare_loop _ _ _ _ _ _ _ _ _) as [r' [[next added]|e]].
  - destruct HL as [-> Hf Ha Hs Hn Hnd].
    { apply loop_init. }
    apply (alloc_prep_inv r ls (mkPreparedRules next _ added)); try done.
    intros x Hx. destruct (Hn x Hx) as [?|(j & k & _ & _ & Hk)]; [by left|right].
    by eapply list_elem_of_lookup_2.
  - destruct HL as (added & Hnd & Hf & ->).
    { apply loop_init. }
    assert (∀ x, x ∈ currentRules r ∨ x ∈ r_closed r ∨ parked r x → x ∉ added) as Hout.
    { intros x Hx Hp. by apply (Hf x Hp), (ri_alloc _ _ _ HI). }
    destruct HI. constructor; try done; simpl.
    + apply NoDup_app. split_and!; [done| |done]. intros x Hx. apply Hout. auto.
    + intros x Hx. destruct (ri_disj0 x Hx). rewrite elem_of_app.
      split; [|done]. intros [?|?]; [done|]. by apply (Hout x); [left|].
    + intros x Hx. rewrite elem_of_app. intros [?|?]; [by apply (ri_parked0 x)|].
      by apply (Hout x); [right; right|].
    + intros x. rewrite elem_of_app, elem_of_union, elem_of_list_to_set.
      intros [?|[[?|?]|?]]; auto.
    + intros x. rewrite elem_of_app, elem_of_union, elem_of_list_to_set. intros [?|Hx]; [by auto|].
      destruct (ri_cover0 x Hx) as [?|[?|[?|?]]]; auto.
Qed.

Lemma abort_inv r ls p : RInv r ls (Some p) → RInv (abortRules p r) ls None.
Proof.
  intros HI. destruct (ri_prep _ _ _ HI p eq_refl) as (_ & _ & _ & _ & Hnd & Hadd).
  destruct HI. constructor; try done; simpl.
  - apply NoDup_app. split_and!; [done| |done]. intros x Hx Hp. by apply Hadd in Hp as (_ & _ & ? & _).
  - intros x Hx. destruct (ri_disj0 x Hx). rewrite elem_of_app. split; [|done].
    intros [?|Hp]; [done|]. by apply Hadd in Hp as (_ & ? & _).
  - intros x Hx. rewrite elem_of_app. intros [?|Hp]; [by apply (ri_parked0 x)|].
    by apply Hadd in Hp as (_ & _ & _ & ?).
  - intros x. rewrite elem_of_app. intros [?|[[?|Hp]|?]]; [by auto|by auto| |by auto].
    by apply Hadd in Hp as (? & _).
  - intros x Hx. rewrite elem_of_app.
    destruct (ri_cover0 x Hx) as [?|[?|[?|(p' & [= <-] & ?)]]]; auto.
Qed.

(** The router after publishing over the snapshot [q]. *)
Lemma commit_spec r ls p q sn :
  RInv r ls (Some p) → r_addedRules r = Some q → r_snapshots r !! q = Some sn →
  ∃ q', r_snapshots r !! q' = None ∧
    let r' := commitRules p r in
    r_rules r' = r_rules r ∧ r_addedRules r' = Some q' ∧ r_allocated r' = r_allocated r ∧
    r_closed r' = r_closed r ++ (if decide (sn_leases sn = 0)%Z then pr_retired p else []) ∧
    r_snapshots r' = <[q := mkRuleSnapshot (sn_rules sn) (sn_leases sn)
                            (if decide (sn_leases sn = 0)%Z then [] else pr_retired p)]>
                     (<[q' := mkRuleSnapshot (pr_next p) 0 []]> (r_snapshots r)).
Proof.
  intros HI Ha Hsn. unfold commitRules. rewrite Ha; simpl. rewrite Hsn; simpl.
  set (q' := fresh _).
  assert (q' ∉ dom (<[q:=mkRuleSnapshot (sn_rules sn) (sn_leases sn) (pr_retired p)]>
                      (r_snapshots r))) as Hf by apply is_fresh.
  clearbody q'. rewrite dom_insert_L, not_elem_of_union, not_elem_of_singleton in Hf.
  destruct Hf as [Hne Hq']. apply not_elem_of_dom in Hq'.
  exists q'. split; [done|]. case_decide as Hz; simpl; split_and!; try done.
  - rewrite (insert_insert_ne _ q' q), insert_insert_eq by done. by rewrite Hz.
  - by rewrite app_nil_r.
  - by rewrite insert_insert_ne by done.
Qed.

Lemma publish_step_inv r ls p : RInv r ls (Some p) → RInv (commitRules p r) ls None.
Proof.
  intros HI0. rewrite (commit_ensure _ _ _ HI0).
  destruct (ensure_snapshot _ _ _ HI0) as (q & sn & Ha & Hsn & Hnil & _ & _ & _ & _).
  pose proof (ensure_inv _ _ _ HI0) as HI. clear HI0. set (r1 := ensure r) in *. clearbody r1.
  destruct (ri_prep _ _ _ HI p eq_refl) as (Hret & Hnn & Hnext & Hsub & _ & Hadd).
  assert (∀ x, x ∈ pr_retired p ↔ x ∈ currentRules r1 ∧ x ∉ pr_next p) as HR.
  { intros x. rewrite Hret, list_elem_of_filter. tauto. }
  destruct (commit_spec _ _ _ _ _ HI Ha Hsn) as (q' & Hq' & Hru & Had & Hal & Hcl & Hss).
  set (r' := commitRules p r1) in *. clearbody r'.
  assert (q ≠ q') as Hqq by congruence.
  set (z := sn_leases sn) in *.
  assert (currentRules r' = pr_next p) as Hcur.
  { unfold currentRules. rewrite Had, Hss; simpl.
    by rewrite lookup_insert_ne, lookup_insert_eq by done. }
  assert (∀ x, parked r' x ↔ parked r1 x ∨ (z ≠ 0%Z ∧ x ∈ pr_retired p)) as Hpk.
  { intros x. unfold parked. rewrite Hss. split.
    - intros (k & sk & Hk & Hx). apply lookup_insert_Some in Hk as [[<- <-]|[Hk1 Hk]]; simpl in *.
      + case_decide; [by apply not_elem_of_nil in Hx|by right].
      + apply lookup_insert_Some in Hk as [[<- <-]|[Hk2 Hk]]; [by apply not_elem_of_nil in Hx|].
        left. by exists k, sk.
    - intros [(k & sk & Hk & Hx)|[Hz Hx]].
      + assert (k ≠ q) by (intros ->; simplify_eq; rewrite Hnil in Hx; by apply not_elem_of_nil in Hx).
        exists k, sk. by rewrite !lookup_insert_ne by congruence.
      + eexists q, _. rewrite lookup_insert_eq. split; [done|]. simpl. by rewrite decide_False. }
  assert (∀ x, x ∈ r_closed r' ↔ x ∈ r_closed r1 ∨ (z = 0%Z ∧ x ∈ pr_retired p)) as Hclx.
  { intros x. rewrite Hcl, elem_of_app. case_decide; [tauto|]. rewrite elem_of_nil. tauto. }
  assert (∀ x, x ∈ pr_retired p → x ∉ r_closed r1 ∧ ¬ parked r1 x) as HRd.
  { intros x [Hx _]%HR. by apply (ri_disj _ _ _ HI). }
  assert (∀ x, x ∈ pr_next p → x ∉ r_closed r1 ∧ ¬ parked r1 x) as HNd.
  { intros x [Hx|Hx]%Hnext; [by apply Hadd in Hx as (_ & _ & ? & ?)|by apply (ri_disj _ _ _ HI)]. }
  destruct HI. constructor.
  - by rewrite Hcur.
  - rewrite Hcl. apply NoDup_app. split_and!; [done| |].
    + intros x Hx Hr. case_decide; [by apply HRd in Hr as [? _]|by apply not_elem_of_nil in Hr].
    + case_decide; [|constructor]. rewrite Hret. by apply NoDup_filter.
  - intros x. rewrite Hcur, Hclx, Hpk, HR. intros Hx. destruct (HNd x Hx). tauto.
  - intros x. rewrite Hclx, Hpk. intros [Hp|[? Hr]] [Hc|[? Hr']]; try done.
    + by apply (ri_parked0 x).
    + by apply HRd in Hr' as [_ ?].
    + by apply HRd in Hr as [? _].
  - intros x. rewrite Hal, Hcur, Hclx, Hpk, HR. intros Hx.
    destruct Hx as [[Hx|Hx]%Hnext|[[Hx|[_ [Hx _]]]|[Hx|[_ [Hx _]]]]];
      [by apply Hadd in Hx as [? _]|by apply ri_alloc0; auto..].
  - intros x Hx. rewrite Hal in Hx. rewrite Hcur, Hclx, Hpk, HR.
    destruct (decide (x ∈ pr_next p)) as [|Hn]; [by left|].
    destruct (ri_cover0 x Hx) as [?|[?|[?|(p' & [= <-] & Hp)]]]; [|by auto|by auto|by apply Hsub in Hp].
    destruct (decide (z = 0%Z)); auto 10.
  - intros k sk. rewrite Hss. intros [[<- <-]|[Hk1 Hk]]%lookup_insert_Some; simpl.
    { by apply ri_leases0. }
    apply lookup_insert_Some in Hk as [[<- <-]|[Hk2 Hk]]; simpl; [|by apply ri_leases0].
    symmetry. apply count_zero. intros [? ?]%ri_leased0. congruence.
  - intros k Hk%ri_leased0. rewrite Hss, !lookup_insert_is_Some'. auto.
  - intros k sk. rewrite Hss. intros [[<- <-]|[Hk1 Hk]]%lookup_insert_Some; simpl.
    { case_decide; [split; [constructor|done]|]. split; [|done]. rewrite Hret. by apply NoDup_filter. }
    apply lookup_insert_Some in Hk as [[<- <-]|[Hk2 Hk]]; simpl; [|by apply ri_retired0 in Hk].
    split; [constructor|done].
  - assert (∀ k sk x, r_snapshots r' !! k = Some sk → x ∈ sn_retired sk →
      (k = q ∧ x ∈ pr_retired p) ∨ (∃ sk', r_snapshots r1 !! k = Some sk' ∧ x ∈ sn_retired sk')) as Hw.
    { intros k sk x. rewrite Hss. intros [[<- <-]|[Hk1 Hk]]%lookup_insert_Some Hx; simpl in *.
      - case_decide; [by apply not_elem_of_nil in Hx|by left].
      - apply lookup_insert_Some in Hk as [[<- <-]|[Hk2 Hk]]; simpl in Hx; [by apply not_elem_of_nil in Hx|].
        right. eauto. }
    intros k k' sk sk' x Hk Hk' Hx Hx'.
    destruct (Hw _ _ _ Hk Hx) as [[-> Hr]|(s1 & H1 & H1')], (Hw _ _ _ Hk' Hx') as [[-> Hr']|(s2 & H2 & H2')];
      [done|exfalso|exfalso|by eapply ri_sep0].
    + apply HRd in Hr as [_ Hnp]. apply Hnp. by exists k', s2.
    + apply HRd in Hr' as [_ Hnp]. apply Hnp. by exists k, s1.
  - intros k. rewrite Had. intros [= <-]. rewrite Hss, lookup_insert_ne, lookup_insert_eq by done. eauto.
  - rewrite Had. done.
  - done.
Qed.

Lemma rstep_inv {O} (NewRule Start : O → option error) c c' :
  RInv (rc_router c) (rc_leases c) (rc_prep c) → rstep NewRule Start c c' →
  RInv (rc_router c') (rc_leases c') (rc_prep c').
Proof.
  intros HI Hs. destruct Hs; simpl in *.
  - by apply acquire_inv.
  - by apply release_inv.
  - pose proof (prepare_inv NewRule Start _ _ _ _ HI H) as HP.
    destruct (PrepareAddedRules _ _ _ _ _) as [r' [p'|e]]; simplify_eq/=. done.
  - pose proof (prepare_inv NewRule Start _ _ _ _ HI H) as HP.
    destruct (PrepareAddedRules _ _ _ _ _) as [r' [p'|e']]; simplify_eq/=. done.
  - by apply abort_inv.
  - by apply publish_step_inv.
Qed.

Lemma initial_inv rules : NoDup rules →
  RInv (rc_router (initial rules)) (rc_leases (initial rules)) (rc_prep (initial rules)).
Proof.
  intros Hnd. assert (∀ x, ¬ parked (rc_router (initial rules)) x) as Hp.
  { intros x (? & ? & Hq & _). simpl in Hq. by rewrite lookup_empty in Hq. }
  constructor; simpl; try done; try (intros; simplify_map_eq; done); try apply NoDup_nil_2.
  - intros x Hx. split; [apply not_elem_of_nil|apply Hp].
  - intros x Hx. by apply Hp in Hx.
  - intros x [Hx|[Hx|Hx]]; [by apply elem_of_list_to_set|by apply not_elem_of_nil in Hx|by apply Hp in Hx].
  - intros x Hx. left. by apply elem_of_list_to_set in Hx.
  - by intros q ?%not_elem_of_nil.
Qed.

Lemma rreachable_inv {O} (NewRule Start : O → option error) c :
  rreachable NewRule Start c → RInv (rc_router c) (rc_leases c) (rc_prep c).
Proof. induction 1; [by apply initial_inv|by eapply rstep_inv]. Qed.

(** ** Properties *)

Section properties.
Context {O : Type} (NewRule Start : O → option error).

(** C19: in every reachable state no rule of the published slice has been
    closed, and no rule is ever closed twice, however leases, preparations,
    aborts and publications interleave. *)
Theorem published_rules_stay_open c :
  rreachable NewRule Start c →
  (∀ x, x ∈ currentRules (rc_router c) → x ∉ r_closed (rc_router c)) ∧
  NoDup (r_closed (rc_router c)).
Proof.
  intros HI%rreachable_inv. split; [|apply HI]. intros x Hx. by apply (ri_disj _ _ _ HI).
Qed.

(** C20: no rule leaks.  Once every lease is returned and no reload is in
    progress, every rule ever created is published or has been closed. *)
Theorem retired_rules_are_closed c :
  rreachable NewRule Start c → rc_leases c = [] → rc_prep c = None →
  ∀ x, x ∈ r_allocated (rc_router c) →
    x ∈ currentRules (rc_router c) ∨ x ∈ r_closed (rc_router c).
Proof.
  intros HI%rreachable_inv Hl Hp x Hx. rewrite Hl, Hp in HI.
  destruct (ri_cover _ _ _ HI x Hx) as [?|[?|[(q & sn & Hq & Hr)|(p & ? & _)]]]; [by auto|by auto| |done].
  exfalso. apply (ri_retired _ _ _ HI) in Hq as Hq'. destruct Hq' as [_ Hz].
  apply Hz; [intros Hn; rewrite Hn in Hr; by apply not_elem_of_nil in Hr|]. by apply (ri_leases _ _ _ HI) in Hq.
Qed.

(** a connection holding a lease on the published snapshot is safe from
    the next publication: it closes nothing, and what it retires waits in
    the leased snapshot. *)
Lemma lease_defers_next_publication c q p :
  rreachable NewRule Start c → rc_prep c = Some p →
  r_addedRules (rc_router c) = Some q → q ∈ rc_leases c →
  r_closed (commitRules p (rc_router c)) = r_closed (rc_router c) ∧
  ∃ sn, r_snapshots (commitRules p (rc_router c)) !! q = Some sn ∧ sn_retired sn = pr_retired p.
Proof.
  intros HI%rreachable_inv Hp Ha Hq. rewrite Hp in HI.
  destruct (ri_leased _ _ _ HI q Hq) as [sn Hsn].
  destruct (commit_spec _ _ _ _ _ HI Ha Hsn) as (q' & Hq' & _ & _ & _ & Hcl & Hss).
  assert (sn_leases sn ≠ 0%Z) as Hz.
  { rewrite (ri_leases _ _ _ HI _ _ Hsn). apply list_elem_of_split in Hq as (l1 & l2 & ->).
    rewrite count_remove, decide_True by done. pose proof (count_nonneg q (l1 ++ l2)). lia. }
  rewrite Hcl, Hss, lookup_insert_eq, !decide_False by done. rewrite app_nil_r. eauto.
Qed.
End properties.

(** A run in which every rule can be created. *)
Module HotRun.
Definition ok : unit → option error := λ _, None.
Definition r0 : Router := rc_router (initial [1; 2]).
Definition r1 : Router := (acquireRules r0).1.1.
Definition q0 : nat := (acquireRules r0).2.
Definition prep1 := PrepareAddedRules ok ok [(); (); ()] [0; 1; -1]%Z r1.
Definition p1 : PreparedRules :=
  match prep1.2 with Ok p => p | Err _ => mkPreparedRules [] [] [] end.
Definition r2 : Router := commitRules p1 prep1.1.
Definition prep2 := PrepareAddedRules ok ok [(); ()] [1; 2]%Z r2.
Definition p2 : PreparedRules :=
  match prep2.2 with Ok p => p | Err _ => mkPreparedRules [] [] [] end.
Definition r3 : Router := commitRules p2 prep2.1.

Lemma idx_ok previous idx n :
  length idx = n → Forall (λ k, k < Z.of_nat (length previous))%Z idx →
  NoDup (filter (λ k, 0 ≤ k)%Z idx) → indexes_ok n previous idx.
Proof.
  intros Hl Hr Hnd. split; [done|intros j k Hk; by eapply Forall_lookup in Hr|].
  clear Hl Hr. revert Hnd. induction idx as [|k0 idx IH]; intros Hnd j j' k H1 H2; [done|].
  rewrite filter_cons in Hnd.
  assert (∀ i, idx !! i = Some (Z.of_nat k) → k0 ≠ Z.of_nat k) as Hne.
  { intros i Hi ->. rewrite decide_True in Hnd by lia. apply NoDup_cons in Hnd as [Hni _].
    apply Hni, list_elem_of_filter. split; [lia|by eapply list_elem_of_lookup_2]. }
  destruct j as [|j], j' as [|j']; simpl in *; simplify_eq.
  - done.
  - by destruct (Hne j').
  - by destruct (Hne j).
  - f_equal. apply (IH ltac:(case_decide; [by inversion Hnd|done]) j j' k); done.
Defined.

Lemma reach_r1 : rreachable ok ok (mkRConf r1 [q0] None).
Proof.
  eapply rr_step; [apply (rr_init ok ok [1; 2])|apply rs_acquire].
  apply (bool_decide_unpack _). vm_compute. exact I.
Defined.

Local Ltac idx_side := apply idx_ok;
  [reflexivity|apply (bool_decide_unpack _); vm_compute; exact I
  |apply (bool_decide_unpack _); vm_compute; exact I].

Lemma reach_prep1 : rreachable ok ok (mkRConf prep1.1 [q0] (Some p1)).
Proof.
  eapply rr_step; [exact reach_r1|].
  apply rs_prepare; [idx_side|vm_compute; reflexivity].
Defined.

Lemma reach_r2 : rreachable ok ok (mkRConf r2 [q0] None).
Proof. eapply rr_step; [exact reach_prep1|apply rs_commit]. Defined.

Lemma reach_r3 : rreachable ok ok (mkRConf r3 [q0] None).
Proof.
  eapply rr_step; [|apply (rs_commit ok ok prep2.1 [q0] p2)].
  eapply rr_step; [exact reach_r2|].
  apply rs_prepare; [idx_side|vm_compute; reflexivity].
Defined.

Lemma reach_released : rreachable ok ok (mkRConf (releaseRules q0 r3) [] None).
Proof. eapply rr_step; [exact reach_r3|apply (rs_release ok ok r3 [] q0 [])]. Defined.
End HotRun.

Lemma published_rules_stay_open_witness :
  currentRules HotRun.r3 = [2; 3] ∧ r_closed HotRun.r3 = [1] ∧
  ∀ x, x ∈ currentRules HotRun.r3 → x ∉ r_closed HotRun.r3.
Proof.
  split_and!; [vm_compute; reflexivity|vm_compute; reflexivity|].
  exact (proj1 (published_rules_stay_open HotRun.ok HotRun.ok _ HotRun.reach_r3)).
Defined.

Lemma retired_rules_are_closed_witness :
  1 ∈ currentRules (releaseRules HotRun.q0 HotRun.r3) ∨
  1 ∈ r_closed (releaseRules HotRun.q0 HotRun.r3).
Proof.
  refine (retired_rules_are_closed HotRun.ok HotRun.ok _ HotRun.reach_released eq_refl eq_refl 1 _).
  apply (bool_decide_unpack _). vm_compute. exact I.
Defined.

Lemma lease_defers_next_publication_witness :
  r_closed (commitRules HotRun.p1 HotRun.prep1.1) = [].
Proof.
  refine (proj1 (lease_defers_next_publication HotRun.ok HotRun.ok _ HotRun.q0 HotRun.p1
                   HotRun.reach_prep1 eq_refl _ _)).
  - vm_compute. reflexivity.
  - apply (bool_decide_unpack _). vm_compute. exact I.
Defined.

(** The protection of a lease ends with the next publication.  A rule
    that survives one publication and is dropped by a later one is closed at
    that later publication although an older snapshot that contains it is
    still leased: the leases counted are those of the snapshot being replaced
    only. *)
Lemma lease_does_not_protect_across_publications :
  ∃ c q sn x, rreachable HotRun.ok HotRun.ok c ∧ q ∈ rc_leases c ∧
    r_snapshots (rc_router c) !! q = Some sn ∧ (0 < sn_leases sn)%Z ∧
    x ∈ sn_rules sn ∧ x ∈ r_closed (rc_router c).
Proof.
  exists (mkRConf HotRun.r3 [HotRun.q0] None), HotRun.q0, (mkRuleSnapshot [1; 2] 1 []), 1.
  split_and!; [exact HotRun.reach_r3|set_solver|vm_compute; reflexivity|done|set_solver|].
  apply (bool_decide_unpack _). vm_compute. exact I.
Qed.
