(* ===== verification/Registry.v ===== *)
(** * Tagged registries: the endpoint, inbound and service managers

    Model of src/runtime/sing-box/adapter/{endpoint,inbound,service}/manager.go
    and of the life-cycle helpers they call (adapter/lifecycle.go,
    adapter/lifecycle_legacy.go).  The three managers keep a slice of objects
    in creation order and a map from tag to object; objects are compared by
    pointer, which is [a_id]. *)
From S2P Require Import Prelude.

(** ** Life cycle *)

(** lifecycle.go, [StartStage]. *)
Inductive StartStage :=
| StartStateInitialize
| StartStateStart
| StartStatePostStart
| StartStateStarted.

#[export] Instance StartStage_eq_dec : EqDecision StartStage.
Proof. solve_decision. Defined.

Definition stage_value (s : StartStage) : nat :=
  match s with
  | StartStateInitialize => 0
  | StartStateStart => 1
  | StartStatePostStart => 2
  | StartStateStarted => 3
  end.

(** lifecycle.go, [ListStartStages]. *)
Definition ListStartStages : list StartStage :=
  [StartStateInitialize; StartStateStart; StartStatePostStart; StartStateStarted].

(** lifecycle.go, [(s StartStage) String]. *)
Definition stage_String (s : StartStage) : string :=
  match s with
  | StartStateInitialize => "initialize"
  | StartStateStart => "start"
  | StartStatePostStart => "post-start"
  | StartStateStarted => "finish-start"
  end.

(** The methods a manager can call on an object. *)
Inductive method :=
| MStartStage (stage : StartStage)   (** [Lifecycle.Start(stage)] *)
| MPreStart
| MStart
| MPostStart
| MClose.

#[export] Instance method_eq_dec : EqDecision method.
Proof. solve_decision. Defined.

(** Which of the start interfaces an object implements. *)
Inductive starter :=
| Lifecycle
| Legacy (pre start post : bool).

#[export] Instance starter_eq_dec : EqDecision starter.
Proof. solve_decision. Defined.

(** An inbound, outbound, endpoint or service. *)
Record Adapter := mkAdapter {
  a_id : nat;
  a_Type : string;
  a_Tag : string;
  a_Dependencies : list string;
  a_starter : starter;
  a_closer : bool;
}.

#[export] Instance Adapter_eq_dec : EqDecision Adapter.
Proof. solve_decision. Defined.

(** lifecycle_legacy.go, [LegacyStart]: the method to call, if any. *)
Definition LegacyStart_method (x : Adapter) (stage : StartStage) : option method :=
  match a_starter x with
  | Lifecycle => Some (MStartStage stage)
  | Legacy pre start post =>
      match stage with
      | StartStateInitialize => if pre then Some MPreStart else None
      | StartStateStart => if start then Some MStart else None
      | StartStatePostStart => None
      | StartStateStarted => if post then Some MPostStart else None
      end
  end.

(** The calls made so far, in order. *)
Notation calls := (list (nat * method)).

Section calls.
(** What each method of each object answers. *)
Context (answer : nat → method → option error).

Definition invoke (x : Adapter) (m : method) (l : calls) : calls * option error :=
  (l ++ [(a_id x, m)], answer (a_id x) m).

Definition LegacyStart (x : Adapter) (stage : StartStage) (l : calls) : calls * option error :=
  match LegacyStart_method x stage with
  | None => (l, None)
  | Some m => invoke x m l
  end.

(** [common.Close] of one object, and [x.Close()] on one that has it. *)
Definition Close (x : Adapter) (l : calls) : calls * option error :=
  if a_closer x then invoke x MClose l else (l, None).

Definition display (kind : string) (x : Adapter) : string :=
  kind +:+ "/" +:+ a_Type x +:+ "[" +:+ a_Tag x +:+ "]".

(** Start every object of a slice at one stage, up to the first error. *)
Fixpoint start_each (kind : string) (stage : StartStage) (xs : list Adapter) (l : calls)
    : calls * option error :=
  match xs with
  | [] => (l, None)
  | x :: xs =>
      match LegacyStart x stage l with
      | (l', Some e) => (l', Some (ECause e (stage_String stage +:+ " " +:+ display kind x)))
      | (l', None) => start_each kind stage xs l'
      end
  end.

(** Start one object through a list of stages, up to the first error. *)
Fixpoint start_stages (kind : string) (x : Adapter) (stages : list StartStage) (l : calls)
    : calls * option error :=
  match stages with
  | [] => (l, None)
  | stage :: stages =>
      match LegacyStart x stage l with
      | (l', Some e) => (l', Some (ECause e (stage_String stage +:+ " " +:+ display kind x)))
      | (l', None) => start_stages kind x stages l'
      end
  end.

(** Close every object of a slice; the errors are collected and dropped. *)
Fixpoint close_each (xs : list Adapter) (l : calls) : calls :=
  match xs with
  | [] => l
  | x :: xs => close_each xs (Close x l).1
  end.
End calls.

(** [common.Index(xs, it == x)]: the first position of the pointer. *)
Fixpoint index_of (x : Adapter) (xs : list Adapter) : option nat :=
  match xs with
  | [] => None
  | y :: ys => if decide (a_id y = a_id x) then Some 0 else S <$> index_of x ys
  end.

(** [append(xs[:i], xs[i+1:]...)]. *)
Definition remove_at (i : nat) (xs : list Adapter) : list Adapter := take i xs ++ drop (S i) xs.

(** ** The managers *)

(** The state of endpoint, inbound and service [Manager]. *)
Record Registry := mkRegistry {
  g_started : bool;
  g_stage : StartStage;
  g_items : list Adapter;
  g_byTag : gmap string Adapter;
  g_calls : calls;
}.

Definition NewManager : Registry := mkRegistry false StartStateInitialize [] ∅ [].

Section managers.
Context {Options : Type}.
Context (answer : nat → method → option error).
(** [registry.Create] of the respective registry. *)
Context (create : string → string → Options → result Adapter).

(** [Start] of the inbound and service managers. *)
Definition Start_all (kind : string) (stage : StartStage) (g : Registry) : Registry * option error :=
  if g_started g && bool_decide (stage_value stage ≤ stage_value (g_stage g))
  then (g, Some (EPanic "already started"))
  else
    let '(l, err) := start_each answer kind stage (g_items g) (g_calls g) in
    (mkRegistry true stage (g_items g) (g_byTag g) l, err).

Definition Inbound_Start : StartStage → Registry → Registry * option error := Start_all "inbound".
Definition Service_Start : StartStage → Registry → Registry * option error := Start_all "service".

(** Endpoints are started together with the outbounds, so [Start] of their
    manager skips that stage. *)
Definition Endpoint_Start (stage : StartStage) (g : Registry) : Registry * option error :=
  if g_started g && bool_decide (stage_value stage ≤ stage_value (g_stage g))
  then (g, Some (EPanic "already started"))
  else if decide (stage = StartStateStart)
  then (mkRegistry true stage (g_items g) (g_byTag g) (g_calls g), None)
  else
    let '(l, err) := start_each answer "endpoint" stage (g_items g) (g_calls g) in
    (mkRegistry true stage (g_items g) (g_byTag g) l, err).

(** [Close] of the three managers. *)
Definition Manager_Close (g : Registry) : Registry * option error :=
  if negb (g_started g) then (g, None)
  else (mkRegistry false (g_stage g) [] (g_byTag g) (close_each answer (g_items g) (g_calls g)), None).

(** [Get] of the endpoint and service managers; an inbound lookup falls back
    to the endpoints. *)
Definition Manager_Get (tag : string) (g : Registry) : option Adapter := g_byTag g !! tag.
Definition Inbound_Get (endpoint : Registry) (tag : string) (g : Registry) : option Adapter :=
  match g_byTag g !! tag with
  | Some x => Some x
  | None => Manager_Get tag endpoint
  end.

(** [Remove] of the three managers. *)
Definition Manager_Remove (tag : string) (g : Registry) : Registry * option error :=
  match g_byTag g !! tag with
  | None => (g, Some ErrInvalid)
  | Some x =>
      let byTag := delete tag (g_byTag g) in
      match index_of x (g_items g) with
      | None => (mkRegistry (g_started g) (g_stage g) (g_items g) byTag (g_calls g),
                 Some (EPanic "invalid index"))
      | Some i =>
          let '(l, err) := if g_started g then Close answer x (g_calls g) else (g_calls g, None) in
          (mkRegistry (g_started g) (g_stage g) (remove_at i (g_items g)) byTag l, err)
      end
  end.

(** [Create] of the three managers, [kind] being the word in their messages. *)
Definition Manager_Create (kind tag type : string) (options : Options) (g : Registry)
    : Registry * option error :=
  match create tag type options with
  | Err e => (g, Some e)
  | Ok x =>
      let with_calls l := mkRegistry (g_started g) (g_stage g) (g_items g) (g_byTag g) l in
      let append items l :=
        mkRegistry (g_started g) (g_stage g) (items ++ [x]) (<[tag := x]> (g_byTag g)) l in
      match (if g_started g then start_stages answer kind x ListStartStages (g_calls g)
             else (g_calls g, None)) with
      | (l, Some e) => (with_calls l, Some e)
      | (l, None) =>
          match g_byTag g !! tag with
          | None => (append (g_items g) l, None)
          | Some old =>
              match (if g_started g then Close answer old l else (l, None)) with
              | (l, Some e) => (with_calls l, Some (ECause e ("close " +:+ display kind old)))
              | (l, None) =>
                  match index_of old (g_items g) with
                  | None => (with_calls l, Some (EPanic "invalid index"))
                  | Some i => (append (remove_at i (g_items g)) l, None)
                  end
              end
          end
      end
  end.

Definition Endpoint_Create := Manager_Create "endpoint".
Definition Inbound_Create := Manager_Create "inbound".
Definition Service_Create := Manager_Create "service".
End managers.

(** ** Removal by pointer *)

Lemma index_of_Some x xs i :
  index_of x xs = Some i → ∃ y, xs !! i = Some y ∧ a_id y = a_id x.
Proof.
  revert i; induction xs as [|y xs IH]; intros i; simpl; [done|].
  case_decide; [intros [= <-]; eauto|]. intros (j & Hj & ->)%fmap_Some. by apply IH in Hj.
Qed.

Lemma index_of_elem x xs : x ∈ xs → is_Some (index_of x xs).
Proof.
  induction xs as [|y xs IH]; [by intros ?%not_elem_of_nil|].
  intros [->|Hx]%elem_of_cons; simpl; [rewrite decide_True by done; eauto|].
  case_decide; [eauto|]. apply fmap_is_Some. by apply IH.
Qed.

Lemma remove_at_Permutation i xs x : xs !! i = Some x → xs ≡ₚ x :: remove_at i xs.
Proof.
  intros Hi. unfold remove_at. rewrite <-(take_drop_middle _ _ _ Hi) at 1.
  by rewrite Permutation_middle.
Qed.

(** Distinct pointers: removing an object by pointer removes just it. *)
Lemma remove_by_pointer x xs :
  NoDup (a_id <$> xs) → x ∈ xs →
  ∃ i, index_of x xs = Some i ∧ xs ≡ₚ x :: remove_at i xs ∧ NoDup (a_id <$> remove_at i xs) ∧
       (∀ y, y ∈ remove_at i xs ↔ y ∈ xs ∧ y ≠ x).
Proof.
  intros Hnd Hx. destruct (index_of_elem x xs Hx) as [i Hi]. exists i. split; [done|].
  destruct (index_of_Some _ _ _ Hi) as (y & Hy & Hid).
  assert (y = x) as ->.
  { eapply (NoDup_fmap_elem a_id); [done| |done|done]. by eapply list_elem_of_lookup_2. }
  pose proof (remove_at_Permutation _ _ _ Hy) as Hp. split; [done|].
  rewrite Hp in Hnd. simpl in Hnd. apply NoDup_cons in Hnd as [Hni Hnd]. split; [done|].
  intros y. rewrite Hp at 2. rewrite elem_of_cons. split; [|naive_solver].
  intros Hy'. split; [by right|]. intros ->. apply Hni. by apply list_elem_of_fmap_2.
Qed.

(** ** Well-formed registries *)

(** The map and the slice describe the same set of objects. *)
Record consistent (items : list Adapter) (byTag : gmap string Adapter) : Prop := {
  wf_nodup : NoDup (a_id <$> items);
  wf_lookup tag x : byTag !! tag = Some x ↔ x ∈ items ∧ a_Tag x = tag;
}.
Arguments wf_nodup {_ _} _.
Arguments wf_lookup {_ _} _ _ _.

Definition WF (g : Registry) : Prop := consistent (g_items g) (g_byTag g).

(** What the constructor registry promises: an object of its own with the tag
    it was asked for. *)
Definition fresh_object (items : list Adapter) (tag : string) (x : Adapter) : Prop :=
  a_Tag x = tag ∧ a_id x ∉ a_id <$> items.

Lemma consistent_empty : consistent [] ∅.
Proof. split; simpl; [constructor|]. intros tag x. by rewrite lookup_empty, elem_of_nil; split; [|intros []]. Qed.

Lemma consistent_found items byTag x :
  consistent items byTag → x ∈ items → byTag !! a_Tag x = Some x.
Proof. intros Hwf Hx. by apply (wf_lookup Hwf). Qed.

Lemma consistent_tag_inj items byTag x y :
  consistent items byTag → x ∈ items → y ∈ items → a_Tag x = a_Tag y → x = y.
Proof. intros Hwf Hx%(consistent_found _ _ _ Hwf) Hy%(consistent_found _ _ _ Hwf) Ht. congruence. Qed.

Lemma consistent_insert items byTag tag x items' :
  consistent items byTag → fresh_object items tag x → NoDup (a_id <$> items') →
  (∀ y, y ∈ items' ↔ y ∈ items ∧ a_Tag y ≠ tag) →
  consistent (items' ++ [x]) (<[tag := x]> byTag).
Proof.
  intros Hwf [Htag Hfresh] Hnd Hitems. split; simpl.
  - rewrite fmap_app. apply NoDup_app. split; [done|]. simpl. split; [|apply NoDup_singleton].
    intros i Hi ->%list_elem_of_singleton. apply list_elem_of_fmap in Hi as (y & Hid & Hy).
    apply Hitems in Hy as [Hy _]. apply Hfresh. rewrite Hid. by apply list_elem_of_fmap_2.
  - intros tag' y. rewrite lookup_insert, elem_of_snoc, Hitems.
    pose proof (wf_lookup Hwf tag' y) as Hl. case_decide as Htt; subst.
    + split; [intros [= <-]; eauto|]. intros [[[_ ?]| ->] ?]; congruence.
    + rewrite Hl. split; [intros [? <-]; eauto|]. intros [[[? _]| ->] ?]; [done|congruence].
Qed.

Lemma consistent_delete items byTag tag items' :
  consistent items byTag → NoDup (a_id <$> items') →
  (∀ y, y ∈ items' ↔ y ∈ items ∧ a_Tag y ≠ tag) →
  consistent items' (delete tag byTag).
Proof.
  intros Hwf Hnd Hitems. split; simpl; [done|]. intros tag' y.
  pose proof (wf_lookup Hwf tag' y) as Hl. rewrite Hitems, lookup_delete.
  case_decide as Htt; subst; [split; [done|tauto]|]. rewrite Hl. split; [|tauto].
  intros [? <-]. split; [|done]. split; [done|congruence].
Qed.

Lemma consistent_absent items byTag tag :
  consistent items byTag → byTag !! tag = None → ∀ y, y ∈ items ↔ y ∈ items ∧ a_Tag y ≠ tag.
Proof.
  intros Hwf Hn y. split; [|tauto]. intros Hy. split; [done|]. intros <-.
  apply (consistent_found _ _ _ Hwf) in Hy. congruence.
Qed.

(** The slice lists the values of the map, once each. *)
Lemma consistent_Permutation items byTag :
  consistent items byTag → items ≡ₚ (map_to_list byTag).*2.
Proof.
  intros Hwf. apply NoDup_Permutation.
  - by eapply NoDup_fmap_1, (wf_nodup Hwf).
  - apply NoDup_fmap_2_strong; [|apply NoDup_map_to_list].
    intros [t x] [t' x'] Hx Hx' ?; simpl in *; subst.
    apply elem_of_map_to_list, (wf_lookup Hwf) in Hx as [_ <-].
    by apply elem_of_map_to_list, (wf_lookup Hwf) in Hx' as [_ <-].
  - intros x. rewrite list_elem_of_fmap. split.
    + intros Hx. exists (a_Tag x, x). split; [done|]. by apply elem_of_map_to_list, (wf_lookup Hwf).
    + intros ([t y] & -> & Hy). apply elem_of_map_to_list in Hy. by apply (wf_lookup Hwf) in Hy as [? _].
Qed.

(** Without the object of tag [tag], a consistent slice has the objects of
    the other tags. *)
Lemma remove_by_tag items byTag tag old :
  consistent items byTag → byTag !! tag = Some old →
  ∃ i, index_of old items = Some i ∧ NoDup (a_id <$> remove_at i items) ∧
    (∀ y, y ∈ remove_at i items ↔ y ∈ items ∧ a_Tag y ≠ tag).
Proof.
  intros Hwf [Hin Htag]%(wf_lookup Hwf).
  destruct (remove_by_pointer old items (wf_nodup Hwf) Hin) as (i & Hi & _ & Hnd & Hel).
  exists i. do 2 (split; [done|]). intros y. rewrite Hel.
  split; intros [Hy Hne]; (split; [done|]); [|by intros ->].
  intros Hty. apply Hne. eapply consistent_tag_inj; [done..|congruence].
Qed.

Section registry_theorems.
Context (answer : nat → method → option error).

(** Starting objects that all answer without an error calls, in creation
    order, the start method each of them has for the stage. *)
Lemma start_each_calls kind stage xs l l' :
  start_each answer kind stage xs l = (l', None) →
  l' = l ++ omap (λ x, pair (a_id x) <$> LegacyStart_method x stage) xs.
Proof.
  revert l; induction xs as [|x xs IH]; intros l; simpl; [intros [= ->]; by rewrite app_nil_r|].
  unfold LegacyStart, invoke. destruct (LegacyStart_method x stage) as [m|]; simpl; [|apply IH].
  destruct (answer _ _); [done|]. intros ->%IH. by rewrite <-app_assoc.
Qed.

(** [Create] either fails, with the constructor's error or with a start or
    close error, and leaves the registered objects alone, or replaces the
    object of its tag by the new one at the end of the slice. *)
Lemma Manager_Create_cases {Options} (create : string → string → Options → result Adapter)
    kind tag type options g g' err :
  WF g → (∀ x, create tag type options = Ok x → fresh_object (g_items g) tag x) →
  Manager_Create answer create kind tag type options g = (g', err) →
  (∃ e, err = Some e ∧ (create tag type options = Err e ∨ ∃ c m, e = ECause c m) ∧
        g_items g' = g_items g ∧ g_byTag g' = g_byTag g ∧ g_started g' = g_started g)
  ∨ (∃ x, create tag type options = Ok x ∧ err = None ∧ WF g' ∧
      g_byTag g' = <[tag := x]> (g_byTag g) ∧
      (∀ y, y ∈ g_items g' ↔ (y ∈ g_items g ∧ a_Tag y ≠ tag) ∨ y = x)).
Proof.
  intros Hwf Hfresh. unfold Manager_Create.
  destruct (create tag type options) as [x|e] eqn:Hc; [|intros [= <- <-]; left; eauto 10].
  specialize (Hfresh x eq_refl).
  destruct (if g_started g then _ else _) as [l [e|]] eqn:Hs.
  { intros [= <- <-]. left. exists e. split; [done|]. split; [|done]. right.
    destruct (g_started g); [|done]. clear -Hs. revert Hs. generalize (g_calls g).
    induction ListStartStages as [|s ss IH]; intros l0; simpl; [done|].
    destruct (LegacyStart answer x s l0) as [l1 [e'|]]; [intros [= <- <-]; eauto|apply IH]. }
  destruct (g_byTag g !! tag) as [old|] eqn:Hold.
  - destruct (if g_started g then Close _ _ _ else _) as [l' [e|]].
    { intros [= <- <-]. left. eauto 10. }
    destruct (remove_by_tag _ _ tag old Hwf Hold) as (i & -> & Hnd & Hel).
    intros [= <- <-]. right. exists x. do 2 (split; [done|]).
    split; [by apply consistent_insert with (items := g_items g)|]. split; [done|]. intros y. simpl. by rewrite elem_of_snoc, Hel.
  - intros [= <- <-]. right. exists x. do 2 (split; [done|]).
    pose proof (consistent_absent _ _ _ Hwf Hold) as Hel.
    split; [apply consistent_insert with (items := g_items g); [done..|apply (wf_nodup Hwf)|done]|].
    split; [done|].
    intros y. simpl. by rewrite elem_of_snoc, <-Hel.
Qed.

(** [Remove] of a registered tag takes just that object out, and reports what
    its [Close] answered. *)
Lemma Manager_Remove_cases tag g g' err :
  WF g → Manager_Remove answer tag g = (g', err) →
  WF g' ∧ g_byTag g' = delete tag (g_byTag g) ∧
  (∀ y, y ∈ g_items g' ↔ y ∈ g_items g ∧ a_Tag y ≠ tag) ∧
  match g_byTag g !! tag with
  | None => err = Some ErrInvalid ∧ g' = g
  | Some x => err = if g_started g && a_closer x then answer (a_id x) MClose else None
  end.
Proof.
  intros Hwf. unfold Manager_Remove. destruct (g_byTag g !! tag) as [x|] eqn:Hx.
  - destruct (remove_by_tag _ _ tag x Hwf Hx) as (i & -> & Hnd & Hel).
    unfold Close, invoke. destruct (g_started g); simpl; [destruct (a_closer x)|];
      intros [= <- <-]; (split; [by eapply consistent_delete|]); done.
  - intros [= <- <-]. split; [done|]. split; [by rewrite delete_id|].
    split; [by apply (consistent_absent _ (g_byTag g))|done].
Qed.

(** [Close] keeps the tag map: a closed manager still answers [Get] with the
    closed object, and [Remove] of its tag panics. *)
Lemma closed_manager_keeps_tags tag x g :
  g_started g = true → g_byTag g !! tag = Some x →
  let g' := (Manager_Close answer g).1 in
  Manager_Get tag g' = Some x ∧ (Manager_Remove answer tag g').2 = Some (EPanic "invalid index").
Proof. intros Hs Hx. unfold Manager_Close, Manager_Remove, Manager_Get. rewrite Hs. simpl. by rewrite Hx. Qed.

(** Starting only advances the stage. *)
Lemma Start_all_registered kind stage g :
  g_items (Start_all answer kind stage g).1 = g_items g ∧
  g_byTag (Start_all answer kind stage g).1 = g_byTag g.
Proof. unfold Start_all. case_match; [done|]. by destruct (start_each _ _ _ _ _). Qed.
End registry_theorems.

(** ** Sequences of operations *)

(** Operations of a manager that is not closed; the constructor's answer is
    part of the operation. *)
Inductive reg_op :=
| OpCreate (kind tag type : string) (made : result Adapter)
| OpRemove (tag : string)
| OpStart (kind : string) (stage : StartStage).

Section runs.
Context (answer : nat → method → option error).

Definition reg_step (g : Registry) (o : reg_op) : Registry * option error :=
  match o with
  | OpCreate kind tag type made =>
      Manager_Create answer (λ _ _ (_ : unit), made) kind tag type tt g
  | OpRemove tag => Manager_Remove answer tag g
  | OpStart kind stage => Start_all answer kind stage g
  end.

(** The runs in which every constructed object has the requested tag and is
    a new pointer. *)
Inductive reg_run : Registry → list (reg_op * option error) → Registry → Prop :=
| reg_run_nil : reg_run NewManager [] NewManager
| reg_run_snoc g0 tr g o g' err :
    reg_run g0 tr g →
    (∀ kind tag type x, o = OpCreate kind tag type (Ok x) → fresh_object (g_items g) tag x) →
    reg_step g o = (g', err) →
    reg_run g0 (tr ++ [(o, err)]) g'.

(** The abstract registry: a map that a successful creation extends and a
    removal, whatever the closed object answers, shrinks. *)
Definition spec_step (m : gmap string Adapter) (oe : reg_op * option error) : gmap string Adapter :=
  match oe with
  | (OpCreate _ tag _ (Ok x), None) => <[tag := x]> m
  | (OpRemove tag, _) => delete tag m
  | _ => m
  end.

Lemma reg_step_spec g o g' err :
  WF g → (∀ kind tag type x, o = OpCreate kind tag type (Ok x) → fresh_object (g_items g) tag x) →
  reg_step g o = (g', err) → WF g' ∧ g_byTag g' = spec_step (g_byTag g) (o, err).
Proof.
  intros Hwf Hfresh. destruct o as [kind tag type made|tag|kind stage]; simpl; intros Hs.
  - apply Manager_Create_cases in Hs; [|done|intros x [= ->]; eauto].
    destruct Hs as [(e & -> & _ & Hi & Hb & _)|(x & [= ->] & -> & Hwf' & Hb & _)]; [|done].
    split; [|by destruct made]. unfold WF. by rewrite Hi, Hb.
  - apply Manager_Remove_cases in Hs; [|done]. tauto.
  - destruct (Start_all_registered answer kind stage g) as [Hi Hb]. rewrite Hs in Hi, Hb. simpl in *.
    split; [|done]. unfold WF. by rewrite Hi, Hb.
Qed.

Lemma reg_run_wf g0 tr g : reg_run g0 tr g → WF g ∧ g_byTag g = foldl spec_step ∅ tr.
Proof.
  induction 1 as [|g0 tr g o g' err _ [Hwf Hm] Hfresh Hs]; [split; [apply consistent_empty|done]|].
  destruct (reg_step_spec g o g' err Hwf Hfresh Hs) as [Hwf' Hb]. split; [done|].
  by rewrite foldl_snoc, <-Hm.
Qed.

(** Executable runs, with the side condition of [reg_run_snoc] checked. *)
Definition exec_ok (g : Registry) (o : reg_op) : bool :=
  match o with
  | OpCreate _ tag _ (Ok x) => bool_decide (a_Tag x = tag) && bool_decide (a_id x ∉ a_id <$> g_items g)
  | _ => true
  end.

Fixpoint exec (ops : list reg_op) (tr : list (reg_op * option error)) (g : Registry)
    : option (list (reg_op * option error) * Registry) :=
  match ops with
  | [] => Some (tr, g)
  | o :: ops =>
      if exec_ok g o then
        let '(g', err) := reg_step g o in exec ops (tr ++ [(o, err)]) g'
      else None
  end.

Lemma exec_run ops : ∀ g0 tr g tr' g',
  reg_run g0 tr g → exec ops tr g = Some (tr', g') → reg_run g0 tr' g'.
Proof.
  induction ops as [|o ops IH]; intros g0 tr g tr' g' Hrun; simpl; [by intros [= <- <-]|].
  destruct (exec_ok g o) eqn:Hok; [|done]. destruct (reg_step g o) as [g1 err] eqn:Hs.
  apply IH. eapply reg_run_snoc; [done| |done]. intros kind tag type x ->. simpl in Hok.
  apply andb_true_iff in Hok as [?%bool_decide_eq_true ?%bool_decide_eq_true]. by split.
Qed.

(** the endpoint, inbound and service managers implement a map from
    tags to objects.  After any sequence of creations, removals and starts
    (failing ones included), [Get] answers as the map in which every
    successful creation is an insertion and every removal a deletion; the
    slice that [Start] and [Close] walk holds exactly the objects of the map,
    once each. *)
Lemma Registry_refines_map g0 tr g :
  reg_run g0 tr g →
  (∀ tag, Manager_Get tag g = foldl spec_step ∅ tr !! tag) ∧
  g_items g ≡ₚ (map_to_list (foldl spec_step ∅ tr)).*2.
Proof.
  intros [Hwf <-]%reg_run_wf. split; [done|]. by apply consistent_Permutation.
Qed.
End runs.

(** ** What the endpoint manager promises to the outbound manager *)

Class EndpointManager (E : Type) := {
  ep_Get : E → string → option Adapter;
  ep_Endpoints : E → list Adapter;
  ep_valid : E → Prop;
  ep_nodup e : ep_valid e → NoDup (a_Tag <$> ep_Endpoints e);
  ep_lookup e tag x : ep_valid e → ep_Get e tag = Some x ↔ x ∈ ep_Endpoints e ∧ a_Tag x = tag;
}.

Lemma consistent_nodup_tags items byTag : consistent items byTag → NoDup (a_Tag <$> items).
Proof.
  intros Hwf. apply NoDup_fmap_2_strong; [|by eapply NoDup_fmap_1, (wf_nodup Hwf)].
  intros x y Hx Hy. by eapply consistent_tag_inj.
Qed.

(** The registry keeps the promise. *)
#[export, refine] Instance Registry_EndpointManager : EndpointManager Registry := {
  ep_Get g tag := Manager_Get tag g;
  ep_Endpoints := g_items;
  ep_valid := WF;
}.
Proof.
  - intros g. apply consistent_nodup_tags.
  - intros g tag x Hwf. apply (wf_lookup Hwf).
Defined.

(** ** A concrete run *)

Module RegRun.
Definition ep (i : nat) (tag : string) : Adapter := mkAdapter i "wireguard" tag [] Lifecycle true.
(** Object 1 fails to close, object 4 fails to start. *)
Definition answer (i : nat) (m : method) : option error :=
  match m with
  | MClose => if decide (i = 1) then Some (EEnv 1) else None
  | _ => if decide (i = 4) then Some (EEnv 4) else None
  end.
Definition create (i : nat) (tag : string) : reg_op := OpCreate "endpoint" tag "wireguard" (Ok (ep i tag)).
Definition ops : list reg_op :=
  [create 0 "a"; create 1 "b"; OpStart "endpoint" StartStateInitialize; create 2 "a"; create 3 "b";
   create 4 "c"; OpRemove "c"; OpRemove "a"; OpRemove "b"; create 5 "b"].
End RegRun.

Lemma Registry_refines_map_witness :
  ∃ tr g, exec RegRun.answer RegRun.ops [] NewManager = Some (tr, g) ∧
    tr.*2 = [None; None; None; None;
             Some (ECause (EEnv 1) "close endpoint/wireguard[b]");
             Some (ECause (EEnv 4) "initialize endpoint/wireguard[c]");
             Some ErrInvalid; None; Some (EEnv 1); None] ∧
    g_items g = [RegRun.ep 5 "b"] ∧
    (∀ tag, Manager_Get tag g = foldl spec_step ∅ tr !! tag) ∧
    g_items g ≡ₚ (map_to_list (foldl spec_step ∅ tr)).*2.
Proof.
  eexists _, _. split; [vm_compute; reflexivity|]. split; [reflexivity|]. split; [reflexivity|].
  apply (Registry_refines_map RegRun.answer NewManager).
  eapply (exec_run RegRun.answer RegRun.ops); [apply reg_run_nil|]. vm_compute. reflexivity.
Defined.
