(* ===== verification/OutboundManager.v ===== *)
(** * The outbound manager and its user updates

    Model of src/runtime/sing-box/adapter/outbound/manager.go and
    user_update.go.  Outbounds are [Adapter]s compared by pointer ([a_id]);
    the endpoint manager is used through the [EndpointManager] interface, the
    constructor registry is a parameter.  [calls] is the sequence of methods
    the manager called on the outbounds. *)
From S2P Require Import Prelude Registry.

(** manager.go, [Manager]. *)
Record OManager := mkOManager {
  defaultTag : string;
  started : bool;
  stage : StartStage;
  outbounds : list Adapter;
  outboundByTag : gmap string Adapter;
  dependByTag : gmap string (list string);
  defaultOutbound : option Adapter;
  o_calls : calls;
}.

Definition set_calls (l : calls) (m : OManager) : OManager :=
  mkOManager (defaultTag m) (started m) (stage m) (outbounds m) (outboundByTag m) (dependByTag m)
    (defaultOutbound m) l.

Definition set_stage (st : StartStage) (m : OManager) : OManager :=
  mkOManager (defaultTag m) true st (outbounds m) (outboundByTag m) (dependByTag m)
    (defaultOutbound m) (o_calls m).

Definition set_default (d : option Adapter) (m : OManager) : OManager :=
  mkOManager (defaultTag m) (started m) (stage m) (outbounds m) (outboundByTag m) (dependByTag m)
    d (o_calls m).

Definition set_table (xs : list Adapter) (byTag : gmap string Adapter) (m : OManager) : OManager :=
  mkOManager (defaultTag m) (started m) (stage m) xs byTag (dependByTag m) (defaultOutbound m) (o_calls m).

Definition set_depend (d : gmap string (list string)) (m : OManager) : OManager :=
  mkOManager (defaultTag m) (started m) (stage m) (outbounds m) (outboundByTag m) d
    (defaultOutbound m) (o_calls m).

Definition NewOManager (tag : string) : OManager :=
  mkOManager tag false StartStateInitialize [] ∅ ∅ None [].

(** A slice stored in a map, [nil] where there is none. *)
Definition entries (d : gmap string (list string)) (tag : string) : list string := default [] (d !! tag).

Section manager.
Context {E Options : Type} `{EndpointManager E} (endpoint : E).
Context (answer : nat → method → option error).
Context (create : string → string → Options → result Adapter).

(** ** Start *)

(** The manager of DNS servers has the same loop, with words of its own for the
    objects it starts ([kind]) and in its complaints ([noun]). *)

(** One walk over the outbounds: start each one that is not started and whose
    dependencies are.  Returns the started tags and whether any was added. *)
Fixpoint start_pass (kind : string) (xs : list Adapter) (done : gset string) (progress : bool) (l : calls)
    : gset string * bool * calls * option error :=
  match xs with
  | [] => (done, progress, l, None)
  | x :: xs =>
      if decide (a_Tag x ∈ done) then start_pass kind xs done progress l
      else if forallb (λ d, bool_decide (d ∈ done)) (a_Dependencies x) then
        let done' := {[a_Tag x]} ∪ done in
        match LegacyStart answer x StartStateStart l with
        | (l', Some e) => (done', true, l', Some (ECause e ("start " +:+ display kind x)))
        | (l', None) => start_pass kind xs done' true l'
        end
      else start_pass kind xs done progress l
  end.

(** [common.Find] with the zero value of strings. *)
Definition find_unstarted (done : gset string) (tags : list string) : string :=
  default "" (snd <$> list_find (λ t, t ∉ done) tags).

(** The closure [lintOutbound]; [None] when the fuel does not suffice. *)
Fixpoint lintOutbound (noun : string) (fuel : nat) (byTag : gmap string Adapter) (done : gset string)
    (oTree : list string) (oCurrent : Adapter) : option error :=
  match fuel with
  | 0 => None
  | S fuel =>
      let problem := find_unstarted done (a_Dependencies oCurrent) in
      if decide (problem ∈ oTree)
      then Some (ENew ("circular " +:+ noun +:+ " dependency: " +:+ Join " -> " oTree +:+ " -> " +:+ problem))
      else
        match byTag !! problem with
        | None => Some (ENew ("dependency[" +:+ problem +:+ "] not found for " +:+ noun +:+ "[" +:+ a_Tag oCurrent +:+ "]"))
        | Some next => lintOutbound noun fuel byTag done (oTree ++ [problem]) next
        end
  end.

(** [startOutbounds]; the outer [option] is [None] when the fuel of the
    unbounded loop does not suffice. *)
Fixpoint startOutbounds_loop (kind noun : string) (fuel : nat) (byTag : gmap string Adapter) (xs : list Adapter)
    (done : gset string) (l : calls) : option (calls * option error) :=
  match fuel with
  | 0 => None
  | S fuel =>
      match start_pass kind xs done false l with
      | (_, _, l', Some e) => Some (l', Some e)
      | (done', canContinue, l', None) =>
          if decide (size done' = length xs) then Some (l', None)
          else if canContinue then startOutbounds_loop kind noun fuel byTag xs done' l'
          else
            match list_find (λ x, a_Tag x ∉ done') xs with
            | None => Some (l', Some (EPanic "nil pointer dereference"))
            | Some (_, current) =>
                match lintOutbound noun (S (S (size byTag))) byTag done' [a_Tag current] current with
                | None => None
                | Some e => Some (l', Some e)
                end
            end
      end
  end.

Definition startOutbounds (byTag : gmap string Adapter) (xs : list Adapter) (l : calls)
    : option (calls * option error) :=
  startOutbounds_loop "outbound" "outbound" (S (length xs)) byTag xs ∅ l.

(** Choice of the default outbound at [StartStateStart]: an endpoint when the
    configured tag is not an outbound, the fallback when none is configured. *)
Definition start_default (fallback : result Adapter) (m : OManager) : OManager * option error :=
  let with_endpoint : OManager * option error :=
    if negb (bool_decide (defaultTag m = "")) && negb (bool_decide (is_Some (defaultOutbound m))) then
      match ep_Get endpoint (defaultTag m) with
      | None => (m, Some (ENew ("default outbound not found: " +:+ defaultTag m)))
      | Some x => (set_default (Some x) m, None)
      end
    else (m, None) in
  match with_endpoint with
  | (m, Some e) => (m, Some e)
  | (m, None) =>
      match defaultOutbound m with
      | Some _ => (m, None)
      | None =>
          match fallback with
          | Err e => (m, Some (ECause e "create direct outbound for fallback"))
          | Ok x =>
              (set_default (Some x)
                 (set_table (outbounds m ++ [x]) (<[a_Tag x := x]> (outboundByTag m)) m), None)
          end
      end
  end.

(** [Start]; [None] when [startOutbounds] runs out of fuel. *)
Definition Start (fallback : result Adapter) (st : StartStage) (m : OManager)
    : option (OManager * option error) :=
  if started m && bool_decide (stage_value st ≤ stage_value (stage m))
  then Some (m, Some (EPanic "already started"))
  else
    let m := set_stage st m in
    if decide (st = StartStateStart) then
      match start_default fallback m with
      | (m, Some e) => Some (m, Some e)
      | (m, None) =>
          '(l, err) ← startOutbounds (outboundByTag m) (outbounds m ++ ep_Endpoints endpoint) (o_calls m);
          Some (set_calls l m, err)
      end
    else
      let '(l, err) := start_each answer "outbound" st (outbounds m) (o_calls m) in
      Some (set_calls l m, err).

(** ** Close, look-up, Remove and Create *)

(** [Close]; the collected errors are dropped. *)
Definition OClose (m : OManager) : OManager * option error :=
  if negb (started m) then (m, None)
  else
    (mkOManager (defaultTag m) false (stage m) [] (outboundByTag m) (dependByTag m) (defaultOutbound m)
       (close_each answer (outbounds m) (o_calls m)), None).

Definition Outbound (tag : string) (m : OManager) : option Adapter :=
  match outboundByTag m !! tag with
  | Some x => Some x
  | None => ep_Get endpoint tag
  end.

Definition Default (m : OManager) : option Adapter := defaultOutbound m.

(** Pointer comparison with a possibly nil interface. *)
Definition same (d : option Adapter) (x : Adapter) : bool :=
  match d with Some y => bool_decide (a_id y = a_id x) | None => false end.

(** The loop of [Remove] over the dependencies of the removed outbound. *)
Definition undepend (tag : string) (d : gmap string (list string)) (dependency : string)
    : gmap string (list string) :=
  if decide (length (entries d dependency) = 1) then delete dependency d
  else <[dependency := filter (λ it, it ≠ tag) (entries d dependency)]> d.

Definition Remove (tag : string) (m : OManager) : OManager * option error :=
  match outboundByTag m !! tag with
  | None => (m, Some ErrInvalid)
  | Some x =>
      let byTag := delete tag (outboundByTag m) in
      match index_of x (outbounds m) with
      | None => (set_table (outbounds m) byTag m, Some (EPanic "invalid inbound index"))
      | Some i =>
          let m := set_table (remove_at i (outbounds m)) byTag m in
          let m := if same (defaultOutbound m) x then set_default (head (outbounds m)) m else m in
          let dependBy := entries (dependByTag m) tag in
          if bool_decide (0 < length dependBy)
          then (m, Some (ENew ("outbound[" +:+ tag +:+ "] is depended by " +:+ Join ", " dependBy)))
          else
            let m := set_depend (foldl (undepend tag) (dependByTag m) (a_Dependencies x)) m in
            if started m then
              let '(l, err) := Close answer x (o_calls m) in (set_calls l m, err)
            else (m, None)
      end
  end.

(** The loop of [Create] over the dependencies of the new outbound. *)
Definition depend (tag : string) (d : gmap string (list string)) (dependency : string)
    : gmap string (list string) :=
  <[dependency := entries d dependency ++ [tag]]> d.

(** The end of [Create], from the append on. *)
Definition create_register (tag : string) (x : Adapter) (xs : list Adapter) (m : OManager) : OManager :=
  let m := set_table (xs ++ [x]) (<[tag := x]> (outboundByTag m)) m in
  let m := set_depend (foldl (depend tag) (dependByTag m) (a_Dependencies x)) m in
  if bool_decide (tag = defaultTag m)
     || (bool_decide (defaultTag m = "") && negb (bool_decide (is_Some (defaultOutbound m))))
  then set_default (Some x) m else m.

Definition Create (tag type : string) (options : Options) (m : OManager) : OManager * option error :=
  if decide (tag = "") then (m, Some ErrInvalid)
  else
    match create tag type options with
    | Err e => (m, Some e)
    | Ok x =>
        match (if started m then start_stages answer "outbound" x ListStartStages (o_calls m)
               else (o_calls m, None)) with
        | (l, Some e) => (set_calls l m, Some e)
        | (l, None) =>
            match outboundByTag m !! tag with
            | None => (create_register tag x (outbounds m) (set_calls l m), None)
            | Some old =>
                match (if started m then Close answer old l else (l, None)) with
                | (l, Some e) => (set_calls l m, Some (ECause e ("close " +:+ display "outbound" old)))
                | (l, None) =>
                    match index_of old (outbounds m) with
                    | None => (set_calls l m, Some (EPanic "invalid inbound index"))
                    | Some i =>
                        (create_register tag x (remove_at i (outbounds m)) (set_calls l m), None)
                    end
                end
            end
        end
    end.
End manager.

(** ** User updates (user_update.go) *)

(** [option.Outbound]. *)
Record OutboundOption (Options : Type) := mkOutboundOption {
  oo_Type : string;
  oo_Tag : string;
  oo_Options : Options;
}.
Arguments mkOutboundOption {_}.
Arguments oo_Type {_}.
Arguments oo_Tag {_}.
Arguments oo_Options {_}.

Section user_update.
Context {E Options : Type} `{EndpointManager E} (endpoint : E).
Context (answer : nat → method → option error).
Context (create : string → string → Options → result Adapter).

(** The guard on a tag to be removed. *)
Definition removable (m : OManager) (tag : string) : bool :=
  match outboundByTag m !! tag with
  | None => false
  | Some old =>
      negb (same (defaultOutbound m) old)
      && bool_decide (length (entries (dependByTag m) tag) = 0)
      && bool_decide (length (a_Dependencies old) = 0)
  end.

(** The inner start loop: the stages up to the manager's own, in order. *)
Fixpoint start_upto (limit : StartStage) (x : Adapter) (stages : list StartStage) (l : calls)
    : calls * option error :=
  match stages with
  | [] => (l, None)
  | st :: stages =>
      if bool_decide (stage_value limit < stage_value st) then (l, None)
      else
        match LegacyStart answer x st l with
        | (l', Some e) => (l', Some e)
        | (l', None) => start_upto limit x stages l'
        end
  end.

(** The closure [abort]: close everything prepared so far. *)
Definition update_abort (prepared : list Adapter) (l : calls) : calls := close_each answer prepared l.

(** One iteration of the loop over the options, up to the early return. *)
Definition prepare_one (m : OManager) (o : OutboundOption Options) (prepared : list Adapter) (l : calls)
    : list Adapter * calls * option error :=
  if negb (bool_decide (oo_Type o = "direct")) && negb (bool_decide (oo_Type o = "socks"))
  then (prepared, l, Some (ENew "unsupported user outbound type"))
  else if bool_decide (is_Some (ep_Get endpoint (oo_Tag o)))
  then (prepared, l, Some (ENew "outbound tag overlaps an endpoint"))
  else
    match create (oo_Tag o) (oo_Type o) (oo_Options o) with
    | Err e => (prepared, l, Some e)
    | Ok x =>
        let prepared := prepared ++ [x] in
        if bool_decide (length (a_Dependencies x) ≠ 0)
        then (prepared, l, Some (ENew "dynamic user outbounds cannot have dependencies"))
        else if started m then
          let '(l', err) := start_upto (stage m) x ListStartStages l in (prepared, l', err)
        else (prepared, l, None)
    end.

Fixpoint prepare_all (m : OManager) (os : list (OutboundOption Options)) (prepared : list Adapter)
    (l : calls) : calls * result (list Adapter) :=
  match os with
  | [] => (l, Ok prepared)
  | o :: os =>
      match prepare_one m o prepared l with
      | (prepared', l', Some e) => (update_abort prepared' l', Err e)
      | (prepared', l', None) => prepare_all m os prepared' l'
      end
  end.

(** [PrepareUserUpdate]: the prepared outbounds its three closures share. *)
Definition PrepareUserUpdate (os : list (OutboundOption Options)) (remove : list string) (m : OManager)
    : OManager * result (list Adapter) :=
  if forallb (removable m) remove then
    let '(l, r) := prepare_all m os [] (o_calls m) in (set_calls l m, r)
  else (m, Err (ENew "outbound is shared, default, dependent, or unavailable")).

(** The first loop of the closure [publish]; a missing outbound is retired as nil. *)
Fixpoint retire (remove : list string) (byTag : gmap string Adapter)
    : list (option Adapter) * gmap string Adapter :=
  match remove with
  | [] => ([], byTag)
  | tag :: remove =>
      let '(retired, byTag') := retire remove (delete tag byTag) in
      (byTag !! tag :: retired, byTag')
  end.

(** The closure [publish], with the outbounds it retires. *)
Definition update_publish (remove : list string) (prepared : list Adapter) (m : OManager)
    : OManager * list (option Adapter) :=
  let '(retired, byTag) := retire remove (outboundByTag m) in
  let next := filter (λ x, a_Tag x ∉ remove) (outbounds m) ++ prepared in
  (set_table next (foldl (λ bt x, <[a_Tag x := x]> bt) byTag prepared) m, retired).

(** The closure [cleanup]: close the retired outbounds, keep the first error. *)
Fixpoint update_cleanup (retired : list (option Adapter)) (first : option error) (l : calls)
    : calls * option error :=
  match retired with
  | [] => (l, first)
  | r :: retired =>
      let '(l', e) := match r with Some x => Close answer x l | None => (l, None) end in
      update_cleanup retired (match first with None => e | Some _ => first end) l'
  end.
End user_update.

(** ** The start loop *)

Section start_theorems.
Context (answer : nat → method → option error) (kind noun : string).

(** Everything is started after its dependencies. *)
Definition ordered (order : list Adapter) : Prop :=
  ∀ pre x post, order = pre ++ x :: post → ∀ d, d ∈ a_Dependencies x → d ∈ a_Tag <$> pre.

(** The calls that starting [order] makes. *)
Definition start_calls (order : list Adapter) : calls :=
  omap (λ x, pair (a_id x) <$> LegacyStart_method x StartStateStart) order.

(** [done] and [l] are those of a partial start in the order [order]. *)
Record started_in (xs : list Adapter) (l0 : calls) (order : list Adapter) (done : gset string)
    (l : calls) : Prop := {
  si_done : done = list_to_set (a_Tag <$> order);
  si_nodup : NoDup (a_Tag <$> order);
  si_sub : order ⊆ xs;
  si_ordered : ordered order;
  si_calls : l = l0 ++ start_calls order;
}.

Lemma ordered_nil : ordered [].
Proof. intros [|y pre] x post; simpl; discriminate. Qed.

Lemma ordered_snoc order x :
  ordered order → (∀ d, d ∈ a_Dependencies x → d ∈ a_Tag <$> order) → ordered (order ++ [x]).
Proof.
  intros Ho Hx pre y post Heq d Hd. destruct post as [|z post _] using rev_ind.
  - apply app_inj_tail in Heq as [<- <-]. by apply Hx.
  - rewrite app_comm_cons, app_assoc in Heq. apply app_inj_tail in Heq as [-> ->]. by eapply Ho.
Qed.

Lemma LegacyStart_ok_calls x st l l' :
  LegacyStart answer x st l = (l', None) →
  l' = l ++ omap (λ x, pair (a_id x) <$> LegacyStart_method x st) [x].
Proof.
  unfold LegacyStart, invoke. simpl. destruct (LegacyStart_method x st); simpl.
  - destruct (answer _ _); [done|]. by intros [= <-].
  - intros [= <-]. by rewrite app_nil_r.
Qed.

Lemma started_in_snoc xs l0 order done l l' x :
  started_in xs l0 order done l → x ∈ xs → a_Tag x ∉ done →
  (∀ d, d ∈ a_Dependencies x → d ∈ done) →
  LegacyStart answer x StartStateStart l = (l', None) →
  started_in xs l0 (order ++ [x]) ({[a_Tag x]} ∪ done) l'.
Proof.
  intros [-> Hnd Hsub Ho ->] Hx Ht Hd Hl%LegacyStart_ok_calls. rewrite elem_of_list_to_set in Ht.
  split.
  - rewrite fmap_app, list_to_set_app_L. simpl. set_solver.
  - rewrite fmap_app. apply NoDup_app. split; [done|]. split; [|apply NoDup_singleton].
    intros t Hto ->%list_elem_of_singleton. done.
  - intros y [Hy| ->]%elem_of_snoc; [by apply Hsub|done].
  - apply ordered_snoc; [done|]. intros d ?%Hd. by rewrite elem_of_list_to_set in *.
  - rewrite Hl. unfold start_calls. by rewrite omap_app, app_assoc.
Qed.

Lemma start_pass_ok xs l0 : ∀ ys order done progress l done' progress' l',
  ys ⊆ xs → started_in xs l0 order done l →
  start_pass answer kind ys done progress l = (done', progress', l', None) →
  done ⊆ done' ∧ (∃ order', started_in xs l0 order' done' l') ∧
  (progress' = false → progress = false ∧ done' = done ∧
     ∀ y, y ∈ ys → a_Tag y ∈ done ∨ ∃ d, d ∈ a_Dependencies y ∧ d ∉ done) ∧
  (progress' = true → progress = true ∨ size done < size done').
Proof.
  induction ys as [|y ys IH]; intros order done progress l done' progress' l' Hsub Hsi; simpl.
  { intros [= <- <- <-]. split; [done|]. split; [eauto|]. split; [|auto].
    intros ->. do 2 (split; [done|]). by intros y ?%not_elem_of_nil. }
  assert (ys ⊆ xs) as Hys by (intros z Hz; apply Hsub; by right).
  destruct (decide (a_Tag y ∈ done)) as [Hy|Hy].
  { intros Hp. destruct (IH _ _ _ _ _ _ _ Hys Hsi Hp) as (? & ? & Hf & ?). do 2 (split; [done|]).
    split; [|done]. intros (? & ? & Hall)%Hf. do 2 (split; [done|]).
    intros z [->|Hz]%elem_of_cons; [by left|by apply Hall]. }
  destruct (forallb _ _) eqn:Hdeps.
  - destruct (LegacyStart answer y StartStateStart l) as [l1 [e|]] eqn:Hl; [done|]. intros Hp.
    assert (started_in xs l0 (order ++ [y]) ({[a_Tag y]} ∪ done) l1) as Hsi'.
    { eapply started_in_snoc; [done|apply Hsub; by left|done| |done].
      intros d Hd. rewrite forallb_forall in Hdeps. apply list_elem_of_In, Hdeps in Hd.
      by apply bool_decide_eq_true in Hd. }
    destruct (IH _ _ _ _ _ _ _ Hys Hsi' Hp) as (Hsub' & Hex & Hf & _).
    split; [set_solver|]. split; [done|]. split; [intros Hpf; by destruct (Hf Hpf)|].
    intros _. right. apply subset_size. set_solver.
  - intros Hp. destruct (IH _ _ _ _ _ _ _ Hys Hsi Hp) as (? & ? & Hf & ?). do 2 (split; [done|]).
    split; [|done]. intros (? & ? & Hall)%Hf. do 2 (split; [done|]).
    intros z [->|Hz]%elem_of_cons; [|by apply Hall]. right.
    clear -Hdeps. induction (a_Dependencies y) as [|d ds IHd]; simpl in *; [done|].
    destruct (decide (d ∈ done)) as [Hin|Hin].
    + rewrite bool_decide_true in Hdeps by done. destruct (IHd Hdeps) as (d' & ? & ?).
      exists d'. split; [by right|done].
    + exists d. split; [by left|done].
Qed.

Lemma started_in_nil xs l0 : started_in xs l0 [] ∅ l0.
Proof.
  split; simpl; [done|constructor|by intros ? ?%not_elem_of_nil|apply ordered_nil|by rewrite app_nil_r].
Qed.

Lemma started_in_submseteq xs l0 order done l :
  started_in xs l0 order done l → order ⊆+ xs ∧ size done = length order.
Proof.
  intros [-> Hnd Hsub _ _]. split.
  - apply NoDup_submseteq; [by eapply NoDup_fmap_1|]. intros x. apply Hsub.
  - rewrite size_list_to_set by done. by rewrite length_fmap.
Qed.

(** A start that covers every outbound is in an order of all of them. *)
Lemma started_in_all xs l0 order done l :
  started_in xs l0 order done l → size done = length xs → order ≡ₚ xs.
Proof.
  intros Hsi Hs. destruct (started_in_submseteq _ _ _ _ _ Hsi) as [Hsub Hsz].
  apply submseteq_length_Permutation; [done|lia].
Qed.

(** [lintOutbound] visits each registered tag at most once. *)
Lemma lint_total byTag done : ∀ fuel oTree x,
  NoDup oTree → (∀ t, t ∈ tail oTree → t ∈ dom byTag) → oTree ≠ [] →
  S (size byTag) < fuel + length oTree → ∃ e, lintOutbound noun fuel byTag done oTree x = Some (ENew e).
Proof.
  induction fuel as [|fuel IH]; intros oTree x Hnd Hdom Hne Hf.
  - exfalso. destruct oTree as [|t ts]; [done|]. simpl in *. apply NoDup_cons in Hnd as [_ Hnd].
    assert (size (list_to_set (C := gset string) ts) ≤ size (dom byTag)).
    { apply subseteq_size. intros t'. rewrite elem_of_list_to_set. by apply Hdom. }
    rewrite size_list_to_set, size_dom in * by done. lia.
  - simpl. case_decide as Hin; [eauto|]. destruct (byTag !! _) as [next|] eqn:Hn; [|eauto].
    apply IH.
    + apply NoDup_app. split; [done|]. split; [|apply NoDup_singleton]. by intros t ? ->%list_elem_of_singleton.
    + intros t Ht. destruct oTree as [|t0 ts]; [done|]. simpl in Ht. apply elem_of_snoc in Ht as [Ht| ->].
      * by apply Hdom.
      * apply elem_of_dom. eauto.
    + by destruct oTree.
    + rewrite length_app. simpl. lia.
Qed.

#[local] Arguments lintOutbound : simpl never.

Lemma lint_start byTag done x :
  ∃ e, lintOutbound noun (S (S (size byTag))) byTag done [a_Tag x] x = Some (ENew e).
Proof.
  apply lint_total; [apply NoDup_singleton|by intros t ?%not_elem_of_nil|done|simpl; lia].
Qed.

(** The loop always ends within its fuel. *)
Lemma startOutbounds_loop_total byTag xs l0 : ∀ fuel order done l,
  started_in xs l0 order done l → length xs < fuel + size done →
  is_Some (startOutbounds_loop answer kind noun fuel byTag xs done l).
Proof.
  induction fuel as [|fuel IH]; intros order done l Hsi Hf.
  { destruct (started_in_submseteq _ _ _ _ _ Hsi) as [Hsub Hsz]. apply submseteq_length in Hsub. simpl in *. lia. }
  simpl. destruct (start_pass answer kind xs done false l) as [[[done' progress] l'] [e|]] eqn:Hp; [eauto|].
  destruct (start_pass_ok xs l0 xs _ _ _ _ _ _ _ (reflexivity _) Hsi Hp) as (_ & [order' Hsi'] & _ & Hgrow).
  case_decide; [eauto|]. destruct progress.
  - destruct Hgrow as [?|Hgrow]; [done..|]. eapply IH; [done|lia].
  - destruct (list_find _ _) as [[i x]|]; [|eauto].
    destruct (lint_start byTag done' x) as [e ->]. eauto.
Qed.

(** When the loop succeeds everything was started, once, dependencies first. *)
Lemma startOutbounds_loop_ok byTag xs l0 : ∀ fuel order done l l',
  started_in xs l0 order done l →
  startOutbounds_loop answer kind noun fuel byTag xs done l = Some (l', None) →
  ∃ order', order' ≡ₚ xs ∧ NoDup (a_Tag <$> order') ∧ ordered order' ∧ l' = l0 ++ start_calls order'.
Proof.
  induction fuel as [|fuel IH]; intros order dn l l' Hsi; simpl; [done|].
  destruct (start_pass answer kind xs dn false l) as [[[done' progress] l1] [e|]] eqn:Hp; [done|].
  destruct (start_pass_ok xs l0 xs _ _ _ _ _ _ _ (reflexivity _) Hsi Hp) as (_ & [order' Hsi'] & _ & _).
  case_decide as Hsz.
  - intros [= <-]. exists order'. split; [by eapply started_in_all|]. by destruct Hsi'.
  - destruct progress; [by apply IH with (order := order')|].
    destruct (list_find _ _) as [[i x]|]; [|done]. by destruct (lintOutbound _ _ _ _ _ _).
Qed.

(** A pass fails only where an outbound's own start method fails. *)
Lemma start_pass_no_error xs : ∀ done progress l,
  (∀ x m, x ∈ xs → LegacyStart_method x StartStateStart = Some m → answer (a_id x) m = None) →
  (start_pass answer kind xs done progress l).2 = None.
Proof.
  induction xs as [|x xs IH]; intros dn progress l Hans; simpl; [done|].
  assert (∀ y m, y ∈ xs → LegacyStart_method y StartStateStart = Some m → answer (a_id y) m = None) as Hans'.
  { intros y m Hy. apply Hans. by right. }
  case_decide; [by apply IH|]. destruct (forallb _ _); [|by apply IH].
  unfold LegacyStart, invoke. destruct (LegacyStart_method x StartStateStart) eqn:Hm; [|by apply IH].
  rewrite (Hans x _ (list_elem_of_here _ _) Hm). by apply IH.
Qed.

(** The outbounds can be ranked so that dependencies have smaller ranks. *)
Definition ranked (rank : string → nat) (xs : list Adapter) : Prop :=
  ∀ x d, x ∈ xs → d ∈ a_Dependencies x → d ∈ a_Tag <$> xs ∧ rank d < rank (a_Tag x).

(** A pass over ranked outbounds that starts nothing has nothing to start. *)
Lemma stuck_is_done rank xs (done : gset string) :
  ranked rank xs →
  (∀ y, y ∈ xs → a_Tag y ∈ done ∨ ∃ d, d ∈ a_Dependencies y ∧ d ∉ done) →
  ∀ y, y ∈ xs → a_Tag y ∈ done.
Proof.
  intros Hr Hstuck y. remember (rank (a_Tag y)) as n eqn:Hn. revert y Hn.
  induction (lt_wf n) as [n _ IH]. intros y Hn Hy.
  destruct (Hstuck y Hy) as [?|(d & Hd & Hnd)]; [done|]. exfalso.
  destruct (Hr y d Hy Hd) as [Hin Hlt]. apply list_elem_of_fmap in Hin as (z & -> & Hz).
  apply Hnd. eapply IH; [|done|done]. lia.
Qed.

Lemma startOutbounds_loop_complete rank byTag xs l0 :
  ranked rank xs → NoDup (a_Tag <$> xs) →
  (∀ x m, x ∈ xs → LegacyStart_method x StartStateStart = Some m → answer (a_id x) m = None) →
  ∀ fuel order done l r, started_in xs l0 order done l →
  startOutbounds_loop answer kind noun fuel byTag xs done l = Some r → r.2 = None.
Proof.
  intros Hr Hnd Hans. induction fuel as [|fuel IH]; intros order dn l r Hsi; simpl; [done|].
  pose proof (start_pass_no_error xs dn false l Hans) as Herr.
  destruct (start_pass answer kind xs dn false l) as [[[done' progress] l1] e] eqn:Hp. simpl in Herr. subst e.
  destruct (start_pass_ok xs l0 xs _ _ _ _ _ _ _ (reflexivity _) Hsi Hp)
    as (_ & [order' Hsi'] & Hstop & _).
  case_decide as Hsz; [by intros [= <-]|]. destruct progress; [by apply IH with (order := order')|].
  destruct (Hstop eq_refl) as (_ & -> & Hstuck). exfalso. apply Hsz.
  pose proof (stuck_is_done rank xs dn Hr Hstuck) as Hall.
  destruct (started_in_submseteq _ _ _ _ _ Hsi) as [Hsub Hso]. rewrite Hso.
  apply submseteq_length in Hsub. apply Nat.le_antisymm; [done|].
  rewrite <-(length_fmap a_Tag xs), <-(length_fmap a_Tag order).
  apply submseteq_length, NoDup_submseteq; [done|].
  intros t (x & -> & Hx)%list_elem_of_fmap. apply Hall in Hx. destruct Hsi as [-> _ _ _ _].
  by rewrite elem_of_list_to_set in Hx.
Qed.
End start_theorems.

(** ** The manager's invariant *)

(** The slice and the map agree, and [dependByTag] knows every dependency.  The
    second part is promised under a condition [Q] only: an outbound that names
    a dependency twice makes [Remove] forget other dependents. *)
Record OWFwhen (Q : Prop) (m : OManager) : Prop := {
  owf_table : consistent (outbounds m) (outboundByTag m);
  owf_deps x d : Q → x ∈ outbounds m → d ∈ a_Dependencies x → a_Tag x ∈ entries (dependByTag m) d;
  owf_nodup x : Q → x ∈ outbounds m → NoDup (a_Dependencies x);
}.
Arguments owf_table {Q}.
Arguments owf_deps {Q}.
Arguments owf_nodup {Q}.

Lemma entries_insert d k v k' : entries (<[k := v]> d) k' = if decide (k = k') then v else entries d k'.
Proof. unfold entries. rewrite lookup_insert. by case_decide. Qed.

Lemma entries_delete d k k' : entries (delete k d) k' = if decide (k = k') then [] else entries d k'.
Proof. unfold entries. rewrite lookup_delete. by case_decide. Qed.

(** Registering dependencies adds the tag to each and loses nothing. *)
Lemma foldl_depend tag ds : ∀ d k,
  entries (foldl (depend tag) d ds) k = entries d k ++ replicate (length (filter (.= k) ds)) tag.
Proof.
  induction ds as [|x ds IH]; intros d k; simpl; [by rewrite app_nil_r|].
  rewrite IH. unfold depend at 1. rewrite entries_insert, filter_cons.
  destruct (decide (x = k)) as [->|]; [|done]. by rewrite <-app_assoc.
Qed.

(** Unregistering the (distinct) dependencies of [tag] keeps the other tags. *)
Lemma foldl_undepend tag ds : ∀ d k t,
  NoDup ds → (∀ k', k' ∈ ds → tag ∈ entries d k') → t ≠ tag →
  t ∈ entries d k → t ∈ entries (foldl (undepend tag) d ds) k.
Proof.
  induction ds as [|x ds IH]; intros d k t Hnd Hin Hne Ht; simpl; [done|].
  apply NoDup_cons in Hnd as [Hx Hnd].
  assert (∀ k', k' ≠ x → entries (undepend tag d x) k' = entries d k') as Hother.
  { intros k' Hk. unfold undepend. case_decide; rewrite ?entries_delete, ?entries_insert, decide_False; done. }
  apply IH; [done| |done|].
  - intros k' Hk'. rewrite Hother by (by intros ->). apply Hin. by right.
  - destruct (decide (k = x)) as [->|]; [|by rewrite Hother].
    specialize (Hin x (list_elem_of_here _ _)). unfold undepend. case_decide as Hlen.
    + exfalso. destruct (entries d x) as [|a [|b l]]; try done.
      apply list_elem_of_singleton in Hin, Ht. congruence.
    + rewrite entries_insert, decide_True by done. by apply list_elem_of_filter.
Qed.

Section invariant.
Context {Q : Prop}.
Notation OWF := (OWFwhen Q).
Context {Options : Type} (answer : nat → method → option error)
  (create : string → string → Options → result Adapter).

Lemma OWF_new tag : OWF (NewOManager tag).
Proof. split; simpl; [apply consistent_empty|..]; by intros ? ** ; exfalso; eapply not_elem_of_nil. Qed.

Lemma OWF_set_calls l m : OWF m → OWF (set_calls l m).
Proof. by intros []. Qed.

Lemma OWF_set_default d m : OWF m → OWF (set_default d m).
Proof. by intros []. Qed.

Lemma OWF_set_stage st m : OWF m → OWF (set_stage st m).
Proof. by intros []. Qed.

Lemma create_register_OWF tag x xs m :
  OWF m → fresh_object (outbounds m) tag x → (Q → NoDup (a_Dependencies x)) → NoDup (a_id <$> xs) →
  (∀ y, y ∈ xs ↔ y ∈ outbounds m ∧ a_Tag y ≠ tag) → OWF (create_register tag x xs m).
Proof.
  intros [Ht Hd Hn] Hf Hnx Hnd Hxs. unfold create_register.
  assert (OWF (set_depend (foldl (depend tag) (dependByTag m) (a_Dependencies x))
                 (set_table (xs ++ [x]) (<[tag := x]> (outboundByTag m)) m))) as Hwf.
  { split; simpl; [by eapply consistent_insert|..].
    - intros y d HQ [Hy| ->]%elem_of_snoc Hdy; rewrite foldl_depend; apply elem_of_app.
      + left. apply Hxs in Hy as [Hy _]. by apply Hd.
      + right. destruct Hf as [-> _]. apply elem_of_replicate. split; [done|].
        assert (d ∈ filter (.= d) (a_Dependencies x)) as Hin by (by apply list_elem_of_filter).
        intros Hl%length_zero_iff_nil. rewrite Hl in Hin. by apply not_elem_of_nil in Hin.
    - intros y HQ [Hy| ->]%elem_of_snoc; [|by apply Hnx]. apply Hn; [done|]. by apply Hxs in Hy as [? _]. }
  case_match; [by apply OWF_set_default|done].
Qed.

Lemma Create_OWF tag type options m :
  OWF m →
  (∀ x, create tag type options = Ok x → fresh_object (outbounds m) tag x ∧ (Q → NoDup (a_Dependencies x))) →
  OWF (Create answer create tag type options m).1.
Proof.
  intros Hwf Hc. unfold Create. case_decide; [done|].
  destruct (create tag type options) as [x|e]; [|done]. destruct (Hc x eq_refl) as [Hf Hnx].
  destruct (if started m then _ else _) as [l [e|]]; [by apply OWF_set_calls|].
  destruct (outboundByTag m !! tag) as [old|] eqn:Hold.
  - destruct (if started m then _ else _) as [l' [e|]]; [by apply OWF_set_calls|].
    destruct (remove_by_tag _ _ tag old (owf_table m Hwf) Hold) as (i & -> & Hnd & Hel). simpl.
    apply create_register_OWF; [by apply OWF_set_calls|done..].
  - simpl. apply create_register_OWF; [by apply OWF_set_calls|done|done|apply (wf_nodup (owf_table m Hwf))|].
    by apply (consistent_absent _ _ _ (owf_table m Hwf)).
Qed.

(** Taking an outbound out of the tables, before and after its dependencies are
    unregistered. *)
Lemma removed_OWF tag x i m :
  OWF m → outboundByTag m !! tag = Some x → index_of x (outbounds m) = Some i →
  let m1 := set_table (remove_at i (outbounds m)) (delete tag (outboundByTag m)) m in
  OWF m1 ∧ OWF (set_depend (foldl (undepend tag) (dependByTag m) (a_Dependencies x)) m1).
Proof.
  intros Hwf Hx Hi m1. destruct (remove_by_tag _ _ tag x (owf_table m Hwf) Hx) as (i' & Hi' & Hnd & Hel). simplify_eq.
  pose proof Hx as [Hin Htag]%(wf_lookup (owf_table m Hwf)).
  assert (OWF m1) as Hm1.
  { split; simpl; [by eapply consistent_delete; [apply Hwf|..]|..].
    - intros y d HQ [Hy _]%Hel. by apply Hwf.
    - intros y HQ [Hy _]%Hel. by apply Hwf. }
  split; [done|]. split; simpl; [apply Hm1| |apply Hm1]. intros y d HQ [Hy Hne]%Hel Hd. apply foldl_undepend.
  - by apply Hwf.
  - intros k Hk. rewrite <-Htag. by apply Hwf.
  - done.
  - by apply Hwf.
Qed.
(** The invariant is about the tables alone. *)
Lemma OWF_tables m m' :
  outbounds m' = outbounds m → outboundByTag m' = outboundByTag m → dependByTag m' = dependByTag m → OWF m → OWF m'.
Proof. intros H1 H2 H3 [Ht Hd Hn]. split; rewrite ?H1, ?H2, ?H3; done. Qed.

Lemma Remove_OWF tag m : OWF m → OWF (Remove answer tag m).1.
Proof.
  intros Hwf. unfold Remove. destruct (outboundByTag m !! tag) as [x|] eqn:Hx; [|done].
  destruct (remove_by_tag _ _ tag x (owf_table m Hwf) Hx) as (i & Hi & _ & _). rewrite Hi.
  destruct (removed_OWF tag x i m Hwf Hx Hi) as [Hm1 Hm3].
  destruct (same _ x); simpl; (case_match; [by eapply OWF_tables; [..|exact Hm1]|]);
    (case_match; [destruct (Close _ _ _)|]; simpl; by eapply OWF_tables; [..|exact Hm3]).
Qed.
End invariant.

(** ** User updates *)

Lemma retire_lookup remove : ∀ byTag t,
  (retire remove byTag).2 !! t = if decide (t ∈ remove) then None else byTag !! t.
Proof.
  induction remove as [|tag remove IH]; intros byTag t; simpl.
  { reflexivity. }
  destruct (retire remove (delete tag byTag)) as [r bt] eqn:Hr. simpl.
  specialize (IH (delete tag byTag) t). rewrite Hr in IH. simpl in IH. rewrite IH, lookup_delete.
  destruct (decide (t ∈ remove)), (decide (t ∈ tag :: remove)), (decide (tag = t)); set_solver.
Qed.

Lemma retire_retired remove : ∀ byTag,
  NoDup remove → (retire remove byTag).1 = (λ t, byTag !! t) <$> remove.
Proof.
  induction remove as [|tag remove IH]; intros byTag Hnd; simpl; [done|].
  apply NoDup_cons in Hnd as [Hni Hnd]. specialize (IH (delete tag byTag) Hnd).
  destruct (retire remove (delete tag byTag)) as [r bt]. simpl in *. f_equal. rewrite IH.
  apply list_fmap_ext. intros i t Ht. apply lookup_delete_ne. intros ->.
  apply Hni. by eapply list_elem_of_lookup_2.
Qed.

Lemma foldl_register_lookup prepared : ∀ (byTag : gmap string Adapter) t,
  NoDup (a_Tag <$> prepared) →
  foldl (λ bt x, <[a_Tag x := x]> bt) byTag prepared !! t =
  match list_find (λ x, a_Tag x = t) prepared with Some (_, x) => Some x | None => byTag !! t end.
Proof.
  induction prepared as [|x prepared IH]; intros byTag t Hnd; simpl; [done|].
  apply NoDup_cons in Hnd as [Hni Hnd]. rewrite IH by done. case_decide as Hx.
  - subst t. simpl. destruct (list_find _ prepared) as [[i y]|] eqn:Hf; [|by rewrite lookup_insert_eq].
    apply list_find_Some in Hf as (Hy & Ht & _). destruct Hni. rewrite <-Ht.
    by apply list_elem_of_fmap_2, (list_elem_of_lookup_2 _ i).
  - destruct (list_find _ prepared) as [[i y]|]; simpl; [done|]. by rewrite lookup_insert_ne.
Qed.

Lemma list_find_tag_elem (xs : list Adapter) t i x :
  list_find (λ x, a_Tag x = t) xs = Some (i, x) → x ∈ xs ∧ a_Tag x = t.
Proof. intros (Hx & Ht & _)%list_find_Some. split; [by eapply list_elem_of_lookup_2|done]. Qed.

Section updates.
Context {E Options : Type} `{EndpointManager E} (endpoint : E).
Context (answer : nat → method → option error).
Context (create : string → string → Options → result Adapter).

(** What a prepared outbound is for its option. *)
Definition prepared_for (o : OutboundOption Options) (x : Adapter) : Prop :=
  create (oo_Tag o) (oo_Type o) (oo_Options o) = Ok x ∧ a_Dependencies x = [] ∧
  ep_Get endpoint (oo_Tag o) = None ∧ oo_Type o ∈ ["direct"; "socks"].

Lemma prepare_one_ok m o prepared l prepared' l' :
  prepare_one endpoint answer create m o prepared l = (prepared', l', None) →
  ∃ x, prepared' = prepared ++ [x] ∧ prepared_for o x.
Proof.
  unfold prepare_one, prepared_for. destruct (negb _ && negb _) eqn:Hty; [done|].
  destruct (bool_decide (is_Some _)) eqn:He; [done|]. apply bool_decide_eq_false in He.
  destruct (create _ _ _) as [x|]; [|done].
  destruct (bool_decide (_ ≠ 0)) eqn:Hd; [done|]. apply bool_decide_eq_false in Hd. intros Hr. exists x.
  assert (prepared' = prepared ++ [x]) as ->.
  { destruct (started m); [|by simplify_eq]. by destruct (start_upto _ _ _ _ _); simplify_eq. }
  split; [done|]. split; [done|]. split; [by apply length_zero_iff_nil, dec_stable|].
  split; [by apply eq_None_not_Some|].
  apply andb_false_iff in Hty as [Hty|Hty]; apply negb_false_iff, bool_decide_eq_true in Hty as ->; set_solver.
Qed.

Lemma prepare_all_ok m os : ∀ prepared l l' ps,
  prepare_all endpoint answer create m os prepared l = (l', Ok ps) →
  ∃ new, ps = prepared ++ new ∧ Forall2 prepared_for os new.
Proof.
  induction os as [|o os IH]; intros prepared l l' ps; simpl.
  { intros [= <- <-]. exists []. by rewrite app_nil_r. }
  destruct (prepare_one _ _ _ _ _ _ _) as [[prepared1 l1] [e|]] eqn:Hp; [done|].
  apply prepare_one_ok in Hp as (x & -> & Hx). intros (new & -> & Hnew)%IH.
  exists (x :: new). rewrite <-app_assoc. by split; [|constructor].
Qed.

Lemma PrepareUserUpdate_ok os remove m m1 prepared :
  PrepareUserUpdate endpoint answer create os remove m = (m1, Ok prepared) →
  (∃ l, m1 = set_calls l m) ∧ Forall2 prepared_for os prepared ∧
  (∀ t, t ∈ remove → removable m t = true).
Proof.
  unfold PrepareUserUpdate. destruct (forallb _ _) eqn:Hr; [|done].
  destruct (prepare_all _ _ _ _ _ _ _) as [l [ps|]] eqn:Hp; intros [= <- <-].
  apply prepare_all_ok in Hp as (new & -> & Hnew). split; [eauto|]. split; [done|].
  intros t Ht. rewrite forallb_forall in Hr. by apply Hr, list_elem_of_In.
Qed.

(** The objects an update creates carry the requested tags, are new pointers,
    and no tag it adds is in use by an outbound it keeps. *)
Record update_args (os : list (OutboundOption Options)) (remove : list string) (m : OManager) : Prop := {
  ua_tag o x : o ∈ os → create (oo_Tag o) (oo_Type o) (oo_Options o) = Ok x → a_Tag x = oo_Tag o;
  ua_fresh o x : o ∈ os → create (oo_Tag o) (oo_Type o) (oo_Options o) = Ok x → a_id x ∉ a_id <$> outbounds m;
  ua_inj o x o' x' : o ∈ os → o' ∈ os → create (oo_Tag o) (oo_Type o) (oo_Options o) = Ok x →
    create (oo_Tag o') (oo_Type o') (oo_Options o') = Ok x' → a_id x = a_id x' → oo_Tag o = oo_Tag o';
  ua_nodup : NoDup (oo_Tag <$> os);
  ua_free o : o ∈ os → outboundByTag m !! oo_Tag o = None ∨ oo_Tag o ∈ remove;
}.

Lemma prepared_tags os prepared remove m :
  update_args os remove m → Forall2 prepared_for os prepared →
  a_Tag <$> prepared = oo_Tag <$> os ∧ NoDup (a_id <$> prepared) ∧
  (∀ x, x ∈ prepared → a_id x ∉ a_id <$> outbounds m ∧ a_Dependencies x = [] ∧
     (outboundByTag m !! a_Tag x = None ∨ a_Tag x ∈ remove)).
Proof.
  intros [Htag Hfresh Hinj Hnd Hfree] HF.
  assert (a_Tag <$> prepared = oo_Tag <$> os) as Htags.
  { clear -HF Htag. induction HF as [|o x os prepared [Ho _] HF IH]; simpl; [done|]. f_equal.
    - apply (Htag o x); [left|done].
    - apply IH. intros o' x' ?. apply Htag. by right. }
  assert (∀ x, x ∈ prepared → ∃ o, o ∈ os ∧ prepared_for o x ∧ a_Tag x = oo_Tag o) as Hopt.
  { intros x (i & Hi)%list_elem_of_lookup. destruct (Forall2_lookup_r _ _ _ _ _ HF Hi) as (o & Ho & Hp).
    apply list_elem_of_lookup_2 in Ho. exists o. split; [done|]. split; [done|]. apply Htag; [done|apply Hp]. }
  split; [done|]. split.
  - apply NoDup_fmap_2_strong; [|apply (NoDup_fmap_1 a_Tag); by rewrite Htags].
    intros x y Hx Hy Hid. destruct (Hopt x Hx) as (o & Ho & [Hc _] & Ht), (Hopt y Hy) as (o' & Ho' & [Hc' _] & Ht').
    assert (a_Tag x = a_Tag y) as Heq by (rewrite Ht, Ht'; by eapply Hinj).
    rewrite <-Htags in Hnd. by eapply (NoDup_fmap_elem a_Tag).
  - intros x Hx. destruct (Hopt x Hx) as (o & Ho & (Hc & Hd & _) & Ht).
    split; [by eapply Hfresh|]. split; [done|]. rewrite Ht. by apply Hfree.
Qed.

End updates.

(** The look-up table that an update publishes. *)
Lemma publish_lookup remove prepared m t :
  NoDup (a_Tag <$> prepared) →
  outboundByTag (update_publish remove prepared m).1 !! t =
  match list_find (λ x, a_Tag x = t) prepared with
  | Some (_, x) => Some x
  | None => if decide (t ∈ remove) then None else outboundByTag m !! t
  end.
Proof.
  intros Hnd. unfold update_publish. pose proof (retire_lookup remove (outboundByTag m) t) as Hr.
  destruct (retire remove (outboundByTag m)) as [retired bt]. simpl in *.
  by rewrite foldl_register_lookup, Hr.
Qed.

Lemma publish_OWF {Q} remove prepared m :
  OWFwhen Q m → NoDup (a_Tag <$> prepared) → NoDup (a_id <$> prepared) →
  (∀ x, x ∈ prepared → a_id x ∉ a_id <$> outbounds m ∧ a_Dependencies x = [] ∧
     (outboundByTag m !! a_Tag x = None ∨ a_Tag x ∈ remove)) →
  OWFwhen Q (update_publish remove prepared m).1.
Proof.
  intros Hwf Hnt Hni Hps.
  assert (outbounds (update_publish remove prepared m).1
          = filter (λ x, a_Tag x ∉ remove) (outbounds m) ++ prepared) as Hout.
  { unfold update_publish. by destruct (retire _ _). }
  assert (dependByTag (update_publish remove prepared m).1 = dependByTag m) as Hdep.
  { unfold update_publish. by destruct (retire _ _). }
  split; [split|..].
  - rewrite Hout, fmap_app. apply NoDup_app. split; [|split; [|done]].
    + eapply sublist_NoDup; [apply (wf_nodup (owf_table m Hwf))|apply fmap_sublist, sublist_filter].
    + intros i (y & -> & [_ Hy]%list_elem_of_filter)%list_elem_of_fmap (x & Hxy & Hx)%list_elem_of_fmap.
      destruct (Hps x Hx) as [Hf _]. apply Hf. rewrite <-Hxy. by apply list_elem_of_fmap_2.
  - intros t x. rewrite publish_lookup, Hout, elem_of_app, list_elem_of_filter by done.
    pose proof (wf_lookup (owf_table m Hwf) t x) as Hl.
    destruct (list_find _ prepared) as [[i y]|] eqn:Hf.
    + apply list_find_tag_elem in Hf as [Hy Ht]. split; [intros [= <-]; eauto|].
      intros [[[Hr Hx]|Hx] Htx].
      * exfalso. destruct (Hps y Hy) as (_ & _ & [Hn|Hin]); rewrite Ht in *; [|congruence].
        rewrite (proj2 Hl) in Hn; [done|by split].
      * f_equal. eapply (NoDup_fmap_elem a_Tag); [done..|congruence].
    + assert (∀ y, y ∈ prepared → a_Tag y ≠ t) as Hno.
      { apply list_find_None in Hf. by rewrite Forall_forall in Hf. }
      case_decide as Hr; [|rewrite Hl]; (split; [naive_solver|]).
      * intros [[[Hnr _]|Hx] Htx]; [by rewrite Htx in Hnr|by destruct (Hno x)].
      * intros [[[_ ?]|Hx] Htx]; [done|by destruct (Hno x)].
  - rewrite Hout, Hdep. intros x d HQ [[_ Hx]%list_elem_of_filter|Hx]%elem_of_app Hd; [by apply Hwf|].
    destruct (Hps x Hx) as (_ & Hnil & _). rewrite Hnil in Hd. by apply not_elem_of_nil in Hd.
  - rewrite Hout. intros x HQ [[_ Hx]%list_elem_of_filter|Hx]%elem_of_app; [by apply Hwf|].
    destruct (Hps x Hx) as (_ & -> & _). constructor.
Qed.
