(* ===== verification/OutboundProps.v ===== *)
(** * Properties of the outbound manager

    The theorems about the model of OutboundManager.v: the start order, the
    manager's invariant, and the prepare/publish/abort/cleanup protocol of user
    updates, each with a concrete run. *)
From S2P Require Import Prelude Registry OutboundManager.

(** ** Starting *)

Notation OWF := (OWFwhen True).

Section starting.
Context {E Options : Type} `{EndpointManager E} (endpoint : E).
Context (answer : nat → method → option error).

(** The loop that starts outbounds ends within its fuel. *)
Lemma startOutbounds_total byTag xs l : is_Some (startOutbounds answer byTag xs l).
Proof. eapply startOutbounds_loop_total; [apply (started_in_nil xs l)|]. rewrite size_empty. lia. Qed.

Lemma start_default_effect fallback m m' err :
  start_default endpoint fallback m = (m', err) →
  o_calls m' = o_calls m ∧ (err = None → is_Some (defaultOutbound m')).
Proof.
  unfold start_default. destruct (negb _ && negb _).
  - destruct (ep_Get _ _); [|by intros [= <- <-]]. simpl. intros [= <- <-]. simpl. eauto.
  - destruct (defaultOutbound m) eqn:Hd; [intros [= <- <-]; rewrite Hd; eauto|].
    destruct fallback; intros [= <- <-]; simpl; eauto. by split.
Qed.

(** When the start stage of the outbound manager succeeds, every
    outbound and every endpoint was started exactly once, in an order in
    which each comes after all its dependencies, the calls made are exactly
    the start methods in that order, all tags are distinct, and there is a
    default outbound. *)
Lemma Start_order fallback m m' :
  Start endpoint answer fallback StartStateStart m = Some (m', None) →
  ∃ order, order ≡ₚ outbounds m' ++ ep_Endpoints endpoint ∧ NoDup (a_Tag <$> order) ∧
    ordered order ∧ o_calls m' = o_calls m ++ start_calls order ∧ is_Some (Default m').
Proof.
  unfold Start. case_match; [done|]. rewrite decide_True by done.
  destruct (start_default _ _ _) as [m1 [e|]] eqn:Hd; [done|].
  apply start_default_effect in Hd as [Hcalls Hdef]. simpl in Hcalls.
  destruct (startOutbounds _ _ _ _) as [[l err]|] eqn:Hs; simpl; [|done]. intros [= <- ->].
  eapply startOutbounds_loop_ok in Hs as (order & Hp & Hnd & Ho & ->); [|apply started_in_nil].
  exists order. simpl. rewrite Hcalls. by eauto 10.
Qed.

Lemma all_tags_distinct {Q} m :
  OWFwhen Q m → ep_valid endpoint → (∀ x, x ∈ ep_Endpoints endpoint → outboundByTag m !! a_Tag x = None) →
  NoDup (a_Tag <$> (outbounds m ++ ep_Endpoints endpoint)).
Proof.
  intros Hwf Hep Hdisj. rewrite fmap_app. apply NoDup_app.
  split; [by eapply consistent_nodup_tags, owf_table|]. split; [|by apply ep_nodup].
  intros t (x & -> & Hx)%list_elem_of_fmap (y & Hxy & Hy)%list_elem_of_fmap.
  pose proof (consistent_found _ _ _ (owf_table m Hwf) Hx) as Hf. rewrite Hxy, (Hdisj y Hy) in Hf. done.
Qed.

(** The start stage always terminates (a dependency cycle or a missing
    dependency is reported, not waited for), and it succeeds whenever the
    dependencies of outbounds and endpoints are present and acyclic, no
    outbound has the tag of an endpoint, a default is configured and no start
    method fails. *)
Lemma Start_terminates fallback rank m :
  is_Some (Start endpoint answer fallback StartStateStart m) ∧
  (started m = false ∨ stage m = StartStateInitialize → is_Some (defaultOutbound m) →
   ranked rank (outbounds m ++ ep_Endpoints endpoint) →
   OWF m → ep_valid endpoint → (∀ x, x ∈ ep_Endpoints endpoint → outboundByTag m !! a_Tag x = None) →
   (∀ x k, x ∈ outbounds m ++ ep_Endpoints endpoint →
      LegacyStart_method x StartStateStart = Some k → answer (a_id x) k = None) →
   ∃ m', Start endpoint answer fallback StartStateStart m = Some (m', None)).
Proof.
  unfold Start. split.
  - case_match; [eauto|]. rewrite decide_True by done. destruct (start_default _ _ _) as [m1 [e|]]; [eauto|].
    destruct (startOutbounds_total (outboundByTag m1) (outbounds m1 ++ ep_Endpoints endpoint) (o_calls m1))
      as [[l err] ->]. simpl. eauto.
  - intros Hst [d Hd] Hr Hwf Hep Hdisj Hans. pose proof (all_tags_distinct m Hwf Hep Hdisj) as Hnd.
    assert (started m && bool_decide (stage_value StartStateStart ≤ stage_value (stage m)) = false) as ->.
    { by destruct Hst as [-> | ->]; [|destruct (started m)]. }
    rewrite decide_True by done.
    assert (start_default endpoint fallback (set_stage StartStateStart m)
            = (set_stage StartStateStart m, None)) as ->.
    { unfold start_default. simpl. rewrite Hd, (bool_decide_true (is_Some (Some d))), andb_false_r by eauto.
      simpl. by rewrite Hd. }
    simpl. destruct (startOutbounds_total (outboundByTag m) (outbounds m ++ ep_Endpoints endpoint) (o_calls m))
      as [[l err] Hs]. rewrite Hs. simpl.
    pose proof (startOutbounds_loop_complete answer _ _ rank _ _ _ Hr Hnd Hans _ _ _ _ _
                  (started_in_nil _ _) Hs) as Herr. simpl in Herr. subst err. eauto.
Qed.
End starting.

(** ** Updating *)

Section updating.
Context {E Options : Type} `{EndpointManager E} (endpoint : E).
Context (answer : nat → method → option error).
Context (create : string → string → Options → result Adapter).

Lemma removable_spec m t :
  removable m t = true →
  ∃ old, outboundByTag m !! t = Some old ∧ same (defaultOutbound m) old = false ∧
         entries (dependByTag m) t = [] ∧ a_Dependencies old = [].
Proof.
  unfold removable. destruct (outboundByTag m !! t) as [old|]; [|done].
  intros [[Hd%negb_true_iff He]%andb_true_iff Hn]%andb_true_iff. exists old.
  apply bool_decide_eq_true in He, Hn. by apply length_zero_iff_nil in He, Hn.
Qed.

(** Every dependency of an outbound can be looked up. *)
Definition closed_dependencies (m : OManager) : Prop :=
  ∀ x d, x ∈ outbounds m → d ∈ a_Dependencies x → is_Some (Outbound endpoint d m).

Lemma list_find_prepared os prepared t :
  a_Tag <$> prepared = oo_Tag (Options := Options) <$> os → t ∈ oo_Tag <$> os →
  ∃ i x, list_find (λ x, a_Tag x = t) prepared = Some (i, x).
Proof.
  intros Htags Ht. rewrite <-Htags in Ht. apply list_elem_of_fmap in Ht as (x & -> & Hx).
  destruct (list_find_elem_of (λ y, a_Tag y = a_Tag x) _ _ Hx eq_refl) as [[i y] Hf]. eauto.
Qed.

(** The shared hypotheses of the lemmas about one published update. *)
Section published.
Context {Q : Prop}.
Context (os : list (OutboundOption Options)) (remove : list string) (m : OManager) (l : calls)
  (prepared : list Adapter).
Hypothesis Hwf : OWFwhen Q m.
Hypothesis Hargs : update_args create os remove m.
Hypothesis HF : Forall2 (prepared_for endpoint create) os prepared.
Hypothesis Hrem : ∀ t, t ∈ remove → removable m t = true.
Let m2 : OManager := (update_publish remove prepared (set_calls l m)).1.

Lemma published_tags : a_Tag <$> prepared = oo_Tag <$> os ∧ NoDup (a_Tag <$> prepared).
Proof.
  destruct (prepared_tags endpoint create os prepared remove m Hargs HF) as (Htags & _).
  split; [done|]. rewrite Htags. by eapply ua_nodup.
Qed.

Lemma published_OWF : OWFwhen Q m2.
Proof.
  destruct (prepared_tags endpoint create os prepared remove m Hargs HF) as (_ & Hni & Hps).
  apply publish_OWF; [by apply OWF_set_calls|apply published_tags|done|exact Hps].
Qed.

Lemma published_outbounds :
  outbounds m2 = filter (λ x, a_Tag x ∉ remove) (outbounds m) ++ prepared ∧
  defaultOutbound m2 = defaultOutbound m.
Proof. unfold m2, update_publish. by destruct (retire _ _). Qed.

Lemma published_added o x :
  o ∈ os → create (oo_Tag o) (oo_Type o) (oo_Options o) = Ok x → outboundByTag m2 !! oo_Tag o = Some x.
Proof.
  intros Ho Hc. destruct published_tags as [Htags Hnt]. unfold m2. rewrite publish_lookup by done.
  destruct (list_find_prepared os prepared (oo_Tag o) Htags) as (i & y & Hf); [by apply list_elem_of_fmap_2|].
  rewrite Hf. apply list_find_tag_elem in Hf as [Hy Ht]. f_equal.
  apply list_elem_of_lookup in Hy as [j Hj]. destruct (Forall2_lookup_r _ _ _ _ _ HF Hj) as (o' & Ho' & Hc' & _).
  apply list_elem_of_lookup_2 in Ho'. assert (o' = o) as ->; [|congruence].
  eapply (NoDup_fmap_elem oo_Tag); [by eapply ua_nodup|done..|]. rewrite <-Ht. symmetry. by eapply ua_tag.
Qed.

Lemma published_kept t :
  t ∉ oo_Tag <$> os → outboundByTag m2 !! t = if decide (t ∈ remove) then None else outboundByTag m !! t.
Proof.
  intros Ht. destruct published_tags as [Htags Hnt]. unfold m2. rewrite publish_lookup by done.
  destruct (list_find _ prepared) as [[i x]|] eqn:Hf; [|done].
  apply list_find_tag_elem in Hf as [Hx <-]. destruct Ht. rewrite <-Htags. by apply list_elem_of_fmap_2.
Qed.

Lemma published_default d : defaultOutbound m = Some d → d ∈ outbounds m → d ∈ outbounds m2.
Proof.
  intros Hd Hin. rewrite (proj1 published_outbounds). apply elem_of_app. left.
  apply list_elem_of_filter. split; [|done].
  intros Hr. destruct (removable_spec _ _ (Hrem _ Hr)) as (old & Hold & Hs & _).
  rewrite (consistent_found _ _ _ (owf_table m Hwf) Hin) in Hold. injection Hold as <-.
  rewrite Hd in Hs. simpl in Hs. by apply bool_decide_eq_false in Hs.
Qed.

Lemma published_dependencies : Q → closed_dependencies m → closed_dependencies m2.
Proof.
  intros HQ Hcl x d Hx Hdx. rewrite (proj1 published_outbounds) in Hx. apply elem_of_app in Hx as [Hx|Hx].
  - apply list_elem_of_filter in Hx as [_ Hx]. unfold Outbound.
    destruct (decide (d ∈ oo_Tag <$> os)) as [Hd|Hd].
    + destruct published_tags as [Htags Hnt]. unfold m2. rewrite publish_lookup by done.
      destruct (list_find_prepared os prepared d Htags Hd) as (i & y & ->). eauto.
    + rewrite (published_kept d Hd). case_decide as Hr; [|by apply (Hcl x d Hx Hdx)].
      destruct (removable_spec _ _ (Hrem _ Hr)) as (_ & _ & _ & He & _).
      pose proof (owf_deps m Hwf x d HQ Hx Hdx) as Hin. rewrite He in Hin. by apply not_elem_of_nil in Hin.
  - destruct (prepared_tags endpoint create os prepared remove m Hargs HF) as (_ & _ & Hps).
    destruct (Hps x Hx) as (_ & Hnil & _). rewrite Hnil in Hdx. by apply not_elem_of_nil in Hdx.
Qed.

Lemma published_retired x t :
  t ∈ remove → outboundByTag m !! t = Some x → x ∈ outbounds m ∧ x ∉ outbounds m2.
Proof.
  intros Ht [Hin Htag]%(wf_lookup (owf_table m Hwf)). split; [done|].
  rewrite (proj1 published_outbounds), elem_of_app, list_elem_of_filter.
  intros [[Hnt _]|Hx]; [congruence|].
  destruct (prepared_tags endpoint create os prepared remove m Hargs HF) as (_ & _ & Hps).
  destruct (Hps x Hx) as [Hf _]. apply Hf. by apply list_elem_of_fmap_2.
Qed.
End published.

(** Publishing a prepared user update keeps the manager's invariant,
    makes each added tag answer with the outbound prepared for it, makes each
    removed tag that is not added again unknown to the manager, and changes
    the answer for no other tag.  The default outbound stays the same object
    and stays registered, no outbound loses a dependency, no endpoint's tag is
    taken over, and what is retired is exactly the outbounds that held the
    removed tags, none of which is registered any more. *)
Lemma user_update_published os remove m m1 prepared m2 retired :
  OWF m → ep_valid endpoint → NoDup remove → update_args create os remove m →
  PrepareUserUpdate endpoint answer create os remove m = (m1, Ok prepared) →
  update_publish remove prepared m1 = (m2, retired) →
  OWF m2 ∧
  (∀ o x, o ∈ os → create (oo_Tag o) (oo_Type o) (oo_Options o) = Ok x →
     Outbound endpoint (oo_Tag o) m2 = Some x) ∧
  (∀ t, t ∉ oo_Tag <$> os →
     Outbound endpoint t m2 = if decide (t ∈ remove) then ep_Get endpoint t else Outbound endpoint t m) ∧
  Default m2 = Default m ∧
  (∀ d, Default m = Some d → d ∈ outbounds m → d ∈ outbounds m2) ∧
  (closed_dependencies m → closed_dependencies m2) ∧
  (∀ x, x ∈ ep_Endpoints endpoint → a_Tag x ∉ oo_Tag <$> os) ∧
  retired = (λ t, outboundByTag m !! t) <$> remove ∧
  (∀ x, Some x ∈ retired → x ∈ outbounds m ∧ x ∉ outbounds m2).
Proof.
  intros Hwf Hep Hndr Hargs Hprep Hpub.
  apply PrepareUserUpdate_ok in Hprep as ([l ->] & HF & Hrem).
  assert (m2 = (update_publish remove prepared (set_calls l m)).1) as -> by (by rewrite Hpub).
  assert (retired = (λ t, outboundByTag m !! t) <$> remove) as ->.
  { rewrite <-retire_retired by done. unfold update_publish in Hpub. simpl in Hpub.
    by destruct (retire _ _); simplify_eq. }
  split; [by eapply published_OWF|]. split; [|split; [|split; [|split; [|split; [|split; [|split; [done|]]]]]]].
  - intros o x Ho Hc. unfold Outbound. by erewrite published_added.
  - intros t Ht. unfold Outbound. erewrite published_kept by done. by case_decide.
  - by apply published_outbounds.
  - intros d. by eapply published_default.
  - by eapply published_dependencies.
  - intros x Hx (o & Ht & [i Hi]%list_elem_of_lookup)%list_elem_of_fmap.
    destruct (Forall2_lookup_l _ _ _ _ _ HF Hi) as (y & _ & _ & _ & Hn & _).
    rewrite <-Ht in Hn. rewrite (proj2 (ep_lookup endpoint (a_Tag x) x Hep)) in Hn; done.
  - intros x (t & Ht & Hin)%list_elem_of_fmap. by eapply published_retired.
Qed.
End updating.

(** ** Failing updates *)

Section failing.
Context {E Options : Type} `{EndpointManager E} (endpoint : E).
Context (answer : nat → method → option error).
Context (create : string → string → Options → result Adapter).

(** Apart from the calls of [l0], [l] has calls on the objects [ps] only. *)
Definition touches (l0 : calls) (ps : list Adapter) (l : calls) : Prop :=
  ∀ c, c ∈ l → c ∈ l0 ∨ c.1 ∈ a_id <$> ps.

Lemma touches_call l0 ps l x k : touches l0 ps l → x ∈ ps → touches l0 ps (l ++ [(a_id x, k)]).
Proof.
  intros Hl Hx c [Hc| ->]%elem_of_snoc; [by apply Hl|]. right. by apply (list_elem_of_fmap_2 a_id).
Qed.

Lemma start_upto_touches limit x stages : ∀ l l' err l0 ps,
  start_upto answer limit x stages l = (l', err) → x ∈ ps → touches l0 ps l → touches l0 ps l'.
Proof.
  induction stages as [|st stages IH]; intros l l' err l0 ps; simpl; [by intros [= <- <-]|].
  case_match; [by intros [= <- <-]|]. unfold LegacyStart, invoke.
  destruct (LegacyStart_method x st) as [k|]; [|by apply IH].
  destruct (answer _ _); intros Hs Hx Hl.
  - simplify_eq. by apply touches_call.
  - eapply IH; [done..|]. by apply touches_call.
Qed.

Lemma close_each_calls ps : ∀ l, close_each answer ps l = l ++ ((λ x, (a_id x, MClose)) <$> filter a_closer ps).
Proof.
  induction ps as [|x ps IH]; intros l; simpl; [by rewrite app_nil_r|].
  rewrite IH, filter_cons. unfold Close, invoke. destruct (a_closer x); simpl; [|done]. by rewrite <-app_assoc.
Qed.

(** An object created for one of the options. *)
Definition created_for (os : list (OutboundOption Options)) (x : Adapter) : Prop :=
  ∃ o, o ∈ os ∧ create (oo_Tag o) (oo_Type o) (oo_Options o) = Ok x.

Lemma prepare_one_touches m o prepared l l0 prepared' l' err :
  prepare_one endpoint answer create m o prepared l = (prepared', l', err) →
  touches l0 prepared l →
  touches l0 prepared' l' ∧
  (prepared' = prepared ∨ ∃ x, prepared' = prepared ++ [x] ∧ create (oo_Tag o) (oo_Type o) (oo_Options o) = Ok x).
Proof.
  intros Hp Hl. revert Hp. unfold prepare_one. case_match; [intros [= <- <- <-]; auto|].
  case_match; [intros [= <- <- <-]; auto|].
  destruct (create _ _ _) as [x|e]; [|intros [= <- <- <-]; auto].
  assert (touches l0 (prepared ++ [x]) l) as Hl'.
  { intros c [?|Hc]%Hl; [by left|]. right. rewrite fmap_app. apply elem_of_app. by left. }
  case_match; [intros [= <- <- <-]; eauto|]. destruct (started m); [|intros [= <- <- <-]; eauto].
  destruct (start_upto _ _ _ _ _) as [l1 err1] eqn:Hs. intros [= <- <- <-]. split; [|eauto].
  eapply start_upto_touches; [done| |done]. apply elem_of_snoc. by right.
Qed.

Lemma prepare_all_err m os : ∀ os0 prepared l l0 l' e,
  prepare_all endpoint answer create m os prepared l = (l', Err e) →
  (∀ o, o ∈ os → o ∈ os0) → Forall (created_for os0) prepared → touches l0 prepared l →
  ∃ ps l1, Forall (created_for os0) ps ∧ touches l0 ps l1 ∧ l' = close_each answer ps l1.
Proof.
  induction os as [|o os IH]; intros os0 prepared l l0 l' e; simpl; [done|].
  destruct (prepare_one _ _ _ _ _ _ _) as [[prepared1 l1] err] eqn:Hp. intros Hr Hsub Hc Hl.
  destruct (prepare_one_touches _ _ _ _ l0 _ _ _ Hp Hl) as [Hl1 Hcase].
  assert (Forall (created_for os0) prepared1) as Hc1.
  { destruct Hcase as [->|(x & -> & Hx)]; [done|]. apply Forall_app. split; [done|].
    constructor; [|constructor]. exists o. split; [apply Hsub; by left|done]. }
  destruct err as [e1|].
  - injection Hr as <- _. eauto 10.
  - eapply IH; [done| |done|done]. intros o' Ho'. apply Hsub. by right.
Qed.

Lemma PrepareUserUpdate_err os remove m m1 e :
  PrepareUserUpdate endpoint answer create os remove m = (m1, Err e) → m1 = set_calls (o_calls m1) m.
Proof.
  unfold PrepareUserUpdate. destruct (forallb _ _); [|by intros [= <- _]; destruct m].
  destruct (prepare_all _ _ _ _ _ _ _). by intros [= <- _].
Qed.

(** An update that fails in preparation changes nothing of the manager
    but the calls it made: the registered outbounds, the tag map, the
    dependency map, the default and the stage are those of before; it called
    methods only of outbounds it created itself for the requested options,
    and everything it created that can be closed has been closed. *)
Lemma failed_update_is_clean os remove m m1 e :
  PrepareUserUpdate endpoint answer create os remove m = (m1, Err e) →
  m1 = set_calls (o_calls m1) m ∧
  ∃ ps, Forall (created_for os) ps ∧ touches (o_calls m) ps (o_calls m1) ∧
    ∀ x, x ∈ ps → a_closer x = true → (a_id x, MClose) ∈ o_calls m1.
Proof.
  intros Hp. split; [by eapply PrepareUserUpdate_err|]. revert Hp.
  unfold PrepareUserUpdate. destruct (forallb _ _).
  - destruct (prepare_all _ _ _ _ _ _ _) as [l r] eqn:Hp. intros [= <- ->]. simpl.
    eapply (prepare_all_err _ _ os _ _ (o_calls m)) in Hp as (ps & l1 & Hc & Ht & ->); [|done|constructor|by left].
    exists ps. split; [done|]. rewrite close_each_calls. split.
    + intros c [Hc'|(x & -> & [_ Hx]%list_elem_of_filter)%list_elem_of_fmap]%elem_of_app; [by apply Ht|].
      right. simpl. by apply list_elem_of_fmap_2.
    + intros x Hx Hcl. apply elem_of_app. right. apply (list_elem_of_fmap_2 (λ x, (a_id x, MClose))).
      apply list_elem_of_filter. by rewrite Hcl.
  - intros [= <- _]. exists []. split; [constructor|]. split; [by left|].
    by intros x ?%not_elem_of_nil.
Qed.
End failing.

(** ** Removing a depended-on outbound *)

Lemma Remove_depended {Q} answer m tag x :
  OWFwhen Q m → outboundByTag m !! tag = Some x → entries (dependByTag m) tag ≠ [] →
  ∃ m' msg, Remove answer tag m = (m', Some (ENew msg)) ∧
    outboundByTag m' !! tag = None ∧ x ∉ outbounds m' ∧ o_calls m' = o_calls m.
Proof.
  intros Hwf Hx Hd. unfold Remove. rewrite Hx.
  destruct (remove_by_tag _ _ tag x (owf_table m Hwf) Hx) as (i & -> & _ & Hel).
  pose proof Hx as [_ Htag]%(wf_lookup (owf_table m Hwf)).
  assert (bool_decide (0 < length (entries (dependByTag m) tag)) = true) as Hb.
  { apply bool_decide_eq_true. destruct (entries (dependByTag m) tag); simpl; [done|lia]. }
  destruct (same _ _); simpl; rewrite Hb; eexists _, _; (split; [reflexivity|]); simpl;
    rewrite lookup_delete_eq; (split; [done|]); (split; [|done]); rewrite Hel; tauto.
Qed.

(** [Remove] of an outbound that another one depends on reports the
    dependency, but only after it has taken the outbound out of the manager:
    the tag is unknown afterwards, the outbound is not in the slice any more,
    and it was not closed. *)
Lemma Remove_depended_still_removes answer m tag x :
  OWF m → outboundByTag m !! tag = Some x → entries (dependByTag m) tag ≠ [] →
  ∃ m' msg, Remove answer tag m = (m', Some (ENew msg)) ∧
    outboundByTag m' !! tag = None ∧ x ∉ outbounds m' ∧ o_calls m' = o_calls m.
Proof. apply Remove_depended. Qed.

(** ** Reachable managers *)

Section reachable.
Context {E Options : Type} `{EndpointManager E} (endpoint : E).
Context (answer : nat → method → option error).

(** The operations on a manager that has not been closed, with the outbounds
    the step created.  The constructor registry is asked anew by each operation;
    it answers with new pointers that have the requested tag. *)
Inductive ostep : list Adapter → OManager → OManager → Prop :=
| ostep_create (create : string → string → Options → result Adapter) tag type options m :
    (∀ x, create tag type options = Ok x → fresh_object (outbounds m) tag x) →
    ostep (match create tag type options with Ok x => [x] | Err _ => [] end) m (Create answer create tag type options m).1
| ostep_remove tag m : ostep [] m (Remove answer tag m).1
| ostep_start fallback st m m' err :
    (∀ x, fallback = Ok x → fresh_object (outbounds m) (a_Tag x) x ∧ a_Dependencies x = [] ∧
       outboundByTag m !! a_Tag x = None) →
    Start endpoint answer fallback st m = Some (m', err) → ostep [] m m'
| ostep_failed_update create (os : list (OutboundOption Options)) remove m m' e :
    PrepareUserUpdate endpoint answer create os remove m = (m', Err e) → ostep [] m m'
| ostep_update create (os : list (OutboundOption Options)) remove m m1 prepared m2 retired :
    update_args create os remove m → NoDup remove →
    PrepareUserUpdate endpoint answer create os remove m = (m1, Ok prepared) →
    update_publish remove prepared m1 = (m2, retired) → ostep prepared m m2.

(** A history, with all outbounds it created. *)
Inductive osteps : list Adapter → OManager → OManager → Prop :=
| osteps_refl m : osteps [] m m
| osteps_step created new m m1 m2 : osteps created m m1 → ostep new m1 m2 → osteps (created ++ new) m m2.

(** None of them names a dependency twice. *)
Definition tidy (created : list Adapter) : Prop := ∀ x, x ∈ created → NoDup (a_Dependencies x).

Lemma start_default_OWF {Q} fallback m :
  OWFwhen Q m → (∀ x, fallback = Ok x → fresh_object (outbounds m) (a_Tag x) x ∧ a_Dependencies x = [] ∧
     outboundByTag m !! a_Tag x = None) →
  OWFwhen Q (start_default endpoint fallback m).1.
Proof.
  intros Hwf Hf. unfold start_default. destruct (negb _ && negb _).
  - destruct (ep_Get _ _); [|done]. by apply OWF_set_default.
  - destruct (defaultOutbound m); [done|]. destruct fallback as [x|]; [|done].
    destruct (Hf x eq_refl) as (Hfx & Hnil & Hnew). apply OWF_set_default. split; simpl.
    + apply consistent_insert with (items := outbounds m);
        [apply Hwf|done|apply (wf_nodup (owf_table m Hwf))|].
      by apply (consistent_absent _ _ _ (owf_table m Hwf)).
    + intros y d HQ [Hy| ->]%elem_of_snoc Hd; [by apply Hwf|]. rewrite Hnil in Hd. by apply not_elem_of_nil in Hd.
    + intros y HQ [Hy| ->]%elem_of_snoc; [by apply Hwf|]. rewrite Hnil. constructor.
Qed.

Lemma Start_OWF {Q} fallback st m m' err :
  OWFwhen Q m → (∀ x, fallback = Ok x → fresh_object (outbounds m) (a_Tag x) x ∧ a_Dependencies x = [] ∧
     outboundByTag m !! a_Tag x = None) →
  Start endpoint answer fallback st m = Some (m', err) → OWFwhen Q m'.
Proof.
  intros Hwf Hf. unfold Start. case_match; [by intros [= <- <-]|].
  destruct (decide (st = StartStateStart)) as [Hst|Hst].
  - pose proof (start_default_OWF fallback (set_stage st m) (OWF_set_stage st m Hwf) Hf) as Hd.
    destruct (start_default _ _ _) as [m1 [e|]]; [by intros [= <- <-]|].
    destruct (startOutbounds _ _ _ _) as [[l err1]|]; simpl; [|done]. intros [= <- <-]. by apply OWF_set_calls.
  - destruct (start_each _ _ _ _ _) as [l err1]. intros [= <- <-]. by apply OWF_set_calls, OWF_set_stage.
Qed.

Lemma ostep_OWF Q new m m' : OWFwhen Q m → (Q → tidy new) → ostep new m m' → OWFwhen Q m'.
Proof.
  intros Hwf Htidy Hs. destruct Hs.
  - apply Create_OWF; [done|]. intros x Hx. split; [by eauto|]. intros HQ. apply (Htidy HQ). rewrite Hx. by left.
  - by apply Remove_OWF.
  - by eapply Start_OWF.
  - match goal with Hp : PrepareUserUpdate _ _ _ _ _ _ = _ |- _ =>
      rewrite (PrepareUserUpdate_err _ _ _ _ _ _ _ _ Hp) end.
    by apply OWF_set_calls.
  - match goal with Hp : PrepareUserUpdate _ _ _ _ _ _ = _ |- _ =>
      apply PrepareUserUpdate_ok in Hp as ([l ->] & HF & Hrem) end.
    match goal with Hp : update_publish _ _ _ = (?m2, _) |- _ =>
      replace m2 with (update_publish remove prepared (set_calls l m)).1 by (by rewrite Hp) end.
    by eapply published_OWF.
Qed.

Lemma osteps_OWF Q created m m' : osteps created m m' → OWFwhen Q m → (Q → tidy created) → OWFwhen Q m'.
Proof.
  induction 1 as [m|created new m m1 m2 Hs IH Hstep]; intros Hwf Htidy; [done|]. eapply ostep_OWF; [|..|done].
  - apply IH; [done|]. intros HQ x Hx. apply (Htidy HQ), elem_of_app. by left.
  - intros HQ x Hx. apply (Htidy HQ), elem_of_app. by right.
Qed.

(** C21: the tables of the outbound manager agree.  Whatever sequence of
    creations, removals, stage starts and user updates (failing ones included) a
    manager went through before it is closed, [Outbounds] lists exactly the
    outbounds the tag map knows, once each; and if no outbound that was ever
    created names a dependency twice, a [Remove] of a tag some registered
    outbound depends on never reports success.  (A selector that lists an
    outbound twice breaks the second part: see duplicate_member_forgets.)
    Constructors return new objects with the requested tag; the fallback
    outbound has an unused tag and no dependencies. *)
Theorem outbound_manager_consistent tag0 created m :
  osteps created (NewOManager tag0) m →
  outbounds m ≡ₚ (map_to_list (outboundByTag m)).*2 ∧
  (∀ t x, outboundByTag m !! t = Some x → a_Tag x = t) ∧
  (tidy created → ∀ x d, x ∈ outbounds m → d ∈ a_Dependencies x → (Remove answer d m).2 ≠ None).
Proof.
  intros Hs. pose proof (osteps_OWF (tidy created) _ _ _ Hs (OWF_new tag0) id) as Hwf.
  pose proof (owf_table m Hwf) as Ht. split; [by apply consistent_Permutation|split].
  - intros t x Hx. by apply (wf_lookup Ht) in Hx as [_ ?].
  - intros HQ x d Hx Hd. destruct (outboundByTag m !! d) as [y|] eqn:Hy.
    + destruct (Remove_depended answer m d y Hwf Hy) as (m' & msg & -> & _); [|done].
      pose proof (owf_deps m Hwf x d HQ Hx Hd) as Hin. intros He. rewrite He in Hin. by apply not_elem_of_nil in Hin.
    + unfold Remove. by rewrite Hy.
Qed.
End reachable.

(** ** Concrete runs *)

Module OutRun.
Definition direct (i : nat) (tag : string) (deps : list string) : Adapter :=
  mkAdapter i "direct" tag deps Lifecycle true.
Definition legacy (i : nat) (tag : string) (deps : list string) : Adapter :=
  mkAdapter i "socks" tag deps (Legacy false true true) true.
Definition quiet (_ : nat) (_ : method) : option error := None.
(** One endpoint, which depends on an outbound. *)
Definition wg : Adapter := mkAdapter 100 "wireguard" "wg" ["proxy"] Lifecycle true.
Definition endpoints : Registry := mkRegistry false StartStateInitialize [wg] {[ "wg" := wg ]} [].
(** The constructor: the options are the pointer and the dependencies. *)
Definition create (tag type : string) (o : nat * list string) : result Adapter :=
  if decide (type = "direct") then Ok (direct o.1 tag o.2)
  else if decide (type = "socks") then Ok (legacy o.1 tag o.2)
  else Err (ENew "unknown type").
Definition m0 : OManager := NewOManager "default".
Definition m1 : OManager := (Create quiet create "group" "direct" (1, ["proxy"; "wg"]) m0).1.
Definition m2 : OManager := (Create quiet create "default" "direct" (2, []) m1).1.
Definition m3 : OManager := (Create quiet create "proxy" "socks" (3, []) m2).1.
Definition m4 : OManager := (Create quiet create "user" "socks" (4, []) m3).1.
Definition fallback : result Adapter := Err (ENew "unused").
Definition m5 : OManager :=
  match Start endpoints quiet fallback StartStateStart m4 with Some (m, _) => m | None => m4 end.
Definition os : list (OutboundOption (nat * list string)) :=
  [mkOutboundOption "socks" "user" (5, []); mkOutboundOption "direct" "user2" (6, [])].
Definition bad_os : list (OutboundOption (nat * list string)) :=
  [mkOutboundOption "direct" "user2" (6, []); mkOutboundOption "socks" "user3" (7, ["proxy"])].
Definition rank (t : string) : nat :=
  if decide (t = "group") then 2 else if decide (t = "wg") then 1 else 0.

Lemma endpoints_ok : ep_valid endpoints.
Proof.
  split; simpl; [apply NoDup_singleton|]. intros tag x. rewrite lookup_singleton, list_elem_of_singleton.
  case_decide; simplify_eq/=; (split; [intros [=]; subst; done|]); intros [-> ?]; simplify_eq/=; done.
Qed.

(** A creation step of the run below. *)
Ltac made tag type o m :=
  apply (ostep_create endpoints quiet create tag type o m);
  intros x Hx; vm_compute in Hx; injection Hx as <-; split; [done|by apply (bool_decide_unpack _); vm_compute].

Definition made4 : list Adapter :=
  [direct 1 "group" ["proxy"; "wg"]; direct 2 "default" []; legacy 3 "proxy" []; legacy 4 "user" []].

Lemma run_m4 : osteps (Options := nat * list string) endpoints quiet made4 m0 m4.
Proof.
  apply (osteps_step _ _ [direct 1 "group" ["proxy"; "wg"]; direct 2 "default" []; legacy 3 "proxy" []] [legacy 4 "user" []] m0 m3);
    [|made "user" "socks" (4, @nil string) m3].
  apply (osteps_step _ _ [direct 1 "group" ["proxy"; "wg"]; direct 2 "default" []] [legacy 3 "proxy" []] m0 m2);
    [|made "proxy" "socks" (3, @nil string) m2].
  apply (osteps_step _ _ [direct 1 "group" ["proxy"; "wg"]] [direct 2 "default" []] m0 m1);
    [|made "default" "direct" (2, @nil string) m1].
  apply (osteps_step _ _ [] [direct 1 "group" ["proxy"; "wg"]] m0 m0); [apply osteps_refl|].
  made "group" "direct" (1, ["proxy"; "wg"]) m0.
Qed.

Lemma run : osteps (Options := nat * list string) endpoints quiet made4 m0 m5.
Proof.
  apply (osteps_step _ _ made4 [] m0 m4); [apply run_m4|].
  eapply (ostep_start endpoints quiet fallback StartStateStart m4 m5 None); [done|]. vm_compute. reflexivity.
Qed.

Lemma made4_tidy : tidy made4.
Proof.
  intros x Hx. repeat (apply elem_of_cons in Hx as [->|Hx]; [by apply (bool_decide_unpack _); vm_compute|]).
  by apply not_elem_of_nil in Hx.
Qed.

Lemma args : update_args create os ["user"] m5.
Proof.
  assert (∀ o x, o ∈ os → create (oo_Tag o) (oo_Type o) (oo_Options o) = Ok x →
            (o, x) ∈ [(mkOutboundOption "socks" "user" (5, []), legacy 5 "user" []);
                      (mkOutboundOption "direct" "user2" (6, []), direct 6 "user2" [])]) as Hc.
  { intros o x Ho Hx. repeat (apply elem_of_cons in Ho as [->|Ho];
      [vm_compute in Hx; injection Hx as <-; set_solver|]). by apply not_elem_of_nil in Ho. }
  split.
  - intros o x Ho Hx. specialize (Hc o x Ho Hx). set_solver.
  - intros o x Ho Hx. specialize (Hc o x Ho Hx).
    repeat (apply elem_of_cons in Hc as [[= -> ->]|Hc]; [by apply (bool_decide_unpack _); vm_compute|]).
    by apply not_elem_of_nil in Hc.
  - intros o x o' x' Ho Ho' Hx Hx'. pose proof (Hc o x Ho Hx). pose proof (Hc o' x' Ho' Hx'). set_solver.
  - by apply (bool_decide_unpack _); vm_compute.
  - intros o Ho. repeat (apply elem_of_cons in Ho as [->|Ho]; [by apply (bool_decide_unpack _); vm_compute|]).
    by apply not_elem_of_nil in Ho.
Qed.
End OutRun.

Lemma Start_order_witness :
  ∃ order, order ≡ₚ outbounds OutRun.m5 ++ [OutRun.wg] ∧ ordered order ∧
    o_calls OutRun.m5 = start_calls order ∧
    (o_calls OutRun.m5).*1 = [2; 3; 4; 100; 1].
Proof.
  destruct (Start_order OutRun.endpoints OutRun.quiet OutRun.fallback OutRun.m4 OutRun.m5)
    as (order & Hp & _ & Ho & Hc & _); [vm_compute; reflexivity|].
  exists order. split; [exact Hp|]. split; [exact Ho|]. split; [exact Hc|]. vm_compute. reflexivity.
Defined.

Lemma OutRun_OWF m : osteps (Options := nat * list string) OutRun.endpoints OutRun.quiet OutRun.made4 OutRun.m0 m → OWF m.
Proof. intros Hs. apply (osteps_OWF _ _ _ _ _ _ Hs); [apply OWF_new|]. intros _. apply OutRun.made4_tidy. Qed.

Lemma Start_terminates_witness :
  is_Some (Start OutRun.endpoints OutRun.quiet OutRun.fallback StartStateStart OutRun.m1) ∧
  ∃ m', Start OutRun.endpoints OutRun.quiet OutRun.fallback StartStateStart OutRun.m4 = Some (m', None).
Proof.
  split.
  - apply (Start_terminates OutRun.endpoints OutRun.quiet OutRun.fallback OutRun.rank OutRun.m1).
  - apply (Start_terminates OutRun.endpoints OutRun.quiet OutRun.fallback OutRun.rank OutRun.m4).
    + left. reflexivity.
    + vm_compute. eauto.
    + intros x d Hx Hd. vm_compute in Hx.
      repeat (apply elem_of_cons in Hx as [->|Hx];
        [repeat (apply elem_of_cons in Hd as [->|Hd]; [by apply (bool_decide_unpack _); vm_compute|]);
         by apply not_elem_of_nil in Hd|]).
      by apply not_elem_of_nil in Hx.
    + apply OutRun_OWF, OutRun.run_m4.
    + apply OutRun.endpoints_ok.
    + intros x ->%list_elem_of_singleton. vm_compute. reflexivity.
    + done.
Defined.

Lemma user_update_published_witness :
  ∃ m6 prepared m7 retired,
    PrepareUserUpdate OutRun.endpoints OutRun.quiet OutRun.create OutRun.os ["user"] OutRun.m5 = (m6, Ok prepared) ∧
    update_publish ["user"] prepared m6 = (m7, retired) ∧
    OWF m7 ∧ Default m7 = Some (OutRun.direct 2 "default" []) ∧
    Outbound OutRun.endpoints "user" m7 = Some (OutRun.legacy 5 "user" []) ∧
    retired = [Some (OutRun.legacy 4 "user" [])].
Proof.
  eexists _, _, _, _. split; [vm_compute; reflexivity|]. split; [vm_compute; reflexivity|].
  edestruct (user_update_published OutRun.endpoints OutRun.quiet OutRun.create OutRun.os ["user"] OutRun.m5)
    as (Hwf & Hadd & _ & Hdef & _ & _ & _ & Hret & _).
  - apply OutRun_OWF, OutRun.run.
  - apply OutRun.endpoints_ok.
  - apply NoDup_singleton.
  - apply OutRun.args.
  - vm_compute. reflexivity.
  - vm_compute. reflexivity.
  - split; [exact Hwf|]. split; [exact Hdef|]. split; [|exact Hret].
    apply (Hadd (mkOutboundOption "socks" "user" (5, []))); [left|reflexivity].
Defined.

Lemma failed_update_is_clean_witness :
  ∃ m6 ps,
    PrepareUserUpdate OutRun.endpoints OutRun.quiet OutRun.create OutRun.bad_os ["user"] OutRun.m5
      = (m6, Err (ENew "dynamic user outbounds cannot have dependencies")) ∧
    m6 = set_calls (o_calls m6) OutRun.m5 ∧ touches (o_calls OutRun.m5) ps (o_calls m6) ∧
    (6, MStartStage StartStateInitialize) ∈ o_calls m6 ∧ (6, MClose) ∈ o_calls m6 ∧ (7, MClose) ∈ o_calls m6.
Proof.
  edestruct (failed_update_is_clean OutRun.endpoints OutRun.quiet OutRun.create OutRun.bad_os ["user"]
    OutRun.m5) as (Heq & ps & _ & Ht & _); [vm_compute; reflexivity|].
  eexists _, ps. split; [vm_compute; reflexivity|]. split; [exact Heq|]. split; [exact Ht|].
  split_and!; apply (bool_decide_unpack _); vm_compute; exact I.
Defined.

Lemma Remove_depended_still_removes_witness :
  ∃ m' msg, Remove OutRun.quiet "proxy" OutRun.m5 = (m', Some (ENew msg)) ∧
    outboundByTag m' !! "proxy" = None ∧ OutRun.legacy 3 "proxy" [] ∉ outbounds m' ∧
    o_calls m' = o_calls OutRun.m5.
Proof.
  apply Remove_depended_still_removes.
  - apply OutRun_OWF, OutRun.run.
  - vm_compute. reflexivity.
  - vm_compute. discriminate.
Defined.

Lemma outbound_manager_consistent_witness :
  outbounds OutRun.m5 ≡ₚ (map_to_list (outboundByTag OutRun.m5)).*2 ∧
  (Remove OutRun.quiet "proxy" OutRun.m5).2 ≠ None ∧ length (outbounds OutRun.m5) = 4.
Proof.
  destruct (outbound_manager_consistent OutRun.endpoints OutRun.quiet "default" OutRun.made4 OutRun.m5 OutRun.run)
    as (Hp & _ & Hr).
  split; [exact Hp|]. split; [|vm_compute; reflexivity].
  apply (Hr OutRun.made4_tidy (OutRun.direct 1 "group" ["proxy"; "wg"])); apply (bool_decide_unpack _); vm_compute; exact I.
Defined.

(** A group that lists a member twice makes [Remove] forget the other dependents
    of that member: after [g] is removed, [p] can be removed although [h] still
    depends on it. *)
Example duplicate_member_forgets :
  let step tag deps i m := (Create OutRun.quiet OutRun.create tag "direct" (i, deps) m).1 in
  let m := step "g" ["p"; "p"] 3 (step "h" ["p"] 2 (step "p" [] 1 (NewOManager "p"))) in
  let m' := (Remove OutRun.quiet "g" m).1 in
  OutRun.direct 2 "h" ["p"] ∈ outbounds m' ∧ (Remove OutRun.quiet "p" m').2 = None.
Proof. split; [by apply (bool_decide_unpack _); vm_compute|vm_compute; reflexivity]. Qed.

(** With no configured default tag, replacing the outbound that became the
    default leaves [Default] at the replaced object: it was closed, and it is
    not among the registered outbounds any more. *)
Lemma Create_keeps_stale_default :
  ∃ m m' old, Default m = Some old ∧ old ∈ outbounds m ∧
    Create OutRun.quiet OutRun.create "a" "direct" (2, []) m = (m', None) ∧
    Default m' = Some old ∧ old ∉ outbounds m' ∧ (a_id old, MClose) ∈ o_calls m'.
Proof.
  exists (set_stage StartStateStarted (Create OutRun.quiet OutRun.create "a" "direct" (1, []) (NewOManager "")).1).
  eexists _, (OutRun.direct 1 "a" []). split; [reflexivity|].
  split; [by apply (bool_decide_unpack _); vm_compute|]. split; [vm_compute; reflexivity|].
  split; [reflexivity|]. split; by apply (bool_decide_unpack _); vm_compute.
Qed.
