(* ===== verification/DnsTransports.v ===== *)
(** * The manager of DNS servers

    Model of src/runtime/sing-box/dns/transport_manager.go.  Servers are
    [Adapter]s that have the life cycle of all stages; their dependencies are
    started as those of outbounds are, so the loop is that of OutboundManager.
    The constructor registry and the fallback server are parameters. *)
From S2P Require Import Prelude Registry OutboundManager.

Definition DNSTypeFakeIP : string := "fakeip".

(** [TransportManager]. *)
Record TransportManager := mkTransportManager {
  t_defaultTag : string;
  t_started : bool;
  t_stage : StartStage;
  transports : list Adapter;
  transportByTag : gmap string Adapter;
  t_dependByTag : gmap string (list string);
  defaultTransport : option Adapter;
  fakeIPTransport : option Adapter;
  t_calls : calls;
}.
Definition NewTransportManager (tag : string) : TransportManager :=
  mkTransportManager tag false StartStateInitialize [] ∅ ∅ None None [].

Definition with_calls (l : calls) (m : TransportManager) : TransportManager :=
  mkTransportManager (t_defaultTag m) (t_started m) (t_stage m) (transports m) (transportByTag m) (t_dependByTag m)
    (defaultTransport m) (fakeIPTransport m) l.
Definition with_stage (st : StartStage) (m : TransportManager) : TransportManager :=
  mkTransportManager (t_defaultTag m) true st (transports m) (transportByTag m) (t_dependByTag m)
    (defaultTransport m) (fakeIPTransport m) (t_calls m).
Definition with_table (xs : list Adapter) (byTag : gmap string Adapter) (m : TransportManager) : TransportManager :=
  mkTransportManager (t_defaultTag m) (t_started m) (t_stage m) xs byTag (t_dependByTag m)
    (defaultTransport m) (fakeIPTransport m) (t_calls m).
Definition with_depend (d : gmap string (list string)) (m : TransportManager) : TransportManager :=
  mkTransportManager (t_defaultTag m) (t_started m) (t_stage m) (transports m) (transportByTag m) d
    (defaultTransport m) (fakeIPTransport m) (t_calls m).
Definition with_default (d : option Adapter) (m : TransportManager) : TransportManager :=
  mkTransportManager (t_defaultTag m) (t_started m) (t_stage m) (transports m) (transportByTag m) (t_dependByTag m)
    d (fakeIPTransport m) (t_calls m).
Definition with_fakeip (d : option Adapter) (m : TransportManager) : TransportManager :=
  mkTransportManager (t_defaultTag m) (t_started m) (t_stage m) (transports m) (transportByTag m) (t_dependByTag m)
    (defaultTransport m) d (t_calls m).

Section manager.
Context {Options : Type} (answer : nat → method → option error).
Context (create : string → string → Options → result Adapter).

(** ** Start and Close *)

(** The default server at [StartStateStart]. *)
Definition default_transport (fallback : result Adapter) (m : TransportManager) : TransportManager * option error :=
  if negb (bool_decide (t_defaultTag m = "")) && negb (bool_decide (is_Some (defaultTransport m)))
  then (m, Some (ENew ("default DNS server not found: " +:+ t_defaultTag m)))
  else
    match defaultTransport m with
    | Some _ => (m, None)
    | None =>
        match fallback with
        | Err e => (m, Some (ECause e "default DNS server fallback"))
        | Ok x => (with_default (Some x) (with_table (transports m ++ [x]) (<[a_Tag x := x]> (transportByTag m)) m), None)
        end
    end.

(** [startTransports], with one iteration more than there are servers. *)
Definition startTransports (byTag : gmap string Adapter) (xs : list Adapter) (l : calls) : option (calls * option error) :=
  startOutbounds_loop answer "dns" "server" (S (length xs)) byTag xs ∅ l.

Definition TM_Start (fallback : result Adapter) (st : StartStage) (m : TransportManager) : option (TransportManager * option error) :=
  if t_started m && bool_decide (stage_value st ≤ stage_value (t_stage m)) then Some (m, Some (EPanic "already started"))
  else
    let m := with_stage st m in
    if decide (st = StartStateStart) then
      match default_transport fallback m with
      | (m, Some e) => Some (m, Some e)
      | (m, None) =>
          '(l, err) ← startTransports (transportByTag m) (transports m) (t_calls m);
          Some (with_calls l m, err)
      end
    else
      let '(l, err) := start_each answer "dns" st (transports m) (t_calls m) in
      Some (with_calls l m, err).

(** [Close]; the collected errors are dropped, and the maps are kept. *)
Definition TM_Close (m : TransportManager) : TransportManager * option error :=
  if negb (t_started m) then (m, None)
  else
    (mkTransportManager (t_defaultTag m) false (t_stage m) [] (transportByTag m) (t_dependByTag m) (defaultTransport m)
       (fakeIPTransport m) (close_each answer (transports m) (t_calls m)), None).

Definition TM_Transport (tag : string) (m : TransportManager) : option Adapter := transportByTag m !! tag.
Definition TM_Default (m : TransportManager) : option Adapter := defaultTransport m.
Definition TM_FakeIP (m : TransportManager) : option Adapter := fakeIPTransport m.

(** ** Remove and Create *)

(** What [Remove] does to the default server: the next one takes its place when it
    is the fake-IP server, and is refused when it is not. *)
Definition next_default (x : Adapter) (m : TransportManager) : TransportManager * option error :=
  if same (defaultTransport m) x then
    match transports m with
    | next :: _ =>
        if decide (a_Type next ≠ DNSTypeFakeIP) then (m, Some (ENew "default server cannot be fakeip"))
        else (with_default (Some next) m, None)
    | [] => (with_default None m, None)
    end
  else (m, None).

Definition TM_Remove (tag : string) (m : TransportManager) : TransportManager * option error :=
  match transportByTag m !! tag with
  | None => (m, Some ErrInvalid)
  | Some x =>
      let byTag := delete tag (transportByTag m) in
      match index_of x (transports m) with
      | None => (with_table (transports m) byTag m, Some (EPanic "invalid inbound index"))
      | Some i =>
          match next_default x (with_table (remove_at i (transports m)) byTag m) with
          | (m, Some e) => (m, Some e)
          | (m, None) =>
              let dependBy := entries (t_dependByTag m) tag in
              if bool_decide (0 < length dependBy)
              then (m, Some (ENew ("server[" +:+ tag +:+ "] is depended by " +:+ Join ", " dependBy)))
              else
                let m := with_depend (foldl (undepend tag) (t_dependByTag m) (a_Dependencies x)) m in
                (if t_started m then with_calls (Close answer x (t_calls m)).1 m else m, None)
          end
      end
  end.

(** The end of [Create], from the append on: the server is in the tables when the
    choice of the default or the second fake-IP server is refused. *)
Definition register_default (tag : string) (x : Adapter) (m : TransportManager) : TransportManager * option error :=
  if bool_decide (tag = t_defaultTag m) || (bool_decide (t_defaultTag m = "") && negb (bool_decide (is_Some (defaultTransport m)))) then
    if decide (a_Type x = DNSTypeFakeIP) then (m, Some (ENew "default server cannot be fakeip"))
    else (with_default (Some x) m, None)
  else (m, None).
Definition register_fakeip (x : Adapter) (m : TransportManager) : TransportManager * option error :=
  if decide (a_Type x = DNSTypeFakeIP) then
    if bool_decide (is_Some (fakeIPTransport m)) then (m, Some (ENew "multiple fakeip server are not supported"))
    else (with_fakeip (Some x) m, None)
  else (m, None).
Definition register (tag : string) (x : Adapter) (xs : list Adapter) (m : TransportManager) : TransportManager * option error :=
  let m := with_table (xs ++ [x]) (<[tag := x]> (transportByTag m)) m in
  let m := with_depend (foldl (depend tag) (t_dependByTag m) (a_Dependencies x)) m in
  match register_default tag x m with
  | (m, Some e) => (m, Some e)
  | (m, None) => register_fakeip x m
  end.

Definition TM_Create (tag type : string) (options : Options) (m : TransportManager) : TransportManager * option error :=
  if decide (tag = "") then (m, Some ErrInvalid)
  else
    match create tag type options with
    | Err e => (m, Some e)
    | Ok x =>
        match (if t_started m then start_stages answer "dns" x ListStartStages (t_calls m) else (t_calls m, None)) with
        | (l, Some e) => (with_calls l m, Some e)
        | (l, None) =>
            match transportByTag m !! tag with
            | None => register tag x (transports m) (with_calls l m)
            | Some old =>
                match (if t_started m then Close answer old l else (l, None)) with
                | (l, Some e) => (with_calls l m, Some (ECause e ("close " +:+ display "dns" old)))
                | (l, None) =>
                    match index_of old (transports m) with
                    | None => (with_calls l m, Some (EPanic "invalid inbound index"))
                    | Some i => register tag x (remove_at i (transports m)) (with_calls l m)
                    end
                end
            end
        end
    end.
End manager.

(** ** The tables *)

(** The part of the manager it shares with that of outbounds. *)
Definition as_outbounds (m : TransportManager) : OManager :=
  mkOManager (t_defaultTag m) (t_started m) (t_stage m) (transports m) (transportByTag m) (t_dependByTag m)
    (defaultTransport m) (t_calls m).

(** The tables agree, and what is kept as the fake-IP server is one.  That every
    dependency is registered holds under a condition, as for outbounds. *)
Record TWFwhen (Q : Prop) (m : TransportManager) : Prop := {
  twf_tables : OWFwhen Q (as_outbounds m);
  twf_fakeip x : fakeIPTransport m = Some x → a_Type x = DNSTypeFakeIP;
}.
Arguments twf_tables {Q}.
Arguments twf_fakeip {Q}.

Definition same_tables (m m' : TransportManager) : Prop :=
  transports m' = transports m ∧ transportByTag m' = transportByTag m ∧ t_dependByTag m' = t_dependByTag m ∧
  fakeIPTransport m' = fakeIPTransport m.
Lemma TWF_same {Q} m m' : same_tables m m' → TWFwhen Q m → TWFwhen Q m'.
Proof. intros (H1 & H2 & H3 & H4) [Ht Hf]. split; [by eapply OWF_tables; [..|exact Ht]|by rewrite H4]. Qed.
Lemma TWF_new {Q} tag : TWFwhen Q (NewTransportManager tag).
Proof. split; [eapply (OWF_tables (NewOManager tag)); [done..|apply OWF_new]|done]. Qed.

Section theorems.
Context {Q : Prop}.
Notation TWF := (TWFwhen Q).
Context {Options : Type} (answer : nat → method → option error).

Lemma register_TWF tag x xs m :
  TWF m → fresh_object (transports m) tag x → (Q → NoDup (a_Dependencies x)) → NoDup (a_id <$> xs) →
  (∀ y, y ∈ xs ↔ y ∈ transports m ∧ a_Tag y ≠ tag) → TWF (register tag x xs m).1.
Proof.
  intros [Ht Hf] Hfresh Hdeps Hnd Hxs. unfold register. set (m1 := with_depend _ _).
  assert (OWFwhen Q (as_outbounds m1)) as Hm1.
  { eapply OWF_tables; [..|exact (create_register_OWF tag x xs (as_outbounds m) Ht Hfresh Hdeps Hnd Hxs)];
      unfold create_register; by case_match. }
  assert (TWF m1) as Hm by (by split).
  assert (TWF (register_default tag x m1).1) as Hm2.
  { unfold register_default. case_match; [|done]. destruct (decide (a_Type x = DNSTypeFakeIP)); [done|]. by apply (TWF_same m1). }
  destruct (register_default tag x m1) as [m2 [e|]]; [done|]. unfold register_fakeip. case_decide; [|done].
  case_match; [done|]. split; [by eapply OWF_tables; [..|apply Hm2]|]. by intros y [= <-].
Qed.
Lemma TM_Create_TWF create tag type (options : Options) m :
  TWF m → (∀ x, create tag type options = Ok x → fresh_object (transports m) tag x ∧ (Q → NoDup (a_Dependencies x))) →
  TWF (TM_Create answer create tag type options m).1.
Proof.
  intros Hm Hc. pose proof (owf_table _ (twf_tables m Hm)) as Ht. simpl in Ht. unfold TM_Create. case_decide; [done|].
  destruct (create tag type options) as [x|e]; [|done]. destruct (Hc x eq_refl) as [Hf Hnx].
  destruct (if t_started m then _ else _) as [l [e|]]; [by apply (TWF_same m)|].
  destruct (transportByTag m !! tag) as [old|] eqn:Hold.
  - destruct (if t_started m then _ else _) as [l' [e|]]; [by apply (TWF_same m)|].
    destruct (remove_by_tag _ _ tag old Ht Hold) as (i & -> & Hnd & Hel).
    apply register_TWF; [by apply (TWF_same m)|done..].
  - apply register_TWF; [by apply (TWF_same m)|done|done|apply (wf_nodup Ht)|]. by apply (consistent_absent _ _ _ Ht).
Qed.

Lemma next_default_tables x m : same_tables m (next_default x m).1.
Proof. unfold next_default. case_match; [|done]. case_match; [done|]. by case_decide. Qed.
Lemma TM_Remove_TWF tag m : TWF m → TWF (TM_Remove answer tag m).1.
Proof.
  intros [Ht Hf]. unfold TM_Remove. destruct (transportByTag m !! tag) as [x|] eqn:Hx; [|done].
  destruct (remove_by_tag _ _ tag x (owf_table _ Ht) Hx) as (i & Hi & _ & _). simpl in Hi. rewrite Hi.
  destruct (removed_OWF tag x i (as_outbounds m) Ht Hx Hi) as [Hm1 Hm3].
  pose proof (next_default_tables x (with_table (remove_at i (transports m)) (delete tag (transportByTag m)) m)) as Hn.
  destruct (next_default _ _) as [m2 err]. cbn [fst] in Hn. pose proof Hn as (H1 & H2 & H3 & H4). cbn in H1, H2, H3, H4.
  assert (TWF m2) as Hm2.
  { apply (TWF_same _ _ Hn). split; [by eapply OWF_tables; [..|exact Hm1]|done]. }
  destruct err; [done|]. case_match; [done|].
  assert (∀ l, TWF (with_calls l (with_depend (foldl (undepend tag) (t_dependByTag m2) (a_Dependencies x)) m2))) as Hm4.
  { intros l. split; [|by simpl; rewrite H4]. eapply OWF_tables; [..|exact Hm3]; simpl; by rewrite ?H1, ?H2, ?H3. }
  simpl. case_match; [apply Hm4|]. apply (Hm4 (t_calls m2)).
Qed.

(** A fallback server has a tag of its own and depends on nothing. *)
Definition fallback_ok (fallback : result Adapter) (m : TransportManager) : Prop :=
  ∀ x, fallback = Ok x → fresh_object (transports m) (a_Tag x) x ∧ a_Dependencies x = [] ∧ transportByTag m !! a_Tag x = None.
Lemma default_transport_TWF fallback m : TWF m → fallback_ok fallback m → TWF (default_transport fallback m).1.
Proof.
  intros Hm Hfb. unfold default_transport. case_match; [done|]. destruct (defaultTransport m); [done|].
  destruct fallback as [x|]; [|done]. destruct (Hfb x eq_refl) as (Hfresh & Hdeps & Hnew). destruct Hm as [Ht Hf].
  split; [|done]. pose proof (owf_table _ Ht) as Hc. simpl in Hc.
  pose proof (create_register_OWF (a_Tag x) x (transports m) (as_outbounds m) Ht Hfresh) as Hreg.
  rewrite Hdeps in Hreg. specialize (Hreg (λ _, NoDup_nil_2) (wf_nodup Hc) (consistent_absent _ _ _ Hc Hnew)).
  eapply OWF_tables; [..|exact Hreg]; unfold create_register; rewrite Hdeps; by case_match.
Qed.
Lemma TM_Start_TWF fallback st m m' err :
  TWF m → fallback_ok fallback m → TM_Start answer fallback st m = Some (m', err) → TWF m'.
Proof.
  intros Hm Hfb. unfold TM_Start. case_match; [by intros [= <- <-]|].
  assert (TWF (with_stage st m)) as Hst by (by apply (TWF_same m)). destruct (decide (st = StartStateStart)) as [Est|Est].
  - pose proof (default_transport_TWF fallback _ Hst Hfb) as Hd.
    destruct (default_transport _ _) as [m1 [e|]]; [by intros [= <- <-]|].
    destruct (startTransports _ _ _ _) as [[l err']|]; simpl; [|done]. intros [= <- <-]. by apply (TWF_same m1).
  - destruct (start_each _ _ _ _ _) as [l err']. intros [= <- <-]. by apply (TWF_same (with_stage st m)).
Qed.

(** ** Starting *)

Lemma default_transport_effect fallback m m' : default_transport fallback m = (m', None) →
  t_calls m' = t_calls m ∧ is_Some (defaultTransport m').
Proof.
  unfold default_transport. case_match; [done|]. destruct (defaultTransport m) eqn:E; [intros [= <-]; rewrite E; eauto|].
  destruct fallback; [|done]. intros [= <-]. simpl. eauto.
Qed.
Lemma startTransports_total byTag xs l : is_Some (startTransports answer byTag xs l).
Proof. eapply startOutbounds_loop_total; [apply (started_in_nil xs l)|]. rewrite size_empty. lia. Qed.
Lemma TM_Start_total fallback st m : is_Some (TM_Start answer fallback st m).
Proof.
  unfold TM_Start. case_match; [eauto|]. destruct (decide _); [|destruct (start_each _ _ _ _ _); eauto].
  destruct (default_transport _ _) as [m1 [err|]]; [eauto|].
  destruct (startTransports_total (transportByTag m1) (transports m1) (t_calls m1)) as [[l err] ->]. simpl. eauto.
Qed.
Lemma TM_Start_order fallback m m' : TM_Start answer fallback StartStateStart m = Some (m', None) →
  ∃ order, order ≡ₚ transports m' ∧ NoDup (a_Tag <$> order) ∧ ordered order ∧
    t_calls m' = t_calls m ++ start_calls order ∧ is_Some (TM_Default m').
Proof.
  unfold TM_Start. case_match; [done|]. rewrite decide_True by done.
  destruct (default_transport _ _) as [m1 [e|]] eqn:Hd; [done|]. apply default_transport_effect in Hd as [Hcalls Hdef]. simpl in Hcalls.
  destruct (startTransports _ _ _ _) as [[l err]|] eqn:Hs; simpl; [|done]. intros [= <- ->].
  eapply startOutbounds_loop_ok in Hs as (order & Hp & Hnd & Ho & ->); [|apply started_in_nil].
  exists order. simpl. rewrite Hcalls. eauto 10.
Qed.
(** Servers whose dependencies are there and have no circle start, when none of
    them fails. *)
Lemma TM_Start_succeeds fallback rank m : TWF m → t_started m = false ∨ t_stage m = StartStateInitialize →
  is_Some (defaultTransport m) → ranked rank (transports m) →
  (∀ x k, x ∈ transports m → LegacyStart_method x StartStateStart = Some k → answer (a_id x) k = None) →
  ∃ m', TM_Start answer fallback StartStateStart m = Some (m', None).
Proof.
  intros Hm Hst [d Hd] Hr Hans. unfold TM_Start.
  assert (t_started m && bool_decide (stage_value StartStateStart ≤ stage_value (t_stage m)) = false) as ->.
  { by destruct Hst as [-> | ->]; [|destruct (t_started m)]. }
  rewrite decide_True by done.
  assert (default_transport fallback (with_stage StartStateStart m) = (with_stage StartStateStart m, None)) as ->.
  { unfold default_transport. simpl. rewrite Hd, (bool_decide_true (is_Some (Some d))), andb_false_r by eauto. done. }
  destruct (startTransports_total (transportByTag m) (transports m) (t_calls m)) as [[l err] Hs]. simpl. rewrite Hs. simpl.
  pose proof (startOutbounds_loop_complete answer _ _ rank _ _ _ Hr (consistent_nodup_tags _ _ (owf_table _ (twf_tables m Hm))) Hans
                _ _ _ _ _ (started_in_nil _ _) Hs) as Herr. simpl in Herr. subst err. eauto.
Qed.

(** ** Reachable managers *)

(** The operations on a manager that has not been closed, with the servers the
    step created.  Constructors answer with new objects that have the requested
    tag; the fallback server has an unused tag and no dependencies. *)
Inductive tstep : list Adapter → TransportManager → TransportManager → Prop :=
| tstep_create (create : string → string → Options → result Adapter) tag type options m :
    (∀ x, create tag type options = Ok x → fresh_object (transports m) tag x) →
    tstep (match create tag type options with Ok x => [x] | Err _ => [] end) m (TM_Create answer create tag type options m).1
| tstep_remove tag m : tstep [] m (TM_Remove answer tag m).1
| tstep_start fallback st m m' err :
    fallback_ok fallback m → TM_Start answer fallback st m = Some (m', err) → tstep [] m m'.

(** A history, with all servers it created. *)
Inductive tsteps : list Adapter → TransportManager → TransportManager → Prop :=
| tsteps_refl m : tsteps [] m m
| tsteps_step created new m m1 m2 : tsteps created m m1 → tstep new m1 m2 → tsteps (created ++ new) m m2.

(** None of them names a dependency twice. *)
Definition tidy_servers (created : list Adapter) : Prop := ∀ x, x ∈ created → NoDup (a_Dependencies x).

Lemma tstep_TWF new m m' : TWF m → (Q → tidy_servers new) → tstep new m m' → TWF m'.
Proof.
  intros Hm Htidy Hs. destruct Hs; [|by apply TM_Remove_TWF|by eapply TM_Start_TWF].
  apply TM_Create_TWF; [done|]. intros x Hx. split; [by eauto|]. intros HQ. apply (Htidy HQ). rewrite Hx. by left.
Qed.
Lemma tsteps_TWF created m m' : tsteps created m m' → TWF m → (Q → tidy_servers created) → TWF m'.
Proof.
  induction 1 as [m|created new m m1 m2 Hs IH Hstep]; intros Hm Htidy; [done|]. eapply tstep_TWF; [|..|done].
  - apply IH; [done|]. intros HQ x Hx. apply (Htidy HQ), elem_of_app. by left.
  - intros HQ x Hx. apply (Htidy HQ), elem_of_app. by right.
Qed.

Lemma TM_Remove_depended m tag x : TWF m → Q → x ∈ transports m → tag ∈ a_Dependencies x → (TM_Remove answer tag m).2 ≠ None.
Proof.
  intros Hm HQ Hx Hd. pose proof (owf_deps _ (twf_tables m Hm) x tag HQ Hx Hd) as Hin. simpl in Hin.
  unfold TM_Remove. destruct (transportByTag m !! tag) as [y|] eqn:Hy; [|done].
  destruct (index_of y (transports m)) as [i|]; [|done].
  pose proof (next_default_tables y (with_table (remove_at i (transports m)) (delete tag (transportByTag m)) m)) as (_ & _ & H3 & _).
  destruct (next_default _ _) as [m2 [e|]]; [done|]. cbn in H3. rewrite H3.
  rewrite bool_decide_true; [done|]. destruct (entries _ _); [by apply not_elem_of_nil in Hin|simpl; lia].
Qed.
End theorems.

Section reachable.
Context {Options : Type} (answer : nat → method → option error).

(** C9: the tables of the manager of DNS servers agree.  Whatever sequence of
    creations, removals and stage starts, failing ones included, it went through
    before it is closed: it lists exactly the servers its tag map knows, once
    each; the server it keeps for fake addresses is a fake-IP server; if no
    server that was ever created names a dependency twice, removing one that
    another depends on never reports success; the start stage always ends; it
    succeeds when it is due, a default server is set, all dependencies are there
    without a circle and no server fails; and when it succeeds, it has started
    every server once, after its dependencies, and there is a default server.
    Constructors return new objects with the requested tag; the fallback server
    has an unused tag and no dependencies. *)
Theorem dns_servers_consistent tag0 fallback created m :
  tsteps (Options := Options) answer created (NewTransportManager tag0) m →
  transports m ≡ₚ (map_to_list (transportByTag m)).*2 ∧ (∀ t x, TM_Transport t m = Some x → a_Tag x = t) ∧
  (∀ x, TM_FakeIP m = Some x → a_Type x = DNSTypeFakeIP) ∧
  (tidy_servers created → ∀ x d, x ∈ transports m → d ∈ a_Dependencies x → (TM_Remove answer d m).2 ≠ None) ∧
  is_Some (TM_Start answer fallback StartStateStart m) ∧
  (∀ rank, t_started m = false ∨ t_stage m = StartStateInitialize → is_Some (TM_Default m) → ranked rank (transports m) →
     (∀ x k, x ∈ transports m → LegacyStart_method x StartStateStart = Some k → answer (a_id x) k = None) →
     ∃ m', TM_Start answer fallback StartStateStart m = Some (m', None)) ∧
  (∀ m', TM_Start answer fallback StartStateStart m = Some (m', None) →
     ∃ order, order ≡ₚ transports m' ∧ NoDup (a_Tag <$> order) ∧ ordered order ∧
       t_calls m' = t_calls m ++ start_calls order ∧ is_Some (TM_Default m')).
Proof.
  intros Hs. pose proof (tsteps_TWF (Q := tidy_servers created) answer _ _ _ Hs (TWF_new tag0) id) as Hm.
  pose proof (owf_table _ (twf_tables m Hm)) as Ht. split_and!.
  - by apply consistent_Permutation.
  - intros t x Hx. by apply (wf_lookup Ht) in Hx as [_ ?].
  - intros x. apply (twf_fakeip m Hm).
  - intros HQ x d. by apply (TM_Remove_depended (Q := tidy_servers created)).
  - apply TM_Start_total.
  - intros rank. by apply (TM_Start_succeeds (Q := tidy_servers created)).
  - intros m'. apply TM_Start_order.
Qed.

(** ** Removing the default server *)

(** The guard is the wrong way round.  With another kind of server next in line,
    removing the default one fails, yet takes it out of the tables; it stays the
    default and is not closed. *)
Lemma default_removed_and_kept {Q} m tag x next rest :
  TWFwhen Q m → TM_Transport tag m = Some x → TM_Default m = Some x → transports m = x :: next :: rest → a_Type next ≠ DNSTypeFakeIP →
  ∃ m', TM_Remove answer tag m = (m', Some (ENew "default server cannot be fakeip")) ∧
    TM_Transport tag m' = None ∧ TM_Default m' = Some x ∧ x ∉ transports m' ∧ t_calls m' = t_calls m.
Proof.
  intros Hm Hx Hdef Hxs Hnext. unfold TM_Transport, TM_Default in *. unfold TM_Remove. rewrite Hx, Hxs. simpl. rewrite decide_True by done.
  unfold next_default, same. simpl. rewrite Hdef, bool_decide_true by done. rewrite decide_True by done.
  eexists. split; [done|]. simpl. rewrite lookup_delete_eq. split_and!; [done|done| |done].
  pose proof (wf_nodup (owf_table _ (twf_tables m Hm))) as Hnd. simpl in Hnd. rewrite Hxs in Hnd. simpl in Hnd.
  apply NoDup_cons in Hnd as [Hnot _]. intros Hin. apply Hnot. exact (list_elem_of_fmap_2 a_id (next :: rest) x Hin).
Qed.
(** With the fake-IP server next in line, that becomes the default. *)
Lemma fakeip_becomes_default m tag x next rest :
  TM_Transport tag m = Some x → TM_Default m = Some x → transports m = x :: next :: rest → a_Type next = DNSTypeFakeIP →
  entries (t_dependByTag m) tag = [] → ∃ m', TM_Remove answer tag m = (m', None) ∧ TM_Default m' = Some next.
Proof.
  intros Hx Hdef Hxs Hnext Hdep. unfold TM_Transport, TM_Default in *. unfold TM_Remove. rewrite Hx, Hxs. simpl. rewrite decide_True by done.
  unfold next_default, same. simpl. rewrite Hdef, bool_decide_true by done. rewrite decide_False by auto. simpl. rewrite Hdep. simpl.
  eexists. split; [done|]. by case_match.
Qed.
End reachable.

(** ** A run *)

Module TransportRun.
Definition server (i : nat) (type tag : string) (deps : list string) : Adapter := mkAdapter i type tag deps Lifecycle true.
Definition quiet (_ : nat) (_ : method) : option error := None.
Definition create (tag type : string) (o : nat * list string) : result Adapter := Ok (server o.1 type tag o.2).
Definition m1 : TransportManager := (TM_Create quiet create "remote" "tls" (1, ["local"]) (NewTransportManager "")).1.
Definition m2 : TransportManager := (TM_Create quiet create "local" "udp" (2, []) m1).1.
Definition m3 : TransportManager := (TM_Create quiet create "fake" "fakeip" (3, []) m2).1.
Definition fallback : result Adapter := Err (ENew "unused").

(** A creation step of the run below. *)
Ltac made tag type o m :=
  apply (tstep_create quiet create tag type o m);
  intros x Hx; vm_compute in Hx; injection Hx as <-; split; [done|by apply (bool_decide_unpack _); vm_compute].
Definition servers : list Adapter := [server 1 "tls" "remote" ["local"]; server 2 "udp" "local" []; server 3 "fakeip" "fake" []].
Lemma transports_run : tsteps (Options := nat * list string) quiet servers (NewTransportManager "") m3.
Proof.
  apply (tsteps_step _ [server 1 "tls" "remote" ["local"]; server 2 "udp" "local" []] [server 3 "fakeip" "fake" []] _ m2);
    [|made "fake" "fakeip" (3, @nil string) m2].
  apply (tsteps_step _ [server 1 "tls" "remote" ["local"]] [server 2 "udp" "local" []] _ m1);
    [|made "local" "udp" (2, @nil string) m1].
  apply (tsteps_step _ [] [server 1 "tls" "remote" ["local"]] _ (NewTransportManager "")); [apply tsteps_refl|].
  made "remote" "tls" (1, ["local"]) (NewTransportManager "").
Qed.
Lemma servers_tidy : tidy_servers servers.
Proof.
  intros x Hx. repeat (apply elem_of_cons in Hx as [->|Hx]; [by apply (bool_decide_unpack _); vm_compute|]).
  by apply not_elem_of_nil in Hx.
Qed.
End TransportRun.

(** The theorem at three servers of which one depends on another: the start
    succeeds and the first comes after the second. *)
Lemma dns_servers_consistent_witness :
  ∃ m', TM_Start TransportRun.quiet TransportRun.fallback StartStateStart TransportRun.m3 = Some (m', None) ∧
    is_Some (TM_Default m') ∧ (TM_Remove TransportRun.quiet "local" TransportRun.m3).2 ≠ None.
Proof.
  destruct (dns_servers_consistent TransportRun.quiet "" TransportRun.fallback TransportRun.servers TransportRun.m3
    TransportRun.transports_run)
    as (_ & _ & _ & Hrem & _ & Hstart & Hdone).
  destruct (Hstart (λ t, if decide (t = "remote") then 1 else 0)) as [m' Hm'].
  - left. reflexivity.
  - vm_compute. eauto.
  - intros x d Hx Hd. change (transports TransportRun.m3) with
      [TransportRun.server 1 "tls" "remote" ["local"]; TransportRun.server 2 "udp" "local" []; TransportRun.server 3 "fakeip" "fake" []] in *.
    repeat (apply elem_of_cons in Hx as [->|Hx]; [simpl in Hd; set_solver|]). by apply not_elem_of_nil in Hx.
  - done.
  - exists m'. split; [done|]. destruct (Hdone m' Hm') as (order & _ & _ & _ & _ & Hd). split; [done|].
    apply (Hrem TransportRun.servers_tidy (TransportRun.server 1 "tls" "remote" ["local"])); vm_compute; by left.
Defined.

(** Removing the default server of the run. *)
Example default_server_is_kept :
  let '(m, err) := TM_Remove TransportRun.quiet "remote" TransportRun.m3 in
  err = Some (ENew "default server cannot be fakeip") ∧ TM_Transport "remote" m = None ∧ a_Tag <$> TM_Default m = Some "remote".
Proof. vm_compute. done. Qed.

(** A server that names its resolver twice, as a legacy server with an address
    resolver does, makes [Remove] forget the other servers that need it. *)
Example duplicate_resolver_forgets :
  let step tag deps i m := (TM_Create TransportRun.quiet TransportRun.create tag "udp" (i, deps) m).1 in
  let m := step "g" ["r"; "r"] 3 (step "h" ["r"] 2 (step "r" [] 1 (step "d" [] 0 (NewTransportManager "d")))) in
  let m' := (TM_Remove TransportRun.quiet "g" m).1 in
  TransportRun.server 2 "udp" "h" ["r"] ∈ transports m' ∧ (TM_Remove TransportRun.quiet "r" m').2 = None.
Proof. split; [by apply (bool_decide_unpack _); vm_compute|vm_compute; reflexivity]. Qed.
