(* ===== verification/Bytes.v ===== *)
(** * Bytes and readers

    Bytes of the wire formats, big-endian and variable-length integers, and
    readers over a byte stream that fail as [io.ReadFull] and
    [binary.ReadUvarint] do. *)
From S2P Require Import Prelude.
From Stdlib Require Import Ascii NArith.

Notation byte := ascii (only parsing).
Notation bytes := (list ascii) (only parsing).

(** [uint8(z)] and its value. *)
Definition u8 (z : Z) : byte := ascii_of_N (Z.to_N (z mod 256)).
Definition val (b : byte) : Z := Z.of_N (N_of_ascii b).

Lemma val_range b : (0 <= val b < 256)%Z.
Proof. unfold val. pose proof (N_ascii_bounded b). lia. Qed.

Lemma val_u8 z : val (u8 z) = (z mod 256)%Z.
Proof.
  unfold val, u8. pose proof (Z.mod_pos_bound z 256 ltac:(lia)).
  rewrite N_ascii_embedding; [|apply N2Z.inj_lt; rewrite Z2N.id; lia]. rewrite Z2N.id; lia.
Qed.

Lemma u8_val b : u8 (val b) = b.
Proof.
  unfold u8. rewrite Z.mod_small by apply val_range. unfold val. rewrite N2Z.id. apply ascii_N_embedding.
Qed.

Lemma val_u8_small z : (0 <= z < 256)%Z → val (u8 z) = z.
Proof. intros. by rewrite val_u8, Z.mod_small. Qed.

(** ** Big-endian integers *)

(** [binary.BigEndian.PutUint16] of [uint16(z)]. *)
Definition be16 (z : Z) : bytes := [u8 (Z.shiftr z 8); u8 z].
Definition of_be16 (a b : byte) : Z := Z.lor (Z.shiftl (val a) 8) (val b).

Lemma lor_shiftl_add a b n : (0 <= n)%Z → (0 <= b < 2 ^ n)%Z → Z.lor (Z.shiftl a n) b = (a * 2 ^ n + b)%Z.
Proof.
  intros Hn Hb. rewrite Z.shiftl_mul_pow2 by done. rewrite <-Z.add_lor_land, <-Z.shiftl_mul_pow2 by done.
  assert (Z.land (Z.shiftl a n) b = 0)%Z as ->; [|lia].
  apply Z.bits_inj'. intros i Hi. rewrite Z.land_spec, Z.shiftl_spec, Z.bits_0 by done.
  destruct (decide (i < n)%Z).
  - by rewrite Z.testbit_neg_r by lia.
  - destruct (decide (b = 0)%Z) as [->|]; [by rewrite Z.bits_0, andb_false_r|].
    rewrite (Z.bits_above_log2 b i), andb_false_r; [done|lia|].
    assert (Z.log2 b < n)%Z; [|lia]. apply Z.log2_lt_pow2; lia.
Qed.

Lemma of_be16_val a b : of_be16 a b = (val a * 256 + val b)%Z.
Proof. unfold of_be16. rewrite lor_shiftl_add; [done|lia|]. apply val_range. Qed.

Lemma of_be16_range a b : (0 <= of_be16 a b < 65536)%Z.
Proof. rewrite of_be16_val. pose proof (val_range a). pose proof (val_range b). lia. Qed.

Lemma of_be16_be16 z : of_be16 (u8 (Z.shiftr z 8)) (u8 z) = (z mod 65536)%Z.
Proof.
  rewrite of_be16_val, !val_u8, Z.shiftr_div_pow2 by lia. change (2 ^ 8)%Z with 256%Z.
  Z.to_euclidean_division_equations; lia.
Qed.

(** ** Readers *)

Definition reader (A : Type) : Type := bytes → result (A * bytes).

Definition rret {A} (a : A) : reader A := λ s, Ok (a, s).
Definition rfail {A} (e : error) : reader A := λ _, Err e.
Definition rbind {A B} (r : reader A) (k : A → reader B) : reader B :=
  λ s, match r s with Ok (a, s') => k a s' | Err e => Err e end.
Notation "'let!' x := r 'in' k" := (rbind r (λ x, k))
  (at level 10, x pattern, r at level 100, k at level 200,
   format "'[v' 'let!'  x  :=  r  'in'  '/' k ']'") : go_scope.

Definition EOF : error := ENew "EOF".
Definition ErrUnexpectedEOF : error := ENew "unexpected EOF".

(** [ReadByte], and [binary.Read] of a byte or a [uint16]. *)
Definition read_byte : reader byte := λ s, match s with b :: s => Ok (b, s) | [] => Err EOF end.
Definition read_be16 : reader Z := λ s,
  match s with a :: b :: s => Ok (of_be16 a b, s) | [_] => Err ErrUnexpectedEOF | [] => Err EOF end.

(** [io.ReadFull] into [n] bytes. *)
Definition read_full (n : nat) : reader bytes := λ s,
  if decide (n <= length s) then Ok (take n s, drop n s)
  else if decide (s = []) then Err EOF else Err ErrUnexpectedEOF.

Lemma rbind_ok {A B} (r : reader A) (k : A → reader B) s b s' :
  rbind r k s = Ok (b, s') ↔ ∃ a s1, r s = Ok (a, s1) ∧ k a s1 = Ok (b, s').
Proof. unfold rbind. destruct (r s) as [[a s1]|]; naive_solver. Qed.

(** One step of a reader whose first part is known. *)
Lemma rbind_step {A B} (r : reader A) (k : A → reader B) s a s' : r s = Ok (a, s') → rbind r k s = k a s'.
Proof. unfold rbind. by intros ->. Qed.

Lemma read_full_app b s : read_full (length b) (b ++ s) = Ok (b, s).
Proof. unfold read_full. rewrite decide_True by (rewrite length_app; lia). by rewrite take_app_length, drop_app_length. Qed.

Lemma read_be16_app z s : (0 <= z < 65536)%Z → read_be16 (be16 z ++ s) = Ok (z, s).
Proof. intros Hz. unfold be16. cbn [app read_be16]. by rewrite of_be16_be16, Z.mod_small. Qed.

(** ** Variable-length integers *)

(** [binary.PutUvarint]: the loop takes at most ten bytes for a [uint64]. *)
Fixpoint put_uvarint (fuel : nat) (x : Z) : bytes :=
  match fuel with
  | 0 => []
  | S fuel => if decide (128 <= x)%Z then u8 (Z.lor x 128) :: put_uvarint fuel (Z.shiftr x 7) else [u8 x]
  end.
Definition PutUvarint : Z → bytes := put_uvarint 10.

(** [binary.ReadUvarint], after [i] bytes with shift [s] and value [x]. *)
Fixpoint read_uvarint (fuel i : nat) (x s : Z) : reader Z := λ rest,
  match fuel with
  | 0 => Err (ENew "binary: varint overflows a 64-bit integer")
  | S fuel =>
      match rest with
      | [] => Err (if decide (0 < i) then ErrUnexpectedEOF else EOF)
      | b :: rest =>
          if decide (val b < 128)%Z
          then if decide (i = 9 ∧ (1 < val b)%Z) then Err (ENew "binary: varint overflows a 64-bit integer")
               else Ok (Z.lor x (Z.shiftl (val b) s), rest)
          else read_uvarint fuel (S i) (Z.lor x (Z.shiftl (Z.land (val b) 127) s)) (s + 7)%Z rest
      end
  end.
Definition ReadUvarint : reader Z := read_uvarint 10 0 0 0.

Lemma land_127 x : Z.land x 127 = (x mod 128)%Z.
Proof. change 127%Z with (Z.ones 7). by rewrite Z.land_ones. Qed.

Lemma lor_128_small y : (0 <= y < 256)%Z → Z.lor y 128 = (128 + y mod 128)%Z.
Proof.
  intros Hy. assert (Forall (λ y, Z.lor y 128 = (128 + y mod 128)%Z) (seqZ 0 256)) as Hall.
  { apply (bool_decide_unpack _). vm_compute. exact I. }
  rewrite Forall_forall in Hall. apply Hall, elem_of_seqZ. lia.
Qed.

Lemma val_lor_128 x : val (u8 (Z.lor x 128)) = (128 + x mod 128)%Z.
Proof.
  rewrite val_u8. change 256%Z with (2 ^ 8)%Z. rewrite <-Z.land_ones, Z.land_lor_distr_l by lia.
  change (Z.land 128 (Z.ones 8)) with 128%Z. rewrite Z.land_ones by lia. change (2 ^ 8)%Z with 256%Z.
  rewrite lor_128_small by (apply Z.mod_pos_bound; lia). Z.to_euclidean_division_equations; lia.
Qed.

(** Reading after writing, in the middle of the loop. *)
Lemma read_put_uvarint fuel i x acc rest :
  fuel + i = 10 → (0 <= x < 2 ^ (64 - 7 * Z.of_nat i))%Z → (0 <= acc < 2 ^ (7 * Z.of_nat i))%Z →
  read_uvarint fuel i acc (7 * Z.of_nat i) (put_uvarint fuel x ++ rest) = Ok ((x * 2 ^ (7 * Z.of_nat i) + acc)%Z, rest).
Proof.
  revert i x acc. induction fuel as [|fuel IH]; intros i x acc Hi Hx Hacc.
  { exfalso. replace (64 - 7 * Z.of_nat i)%Z with (-6)%Z in Hx by lia. simpl in Hx. lia. }
  cbn [put_uvarint]. set (s := (7 * Z.of_nat i)%Z) in *.
  assert (∀ y, Z.lor acc (Z.shiftl y s) = (y * 2 ^ s + acc)%Z) as Hlor.
  { intros y. rewrite Z.lor_comm. apply lor_shiftl_add; lia. }
  destruct (decide (128 <= x)%Z) as [Hbig|Hsmall]; cbn [app read_uvarint].
  - assert (val (u8 (Z.lor x 128)) = 128 + x mod 128)%Z as Hv by apply val_lor_128.
    pose proof (Z.mod_pos_bound x 128 ltac:(lia)) as Hm.
    rewrite decide_False by lia. rewrite Hv, land_127, Hlor.
    replace ((128 + x mod 128) mod 128)%Z with (x mod 128)%Z by (Z.to_euclidean_division_equations; lia).
    replace (s + 7)%Z with (7 * Z.of_nat (S i))%Z by lia.
    assert (2 ^ (7 * Z.of_nat (S i)) = 128 * 2 ^ s)%Z as Hp.
    { replace (7 * Z.of_nat (S i))%Z with (7 + s)%Z by lia. rewrite Z.pow_add_r by lia. done. }
    assert (Z.shiftr x 7 = x / 128)%Z as -> by by rewrite Z.shiftr_div_pow2.
    rewrite IH; [| lia | |].
    + rewrite Hp. do 2 f_equal. rewrite (Z.div_mod x 128) at 3 by lia. lia.
    + destruct (decide (64 <= 7 * Z.of_nat (S i))%Z) as [Hover|].
      { exfalso. assert (i = 9) as -> by lia. unfold s in Hx. change (2 ^ (64 - 7 * Z.of_nat 9))%Z with 2%Z in Hx. lia. }
      split; [apply Z.div_pos; lia|]. apply Z.div_lt_upper_bound; [lia|].
      replace (128 * 2 ^ (64 - 7 * Z.of_nat (S i)))%Z with (2 ^ (64 - s))%Z; [lia|].
      replace (64 - s)%Z with (7 + (64 - 7 * Z.of_nat (S i)))%Z by lia. rewrite Z.pow_add_r by lia. done.
    + rewrite Hp. nia.
  - rewrite val_u8_small by lia. rewrite decide_True by lia. rewrite decide_False, Hlor; [done|].
    intros [-> Hx1]. unfold s in Hx. change (2 ^ (64 - 7 * Z.of_nat 9))%Z with 2%Z in Hx. lia.
Qed.

Lemma ReadUvarint_PutUvarint x rest : (0 <= x < 2 ^ 64)%Z → ReadUvarint (PutUvarint x ++ rest) = Ok (x, rest).
Proof.
  intros Hx. unfold ReadUvarint, PutUvarint. change 0%Z with (7 * Z.of_nat 0)%Z at 2.
  rewrite read_put_uvarint; [|done|done|done]. do 2 f_equal. change (2 ^ (7 * Z.of_nat 0))%Z with 1%Z. lia.
Qed.

(** ** Length-delimited fields *)

(** Allocating a slice panics beyond the address space of the heap. *)
Definition maxAlloc : Z := 2 ^ 48.
Definition make_bytes (n : Z) : reader unit :=
  if decide (n <= maxAlloc)%Z then rret () else rfail (EPanic "makeslice: len out of range").

(** A length-delimited field: its length, a buffer for it, and its bytes. *)
Definition read_field : reader bytes :=
  let! n := ReadUvarint in
  let! _ := make_bytes n in
  read_full (Z.to_nat n).

Lemma read_field_app f s :
  (Z.of_nat (length f) <= maxAlloc)%Z → read_field (PutUvarint (Z.of_nat (length f)) ++ f ++ s) = Ok (f, s).
Proof.
  intros Hf. unfold read_field. erewrite rbind_step.
  2:{ apply ReadUvarint_PutUvarint. unfold maxAlloc in Hf. lia. }
  unfold make_bytes. rewrite decide_True by done. erewrite rbind_step; [|done].
  rewrite Nat2Z.id. apply read_full_app.
Qed.
