(* ===== verification/MatchState.v ===== *)
(** * Match states of routing rules

    Model of src/runtime/sing-box/route/rule/match_state.go.  A match state is
    a [uint8] of four flags (which address and port conditions are satisfied);
    a set of match states is a [uint16] with one bit per state. *)
From S2P Require Import Prelude.
#[local] Open Scope Z_scope.

Module StateSet.

(** [ruleMatchState] and its constants. *)
Notation ruleMatchState := Z (only parsing).
Definition ruleMatchSourceAddress : ruleMatchState := 1.
Definition ruleMatchSourcePort : ruleMatchState := 2.
Definition ruleMatchDestinationAddress : ruleMatchState := 4.
Definition ruleMatchDestinationPort : ruleMatchState := 8.

(** rule_abstract.go, [ruleMatchState.has]. *)
Definition has (s target : ruleMatchState) : bool := negb (Z.land s target =? 0).

(** [ruleMatchStateSet]. *)
Notation ruleMatchStateSet := Z (only parsing).

(** [1 << state] as a [uint16]. *)
Definition singleRuleMatchState (state : ruleMatchState) : ruleMatchStateSet :=
Z.shiftl 1 state mod 2 ^ 16.

Definition emptyRuleMatchState : ruleMatchStateSet := singleRuleMatchState 0.

Definition isEmpty (s : ruleMatchStateSet) : bool := s =? 0.

Definition contains (s : ruleMatchStateSet) (state : ruleMatchState) : bool :=
negb (Z.land s (singleRuleMatchState state) =? 0).

Definition add (s : ruleMatchStateSet) (state : ruleMatchState) : ruleMatchStateSet :=
Z.lor s (singleRuleMatchState state).

Definition merge (s other : ruleMatchStateSet) : ruleMatchStateSet := Z.lor s other.

(** [range ruleMatchState(16)]. *)
Definition states : list ruleMatchState := Z.of_nat <$> seq 0 16.

Definition combine (s other : ruleMatchStateSet) : ruleMatchStateSet :=
if isEmpty s || isEmpty other then 0
else
  foldl (λ combined left,
    if negb (contains s left) then combined
    else foldl (λ combined right,
           if negb (contains other right) then combined
           else add combined (Z.lor left right)) combined states) 0 states.

Definition withBase (s : ruleMatchStateSet) (base : ruleMatchState) : ruleMatchStateSet :=
if isEmpty s then 0
else foldl (λ acc state, if negb (contains s state) then acc else add acc (Z.lor state base)) 0 states.

Definition filter (allowed : ruleMatchState → bool) (s : ruleMatchStateSet) : ruleMatchStateSet :=
foldl (λ filtered state,
  if negb (contains s state) then filtered
  else if allowed state then add filtered state else filtered) 0 states.

#[global] Arguments filter : simpl never.
#[global] Arguments withBase : simpl never.
#[global] Arguments combine : simpl never.
#[global] Arguments singleRuleMatchState : simpl never.

(** ** Sets of states *)

(** The values the two types are used with. *)
Definition is_state (st : ruleMatchState) : Prop := 0 ≤ st < 16.
Definition is_set (s : ruleMatchStateSet) : Prop := 0 ≤ s < 2 ^ 16.

Lemma states_spec st : st ∈ states ↔ is_state st.
Proof.
unfold states, is_state. rewrite list_elem_of_fmap. split.
- intros (n & -> & Hn%elem_of_seq). lia.
- intros [H1 H2]. exists (Z.to_nat st). rewrite Z2Nat.id by lia. split; [done|]. apply elem_of_seq. lia.
Qed.

Lemma is_state_0 : is_state 0.
Proof. unfold is_state. lia. Qed.

Lemma single_pow st : is_state st → singleRuleMatchState st = 2 ^ st.
Proof.
intros Hs. unfold singleRuleMatchState. rewrite Z.shiftl_1_l. apply Z.mod_small. split.
- apply Z.pow_nonneg. lia.
- apply Z.pow_lt_mono_r; unfold is_state in Hs; lia.
Qed.

Lemma contains_testbit s st : is_state st → contains s st = Z.testbit s st.
Proof.
intros Hs. unfold contains. rewrite single_pow by done. destruct (Z.testbit s st) eqn:Hb.
- apply negb_true_iff, Z.eqb_neq. intros Hz. assert (Z.testbit (Z.land s (2 ^ st)) st = false) as Hf.
  { by rewrite Hz, Z.bits_0. }
  rewrite Z.land_spec, Hb, Z.pow2_bits_true in Hf by apply Hs. done.
- apply negb_false_iff, Z.eqb_eq. apply Z.bits_inj'. intros n Hn.
  rewrite Z.land_spec, Z.bits_0. destruct (decide (n = st)) as [->|Hne]; [by rewrite Hb|].
  rewrite Z.pow2_bits_false by lia. apply andb_false_r.
Qed.

(** A set without states is the number 0. *)
Lemma isEmpty_spec s : is_set s → isEmpty s = true ↔ ∀ st, is_state st → contains s st = false.
Proof.
intros Hset. unfold isEmpty. rewrite Z.eqb_eq. split.
- intros -> st Hst. by rewrite contains_testbit, Z.bits_0.
- intros Hno. apply Z.bits_inj'. intros n Hn. rewrite Z.bits_0.
  destruct (decide (n < 16)) as [Hlt|Hge].
  + rewrite <-contains_testbit by (unfold is_state; lia). apply Hno. unfold is_state. lia.
  + unfold is_set in Hset. rewrite <-(Z.mod_small s (2 ^ 16)) by done. apply Z.mod_pow2_bits_high. lia.
Qed.

Lemma isEmpty_false s : is_set s → isEmpty s = false ↔ ∃ st, is_state st ∧ contains s st = true.
Proof.
intros Hset. split.
- intros Hf. destruct (decide (Exists (λ st, contains s st = true) states)) as [He|Hne].
  + apply Exists_exists in He as (st & Hst%states_spec & Hc). eauto.
  + exfalso. assert (isEmpty s = true); [|congruence]. apply isEmpty_spec; [done|]. intros st Hst.
    apply not_true_iff_false. intros Hc. apply Hne, Exists_exists. exists st. by rewrite states_spec.
- intros (st & Hst & Hc). apply not_true_iff_false. rewrite isEmpty_spec by done.
  intros Hno. rewrite Hno in Hc; done.
Qed.

Lemma is_set_0 : is_set 0.
Proof. unfold is_set. lia. Qed.

Lemma is_set_single st : is_set (singleRuleMatchState st).
Proof. unfold is_set, singleRuleMatchState. apply Z.mod_pos_bound. lia. Qed.

Lemma is_set_lor a b : is_set a → is_set b → is_set (Z.lor a b).
Proof.
unfold is_set. intros [Ha1 Ha2] [Hb1 Hb2]. split; [by apply Z.lor_nonneg|].
destruct (Z.lor_nonneg a b) as [_ Hn]. specialize (Hn (conj Ha1 Hb1)).
destruct (decide (Z.lor a b = 0)) as [->|Hnz]; [lia|]. apply Z.log2_lt_pow2; [lia|].
rewrite Z.log2_lor by done. apply Z.max_lub_lt.
- destruct (decide (a = 0)) as [->|]; [done|]. apply Z.log2_lt_pow2; lia.
- destruct (decide (b = 0)) as [->|]; [done|]. apply Z.log2_lt_pow2; lia.
Qed.

Lemma is_state_lor a b : is_state a → is_state b → is_state (Z.lor a b).
Proof.
unfold is_state. intros [Ha1 Ha2] [Hb1 Hb2].
destruct (Z.lor_nonneg a b) as [_ Hn]. specialize (Hn (conj Ha1 Hb1)). split; [done|].
destruct (decide (Z.lor a b = 0)) as [->|Hnz]; [lia|]. change 16 with (2 ^ 4). apply Z.log2_lt_pow2; [lia|].
rewrite Z.log2_lor by done. apply Z.max_lub_lt.
- destruct (decide (a = 0)) as [->|]; [done|]. apply Z.log2_lt_pow2; lia.
- destruct (decide (b = 0)) as [->|]; [done|]. apply Z.log2_lt_pow2; lia.
Qed.

Lemma contains_single a st : is_state a → is_state st → contains (singleRuleMatchState a) st = bool_decide (st = a).
Proof.
intros Ha Hst. rewrite contains_testbit, single_pow by done.
destruct (decide (st = a)) as [->|Hne].
- rewrite Z.pow2_bits_true by apply Ha. by rewrite bool_decide_true.
- rewrite Z.pow2_bits_false by lia. by rewrite bool_decide_false.
Qed.

Lemma contains_merge a b st : is_state st → contains (merge a b) st = contains a st || contains b st.
Proof. intros Hst. unfold merge. by rewrite !contains_testbit, Z.lor_spec by done. Qed.

Lemma contains_add s a st :
is_state a → is_state st → contains (add s a) st = contains s st || bool_decide (st = a).
Proof. intros Ha Hst. unfold add. rewrite <-contains_single by done. by apply contains_merge. Qed.

Lemma contains_0 st : is_state st → contains 0 st = false.
Proof. intros Hst. by rewrite contains_testbit, Z.bits_0. Qed.

#[export] Hint Resolve is_state_0 is_set_0 is_set_single is_set_lor is_state_lor : go.

(** The shape the loops share: each iteration unions some states in. *)
Lemma foldl_union (f : Z → Z → Z) (Q : Z → Z → Prop) l : ∀ acc,
is_set acc →
(∀ acc x, is_set acc → x ∈ l → is_set (f acc x) ∧ ∀ st, is_state st →
   contains (f acc x) st = true ↔ contains acc st = true ∨ Q x st) →
is_set (foldl f acc l) ∧ ∀ st, is_state st →
  contains (foldl f acc l) st = true ↔ contains acc st = true ∨ ∃ x, x ∈ l ∧ Q x st.
Proof.
induction l as [|x l IH]; intros acc Hacc Hf; simpl.
{ split; [done|]. intros st _. split; [auto|]. intros [?|(y & Hy & _)]; [done|by apply not_elem_of_nil in Hy]. }
destruct (Hf acc x Hacc (list_elem_of_here _ _)) as [Hset Hx].
destruct (IH (f acc x) Hset) as [Hset' Hspec].
{ intros acc' y Hacc' Hy. apply Hf; [done|by right]. }
split; [done|]. intros st Hst. rewrite (Hspec st Hst), (Hx st Hst). setoid_rewrite elem_of_cons.
split; [intros [[?|?]|(y & ? & ?)]; eauto|]. intros [?|(y & [->|?] & ?)]; eauto.
Qed.

(** Conditionally add the image of each state. *)
Lemma foldl_add (P : Z → bool) (f : Z → Z) l acc :
is_set acc → (∀ x, x ∈ l → is_state (f x)) →
is_set (foldl (λ acc x, if P x then add acc (f x) else acc) acc l) ∧ ∀ st, is_state st →
  contains (foldl (λ acc x, if P x then add acc (f x) else acc) acc l) st = true ↔
  contains acc st = true ∨ ∃ x, x ∈ l ∧ P x = true ∧ st = f x.
Proof.
intros Hacc Hf. apply (foldl_union _ (λ x st, P x = true ∧ st = f x)); [done|].
intros acc' x Hacc' Hx. destruct (P x).
- split; [unfold add; eauto with go|]. intros st Hst.
  rewrite contains_add, orb_true_iff, bool_decide_eq_true by (try done; by apply Hf). tauto.
- split; [done|]. intros st _. split; [auto|]. by intros [?|[? _]].
Qed.

(** Replace a loop body by an equal one. *)
Lemma foldl_ext_eq {A B} (f g : B → A → B) l : (∀ b x, f b x = g b x) → ∀ b, foldl f b l = foldl g b l.
Proof. intros He. induction l as [|x l IH]; intros b; simpl; [done|]. by rewrite He, IH. Qed.

Lemma filter_spec allowed s :
is_set (filter allowed s) ∧ ∀ st, is_state st →
  contains (filter allowed s) st = contains s st && allowed st.
Proof.
unfold filter. rewrite (foldl_ext_eq _ (λ acc x, if contains s x && allowed x then add acc x else acc))
  by (intros b x; by destruct (contains s x), (allowed x)).
destruct (foldl_add (λ x, contains s x && allowed x) id states 0) as [Hset Hspec];
  [eauto with go|by intros x ?%states_spec|]. split; [done|]. intros st Hst.
apply eq_true_iff_eq. rewrite (Hspec st Hst), contains_0 by done. split.
- by intros [?|(x & _ & ? & ->)].
- intros ?. right. exists st. by rewrite states_spec.
Qed.

Lemma withBase_spec s base :
is_set s → is_state base →
is_set (withBase s base) ∧ ∀ st, is_state st →
  contains (withBase s base) st = true ↔ ∃ x, is_state x ∧ contains s x = true ∧ st = Z.lor x base.
Proof.
intros Hs Hb. unfold withBase. destruct (isEmpty s) eqn:He.
- split; [eauto with go|]. intros st Hst. rewrite contains_0 by done. split; [done|].
  intros (x & Hx & Hc & _). rewrite isEmpty_spec in He by done. rewrite He in Hc; done.
- rewrite (foldl_ext_eq _ (λ acc x, if contains s x then add acc (Z.lor x base) else acc))
    by (intros b x; by destruct (contains s x)).
  destruct (foldl_add (contains s) (λ x, Z.lor x base) states 0) as [Hset Hspec];
    [eauto with go|intros x ?%states_spec; eauto with go|]. split; [done|]. intros st Hst.
  rewrite (Hspec st Hst), contains_0 by done. split.
  + intros [?|(x & ?%states_spec & ? & ->)]; [done|eauto].
  + intros (x & Hx & ? & ->). right. exists x. by rewrite states_spec.
Qed.

Lemma combine_spec s other :
is_set s → is_set other →
is_set (combine s other) ∧ ∀ st, is_state st →
  contains (combine s other) st = true ↔
  ∃ l r, is_state l ∧ is_state r ∧ contains s l = true ∧ contains other r = true ∧ st = Z.lor l r.
Proof.
intros Hs Ho. unfold combine. destruct (isEmpty s || isEmpty other) eqn:He.
{ split; [eauto with go|]. intros st Hst. rewrite contains_0 by done. split; [done|].
  intros (l & r & Hl & Hr & Hcl & Hcr & _). apply orb_true_iff in He as [He|He];
    rewrite isEmpty_spec in He by done; [rewrite He in Hcl|rewrite He in Hcr]; done. }
rewrite (foldl_ext_eq _ (λ acc x, if contains s x then foldl (λ acc y,
  if contains other y then add acc (Z.lor x y) else acc) acc states else acc)); cycle 1.
{ intros b x. destruct (contains s x); cbn [negb]; [|done].
  apply foldl_ext_eq. intros b' y. by destruct (contains other y). }
destruct (foldl_union (λ acc x, if contains s x then foldl (λ acc y,
  if contains other y then add acc (Z.lor x y) else acc) acc states else acc)
  (λ x st, contains s x = true ∧ ∃ y, y ∈ states ∧ contains other y = true ∧ st = Z.lor x y) states 0)
  as [Hset Hspec]; [eauto with go| |].
{ intros acc x Hacc Hx%states_spec. destruct (contains s x).
  - destruct (foldl_add (contains other) (Z.lor x) states acc Hacc) as [H1 H2];
      [intros y ?%states_spec; eauto with go|]. split; [exact H1|]. intros st Hst. rewrite (H2 st Hst). tauto.
  - split; [done|]. intros st _. split; [auto|]. by intros [?|[? _]]. }
split; [exact Hset|]. intros st Hst. rewrite (Hspec st Hst), contains_0 by done.
setoid_rewrite states_spec. split.
- intros [?|(l & ? & ? & r & ? & ? & ->)]; [done|]. by exists l, r.
- intros (l & r & ? & ? & ? & ? & ->). right. exists l. split; [done|]. split; [done|]. by exists r.
Qed.

End StateSet.
