(* ===== verification/RuleItems.v ===== *)
(** * Rule items

    Model of the conditions of routing rules: the files rule_item_*.go and
    rule_*interface_address.go of src/runtime/sing-box/route/rule, and the part
    of [adapter.InboundContext] (src/runtime/sing-box/adapter/inbound.go) the
    rules read.  A Go [map[K]bool] that only ever stores [true] is a [gset].

    Third-party code and the parts of the Go library that are tables or
    engines of their own (address parsing and printing, regular expressions,
    Unicode case mapping) are the fields of [RuleEnv]. *)
From S2P Require Import Prelude.

(** ** Addresses (net/netip) *)

(** [netip.Addr]: the zero value, an IPv4 address or an IPv6 address with its
    zone; a [netip.Prefix] is an address with a number of bits, negative when
    it is invalid. *)
Inductive Addr :=
| AddrInvalid
| Addr4 (bits : Z)
| Addr6 (bits : Z) (zone : string).

#[export] Instance Addr_eq_dec : EqDecision Addr.
Proof. solve_decision. Defined.

Record Prefix := mkPrefix { p_ip : Addr; p_bits : Z }.

#[export] Instance Prefix_eq_dec : EqDecision Prefix.
Proof. solve_decision. Defined.

Definition Addr_IsValid (a : Addr) : bool := match a with AddrInvalid => false | _ => true end.
Definition Addr_Is4 (a : Addr) : bool := match a with Addr4 _ => true | _ => false end.
Definition Prefix_IsValid (p : Prefix) : bool := Addr_IsValid (p_ip p) && (0 <=? p_bits p)%Z.

(** The address with all but its first [n] bits cleared, [None] when it has
    fewer bits ([netip.Addr.Prefix]). *)
Definition Addr_Prefix (a : Addr) (n : Z) : option Addr :=
  match a with
  | AddrInvalid => None
  | Addr4 b => if (n <=? 32)%Z then Some (Addr4 (Z.shiftl (Z.shiftr b (32 - n)) (32 - n))) else None
  | Addr6 b _ => if (n <=? 128)%Z then Some (Addr6 (Z.shiftl (Z.shiftr b (128 - n)) (128 - n)) "") else None
  end.

(** [netip.Prefix.Overlaps]. *)
Definition Prefix_Overlaps (p o : Prefix) : bool :=
  if negb (Prefix_IsValid p) || negb (Prefix_IsValid o) then false
  else if bool_decide (p = o) then true
  else if xorb (Addr_Is4 (p_ip p)) (Addr_Is4 (p_ip o)) then false
  else
    let minBits := Z.min (p_bits p) (p_bits o) in
    if (minBits =? 0)%Z then true
    else
      match Addr_Prefix (p_ip p) minBits, Addr_Prefix (p_ip o) minBits with
      | Some a, Some b => bool_decide (a = b)
      | _, _ => false
      end.

(** ** Context of a connection *)

(** [M.Socksaddr]. *)
Record Socksaddr := mkSocksaddr { sa_Addr : Addr; sa_Port : Z; sa_Fqdn : string }.

(** adapter/platform.go, [ConnectionOwner]. *)
Record ConnectionOwner := mkConnectionOwner {
  ProcessID : Z;
  UserId : Z;
  UserName : string;
  ProcessPath : string;
  AndroidPackageNames : list string;
}.

(** adapter/inbound.go, [InboundContext]: the fields rules read or write. *)
Record InboundContext := mkInboundContext {
  Inbound : string;
  IPVersion : Z;
  Network : string;
  Source : Socksaddr;
  Destination : Socksaddr;
  User : string;
  Outbound : string;
  Protocol : string;
  Domain : string;
  Client : string;
  DestinationAddresses : list Addr;
  ProcessInfo : option ConnectionOwner;
  QueryType : Z;
  IPCIDRMatchSource : bool;
  IPCIDRAcceptEmpty : bool;
  SourceAddressMatch : bool;
  SourcePortMatch : bool;
  DestinationAddressMatch : bool;
  DestinationPortMatch : bool;
  DidMatch : bool;
  IgnoreDestinationIPCIDRMatch : bool;
}.

(** The rule-cache fields of a context, in their order. *)
Definition set_cache (matchSource acceptEmpty sa sp da dp did : bool) (c : InboundContext) : InboundContext :=
  mkInboundContext (Inbound c) (IPVersion c) (Network c) (Source c) (Destination c) (User c) (Outbound c)
    (Protocol c) (Domain c) (Client c) (DestinationAddresses c) (ProcessInfo c) (QueryType c)
    matchSource acceptEmpty sa sp da dp did (IgnoreDestinationIPCIDRMatch c).

(** [ResetRuleMatchCache] and [ResetRuleCache]. *)
Definition ResetRuleMatchCache (c : InboundContext) : InboundContext :=
  set_cache (IPCIDRMatchSource c) (IPCIDRAcceptEmpty c) false false false false false c.
Definition ResetRuleCache (c : InboundContext) : InboundContext :=
  ResetRuleMatchCache
    (set_cache false false (SourceAddressMatch c) (SourcePortMatch c) (DestinationAddressMatch c)
       (DestinationPortMatch c) (DidMatch c) c).

(** [metadata.DidMatch = true]. *)
Definition set_DidMatch (b : bool) (c : InboundContext) : InboundContext :=
  set_cache (IPCIDRMatchSource c) (IPCIDRAcceptEmpty c) (SourceAddressMatch c) (SourcePortMatch c)
    (DestinationAddressMatch c) (DestinationPortMatch c) b c.

(** ** Network state *)

(** constant/network.go, [InterfaceType] (a [uint8]) and its [String]. *)
Notation InterfaceType := Z (only parsing).
Definition InterfaceType_String (t : InterfaceType) : string :=
  match t with
  | 0%Z => "wifi"
  | 1%Z => "cellular"
  | 2%Z => "ethernet"
  | 3%Z => "other"
  | _ => pretty t
  end.

(** [control.Interface] and adapter/network.go, [NetworkInterface]. *)
Record Interface := mkInterface { if_Name : string; if_Addresses : list Prefix }.
Record NetworkInterface := mkNetworkInterface {
  ni_Interface : Interface;
  ni_Type : InterfaceType;
  ni_Expensive : bool;
  ni_Constrained : bool;
}.

(** What the network manager and the clash server answer at the moment of a
    match. *)
Record Runtime := mkRuntime {
  DefaultNetworkInterface : option NetworkInterface;
  NetworkInterfaces : list NetworkInterface;
  WIFIState_SSID : string;
  WIFIState_BSSID : string;
  Finder_Interfaces : list Interface;
  Monitor_DefaultInterface : option Interface;
  MyInterfaces : list string;
  ClashServer_Mode : string;
}.

(** ** Code outside the repository *)

Class RuleEnv := {
  IsIP : Socksaddr → bool;
  IsIPv6 : Socksaddr → bool;
  IsPublicAddr : Addr → bool;
  IPSet : Type;
  IPSet_Contains : IPSet → Addr → bool;
  IPSetBuilder_IPSet : list (Prefix + Addr) → result IPSet;
  ParsePrefix : string → result Prefix;
  ParseAddr : string → result Addr;
  Prefix_String : Prefix → string;
  Prefixable : Type;
  Prefixable_Build : Prefixable → Prefix;
  DomainMatcher : Type;
  NewMatcher : list string → list string → bool → DomainMatcher;
  DomainMatcher_Match : DomainMatcher → string → bool;
  AdGuardMatcher : Type;
  NewAdGuardMatcher : list string → AdGuardMatcher;
  AdGuardMatcher_Match : AdGuardMatcher → string → bool;
  Regexp : Type;
  regexp_Compile : string → result Regexp;
  MatchString : Regexp → string → bool;
  ToLower : string → string;
  EqualFold : string → string → bool;
  TrimSpace : string → string;
  ParseMAC : string → option (list Z);
  HardwareAddr_String : list Z → string;
  hex_DecodeString : string → option (list Z);
  mDNS_TypeToString : Z → option string;
  (** [PreferredDomain] and [PreferredAddress] of an outbound, by pointer. *)
  PreferredDomain : nat → string → bool;
  PreferredAddress : nat → Addr → bool;
  (** [C.IsAndroid]. *)
  IsAndroid : bool;
}.

(** ** The items *)

(** Port ranges, [rangeItem]. *)
Record rangeItem := mkRangeItem { r_start : Z; r_end : Z }.

#[export] Instance rangeItem_eq_dec : EqDecision rangeItem.
Proof. solve_decision. Defined.

(** [strconv.ParseUint(s, 10, bitSize)]: decimal digits only, at least one. *)
Definition digit_value (c : Ascii.ascii) : option Z :=
  let n := Z.of_nat (Ascii.nat_of_ascii c) in
  if ((48 <=? n) && (n <=? 57))%Z then Some (n - 48)%Z else None.

Fixpoint parse_digits (s : string) (acc : Z) : option Z :=
  match s with
  | EmptyString => Some acc
  | String c s => d ← digit_value c; parse_digits s (10 * acc + d)%Z
  end.

Definition ParseUint (s : string) (bitSize : Z) : result Z :=
  match s with
  | EmptyString => Err (ENew "strconv.ParseUint: invalid syntax")
  | _ =>
      match parse_digits s 0 with
      | None => Err (ENew "strconv.ParseUint: invalid syntax")
      | Some n => if (n <? 2 ^ bitSize)%Z then Ok n else Err (ENew "strconv.ParseUint: value out of range")
      end
  end.

(** One element of the loop of [NewPortRangeItem]. *)
Definition parse_port_range (portRange : string) : result rangeItem :=
  if negb (strings_Contains portRange ":") then Err (ErrBadPortRange portRange)
  else
    let bad (r : result Z) : result Z :=
      match r with Ok n => Ok n | Err e => Err (ECause e ("bad port range: " +:+ portRange)) end in
    match strings_Index portRange ":" with
    | None => Err (ErrBadPortRange portRange)
    | Some subIndex =>
        let? start :=
          if decide (0 < subIndex) then bad (ParseUint (String.substring 0 subIndex portRange) 16) else Ok 0%Z in
        let? end_ :=
          if decide (S subIndex = String.length portRange) then Ok 65535%Z
          else bad (ParseUint (String.substring (S subIndex) (String.length portRange) portRange) 16) in
        Ok (mkRangeItem (start mod 2 ^ 16)%Z (end_ mod 2 ^ 16)%Z)
    end.

Fixpoint parse_port_ranges (xs : list string) : result (list rangeItem) :=
  match xs with
  | [] => Ok []
  | x :: xs =>
      let? r := parse_port_range x in
      let? rs := parse_port_ranges xs in
      Ok (r :: rs)
  end.

(** [filepath.Base] on a Unix system. *)
Definition slash : Ascii.ascii := Ascii.ascii_of_nat 47.

Fixpoint drop_slashes (l : list Ascii.ascii) : list Ascii.ascii :=
  match l with
  | c :: l' => if decide (c = slash) then drop_slashes l' else l
  | [] => []
  end.

Fixpoint until_slash (l : list Ascii.ascii) : list Ascii.ascii :=
  match l with
  | c :: l' => if decide (c = slash) then [] else c :: until_slash l'
  | [] => []
  end.

Definition filepath_Base (path : string) : string :=
  if decide (path = "") then "."
  else
    match reverse (until_slash (drop_slashes (reverse (String.list_ascii_of_string path)))) with
    | [] => "/"
    | l => String.string_of_list_ascii l
    end.

Section items.
Context `{RuleEnv}.

(** [RuleItem], one constructor per implementation (the rule-set item, which
    contains rules, is defined with the rules). *)
Inductive Item :=
| AdGuardDomainItem (matcher : AdGuardMatcher)
| AuthUserItem (users : list string) (userMap : gset string)
| IPCIDRItem (ipSet : IPSet) (isSource : bool) (description : string)
| ClashModeItem (clashServer : bool) (mode : string)
| ClientItem (clients : list string) (clientMap : gset string)
| DomainItem (matcher : DomainMatcher) (description : string)
| DomainKeywordItem (keywords : list string)
| DomainRegexItem (matchers : list Regexp) (description : string)
| InboundItem (inbounds : list string) (inboundMap : gset string)
| IPAcceptAnyItem
| IPIsPrivateItem (isSource : bool)
| IPVersionItem (isIPv6 : bool)
| NetworkItem (networks : list string) (networkMap : gset string)
| NetworkIsConstrainedItem
| NetworkIsExpensiveItem
| NetworkTypeItem (networkType : list InterfaceType)
| OutboundItem (outbounds : list string) (outboundMap : gset string) (matchAny : bool)
| PackageNameItem (packageNames : list string) (packageMap : gset string)
| PortItem (ports : list Z) (portMap : gset Z) (isSource : bool)
| PortRangeItem (isSource : bool) (portRanges : list string) (portRangeList : list rangeItem)
| PreferredByItem (outboundTags : list string) (outbounds : list nat)
| ProcessItem (processes : list string) (processMap : gset string)
| ProcessPathItem (processes : list string) (processMap : gset string)
| ProcessPathRegexItem (matchers : list Regexp) (description : string)
| ProtocolItem (protocols : list string) (protocolMap : gset string)
| QueryTypeItem (typeList : list Z) (typeMap : gset Z)
| UserItem (users : list string) (userMap : gset string)
| UserIdItem (userIds : list Z) (userIdMap : gset Z)
| WIFIBSSIDItem (bssidList : list string) (bssidMap : gset string)
| WIFISSIDItem (ssidList : list string) (ssidMap : gset string)
| InterfaceAddressItem (interfaceAddresses : gmap string (list Prefix)) (description : string)
| NetworkInterfaceAddressItem (interfaceAddresses : gmap Z (list Prefix)) (description : string)
| DefaultInterfaceAddressItem (interfaceAddresses : list Prefix).

(** option/types.go, [DNSQueryTypeToString]. *)
Definition DNSQueryTypeToString (queryType : Z) : string :=
  match mDNS_TypeToString queryType with Some typeName => typeName | None => pretty queryType end.

(** *** Descriptions *)

(** One value as it is, several in brackets. *)
Definition listed (prefix : string) (xs : list string) : string :=
  match xs with
  | [x] => prefix +:+ x
  | _ => prefix +:+ "[" +:+ Join " " xs +:+ "]"
  end.

(** As [listed], with only the first three of more than three values. *)
Definition abbreviated (prefix : string) (xs : list string) : string :=
  if decide (3 < length xs) then prefix +:+ "[" +:+ Join " " (take 3 xs) +:+ "...]" else listed prefix xs.

(** As [abbreviated], without the dots. *)
Definition truncated (prefix : string) (xs : list string) : string :=
  if decide (3 < length xs) then prefix +:+ "[" +:+ Join " " (take 3 xs) +:+ "]" else listed prefix xs.

(** *** Constructors *)

Definition NewAdGuardDomainItem (ruleLines : list string) : Item :=
  AdGuardDomainItem (NewAdGuardMatcher ruleLines).
Definition NewRawAdGuardDomainItem (matcher : AdGuardMatcher) : Item := AdGuardDomainItem matcher.
Definition NewAuthUserItem (users : list string) : Item := AuthUserItem users (list_to_set users).
Definition NewClientItem (clients : list string) : Item := ClientItem clients (list_to_set clients).
Definition NewInboundRule (inbounds : list string) : Item := InboundItem inbounds (list_to_set inbounds).
Definition NewNetworkItem (networks : list string) : Item := NetworkItem networks (list_to_set networks).
Definition NewPackageNameItem (names : list string) : Item := PackageNameItem names (list_to_set names).
Definition NewProcessItem (names : list string) : Item := ProcessItem names (list_to_set names).
Definition NewProcessPathItem (names : list string) : Item := ProcessPathItem names (list_to_set names).
Definition NewProtocolItem (protocols : list string) : Item := ProtocolItem protocols (list_to_set protocols).
Definition NewQueryTypeItem (types : list Z) : Item := QueryTypeItem types (list_to_set types).
Definition NewUserItem (users : list string) : Item := UserItem users (list_to_set users).
Definition NewUserIDItem (ids : list Z) : Item := UserIdItem ids (list_to_set ids).
Definition NewPortItem (isSource : bool) (ports : list Z) : Item := PortItem ports (list_to_set ports) isSource.
Definition NewWIFISSIDItem (ssids : list string) : Item := WIFISSIDItem ssids (list_to_set ssids).
Definition NewDomainKeywordItem (keywords : list string) : Item := DomainKeywordItem keywords.
Definition NewIPAcceptAnyItem : Item := IPAcceptAnyItem.
Definition NewIPIsPrivateItem (isSource : bool) : Item := IPIsPrivateItem isSource.
Definition NewIPVersionItem (isIPv6 : bool) : Item := IPVersionItem isIPv6.
Definition NewNetworkIsConstrainedItem : Item := NetworkIsConstrainedItem.
Definition NewNetworkIsExpensiveItem : Item := NetworkIsExpensiveItem.
Definition NewNetworkTypeItem (types : list InterfaceType) : Item := NetworkTypeItem types.
Definition NewClashModeItem (mode : string) : Item := ClashModeItem false mode.
Definition NewPreferredByItem (tags : list string) : Item := PreferredByItem tags [].

(** adapter/network.go, [NormalizeWIFIBSSID]. *)
Definition NormalizeWIFIBSSID (bssid : string) : string :=
  let bssid := TrimSpace bssid in
  if decide (bssid = "") then ""
  else
    let decode :=
      if decide (String.length bssid = 12) then
        match hex_DecodeString bssid with
        | Some decoded => HardwareAddr_String decoded
        | None => bssid
        end
      else bssid in
    match ParseMAC bssid with
    | Some parsed => if decide (length parsed = 6) then HardwareAddr_String parsed else decode
    | None => decode
    end.

Definition NewWIFIBSSIDItem (bssids : list string) : Item :=
  WIFIBSSIDItem bssids (list_to_set (NormalizeWIFIBSSID <$> bssids)).

(** "any" is a wildcard and not a tag. *)
Definition NewOutboundRule (tags : list string) : Item :=
  OutboundItem tags (list_to_set (filter (λ t, t ≠ "any") tags)) (bool_decide ("any" ∈ tags)).

(** Prefixes are tried before single addresses; the error reported is that of
    the prefix. *)
Fixpoint parse_cidrs (i : nat) (xs : list string) (acc : list (Prefix + Addr)) : result (list (Prefix + Addr)) :=
  match xs with
  | [] => Ok acc
  | x :: xs =>
      match ParsePrefix x with
      | Ok p => parse_cidrs (S i) xs (acc ++ [inl p])
      | Err e =>
          match ParseAddr x with
          | Ok a => parse_cidrs (S i) xs (acc ++ [inr a])
          | Err _ => Err (ECause e ("parse [" +:+ pretty i +:+ "]"))
          end
      end
  end.

Definition cidr_prefix (isSource : bool) : string := if isSource then "source_ip_cidr=" else "ip_cidr=".

Definition NewIPCIDRItem (isSource : bool) (prefixStrings : list string) : result Item :=
  let? added := parse_cidrs 0 prefixStrings [] in
  let? ipSet := IPSetBuilder_IPSet added in
  Ok (IPCIDRItem ipSet isSource (abbreviated (cidr_prefix isSource) prefixStrings)).

Definition NewRawIPCIDRItem (isSource : bool) (ipSet : IPSet) : Item :=
  IPCIDRItem ipSet isSource (cidr_prefix isSource +:+ "<binary>").

Definition NewDomainItem (domains domainSuffixes : list string) : result Item :=
  if bool_decide ("" ∈ domains) then Err (ENew "domain: empty item is not allowed")
  else if bool_decide ("" ∈ domainSuffixes) then Err (ENew "domain_suffix: empty item is not allowed")
  else
    let description := match domains with [] => "" | _ => abbreviated "domain=" domains end in
    let description :=
      match domainSuffixes with
      | [] => description
      | _ =>
          description +:+ (if decide (0 < String.length description) then " " else "")
          +:+ abbreviated "domain_suffix=" domainSuffixes
      end in
    Ok (DomainItem (NewMatcher domains domainSuffixes false) description).

Definition NewRawDomainItem (matcher : DomainMatcher) : Item :=
  DomainItem matcher "domain/domain_suffix=<binary>".

Fixpoint compile_all (i : nat) (xs : list string) (acc : list Regexp) : result (list Regexp) :=
  match xs with
  | [] => Ok acc
  | x :: xs =>
      match regexp_Compile x with
      | Ok m => compile_all (S i) xs (acc ++ [m])
      | Err e => Err (ECause e ("parse expression " +:+ pretty i))
      end
  end.

Definition NewDomainRegexItem (expressions : list string) : result Item :=
  let? matchers := compile_all 0 expressions [] in
  Ok (DomainRegexItem matchers (truncated "domain_regex=" expressions)).

Definition NewProcessPathRegexItem (expressions : list string) : result Item :=
  let? matchers := compile_all 0 expressions [] in
  Ok (ProcessPathRegexItem matchers (truncated "process_path_regex=" expressions)).

Definition NewPortRangeItem (isSource : bool) (rangeList : list string) : result Item :=
  let? portRangeList := parse_port_ranges rangeList in
  Ok (PortRangeItem isSource rangeList portRangeList).

(** The entries of a [badjson.TypedMap], in order. *)
Definition build_prefixes (ps : list Prefixable) : list Prefix := Prefixable_Build <$> ps.

Definition NewInterfaceAddressItem (entries : list (string * list Prefixable)) : Item :=
  InterfaceAddressItem
    (foldl (λ m e, <[e.1 := build_prefixes e.2]> m) ∅ entries)
    ("interface_address=[" +:+
       Join " " ((λ e, e.1 +:+ "=" +:+ Join "," (Prefix_String <$> build_prefixes e.2)) <$> entries) +:+ "]").

Definition NewNetworkInterfaceAddressItem (entries : list (InterfaceType * list Prefixable)) : Item :=
  NetworkInterfaceAddressItem
    (foldl (λ m e, <[e.1 := build_prefixes e.2]> m) ∅ entries)
    ("network_interface_address=[" +:+
       Join " " ((λ e, InterfaceType_String e.1 +:+ "=" +:+ Join "," (Prefix_String <$> build_prefixes e.2))
                   <$> entries) +:+ "]").

Definition NewDefaultInterfaceAddressItem (addresses : list Prefixable) : Item :=
  DefaultInterfaceAddressItem (build_prefixes addresses).

(** *** Starting an item *)

(** [Start] of [ClashModeItem] looks the clash server up, [Start] of
    [PreferredByItem] the outbounds; [outbound] answers a tag with the
    outbound's pointer and its preferred-routes interface, if it has it. *)
Fixpoint start_preferred (outbound : string → option (nat * string * bool)) (tags : list string)
    (acc : list nat) : result (list nat) :=
  match tags with
  | [] => Ok acc
  | tag :: tags =>
      match outbound tag with
      | None => Err (ENew ("outbound not found: " +:+ tag))
      | Some (_, type, false) =>
          Err (ENew ("outbound type does not support preferred routes: " +:+ type))
      | Some (o, _, true) => start_preferred outbound tags (acc ++ [o])
      end
  end.

Definition Item_Start (clashServer : bool) (outbound : string → option (nat * string * bool)) (i : Item)
    : result Item :=
  match i with
  | ClashModeItem _ mode => Ok (ClashModeItem clashServer mode)
  | PreferredByItem tags outbounds =>
      let? outbounds := start_preferred outbound tags outbounds in
      Ok (PreferredByItem tags outbounds)
  | _ => Ok i
  end.

(** *** Matching *)

(** The domain a domain condition looks at. *)
Definition domainHost (md : InboundContext) : string :=
  if decide (Domain md ≠ "") then Domain md else sa_Fqdn (Destination md).

Definition AdGuardDomainItem_Match (matcher : AdGuardMatcher) (md : InboundContext) : bool :=
  if decide (domainHost md = "") then false else AdGuardMatcher_Match matcher (ToLower (domainHost md)).

Definition AuthUserItem_Match (userMap : gset string) (md : InboundContext) : bool :=
  bool_decide (User md ∈ userMap).

Definition IPCIDRItem_Match (ipSet : IPSet) (isSource : bool) (md : InboundContext) : bool :=
  if isSource || IPCIDRMatchSource md then IPSet_Contains ipSet (sa_Addr (Source md))
  else if IsIP (Destination md) then IPSet_Contains ipSet (sa_Addr (Destination md))
  else if decide (0 < length (DestinationAddresses md)) then
    existsb (IPSet_Contains ipSet) (DestinationAddresses md)
  else IPCIDRAcceptEmpty md.

Definition ClashModeItem_Match (rt : Runtime) (clashServer : bool) (mode : string) : bool :=
  if negb clashServer then false else EqualFold (ClashServer_Mode rt) mode.

Definition ClientItem_Match (clientMap : gset string) (md : InboundContext) : bool :=
  bool_decide (Client md ∈ clientMap).

Definition DomainItem_Match (matcher : DomainMatcher) (md : InboundContext) : bool :=
  if decide (domainHost md = "") then false else DomainMatcher_Match matcher (ToLower (domainHost md)).

Definition DomainKeywordItem_Match (keywords : list string) (md : InboundContext) : bool :=
  if decide (domainHost md = "") then false
  else existsb (strings_Contains (ToLower (domainHost md))) keywords.

Definition DomainRegexItem_Match (matchers : list Regexp) (md : InboundContext) : bool :=
  if decide (domainHost md = "") then false
  else existsb (λ m, MatchString m (ToLower (domainHost md))) matchers.

Definition InboundItem_Match (inboundMap : gset string) (md : InboundContext) : bool :=
  bool_decide (Inbound md ∈ inboundMap).

Definition IPAcceptAnyItem_Match (md : InboundContext) : bool :=
  bool_decide (0 < length (DestinationAddresses md)).

Definition IPIsPrivateItem_Match (isSource : bool) (md : InboundContext) : bool :=
  let destination := if isSource then sa_Addr (Source md) else sa_Addr (Destination md) in
  if Addr_IsValid destination then negb (IsPublicAddr destination)
  else if negb isSource then existsb (λ a, negb (IsPublicAddr a)) (DestinationAddresses md)
  else false.

Definition IPVersionItem_Match (isIPv6 : bool) (md : InboundContext) : bool :=
  (negb (bool_decide (IPVersion md = 0%Z)) && Bool.eqb (bool_decide (IPVersion md = 6%Z)) isIPv6)
  || (IsIP (Destination md) && Bool.eqb (IsIPv6 (Destination md)) isIPv6).

Definition NetworkItem_Match (networkMap : gset string) (md : InboundContext) : bool :=
  bool_decide (Network md ∈ networkMap).

Definition NetworkIsConstrainedItem_Match (rt : Runtime) : bool :=
  match DefaultNetworkInterface rt with None => false | Some i => ni_Constrained i end.

Definition NetworkIsExpensiveItem_Match (rt : Runtime) : bool :=
  match DefaultNetworkInterface rt with None => false | Some i => ni_Expensive i end.

Definition NetworkTypeItem_Match (rt : Runtime) (networkType : list InterfaceType) : bool :=
  match DefaultNetworkInterface rt with None => false | Some i => bool_decide (ni_Type i ∈ networkType) end.

Definition OutboundItem_Match (outboundMap : gset string) (matchAny : bool) (md : InboundContext) : bool :=
  if matchAny then negb (bool_decide (Outbound md = "")) else bool_decide (Outbound md ∈ outboundMap).

Definition PackageNameItem_Match (packageMap : gset string) (md : InboundContext) : bool :=
  match ProcessInfo md with
  | None => false
  | Some p =>
      if decide (length (AndroidPackageNames p) = 0) then false
      else existsb (λ n, bool_decide (n ∈ packageMap)) (AndroidPackageNames p)
  end.

Definition PortItem_Match (portMap : gset Z) (isSource : bool) (md : InboundContext) : bool :=
  if isSource then bool_decide (sa_Port (Source md) ∈ portMap)
  else bool_decide (sa_Port (Destination md) ∈ portMap).

Definition PortRangeItem_Match (isSource : bool) (ranges : list rangeItem) (md : InboundContext) : bool :=
  let port := if isSource then sa_Port (Source md) else sa_Port (Destination md) in
  existsb (λ r, (r_start r <=? port)%Z && (port <=? r_end r)%Z) ranges.

Definition PreferredByItem_Match (outbounds : list nat) (md : InboundContext) : bool :=
  (negb (bool_decide (domainHost md = "")) && existsb (λ o, PreferredDomain o (domainHost md)) outbounds)
  || (IsIP (Destination md) && existsb (λ o, PreferredAddress o (sa_Addr (Destination md))) outbounds)
  || existsb (λ a, existsb (λ o, PreferredAddress o a) outbounds) (DestinationAddresses md).

Definition ProcessItem_Match (processMap : gset string) (md : InboundContext) : bool :=
  match ProcessInfo md with
  | None => false
  | Some p =>
      if decide (ProcessPath p = "") then false
      else bool_decide (filepath_Base (ProcessPath p) ∈ processMap)
  end.

Definition ProcessPathItem_Match (processMap : gset string) (md : InboundContext) : bool :=
  match ProcessInfo md with
  | None => false
  | Some p =>
      (negb (bool_decide (ProcessPath p = "")) && bool_decide (ProcessPath p ∈ processMap))
      || (IsAndroid && existsb (λ n, bool_decide (n ∈ processMap)) (AndroidPackageNames p))
  end.

Definition ProcessPathRegexItem_Match (matchers : list Regexp) (md : InboundContext) : bool :=
  match ProcessInfo md with
  | None => false
  | Some p =>
      if decide (ProcessPath p = "") then false else existsb (λ m, MatchString m (ProcessPath p)) matchers
  end.

Definition ProtocolItem_Match (protocolMap : gset string) (md : InboundContext) : bool :=
  bool_decide (Protocol md ∈ protocolMap).

Definition QueryTypeItem_Match (typeMap : gset Z) (md : InboundContext) : bool :=
  if decide (QueryType md = 0%Z) then false else bool_decide (QueryType md ∈ typeMap).

Definition UserItem_Match (userMap : gset string) (md : InboundContext) : bool :=
  match ProcessInfo md with
  | None => false
  | Some p => if decide (UserName p = "") then false else bool_decide (UserName p ∈ userMap)
  end.

Definition UserIdItem_Match (userIdMap : gset Z) (md : InboundContext) : bool :=
  match ProcessInfo md with
  | None => false
  | Some p => if decide (UserId p = -1)%Z then false else bool_decide (UserId p ∈ userIdMap)
  end.

Definition WIFIBSSIDItem_Match (rt : Runtime) (bssidMap : gset string) : bool :=
  bool_decide (WIFIState_BSSID rt ∈ bssidMap).

Definition WIFISSIDItem_Match (rt : Runtime) (ssidMap : gset string) : bool :=
  bool_decide (WIFIState_SSID rt ∈ ssidMap).

(** [common.Find] answers the zero interface, whose name is empty, when there
    is none; the map is walked in any order. *)
Definition InterfaceAddressItem_Match (rt : Runtime) (wanted : gmap string (list Prefix)) : bool :=
  forallb (λ '(ifName, addresses),
    let iface := default (mkInterface "" [])
                   (snd <$> list_find (λ it, if_Name it = ifName) (Finder_Interfaces rt)) in
    if decide (if_Name iface = "") then false
    else negb (forallb (λ address, forallb (λ it, negb (Prefix_Overlaps address it)) (if_Addresses iface))
                 addresses)) (map_to_list wanted).

Definition NetworkInterfaceAddressItem_Match (rt : Runtime) (wanted : gmap Z (list Prefix)) : bool :=
  forallb (λ '(ifType, addresses),
    existsb (λ ni,
      negb (bool_decide (if_Name (ni_Interface ni) ∈ MyInterfaces rt))
      && bool_decide (ni_Type ni = ifType)
      && existsb (λ it, existsb (λ prefix, Prefix_Overlaps prefix it) addresses) (if_Addresses (ni_Interface ni)))
      (NetworkInterfaces rt)) (map_to_list wanted).

Definition DefaultInterfaceAddressItem_Match (rt : Runtime) (wanted : list Prefix) : bool :=
  match Monitor_DefaultInterface rt with
  | None => false
  | Some defaultInterface =>
      forallb (λ address, negb (forallb (λ it, negb (Prefix_Overlaps address it)) (if_Addresses defaultInterface)))
        wanted
  end.

(** [item.Match(metadata)]. *)
Definition Item_Match (rt : Runtime) (i : Item) (md : InboundContext) : bool :=
  match i with
  | AdGuardDomainItem m => AdGuardDomainItem_Match m md
  | AuthUserItem _ m => AuthUserItem_Match m md
  | IPCIDRItem s src _ => IPCIDRItem_Match s src md
  | ClashModeItem srv mode => ClashModeItem_Match rt srv mode
  | ClientItem _ m => ClientItem_Match m md
  | DomainItem m _ => DomainItem_Match m md
  | DomainKeywordItem ks => DomainKeywordItem_Match ks md
  | DomainRegexItem ms _ => DomainRegexItem_Match ms md
  | InboundItem _ m => InboundItem_Match m md
  | IPAcceptAnyItem => IPAcceptAnyItem_Match md
  | IPIsPrivateItem src => IPIsPrivateItem_Match src md
  | IPVersionItem v6 => IPVersionItem_Match v6 md
  | NetworkItem _ m => NetworkItem_Match m md
  | NetworkIsConstrainedItem => NetworkIsConstrainedItem_Match rt
  | NetworkIsExpensiveItem => NetworkIsExpensiveItem_Match rt
  | NetworkTypeItem ts => NetworkTypeItem_Match rt ts
  | OutboundItem _ m any => OutboundItem_Match m any md
  | PackageNameItem _ m => PackageNameItem_Match m md
  | PortItem _ m src => PortItem_Match m src md
  | PortRangeItem src _ rs => PortRangeItem_Match src rs md
  | PreferredByItem _ os => PreferredByItem_Match os md
  | ProcessItem _ m => ProcessItem_Match m md
  | ProcessPathItem _ m => ProcessPathItem_Match m md
  | ProcessPathRegexItem ms _ => ProcessPathRegexItem_Match ms md
  | ProtocolItem _ m => ProtocolItem_Match m md
  | QueryTypeItem _ m => QueryTypeItem_Match m md
  | UserItem _ m => UserItem_Match m md
  | UserIdItem _ m => UserIdItem_Match m md
  | WIFIBSSIDItem _ m => WIFIBSSIDItem_Match rt m
  | WIFISSIDItem _ m => WIFISSIDItem_Match rt m
  | InterfaceAddressItem m _ => InterfaceAddressItem_Match rt m
  | NetworkInterfaceAddressItem m _ => NetworkInterfaceAddressItem_Match rt m
  | DefaultInterfaceAddressItem ps => DefaultInterfaceAddressItem_Match rt ps
  end.

(** *** Printing *)

Definition AdGuardDomainItem_String : string := "!adguard_domain_rules=<binary>".
Definition AuthUserItem_String (users : list string) : string := listed "auth_user=" users.
Definition IPCIDRItem_String (description : string) : string := description.
Definition ClashModeItem_String (mode : string) : string := "clash_mode=" +:+ mode.
Definition ClientItem_String (clients : list string) : string := listed "client=" clients.
Definition DomainItem_String (description : string) : string := description.
Definition DomainKeywordItem_String (keywords : list string) : string := abbreviated "domain_keyword=" keywords.
Definition DomainRegexItem_String (description : string) : string := description.
Definition InboundItem_String (inbounds : list string) : string := listed "inbound=" inbounds.
Definition IPAcceptAnyItem_String : string := "ip_accept_any=true".
Definition IPIsPrivateItem_String (isSource : bool) : string := if isSource then "source_ip_is_private=true" else "ip_is_private=true".
Definition IPVersionItem_String (isIPv6 : bool) : string := "ip_version=" +:+ (if isIPv6 then "6" else "4").
Definition NetworkItem_String (networks : list string) : string := listed "network=" networks.
Definition NetworkIsConstrainedItem_String : string := "network_is_expensive=true".
Definition NetworkIsExpensiveItem_String : string := "network_is_expensive=true".
Definition NetworkTypeItem_String (types : list InterfaceType) : string := listed "network_type=" (InterfaceType_String <$> types).
Definition OutboundItem_String (outbounds : list string) : string := listed "outbound=" outbounds.
Definition PackageNameItem_String (names : list string) : string := listed "package_name=" names.
Definition PortItem_String (isSource : bool) (ports : list Z) : string := listed (if isSource then "source_port=" else "port=") (pretty <$> ports).
Definition PortRangeItem_String (isSource : bool) (ranges : list string) : string := listed (if isSource then "source_port_range=" else "port_range=") ranges.
Definition PreferredByItem_String (tags : list string) : string := listed "preferred_by=" tags.
Definition ProcessItem_String (names : list string) : string := listed "process_name=" names.
Definition ProcessPathItem_String (names : list string) : string := listed "process_path=" names.
Definition ProcessPathRegexItem_String (description : string) : string := description.
Definition ProtocolItem_String (protocols : list string) : string := listed "protocol=" protocols.
Definition QueryTypeItem_String (types : list Z) : string := listed "query_type=" (DNSQueryTypeToString <$> types).
Definition UserItem_String (users : list string) : string := listed "user=" users.
Definition UserIdItem_String (ids : list Z) : string := listed "user_id=" (pretty <$> ids).
Definition WIFIBSSIDItem_String (bssids : list string) : string := listed "wifi_bssid=" bssids.
Definition WIFISSIDItem_String (ssids : list string) : string := listed "wifi_ssid=" ssids.
Definition InterfaceAddressItem_String (description : string) : string := description.
Definition NetworkInterfaceAddressItem_String (description : string) : string := description.
Definition DefaultInterfaceAddressItem_String (ps : list Prefix) : string := abbreviated "default_interface_address=" (Prefix_String <$> ps).

(** [item.String()]. *)
Definition Item_String (i : Item) : string :=
  match i with
  | AdGuardDomainItem _ => AdGuardDomainItem_String
  | AuthUserItem users _ => AuthUserItem_String users
  | IPCIDRItem _ _ description => IPCIDRItem_String description
  | ClashModeItem _ mode => ClashModeItem_String mode
  | ClientItem clients _ => ClientItem_String clients
  | DomainItem _ description => DomainItem_String description
  | DomainKeywordItem keywords => DomainKeywordItem_String keywords
  | DomainRegexItem _ description => DomainRegexItem_String description
  | InboundItem inbounds _ => InboundItem_String inbounds
  | IPAcceptAnyItem => IPAcceptAnyItem_String
  | IPIsPrivateItem isSource => IPIsPrivateItem_String isSource
  | IPVersionItem isIPv6 => IPVersionItem_String isIPv6
  | NetworkItem networks _ => NetworkItem_String networks
  | NetworkIsConstrainedItem => NetworkIsConstrainedItem_String
  | NetworkIsExpensiveItem => NetworkIsExpensiveItem_String
  | NetworkTypeItem types => NetworkTypeItem_String types
  | OutboundItem outbounds _ _ => OutboundItem_String outbounds
  | PackageNameItem names _ => PackageNameItem_String names
  | PortItem ports _ isSource => PortItem_String isSource ports
  | PortRangeItem isSource ranges _ => PortRangeItem_String isSource ranges
  | PreferredByItem tags _ => PreferredByItem_String tags
  | ProcessItem names _ => ProcessItem_String names
  | ProcessPathItem names _ => ProcessPathItem_String names
  | ProcessPathRegexItem _ description => ProcessPathRegexItem_String description
  | ProtocolItem protocols _ => ProtocolItem_String protocols
  | QueryTypeItem types _ => QueryTypeItem_String types
  | UserItem users _ => UserItem_String users
  | UserIdItem ids _ => UserIdItem_String ids
  | WIFIBSSIDItem bssids _ => WIFIBSSIDItem_String bssids
  | WIFISSIDItem ssids _ => WIFISSIDItem_String ssids
  | InterfaceAddressItem _ description => InterfaceAddressItem_String description
  | NetworkInterfaceAddressItem _ description => NetworkInterfaceAddressItem_String description
  | DefaultInterfaceAddressItem ps => DefaultInterfaceAddressItem_String ps
  end.
End items.
