(* ===== verification/Netip.v ===== *)
(** * Addresses and prefixes as bytes

    The part of net/netip the fake-IP store, the cache file and the binary
    rule sets use beside that of RuleItems: addresses as big-endian bytes, the
    next address, membership in a prefix and the binary form of both. *)
From S2P Require Import Prelude Bytes RuleItems.

#[export] Instance Addr_countable : Countable Addr.
Proof.
  refine (inj_countable' (λ a, match a with AddrInvalid => inl () | Addr4 b => inr (inl b) | Addr6 b z => inr (inr (b, z)) end)
            (λ x, match x with inl () => AddrInvalid | inr (inl b) => Addr4 b | inr (inr (b, z)) => Addr6 b z end) _).
  by intros [].
Defined.

(** ** Big-endian integers of any width *)

Fixpoint be (n : nat) (z : Z) : bytes :=
  match n with 0 => [] | S n => be n (Z.shiftr z 8) ++ [u8 z] end.
Definition of_be (l : bytes) : Z := foldl (λ acc b, Z.lor (Z.shiftl acc 8) (val b)) 0%Z l.

Lemma of_be_snoc l b : of_be (l ++ [b]) = (of_be l * 256 + val b)%Z.
Proof. unfold of_be. rewrite foldl_app. cbn [foldl]. rewrite lor_shiftl_add; [done|lia|]. apply val_range. Qed.

Lemma length_be n z : length (be n z) = n.
Proof. revert z. induction n as [|n IH]; intros z; cbn [be]; [done|]. rewrite length_app, IH. cbn. lia. Qed.

Lemma of_be_range l : (0 <= of_be l < 2 ^ (8 * Z.of_nat (length l)))%Z.
Proof.
  induction l as [|b l IH] using rev_ind; [done|]. rewrite of_be_snoc, length_app. cbn [length].
  replace (8 * Z.of_nat (length l + 1))%Z with (8 * Z.of_nat (length l) + 8)%Z by lia.
  rewrite Z.pow_add_r by lia. pose proof (val_range b). change (2 ^ 8)%Z with 256%Z. nia.
Qed.

Lemma of_be_be n z : (0 <= z < 2 ^ (8 * Z.of_nat n))%Z → of_be (be n z) = z.
Proof.
  revert z. induction n as [|n IH]; intros z Hz; cbn [be].
  { change (2 ^ (8 * Z.of_nat 0))%Z with 1%Z in Hz. cbn. lia. }
  replace (8 * Z.of_nat (S n))%Z with (8 * Z.of_nat n + 8)%Z in Hz by lia. rewrite Z.pow_add_r in Hz by lia.
  change (2 ^ 8)%Z with 256%Z in Hz. rewrite of_be_snoc, val_u8, Z.shiftr_div_pow2 by lia.
  change (2 ^ 8)%Z with 256%Z. rewrite IH; [rewrite (Z.div_mod z 256) at 3 by lia; lia|].
  split; [apply Z.div_pos; lia|]. apply Z.div_lt_upper_bound; lia.
Qed.

Lemma be_of_be l : be (length l) (of_be l) = l.
Proof.
  induction l as [|b l IH] using rev_ind; [done|]. rewrite length_app. cbn [length].
  replace (length l + 1) with (S (length l)) by lia. cbn [be]. rewrite of_be_snoc.
  rewrite Z.shiftr_div_pow2 by lia. change (2 ^ 8)%Z with 256%Z. pose proof (val_range b).
  rewrite Z.div_add_l, (Z.div_small (val b)), Z.add_0_r, IH by lia. do 2 f_equal.
  unfold u8. rewrite Z.add_comm, Z_mod_plus_full. fold (u8 (val b)). apply u8_val.
Qed.

(** Bits of a big-endian number are those of its bytes, from the end. *)
Lemma testbit_byte_high b i : (8 <= i)%Z → Z.testbit (val b) i = false.
Proof.
  intros Hi. pose proof (val_range b). destruct (decide (val b = 0)%Z) as [->|]; [apply Z.bits_0|].
  apply Z.bits_above_log2; [lia|]. assert (Z.log2 (val b) < 8)%Z; [|lia]. apply Z.log2_lt_pow2; lia.
Qed.

Lemma testbit_of_be l i : (0 <= i)%Z →
  Z.testbit (of_be l) i
  = match rev l !! Z.to_nat (i / 8) with Some b => Z.testbit (val b) (i mod 8) | None => false end.
Proof.
  revert i. induction l as [|b l IH] using rev_ind; intros i Hi; [apply Z.bits_0|].
  rewrite rev_app_distr. cbn [rev app]. unfold of_be. rewrite foldl_app. cbn [foldl]. fold (of_be l).
  rewrite Z.lor_spec, Z.shiftl_spec by done. destruct (decide (i < 8)%Z).
  - rewrite Z.div_small, Z.mod_small by lia. rewrite Z.testbit_neg_r by lia. done.
  - rewrite (testbit_byte_high b i), orb_false_r, IH by lia.
    replace (i - 8)%Z with (i + (-1) * 8)%Z by lia. rewrite Z_div_plus_full, Z_mod_plus_full by lia.
    assert (1 <= i / 8)%Z by (apply Z.div_le_lower_bound; lia).
    replace (Z.to_nat (i / 8)) with (S (Z.to_nat (i / 8 + -1))) by lia. done.
Qed.

#[global] Arguments be : simpl never.
#[global] Arguments of_be : simpl never.

(** ** Addresses *)

(** Addresses and prefixes as [netip] makes them. *)
Definition wf_addr (a : Addr) : Prop :=
  match a with
  | AddrInvalid => True
  | Addr4 b => (0 <= b < 2 ^ 32)%Z
  | Addr6 b _ => (0 <= b < 2 ^ 128)%Z
  end.
Definition zone_of (a : Addr) : string := match a with Addr6 _ z => z | _ => "" end.
Definition withoutZone (a : Addr) : Addr := match a with Addr6 b _ => Addr6 b "" | a => a end.
Definition BitLen (a : Addr) : Z := match a with AddrInvalid => 0 | Addr4 _ => 32 | Addr6 _ _ => 128 end.
Definition addr_num (a : Addr) : Z := match a with AddrInvalid => 0 | Addr4 b | Addr6 b _ => b end.
Definition Addr_Is6 (a : Addr) : bool := match a with Addr6 _ _ => true | _ => false end.

(** [Addr.Next]. *)
Definition Next (a : Addr) : Addr :=
  match a with
  | AddrInvalid => AddrInvalid
  | Addr4 b => if decide (b + 1 < 2 ^ 32)%Z then Addr4 (b + 1) else AddrInvalid
  | Addr6 b z => if decide (b + 1 < 2 ^ 128)%Z then Addr6 (b + 1) z else AddrInvalid
  end.

(** [Addr.AsSlice], [Addr.As16] and [netip.AddrFromSlice]; an IPv4 address has
    the prefix ::ffff:0:0 in its long form. *)
Definition AsSlice (a : Addr) : bytes :=
  match a with AddrInvalid => [] | Addr4 b => be 4 b | Addr6 b _ => be 16 b end.
Definition As16 (a : Addr) : bytes :=
  match a with
  | AddrInvalid => be 16 0
  | Addr4 b => be 16 (Z.lor (Z.shiftl 65535 32) b)
  | Addr6 b _ => be 16 b
  end.
Definition AddrFrom4 (l : bytes) : Addr := Addr4 (of_be l).
Definition AddrFrom16 (l : bytes) : Addr := Addr6 (of_be l) "".
Definition AddrFromSlice (l : bytes) : option Addr :=
  if decide (length l = 4) then Some (AddrFrom4 l) else if decide (length l = 16) then Some (AddrFrom16 l) else None.

(** [netip.PrefixFrom] and [Prefix.Contains]. *)
Definition PrefixFrom (a : Addr) (bits : Z) : Prefix :=
  mkPrefix (withoutZone a)
    (if Addr_IsValid a && bool_decide (0 <= bits <= BitLen a)%Z then bits else (-1)%Z).
Definition Prefix_Contains (p : Prefix) (a : Addr) : bool :=
  Prefix_IsValid p && bool_decide (zone_of a = "") && bool_decide (BitLen (p_ip p) = BitLen a)
  && (Z.shiftr (Z.lxor (addr_num a) (addr_num (p_ip p))) (BitLen a - p_bits p) =? 0)%Z.

Definition wf_prefix (p : Prefix) : Prop :=
  wf_addr (p_ip p) ∧ zone_of (p_ip p) = "" ∧
  (if Addr_IsValid (p_ip p) then (-1 <= p_bits p <= BitLen (p_ip p))%Z else p_bits p = (-1)%Z).

(** ** Binary form *)

(** [Addr.MarshalBinary] and [UnmarshalBinary]. *)
Definition Addr_MarshalBinary (a : Addr) : bytes :=
  AsSlice a ++ String.list_ascii_of_string (zone_of a).
Definition Addr_UnmarshalBinary (l : bytes) : result Addr :=
  if decide (length l = 0) then Ok AddrInvalid
  else if decide (length l = 4) then Ok (AddrFrom4 l)
  else if decide (16 <= length l)
    then Ok (Addr6 (of_be (take 16 l)) (String.string_of_list_ascii (drop 16 l)))
  else Err (ENew "unexpected slice size").

(** [Prefix.MarshalBinary] and [UnmarshalBinary]: the last byte is the number
    of bits, 255 when the prefix is invalid. *)
Definition Prefix_MarshalBinary (p : Prefix) : bytes := AsSlice (p_ip p) ++ [u8 (p_bits p)].
Definition Prefix_UnmarshalBinary (l : bytes) : result Prefix :=
  match last l with
  | None => Err (ENew "unexpected slice size")
  | Some b =>
      let? a := Addr_UnmarshalBinary (removelast l) in
      Ok (PrefixFrom a (val b))
  end.

Lemma AddrFromSlice_AsSlice a : wf_addr a → zone_of a = "" → Addr_IsValid a = true → AddrFromSlice (AsSlice a) = Some a.
Proof.
  intros Hwf Hz Hv. unfold AddrFromSlice, AddrFrom4, AddrFrom16.
  destruct a as [|b|b z]; [done| |]; cbn [AsSlice wf_addr zone_of] in *; rewrite length_be.
  - by rewrite decide_True, of_be_be.
  - rewrite decide_False, decide_True, of_be_be by done. congruence.
Qed.

Lemma string_of_list_of_string s : String.string_of_list_ascii (String.list_ascii_of_string s) = s.
Proof. induction s; cbn; congruence. Qed.

Lemma list_of_string_of_list l : String.list_ascii_of_string (String.string_of_list_ascii l) = l.
Proof. induction l; cbn; congruence. Qed.

Lemma Addr_unmarshal_marshal a : wf_addr a → Addr_UnmarshalBinary (Addr_MarshalBinary a) = Ok a.
Proof.
  intros Hwf. unfold Addr_UnmarshalBinary, Addr_MarshalBinary, AddrFrom4. rewrite length_app.
  destruct a as [|b|b z]; [done| |]; cbn [AsSlice zone_of]; rewrite length_be.
  - cbn. by rewrite app_nil_r, of_be_be.
  - rewrite !decide_False by lia. rewrite decide_True by lia.
    rewrite take_app_length', drop_app_length' by (by rewrite length_be).
    by rewrite of_be_be, string_of_list_of_string.
Qed.

(** A prefix is made again from its address and the byte of its bits. *)
Lemma PrefixFrom_byte p : wf_prefix p → PrefixFrom (p_ip p) (val (u8 (p_bits p))) = p.
Proof.
  intros (Hwf & Hz & Hb). destruct p as [a n]; cbn in *. unfold PrefixFrom. f_equal.
  { destruct a; cbn in *; congruence. }
  rewrite val_u8. destruct a as [|b|b z]; cbn in *; [done| |].
  all: destruct (decide (n = -1)%Z) as [->|]; [done|]; rewrite Z.mod_small by lia; by rewrite bool_decide_true by lia.
Qed.

Lemma Prefix_unmarshal_marshal p : wf_prefix p → Prefix_UnmarshalBinary (Prefix_MarshalBinary p) = Ok p.
Proof.
  intros Hp. pose proof Hp as (Hwf & Hz & _). unfold Prefix_UnmarshalBinary, Prefix_MarshalBinary.
  rewrite last_snoc, removelast_last. pose proof (Addr_unmarshal_marshal (p_ip p) Hwf) as Hm.
  unfold Addr_MarshalBinary in Hm. rewrite Hz in Hm. cbn [String.list_ascii_of_string] in Hm. rewrite app_nil_r in Hm.
  rewrite Hm. cbn [result_bind]. by rewrite PrefixFrom_byte.
Qed.

(** [M.AddrFromIP] of the sing library: the address with these bytes. *)
Class SingAddr := {
  AddrFromIP : bytes → Addr;
  AddrFromIP_AsSlice a : wf_addr a → zone_of a = "" → AddrFromIP (AsSlice a) = a;
}.

Module NetipRun.
(** An address of four or sixteen bytes, kept as it is. *)
#[export, refine] Instance sing_addr : SingAddr := { AddrFromIP l := default AddrInvalid (AddrFromSlice l) }.
Proof. intros a Hw Hz. destruct (Addr_IsValid a) eqn:Hv; [by rewrite AddrFromSlice_AsSlice|]. by destruct a. Defined.
End NetipRun.
