(* ===== verification/Rules.v ===== *)
(** * Routing rules and rule sets

    Model of the matching part of src/runtime/sing-box/route/rule:
    rule_abstract.go (default and logical rules), rule_item_rule_set.go and the
    matching methods of rule_set_local.go.  Route rules, DNS rules and headless
    rules share these two abstract rules.  [metadata] is mutable in the code;
    a rule writes only its [DidMatch], so the functions return the new
    context along with the set of match states. *)
From S2P Require Import Prelude MatchState RuleItems.
Import StateSet.

(** rule_set_local.go, [LocalRuleSet]: tag, rules and reference count. *)
Record RuleSetOf (R : Type) := mkRuleSet { rs_tag : string; rs_rules : list R; rs_refs : Z }.
Arguments mkRuleSet {_}.
Arguments rs_tag {_}.
Arguments rs_rules {_}.
Arguments rs_refs {_}.

(** rule_item_rule_set.go, [RuleSetItem]. *)
Record RuleSetItemOf (R : Type) := mkRuleSetItem {
  tagList : list string;
  setList : list (RuleSetOf R);
  ipCidrMatchSource : bool;
  ipCidrAcceptEmpty : bool;
}.
Arguments mkRuleSetItem {_}.
Arguments tagList {_}.
Arguments setList {_}.
Arguments ipCidrMatchSource {_}.
Arguments ipCidrAcceptEmpty {_}.

(** rule_abstract.go, [abstractDefaultRule], over the type [A] of actions. *)
Record abstractDefaultRule `{RuleEnv} (A R : Type) := mkDefaultRule {
  items : list Item;
  sourceAddressItems : list Item;
  sourcePortItems : list Item;
  destinationAddressItems : list Item;
  destinationIPCIDRItems : list Item;
  destinationPortItems : list Item;
  allItems : list (Item + RuleSetItemOf R);
  ruleSetItem : option (RuleSetItemOf R);
  invert : bool;
  action : option A;
}.
Arguments mkDefaultRule {_ _ _}.
Arguments items {_ _ _}.
Arguments sourceAddressItems {_ _ _}.
Arguments sourcePortItems {_ _ _}.
Arguments destinationAddressItems {_ _ _}.
Arguments destinationIPCIDRItems {_ _ _}.
Arguments destinationPortItems {_ _ _}.
Arguments allItems {_ _ _}.
Arguments ruleSetItem {_ _ _}.
Arguments invert {_ _ _}.
Arguments action {_ _ _}.

(** A rule: [abstractDefaultRule] or [abstractLogicalRule]. *)
Inductive Rule `{RuleEnv} (A : Type) :=
| DefaultRule (d : abstractDefaultRule A (Rule A))
| LogicalRule (rules : list (Rule A)) (mode : string) (linvert : bool) (laction : option A).
Arguments DefaultRule {_ _} d.
Arguments LogicalRule {_ _} rules mode linvert laction.

Notation RuleSet A := (RuleSetOf (Rule A)).
Notation RuleSetItem A := (RuleSetItemOf (Rule A)).

(** constant/rule.go. *)
Definition LogicalTypeAnd : string := "and".
Definition LogicalTypeOr : string := "or".

Section matching.
Context `{RuleEnv} {A : Type} (rt : Runtime).

(** [matchAnyItem]. *)
Definition matchAnyItem (its : list Item) (md : InboundContext) : bool :=
  existsb (λ it, Item_Match rt it md) its.

Section default_rule.
Context {R : Type}.
Implicit Types (r : abstractDefaultRule A R) (md : InboundContext).

Definition destinationIPCIDRMatchesSource r md : bool :=
  negb (IgnoreDestinationIPCIDRMatch md) && IPCIDRMatchSource md
  && bool_decide (0 < length (destinationIPCIDRItems r)).

Definition destinationIPCIDRMatchesDestination r md : bool :=
  negb (IgnoreDestinationIPCIDRMatch md) && negb (IPCIDRMatchSource md)
  && bool_decide (0 < length (destinationIPCIDRItems r)).

Definition requiresSourceAddressMatch r md : bool :=
  bool_decide (0 < length (sourceAddressItems r)) || destinationIPCIDRMatchesSource r md.

Definition requiresDestinationAddressMatch r md : bool :=
  bool_decide (0 < length (destinationAddressItems r)) || destinationIPCIDRMatchesDestination r md.

Definition invertedFailure r (base : Z) : Z :=
  if invert r then withBase emptyRuleMatchState base else 0%Z.

(** A group of alternatives: when it has any, it is examined, and a match
    of one of them sets its flag. *)
Definition try_group (its : list Item) (flag : Z) (p : InboundContext * Z) : InboundContext * Z :=
  let '(md, st) := p in
  let md := set_DidMatch true md in
  (md, if matchAnyItem its md then Z.lor st flag else st).

Definition group (its : list Item) (flag : Z) (p : InboundContext * Z) : InboundContext * Z :=
  if decide (0 < length its) then try_group its flag p else p.

(** The address-limit items of the destination, where they apply ([applies])
    and their flag is not set yet. *)
Definition ipcidr_group (applies : bool) (its : list Item) (flag : Z) (p : InboundContext * Z)
    : InboundContext * Z :=
  if applies && negb (has p.2 flag) then try_group its flag p
  else if applies then (set_DidMatch true p.1, p.2)
  else p.

(** The loop over [r.items]. *)
Fixpoint match_items (its : list Item) (md : InboundContext) : InboundContext * bool :=
  match its with
  | [] => (md, true)
  | it :: its =>
      let md := set_DidMatch true md in
      if Item_Match rt it md then match_items its md else (md, false)
  end.

(** The state accumulated from the groups of a rule. *)
Definition base_state r md (evaluationBase : Z) : InboundContext * Z :=
  let p := (md, evaluationBase) in
  let p := group (sourceAddressItems r) ruleMatchSourceAddress p in
  let p := ipcidr_group (destinationIPCIDRMatchesSource r p.1) (destinationIPCIDRItems r)
             ruleMatchSourceAddress p in
  let p := group (sourcePortItems r) ruleMatchSourcePort p in
  let p := group (destinationAddressItems r) ruleMatchDestinationAddress p in
  let p := ipcidr_group (destinationIPCIDRMatchesDestination r p.1) (destinationIPCIDRItems r)
             ruleMatchDestinationAddress p in
  group (destinationPortItems r) ruleMatchDestinationPort p.

(** The states the rule accepts. *)
Definition accepted r md (state : Z) : bool :=
  if requiresSourceAddressMatch r md && negb (has state ruleMatchSourceAddress) then false
  else if bool_decide (0 < length (sourcePortItems r)) && negb (has state ruleMatchSourcePort) then false
  else if requiresDestinationAddressMatch r md && negb (has state ruleMatchDestinationAddress) then false
  else if bool_decide (0 < length (destinationPortItems r)) && negb (has state ruleMatchDestinationPort)
  then false
  else true.

(** [abstractDefaultRule.matchStatesWithBase], given how the rule-set item
    matches. *)
Definition default_matchStatesWithBase (matchRuleSetItem : RuleSetItemOf R → InboundContext → Z → Z)
    r md (inheritedBase : Z) : InboundContext * Z :=
  if decide (length (allItems r) = 0) then (md, withBase emptyRuleMatchState inheritedBase)
  else
    let evaluationBase := if invert r then 0%Z else inheritedBase in
    let '(md, baseState) := base_state r md evaluationBase in
    let '(md, ok) := match_items (items r) md in
    if negb ok then (md, invertedFailure r inheritedBase)
    else
      let '(md, stateSet) :=
        match ruleSetItem r with
        | Some item => (set_DidMatch true md, matchRuleSetItem item (set_DidMatch true md) baseState)
        | None => (md, singleRuleMatchState baseState)
        end in
      let stateSet := StateSet.filter (accepted r md) stateSet in
      if isEmpty stateSet then (md, invertedFailure r inheritedBase)
      else if invert r then
        if IgnoreDestinationIPCIDRMatch md && (stateSet =? emptyRuleMatchState)%Z && negb (DidMatch md)
           && bool_decide (0 < length (destinationIPCIDRItems r))
        then (md, withBase emptyRuleMatchState inheritedBase)
        else (md, 0%Z)
      else (md, stateSet).
End default_rule.

Section rule_sets.
Context {R : Type} (matchRule : R → InboundContext → Z → InboundContext * Z).

(** [LocalRuleSet.matchStatesWithBase] (and that of a remote rule set). *)
Definition RuleSet_matchStatesWithBase (s : RuleSetOf R) (md : InboundContext) (base : Z) : Z :=
  foldl (λ stateSet rule, merge stateSet (matchRule rule (ResetRuleMatchCache md) base).2) 0%Z (rs_rules s).

(** The context a rule-set item hands to its rule sets. *)
Definition ruleset_context (item : RuleSetItemOf R) (md : InboundContext) : InboundContext :=
  set_cache (ipCidrMatchSource item) (ipCidrAcceptEmpty item) false false false false false
    (ResetRuleMatchCache md).

(** [RuleSetItem.matchStatesWithBase]. *)
Definition RuleSetItem_matchStatesWithBase (item : RuleSetItemOf R) (md : InboundContext) (base : Z) : Z :=
  foldl (λ stateSet ruleSet, merge stateSet (RuleSet_matchStatesWithBase ruleSet (ruleset_context item md) base))
    0%Z (setList item).

(** The two modes of [abstractLogicalRule.matchStatesWithBase]. *)
Fixpoint logical_and (rules : list R) (md : InboundContext) (evaluationBase stateSet : Z) : option Z :=
  match rules with
  | [] => Some stateSet
  | rule :: rules =>
      let nested := (matchRule rule (ResetRuleCache md) evaluationBase).2 in
      if isEmpty nested then None
      else logical_and rules md evaluationBase (combine stateSet nested)
  end.

Definition logical_or (rules : list R) (md : InboundContext) (evaluationBase : Z) : Z :=
  foldl (λ stateSet rule, merge stateSet (matchRule rule (ResetRuleCache md) evaluationBase).2) 0%Z rules.

(** [abstractLogicalRule.matchStatesWithBase]. *)
Definition logical_matchStatesWithBase (rules : list R) (mode : string) (linvert : bool)
    (md : InboundContext) (base : Z) : InboundContext * Z :=
  let evaluationBase := if linvert then 0%Z else base in
  let failure := if linvert then withBase emptyRuleMatchState base else 0%Z in
  if decide (mode = LogicalTypeAnd) then
    match logical_and rules md evaluationBase (withBase emptyRuleMatchState evaluationBase) with
    | None => (md, failure)
    | Some stateSet => (md, if linvert then 0%Z else stateSet)
    end
  else
    let stateSet := logical_or rules md evaluationBase in
    if isEmpty stateSet then (md, failure)
    else (md, if linvert then 0%Z else stateSet).
End rule_sets.

(** [matchHeadlessRuleStatesWithBase] of a default or logical rule. *)
Fixpoint matchStatesWithBase (r : Rule A) (md : InboundContext) (base : Z) {struct r} : InboundContext * Z :=
  match r with
  | DefaultRule d => default_matchStatesWithBase (RuleSetItem_matchStatesWithBase matchStatesWithBase) d md base
  | LogicalRule rules mode linvert _ => logical_matchStatesWithBase matchStatesWithBase rules mode linvert md base
  end.

(** [matchStates] and [Match]. *)
Definition matchStates (r : Rule A) (md : InboundContext) : InboundContext * Z := matchStatesWithBase r md 0.
Definition Match (r : Rule A) (md : InboundContext) : bool := negb (isEmpty (matchStates r md).2).

(** [Match] of a rule set and of a rule-set item. *)
Definition RuleSet_Match (s : RuleSet A) (md : InboundContext) : bool :=
  negb (isEmpty (RuleSet_matchStatesWithBase matchStatesWithBase s md 0)).
Definition RuleSetItem_Match (item : RuleSetItem A) (md : InboundContext) : bool :=
  negb (isEmpty (RuleSetItem_matchStatesWithBase matchStatesWithBase item md 0)).
End matching.
