(* ===== verification/RulesSpec.v ===== *)
(** * What the rule engine computes

    Lemmas on the model of Rules.v: an induction principle for rules, the
    independence of items from the rule cache, closed forms for the loops, and
    the specification of default rules, logical rules and rule sets. *)
From S2P Require Import Prelude MatchState RuleItems Rules.
Import StateSet.

(** ** Induction on rules *)

Section induction.
Context `{RuleEnv} {A : Type}.
Context (P : Rule A → Prop).
Hypothesis Hdefault : ∀ d,
  (∀ item s r, ruleSetItem d = Some item → s ∈ setList item → r ∈ rs_rules s → P r) → P (DefaultRule d).
Hypothesis Hlogical : ∀ rules mode inv act, (∀ r, r ∈ rules → P r) → P (LogicalRule rules mode inv act).

Fixpoint Rule_strong_ind (r : Rule A) : P r.
Proof.
  assert (∀ rules, Forall P rules → ∀ r, r ∈ rules → P r) as Hall.
  { intros rules HF. by apply Forall_forall. }
  destruct r as [d|rules mode inv act].
  - apply Hdefault. destruct d as [i1 i2 i3 i4 i5 i6 al rsi inv act]. cbn [ruleSetItem].
    destruct rsi as [[tags sets ms ae]|]; [|intros ??? Hn; discriminate Hn].
    assert (Forall (λ s, Forall P (rs_rules s)) sets) as Hsets.
    { induction sets as [|[tag rules refs] sets IHs]; constructor; [|exact IHs]. cbn [rs_rules].
      induction rules as [|r' rules IHr]; constructor; [exact (Rule_strong_ind r')|exact IHr]. }
    clear Rule_strong_ind. intros item s r [= <-] Hs Hr. cbn [setList] in Hs.
    rewrite Forall_forall in Hsets. eapply Hall; [by apply Hsets|done].
  - apply Hlogical.
    assert (Forall P rules) as HF.
    { induction rules as [|r' rules IHr]; constructor; [exact (Rule_strong_ind r')|exact IHr]. }
    clear Rule_strong_ind. by apply Hall.
Qed.
End induction.

(** ** Items and the rule cache *)

Section cache.
Context `{RuleEnv} {A : Type} (rt : Runtime).

(** No item reads [DidMatch] or the other match flags. *)
Lemma Item_Match_cache it sa sp da dp did md :
  Item_Match rt it (set_cache (IPCIDRMatchSource md) (IPCIDRAcceptEmpty md) sa sp da dp did md) = Item_Match rt it md.
Proof. by destruct it. Qed.

Lemma Item_Match_DidMatch it b md : Item_Match rt it (set_DidMatch b md) = Item_Match rt it md.
Proof. apply Item_Match_cache. Qed.

Lemma matchAnyItem_DidMatch its b md : matchAnyItem rt its (set_DidMatch b md) = matchAnyItem rt its md.
Proof. unfold matchAnyItem. induction its as [|it its IH]; simpl; [done|]. by rewrite Item_Match_DidMatch, IH. Qed.

Lemma set_DidMatch_twice a b md : set_DidMatch a (set_DidMatch b md) = set_DidMatch a md.
Proof. done. Qed.

Lemma set_DidMatch_self md : set_DidMatch (DidMatch md) md = md.
Proof. by destruct md. Qed.

Lemma match_items_spec its : ∀ md,
  ∃ b, match_items rt its md = (set_DidMatch b md, forallb (λ it, Item_Match rt it md) its) ∧
    b = DidMatch md || bool_decide (0 < length its).
Proof.
  induction its as [|it its IH]; intros md; cbn [match_items].
  - exists (DidMatch md). rewrite set_DidMatch_self. simpl. by rewrite orb_false_r.
  - exists true. rewrite orb_true_r. split; [|done]. cbn [forallb]. rewrite Item_Match_DidMatch.
    destruct (Item_Match rt it md) eqn:Hit; [|done].
    destruct (IH (set_DidMatch true md)) as (b & -> & ->). rewrite set_DidMatch_twice. by cbn [orb andb].
Qed.

(** *** The flags a default rule finds on its own *)

Section flags.
Context {R : Type}.
Implicit Types (d : abstractDefaultRule A R).

Definition flag_if (b : bool) (flag : Z) : Z := if b then flag else 0%Z.

Definition source_matches d md : bool :=
  matchAnyItem rt (sourceAddressItems d) md
  || (destinationIPCIDRMatchesSource d md && matchAnyItem rt (destinationIPCIDRItems d) md).
Definition destination_matches d md : bool :=
  matchAnyItem rt (destinationAddressItems d) md
  || (destinationIPCIDRMatchesDestination d md && matchAnyItem rt (destinationIPCIDRItems d) md).

Definition own_flags d md : Z :=
  Z.lor (flag_if (source_matches d md) ruleMatchSourceAddress)
    (Z.lor (flag_if (matchAnyItem rt (sourcePortItems d) md) ruleMatchSourcePort)
       (Z.lor (flag_if (destination_matches d md) ruleMatchDestinationAddress)
          (flag_if (matchAnyItem rt (destinationPortItems d) md) ruleMatchDestinationPort))).

(** The rule has a condition on addresses or ports that is examined. *)
Definition examined d md : bool :=
  requiresSourceAddressMatch d md || bool_decide (0 < length (sourcePortItems d))
  || requiresDestinationAddressMatch d md || bool_decide (0 < length (destinationPortItems d)).

Lemma group_spec its flag md b st :
  group rt its flag (set_DidMatch b md, st) =
  (set_DidMatch (b || bool_decide (0 < length its)) md, Z.lor st (flag_if (matchAnyItem rt its md) flag)).
Proof.
  unfold group, try_group. case_decide as Hl.
  - rewrite bool_decide_true, orb_true_r, set_DidMatch_twice, matchAnyItem_DidMatch by done.
    destruct (matchAnyItem _ _ _); simpl; by rewrite ?Z.lor_0_r.
  - rewrite bool_decide_false, orb_false_r by done. destruct its; simpl in *; [by rewrite Z.lor_0_r|lia].
Qed.

Lemma has_absorb st flag : (flag = 1 ∨ flag = 2 ∨ flag = 4 ∨ flag = 8)%Z → has st flag = true → Z.lor st flag = st.
Proof.
  intros Hf Hh. apply Z.bits_inj'. intros n Hn. rewrite Z.lor_spec.
  assert (∃ k, (0 ≤ k)%Z ∧ flag = (2 ^ k)%Z) as (k & Hk & ->).
  { destruct Hf as [->|[->|[->| ->]]]; [exists 0%Z|exists 1%Z|exists 2%Z|exists 3%Z]; done. }
  destruct (decide (n = k)) as [->|Hne]; [|rewrite (Z.pow2_bits_false k n) by done; apply orb_false_r].
  unfold has in Hh. apply negb_true_iff, Z.eqb_neq in Hh. rewrite Z.pow2_bits_true by done.
  destruct (Z.testbit st k) eqn:Hb; [done|]. exfalso. apply Hh. apply Z.bits_inj'. intros m Hm.
  rewrite Z.land_spec, Z.bits_0. destruct (decide (m = k)) as [->|]; [by rewrite Hb|].
  rewrite Z.pow2_bits_false by done. apply andb_false_r.
Qed.

Lemma ipcidr_group_spec applies its flag md b st :
  (flag = 1 ∨ flag = 2 ∨ flag = 4 ∨ flag = 8)%Z →
  ipcidr_group rt applies its flag (set_DidMatch b md, st) =
  (set_DidMatch (b || applies) md, Z.lor st (flag_if (applies && matchAnyItem rt its md) flag)).
Proof.
  intros Hf. unfold ipcidr_group, try_group. simpl. destruct applies; simpl.
  - rewrite orb_true_r, set_DidMatch_twice, matchAnyItem_DidMatch.
    destruct (has st flag) eqn:Hh; simpl; destruct (matchAnyItem _ _ _); simpl;
      rewrite ?Z.lor_0_r, ?has_absorb by done; done.
  - by rewrite orb_false_r, Z.lor_0_r.
Qed.

Lemma flag_if_or a b flag : Z.lor (flag_if a flag) (flag_if b flag) = flag_if (a || b) flag.
Proof. destruct a, b; simpl; rewrite ?Z.lor_diag, ?Z.lor_0_r; done. Qed.

Lemma base_state_spec_aux d md b st :
  base_state rt d (set_DidMatch b md) st =
  (set_DidMatch (b || examined d md) md, Z.lor st (own_flags d md)).
Proof.
  unfold base_state, own_flags, source_matches, destination_matches, examined,
    requiresSourceAddressMatch, requiresDestinationAddressMatch. cbn zeta.
  assert (∀ b', destinationIPCIDRMatchesSource d (set_DidMatch b' md) = destinationIPCIDRMatchesSource d md ∧
    destinationIPCIDRMatchesDestination d (set_DidMatch b' md) = destinationIPCIDRMatchesDestination d md)
    as Hm by done.
  repeat (rewrite group_spec || (rewrite ipcidr_group_spec by auto) ||
          (cbn [fst]; rewrite (proj1 (Hm _))) || (cbn [fst]; rewrite (proj2 (Hm _)))).
  rewrite <-!flag_if_or. f_equal; [f_equal; by rewrite !orb_assoc|]. by rewrite <-!Z.lor_assoc.
Qed.

Lemma base_state_spec d md st :
  base_state rt d md st = (set_DidMatch (DidMatch md || examined d md) md, Z.lor st (own_flags d md)).
Proof. rewrite <-base_state_spec_aux. by rewrite set_DidMatch_self. Qed.
End flags.
End cache.

(** ** Default rules *)

Section default_rules.
Context `{RuleEnv} {A : Type} (rt : Runtime).

(** Conjunction form of [accepted]. *)
Lemma accepted_spec {R} (d : abstractDefaultRule A R) md st :
  accepted d md st =
  (negb (requiresSourceAddressMatch d md) || has st ruleMatchSourceAddress)
  && (negb (bool_decide (0 < length (sourcePortItems d))) || has st ruleMatchSourcePort)
  && (negb (requiresDestinationAddressMatch d md) || has st ruleMatchDestinationAddress)
  && (negb (bool_decide (0 < length (destinationPortItems d))) || has st ruleMatchDestinationPort).
Proof.
  unfold accepted.
  by destruct (requiresSourceAddressMatch d md), (has st ruleMatchSourceAddress),
    (bool_decide (0 < length (sourcePortItems d))), (has st ruleMatchSourcePort),
    (requiresDestinationAddressMatch d md), (has st ruleMatchDestinationAddress),
    (bool_decide (0 < length (destinationPortItems d))), (has st ruleMatchDestinationPort).
Qed.

Lemma own_flags_state {R} (d : abstractDefaultRule A R) md : is_state (own_flags rt d md).
Proof.
  unfold own_flags, is_state. destruct (source_matches _ _ _), (matchAnyItem _ (sourcePortItems d) _),
    (destination_matches _ _ _), (matchAnyItem _ _ _); vm_compute; done.
Qed.

Lemma own_flags_has {R} (d : abstractDefaultRule A R) md :
  has (own_flags rt d md) ruleMatchSourceAddress = source_matches rt d md ∧
  has (own_flags rt d md) ruleMatchSourcePort = matchAnyItem rt (sourcePortItems d) md ∧
  has (own_flags rt d md) ruleMatchDestinationAddress = destination_matches rt d md ∧
  has (own_flags rt d md) ruleMatchDestinationPort = matchAnyItem rt (destinationPortItems d) md.
Proof.
  unfold own_flags. destruct (source_matches _ _ _), (matchAnyItem _ (sourcePortItems d) _),
    (destination_matches _ _ _), (matchAnyItem _ _ _); vm_compute; done.
Qed.

(** Every group of address and port conditions the rule has is satisfied. *)
Definition groups_match {R} (d : abstractDefaultRule A R) md : bool :=
  (negb (requiresSourceAddressMatch d md) || source_matches rt d md)
  && (negb (bool_decide (0 < length (sourcePortItems d))) || matchAnyItem rt (sourcePortItems d) md)
  && (negb (requiresDestinationAddressMatch d md) || destination_matches rt d md)
  && (negb (bool_decide (0 < length (destinationPortItems d))) || matchAnyItem rt (destinationPortItems d) md).

Lemma accepted_own_flags {R} (d : abstractDefaultRule A R) md :
  accepted d md (own_flags rt d md) = groups_match d md.
Proof. rewrite accepted_spec. unfold groups_match. by destruct (own_flags_has d md) as (-> & -> & -> & ->). Qed.

(** The states of the conditions of a rule, before inversion. *)
Definition condition_states (d : abstractDefaultRule A (Rule A)) (md : InboundContext) (base : Z) : Z :=
  if forallb (λ it, Item_Match rt it md) (items d) then
    StateSet.filter (accepted d md)
      (match ruleSetItem d with
       | Some item => RuleSetItem_matchStatesWithBase (matchStatesWithBase rt) item md (Z.lor base (own_flags rt d md))
       | None => singleRuleMatchState (Z.lor base (own_flags rt d md))
       end)
  else 0%Z.

(** Something of the rule was examined. *)
Definition did_examine (d : abstractDefaultRule A (Rule A)) (md : InboundContext) : bool :=
  DidMatch md || examined d md || bool_decide (0 < length (items d)) || bool_decide (is_Some (ruleSetItem d)).

(** The exception for DNS rules before the lookup. *)
Definition deferred (d : abstractDefaultRule A (Rule A)) (md : InboundContext) (states : Z) : bool :=
  IgnoreDestinationIPCIDRMatch md && (states =? emptyRuleMatchState)%Z && negb (did_examine d md)
  && bool_decide (0 < length (destinationIPCIDRItems d)).

Lemma default_rule_result d md base :
  allItems d ≠ [] →
  matchStatesWithBase rt (DefaultRule d) md base =
  (set_DidMatch (if forallb (λ it, Item_Match rt it md) (items d) then did_examine d md else true) md,
   let states := condition_states d md (if invert d then 0%Z else base) in
   if isEmpty states then invertedFailure d base
   else if invert d then (if deferred d md states then withBase emptyRuleMatchState base else 0%Z)
   else states).
Proof.
  intros Hall. cbn [matchStatesWithBase]. unfold default_matchStatesWithBase.
  rewrite decide_False by (by intros ?%length_zero_iff_nil).
  rewrite base_state_spec. set (did := DidMatch md || examined d md).
  destruct (match_items_spec rt (items d) (set_DidMatch did md)) as (b & -> & ->).
  rewrite set_DidMatch_twice. unfold condition_states.
  change (forallb (λ it, Item_Match rt it (set_DidMatch did md)) (items d))
    with (forallb (λ it, Item_Match rt it md) (items d)).
  destruct (forallb _ (items d)) eqn:Hok; cbn [negb].
  - unfold deferred, did_examine. fold did. destruct (ruleSetItem d) as [item|].
    + rewrite (bool_decide_true (is_Some (Some item))), orb_true_r by eauto. cbn zeta.
      change (RuleSetItem_matchStatesWithBase (matchStatesWithBase rt) item ?m ?b)
        with (RuleSetItem_matchStatesWithBase (matchStatesWithBase rt) item md b).
      destruct (isEmpty _); [done|]. destruct (invert d); [|done]. cbn [negb DidMatch set_DidMatch set_cache].
      by rewrite !andb_false_r.
    + rewrite (bool_decide_false (is_Some None)), orb_false_r by (by intros []). cbn zeta.
      destruct (isEmpty _); [done|]. destruct (invert d); [|done].
      cbn [negb DidMatch set_DidMatch set_cache IgnoreDestinationIPCIDRMatch]. by destruct (_ && _).
  - destruct (items d) as [|it its] eqn:Hits; [done|]. simpl. rewrite orb_true_r.
    unfold isEmpty, invertedFailure. simpl. done.
Qed.
End default_rules.

(** ** Unions and conjunctions *)

Lemma foldl_merge_spec {X} (f : X → Z) (l : list X) : ∀ acc,
  is_set acc → (∀ x, x ∈ l → is_set (f x)) →
  is_set (foldl (λ acc x, merge acc (f x)) acc l) ∧ ∀ st, is_state st →
    contains (foldl (λ acc x, merge acc (f x)) acc l) st = true ↔
    contains acc st = true ∨ ∃ x, x ∈ l ∧ contains (f x) st = true.
Proof.
  induction l as [|x l IH]; intros acc Hacc Hf; simpl.
  { split; [done|]. intros st _. split; [auto|]. intros [?|(y & Hy & _)]; [done|by apply not_elem_of_nil in Hy]. }
  assert (is_set (merge acc (f x))) as Hm.
  { unfold merge. apply is_set_lor; [done|]. apply Hf. by left. }
  destruct (IH _ Hm) as [Hset Hspec]; [intros y Hy; apply Hf; by right|].
  split; [done|]. intros st Hst. rewrite (Hspec st Hst), contains_merge, orb_true_iff by done.
  setoid_rewrite elem_of_cons. split.
  - intros [[?|?]|(y & ? & ?)]; eauto.
  - intros [?|(y & [->|?] & ?)]; eauto.
Qed.

Section sets.
Context `{RuleEnv} {A : Type} (rt : Runtime).
Context {R : Type} (matchRule : R → InboundContext → Z → InboundContext * Z).

(** The result of a rule is a set of states. *)
Definition in_range (r : R) : Prop := ∀ md base, is_state base → is_set (matchRule r md base).2.

Lemma RuleSet_states s md base :
  is_state base → (∀ r, r ∈ rs_rules s → in_range r) →
  is_set (RuleSet_matchStatesWithBase matchRule s md base) ∧ ∀ st, is_state st →
    contains (RuleSet_matchStatesWithBase matchRule s md base) st = true ↔
    ∃ r, r ∈ rs_rules s ∧ contains (matchRule r (ResetRuleMatchCache md) base).2 st = true.
Proof.
  intros Hb Hr. destruct (foldl_merge_spec (λ r, (matchRule r (ResetRuleMatchCache md) base).2) (rs_rules s) 0)
    as [Hset Hspec]; [eauto with go|intros r ?; by apply Hr|].
  split; [exact Hset|]. intros st Hst. unfold RuleSet_matchStatesWithBase. rewrite (Hspec st Hst), contains_0 by done.
  split; [by intros [?|?]|auto].
Qed.

Lemma RuleSetItem_states item md base :
  is_state base → (∀ s r, s ∈ setList item → r ∈ rs_rules s → in_range r) →
  is_set (RuleSetItem_matchStatesWithBase matchRule item md base) ∧ ∀ st, is_state st →
    contains (RuleSetItem_matchStatesWithBase matchRule item md base) st = true ↔
    ∃ s r, s ∈ setList item ∧ r ∈ rs_rules s ∧ contains (matchRule r (ruleset_context item md) base).2 st = true.
Proof.
  intros Hb Hr.
  destruct (foldl_merge_spec (λ s, RuleSet_matchStatesWithBase matchRule s (ruleset_context item md) base)
              (setList item) 0) as [Hset Hspec]; [eauto with go| |].
  { intros s Hs. apply RuleSet_states; [done|]. intros r. by apply Hr. }
  split; [exact Hset|]. intros st Hst. unfold RuleSetItem_matchStatesWithBase.
  rewrite (Hspec st Hst), contains_0 by done. split.
  - intros [?|(s & Hs & Hc)]; [done|]. apply RuleSet_states in Hc as (r & Hr' & Hc); [|done|intros r; by apply Hr|done].
    by exists s, r.
  - intros (s & r & Hs & Hr' & Hc). right. exists s. split; [done|].
    apply RuleSet_states; [done|intros r'; by apply Hr|done|]. by exists r.
Qed.

Lemma logical_or_states rules md base :
  is_state base → (∀ r, r ∈ rules → in_range r) →
  is_set (logical_or matchRule rules md base) ∧ ∀ st, is_state st →
    contains (logical_or matchRule rules md base) st = true ↔
    ∃ r, r ∈ rules ∧ contains (matchRule r (ResetRuleCache md) base).2 st = true.
Proof.
  intros Hb Hr. destruct (foldl_merge_spec (λ r, (matchRule r (ResetRuleCache md) base).2) rules 0)
    as [Hset Hspec]; [eauto with go|intros r ?; by apply Hr|].
  split; [exact Hset|]. intros st Hst. unfold logical_or. rewrite (Hspec st Hst), contains_0 by done.
  split; [by intros [?|?]|auto].
Qed.

(** A conjunction accumulates the unions of one state per rule. *)
Inductive joined (md : InboundContext) (base : Z) : list R → Z → Z → Prop :=
| joined_nil st : joined md base [] st st
| joined_cons r rules st x st' :
    is_state x → contains (matchRule r (ResetRuleCache md) base).2 x = true →
    joined md base rules (Z.lor st x) st' → joined md base (r :: rules) st st'.

Lemma logical_and_states rules md base : ∀ acc,
  is_state base → is_set acc → (∀ r, r ∈ rules → in_range r) →
  match logical_and matchRule rules md base acc with
  | None => ∃ r, r ∈ rules ∧ isEmpty (matchRule r (ResetRuleCache md) base).2 = true
  | Some s =>
      (∀ r, r ∈ rules → isEmpty (matchRule r (ResetRuleCache md) base).2 = false) ∧ is_set s ∧
      ∀ st, is_state st → contains s st = true ↔
        ∃ x, is_state x ∧ contains acc x = true ∧ joined md base rules x st
  end.
Proof.
  induction rules as [|r rules IH]; intros acc Hb Hacc Hr; simpl.
  { split; [by intros r ?%not_elem_of_nil|]. split; [done|]. intros st Hst. split.
    - intros Hc. exists st. split; [done|]. split; [done|]. constructor.
    - intros (x & _ & Hc & Hj). by inversion Hj; subst. }
  pose proof (Hr r (list_elem_of_here _ _) (ResetRuleCache md) base Hb) as Hrange.
  destruct (isEmpty (matchRule r (ResetRuleCache md) base).2) eqn:He; [exists r; split; [by left|done]|].
  destruct (combine_spec acc (matchRule r (ResetRuleCache md) base).2 Hacc Hrange) as [Hcs Hc].
  assert (∀ r', r' ∈ rules → in_range r') as Hr' by (intros r' ?; apply Hr; by right).
  specialize (IH _ Hb Hcs Hr'). destruct (logical_and _ _ _ _ _) as [s|].
  - destruct IH as (Hne & Hset & Hspec). split; [by intros r' [->|?]%elem_of_cons; [|apply Hne]|].
    split; [done|]. intros st Hst. rewrite (Hspec st Hst). split.
    + intros (x & Hx & Hcx & Hj). apply Hc in Hcx as (l & y & Hl & Hy & Hcl & Hcy & ->); [|done].
      exists l. split; [done|]. split; [done|]. by econstructor.
    + intros (x & Hx & Hcx & Hj). inversion Hj as [|? ? ? y ? Hy Hcy Hj']; subst.
      exists (Z.lor x y). split; [by apply is_state_lor|]. split; [|done]. apply Hc; [by apply is_state_lor|].
      by exists x, y.
  - destruct IH as (r' & ? & ?). exists r'. split; [by right|done].
Qed.
End sets.
