(* ===== verification/RulesProps.v ===== *)
(** * Properties of the rule engine

    The theorems about rules and rule sets: what default, inverted and logical
    rules match, how the states of rule sets merge with those of the rule that
    refers to them, and concrete evaluations. *)
From S2P Require Import Prelude MatchState RuleItems Rules RulesSpec.
Import StateSet.

Section properties.
Context `{RuleEnv} {A : Type} (rt : Runtime).
Notation states_of r md base := (matchStatesWithBase rt r md base).2.

Lemma withBase_empty base : is_state base →
  is_set (withBase emptyRuleMatchState base) ∧
  ∀ st, is_state st → contains (withBase emptyRuleMatchState base) st = bool_decide (st = base).
Proof.
  intros Hb. destruct (withBase_spec emptyRuleMatchState base (is_set_single 0) Hb) as [Hs Hc].
  split; [done|]. intros st Hst. apply eq_true_iff_eq. rewrite (Hc st Hst), bool_decide_eq_true. split.
  - intros (x & Hx & Hcx & ->). unfold emptyRuleMatchState in Hcx.
    rewrite contains_single, bool_decide_eq_true in Hcx by eauto with go. by subst.
  - intros ->. exists 0%Z. unfold emptyRuleMatchState. rewrite contains_single by eauto with go.
    split; [eauto with go|]. by rewrite bool_decide_true.
Qed.

(** The outcome of an inverted rule that matches holds the inherited base only. *)
Lemma failure_states (inv : bool) base :
  is_state base →
  is_set (if inv then withBase emptyRuleMatchState base else 0%Z) ∧
  ∀ st, is_state st → contains (if inv then withBase emptyRuleMatchState base else 0%Z) st = inv && bool_decide (st = base).
Proof.
  intros Hb. destruct inv; [by apply withBase_empty|]. split; [eauto with go|]. intros st Hst. by apply contains_0.
Qed.

Lemma condition_states_range d md base : is_set (condition_states rt (A := A) d md base).
Proof. unfold condition_states. destruct (forallb _ _); [apply filter_spec|eauto with go]. Qed.

(** *** Results are sets of states *)

Lemma default_range d : in_range (matchStatesWithBase rt) (DefaultRule (A := A) d).
Proof.
  intros md base Hb. destruct (decide (allItems d = [])) as [Hn|Hn].
  - cbn. unfold default_matchStatesWithBase. rewrite Hn. by apply withBase_empty.
  - rewrite (default_rule_result rt d md base Hn). cbn [snd]. cbn zeta.
    pose proof (condition_states_range d md (if invert d then 0%Z else base)).
    destruct (isEmpty _); [by apply failure_states|]. destruct (invert d); [|done].
    destruct (deferred _ _ _); [by apply withBase_empty|eauto with go].
Qed.

Lemma logical_range rules mode inv act :
  (∀ r, r ∈ rules → in_range (matchStatesWithBase rt) r) →
  in_range (matchStatesWithBase rt) (LogicalRule (A := A) rules mode inv act).
Proof.
  intros IH md base Hb. cbn [matchStatesWithBase]. unfold logical_matchStatesWithBase.
  assert (is_state (if inv then 0%Z else base)) as Heb by (destruct inv; eauto with go).
  case_decide.
  - pose proof (logical_and_states (matchStatesWithBase rt) rules md (if inv then 0%Z else base)
      (withBase emptyRuleMatchState (if inv then 0%Z else base)) Heb (proj1 (withBase_empty _ Heb)) IH) as Ha.
    destruct (logical_and _ _ _ _ _) as [s|]; [|by apply failure_states].
    destruct inv; [eauto with go|]. apply Ha.
  - destruct (logical_or_states (matchStatesWithBase rt) rules md _ Heb IH) as [Hs _].
    destruct (isEmpty _); [by apply failure_states|]. destruct inv; [eauto with go|done].
Qed.

Lemma match_in_range (r : Rule A) : in_range (matchStatesWithBase rt) r.
Proof. induction r using Rule_strong_ind; [apply default_range|by apply logical_range]. Qed.

Lemma Match_true_iff (r : Rule A) md :
  Match rt r md = true ↔ ∃ st, is_state st ∧ contains (states_of r md 0%Z) st = true.
Proof.
  unfold Match, matchStates. rewrite negb_true_iff. apply isEmpty_false. apply match_in_range. eauto with go.
Qed.

(** *** Default rules *)

(** The states of a rule-set item of a default rule. *)
Lemma item_states (d : abstractDefaultRule A (Rule A)) item md base st :
  ruleSetItem d = Some item → is_state base → is_state st →
  contains (RuleSetItem_matchStatesWithBase (matchStatesWithBase rt) item md base) st = true ↔
  ∃ s r, s ∈ setList item ∧ r ∈ rs_rules s ∧ contains (states_of r (ruleset_context item md) base) st = true.
Proof. intros _ Hb Hst. apply RuleSetItem_states; [done| |done]. intros s r _ _. apply match_in_range. Qed.

Lemma condition_contains d md base st :
  is_state base → is_state st →
  contains (condition_states rt (A := A) d md base) st = true ↔
  (∀ it, it ∈ items d → Item_Match rt it md = true) ∧ accepted d md st = true ∧
  match ruleSetItem d with
  | None => st = Z.lor base (own_flags rt d md)
  | Some item => ∃ s r, s ∈ setList item ∧ r ∈ rs_rules s ∧
      contains (states_of r (ruleset_context item md) (Z.lor base (own_flags rt d md))) st = true
  end.
Proof.
  intros Hb Hst. unfold condition_states.
  assert (is_state (Z.lor base (own_flags rt d md))) as Hbf by (apply is_state_lor; [done|apply own_flags_state]).
  assert (forallb (λ it, Item_Match rt it md) (items d) = true ↔ ∀ it, it ∈ items d → Item_Match rt it md = true) as Hall.
  { rewrite forallb_forall. by setoid_rewrite list_elem_of_In. }
  destruct (forallb _ (items d)).
  - rewrite (proj2 (filter_spec _ _) st Hst), andb_true_iff, <-Hall.
    destruct (ruleSetItem d) as [item|] eqn:Hi.
    + rewrite (item_states d item md _ st Hi Hbf Hst). tauto.
    + rewrite contains_single, bool_decide_eq_true by done. tauto.
  - rewrite contains_0 by done. split; [done|]. intros [Hf _]. apply Hall in Hf. done.
Qed.

(** A rule-set rule that fits, on the flags the referring rule found itself. *)
Definition ruleset_fits (d : abstractDefaultRule A (Rule A)) (item : RuleSetItem A) md : Prop :=
  ∃ s r st, s ∈ setList item ∧ r ∈ rs_rules s ∧ is_state st ∧
    contains (states_of r (ruleset_context item md) (own_flags rt d md)) st = true ∧ accepted d md st = true.

Lemma condition_nonempty d md :
  isEmpty (condition_states rt (A := A) d md 0) = false ↔
  (∀ it, it ∈ items d → Item_Match rt it md = true) ∧
  match ruleSetItem d with
  | None => groups_match rt d md = true
  | Some item => ruleset_fits d item md
  end.
Proof.
  rewrite isEmpty_false by apply condition_states_range. unfold ruleset_fits. split.
  - intros (st & Hst & Hc). apply condition_contains in Hc as (Hi & Ha & Hr); [|eauto with go|done].
    split; [done|]. rewrite Z.lor_0_l in Hr. destruct (ruleSetItem d) as [item|].
    + destruct Hr as (s & r & ? & ? & ?). by exists s, r, st.
    + subst st. by rewrite accepted_own_flags in Ha.
  - intros [Hi Hr]. destruct (ruleSetItem d) as [item|] eqn:Hrs.
    + destruct Hr as (s & r & st & ? & ? & Hst & ? & ?). exists st. split; [done|].
      apply condition_contains; [eauto with go|done|]. rewrite Hrs, Z.lor_0_l. split; [done|]. split; [done|].
      by exists s, r.
    + exists (own_flags rt d md). pose proof (own_flags_state rt d md) as Hf. split; [done|].
      apply condition_contains; [eauto with go|done|]. rewrite Hrs, Z.lor_0_l, accepted_own_flags. done.
Qed.

(** C22: what a default rule matches.  A rule with at least one condition and
    no inversion matches exactly when all its plain items match and, without
    a rule set, every group of address and port conditions it has contains a
    match (domain and IP conditions of the destination being one group); with
    rule sets, when some rule of some set matches in the set's context,
    starting from the groups the rule itself satisfied, in a way that leaves
    none of the rule's groups unsatisfied. *)
Theorem default_rule_matches_iff d md :
  allItems d ≠ [] → invert d = false →
  Match rt (DefaultRule (A := A) d) md = true ↔
  (∀ it, it ∈ items d → Item_Match rt it md = true) ∧
  match ruleSetItem d with
  | None => groups_match rt d md = true
  | Some item => ruleset_fits d item md
  end.
Proof.
  intros Hall Hinv. rewrite <-condition_nonempty. unfold Match, matchStates.
  rewrite default_rule_result by done. cbn [snd]. cbn zeta. unfold invertedFailure. rewrite Hinv.
  destruct (isEmpty (condition_states rt d md 0)) eqn:He; [done|]. by rewrite He.
Qed.

Definition set_invert (b : bool) (d : abstractDefaultRule A (Rule A)) : abstractDefaultRule A (Rule A) :=
  mkDefaultRule (items d) (sourceAddressItems d) (sourcePortItems d) (destinationAddressItems d)
    (destinationIPCIDRItems d) (destinationPortItems d) (allItems d) (ruleSetItem d) b (action d).

(** Before a DNS lookup, a rule whose only conditions are on the resolved
    addresses has nothing to decide on. *)
Definition undecided (d : abstractDefaultRule A (Rule A)) (md : InboundContext) : bool :=
  IgnoreDestinationIPCIDRMatch md && negb (did_examine d md) && bool_decide (0 < length (destinationIPCIDRItems d)).

(** A rule of which nothing is examined has no conditions left to fail. *)
Lemma unexamined_states d md :
  did_examine (A := A) d md = false → condition_states rt d md 0 = emptyRuleMatchState.
Proof.
  intros Hd. unfold did_examine, examined in Hd. rewrite !orb_false_iff in Hd.
  destruct Hd as [[[_ [[[Hs Hsp] Hds] Hdp]] Hi] Hr].
  apply bool_decide_eq_false in Hsp, Hdp, Hi, Hr. unfold requiresSourceAddressMatch in Hs.
  unfold requiresDestinationAddressMatch in Hds. apply orb_false_iff in Hs as [Hs1 Hs2], Hds as [Hds1 Hds2].
  apply bool_decide_eq_false in Hs1, Hds1. unfold condition_states.
  assert (∀ X (l : list X), ¬ 0 < length l → l = []) as Hnil by (intros X [|]; simpl; [done|lia]).
  rewrite (Hnil _ _ Hi). cbn [forallb]. destruct (ruleSetItem d) as [item|]; [by destruct Hr; eauto|].
  assert (own_flags rt d md = 0%Z) as ->.
  { unfold own_flags, source_matches, destination_matches.
    by rewrite Hs2, Hds2, (Hnil _ _ Hs1), (Hnil _ _ Hds1), (Hnil _ _ Hsp), (Hnil _ _ Hdp). }
  assert (∀ st, accepted d md st = true) as Hacc.
  { intros st. rewrite accepted_spec. unfold requiresSourceAddressMatch, requiresDestinationAddressMatch.
    by rewrite Hs2, Hds2, !bool_decide_false. }
  unfold StateSet.filter. erewrite foldl_ext_eq; [|intros b x; by rewrite Hacc]. vm_compute. done.
Qed.

(** Inversion is negation.  A default rule with a condition matches
    inverted exactly when it does not match plainly, with the one exception
    the code makes on purpose: before a DNS lookup a rule whose only
    conditions are on resolved addresses matches both ways. *)
Lemma default_rule_inverted d md :
  allItems d ≠ [] →
  Match rt (DefaultRule (set_invert true d)) md =
  negb (Match rt (DefaultRule (set_invert false d)) md) || undecided d md.
Proof.
  intros Hall. unfold Match, matchStates. rewrite !default_rule_result by done. cbn [snd invert set_invert].
  change (condition_states rt (set_invert ?b d) md 0) with (condition_states rt d md 0).
  change (deferred (set_invert true d) md ?s) with (deferred d md s). cbn zeta.
  unfold invertedFailure. cbn [invert set_invert].
  assert (isEmpty (withBase emptyRuleMatchState 0) = false) as Hwb by done.
  destruct (isEmpty (condition_states rt d md 0)) eqn:He.
  - by rewrite Hwb.
  - rewrite He. cbn [negb orb]. unfold deferred, undecided.
    destruct (did_examine d md) eqn:Hd.
    + by rewrite !andb_false_r.
    + rewrite (unexamined_states d md Hd), Z.eqb_refl, andb_true_r. cbn [negb]. rewrite andb_true_r.
      by destruct (_ && _).
Qed.

Lemma joined_exists rules md base : ∀ st,
  is_state st → (∀ r, r ∈ rules → isEmpty (states_of r (ResetRuleCache md) base) = false) → is_state base →
  ∃ st', is_state st' ∧ joined (matchStatesWithBase (A := A) rt) md base rules st st'.
Proof.
  induction rules as [|r rules IH]; intros st Hst Hr Hb; [exists st; split; [done|constructor]|].
  assert (isEmpty (states_of r (ResetRuleCache md) base) = false) as He by (apply Hr; by left).
  apply isEmpty_false in He as (x & Hx & Hcx); [|by apply match_in_range].
  destruct (IH (Z.lor st x)) as (st' & Hst' & Hj); [by apply is_state_lor|intros r' ?; apply Hr; by right|done|].
  exists st'. split; [done|]. by apply (joined_cons _ _ _ _ _ _ x).
Qed.

(** What a logical rule matches: in mode "and" all of its rules, in any
    other mode one of them, each evaluated in a fresh rule cache; inverted,
    the negation. *)
Lemma logical_rule_matches (rules : list (Rule A)) mode inv act md :
  Match rt (LogicalRule rules mode inv act) md =
  xorb inv (if decide (mode = LogicalTypeAnd) then forallb (λ r, Match rt r (ResetRuleCache md)) rules
            else existsb (λ r, Match rt r (ResetRuleCache md)) rules).
Proof.
  unfold Match at 1, matchStates. cbn [matchStatesWithBase]. unfold logical_matchStatesWithBase.
  assert (isEmpty (withBase emptyRuleMatchState 0) = false) as Hwb by done.
  assert (∀ r, r ∈ rules → in_range (matchStatesWithBase rt) r) as Hrange by (intros r _; apply match_in_range).
  replace (if inv then 0%Z else 0%Z) with 0%Z by (by destruct inv). case_decide.
  - pose proof (logical_and_states (matchStatesWithBase rt) rules md 0 (withBase emptyRuleMatchState 0)
      is_state_0 (proj1 (withBase_empty 0 is_state_0)) Hrange) as Ha.
    destruct (logical_and _ _ _ _ _) as [s|].
    + destruct Ha as (Hne & Hs & Hspec).
      assert (forallb (λ r, Match rt r (ResetRuleCache md)) rules = true) as ->.
      { apply forallb_forall. intros r Hr%list_elem_of_In. unfold Match, matchStates. by rewrite Hne. }
      destruct inv; [done|]. simpl. rewrite negb_true_iff. apply isEmpty_false; [done|].
      destruct (joined_exists rules md 0 0 is_state_0 Hne is_state_0) as (st & Hst & Hj).
      exists st. split; [done|]. apply Hspec; [done|]. exists 0%Z. split; [eauto with go|]. split; [|done].
      rewrite (proj2 (withBase_empty 0 is_state_0)) by eauto with go. by rewrite bool_decide_true.
    + destruct Ha as (r & Hr & He).
      assert (forallb (λ r, Match rt r (ResetRuleCache md)) rules = false) as ->.
      { apply not_true_iff_false. rewrite forallb_forall. intros Hall.
        specialize (Hall r). rewrite <-list_elem_of_In in Hall. specialize (Hall Hr).
        unfold Match, matchStates in Hall. rewrite He in Hall. done. }
      destruct inv; simpl; by rewrite ?Hwb.
  - destruct (logical_or_states (matchStatesWithBase rt) rules md 0 is_state_0 Hrange) as [Hs Hspec].
    assert (existsb (λ r, Match rt r (ResetRuleCache md)) rules
            = negb (isEmpty (logical_or (matchStatesWithBase rt) rules md 0))) as ->.
    { apply eq_true_iff_eq. rewrite existsb_exists, negb_true_iff, isEmpty_false by done.
      setoid_rewrite <-list_elem_of_In. setoid_rewrite Match_true_iff. split.
      - intros (r & Hr & st & Hst & Hc). exists st. split; [done|]. apply Hspec; [done|]. by exists r.
      - intros (st & Hst & Hc). apply Hspec in Hc as (r & Hr & Hc); [|done]. exists r. split; [done|]. by exists st. }
    destruct (isEmpty (logical_or _ _ _ _)) eqn:He; destruct inv; simpl; rewrite ?He, ?Hwb; done.
Qed.

(** *** The role of the inherited flags *)

(** Every state of a result extends the inherited base. *)
Definition extends_base (r : Rule A) : Prop :=
  ∀ md base st, is_state base → is_state st → contains (states_of r md base) st = true → Z.lor st base = st.

(** More inherited flags carry over to the result. *)
Definition carries_base (r : Rule A) : Prop :=
  ∀ md base more st, is_state base → is_state more → is_state st →
    contains (states_of r md base) st = true →
    contains (states_of r md (Z.lor base more)) (Z.lor st more) = true.

Lemma lor_absorb a b c : Z.lor a (Z.lor b c) = a → Z.lor a b = a.
Proof.
  intros Ha. rewrite <-Ha at 2. rewrite <-Ha. apply Z.bits_inj'. intros n Hn. rewrite !Z.lor_spec.
  by destruct (Z.testbit a n), (Z.testbit b n), (Z.testbit c n).
Qed.

(** What a default rule answers with a given base, as a relation. *)
Lemma default_contains d md base st :
  allItems d ≠ [] → is_state base → is_state st →
  contains (states_of (DefaultRule (A := A) d) md base) st = true ↔
  if invert d
  then st = base ∧ (isEmpty (condition_states rt d md 0) = true ∨ deferred d md (condition_states rt d md 0) = true
                    ∧ isEmpty (condition_states rt d md 0) = false)
  else contains (condition_states rt d md base) st = true.
Proof.
  intros Hall Hb Hst. rewrite default_rule_result by done. cbn [snd]. cbn zeta. unfold invertedFailure.
  destruct (withBase_empty base Hb) as [_ Hwb]. destruct (invert d).
  - destruct (isEmpty _) eqn:He; [rewrite (Hwb st Hst), bool_decide_eq_true; tauto|].
    destruct (deferred _ _ _); [rewrite (Hwb st Hst), bool_decide_eq_true; tauto|].
    rewrite contains_0 by done. split; [done|]. intros [_ [?|[? _]]]; done.
  - destruct (isEmpty (condition_states rt d md base)) eqn:He; [|done].
    rewrite contains_0 by done. split; [done|]. intros Hc.
    rewrite isEmpty_spec in He by apply condition_states_range. rewrite He in Hc; done.
Qed.

Lemma empty_default_contains d md base st :
  allItems d = [] → is_state base → is_state st →
  contains (states_of (DefaultRule (A := A) d) md base) st = bool_decide (st = base).
Proof.
  intros Hn Hb Hst. cbn. unfold default_matchStatesWithBase. rewrite Hn. cbn. by apply withBase_empty.
Qed.

(** What a logical rule answers with a given base, as a relation. *)
Lemma logical_contains rules mode inv act md base st :
  is_state base → is_state st →
  contains (states_of (LogicalRule (A := A) rules mode inv act) md base) st = true ↔
  if inv then st = base ∧ Match rt (LogicalRule (A := A) rules mode true act) md = true
  else if decide (mode = LogicalTypeAnd) then joined (matchStatesWithBase rt) md base rules base st
  else ∃ r, r ∈ rules ∧ contains (states_of r (ResetRuleCache md) base) st = true.
Proof.
  intros Hb Hst. unfold Match, matchStates. cbn [matchStatesWithBase]. unfold logical_matchStatesWithBase.
  assert (∀ r, r ∈ rules → in_range (matchStatesWithBase rt) r) as Hrange by (intros r _; apply match_in_range).
  destruct (withBase_empty base Hb) as [Hws Hwb].
  assert (isEmpty (withBase emptyRuleMatchState 0) = false) as Hw0 by done.
  destruct inv.
  - case_decide.
    + destruct (logical_and _ _ _ _ _); cbn [snd].
      * rewrite contains_0 by done. split; [done|]. by intros [_ ?].
      * rewrite (Hwb st Hst), bool_decide_eq_true, Hw0. tauto.
    + destruct (isEmpty (logical_or _ _ _ _)); cbn [snd].
      * rewrite (Hwb st Hst), bool_decide_eq_true, Hw0. tauto.
      * rewrite contains_0 by done. split; [done|]. by intros [_ ?].
  - case_decide.
    + pose proof (logical_and_states (matchStatesWithBase rt) rules md base _ Hb Hws Hrange) as Ha.
      destruct (logical_and _ _ _ _ _) as [s|]; cbn [snd].
      * destruct Ha as (_ & _ & Hspec). rewrite (Hspec st Hst). split.
        -- intros (x & Hx & Hcx & Hj). rewrite (Hwb x Hx), bool_decide_eq_true in Hcx. by subst.
        -- intros Hj. exists base. split; [done|]. split; [|done]. rewrite (Hwb base Hb). by rewrite bool_decide_true.
      * rewrite contains_0 by done. split; [done|]. destruct Ha as (r & Hr & He). intros Hj. exfalso.
        clear -Hj Hr He Hrange Hb. induction Hj as [|r' rules st x st' Hx Hcx Hj IH]; [by apply not_elem_of_nil in Hr|].
        apply elem_of_cons in Hr as [->|Hr]; [|apply IH; [intros r0 ?; apply Hrange; by right|exact Hr]].
        rewrite isEmpty_spec in He; [rewrite He in Hcx; done|]. apply Hrange; [by left|done].
    + destruct (logical_or_states (matchStatesWithBase rt) rules md base Hb Hrange) as [Hs Hspec].
      destruct (isEmpty (logical_or _ _ _ _)) eqn:He; cbn [snd]; [|by apply Hspec].
      rewrite contains_0 by done. split; [done|]. intros Hex. apply Hspec in Hex; [|done].
      rewrite isEmpty_spec in He by done. rewrite He in Hex; done.
Qed.

Lemma match_extends_base (r : Rule A) : extends_base r.
Proof.
  induction r as [d IH|rules mode inv act IH] using Rule_strong_ind; intros md base st Hb Hst Hc.
  - destruct (decide (allItems d = [])) as [Hn|Hn].
    { rewrite empty_default_contains, bool_decide_eq_true in Hc by done. subst. apply Z.lor_diag. }
    apply default_contains in Hc; [|done..]. destruct (invert d); [destruct Hc as [-> _]; apply Z.lor_diag|].
    apply condition_contains in Hc as (_ & _ & Hr); [|done..].
    destruct (ruleSetItem d) as [item|] eqn:Hi.
    + destruct Hr as (s & r & Hs & Hr & Hc). apply (lor_absorb st base (own_flags rt d md)).
      eapply IH; [done..| |done|done]. apply is_state_lor; [done|apply own_flags_state].
    + subst st. rewrite Z.lor_comm, Z.lor_assoc. by rewrite Z.lor_diag.
  - apply logical_contains in Hc; [|done..]. destruct inv; [destruct Hc as [-> _]; apply Z.lor_diag|].
    case_decide.
    + assert (∀ (rs : list (Rule A)) s0 s1, joined (matchStatesWithBase rt) md base rs s0 s1 → Z.lor s0 base = s0 → Z.lor s1 base = s1) as Hj.
      { intros rs s0 s1 Hj. induction Hj as [|? ? ? ? ? ? ? ? IHj]; [done|]. intros Hs0. apply IHj.
        rewrite <-Z.lor_assoc, (Z.lor_comm x base), Z.lor_assoc. by rewrite Hs0. }
      eapply Hj; [done|apply Z.lor_diag].
    + destruct Hc as (r & Hr & Hc). by eapply IH.
Qed.

Lemma has_lor st more flag : has st flag = true → has (Z.lor st more) flag = true.
Proof.
  unfold has. rewrite !negb_true_iff, !Z.eqb_neq. intros Hne Hz. apply Hne.
  rewrite Z.land_lor_distr_l in Hz. by apply Z.lor_eq_0_iff in Hz as [? _].
Qed.

Lemma accepted_lor {R} (d : abstractDefaultRule A R) md st more :
  accepted d md st = true → accepted d md (Z.lor st more) = true.
Proof.
  rewrite !accepted_spec. rewrite !andb_true_iff, !orb_true_iff.
  intros [[[[?|?] [?|?]] [?|?]] [?|?]]; repeat split; auto using has_lor.
Qed.

Lemma match_carries_base (r : Rule A) : carries_base r.
Proof.
  induction r as [d IH|rules mode inv act IH] using Rule_strong_ind; intros md base more st Hb Hm Hst Hc;
    pose proof (is_state_lor base more Hb Hm) as Hbm; pose proof (is_state_lor st more Hst Hm) as Hsm.
  - destruct (decide (allItems d = [])) as [Hn|Hn].
    { rewrite empty_default_contains, bool_decide_eq_true in * by done. by subst. }
    apply default_contains in Hc; [|done..]. apply default_contains; [done..|].
    destruct (invert d); [by destruct Hc as [-> ?]|].
    apply condition_contains in Hc as (Hi & Ha & Hr); [|done..]. apply condition_contains; [done..|].
    split; [done|]. split; [by apply accepted_lor|].
    assert (Z.lor (Z.lor base more) (own_flags rt d md) = Z.lor (Z.lor base (own_flags rt d md)) more) as Heq.
    { by rewrite <-!Z.lor_assoc, (Z.lor_comm more). }
    rewrite Heq. destruct (ruleSetItem d) as [item|] eqn:Hrs; [|by subst].
    destruct Hr as (s & r & Hs & Hr & Hc). exists s, r. do 2 (split; [done|]).
    eapply IH; [done..| |done|done|done]. apply is_state_lor; [done|apply own_flags_state].
  - apply logical_contains in Hc; [|done..]. apply logical_contains; [done..|].
    destruct inv; [by destruct Hc as [-> ?]|]. case_decide.
    + assert (∀ (rs : list (Rule A)) s0 s1, joined (matchStatesWithBase rt) md base rs s0 s1 → is_state s0 →
        (∀ r, r ∈ rs → carries_base r) →
        joined (matchStatesWithBase rt) md (Z.lor base more) rs (Z.lor s0 more) (Z.lor s1 more)) as Hj.
      { intros rs s0 s1 Hj. induction Hj as [|r rs s0 x s1 Hx Hcx Hj IHj]; intros Hs0 Hrs; [constructor|].
        apply (joined_cons _ _ _ _ _ _ (Z.lor x more)).
        - by apply is_state_lor.
        - apply Hrs; [by left|done..].
        - replace (Z.lor (Z.lor s0 more) (Z.lor x more)) with (Z.lor (Z.lor s0 x) more).
          + apply IHj; [by apply is_state_lor|]. intros r' ?. apply Hrs. by right.
          + apply Z.bits_inj'. intros n _. rewrite !Z.lor_spec.
            by destruct (Z.testbit s0 n), (Z.testbit x n), (Z.testbit more n). }
      by apply Hj.
    + destruct Hc as (r & Hr & Hc). exists r. split; [done|]. by apply IH.
Qed.

(** The flags a rule-set rule inherits from the rule that refers to it
    only help.  A result is always a set of four-flag states, every state in
    it includes the inherited flags, and whatever a rule (of any nesting,
    inverted or not) answers with some inherited flags it also answers, with
    the additional flags included, when more flags are inherited. *)
Lemma inherited_flags_only_help (r : Rule A) md base more :
  is_state base → is_state more →
  is_set (states_of r md base) ∧
  (∀ st, is_state st → contains (states_of r md base) st = true →
     Z.lor st base = st ∧ contains (states_of r md (Z.lor base more)) (Z.lor st more) = true).
Proof.
  intros Hb Hm. split; [by apply match_in_range|]. intros st Hst Hc.
  split; [by eapply match_extends_base|by eapply match_carries_base].
Qed.

(** *** Effects on the context *)

(** Matching has no effect but the [DidMatch] flag, and it can be
    repeated: outside the DNS pre-lookup phase the answer does not depend on
    the flag an earlier evaluation left behind.  A rule-set item matches
    exactly when some rule of one of its sets does, evaluated with the item's
    own address options and a fresh rule cache. *)
Lemma matching_is_repeatable (r : Rule A) (item : RuleSetItem A) md base b :
  (∃ did, (matchStatesWithBase rt r md base).1 = set_DidMatch did md) ∧
  (IgnoreDestinationIPCIDRMatch md = false → states_of r (set_DidMatch b md) base = states_of r md base) ∧
  (RuleSetItem_Match rt item md = true ↔
   ∃ s r', s ∈ setList item ∧ r' ∈ rs_rules s ∧ Match rt r' (ruleset_context item md) = true).
Proof.
  split; [|split].
  - destruct r as [d|rules mode inv act].
    + destruct (decide (allItems d = [])) as [Hn|Hn]; [|rewrite default_rule_result by done; eauto].
      cbn. unfold default_matchStatesWithBase. rewrite Hn. cbn. exists (DidMatch md). by rewrite set_DidMatch_self.
    + exists (DidMatch md). rewrite set_DidMatch_self. cbn [matchStatesWithBase]. unfold logical_matchStatesWithBase.
      case_decide; [by destruct (logical_and _ _ _ _ _)|by destruct (isEmpty _)].
  - intros Hig. destruct r as [d|rules mode inv act]; cycle 1.
    { cbn [matchStatesWithBase]. unfold logical_matchStatesWithBase.
      assert (∀ x y, logical_and (matchStatesWithBase rt) rules (set_DidMatch b md) x y
                     = logical_and (matchStatesWithBase rt) rules md x y) as Ha.
      { intros x. clear. induction rules as [|r rules IH]; intros y; simpl; [done|]. by rewrite IH. }
      change (logical_or (matchStatesWithBase rt) rules (set_DidMatch b md) ?x)
        with (logical_or (matchStatesWithBase rt) rules md x).
      rewrite Ha. case_decide; [by destruct (logical_and _ _ _ _ _)|by destruct (isEmpty _)]. }
    destruct (decide (allItems d = [])) as [Hn|Hn].
    { cbn. unfold default_matchStatesWithBase. by rewrite Hn. }
    rewrite !default_rule_result by done. cbn [snd]. cbn zeta.
    change (condition_states rt d (set_DidMatch b md) ?x) with (condition_states rt d md x).
    unfold deferred. cbn [IgnoreDestinationIPCIDRMatch set_DidMatch set_cache]. by rewrite Hig.
  - unfold RuleSetItem_Match.
    destruct (RuleSetItem_states (matchStatesWithBase rt) item md 0 is_state_0) as [Hs Hspec];
      [intros ????; apply match_in_range|].
    rewrite negb_true_iff, isEmpty_false by done. setoid_rewrite Match_true_iff. split.
    + intros (st & Hst & Hc). apply Hspec in Hc as (s & r' & ? & ? & ?); [|done]. exists s, r'. eauto.
    + intros (s & r' & ? & ? & st & Hst & ?). exists st. split; [done|]. apply Hspec; [done|]. by exists s, r'.
Qed.
End properties.

(** ** Concrete evaluations *)

Module EnvRun.
(** Code outside the repository, in its simplest form: an IP set is a list of
    addresses, a domain matcher a list of names, a regular expression a
    literal. *)
#[export] Instance env : RuleEnv := {
  IsIP a := Addr_IsValid (sa_Addr a);
  IsIPv6 a := match sa_Addr a with Addr6 _ _ => true | _ => false end;
  IsPublicAddr a := match a with Addr4 b => negb (Z.shiftr b 24 =? 10)%Z | _ => true end;
  IPSet := list Addr;
  IPSet_Contains s a := bool_decide (a ∈ s);
  IPSetBuilder_IPSet l := Ok ((λ x, match x with inl p => p_ip p | inr a => a end) <$> l);
  ParsePrefix s := Err (ENew "no '/'");
  ParseAddr s := if decide (s = "10.0.0.1") then Ok (Addr4 167772161) else Err (ENew "unable to parse IP");
  Prefix_String _ := "prefix";
  Prefixable := Prefix;
  Prefixable_Build p := p;
  DomainMatcher := list string;
  NewMatcher ds ss _ := ds ++ ss;
  DomainMatcher_Match m h := bool_decide (h ∈ m);
  AdGuardMatcher := list string;
  NewAdGuardMatcher ls := ls;
  AdGuardMatcher_Match m h := bool_decide (h ∈ m);
  Regexp := string;
  regexp_Compile s := if decide (s = "[") then Err (ENew "missing closing ]") else Ok s;
  MatchString m h := bool_decide (m = h);
  ToLower s := s;
  EqualFold a b := bool_decide (a = b);
  TrimSpace s := s;
  ParseMAC _ := None;
  HardwareAddr_String _ := "";
  hex_DecodeString _ := None;
  mDNS_TypeToString t := if decide (t = 1%Z) then Some "A" else None;
  PreferredDomain _ _ := false;
  PreferredAddress _ _ := false;
  IsAndroid := false;
}.

Definition rt : Runtime := mkRuntime None [] "" "" [] None [] "rule".
Definition nowhere : Socksaddr := mkSocksaddr AddrInvalid 0 "".
(** A connection of user alice to 10.0.0.1:443. *)
Definition ip_conn : InboundContext :=
  mkInboundContext "in" 4 "tcp" nowhere (mkSocksaddr (Addr4 167772161) 443 "") "alice" "" "" "" "" [] None 0
    false false false false false false false false.
(** A DNS query before its lookup. *)
Definition dns_query : InboundContext :=
  mkInboundContext "in" 0 "udp" nowhere (mkSocksaddr AddrInvalid 53 "example.org") "" "" "" "" "" [] None 1
    false false false false false false false true.

Definition ip_item : Item := NewRawIPCIDRItem false [Addr4 167772161].
Definition domain_item : Item := NewRawDomainItem ["example.org"].
Definition user_item : Item := NewAuthUserItem ["alice"].

(** [ip_cidr] and [auth_user] alone. *)
Definition ip_rule (inv : bool) : abstractDefaultRule unit (Rule unit) :=
  mkDefaultRule [user_item] [] [] [] [ip_item] [] [inl user_item; inl ip_item] None inv None.
(** Only an address limit. *)
Definition cidr_rule : abstractDefaultRule unit (Rule unit) :=
  mkDefaultRule [] [] [] [] [ip_item] [] [inl ip_item] None false None.
(** A domain condition together with a rule set of one [ip_cidr] rule: the two
    are alternatives. *)
Definition item : RuleSetItem unit :=
  mkRuleSetItem ["geoip"] [mkRuleSet "geoip" [DefaultRule cidr_rule] 1] false false.
Definition merged_rule : abstractDefaultRule unit (Rule unit) :=
  mkDefaultRule [] [] [] [domain_item] [] [] [inl domain_item; inr item] (Some item) false None.
End EnvRun.

Lemma default_rule_matches_iff_witness :
  Match EnvRun.rt (DefaultRule EnvRun.merged_rule) EnvRun.ip_conn = true ∧
  matchAnyItem EnvRun.rt (destinationAddressItems EnvRun.merged_rule) EnvRun.ip_conn = false ∧
  Match EnvRun.rt (DefaultRule (EnvRun.ip_rule false)) EnvRun.ip_conn = true.
Proof.
  split; [|split; [vm_compute; reflexivity|]].
  - apply (default_rule_matches_iff EnvRun.rt EnvRun.merged_rule EnvRun.ip_conn); [done|reflexivity|].
    split; [by intros it ?%not_elem_of_nil|].
    exists (mkRuleSet "geoip" [DefaultRule EnvRun.cidr_rule] 1%Z), (DefaultRule EnvRun.cidr_rule), 4%Z.
    split; [left|]. split; [left|]. split; [done|]. split; vm_compute; reflexivity.
  - apply (default_rule_matches_iff EnvRun.rt (EnvRun.ip_rule false) EnvRun.ip_conn); [done|reflexivity|].
    split; [|vm_compute; reflexivity]. intros it ->%list_elem_of_singleton. vm_compute. reflexivity.
Defined.

Lemma default_rule_inverted_witness :
  Match EnvRun.rt (DefaultRule (set_invert true (EnvRun.ip_rule false))) EnvRun.ip_conn = false ∧
  Match EnvRun.rt (DefaultRule (set_invert true EnvRun.cidr_rule)) EnvRun.dns_query = true ∧
  Match EnvRun.rt (DefaultRule (set_invert false EnvRun.cidr_rule)) EnvRun.dns_query = true.
Proof.
  split; [|split].
  - rewrite (default_rule_inverted EnvRun.rt (EnvRun.ip_rule false) EnvRun.ip_conn); [vm_compute; reflexivity|done].
  - rewrite (default_rule_inverted EnvRun.rt EnvRun.cidr_rule EnvRun.dns_query); [vm_compute; reflexivity|done].
  - vm_compute. reflexivity.
Defined.

Lemma inherited_flags_only_help_witness :
  is_set (matchStatesWithBase EnvRun.rt (DefaultRule EnvRun.cidr_rule) EnvRun.ip_conn 1).2 ∧
  contains (matchStatesWithBase EnvRun.rt (DefaultRule EnvRun.cidr_rule) EnvRun.ip_conn (Z.lor 1 8)).2 (Z.lor 5 8) = true.
Proof.
  destruct (inherited_flags_only_help EnvRun.rt (DefaultRule EnvRun.cidr_rule) EnvRun.ip_conn 1 8) as [Hs Hc];
    [done|done|]. split; [exact Hs|].
  apply (Hc 5%Z); [done|]. vm_compute. reflexivity.
Defined.

Lemma matching_is_repeatable_witness :
  (matchStatesWithBase EnvRun.rt (DefaultRule EnvRun.merged_rule) (set_DidMatch true EnvRun.ip_conn) 0).2
    = (matchStatesWithBase EnvRun.rt (DefaultRule EnvRun.merged_rule) EnvRun.ip_conn 0).2 ∧
  RuleSetItem_Match EnvRun.rt EnvRun.item EnvRun.ip_conn = true.
Proof.
  destruct (matching_is_repeatable EnvRun.rt (DefaultRule EnvRun.merged_rule) EnvRun.item EnvRun.ip_conn 0 true)
    as (_ & Hr & Hi).
  split; [apply Hr; reflexivity|]. apply Hi.
  exists (mkRuleSet "geoip" [DefaultRule EnvRun.cidr_rule] 1%Z), (DefaultRule EnvRun.cidr_rule).
  split; [left|]. split; [left|]. vm_compute. reflexivity.
Defined.
