(* ===== verification/RuleAction.v ===== *)
(** * Rule actions

    Model of src/runtime/sing-box/route/rule/rule_action.go: the actions of
    route and DNS rules, their construction from options, their descriptions,
    the flood control of the reject action and the predefined DNS answers. *)
From S2P Require Import Prelude RuleItems.

(** constant/rule.go. *)
Definition RuleActionTypeRoute : string := "route".
Definition RuleActionTypeRouteOptions : string := "route-options".
Definition RuleActionTypeDirect : string := "direct".
Definition RuleActionTypeBypass : string := "bypass".
Definition RuleActionTypeReject : string := "reject".
Definition RuleActionTypeHijackDNS : string := "hijack-dns".
Definition RuleActionTypeSniff : string := "sniff".
Definition RuleActionTypeResolve : string := "resolve".
Definition RuleActionTypePredefined : string := "predefined".

(** The sniffers of common/sniff an action can name. *)
Inductive StreamSniffer := TLSClientHello | HTTPHost | StreamDomainNameQuery | BitTorrent | SSH | RDP.
Inductive PacketSniffer := QUICClientHello | DomainNameQuery | STUNMessage | UTP | UDPTracker | DTLSRecord | NTP.

(** option/outbound.go, [DialerOptions]: the fields an action describes. *)
Record DialerOptions := mkDialerOptions {
  do_BindInterface : string;
  do_Inet4BindAddress : option Addr;
  do_Inet6BindAddress : option Addr;
  do_RoutingMark : Z;
  do_ReuseAddr : bool;
  do_ConnectTimeout : Z;
  do_TCPFastOpen : bool;
  do_TCPMultiPath : bool;
  do_UDPFragment : option bool;
  do_FallbackDelay : Z;
  do_DomainStrategy : Z;
}.

(** Code outside the repository that actions use. *)
Class ActionEnv := {
  ParseSocksaddrHostPort : string → Z → Socksaddr;
  Socksaddr_IsValid : Socksaddr → bool;
  AddrString : Socksaddr → string;
  Duration_String : Z → string;
  (** [badoption.Prefixable.Build], of a possibly nil pointer. *)
  ClientSubnet_Build : option Prefix → Prefix;
  ClientSubnet_String : Prefix → string;
  Addr_String : Addr → string;
  (** [fmt.Sprintf] with the verb [0x%x]. *)
  Sprintf_0x : Z → string;
  (** A dialer of common/dialer, which is a wrapper of system sockets. *)
  Dialer : Type;
  dialer_New : DialerOptions → result Dialer;
  (** miekg/dns: a resource record, its owner name and the copy with another. *)
  RR : Type;
  RR_Name : RR → string;
  RR_with_Name : string → RR → RR;
  RR_String : RR → string;
  RcodeToString : Z → string;
}.

(** constant/network.go, [NetworkStrategy.String]. *)
Definition NetworkStrategy_String (s : Z) : string :=
  match s with 0%Z => "default" | 1%Z => "fallback" | 2%Z => "hybrid" | _ => pretty s end.

(** option/types.go, [DomainStrategy.String], which panics on other values. *)
Definition DomainStrategy_String (s : Z) : result string :=
  match s with
  | 0%Z => Ok ""
  | 1%Z => Ok "prefer_ipv4"
  | 2%Z => Ok "prefer_ipv6"
  | 3%Z => Ok "ipv4_only"
  | 4%Z => Ok "ipv6_only"
  | _ => Err (EPanic "unknown domain strategy")
  end.

(** [RuleActionRouteOptions]; a nil slice is [None]. *)
Record RuleActionRouteOptions := mkRouteOptions {
  OverrideAddress : Socksaddr;
  OverridePort : Z;
  NetworkStrategy : option Z;
  NetworkType : option (list InterfaceType);
  FallbackNetworkType : option (list InterfaceType);
  FallbackDelay : Z;
  UDPDisableDomainUnmapping : bool;
  UDPConnect : bool;
  UDPTimeout : Z;
  TLSFragment : bool;
  TLSFragmentFallbackDelay : Z;
  TLSRecordFragment : bool;
}.

(** [RuleActionDNSRouteOptions] and [RuleActionResolve], whose fields but the
    server are the same. *)
Record RuleActionDNSRouteOptions := mkDNSRouteOptions {
  Strategy : Z;
  DisableCache : bool;
  RewriteTTL : option Z;
  ClientSubnet : Prefix;
}.

(** [RuleActionReject]: the times in nanoseconds of the recent rejections. *)
Record RuleActionReject := mkReject { Method : string; NoDrop : bool; dropCounter : list Z }.

(** [RuleActionSniff]. *)
Record RuleActionSniff := mkSniff {
  SnifferNames : list string;
  StreamSniffers : list StreamSniffer;
  PacketSniffers : list PacketSniffer;
  Timeout : Z;
}.

Section actions.
Context `{ActionEnv}.

(** [adapter.RuleAction], one constructor per implementation. *)
Inductive RuleAction :=
| ActionRoute (Outbound : string) (o : RuleActionRouteOptions)
| ActionBypass (Outbound : string) (o : RuleActionRouteOptions)
| ActionRouteOptions (o : RuleActionRouteOptions)
| ActionDNSRoute (Server : string) (o : RuleActionDNSRouteOptions)
| ActionDNSRouteOptions (o : RuleActionDNSRouteOptions)
| ActionDirect (d : Dialer) (description : string)
| ActionReject (r : RuleActionReject)
| ActionHijackDNS
| ActionSniff (s : RuleActionSniff)
| ActionResolve (Server : string) (o : RuleActionDNSRouteOptions)
| ActionPredefined (Rcode : Z) (Answer Ns Extra : list RR).

(** The methods [Type]. *)
Definition RuleAction_Type (a : RuleAction) : string :=
  match a with
  | ActionRoute _ _ => RuleActionTypeRoute
  | ActionBypass _ _ => RuleActionTypeBypass
  | ActionRouteOptions _ => RuleActionTypeRouteOptions
  | ActionDNSRoute _ _ => RuleActionTypeRoute
  | ActionDNSRouteOptions _ => RuleActionTypeRouteOptions
  | ActionDirect _ _ => RuleActionTypeDirect
  | ActionReject _ => RuleActionTypeReject
  | ActionHijackDNS => RuleActionTypeHijackDNS
  | ActionSniff _ => RuleActionTypeSniff
  | ActionResolve _ _ => RuleActionTypeResolve
  | ActionPredefined _ _ _ _ => RuleActionTypePredefined
  end.

(** [RuleActionSniff.build]: the sniffers of the names, up to the first unknown one. *)
Fixpoint sniff_build (names : list string) (r : RuleActionSniff) : RuleActionSniff * option error :=
  let stream xs r := mkSniff (SnifferNames r) (StreamSniffers r ++ xs) (PacketSniffers r) (Timeout r) in
  let packet xs r := mkSniff (SnifferNames r) (StreamSniffers r) (PacketSniffers r ++ xs) (Timeout r) in
  match names with
  | [] => (r, None)
  | name :: names =>
      if decide (name = "tls") then sniff_build names (stream [TLSClientHello] r)
      else if decide (name = "http") then sniff_build names (stream [HTTPHost] r)
      else if decide (name = "quic") then sniff_build names (packet [QUICClientHello] r)
      else if decide (name = "dns") then
        sniff_build names (packet [DomainNameQuery] (stream [StreamDomainNameQuery] r))
      else if decide (name = "stun") then sniff_build names (packet [STUNMessage] r)
      else if decide (name = "bittorrent") then
        sniff_build names (packet [UTP; UDPTracker] (stream [BitTorrent] r))
      else if decide (name = "dtls") then sniff_build names (packet [DTLSRecord] r)
      else if decide (name = "ssh") then sniff_build names (stream [SSH] r)
      else if decide (name = "rdp") then sniff_build names (stream [RDP] r)
      else if decide (name = "ntp") then sniff_build names (packet [NTP] r)
      else (r, Some (ENew ("unknown sniffer: " +:+ name)))
  end.

(** option/rule_action.go, [RawRouteOptionsActionOptions]. *)
Record RouteOptionsOptions := mkRouteOptionsOptions {
  oo_OverrideAddress : string;
  oo_OverridePort : Z;
  oo_NetworkStrategy : option Z;
  oo_FallbackDelay : Z;
  oo_UDPDisableDomainUnmapping : bool;
  oo_UDPConnect : bool;
  oo_UDPTimeout : Z;
  oo_TLSFragment : bool;
  oo_TLSFragmentFallbackDelay : Z;
  oo_TLSRecordFragment : bool;
}.

(** option/rule_action.go, [RuleAction]: the options of the action named. *)
Record RuleActionOptions := mkRuleActionOptions {
  ao_Action : string;
  ao_RouteOutbound : string;
  ao_RouteOptions : RouteOptionsOptions;
  ao_RouteOptionsOptions : RouteOptionsOptions;
  ao_DirectOptions : DialerOptions;
  ao_BypassOutbound : string;
  ao_BypassOptions : RouteOptionsOptions;
  ao_RejectMethod : string;
  ao_RejectNoDrop : bool;
  ao_Sniffer : list string;
  ao_SniffTimeout : Z;
  ao_ResolveServer : string;
  ao_ResolveStrategy : Z;
  ao_ResolveDisableCache : bool;
  ao_ResolveRewriteTTL : option Z;
  ao_ResolveClientSubnet : option Prefix;
}.

(** The route options of an action; the UDP timeout is set for the
    route-options action only. *)
Definition build_route_options (o : RouteOptionsOptions) (udpTimeout : Z) : RuleActionRouteOptions :=
  mkRouteOptions (ParseSocksaddrHostPort (oo_OverrideAddress o) 0) (oo_OverridePort o) (oo_NetworkStrategy o)
    None None (oo_FallbackDelay o) (oo_UDPDisableDomainUnmapping o) (oo_UDPConnect o) udpTimeout
    (oo_TLSFragment o) (oo_TLSFragmentFallbackDelay o) (oo_TLSRecordFragment o).

(** An element that is appended under a condition. *)
Definition append_if (b : bool) (x : string) (xs : list string) : list string := if b then xs ++ [x] else xs.
Definition append_some {X} (o : option X) (f : X → string) (xs : list string) : list string :=
  match o with Some x => xs ++ [f x] | None => xs end.

(** option/rule_action.go, [DirectActionOptions.Descriptions]. *)
Definition DirectOptions_Descriptions (d : DialerOptions) : result (list string) :=
  let ds := append_if (negb (bool_decide (do_BindInterface d = ""))) ("bind_interface=" +:+ do_BindInterface d) [] in
  let ds := append_some (do_Inet4BindAddress d) (λ a, "inet4_bind_address=" +:+ Addr_String a) ds in
  let ds := append_some (do_Inet6BindAddress d) (λ a, "inet6_bind_address=" +:+ Addr_String a) ds in
  let ds := append_if (negb (do_RoutingMark d =? 0)%Z) ("routing_mark=" +:+ Sprintf_0x (do_RoutingMark d)) ds in
  let ds := append_if (do_ReuseAddr d) "reuse_addr" ds in
  let ds := append_if (negb (do_ConnectTimeout d =? 0)%Z)
              ("connect_timeout=" +:+ Duration_String (do_ConnectTimeout d)) ds in
  let ds := append_if (do_TCPFastOpen d) "tcp_fast_open" ds in
  let ds := append_if (do_TCPMultiPath d) "tcp_multi_path" ds in
  let ds := append_some (do_UDPFragment d) (λ b : bool, "udp_fragment=" +:+ (if b then "true" else "false")) ds in
  let? ds :=
    if (do_DomainStrategy d =? 0)%Z then Ok ds
    else let? s := DomainStrategy_String (do_DomainStrategy d) in Ok (ds ++ ["domain_strategy=" +:+ s]) in
  Ok (append_if (negb (do_FallbackDelay d =? 0)%Z) ("fallback_delay=" +:+ Duration_String (do_FallbackDelay d)) ds).

(** The description of a direct action. *)
Definition direct_description (descriptions : list string) : string :=
  match descriptions with
  | [] => ""
  | [a] => "(" +:+ a +:+ ")"
  | [a; b] => "(" +:+ a +:+ "," +:+ b +:+ ")"
  | a :: b :: _ => "(" +:+ a +:+ "," +:+ b +:+ ",...)"
  end.

(** [NewRuleAction]; no action for an empty name, a panic for an unknown one. *)
Definition NewRuleAction (o : RuleActionOptions) : result (option RuleAction) :=
  let name := ao_Action o in
  if decide (name = "") then Ok None
  else if decide (name = RuleActionTypeRoute) then
    Ok (Some (ActionRoute (ao_RouteOutbound o) (build_route_options (ao_RouteOptions o) 0)))
  else if decide (name = RuleActionTypeRouteOptions) then
    Ok (Some (ActionRouteOptions
      (build_route_options (ao_RouteOptionsOptions o) (oo_UDPTimeout (ao_RouteOptionsOptions o)))))
  else if decide (name = RuleActionTypeBypass) then
    Ok (Some (ActionBypass (ao_BypassOutbound o) (build_route_options (ao_BypassOptions o) 0)))
  else if decide (name = RuleActionTypeDirect) then
    let? d := dialer_New (ao_DirectOptions o) in
    let? descriptions := DirectOptions_Descriptions (ao_DirectOptions o) in
    Ok (Some (ActionDirect d (direct_description descriptions)))
  else if decide (name = RuleActionTypeReject) then
    Ok (Some (ActionReject (mkReject (ao_RejectMethod o) (ao_RejectNoDrop o) [])))
  else if decide (name = RuleActionTypeHijackDNS) then Ok (Some ActionHijackDNS)
  else if decide (name = RuleActionTypeSniff) then
    match sniff_build (ao_Sniffer o) (mkSniff (ao_Sniffer o) [] [] (ao_SniffTimeout o)) with
    | (_, Some e) => Err e
    | (s, None) => Ok (Some (ActionSniff s))
    end
  else if decide (name = RuleActionTypeResolve) then
    Ok (Some (ActionResolve (ao_ResolveServer o)
      (mkDNSRouteOptions (ao_ResolveStrategy o) (ao_ResolveDisableCache o) (ao_ResolveRewriteTTL o)
         (ClientSubnet_Build (ao_ResolveClientSubnet o)))))
  else Err (EPanic ("unknown rule action: " +:+ name)).

(** *** DNS rule actions *)

(** option/rule_action.go, [DNSRuleAction]. *)
Record DNSRuleActionOptions := mkDNSRuleActionOptions {
  da_Action : string;
  da_RouteServer : string;
  da_RouteStrategy : Z;
  da_RouteDisableCache : bool;
  da_RouteRewriteTTL : option Z;
  da_RouteClientSubnet : option Prefix;
  da_OptionsStrategy : Z;
  da_OptionsDisableCache : bool;
  da_OptionsRewriteTTL : option Z;
  da_OptionsClientSubnet : option Prefix;
  da_RejectMethod : string;
  da_RejectNoDrop : bool;
  da_Rcode : option Z;
  da_Answer : list RR;
  da_Ns : list RR;
  da_Extra : list RR;
}.

(** [common.PtrValueOrDefault] of a prefix: the zero prefix for nil. *)
Definition prefix_or_zero (p : option Prefix) : Prefix := default (mkPrefix AddrInvalid 0) p.

(** [NewDNSRuleAction]; [DNSRCode.Build] answers success for nil. *)
Definition NewDNSRuleAction (o : DNSRuleActionOptions) : result (option RuleAction) :=
  let name := da_Action o in
  if decide (name = "") then Ok None
  else if decide (name = RuleActionTypeRoute) then
    Ok (Some (ActionDNSRoute (da_RouteServer o)
      (mkDNSRouteOptions (da_RouteStrategy o) (da_RouteDisableCache o) (da_RouteRewriteTTL o)
         (prefix_or_zero (da_RouteClientSubnet o)))))
  else if decide (name = RuleActionTypeRouteOptions) then
    Ok (Some (ActionDNSRouteOptions
      (mkDNSRouteOptions (da_OptionsStrategy o) (da_OptionsDisableCache o) (da_OptionsRewriteTTL o)
         (prefix_or_zero (da_OptionsClientSubnet o)))))
  else if decide (name = RuleActionTypeReject) then
    Ok (Some (ActionReject (mkReject (da_RejectMethod o) (da_RejectNoDrop o) [])))
  else if decide (name = RuleActionTypePredefined) then
    Ok (Some (ActionPredefined (default 0%Z (da_Rcode o)) (da_Answer o) (da_Ns o) (da_Extra o)))
  else Err (EPanic ("unknown rule action: " +:+ name)).

(** *** Descriptions *)

(** [RuleActionRouteOptions.Descriptions].  The fallback network types are
    printed with the values of [NetworkType]. *)
Definition RouteOptions_Descriptions (r : RuleActionRouteOptions) : list string :=
  let types := Join "," (InterfaceType_String <$> default [] (NetworkType r)) in
  let ds := append_if (Socksaddr_IsValid (OverrideAddress r))
              ("override-address=" +:+ AddrString (OverrideAddress r)) [] in
  let ds := append_if (0 <? OverridePort r)%Z ("override-port=" +:+ pretty (OverridePort r)) ds in
  let ds := append_some (NetworkStrategy r) (λ s, "network-strategy=" +:+ NetworkStrategy_String s) ds in
  let ds := append_some (NetworkType r) (λ _, "network-type=" +:+ types) ds in
  let ds := append_some (FallbackNetworkType r) (λ _, "fallback-network-type=" +:+ types) ds in
  let ds := append_if (0 <? FallbackDelay r)%Z ("fallback-delay=" +:+ Duration_String (FallbackDelay r)) ds in
  let ds := append_if (UDPDisableDomainUnmapping r) "udp-disable-domain-unmapping" ds in
  let ds := append_if (UDPConnect r) "udp-connect" ds in
  let ds := append_if (0 <? UDPTimeout r)%Z "udp-timeout" ds in
  let ds := append_if (TLSFragment r) "tls-fragment" ds in
  let ds := append_if (0 <? TLSFragmentFallbackDelay r)%Z
              ("tls-fragment-fallback-delay=" +:+ Duration_String (TLSFragmentFallbackDelay r)) ds in
  append_if (TLSRecordFragment r) "tls-record-fragment" ds.

Definition Route_String (outbound : string) (o : RuleActionRouteOptions) : string :=
  "route(" +:+ Join "," (outbound :: RouteOptions_Descriptions o) +:+ ")".

Definition Bypass_String (outbound : string) (o : RuleActionRouteOptions) : string :=
  if decide (outbound = "") then "bypass()"
  else "bypass(" +:+ Join "," (outbound :: RouteOptions_Descriptions o) +:+ ")".

Definition RouteOptions_String (o : RuleActionRouteOptions) : string :=
  "route-options(" +:+ Join "," (RouteOptions_Descriptions o) +:+ ")".

(** The three options DNS actions print after what [ds] holds already. *)
Definition dns_descriptions (o : RuleActionDNSRouteOptions) (ds : list string) : list string :=
  let ds := append_if (DisableCache o) "disable-cache" ds in
  let ds := append_some (RewriteTTL o) (λ t, "rewrite-ttl=" +:+ pretty t) ds in
  append_if (Prefix_IsValid (ClientSubnet o)) ("client-subnet=" +:+ ClientSubnet_String (ClientSubnet o)) ds.

Definition DNSRoute_String (server : string) (o : RuleActionDNSRouteOptions) : string :=
  "route(" +:+ Join "," (dns_descriptions o [server]) +:+ ")".

Definition DNSRouteOptions_String (o : RuleActionDNSRouteOptions) : string :=
  "route-options(" +:+ Join "," (dns_descriptions o []) +:+ ")".

Definition Reject_String (r : RuleActionReject) : string :=
  if decide (Method r = "default") then "reject" else "reject(" +:+ Method r +:+ ")".

Definition Sniff_String (r : RuleActionSniff) : string :=
  let names := Join "," (SnifferNames r) in
  if bool_decide (length (SnifferNames r) = 0) && (Timeout r =? 0)%Z then "sniff"
  else if bool_decide (0 < length (SnifferNames r)) && (Timeout r =? 0)%Z then "sniff(" +:+ names +:+ ")"
  else if bool_decide (length (SnifferNames r) = 0) && (0 <? Timeout r)%Z then
    "sniff(" +:+ Duration_String (Timeout r) +:+ ")"
  else "sniff(" +:+ names +:+ "," +:+ Duration_String (Timeout r) +:+ ")".

Definition Resolve_String (server : string) (o : RuleActionDNSRouteOptions) : result string :=
  let ds := append_if (negb (bool_decide (server = ""))) server [] in
  let? ds :=
    if (Strategy o =? 0)%Z then Ok ds
    else let? s := DomainStrategy_String (Strategy o) in Ok (ds ++ [s]) in
  let ds := append_if (DisableCache o) "disable_cache" ds in
  let ds := append_some (RewriteTTL o) (λ t, "rewrite_ttl=" +:+ pretty t) ds in
  let ds := append_if (Prefix_IsValid (ClientSubnet o)) ("client_subnet=" +:+ ClientSubnet_String (ClientSubnet o)) ds in
  Ok (match ds with [] => "resolve" | _ => "resolve(" +:+ Join "," ds +:+ ")" end).

Definition Predefined_String (rcode : Z) (answer ns extra : list RR) : string :=
  "predefined(" +:+
    Join "," ([RcodeToString rcode] ++ (RR_String <$> answer) ++ (RR_String <$> ns) ++ (RR_String <$> extra)) +:+ ")".

(** The methods [String]. *)
Definition RuleAction_String (a : RuleAction) : result string :=
  match a with
  | ActionRoute outbound o => Ok (Route_String outbound o)
  | ActionBypass outbound o => Ok (Bypass_String outbound o)
  | ActionRouteOptions o => Ok (RouteOptions_String o)
  | ActionDNSRoute server o => Ok (DNSRoute_String server o)
  | ActionDNSRouteOptions o => Ok (DNSRouteOptions_String o)
  | ActionDirect _ description => Ok ("direct" +:+ description)
  | ActionReject r => Ok (Reject_String r)
  | ActionHijackDNS => Ok "hijack-dns"
  | ActionSniff s => Ok (Sniff_String s)
  | ActionResolve server o => Resolve_String server o
  | ActionPredefined rcode answer ns extra => Ok (Predefined_String rcode answer ns extra)
  end.

(** *** Rejection *)

(** What a rejected connection is told; [RejectReply] is the nil error of the
    reply method. *)
Inductive rejection := RejectReset | RejectDrop | RejectReply.

Definition flood_window : Z := 30000000000.
Definition flood_limit : nat := 50.

(** [RuleActionReject.Error] at time [now]. *)
Definition Reject_Error (now : Z) (r : RuleActionReject) : RuleActionReject * result rejection :=
  if decide (Method r = "default") then
    if NoDrop r then (r, Ok RejectReset)
    else
      let counter := filter (λ t, (now - t <= flood_window)%Z) (dropCounter r) ++ [now] in
      let r' := mkReject (Method r) (NoDrop r) counter in
      (r', Ok (if decide (flood_limit < length counter) then RejectDrop else RejectReset))
  else if decide (Method r = "drop") then (r, Ok RejectDrop)
  else if decide (Method r = "reply") then (r, Ok RejectReply)
  else (r, Err (EPanic ("unknown reject method: " +:+ Method r))).

(** *** Predefined answers *)

(** [strings.HasPrefix] and [strings.HasSuffix]. *)
Definition HasPrefix (s prefix : string) : bool := String.prefix prefix s.
Definition HasSuffix (s suffix : string) : bool :=
  bool_decide (String.length suffix <= String.length s)
  && bool_decide (String.substring (String.length s - String.length suffix) (String.length suffix) s = suffix).

(** [rewriteRecords]: a wildcard owner that covers the question gets its name. *)
Definition rewriteRecords (records : list RR) (question : string) : list RR :=
  (λ it,
    let name := RR_Name it in
    if HasPrefix name "*" && HasSuffix question (String.substring 1 (String.length name - 1) name)
    then RR_with_Name question it else it) <$> records.

(** [RuleActionPredefined.Response]: header, question and the three sections.
    An empty question list is an index out of range. *)
Record Response := mkResponse {
  resp_Id : Z;
  resp_Rcode : Z;
  resp_Question : list string;
  resp_Answer : list RR;
  resp_Ns : list RR;
  resp_Extra : list RR;
}.

Definition Predefined_Response (rcode : Z) (answer ns extra : list RR) (id : Z) (questions : list string)
    : result Response :=
  match questions with
  | [] => Err (EPanic "index out of range")
  | q :: _ =>
      Ok (mkResponse id rcode questions (rewriteRecords answer q) (rewriteRecords ns q) (rewriteRecords extra q))
  end.
End actions.

(** ** Theorems *)

Section theorems.
Context `{ActionEnv}.

(** The rejections of a run of connections, at the given times. *)
Fixpoint reject_run (times : list Z) (r : RuleActionReject) : list (result rejection) :=
  match times with
  | [] => []
  | now :: times => let '(r', e) := Reject_Error now r in e :: reject_run times r'
  end.

(** The connections of [past] that are at most 30 seconds before [now]. *)
Definition recent (now : Z) (past : list Z) : list Z := filter (λ t, (now - t <= flood_window)%Z) past.

Definition never_before (now : Z) (past : list Z) : Prop := ∀ t, t ∈ past → (t <= now)%Z.

(** Times that were too old once stay too old. *)
Lemma recent_recent prev now past :
  (prev <= now)%Z → recent now (recent prev past) = recent now past.
Proof.
  intros Hle. unfold recent. induction past as [|t past IH]; [done|].
  rewrite !filter_cons. destruct (decide (prev - t <= flood_window)%Z) as [Hp|Hp].
  - rewrite filter_cons. by rewrite IH.
  - rewrite (decide_False (P := (now - t <= flood_window)%Z)) by lia. done.
Qed.

Lemma recent_snoc now past : recent now (past ++ [now]) = recent now past ++ [now].
Proof.
  unfold recent. rewrite filter_app. f_equal. rewrite filter_cons, decide_True, filter_nil; [done|].
  unfold flood_window. lia.
Qed.

(** The counter of a reject action that saw the connections [past]. *)
Definition saw (past : list Z) (r : RuleActionReject) : Prop :=
  Method r = "default" ∧ NoDrop r = false ∧ ∀ now, never_before now past → recent now (dropCounter r) = recent now past.

Lemma Reject_Error_spec past now r :
  saw past r → never_before now past →
  Reject_Error now r =
    (mkReject "default" false (recent now past ++ [now]),
     Ok (if decide (flood_limit < length (recent now (past ++ [now]))) then RejectDrop else RejectReset)) ∧
  saw (past ++ [now]) (mkReject "default" false (recent now past ++ [now])).
Proof.
  intros (Hm & Hn & Hc) Hlt. unfold Reject_Error. rewrite Hm, decide_True, Hn by done.
  change (filter _ (dropCounter r)) with (recent now (dropCounter r)). rewrite (Hc now Hlt), recent_snoc.
  split; [done|]. split; [done|]. split; [done|]. intros later Hlater. simpl.
  assert (now <= later)%Z as Hle by (apply Hlater, elem_of_snoc; by right).
  rewrite <-recent_snoc. by apply recent_recent.
Qed.

Lemma reject_run_spec times : ∀ past r i,
  saw past r → Sorted (λ a b, (a <= b)%Z) (past ++ times) → i < length times →
  reject_run times r !! i =
    Some (Ok (let now := default 0%Z (times !! i) in
              if decide (flood_limit < length (recent now (past ++ take (S i) times)))
              then RejectDrop else RejectReset)).
Proof.
  induction times as [|now times IH]; intros past r i Hsaw Hsort Hi; [simpl in Hi; lia|].
  assert (never_before now past) as Hlt.
  { apply Sorted_StronglySorted in Hsort; [|intros a b c; lia].
    intros t Ht. eapply StronglySorted_app_1_elem_of; [exact Hsort|done|by left]. }
  destruct (Reject_Error_spec past now r Hsaw Hlt) as [He Hsaw']. cbn [reject_run]. rewrite He.
  destruct i as [|i]; [done|]. simpl lookup. rewrite (IH (past ++ [now])); [|done| |simpl in Hi; lia].
  - simpl. by rewrite <-!app_assoc.
  - by rewrite <-app_assoc.
Qed.

(** The flood control of the reject action.  For connections that arrive
    in time order at a fresh reject action of the default method, the i-th is
    dropped silently exactly when more than 50 connections, itself included,
    arrived in the 30 seconds up to it; every other one is reset. *)
Lemma reject_flood_control times i now :
  Sorted (λ a b, (a <= b)%Z) times → times !! i = Some now →
  reject_run times (mkReject "default" false []) !! i =
    Some (Ok (if decide (50 < length (filter (λ t, (now - t <= 30 * 1000000000)%Z) (take (S i) times)))
              then RejectDrop else RejectReset)).
Proof.
  intros Hs Hi. rewrite (reject_run_spec times []); [|by repeat split|done|by eapply lookup_lt_Some].
  rewrite Hi. done.
Qed.

(** an action is built for exactly the names the configuration allows:
    the built action reports the name it was built from, an empty name means
    no action, and every other name panics.  A route or bypass action never
    carries the UDP timeout of its options, a route-options action does. *)
Lemma NewRuleAction_type o :
  match NewRuleAction o with
  | Ok None => ao_Action o = ""
  | Ok (Some a) =>
      RuleAction_Type a = ao_Action o ∧
      match a with
      | ActionRoute _ ro | ActionBypass _ ro => UDPTimeout ro = 0%Z
      | ActionRouteOptions ro => UDPTimeout ro = oo_UDPTimeout (ao_RouteOptionsOptions o)
      | _ => True
      end
  | Err (EPanic _) =>
      ao_Action o ∉ [""; "route"; "route-options"; "bypass"; "direct"; "reject"; "hijack-dns"; "sniff"; "resolve"]
      ∨ ao_Action o = "direct"
  | Err _ => ao_Action o = "direct" ∨ ao_Action o = "sniff"
  end.
Proof.
  unfold NewRuleAction. repeat case_decide; try by repeat split.
  - destruct (dialer_New _) as [d|e]; cbn [result_bind]; [|by destruct e; auto].
    destruct (DirectOptions_Descriptions _) as [ds|e]; cbn [result_bind]; [done|by destruct e; auto].
  - destruct (sniff_build _ _) as [s [e|]] eqn:Hs; [|done].
    assert (∃ msg, e = ENew msg) as [msg ->]; [|by right]. clear -Hs. revert Hs.
    generalize (mkSniff (ao_Sniffer o) [] [] (ao_SniffTimeout o)).
    induction (ao_Sniffer o) as [|name names IH]; intros r; simpl; [done|].
    repeat case_decide; try apply IH. intros [= <- <-]. eauto.
  - left. rewrite !elem_of_cons, elem_of_nil. tauto.
Qed.
End theorems.

Lemma reject_flood_control_witness :
  reject_run (replicate 51 7%Z ++ [40000000000%Z]) (mkReject "default" false []) !! 49 = Some (Ok RejectReset) ∧
  reject_run (replicate 51 7%Z ++ [40000000000%Z]) (mkReject "default" false []) !! 50 = Some (Ok RejectDrop) ∧
  reject_run (replicate 51 7%Z ++ [40000000000%Z]) (mkReject "default" false []) !! 51 = Some (Ok RejectReset).
Proof.
  assert (Sorted (λ a b, (a <= b)%Z) (replicate 51 7%Z ++ [40000000000%Z])) as Hs.
  { cbn. repeat constructor; lia. }
  split; [|split].
  - rewrite (reject_flood_control _ 49 7%Z Hs eq_refl). vm_compute. reflexivity.
  - rewrite (reject_flood_control _ 50 7%Z Hs eq_refl). vm_compute. reflexivity.
  - rewrite (reject_flood_control _ 51 40000000000%Z Hs eq_refl). vm_compute. reflexivity.
Defined.
