(* ===== verification/RuleBuild.v ===== *)
(** * Building rules from options

    Model of the constructors in src/runtime/sing-box/route/rule:
    rule_default.go (route rules), rule_headless.go (rules of rule sets), the
    rule-set metadata of rule_set.go and the reload of rule_set_local.go, and
    the [String] methods of rules.  The option records are those of
    src/runtime/sing-box/option/rule.go and rule_set.go; a [badoption.Listable]
    is a list, a [badjson.TypedMap] its entries. *)
From S2P Require Import Prelude MatchState RuleItems Rules RuleAction.

Section build.
Context `{RuleEnv} `{ActionEnv}.
Notation D := (abstractDefaultRule RuleAction (Rule RuleAction)).

(** ** Appending an item to a group and to [allItems] *)

Definition empty_rule (inv : bool) (act : option RuleAction) : D :=
  mkDefaultRule [] [] [] [] [] [] [] None inv act.

Definition add_item (i : Item) (d : D) : D :=
  mkDefaultRule (items d ++ [i]) (sourceAddressItems d) (sourcePortItems d) (destinationAddressItems d)
    (destinationIPCIDRItems d) (destinationPortItems d) (allItems d ++ [inl i]) (ruleSetItem d) (invert d) (action d).
Definition add_sourceAddress (i : Item) (d : D) : D :=
  mkDefaultRule (items d) (sourceAddressItems d ++ [i]) (sourcePortItems d) (destinationAddressItems d)
    (destinationIPCIDRItems d) (destinationPortItems d) (allItems d ++ [inl i]) (ruleSetItem d) (invert d) (action d).
Definition add_sourcePort (i : Item) (d : D) : D :=
  mkDefaultRule (items d) (sourceAddressItems d) (sourcePortItems d ++ [i]) (destinationAddressItems d)
    (destinationIPCIDRItems d) (destinationPortItems d) (allItems d ++ [inl i]) (ruleSetItem d) (invert d) (action d).
Definition add_destinationAddress (i : Item) (d : D) : D :=
  mkDefaultRule (items d) (sourceAddressItems d) (sourcePortItems d) (destinationAddressItems d ++ [i])
    (destinationIPCIDRItems d) (destinationPortItems d) (allItems d ++ [inl i]) (ruleSetItem d) (invert d) (action d).
Definition add_destinationIPCIDR (i : Item) (d : D) : D :=
  mkDefaultRule (items d) (sourceAddressItems d) (sourcePortItems d) (destinationAddressItems d)
    (destinationIPCIDRItems d ++ [i]) (destinationPortItems d) (allItems d ++ [inl i]) (ruleSetItem d) (invert d) (action d).
Definition add_destinationPort (i : Item) (d : D) : D :=
  mkDefaultRule (items d) (sourceAddressItems d) (sourcePortItems d) (destinationAddressItems d)
    (destinationIPCIDRItems d) (destinationPortItems d ++ [i]) (allItems d ++ [inl i]) (ruleSetItem d) (invert d) (action d).
Definition set_ruleSet (i : RuleSetItem RuleAction) (d : D) : D :=
  mkDefaultRule (items d) (sourceAddressItems d) (sourcePortItems d) (destinationAddressItems d)
    (destinationIPCIDRItems d) (destinationPortItems d) (allItems d ++ [inr i]) (Some i) (invert d) (action d).

(** [if len(xs) > 0 { item := New(xs); ... }]. *)
Definition when_some {X} (xs : list X) (add : Item → D → D) (new : list X → Item) (d : D) : D :=
  match xs with [] => d | _ => add (new xs) d end.
(** The same for a constructor that can fail, with what its error is wrapped in. *)
Definition when_some_err {X} (xs : list X) (add : Item → D → D) (new : list X → result Item)
    (wrap : error → error) (d : D) : result D :=
  match xs with
  | [] => Ok d
  | _ => match new xs with Ok i => Ok (add i d) | Err e => Err (wrap e) end
  end.
Definition when (b : bool) (add : Item → D → D) (i : Item) (d : D) : D := if b then add i d else d.
(** [E.Cause]; a panic is not an error and passes through. *)
Definition cause (msg : string) (e : error) : error :=
  match e with EPanic _ => e | _ => ECause e msg end.

(** ** Route rules *)

(** option/rule.go, [DefaultRule]. *)
Record DefaultRuleOptions := mkDefaultRuleOptions {
  o_Inbound : list string;
  o_IPVersion : Z;
  o_Network : list string;
  o_AuthUser : list string;
  o_Protocol : list string;
  o_Client : list string;
  o_Domain : list string;
  o_DomainSuffix : list string;
  o_DomainKeyword : list string;
  o_DomainRegex : list string;
  o_Geosite : list string;
  o_SourceGeoIP : list string;
  o_GeoIP : list string;
  o_SourceIPCIDR : list string;
  o_SourceIPIsPrivate : bool;
  o_IPCIDR : list string;
  o_IPIsPrivate : bool;
  o_SourcePort : list Z;
  o_SourcePortRange : list string;
  o_Port : list Z;
  o_PortRange : list string;
  o_ProcessName : list string;
  o_ProcessPath : list string;
  o_ProcessPathRegex : list string;
  o_PackageName : list string;
  o_User : list string;
  o_UserID : list Z;
  o_ClashMode : string;
  o_NetworkType : list InterfaceType;
  o_NetworkIsExpensive : bool;
  o_NetworkIsConstrained : bool;
  o_WIFISSID : list string;
  o_WIFIBSSID : list string;
  o_InterfaceAddress : list (string * list Prefixable);
  o_NetworkInterfaceAddress : list (InterfaceType * list Prefixable);
  o_DefaultInterfaceAddress : list Prefixable;
  o_PreferredBy : list string;
  o_RuleSet : list string;
  o_RuleSetIPCIDRMatchSource : bool;
  o_Invert : bool;
  o_Deprecated_RulesetIPCIDRMatchSource : bool;
  o_RuleAction : RuleActionOptions;
}.

(** [NewDefaultRule], the items up to [client]. *)
Definition default_plain (o : DefaultRuleOptions) (d : D) : result D :=
  let d := when_some (o_Inbound o) add_item NewInboundRule d in
  let? d :=
    if (0 <? o_IPVersion o)%Z then
      if (o_IPVersion o =? 4)%Z || (o_IPVersion o =? 6)%Z
      then Ok (add_item (NewIPVersionItem (o_IPVersion o =? 6)%Z) d)
      else Err (ENew ("invalid ip version: " +:+ pretty (o_IPVersion o)))
    else Ok d in
  let d := when_some (o_Network o) add_item NewNetworkItem d in
  let d := when_some (o_AuthUser o) add_item NewAuthUserItem d in
  let d := when_some (o_Protocol o) add_item NewProtocolItem d in
  Ok (when_some (o_Client o) add_item NewClientItem d).

(** The domain items, and the databases that were removed. *)
Definition default_domain (o : DefaultRuleOptions) (d : D) : result D :=
  let? d :=
    if bool_decide (0 < length (o_Domain o)) || bool_decide (0 < length (o_DomainSuffix o)) then
      let? i := NewDomainItem (o_Domain o) (o_DomainSuffix o) in Ok (add_destinationAddress i d)
    else Ok d in
  let d := when_some (o_DomainKeyword o) add_destinationAddress NewDomainKeywordItem d in
  let? d := when_some_err (o_DomainRegex o) add_destinationAddress NewDomainRegexItem id d in
  if bool_decide (0 < length (o_Geosite o)) then
    Err (ENew "geosite database is deprecated in sing-box 1.8.0 and removed in sing-box 1.12.0")
  else if bool_decide (0 < length (o_SourceGeoIP o)) || bool_decide (0 < length (o_GeoIP o)) then
    Err (ENew "geoip database is deprecated in sing-box 1.8.0 and removed in sing-box 1.12.0")
  else Ok d.

(** The IP address items. *)
Definition default_address (o : DefaultRuleOptions) (d : D) : result D :=
  let? d := when_some_err (o_SourceIPCIDR o) add_sourceAddress (NewIPCIDRItem true) (cause "source_ip_cidr") d in
  let d := when (o_SourceIPIsPrivate o) add_sourceAddress (NewIPIsPrivateItem true) d in
  let? d := when_some_err (o_IPCIDR o) add_destinationIPCIDR (NewIPCIDRItem false) (cause "ipcidr") d in
  Ok (when (o_IPIsPrivate o) add_destinationIPCIDR (NewIPIsPrivateItem false) d).

(** The port items. *)
Definition default_ports (o : DefaultRuleOptions) (d : D) : result D :=
  let d := when_some (o_SourcePort o) add_sourcePort (NewPortItem true) d in
  let? d := when_some_err (o_SourcePortRange o) add_sourcePort (NewPortRangeItem true) (cause "source_port_range") d in
  let d := when_some (o_Port o) add_destinationPort (NewPortItem false) d in
  when_some_err (o_PortRange o) add_destinationPort (NewPortRangeItem false) (cause "port_range") d.

(** The process items. *)
Definition default_process (o : DefaultRuleOptions) (d : D) : result D :=
  let d := when_some (o_ProcessName o) add_item NewProcessItem d in
  let d := when_some (o_ProcessPath o) add_item NewProcessPathItem d in
  let? d := when_some_err (o_ProcessPathRegex o) add_item NewProcessPathRegexItem (cause "process_path_regex") d in
  let d := when_some (o_PackageName o) add_item NewPackageNameItem d in
  let d := when_some (o_User o) add_item NewUserItem d in
  Ok (when_some (o_UserID o) add_item NewUserIDItem d).

(** The items on the state of the network. *)
Definition default_network (o : DefaultRuleOptions) (d : D) : D :=
  let d := when (negb (bool_decide (o_ClashMode o = ""))) add_item (NewClashModeItem (o_ClashMode o)) d in
  let d := when_some (o_NetworkType o) add_item NewNetworkTypeItem d in
  let d := when (o_NetworkIsExpensive o) add_item NewNetworkIsExpensiveItem d in
  let d := when (o_NetworkIsConstrained o) add_item NewNetworkIsConstrainedItem d in
  let d := when_some (o_WIFISSID o) add_item NewWIFISSIDItem d in
  let d := when_some (o_WIFIBSSID o) add_item NewWIFIBSSIDItem d in
  let d := when_some (o_InterfaceAddress o) add_item NewInterfaceAddressItem d in
  let d := when_some (o_NetworkInterfaceAddress o) add_item NewNetworkInterfaceAddressItem d in
  let d := when_some (o_DefaultInterfaceAddress o) add_item NewDefaultInterfaceAddressItem d in
  when_some (o_PreferredBy o) add_item NewPreferredByItem d.

(** [NewRuleSetItem]: the sets are looked up when the item is started. *)
Definition NewRuleSetItem (tags : list string) (matchSource acceptEmpty : bool) : RuleSetItem RuleAction :=
  mkRuleSetItem tags [] matchSource acceptEmpty.

Definition default_ruleset (o : DefaultRuleOptions) (d : D) : result D :=
  match o_RuleSet o with
  | [] => Ok d
  | tags =>
      if o_Deprecated_RulesetIPCIDRMatchSource o then
        Err (ENew "rule_set_ipcidr_match_source is deprecated in sing-box 1.10.0 and removed in sing-box 1.11.0")
      else Ok (set_ruleSet (NewRuleSetItem tags (o_RuleSetIPCIDRMatchSource o) false) d)
  end.

Definition NewDefaultRule (o : DefaultRuleOptions) : result D :=
  match NewRuleAction (o_RuleAction o) with
  | Err e => Err (cause "action" e)
  | Ok act =>
      let? d := default_plain o (empty_rule (o_Invert o) act) in
      let? d := default_domain o d in
      let? d := default_address o d in
      let? d := default_ports o d in
      let? d := default_process o d in
      default_ruleset o (default_network o d)
  end.

(** option/rule.go, [Rule] and [LogicalRule]. *)
Record LogicalOptionsOf (R : Type) := mkLogicalOptions {
  l_Mode : string;
  l_Rules : list R;
  l_Invert : bool;
  l_RuleAction : RuleActionOptions;
}.

Inductive RuleOptions :=
| mkRuleOptions (Type_ : string) (DefaultOptions : DefaultRuleOptions) (LogicalOptions : LogicalOptionsOf RuleOptions).

(** [DefaultRule.IsValid] compares the options with their zero value by
    reflection, which also tells a nil slice from an empty one. *)
Context (DefaultRule_IsValid : DefaultRuleOptions → bool).

(** [Rule.IsValid] and [LogicalRule.IsValid]. *)
Fixpoint Rule_IsValid (r : RuleOptions) : result bool :=
  match r with
  | mkRuleOptions type d l =>
      if decide (type = "default") then Ok (DefaultRule_IsValid d)
      else if decide (type = "logical") then
        match l_Rules _ l with
        | [] => Ok false
        | rules =>
            (fix all (rs : list RuleOptions) : result bool :=
               match rs with
               | [] => Ok true
               | r :: rs => let? b := Rule_IsValid r in if b then all rs else Ok false
               end) rules
        end
      else Err (EPanic ("unknown rule type: " +:+ type))
  end.

Definition LogicalRule_IsValid (l : LogicalOptionsOf RuleOptions) : result bool :=
  match l_Rules _ l with
  | [] => Ok false
  | rules =>
      (fix all (rs : list RuleOptions) : result bool :=
         match rs with
         | [] => Ok true
         | r :: rs => let? b := Rule_IsValid r in if b then all rs else Ok false
         end) rules
  end.

(** The check that a route action names its outbound. *)
Definition missing_outbound (checkOutbound : bool) (a : RuleActionOptions) : bool :=
  (bool_decide (ao_Action a = "") || bool_decide (ao_Action a = RuleActionTypeRoute))
  && bool_decide (ao_RouteOutbound a = "") && checkOutbound.

(** The sub-rules of a logical rule, with the index an error reports. *)
Fixpoint build_all {O R} (new : O → result R) (i : nat) (os : list O) : result (list R) :=
  match os with
  | [] => Ok []
  | o :: os =>
      match new o with
      | Err e => Err (cause ("sub rule[" +:+ pretty i +:+ "]") e)
      | Ok r => let? rs := build_all new (S i) os in Ok (r :: rs)
      end
  end.

(** [NewRule] and [NewLogicalRule]. *)
Definition NewLogicalRule (new : RuleOptions → result (Rule RuleAction)) (l : LogicalOptionsOf RuleOptions)
    : result (Rule RuleAction) :=
  match NewRuleAction (l_RuleAction _ l) with
  | Err e => Err (cause "action" e)
  | Ok act =>
      if bool_decide (l_Mode _ l = LogicalTypeAnd) || bool_decide (l_Mode _ l = LogicalTypeOr) then
        let? rules := build_all new 0 (l_Rules _ l) in
        Ok (LogicalRule rules (l_Mode _ l) (l_Invert _ l) act)
      else Err (ENew ("unknown logical mode: " +:+ l_Mode _ l))
  end.

Fixpoint NewRule (checkOutbound : bool) (r : RuleOptions) : result (Rule RuleAction) :=
  match r with
  | mkRuleOptions type d l =>
      if bool_decide (type = "") || bool_decide (type = "default") then
        if negb (DefaultRule_IsValid d) then Err (ENew "missing conditions")
        else if missing_outbound checkOutbound (o_RuleAction d) then Err (ENew "missing outbound field")
        else let? rule := NewDefaultRule d in Ok (DefaultRule rule)
      else if decide (type = "logical") then
        let? valid := LogicalRule_IsValid l in
        if negb valid then Err (ENew "missing conditions")
        else if missing_outbound checkOutbound (l_RuleAction _ l) then Err (ENew "missing outbound field")
        else NewLogicalRule (NewRule false) l
      else Err (ENew ("unknown rule type: " +:+ type))
  end.

(** ** Headless rules *)

(** option/rule_set.go, [DefaultHeadlessRule]. *)
Record HeadlessOptions := mkHeadlessOptions {
  h_QueryType : list Z;
  h_Network : list string;
  h_Domain : list string;
  h_DomainSuffix : list string;
  h_DomainKeyword : list string;
  h_DomainRegex : list string;
  h_SourceIPCIDR : list string;
  h_IPCIDR : list string;
  h_SourcePort : list Z;
  h_SourcePortRange : list string;
  h_Port : list Z;
  h_PortRange : list string;
  h_ProcessName : list string;
  h_ProcessPath : list string;
  h_ProcessPathRegex : list string;
  h_PackageName : list string;
  h_NetworkType : list InterfaceType;
  h_NetworkIsExpensive : bool;
  h_NetworkIsConstrained : bool;
  h_WIFISSID : list string;
  h_WIFIBSSID : list string;
  h_NetworkInterfaceAddress : list (InterfaceType * list Prefixable);
  h_DefaultInterfaceAddress : list Prefixable;
  h_Invert : bool;
  h_DomainMatcher : option DomainMatcher;
  h_SourceIPSet : option IPSet;
  h_IPSet : option IPSet;
  h_AdGuardDomain : list string;
  h_AdGuardDomainMatcher : option AdGuardMatcher;
}.

Definition when_matcher {X} (m : option X) (add : Item → D → D) (new : X → Item) (d : D) : D :=
  match m with Some x => add (new x) d | None => d end.

(** [NewDefaultHeadlessRule] up to the domain items. *)
Definition headless_domain (o : HeadlessOptions) (d : D) : result D :=
  let d := when_some (h_QueryType o) add_item NewQueryTypeItem d in
  let d := when_some (h_Network o) add_item NewNetworkItem d in
  let? d :=
    if bool_decide (0 < length (h_Domain o)) || bool_decide (0 < length (h_DomainSuffix o)) then
      let? i := NewDomainItem (h_Domain o) (h_DomainSuffix o) in Ok (add_destinationAddress i d)
    else Ok (when_matcher (h_DomainMatcher o) add_destinationAddress NewRawDomainItem d) in
  let d := when_some (h_DomainKeyword o) add_destinationAddress NewDomainKeywordItem d in
  when_some_err (h_DomainRegex o) add_destinationAddress NewDomainRegexItem (cause "domain_regex") d.

(** The address items; a compiled set is used where no list is given. *)
Definition headless_address (o : HeadlessOptions) (d : D) : result D :=
  let? d :=
    match h_SourceIPCIDR o with
    | [] => Ok (when_matcher (h_SourceIPSet o) add_sourceAddress (NewRawIPCIDRItem true) d)
    | xs => when_some_err xs add_sourceAddress (NewIPCIDRItem true) (cause "source_ip_cidr") d
    end in
  match h_IPCIDR o with
  | [] => Ok (when_matcher (h_IPSet o) add_destinationIPCIDR (NewRawIPCIDRItem false) d)
  | xs => when_some_err xs add_destinationIPCIDR (NewIPCIDRItem false) (cause "ipcidr") d
  end.

(** The port and process items. *)
Definition headless_ports (o : HeadlessOptions) (d : D) : result D :=
  let d := when_some (h_SourcePort o) add_sourcePort (NewPortItem true) d in
  let? d := when_some_err (h_SourcePortRange o) add_sourcePort (NewPortRangeItem true) (cause "source_port_range") d in
  let d := when_some (h_Port o) add_destinationPort (NewPortItem false) d in
  let? d := when_some_err (h_PortRange o) add_destinationPort (NewPortRangeItem false) (cause "port_range") d in
  let d := when_some (h_ProcessName o) add_item NewProcessItem d in
  let d := when_some (h_ProcessPath o) add_item NewProcessPathItem d in
  let? d := when_some_err (h_ProcessPathRegex o) add_item NewProcessPathRegexItem (cause "process_path_regex") d in
  Ok (when_some (h_PackageName o) add_item NewPackageNameItem d).

(** The items on the state of the network, which need a network manager. *)
Definition headless_network (networkManager : bool) (o : HeadlessOptions) (d : D) : D :=
  if networkManager then
    let d := when_some (h_NetworkType o) add_item NewNetworkTypeItem d in
    let d := when (h_NetworkIsExpensive o) add_item NewNetworkIsExpensiveItem d in
    let d := when (h_NetworkIsConstrained o) add_item NewNetworkIsConstrainedItem d in
    let d := when_some (h_WIFISSID o) add_item NewWIFISSIDItem d in
    let d := when_some (h_WIFIBSSID o) add_item NewWIFIBSSIDItem d in
    let d := when_some (h_NetworkInterfaceAddress o) add_item NewNetworkInterfaceAddressItem d in
    when_some (h_DefaultInterfaceAddress o) add_item NewDefaultInterfaceAddressItem d
  else d.

Definition NewDefaultHeadlessRule (networkManager : bool) (o : HeadlessOptions) : result D :=
  let? d := headless_domain o (empty_rule (h_Invert o) None) in
  let? d := headless_address o d in
  let? d := headless_ports o d in
  let d := headless_network networkManager o d in
  Ok (match h_AdGuardDomain o with
      | [] => when_matcher (h_AdGuardDomainMatcher o) add_destinationAddress NewRawAdGuardDomainItem d
      | xs => when_some xs add_destinationAddress NewAdGuardDomainItem d
      end).

(** option/rule_set.go, [HeadlessRule] and [LogicalHeadlessRule]. *)
Record LogicalHeadlessOf (R : Type) := mkLogicalHeadless { lh_Mode : string; lh_Rules : list R; lh_Invert : bool }.

Inductive HeadlessRuleOptions :=
| mkHeadlessRuleOptions (Type_ : string) (DefaultOptions : HeadlessOptions)
    (LogicalOptions : LogicalHeadlessOf HeadlessRuleOptions).

(** [DefaultHeadlessRule.IsValid], by reflection as above. *)
Context (DefaultHeadlessRule_IsValid : HeadlessOptions → bool).

Fixpoint HeadlessRule_IsValid (r : HeadlessRuleOptions) : result bool :=
  match r with
  | mkHeadlessRuleOptions type d l =>
      if decide (type = "default") then Ok (DefaultHeadlessRule_IsValid d)
      else if decide (type = "logical") then
        match lh_Rules _ l with
        | [] => Ok false
        | rules =>
            (fix all (rs : list HeadlessRuleOptions) : result bool :=
               match rs with
               | [] => Ok true
               | r :: rs => let? b := HeadlessRule_IsValid r in if b then all rs else Ok false
               end) rules
        end
      else Err (EPanic ("unknown rule type: " +:+ type))
  end.

Definition LogicalHeadlessRule_IsValid (l : LogicalHeadlessOf HeadlessRuleOptions) : result bool :=
  match lh_Rules _ l with
  | [] => Ok false
  | rules =>
      (fix all (rs : list HeadlessRuleOptions) : result bool :=
         match rs with
         | [] => Ok true
         | r :: rs => let? b := HeadlessRule_IsValid r in if b then all rs else Ok false
         end) rules
  end.

Definition NewLogicalHeadlessRule (new : HeadlessRuleOptions → result (Rule RuleAction))
    (l : LogicalHeadlessOf HeadlessRuleOptions) : result (Rule RuleAction) :=
  if bool_decide (lh_Mode _ l = LogicalTypeAnd) || bool_decide (lh_Mode _ l = LogicalTypeOr) then
    let? rules := build_all new 0 (lh_Rules _ l) in
    Ok (LogicalRule rules (lh_Mode _ l) (lh_Invert _ l) None)
  else Err (ENew ("unknown logical mode: " +:+ lh_Mode _ l)).

Fixpoint NewHeadlessRule (networkManager : bool) (r : HeadlessRuleOptions) : result (Rule RuleAction) :=
  match r with
  | mkHeadlessRuleOptions type d l =>
      if bool_decide (type = "") || bool_decide (type = "default") then
        if negb (DefaultHeadlessRule_IsValid d) then Err (ENew "missing conditions")
        else let? rule := NewDefaultHeadlessRule networkManager d in Ok (DefaultRule rule)
      else if decide (type = "logical") then
        let? valid := LogicalHeadlessRule_IsValid l in
        if negb valid then Err (ENew "missing conditions")
        else NewLogicalHeadlessRule (NewHeadlessRule networkManager) l
      else Err (ENew ("unknown rule type: " +:+ type))
  end.

(** ** Rule sets *)

(** rule_set.go, [HasHeadlessRule]; a rule of the empty type is not looked at. *)
Fixpoint HasHeadlessRule (cond : HeadlessOptions → bool) (r : HeadlessRuleOptions) : bool :=
  match r with
  | mkHeadlessRuleOptions type d l =>
      if decide (type = "default") then cond d
      else if decide (type = "logical") then
        (fix any (rs : list HeadlessRuleOptions) : bool :=
           match rs with [] => false | r :: rs => HasHeadlessRule cond r || any rs end) (lh_Rules _ l)
      else false
  end.

Definition HasHeadlessRules (rules : list HeadlessRuleOptions) (cond : HeadlessOptions → bool) : bool :=
  existsb (HasHeadlessRule cond) rules.

Definition isProcessHeadlessRule (o : HeadlessOptions) : bool :=
  bool_decide (0 < length (h_ProcessName o)) || bool_decide (0 < length (h_ProcessPath o))
  || bool_decide (0 < length (h_ProcessPathRegex o)) || bool_decide (0 < length (h_PackageName o)).
Definition isWIFIHeadlessRule (o : HeadlessOptions) : bool :=
  bool_decide (0 < length (h_WIFISSID o)) || bool_decide (0 < length (h_WIFIBSSID o)).
Definition isIPCIDRHeadlessRule (o : HeadlessOptions) : bool :=
  bool_decide (0 < length (h_IPCIDR o)) || bool_decide (is_Some (h_IPSet o)).

(** [adapter.RuleSetMetadata]. *)
Record RuleSetMetadata := mkMetadata {
  ContainsProcessRule : bool;
  ContainsWIFIRule : bool;
  ContainsIPCIDRRule : bool;
}.

(** rule_set_local.go, [LocalRuleSet.reloadRules]: the new rules and metadata;
    on an error the rule set keeps what it had. *)
Fixpoint build_ruleset (networkManager : bool) (i : nat) (os : list HeadlessRuleOptions)
    : result (list (Rule RuleAction)) :=
  match os with
  | [] => Ok []
  | o :: os =>
      match NewHeadlessRule networkManager o with
      | Err e => Err (cause ("parse rule_set.rules.[" +:+ pretty i +:+ "]") e)
      | Ok r => let? rs := build_ruleset networkManager (S i) os in Ok (r :: rs)
      end
  end.

Definition reloadRules (networkManager : bool) (os : list HeadlessRuleOptions)
    (s : RuleSet RuleAction * RuleSetMetadata) : (RuleSet RuleAction * RuleSetMetadata) * option error :=
  match build_ruleset networkManager 0 os with
  | Err e => (s, Some e)
  | Ok rules =>
      ((mkRuleSet (rs_tag s.1) rules (rs_refs s.1),
        mkMetadata (HasHeadlessRules os isProcessHeadlessRule) (HasHeadlessRules os isWIFIHeadlessRule)
          (HasHeadlessRules os isIPCIDRHeadlessRule)), None)
  end.

(** [IncRef], [DecRef] and [Cleanup] of a local rule set. *)
Definition IncRef (s : RuleSet RuleAction) : RuleSet RuleAction := mkRuleSet (rs_tag s) (rs_rules s) (rs_refs s + 1).
Definition DecRef (s : RuleSet RuleAction) : RuleSet RuleAction * option error :=
  let s' := mkRuleSet (rs_tag s) (rs_rules s) (rs_refs s - 1) in
  (s', if (rs_refs s' <? 0)%Z then Some (EPanic "rule-set: negative refs") else None).
Definition Cleanup (s : RuleSet RuleAction) : RuleSet RuleAction :=
  if (rs_refs s =? 0)%Z then mkRuleSet (rs_tag s) [] (rs_refs s) else s.

(** rule_item_rule_set.go, [RuleSetItem.Start] and
    [ContainsDestinationIPCIDRRule]. *)
Fixpoint start_rulesets (lookup : string → option (RuleSet RuleAction)) (tags : list string)
    (acc : list (RuleSet RuleAction)) : result (list (RuleSet RuleAction)) :=
  match tags with
  | [] => Ok acc
  | tag :: tags =>
      match lookup tag with
      | None => Err (ENew ("rule-set not found: " +:+ tag))
      | Some s => start_rulesets lookup tags (acc ++ [IncRef s])
      end
  end.

Definition RuleSetItem_Start (lookup : string → option (RuleSet RuleAction)) (i : RuleSetItem RuleAction)
    : result (RuleSetItem RuleAction) :=
  let? sets := start_rulesets lookup (tagList i) (setList i) in
  Ok (mkRuleSetItem (tagList i) sets (ipCidrMatchSource i) (ipCidrAcceptEmpty i)).

Definition ContainsDestinationIPCIDRRule (metadata : RuleSet RuleAction → RuleSetMetadata)
    (i : RuleSetItem RuleAction) : bool :=
  if ipCidrMatchSource i then false else existsb (λ s, ContainsIPCIDRRule (metadata s)) (setList i).

(** ** Descriptions *)

Definition RuleSetItem_String (i : RuleSetItem RuleAction) : string := listed "rule_set=" (tagList i).

(** [abstractDefaultRule.String] and [abstractLogicalRule.String]. *)
Definition default_String (d : D) : string :=
  let s := Join " " ((λ x, match x with inl i => Item_String i | inr i => RuleSetItem_String i end) <$> allItems d) in
  if invert d then "!(" +:+ s +:+ ")" else s.

Fixpoint Rule_String (r : Rule RuleAction) : string :=
  match r with
  | DefaultRule d => default_String d
  | LogicalRule rules mode inv _ =>
      let op := if decide (mode = LogicalTypeAnd) then "&&" else if decide (mode = LogicalTypeOr) then "||" else "" in
      let s := Join (" " +:+ op +:+ " ") (map Rule_String rules) in
      if inv then "!(" +:+ s +:+ ")" else s
  end.
End build.
