(* ===== verification/RuleBuildProps.v ===== *)
(** * Properties of rule construction

    That a built rule evaluates exactly the conditions it lists, that the rule
    of a user route matches exactly that user's connections, and the parsing of
    port ranges, each with concrete options. *)
From S2P Require Import Prelude MatchState RuleItems Rules RulesSpec RulesProps RuleAction RuleBuild.

(** ** Listed and evaluated conditions *)

Section tidy.
Context `{RuleEnv} `{ActionEnv}.
Notation D := (abstractDefaultRule RuleAction (Rule RuleAction)).

(** The groups of a rule, one after the other. *)
Definition groups (d : D) : list Item :=
  items d ++ sourceAddressItems d ++ sourcePortItems d ++ destinationAddressItems d
    ++ destinationIPCIDRItems d ++ destinationPortItems d.

(** The items evaluated, in any order, and the rule-set item are those of
    [allItems]. *)
Record tidy (d : D) : Prop := {
  tidy_items : omap (λ x, match x with inl i => Some i | inr _ => None end) (allItems d) ≡ₚ groups d;
  tidy_ruleset :
    omap (λ x, match x with inl _ => None | inr s => Some s end) (allItems d) = option_list (ruleSetItem d);
}.

(** A rule under construction: tidy, with the rule set still to come. *)
Definition open_tidy (d : D) : Prop := tidy d ∧ ruleSetItem d = None.

(** An operation that adds a plain item. *)
Definition adds_item (add : Item → D → D) : Prop := ∀ i d, open_tidy d → open_tidy (add i d).

Lemma tidy_empty inv act : open_tidy (empty_rule inv act).
Proof. repeat split; done. Qed.

(** Adding an item to the list and to one group. *)
Lemma adds_intro (add : Item → D → D) (pre post : D → list Item) :
  (∀ i d, allItems (add i d) = allItems d ++ [inl i] ∧ ruleSetItem (add i d) = ruleSetItem d ∧
     groups d = pre d ++ post d ∧ groups (add i d) = pre d ++ [i] ++ post d) →
  adds_item add.
Proof.
  intros Hadd i d [[Hi Hr] Hn]. destruct (Hadd i d) as (Ha & Hs & Hg & Hg'). split; [|congruence].
  split; rewrite Ha, omap_app; simpl.
  - rewrite Hi, Hg, Hg', <-app_assoc. f_equiv. apply Permutation_app_comm.
  - by rewrite app_nil_r, Hr, Hs.
Qed.

Lemma add_item_adds : adds_item add_item.
Proof.
  apply (adds_intro _ items (λ d, sourceAddressItems d ++ sourcePortItems d ++ destinationAddressItems d
    ++ destinationIPCIDRItems d ++ destinationPortItems d)).
  intros i d. unfold groups. simpl. by rewrite <-!app_assoc.
Qed.

Lemma add_sourceAddress_adds : adds_item add_sourceAddress.
Proof.
  apply (adds_intro _ (λ d, items d ++ sourceAddressItems d) (λ d, sourcePortItems d ++ destinationAddressItems d
    ++ destinationIPCIDRItems d ++ destinationPortItems d)).
  intros i d. unfold groups. simpl. by rewrite <-!app_assoc.
Qed.

Lemma add_sourcePort_adds : adds_item add_sourcePort.
Proof.
  apply (adds_intro _ (λ d, items d ++ sourceAddressItems d ++ sourcePortItems d) (λ d, destinationAddressItems d
    ++ destinationIPCIDRItems d ++ destinationPortItems d)).
  intros i d. unfold groups. simpl. by rewrite <-!app_assoc.
Qed.

Lemma add_destinationAddress_adds : adds_item add_destinationAddress.
Proof.
  apply (adds_intro _ (λ d, items d ++ sourceAddressItems d ++ sourcePortItems d ++ destinationAddressItems d)
    (λ d, destinationIPCIDRItems d ++ destinationPortItems d)).
  intros i d. unfold groups. simpl. by rewrite <-!app_assoc.
Qed.

Lemma add_destinationIPCIDR_adds : adds_item add_destinationIPCIDR.
Proof.
  apply (adds_intro _ (λ d, items d ++ sourceAddressItems d ++ sourcePortItems d ++ destinationAddressItems d
    ++ destinationIPCIDRItems d) destinationPortItems).
  intros i d. unfold groups. simpl. by rewrite <-!app_assoc.
Qed.

Lemma add_destinationPort_adds : adds_item add_destinationPort.
Proof.
  apply (adds_intro _ groups (λ _, [])). intros i d. unfold groups. simpl. by rewrite <-!app_assoc, !app_nil_r.
Qed.

Lemma set_ruleSet_tidy s d : open_tidy d → tidy (set_ruleSet s d).
Proof. intros [[Hi Hr] Hn]. split; simpl; rewrite omap_app; simpl; [by rewrite app_nil_r|]. by rewrite Hr, Hn. Qed.

Lemma when_some_tidy {X} (xs : list X) add new d : adds_item add → open_tidy d → open_tidy (when_some xs add new d).
Proof. intros Ha Ht. unfold when_some. destruct xs; [done|by apply Ha]. Qed.

Lemma when_tidy b add i d : adds_item add → open_tidy d → open_tidy (when b add i d).
Proof. intros Ha Ht. unfold when. destruct b; [by apply Ha|done]. Qed.

Lemma when_matcher_tidy {X} (m : option X) add new d :
  adds_item add → open_tidy d → open_tidy (when_matcher m add new d).
Proof. intros Ha Ht. unfold when_matcher. destruct m; [by apply Ha|done]. Qed.

Lemma when_some_err_tidy {X} (xs : list X) add new wrap d d' :
  adds_item add → open_tidy d → when_some_err xs add new wrap d = Ok d' → open_tidy d'.
Proof.
  intros Ha Ht. unfold when_some_err. destruct xs; [by intros [= <-]|]. destruct (new _); [|done].
  intros [= <-]. by apply Ha.
Qed.
End tidy.

#[export] Hint Resolve add_item_adds add_sourceAddress_adds add_sourcePort_adds add_destinationAddress_adds
  add_destinationIPCIDR_adds add_destinationPort_adds : go.

(** A chain of additions keeps a rule tidy. *)
Ltac solve_tidy :=
  repeat first
    [ assumption | apply tidy_empty
    | apply when_some_tidy; [solve [auto with go]|] | apply when_tidy; [solve [auto with go]|]
    | apply when_matcher_tidy; [solve [auto with go]|]
    | apply add_item_adds | apply add_sourceAddress_adds | apply add_sourcePort_adds
    | apply add_destinationAddress_adds | apply add_destinationIPCIDR_adds | apply add_destinationPort_adds ].

(** Follow the additions of a successful construction. *)
Ltac tidy_chain :=
  repeat match goal with
  | Hb : result_bind ?r _ = Ok _ |- _ =>
      let E := fresh "E" in destruct r eqn:E; cbn [result_bind] in Hb; [|discriminate Hb]
  | Hb : Ok _ = Ok _ |- _ => injection Hb as Hb; try subst
  | Hb : Err _ = Ok _ |- _ => discriminate Hb
  | Hb : when_some_err _ _ _ _ _ = Ok _ |- _ =>
      apply when_some_err_tidy in Hb; [|solve [auto with go]|solve [solve_tidy]]
  | Hb : (if ?b then _ else _) = Ok _ |- _ => destruct b
  | Hb : match ?l with [] => _ | _ => _ end = Ok _ |- _ => destruct l
  end; solve_tidy.

Section built.
Context `{RuleEnv} `{ActionEnv}.

Lemma default_plain_tidy o d d' : open_tidy d → default_plain o d = Ok d' → open_tidy d'.
Proof. intros Hd Hb. unfold default_plain in Hb. tidy_chain. Qed.

Lemma default_domain_tidy o d d' : open_tidy d → default_domain o d = Ok d' → open_tidy d'.
Proof. intros Hd Hb. unfold default_domain in Hb. tidy_chain. Qed.

Lemma default_address_tidy o d d' : open_tidy d → default_address o d = Ok d' → open_tidy d'.
Proof. intros Hd Hb. unfold default_address in Hb. tidy_chain. Qed.

Lemma default_ports_tidy o d d' : open_tidy d → default_ports o d = Ok d' → open_tidy d'.
Proof. intros Hd Hb. unfold default_ports in Hb. tidy_chain. Qed.

Lemma default_process_tidy o d d' : open_tidy d → default_process o d = Ok d' → open_tidy d'.
Proof. intros Hd Hb. unfold default_process in Hb. tidy_chain. Qed.

Lemma default_network_tidy o d : open_tidy d → open_tidy (default_network o d).
Proof. intros Hd. unfold default_network. solve_tidy. Qed.

Lemma default_ruleset_tidy o d d' : open_tidy d → default_ruleset o d = Ok d' → tidy d'.
Proof.
  intros Hd. unfold default_ruleset. destruct (o_RuleSet o); [by intros [= <-]; destruct Hd|].
  case_match; [done|]. intros [= <-]. by apply set_ruleSet_tidy.
Qed.

Lemma NewDefaultRule_tidy o d : NewDefaultRule o = Ok d → tidy d.
Proof.
  unfold NewDefaultRule. destruct (NewRuleAction _) as [act|]; [|done]. intros Hb.
  inv_bind Hb. inv_bind Hb. inv_bind Hb. inv_bind Hb. inv_bind Hb.
  eapply default_ruleset_tidy; [|done]. apply default_network_tidy. eapply default_process_tidy; [|done].
  eapply default_ports_tidy; [|done]. eapply default_address_tidy; [|done]. eapply default_domain_tidy; [|done].
  eapply default_plain_tidy; [|done]. apply tidy_empty.
Qed.

Lemma headless_domain_tidy o d d' : open_tidy d → headless_domain o d = Ok d' → open_tidy d'.
Proof. intros Hd Hb. unfold headless_domain in Hb. tidy_chain. Qed.

Lemma headless_address_tidy o d d' : open_tidy d → headless_address o d = Ok d' → open_tidy d'.
Proof. intros Hd Hb. unfold headless_address in Hb. tidy_chain. Qed.

Lemma headless_ports_tidy o d d' : open_tidy d → headless_ports o d = Ok d' → open_tidy d'.
Proof. intros Hd Hb. unfold headless_ports in Hb. tidy_chain. Qed.

Lemma headless_network_tidy nm o d : open_tidy d → open_tidy (headless_network nm o d).
Proof. intros Hd. unfold headless_network. destruct nm; solve_tidy. Qed.

Lemma NewDefaultHeadlessRule_tidy nm o d : NewDefaultHeadlessRule nm o = Ok d → tidy d.
Proof.
  unfold NewDefaultHeadlessRule. intros Hb. inv_bind Hb. inv_bind Hb. inv_bind Hb. injection Hb as <-.
  assert (open_tidy (headless_network nm o a1)) as Hn.
  { apply headless_network_tidy. eapply headless_ports_tidy; [|done]. eapply headless_address_tidy; [|done].
    eapply headless_domain_tidy; [|done]. apply tidy_empty. }
  destruct (h_AdGuardDomain o); [|by apply add_destinationAddress_adds].
  apply (when_matcher_tidy (h_AdGuardDomainMatcher o)); auto with go.
Qed.

Lemma omap_split_length {X Y} (l : list (X + Y)) :
  length l = length (omap (λ x, match x with inl i => Some i | inr _ => None end) l)
           + length (omap (λ x, match x with inl _ => None | inr s => Some s end) l).
Proof. induction l as [|[x|y] l IH]; [done|..]; cbn [omap list_omap length]; rewrite IH; unfold omap; lia. Qed.

(** No condition of a rule is evaluated without being listed, or the other way
    round.  For every route rule and every rule-set rule that is built successfully,
    the conditions it prints, starts and counts ([allItems]) are exactly
    those it evaluates: its plain items, its four address and port groups and
    its rule-set item, each once. *)
Lemma built_rules_are_tidy nm o h d :
  NewDefaultRule o = Ok d ∨ NewDefaultHeadlessRule nm h = Ok d →
  omap (λ x, match x with inl i => Some i | inr _ => None end) (allItems d) ≡ₚ groups d ∧
  omap (λ x, match x with inl _ => None | inr s => Some s end) (allItems d) = option_list (ruleSetItem d) ∧
  length (allItems d) = length (groups d) + length (option_list (ruleSetItem d)).
Proof.
  intros Hb. assert (tidy d) as [Hi Hr].
  { destruct Hb; [by eapply NewDefaultRule_tidy|by eapply NewDefaultHeadlessRule_tidy]. }
  split; [done|]. split; [done|]. rewrite <-Hi, <-Hr. apply omap_split_length.
Qed.
End built.

(** ** What a route rule decides *)

Lemma set_elem `{Countable A} (xs : list A) x : bool_decide (x ∈@{gset A} list_to_set xs) = bool_decide (x ∈ xs).
Proof. apply bool_decide_ext. by rewrite elem_of_list_to_set. Qed.

Section decides.
Context `{RuleEnv} `{ActionEnv} (rt : Runtime).
Notation D := (abstractDefaultRule RuleAction (Rule RuleAction)).

(** The group of a condition, and the conditions a construction adds. *)
Inductive slot := Plain | SourceAddress | SourcePort | DestinationDomain | DestinationIP | DestinationPort.
Definition slot_eqb (k k' : slot) : bool :=
  match k, k' with
  | Plain, Plain | SourceAddress, SourceAddress | SourcePort, SourcePort | DestinationDomain, DestinationDomain
  | DestinationIP, DestinationIP | DestinationPort, DestinationPort => true
  | _, _ => false
  end.
Notation conds := (list (slot * Item)).

Definition slot_items (k : slot) (d : D) : list Item :=
  match k with
  | Plain => items d | SourceAddress => sourceAddressItems d | SourcePort => sourcePortItems d
  | DestinationDomain => destinationAddressItems d | DestinationIP => destinationIPCIDRItems d
  | DestinationPort => destinationPortItems d
  end.
Definition of_slot (k : slot) (l : conds) : list Item := (filter (λ c, slot_eqb c.1 k = true) l).*2.

Record extends (d d' : D) (l : conds) : Prop := {
  ex_slot k : slot_items k d' = slot_items k d ++ of_slot k l;
  ex_all : allItems d' = allItems d ++ (inl <$> l.*2);
  ex_rest : ruleSetItem d' = ruleSetItem d ∧ invert d' = invert d;
}.

Lemma extends_refl d : extends d d [].
Proof. split; try done; [intros k|]; by rewrite app_nil_r. Qed.

Lemma extends_trans d1 d2 d3 l l' : extends d1 d2 l → extends d2 d3 l' → extends d1 d3 (l ++ l').
Proof.
  intros [Hk Ha [Hr Hi]] [Hk' Ha' [Hr' Hi']]. split; [intros k|..|split; congruence].
  - rewrite Hk', Hk, <-app_assoc. unfold of_slot. by rewrite filter_app, fmap_app.
  - by rewrite Ha', Ha, <-app_assoc, !fmap_app.
Qed.

(** The operation that adds a condition to a group. *)
Definition adds (k : slot) (add : Item → D → D) : Prop := ∀ i d, extends d (add i d) [(k, i)].

Ltac solve_adds := intros i d; split; [intros []; simpl; by rewrite ?app_nil_r|done|done].
Lemma adds_Plain : adds Plain add_item. Proof. solve_adds. Qed.
Lemma adds_SourceAddress : adds SourceAddress add_sourceAddress. Proof. solve_adds. Qed.
Lemma adds_SourcePort : adds SourcePort add_sourcePort. Proof. solve_adds. Qed.
Lemma adds_DestinationDomain : adds DestinationDomain add_destinationAddress. Proof. solve_adds. Qed.
Lemma adds_DestinationIP : adds DestinationIP add_destinationIPCIDR. Proof. solve_adds. Qed.
Lemma adds_DestinationPort : adds DestinationPort add_destinationPort. Proof. solve_adds. Qed.

(** A condition for a list, if it is not empty; the item may fail to be built. *)
Definition cond {X} (xs : list X) (k : slot) (i : Item) : conds := match xs with [] => [] | _ => [(k, i)] end.
Definition cond_if (b : bool) (k : slot) (i : Item) : conds := if b then [(k, i)] else [].
Definition cond_ok {X} (xs : list X) (k : slot) (r : result Item) : conds :=
  match xs, r with _ :: _, Ok i => [(k, i)] | _, _ => [] end.

Lemma when_some_extends {X} (xs : list X) k add new d : adds k add → extends d (when_some xs add new d) (cond xs k (new xs)).
Proof. intros Ha. unfold when_some, cond. destruct xs; [apply extends_refl|apply Ha]. Qed.
Lemma when_extends b k add i d : adds k add → extends d (when b add i d) (cond_if b k i).
Proof. intros Ha. unfold when, cond_if. destruct b; [apply Ha|apply extends_refl]. Qed.
Lemma when_some_err_extends {X} (xs : list X) k add new wrap d d' :
  adds k add → when_some_err xs add new wrap d = Ok d' → extends d d' (cond_ok xs k (new xs)).
Proof.
  intros Ha. unfold when_some_err, cond_ok. destruct xs; [intros [= <-]; apply extends_refl|].
  destruct (new _); [|done]. intros [= <-]. apply Ha.
Qed.

(** The conditions of the options, in the order they are listed. *)
Definition plain_conditions (o : DefaultRuleOptions) : conds :=
  cond (o_Inbound o) Plain (NewInboundRule (o_Inbound o))
  ++ cond_if (0 <? o_IPVersion o)%Z Plain (NewIPVersionItem (o_IPVersion o =? 6)%Z)
  ++ cond (o_Network o) Plain (NewNetworkItem (o_Network o))
  ++ cond (o_AuthUser o) Plain (NewAuthUserItem (o_AuthUser o))
  ++ cond (o_Protocol o) Plain (NewProtocolItem (o_Protocol o))
  ++ cond (o_Client o) Plain (NewClientItem (o_Client o)).
Definition domain_conditions (o : DefaultRuleOptions) : conds :=
  cond_ok (o_Domain o ++ o_DomainSuffix o) DestinationDomain (NewDomainItem (o_Domain o) (o_DomainSuffix o))
  ++ cond (o_DomainKeyword o) DestinationDomain (NewDomainKeywordItem (o_DomainKeyword o))
  ++ cond_ok (o_DomainRegex o) DestinationDomain (NewDomainRegexItem (o_DomainRegex o)).
Definition address_conditions (o : DefaultRuleOptions) : conds :=
  cond_ok (o_SourceIPCIDR o) SourceAddress (NewIPCIDRItem true (o_SourceIPCIDR o))
  ++ cond_if (o_SourceIPIsPrivate o) SourceAddress (NewIPIsPrivateItem true)
  ++ cond_ok (o_IPCIDR o) DestinationIP (NewIPCIDRItem false (o_IPCIDR o))
  ++ cond_if (o_IPIsPrivate o) DestinationIP (NewIPIsPrivateItem false).
Definition ports_conditions (o : DefaultRuleOptions) : conds :=
  cond (o_SourcePort o) SourcePort (NewPortItem true (o_SourcePort o))
  ++ cond_ok (o_SourcePortRange o) SourcePort (NewPortRangeItem true (o_SourcePortRange o))
  ++ cond (o_Port o) DestinationPort (NewPortItem false (o_Port o))
  ++ cond_ok (o_PortRange o) DestinationPort (NewPortRangeItem false (o_PortRange o)).
Definition process_conditions (o : DefaultRuleOptions) : conds :=
  cond (o_ProcessName o) Plain (NewProcessItem (o_ProcessName o))
  ++ cond (o_ProcessPath o) Plain (NewProcessPathItem (o_ProcessPath o))
  ++ cond_ok (o_ProcessPathRegex o) Plain (NewProcessPathRegexItem (o_ProcessPathRegex o))
  ++ cond (o_PackageName o) Plain (NewPackageNameItem (o_PackageName o))
  ++ cond (o_User o) Plain (NewUserItem (o_User o))
  ++ cond (o_UserID o) Plain (NewUserIDItem (o_UserID o)).
Definition network_conditions (o : DefaultRuleOptions) : conds :=
  cond_if (negb (bool_decide (o_ClashMode o = ""))) Plain (NewClashModeItem (o_ClashMode o))
  ++ cond (o_NetworkType o) Plain (NewNetworkTypeItem (o_NetworkType o))
  ++ cond_if (o_NetworkIsExpensive o) Plain NewNetworkIsExpensiveItem
  ++ cond_if (o_NetworkIsConstrained o) Plain NewNetworkIsConstrainedItem
  ++ cond (o_WIFISSID o) Plain (NewWIFISSIDItem (o_WIFISSID o))
  ++ cond (o_WIFIBSSID o) Plain (NewWIFIBSSIDItem (o_WIFIBSSID o))
  ++ cond (o_InterfaceAddress o) Plain (NewInterfaceAddressItem (o_InterfaceAddress o))
  ++ cond (o_NetworkInterfaceAddress o) Plain (NewNetworkInterfaceAddressItem (o_NetworkInterfaceAddress o))
  ++ cond (o_DefaultInterfaceAddress o) Plain (NewDefaultInterfaceAddressItem (o_DefaultInterfaceAddress o))
  ++ cond (o_PreferredBy o) Plain (NewPreferredByItem (o_PreferredBy o)).
Definition conditions (o : DefaultRuleOptions) : conds :=
  plain_conditions o ++ domain_conditions o ++ address_conditions o ++ ports_conditions o ++ process_conditions o
  ++ network_conditions o.

(** Follow a chain of additions. *)
Ltac step_adds := first [apply adds_Plain|apply adds_SourceAddress|apply adds_SourcePort|apply adds_DestinationDomain
  |apply adds_DestinationIP|apply adds_DestinationPort].
Ltac chain :=
  repeat (eapply extends_trans; [first [apply when_some_extends; step_adds|apply when_extends; step_adds
    |eapply when_some_err_extends; [step_adds|eassumption]]|]);
  first [apply when_some_extends; step_adds|apply when_extends; step_adds
    |eapply when_some_err_extends; [step_adds|eassumption]].

Lemma ip_version_extends v d d' :
  (if (0 <? v)%Z then if (v =? 4)%Z || (v =? 6)%Z then Ok (add_item (NewIPVersionItem (v =? 6)%Z) d)
     else Err (ENew ("invalid ip version: " +:+ pretty v)) else Ok d) = Ok d' →
  extends d d' (cond_if (0 <? v)%Z Plain (NewIPVersionItem (v =? 6)%Z)).
Proof.
  destruct (0 <? v)%Z; [|intros [= <-]; apply extends_refl]. destruct (_ || _); [|done]. intros [= <-]. apply adds_Plain.
Qed.

Lemma domain_extends o d d' :
  (if bool_decide (0 < length (o_Domain o)) || bool_decide (0 < length (o_DomainSuffix o)) then
     let? i := NewDomainItem (o_Domain o) (o_DomainSuffix o) in Ok (add_destinationAddress i d) else Ok d) = Ok d' →
  extends d d' (cond_ok (o_Domain o ++ o_DomainSuffix o) DestinationDomain (NewDomainItem (o_Domain o) (o_DomainSuffix o))).
Proof.
  unfold cond_ok. destruct (o_Domain o) as [|x xs], (o_DomainSuffix o) as [|y ys]; cbn [length app];
    rewrite ?(bool_decide_false (0 < 0)), ?(bool_decide_true (0 < S _)), ?orb_true_r by lia; cbn [orb];
    [intros [= <-]; apply extends_refl|..]; (destruct (NewDomainItem _ _); cbn [result_bind]; [|done]);
    intros [= <-]; apply adds_DestinationDomain.
Qed.

Lemma plain_extends o d d' : default_plain o d = Ok d' → extends d d' (plain_conditions o).
Proof.
  unfold default_plain. intros Hb. inv_bind Hb. injection Hb as <-. eapply extends_trans; [apply when_some_extends; step_adds|].
  eapply extends_trans; [eapply ip_version_extends; eassumption|]. chain.
Qed.
Lemma domains_extends o d d' : default_domain o d = Ok d' → extends d d' (domain_conditions o).
Proof.
  unfold default_domain. intros Hb. inv_bind Hb. inv_bind Hb.
  destruct (bool_decide (0 < length (o_Geosite o))); [done|].
  destruct (bool_decide (0 < length (o_SourceGeoIP o)) || bool_decide (0 < length (o_GeoIP o))); [done|]. injection Hb as <-. eapply extends_trans; [eapply domain_extends; eassumption|]. chain.
Qed.
Lemma address_extends o d d' : default_address o d = Ok d' → extends d d' (address_conditions o).
Proof. unfold default_address. intros Hb. inv_bind Hb. inv_bind Hb. injection Hb as <-. chain. Qed.
Lemma ports_extends o d d' : default_ports o d = Ok d' → extends d d' (ports_conditions o).
Proof. unfold default_ports. intros Hb. inv_bind Hb. chain. Qed.
Lemma process_extends o d d' : default_process o d = Ok d' → extends d d' (process_conditions o).
Proof. unfold default_process. intros Hb. inv_bind Hb. injection Hb as <-. chain. Qed.
Lemma network_extends o d : extends d (default_network o d) (network_conditions o).
Proof. unfold default_network, network_conditions. chain. Qed.

Lemma NewDefaultRule_extends o d :
  NewDefaultRule o = Ok d → o_RuleSet o = [] → ∃ act, extends (empty_rule (o_Invert o) act) d (conditions o).
Proof.
  unfold NewDefaultRule. destruct (NewRuleAction _) as [act|]; [|done]. intros Hb Hrs. exists act.
  inv_bind Hb. inv_bind Hb. inv_bind Hb. inv_bind Hb. inv_bind Hb.
  unfold default_ruleset in Hb. rewrite Hrs in Hb. injection Hb as <-.
  repeat (eapply extends_trans; [first [eapply plain_extends; eassumption|eapply domains_extends; eassumption
    |eapply address_extends; eassumption|eapply ports_extends; eassumption|eapply process_extends; eassumption]|]).
  apply network_extends.
Qed.

(** The items that could not have been built are there. *)
Lemma when_some_err_built {X} (xs : list X) add new wrap d d' :
  when_some_err xs add new wrap d = Ok d' → xs ≠ [] → is_ok (new xs) = true.
Proof. unfold when_some_err. destruct xs; [done|]. by destruct (new _). Qed.

Record all_built (o : DefaultRuleOptions) : Prop := {
  ab_domain : o_Domain o ++ o_DomainSuffix o ≠ [] → is_ok (NewDomainItem (o_Domain o) (o_DomainSuffix o)) = true;
  ab_regex : o_DomainRegex o ≠ [] → is_ok (NewDomainRegexItem (o_DomainRegex o)) = true;
  ab_source_cidr : o_SourceIPCIDR o ≠ [] → is_ok (NewIPCIDRItem true (o_SourceIPCIDR o)) = true;
  ab_cidr : o_IPCIDR o ≠ [] → is_ok (NewIPCIDRItem false (o_IPCIDR o)) = true;
  ab_source_range : o_SourcePortRange o ≠ [] → is_ok (NewPortRangeItem true (o_SourcePortRange o)) = true;
  ab_range : o_PortRange o ≠ [] → is_ok (NewPortRangeItem false (o_PortRange o)) = true;
  ab_process : o_ProcessPathRegex o ≠ [] → is_ok (NewProcessPathRegexItem (o_ProcessPathRegex o)) = true;
}.

Lemma domain_built o d d' : default_domain o d = Ok d' →
  (o_Domain o ++ o_DomainSuffix o ≠ [] → is_ok (NewDomainItem (o_Domain o) (o_DomainSuffix o)) = true) ∧
  (o_DomainRegex o ≠ [] → is_ok (NewDomainRegexItem (o_DomainRegex o)) = true).
Proof.
  unfold default_domain. intros Hb. inv_bind Hb. inv_bind Hb. split; [|by eapply when_some_err_built].
  intros Hne. destruct (NewDomainItem (o_Domain o) (o_DomainSuffix o)); [done|]. exfalso. cbn [result_bind] in E.
  rewrite (bool_decide_ext (0 < length (o_Domain o)) (o_Domain o ≠ [])) in E by (destruct (o_Domain o); simpl; split; done || lia).
  rewrite (bool_decide_ext (0 < length (o_DomainSuffix o)) (o_DomainSuffix o ≠ [])) in E
    by (destruct (o_DomainSuffix o); simpl; split; done || lia).
  destruct (o_Domain o); [|done]. by destruct (o_DomainSuffix o).
Qed.

Lemma NewDefaultRule_all_built o d : NewDefaultRule o = Ok d → all_built o.
Proof.
  unfold NewDefaultRule. destruct (NewRuleAction _) as [act|]; [|done]. intros Hb.
  inv_bind Hb. inv_bind Hb. inv_bind Hb. inv_bind Hb. inv_bind Hb.
  match goal with Hd : default_domain _ _ = Ok _ |- _ => apply domain_built in Hd as [? ?] end.
  match goal with Hd : default_address _ _ = Ok _ |- _ => unfold default_address in Hd; inv_bind Hd; inv_bind Hd end.
  match goal with Hd : default_ports _ _ = Ok _ |- _ => unfold default_ports in Hd; inv_bind Hd end.
  match goal with Hd : default_process _ _ = Ok _ |- _ => unfold default_process in Hd; inv_bind Hd end.
  split; try done; by eapply when_some_err_built.
Qed.

(** *** Deciding *)

(** Of the alternatives that are given, one holds; or none is given. *)
Definition any_given (l : list (bool * bool)) : bool := negb (existsb fst l) || existsb (λ p, p.1 && p.2) l.
Definition nonempty {X} (xs : list X) : bool := match xs with [] => false | _ => true end.
(** An item that may not have been built matches. *)
Definition item_ok (md : InboundContext) (r : result Item) : bool :=
  match r with Ok i => Item_Match rt i md | Err _ => false end.
(** A list that is given contains the value. *)
Definition lists (xs : list string) (x : string) : bool := negb (nonempty xs) || bool_decide (x ∈ xs).
Definition where_given {X} (xs : list X) (i : Item) (md : InboundContext) : bool := negb (nonempty xs) || Item_Match rt i md.

(** What the options of a rule without rule sets ask for: each plain condition
    that is given holds; of the conditions on the source address, one; of those
    on the source port, one; of those on the destination, domain or address,
    one; of those on the destination port, one. *)
Definition configured (o : DefaultRuleOptions) (md : InboundContext) : bool :=
  lists (o_Inbound o) (Inbound md) && lists (o_Network o) (Network md) && lists (o_AuthUser o) (User md)
  && lists (o_Protocol o) (Protocol md) && lists (o_Client o) (Client md)
  && (negb (0 <? o_IPVersion o)%Z || IPVersionItem_Match (o_IPVersion o =? 6)%Z md)
  && any_given [(nonempty (o_SourceIPCIDR o), item_ok md (NewIPCIDRItem true (o_SourceIPCIDR o)));
                (o_SourceIPIsPrivate o, IPIsPrivateItem_Match true md)]
  && any_given [(nonempty (o_SourcePort o), bool_decide (sa_Port (Source md) ∈ o_SourcePort o));
                (nonempty (o_SourcePortRange o), item_ok md (NewPortRangeItem true (o_SourcePortRange o)))]
  && any_given [(nonempty (o_Domain o ++ o_DomainSuffix o), item_ok md (NewDomainItem (o_Domain o) (o_DomainSuffix o)));
                (nonempty (o_DomainKeyword o), DomainKeywordItem_Match (o_DomainKeyword o) md);
                (nonempty (o_DomainRegex o), item_ok md (NewDomainRegexItem (o_DomainRegex o)));
                (nonempty (o_IPCIDR o), item_ok md (NewIPCIDRItem false (o_IPCIDR o)));
                (o_IPIsPrivate o, IPIsPrivateItem_Match false md)]
  && any_given [(nonempty (o_Port o), bool_decide (sa_Port (Destination md) ∈ o_Port o));
                (nonempty (o_PortRange o), item_ok md (NewPortRangeItem false (o_PortRange o)))]
  && where_given (o_ProcessName o) (NewProcessItem (o_ProcessName o)) md
  && where_given (o_ProcessPath o) (NewProcessPathItem (o_ProcessPath o)) md
  && (negb (nonempty (o_ProcessPathRegex o)) || item_ok md (NewProcessPathRegexItem (o_ProcessPathRegex o)))
  && where_given (o_PackageName o) (NewPackageNameItem (o_PackageName o)) md
  && where_given (o_User o) (NewUserItem (o_User o)) md && where_given (o_UserID o) (NewUserIDItem (o_UserID o)) md
  && where_given (o_NetworkType o) (NewNetworkTypeItem (o_NetworkType o)) md
  && (negb (o_NetworkIsExpensive o) || NetworkIsExpensiveItem_Match rt)
  && (negb (o_NetworkIsConstrained o) || NetworkIsConstrainedItem_Match rt)
  && lists (o_WIFISSID o) (WIFIState_SSID rt)
  && where_given (o_WIFIBSSID o) (NewWIFIBSSIDItem (o_WIFIBSSID o)) md
  && where_given (o_InterfaceAddress o) (NewInterfaceAddressItem (o_InterfaceAddress o)) md
  && where_given (o_NetworkInterfaceAddress o) (NewNetworkInterfaceAddressItem (o_NetworkInterfaceAddress o)) md
  && where_given (o_DefaultInterfaceAddress o) (NewDefaultInterfaceAddressItem (o_DefaultInterfaceAddress o)) md.
(** A rule without rule sets is the conjunction of its plain items and its groups. *)
Lemma rule_match (d : D) md :
  allItems d ≠ [] → ruleSetItem d = None → IgnoreDestinationIPCIDRMatch md = false →
  Match rt (DefaultRule d) md = xorb (invert d) (forallb (λ it, Item_Match rt it md) (items d) && groups_match rt d md).
Proof.
  intros Hall Hr Hig. pose proof (condition_nonempty rt d md) as Hc. rewrite Hr in Hc.
  unfold Match, matchStates. rewrite default_rule_result by done. cbn [snd]. cbn zeta. unfold invertedFailure, deferred.
  replace (if invert d then 0%Z else 0%Z) with 0%Z by (by destruct (invert d)). rewrite Hig. cbn [andb].
  assert (StateSet.isEmpty (condition_states rt d md 0) =
    negb (forallb (λ it, Item_Match rt it md) (items d) && groups_match rt d md)) as He.
  { apply eq_true_iff_eq. rewrite negb_true_iff, <-!not_true_iff_false, andb_true_iff.
    rewrite forallb_forall. setoid_rewrite <-list_elem_of_In. destruct (StateSet.isEmpty _).
    - split; [|done]. intros _ Hall'. destruct Hc as [_ Hc]. by discriminate Hc.
    - split; [done|]. intros Hn. destruct Hn. by apply Hc. }
  rewrite He. destruct (forallb _ _ && _); cbn [negb]; [|by destruct (invert d)].
  destruct (invert d); [done|]. by rewrite He.
Qed.

(** What a list of conditions asks for. *)
Definition has (k : slot) (l : conds) : bool := existsb (λ c, slot_eqb c.1 k) l.
Definition hit (k : slot) (md : InboundContext) (l : conds) : bool := existsb (λ c, slot_eqb c.1 k && Item_Match rt c.2 md) l.
Definition plain_hold (md : InboundContext) (l : conds) : bool := forallb (λ c, negb (slot_eqb c.1 Plain) || Item_Match rt c.2 md) l.

Lemma has_spec k l : bool_decide (0 < length (of_slot k l)) = has k l.
Proof.
  unfold of_slot, has. induction l as [|c l IH]; [done|]. rewrite filter_cons. cbn [existsb].
  destruct (slot_eqb c.1 k); [rewrite decide_True by done|rewrite decide_False by done; exact IH].
  rewrite bool_decide_true; [done|]. simpl. lia.
Qed.
Lemma hit_spec k md l : matchAnyItem rt (of_slot k l) md = hit k md l.
Proof.
  unfold of_slot, hit, matchAnyItem. induction l as [|c l IH]; [done|]. rewrite filter_cons. cbn [existsb].
  destruct (slot_eqb c.1 k); [rewrite decide_True by done|rewrite decide_False by done; exact IH]. cbn. by rewrite IH.
Qed.
Lemma plain_hold_spec md l : forallb (λ it, Item_Match rt it md) (of_slot Plain l) = plain_hold md l.
Proof.
  unfold of_slot, plain_hold. induction l as [|c l IH]; [done|]. rewrite filter_cons. cbn [forallb].
  destruct (slot_eqb c.1 Plain); [rewrite decide_True by done|rewrite decide_False by done; exact IH]. cbn. by rewrite IH.
Qed.

Definition asked_for (md : InboundContext) (l : conds) : bool :=
  plain_hold md l
  && (negb (has SourceAddress l) || hit SourceAddress md l) && (negb (has SourcePort l) || hit SourcePort md l)
  && (negb (has DestinationDomain l || has DestinationIP l) || (hit DestinationDomain md l || hit DestinationIP md l))
  && (negb (has DestinationPort l) || hit DestinationPort md l).

Lemma built_match o d md :
  NewDefaultRule o = Ok d → o_RuleSet o = [] → IPCIDRMatchSource md = false → IgnoreDestinationIPCIDRMatch md = false →
  Match rt (DefaultRule d) md = xorb (o_Invert o && nonempty (conditions o)) (asked_for md (conditions o)).
Proof.
  intros Hd Hrs Hsrc Hig. destruct (NewDefaultRule_extends o d Hd Hrs) as [act [Hk Hall [Hr Hi]]].
  cbn [allItems empty_rule ruleSetItem invert app] in *. assert (∀ k, slot_items k d = of_slot k (conditions o)) as Hs.
  { intros k. rewrite Hk. by destruct k. }
  destruct (conditions o) as [|c l] eqn:Hc.
  { cbn [nonempty]. rewrite andb_false_r. unfold Match, matchStates. cbn [matchStatesWithBase]. unfold default_matchStatesWithBase.
    rewrite Hall. done. }
  cbn [nonempty]. rewrite andb_true_r, <-Hi. rewrite rule_match; [|by rewrite Hall|done|done].
  f_equal. unfold asked_for, groups_match, requiresSourceAddressMatch, requiresDestinationAddressMatch, source_matches,
    destination_matches, destinationIPCIDRMatchesSource, destinationIPCIDRMatchesDestination. rewrite Hsrc, Hig. cbn [negb andb].
  change (items d) with (slot_items Plain d). change (sourceAddressItems d) with (slot_items SourceAddress d).
  change (sourcePortItems d) with (slot_items SourcePort d). change (destinationAddressItems d) with (slot_items DestinationDomain d).
  change (destinationIPCIDRItems d) with (slot_items DestinationIP d). change (destinationPortItems d) with (slot_items DestinationPort d).
  rewrite !Hs, plain_hold_spec, !has_spec, !hit_spec, !orb_false_r, !andb_assoc.
  do 2 f_equal. destruct (has DestinationIP (c :: l)) eqn:Hip; [done|]. cbn [andb]. rewrite !orb_false_r.
  assert (hit DestinationIP md (c :: l) = false) as ->; [|by rewrite orb_false_r].
  unfold hit. apply not_true_iff_false. rewrite existsb_exists. intros (x & Hx & [Hx1 _]%andb_true_iff).
  apply not_true_iff_false in Hip. apply Hip. unfold has. apply existsb_exists. by exists x.
Qed.

(** *** Evaluating the conditions *)

Lemma nonempty_spec {X} (xs : list X) : nonempty xs = true ↔ xs ≠ [].
Proof. by destruct xs. Qed.

Lemma has_app k l l' : has k (l ++ l') = has k l || has k l'.
Proof. apply existsb_app. Qed.
Lemma hit_app k md l l' : hit k md (l ++ l') = hit k md l || hit k md l'.
Proof. apply existsb_app. Qed.
Lemma plain_app md l l' : plain_hold md (l ++ l') = plain_hold md l && plain_hold md l'.
Proof. apply forallb_app. Qed.
Lemma has_cond {X} (xs : list X) k k' i : has k (cond xs k' i) = slot_eqb k' k && nonempty xs.
Proof. unfold has, cond. destruct xs; cbn; by rewrite ?andb_false_r, ?andb_true_r, ?orb_false_r. Qed.
Lemma hit_cond {X} (xs : list X) k k' i md : hit k md (cond xs k' i) = slot_eqb k' k && (nonempty xs && Item_Match rt i md).
Proof. unfold hit, cond. destruct xs; cbn; by rewrite ?andb_false_r, ?orb_false_r. Qed.
Lemma plain_cond {X} (xs : list X) k i md : plain_hold md (cond xs k i) = negb (slot_eqb k Plain) || where_given xs i md.
Proof. unfold plain_hold, cond, where_given. destruct xs; cbn; by rewrite ?andb_true_r, ?orb_true_r. Qed.
Lemma has_if b k k' i : has k (cond_if b k' i) = slot_eqb k' k && b.
Proof. unfold has, cond_if. destruct b; cbn; by rewrite ?andb_false_r, ?andb_true_r, ?orb_false_r. Qed.
Lemma hit_if b k k' i md : hit k md (cond_if b k' i) = slot_eqb k' k && (b && Item_Match rt i md).
Proof. unfold hit, cond_if. destruct b; cbn; by rewrite ?andb_false_r, ?orb_false_r. Qed.
Lemma plain_if b k i md : plain_hold md (cond_if b k i) = negb (slot_eqb k Plain) || (negb b || Item_Match rt i md).
Proof. unfold plain_hold, cond_if. destruct b; cbn; by rewrite ?andb_true_r, ?orb_true_r. Qed.
Lemma has_ok {X} (xs : list X) k k' r : (xs ≠ [] → is_ok r = true) → has k (cond_ok xs k' r) = slot_eqb k' k && nonempty xs.
Proof.
  intros Hr. unfold has, cond_ok. destruct xs as [|x xs]; [by rewrite andb_false_r|]. specialize (Hr ltac:(done)).
  destruct r; [|done]. cbn. by rewrite andb_true_r, orb_false_r.
Qed.
Lemma hit_ok {X} (xs : list X) k k' r md : hit k md (cond_ok xs k' r) = slot_eqb k' k && (nonempty xs && item_ok md r).
Proof. unfold hit, cond_ok. destruct xs, r; cbn; by rewrite ?andb_false_r, ?orb_false_r. Qed.
Lemma plain_ok {X} (xs : list X) k r md : (xs ≠ [] → is_ok r = true) →
  plain_hold md (cond_ok xs k r) = negb (slot_eqb k Plain) || (negb (nonempty xs) || item_ok md r).
Proof.
  intros Hr. unfold plain_hold, cond_ok. destruct xs as [|x xs]; [by rewrite orb_true_r|]. specialize (Hr ltac:(done)).
  destruct r; [|done]. cbn. by rewrite andb_true_r.
Qed.

(** C23: a rule decides what its options ask for.  When a route rule without rule
    sets is built successfully, it matches a connection exactly when the options
    ask for it: the connection is on each list that is given (inbound, network,
    user, protocol, client, process, interface and so on); of the source
    addresses one, of the source ports and ranges one, of the destination domains,
    keywords, expressions, addresses and private networks one, and of the
    destination ports and ranges one holds, where any is given.  Inversion negates
    this, unless nothing at all is asked for.  No condition is lost, and each is
    in the right group.  (Clash mode and preferred-by need services that are
    looked up when the rule is started, and are left out; the context is that of
    a connection, not of a rule set or of a DNS rule before the look-up.) *)
Theorem built_rule_decides_as_configured o d md :
  NewDefaultRule o = Ok d → o_RuleSet o = [] → o_ClashMode o = "" → o_PreferredBy o = [] →
  IPCIDRMatchSource md = false → IgnoreDestinationIPCIDRMatch md = false →
  Match rt (DefaultRule d) md = xorb (o_Invert o && nonempty (conditions o)) (configured o md).
Proof.
  intros Hd Hrs Hcl Hpr Hsrc Hig. rewrite (built_match o d md) by done. f_equal.
  destruct (NewDefaultRule_all_built o d Hd) as [H1 H2 H3 H4 H5 H6 H7].
  unfold asked_for, configured, conditions, plain_conditions, domain_conditions, address_conditions, ports_conditions,
    process_conditions, network_conditions.
  rewrite !has_app, !hit_app, !plain_app, !has_cond, !hit_cond, !plain_cond, !has_if, !hit_if, !plain_if, !hit_ok.
  rewrite !has_ok by done. rewrite !plain_ok by done. rewrite Hcl, Hpr, (bool_decide_true ("" = "")) by done.
  unfold lists, where_given, any_given. cbn [slot_eqb negb andb orb nonempty existsb fst snd].
  unfold NewInboundRule, NewNetworkItem, NewAuthUserItem, NewProtocolItem, NewClientItem, NewWIFISSIDItem, NewPortItem,
    NewDomainKeywordItem, NewIPIsPrivateItem, NewIPVersionItem, NewNetworkIsExpensiveItem, NewNetworkIsConstrainedItem.
  cbn [Item_Match]. unfold InboundItem_Match, NetworkItem_Match, AuthUserItem_Match, ProtocolItem_Match, ClientItem_Match,
    WIFISSIDItem_Match, PortItem_Match. rewrite !set_elem, ?orb_false_r, ?orb_assoc.
  apply eq_true_iff_eq. rewrite !andb_true_iff. tauto.
Qed.
End decides.

(** ** The rule of a user route *)

Section user_routes.
Context `{RuleEnv} `{ActionEnv} (rt : Runtime).

(** The options of a rule that has no conditions but on the inbound and on the
    authenticated user. *)
Definition user_route (inbounds users : list string) (inv : bool) (act : RuleActionOptions) : DefaultRuleOptions :=
  mkDefaultRuleOptions inbounds 0 [] users [] [] [] [] [] [] [] [] [] [] false [] false [] [] [] [] [] [] [] [] []
    [] "" [] false false [] [] [] [] [] [] [] false inv false act.

(** An empty list is no condition, a non-empty one admits its elements. *)
Definition admits (xs : list string) (x : string) : bool := bool_decide (xs = []) || bool_decide (x ∈ xs).

(** A rule of plain items only is their conjunction. *)
Lemma plain_rule_match (d : abstractDefaultRule RuleAction (Rule RuleAction)) md :
  allItems d ≠ [] → ruleSetItem d = None → groups d = items d →
  Match rt (DefaultRule d) md = xorb (invert d) (forallb (λ it, Item_Match rt it md) (items d)).
Proof.
  intros Hall Hr Hg.
  assert (sourceAddressItems d = [] ∧ sourcePortItems d = [] ∧ destinationAddressItems d = [] ∧
          destinationIPCIDRItems d = [] ∧ destinationPortItems d = []) as (Hsa & Hsp & Hda & Hdi & Hdp).
  { unfold groups in Hg. rewrite <-(app_nil_r (items d)) in Hg at 2. apply app_inv_head in Hg.
    by repeat apply app_eq_nil in Hg as [? Hg]. }
  assert (groups_match rt d md = true) as Hgm.
  { unfold groups_match, requiresSourceAddressMatch, requiresDestinationAddressMatch,
      destinationIPCIDRMatchesSource, destinationIPCIDRMatchesDestination.
    rewrite Hsa, Hsp, Hda, Hdi, Hdp. cbn. by rewrite !andb_false_r. }
  pose proof (condition_nonempty rt d md) as Hc. rewrite Hr, Hgm in Hc.
  unfold Match, matchStates. rewrite default_rule_result by done. cbn [snd]. cbn zeta.
  unfold invertedFailure, deferred. rewrite Hdi.
  replace (if invert d then 0%Z else 0%Z) with 0%Z by (by destruct (invert d)).
  rewrite (bool_decide_false (0 < length [])), andb_false_r by (simpl; lia).
  assert (StateSet.isEmpty (condition_states rt d md 0) = negb (forallb (λ it, Item_Match rt it md) (items d))) as He.
  { apply eq_true_iff_eq. rewrite negb_true_iff, <-!not_true_iff_false.
    rewrite forallb_forall. setoid_rewrite <-list_elem_of_In. destruct (StateSet.isEmpty _).
    - split; [|done]. intros _ Hall'. destruct Hc as [_ Hc]. by discriminate Hc.
    - split; [done|]. intros Hn. destruct Hn. by apply Hc. }
  rewrite He. by destruct (invert d), (forallb _ _); simpl; rewrite ?He.
Qed.

Lemma user_route_built inbounds users inv act outbound :
  ao_Action act = "route" → ao_RouteOutbound act = outbound →
  ∃ d ro, NewDefaultRule (user_route inbounds users inv act) = Ok d ∧
    action d = Some (ActionRoute outbound ro) ∧ invert d = inv ∧ ruleSetItem d = None ∧
    groups d = items d ∧ allItems d = inl <$> items d ∧
    items d = (match inbounds with [] => [] | _ => [NewInboundRule inbounds] end)
              ++ (match users with [] => [] | _ => [NewAuthUserItem users] end).
Proof.
  intros Hact Hout. unfold NewDefaultRule, NewRuleAction. cbn [o_RuleAction user_route].
  rewrite Hact, Hout. cbn. destruct inbounds, users; cbn; eexists _, _; repeat split.
Qed.

(** The rule of a user route.  For a route action to an outbound, with
    conditions on inbounds and authenticated users only, a rule is always
    built, its action is that route, and it matches exactly the connections
    that come from one of the inbounds (any, when none is named) and are
    authenticated as one of the users (anyone, when none is named); inverted,
    exactly the others, provided there is a condition at all. *)
Lemma user_route_matches inbounds users inv act outbound md :
  ao_Action act = "route" → ao_RouteOutbound act = outbound →
  ∃ d ro, NewDefaultRule (user_route inbounds users inv act) = Ok d ∧
    action d = Some (ActionRoute outbound ro) ∧
    Match rt (DefaultRule d) md =
      xorb (inv && negb (bool_decide (inbounds = []) && bool_decide (users = [])))
        (admits inbounds (Inbound md) && admits users (User md)).
Proof.
  intros Hact Hout. destruct (user_route_built inbounds users inv act outbound Hact Hout)
    as (d & ro & Hd & Ha & Hi & Hr & Hg & Hall & Hits).
  exists d, ro. split; [done|]. split; [done|].
  assert (forallb (λ it, Item_Match rt it md) (items d) = admits inbounds (Inbound md) && admits users (User md)) as Hm.
  { rewrite Hits. unfold admits. destruct inbounds as [|i inb], users as [|u us]; [done|..];
      rewrite ?(bool_decide_true ([] = [])) by done; cbn [app forallb Item_Match NewInboundRule NewAuthUserItem];
      unfold InboundItem_Match, AuthUserItem_Match; rewrite ?set_elem, ?andb_true_r, ?orb_false_l;
      repeat rewrite (bool_decide_false (_ :: _ = [])) by done; done. }
  destruct (decide (inbounds = [] ∧ users = [])) as [[-> ->]|Hne].
  - rewrite andb_false_r. unfold Match, matchStates. cbn. unfold default_matchStatesWithBase. rewrite Hall, Hits. done.
  - assert (allItems d ≠ []) as Hn.
    { rewrite Hall, Hits. destruct inbounds, users; simpl; try done. by destruct Hne. }
    rewrite (plain_rule_match d md Hn Hr Hg), Hi, Hm. f_equal.
    destruct inbounds, users; [by destruct Hne|..]; by destruct inv.
Qed.
End user_routes.

(** ** Port ranges *)

(** A decimal number is read back. *)
Lemma parse_digits_go (x : N) : ∀ s, parse_digits (pretty_N_go x s) 0 = parse_digits s (Z.of_N x).
Proof.
  induction (N.lt_wf_0 x) as [x _ IH]; intros s. destruct (decide (0 < x)%N) as [Hx|Hx].
  - rewrite pretty_N_go_step by done. rewrite IH by (apply N.div_lt; lia). cbn [parse_digits].
    assert (digit_value (pretty_N_char (x `mod` 10)) = Some (Z.of_N (x `mod` 10))) as ->.
    { assert (x `mod` 10 < 10)%N as Hlt by (apply N.mod_lt; lia).
      destruct (x `mod` 10)%N as [|p]; [done|]. do 4 (destruct p as [p|p|]; try done; try lia). }
    cbn. f_equal. rewrite N2Z.inj_div, N2Z.inj_mod. pose proof (Z.div_mod (Z.of_N x) (Z.of_N 10)). lia.
  - assert (x = 0)%N as -> by lia. by rewrite pretty_N_go_0.
Qed.

Lemma parse_digits_pretty (n : N) : parse_digits (pretty n) 0 = Some (Z.of_N n).
Proof.
  unfold pretty, pretty_N. case_decide as Hn; [subst; done|]. by rewrite parse_digits_go.
Qed.

Lemma pretty_nonempty (n : N) : pretty n ≠ "".
Proof. intros He. pose proof (parse_digits_pretty n) as Hp. rewrite He in Hp. simpl in Hp. injection Hp as Hn.
  destruct n; [|done]. done. Qed.

Lemma ParseUint_pretty (n : N) : (n < 65536)%N → ParseUint (pretty n) 16 = Ok (Z.of_N n).
Proof.
  intros Hn. unfold ParseUint. pose proof (pretty_nonempty n) as Hne. destruct (pretty n) as [|c s] eqn:Hp; [done|].
  rewrite <-Hp, parse_digits_pretty. change (2 ^ 16)%Z with 65536%Z.
  by rewrite (proj2 (Z.ltb_lt (Z.of_N n) 65536)) by lia.
Qed.

(** A string of digits has no colon before its end. *)
Lemma index_colon s t : ∀ acc n,
  parse_digits s acc = Some n → strings_Index (s +:+ ":" +:+ t) ":" = Some (String.length s).
Proof.
  unfold strings_Index. induction s as [|c s IH]; intros acc n Hp; [cbn; by destruct t|].
  cbn [parse_digits] in Hp. apply bind_Some in Hp as (d & Hd & Hp).
  change (String c s +:+ ":" +:+ t) with (String c (s +:+ ":" +:+ t)). cbn [String.index String.prefix].
  destruct (Ascii.ascii_dec (Ascii.Ascii false true false true true true false false) c) as [<-|Hne]; [vm_compute in Hd; discriminate Hd|]. by rewrite (IH _ _ Hp).
Qed.

Lemma index_colon_first t : strings_Index (":" +:+ t) ":" = Some 0.
Proof. unfold strings_Index. cbn. by destruct t. Qed.

Lemma substring_prefix s t : String.substring 0 (String.length s) (s +:+ t) = s.
Proof. induction s as [|c s IH]; simpl; [by destruct t|]. by rewrite IH. Qed.

Lemma substring_long t : ∀ n, String.length t ≤ n → String.substring 0 n t = t.
Proof.
  induction t as [|c t IH]; intros [|n] Hn; simpl in *; try done; try lia. rewrite IH; [done|lia].
Qed.

Lemma substring_suffix s t n :
  String.length t ≤ n → String.substring (S (String.length s)) n (s +:+ ":" +:+ t) = t.
Proof. intros Hn. induction s as [|c s IH]; [by apply substring_long|]. exact IH. Qed.

Lemma string_length_app s t : String.length (s +:+ t) = String.length s + String.length t.
Proof. induction s as [|c s IH]; simpl; [done|]. by rewrite IH. Qed.

(** An end of a range, printed or left out. *)
Definition print_bound (b : option N) : string := match b with Some n => pretty n | None => "" end.

Lemma print_bound_index b t :
  strings_Index (print_bound b +:+ ":" +:+ t) ":" = Some (String.length (print_bound b)).
Proof. destruct b as [n|]; [|apply index_colon_first]. eapply index_colon, parse_digits_pretty. Qed.

Lemma print_bound_length b : 0 < String.length (print_bound b) ↔ is_Some b.
Proof.
  destruct b as [n|]; simpl; split; intros Hb; eauto; [|lia|by destruct Hb].
  pose proof (pretty_nonempty n). destruct (pretty n); [done|]. simpl. lia.
Qed.

Lemma parse_port_range_print (lo hi : option N) :
  (default 0 lo < 65536)%N → (default 0 hi < 65536)%N →
  parse_port_range (print_bound lo +:+ ":" +:+ print_bound hi) =
    Ok (mkRangeItem (Z.of_N (default 0%N lo)) (Z.of_N (default 65535%N hi))).
Proof.
  intros Hlo Hhi. unfold parse_port_range, strings_Contains. rewrite print_bound_index.
  rewrite bool_decide_true by eauto. cbn [negb]. cbn zeta.
  assert (String.length (print_bound lo +:+ ":" +:+ print_bound hi)
          = S (String.length (print_bound lo) + String.length (print_bound hi))) as Hlen.
  { rewrite !string_length_app. simpl. lia. }
  pose proof (print_bound_length lo) as Hl. pose proof (print_bound_length hi) as Hh.
  assert ((if decide (0 < String.length (print_bound lo)) then
             match ParseUint (String.substring 0 (String.length (print_bound lo))
                                (print_bound lo +:+ ":" +:+ print_bound hi)) 16 with
             | Ok n => Ok n
             | Err e => Err (ECause e ("bad port range: " +:+ (print_bound lo +:+ ":" +:+ print_bound hi)))
             end else Ok 0%Z) = Ok (Z.of_N (default 0%N lo))) as ->.
  { rewrite substring_prefix. destruct lo as [n|]; [|done].
    rewrite decide_True by (apply Hl; eauto). cbn [print_bound]. by rewrite ParseUint_pretty. }
  cbn [result_bind]. rewrite Hlen.
  assert (Z.of_N (default 0%N lo) mod 2 ^ 16 = Z.of_N (default 0%N lo))%Z as -> by (apply Z.mod_small; lia).
  destruct hi as [n|].
  - rewrite decide_False by (intros He; assert (0 < String.length (print_bound (Some n))) by (apply Hh; eauto); lia).
    rewrite substring_suffix by lia. cbn [print_bound]. rewrite ParseUint_pretty by done. cbn [result_bind default].
    rewrite Z.mod_small by (simpl in Hhi; lia). done.
  - rewrite decide_True by (simpl; lia). done.
Qed.

(** Port ranges are read as they are written.  For every lower and upper
    bound of 16 bits, each of which can be left out, the range written
    "lo:hi" is accepted, and the condition built from it matches exactly the
    ports from [lo] (or 0) to [hi] (or 65535); a text without a colon is
    refused. *)
Lemma port_range_roundtrip `{RuleEnv} rt (isSource : bool) (lo hi : option N) md text :
  (default 0 lo < 65536)%N → (default 0 hi < 65536)%N → strings_Contains text ":" = false →
  let port := sa_Port (if isSource then Source md else Destination md) in
  ∃ it, NewPortRangeItem isSource [print_bound lo +:+ ":" +:+ print_bound hi] = Ok it ∧
    (Item_Match rt it md = true ↔ (Z.of_N (default 0%N lo) <= port <= Z.of_N (default 65535%N hi))%Z) ∧
    NewPortRangeItem isSource [text] = Err (ErrBadPortRange text).
Proof.
  intros Hlo Hhi Htext port. unfold NewPortRangeItem. cbn [parse_port_ranges].
  rewrite parse_port_range_print by done. cbn [result_bind]. eexists. split; [done|]. split.
  - cbn. unfold PortRangeItem_Match. cbn. rewrite orb_false_r, andb_true_iff, !Z.leb_le. by destruct isSource.
  - unfold parse_port_range. by rewrite Htext.
Qed.

(** ** Concrete options *)

Module BuildRun.
#[export] Existing Instance EnvRun.env.
(** Code outside the repository, in its simplest form. *)
#[export] Instance act_env : ActionEnv := {
  ParseSocksaddrHostPort s p := mkSocksaddr AddrInvalid p s;
  Socksaddr_IsValid a := negb (bool_decide (sa_Fqdn a = ""));
  AddrString a := sa_Fqdn a;
  Duration_String d := pretty d +:+ "ns";
  ClientSubnet_Build p := default (mkPrefix AddrInvalid 0) p;
  ClientSubnet_String _ := "subnet";
  Addr_String _ := "addr";
  Sprintf_0x n := "0x" +:+ pretty n;
  Dialer := unit;
  dialer_New _ := Ok tt;
  RR := string;
  RR_Name r := r;
  RR_with_Name n _ := n;
  RR_String r := r;
  RcodeToString c := pretty c;
}.
Definition no_route : RouteOptionsOptions := mkRouteOptionsOptions "" 0 None 0 false false 300 false 0 false.
Definition no_dialer : DialerOptions := mkDialerOptions "" None None 0 false 0 false false None 0 0.
(** A route action to the outbound proxy. *)
Definition route : RuleActionOptions :=
  mkRuleActionOptions "route" "proxy" no_route no_route no_dialer "" no_route "" false [] 0 "" 0 false None None.
(** Options of one condition in each of four groups. *)
Definition some : DefaultRuleOptions :=
  mkDefaultRuleOptions ["in"] 0 [] [] [] [] [] [] [] [] [] [] [] ["10.0.0.1"] false
    [] false [] [] [443%Z] [":80"] [] [] [] [] [] [] "" [] false false [] [] [] [] [] []
    [] false false false route.
End BuildRun.

Import (hints) BuildRun.

(** A rule on an inbound, a port or a port range, and a source address, from
    which the connection of the example does not come. *)
Lemma built_rule_decides_as_configured_witness :
  ∃ d, NewDefaultRule BuildRun.some = Ok d ∧
    Match EnvRun.rt (DefaultRule d) EnvRun.ip_conn = configured EnvRun.rt BuildRun.some EnvRun.ip_conn ∧
    length (conditions BuildRun.some) = 4.
Proof.
  assert (is_ok (NewDefaultRule BuildRun.some) = true) as Hok by (vm_compute; reflexivity).
  destruct (NewDefaultRule BuildRun.some) as [d|e] eqn:Hd; [|discriminate Hok]. exists d. split; [reflexivity|].
  split; [|vm_compute; reflexivity].
  rewrite (built_rule_decides_as_configured EnvRun.rt BuildRun.some d EnvRun.ip_conn Hd eq_refl eq_refl eq_refl eq_refl eq_refl).
  reflexivity.
Defined.

Lemma user_route_matches_witness :
  ∃ d ro, NewDefaultRule (user_route ["in"] ["alice"] false BuildRun.route) = Ok d ∧
    action d = Some (ActionRoute "proxy" ro) ∧
    Match EnvRun.rt (DefaultRule d) EnvRun.ip_conn = true.
Proof.
  destruct (user_route_matches EnvRun.rt ["in"] ["alice"] false BuildRun.route "proxy" EnvRun.ip_conn eq_refl eq_refl)
    as (d & ro & Hd & Ha & Hm).
  exists d, ro. split; [exact Hd|]. split; [exact Ha|]. rewrite Hm. vm_compute. reflexivity.
Defined.

Lemma port_range_roundtrip_witness :
  ∃ it, NewPortRangeItem false ["440:"] = Ok it ∧ Item_Match EnvRun.rt it EnvRun.ip_conn = true.
Proof.
  destruct (port_range_roundtrip EnvRun.rt false (Some 440%N) None EnvRun.ip_conn "443")
    as (it & Hn & Hm & _); [done|done|reflexivity|].
  exists it. split; [exact Hn|]. apply Hm. vm_compute. split; discriminate.
Defined.
