(* ===== verification/Srs.v ===== *)
(** * Binary rule sets

    Model of src/runtime/sing-box/common/srs (binary.go, ip_set.go, ip_cidr.go):
    the file format in which rule sets are compiled and downloaded.  Readers
    work on the bytes that are left; a decompressed stream that breaks off is
    one that ends there.  Domain matchers, IP sets, prefixes of options and zlib
    are other packages and the fields of [SrsEnv]; the cast between an IP set
    and its ranges is the pair [IPSet_ranges], [IPSet_of_ranges]. *)
From S2P Require Import Prelude Bytes MatchState RuleItems Netip Rules RuleAction RuleBuild.

Class SrsEnv `{RuleEnv} := {
  Matcher_Write : DomainMatcher → bytes;
  ReadMatcher : reader DomainMatcher;
  Matcher_Dump : DomainMatcher → list string * list string;
  AdGuard_Write : AdGuardMatcher → bytes;
  ReadAdGuardMatcher : reader AdGuardMatcher;
  AdGuard_Dump : AdGuardMatcher → list string;
  IPSet_ranges : IPSet → list (Addr * Addr);
  IPSet_of_ranges : list (Addr * Addr) → IPSet;
  IPSet_Prefixes : IPSet → list Prefix;
  Prefixable_of : Prefix → Prefixable;
  TypedMap_Put : Z → list Prefixable → list (Z * list Prefixable) → list (Z * list Prefixable);
  zlib_compress : bytes → bytes;
  zlib_NewReader : bytes → result bytes;
  sizeof_HeadlessRule : Z;
}.

(** ** Fields of a rule *)

Section setters.
Context `{RuleEnv}.

Definition no_options : HeadlessOptions :=
  mkHeadlessOptions [] [] [] [] [] [] [] [] [] [] [] [] [] [] [] [] [] false false [] [] [] [] false None None None [] None.

Definition set_QueryType (v : list Z) (o : HeadlessOptions) : HeadlessOptions :=
  mkHeadlessOptions v (h_Network o) (h_Domain o) (h_DomainSuffix o) (h_DomainKeyword o) (h_DomainRegex o)
    (h_SourceIPCIDR o) (h_IPCIDR o) (h_SourcePort o) (h_SourcePortRange o) (h_Port o) (h_PortRange o)
    (h_ProcessName o) (h_ProcessPath o) (h_ProcessPathRegex o) (h_PackageName o) (h_NetworkType o)
    (h_NetworkIsExpensive o) (h_NetworkIsConstrained o) (h_WIFISSID o) (h_WIFIBSSID o) (h_NetworkInterfaceAddress o)
    (h_DefaultInterfaceAddress o) (h_Invert o) (h_DomainMatcher o) (h_SourceIPSet o) (h_IPSet o) (h_AdGuardDomain o)
    (h_AdGuardDomainMatcher o).
Definition set_Network (v : list string) (o : HeadlessOptions) : HeadlessOptions :=
  mkHeadlessOptions (h_QueryType o) v (h_Domain o) (h_DomainSuffix o) (h_DomainKeyword o) (h_DomainRegex o)
    (h_SourceIPCIDR o) (h_IPCIDR o) (h_SourcePort o) (h_SourcePortRange o) (h_Port o) (h_PortRange o)
    (h_ProcessName o) (h_ProcessPath o) (h_ProcessPathRegex o) (h_PackageName o) (h_NetworkType o)
    (h_NetworkIsExpensive o) (h_NetworkIsConstrained o) (h_WIFISSID o) (h_WIFIBSSID o) (h_NetworkInterfaceAddress o)
    (h_DefaultInterfaceAddress o) (h_Invert o) (h_DomainMatcher o) (h_SourceIPSet o) (h_IPSet o) (h_AdGuardDomain o)
    (h_AdGuardDomainMatcher o).
Definition set_DomainKeyword (v : list string) (o : HeadlessOptions) : HeadlessOptions :=
  mkHeadlessOptions (h_QueryType o) (h_Network o) (h_Domain o) (h_DomainSuffix o) v (h_DomainRegex o)
    (h_SourceIPCIDR o) (h_IPCIDR o) (h_SourcePort o) (h_SourcePortRange o) (h_Port o) (h_PortRange o)
    (h_ProcessName o) (h_ProcessPath o) (h_ProcessPathRegex o) (h_PackageName o) (h_NetworkType o)
    (h_NetworkIsExpensive o) (h_NetworkIsConstrained o) (h_WIFISSID o) (h_WIFIBSSID o) (h_NetworkInterfaceAddress o)
    (h_DefaultInterfaceAddress o) (h_Invert o) (h_DomainMatcher o) (h_SourceIPSet o) (h_IPSet o) (h_AdGuardDomain o)
    (h_AdGuardDomainMatcher o).
Definition set_DomainRegex (v : list string) (o : HeadlessOptions) : HeadlessOptions :=
  mkHeadlessOptions (h_QueryType o) (h_Network o) (h_Domain o) (h_DomainSuffix o) (h_DomainKeyword o) v
    (h_SourceIPCIDR o) (h_IPCIDR o) (h_SourcePort o) (h_SourcePortRange o) (h_Port o) (h_PortRange o)
    (h_ProcessName o) (h_ProcessPath o) (h_ProcessPathRegex o) (h_PackageName o) (h_NetworkType o)
    (h_NetworkIsExpensive o) (h_NetworkIsConstrained o) (h_WIFISSID o) (h_WIFIBSSID o) (h_NetworkInterfaceAddress o)
    (h_DefaultInterfaceAddress o) (h_Invert o) (h_DomainMatcher o) (h_SourceIPSet o) (h_IPSet o) (h_AdGuardDomain o)
    (h_AdGuardDomainMatcher o).
Definition set_SourcePort (v : list Z) (o : HeadlessOptions) : HeadlessOptions :=
  mkHeadlessOptions (h_QueryType o) (h_Network o) (h_Domain o) (h_DomainSuffix o) (h_DomainKeyword o)
    (h_DomainRegex o) (h_SourceIPCIDR o) (h_IPCIDR o) v (h_SourcePortRange o) (h_Port o) (h_PortRange o)
    (h_ProcessName o) (h_ProcessPath o) (h_ProcessPathRegex o) (h_PackageName o) (h_NetworkType o)
    (h_NetworkIsExpensive o) (h_NetworkIsConstrained o) (h_WIFISSID o) (h_WIFIBSSID o) (h_NetworkInterfaceAddress o)
    (h_DefaultInterfaceAddress o) (h_Invert o) (h_DomainMatcher o) (h_SourceIPSet o) (h_IPSet o) (h_AdGuardDomain o)
    (h_AdGuardDomainMatcher o).
Definition set_SourcePortRange (v : list string) (o : HeadlessOptions) : HeadlessOptions :=
  mkHeadlessOptions (h_QueryType o) (h_Network o) (h_Domain o) (h_DomainSuffix o) (h_DomainKeyword o)
    (h_DomainRegex o) (h_SourceIPCIDR o) (h_IPCIDR o) (h_SourcePort o) v (h_Port o) (h_PortRange o) (h_ProcessName o)
    (h_ProcessPath o) (h_ProcessPathRegex o) (h_PackageName o) (h_NetworkType o) (h_NetworkIsExpensive o)
    (h_NetworkIsConstrained o) (h_WIFISSID o) (h_WIFIBSSID o) (h_NetworkInterfaceAddress o)
    (h_DefaultInterfaceAddress o) (h_Invert o) (h_DomainMatcher o) (h_SourceIPSet o) (h_IPSet o) (h_AdGuardDomain o)
    (h_AdGuardDomainMatcher o).
Definition set_Port (v : list Z) (o : HeadlessOptions) : HeadlessOptions :=
  mkHeadlessOptions (h_QueryType o) (h_Network o) (h_Domain o) (h_DomainSuffix o) (h_DomainKeyword o)
    (h_DomainRegex o) (h_SourceIPCIDR o) (h_IPCIDR o) (h_SourcePort o) (h_SourcePortRange o) v (h_PortRange o)
    (h_ProcessName o) (h_ProcessPath o) (h_ProcessPathRegex o) (h_PackageName o) (h_NetworkType o)
    (h_NetworkIsExpensive o) (h_NetworkIsConstrained o) (h_WIFISSID o) (h_WIFIBSSID o) (h_NetworkInterfaceAddress o)
    (h_DefaultInterfaceAddress o) (h_Invert o) (h_DomainMatcher o) (h_SourceIPSet o) (h_IPSet o) (h_AdGuardDomain o)
    (h_AdGuardDomainMatcher o).
Definition set_PortRange (v : list string) (o : HeadlessOptions) : HeadlessOptions :=
  mkHeadlessOptions (h_QueryType o) (h_Network o) (h_Domain o) (h_DomainSuffix o) (h_DomainKeyword o)
    (h_DomainRegex o) (h_SourceIPCIDR o) (h_IPCIDR o) (h_SourcePort o) (h_SourcePortRange o) (h_Port o) v
    (h_ProcessName o) (h_ProcessPath o) (h_ProcessPathRegex o) (h_PackageName o) (h_NetworkType o)
    (h_NetworkIsExpensive o) (h_NetworkIsConstrained o) (h_WIFISSID o) (h_WIFIBSSID o) (h_NetworkInterfaceAddress o)
    (h_DefaultInterfaceAddress o) (h_Invert o) (h_DomainMatcher o) (h_SourceIPSet o) (h_IPSet o) (h_AdGuardDomain o)
    (h_AdGuardDomainMatcher o).
Definition set_ProcessName (v : list string) (o : HeadlessOptions) : HeadlessOptions :=
  mkHeadlessOptions (h_QueryType o) (h_Network o) (h_Domain o) (h_DomainSuffix o) (h_DomainKeyword o)
    (h_DomainRegex o) (h_SourceIPCIDR o) (h_IPCIDR o) (h_SourcePort o) (h_SourcePortRange o) (h_Port o)
    (h_PortRange o) v (h_ProcessPath o) (h_ProcessPathRegex o) (h_PackageName o) (h_NetworkType o)
    (h_NetworkIsExpensive o) (h_NetworkIsConstrained o) (h_WIFISSID o) (h_WIFIBSSID o) (h_NetworkInterfaceAddress o)
    (h_DefaultInterfaceAddress o) (h_Invert o) (h_DomainMatcher o) (h_SourceIPSet o) (h_IPSet o) (h_AdGuardDomain o)
    (h_AdGuardDomainMatcher o).
Definition set_ProcessPath (v : list string) (o : HeadlessOptions) : HeadlessOptions :=
  mkHeadlessOptions (h_QueryType o) (h_Network o) (h_Domain o) (h_DomainSuffix o) (h_DomainKeyword o)
    (h_DomainRegex o) (h_SourceIPCIDR o) (h_IPCIDR o) (h_SourcePort o) (h_SourcePortRange o) (h_Port o)
    (h_PortRange o) (h_ProcessName o) v (h_ProcessPathRegex o) (h_PackageName o) (h_NetworkType o)
    (h_NetworkIsExpensive o) (h_NetworkIsConstrained o) (h_WIFISSID o) (h_WIFIBSSID o) (h_NetworkInterfaceAddress o)
    (h_DefaultInterfaceAddress o) (h_Invert o) (h_DomainMatcher o) (h_SourceIPSet o) (h_IPSet o) (h_AdGuardDomain o)
    (h_AdGuardDomainMatcher o).
Definition set_ProcessPathRegex (v : list string) (o : HeadlessOptions) : HeadlessOptions :=
  mkHeadlessOptions (h_QueryType o) (h_Network o) (h_Domain o) (h_DomainSuffix o) (h_DomainKeyword o)
    (h_DomainRegex o) (h_SourceIPCIDR o) (h_IPCIDR o) (h_SourcePort o) (h_SourcePortRange o) (h_Port o)
    (h_PortRange o) (h_ProcessName o) (h_ProcessPath o) v (h_PackageName o) (h_NetworkType o) (h_NetworkIsExpensive o)
    (h_NetworkIsConstrained o) (h_WIFISSID o) (h_WIFIBSSID o) (h_NetworkInterfaceAddress o)
    (h_DefaultInterfaceAddress o) (h_Invert o) (h_DomainMatcher o) (h_SourceIPSet o) (h_IPSet o) (h_AdGuardDomain o)
    (h_AdGuardDomainMatcher o).
Definition set_PackageName (v : list string) (o : HeadlessOptions) : HeadlessOptions :=
  mkHeadlessOptions (h_QueryType o) (h_Network o) (h_Domain o) (h_DomainSuffix o) (h_DomainKeyword o)
    (h_DomainRegex o) (h_SourceIPCIDR o) (h_IPCIDR o) (h_SourcePort o) (h_SourcePortRange o) (h_Port o)
    (h_PortRange o) (h_ProcessName o) (h_ProcessPath o) (h_ProcessPathRegex o) v (h_NetworkType o)
    (h_NetworkIsExpensive o) (h_NetworkIsConstrained o) (h_WIFISSID o) (h_WIFIBSSID o) (h_NetworkInterfaceAddress o)
    (h_DefaultInterfaceAddress o) (h_Invert o) (h_DomainMatcher o) (h_SourceIPSet o) (h_IPSet o) (h_AdGuardDomain o)
    (h_AdGuardDomainMatcher o).
Definition set_NetworkType (v : list Z) (o : HeadlessOptions) : HeadlessOptions :=
  mkHeadlessOptions (h_QueryType o) (h_Network o) (h_Domain o) (h_DomainSuffix o) (h_DomainKeyword o)
    (h_DomainRegex o) (h_SourceIPCIDR o) (h_IPCIDR o) (h_SourcePort o) (h_SourcePortRange o) (h_Port o)
    (h_PortRange o) (h_ProcessName o) (h_ProcessPath o) (h_ProcessPathRegex o) (h_PackageName o) v
    (h_NetworkIsExpensive o) (h_NetworkIsConstrained o) (h_WIFISSID o) (h_WIFIBSSID o) (h_NetworkInterfaceAddress o)
    (h_DefaultInterfaceAddress o) (h_Invert o) (h_DomainMatcher o) (h_SourceIPSet o) (h_IPSet o) (h_AdGuardDomain o)
    (h_AdGuardDomainMatcher o).
Definition set_NetworkIsExpensive (v : bool) (o : HeadlessOptions) : HeadlessOptions :=
  mkHeadlessOptions (h_QueryType o) (h_Network o) (h_Domain o) (h_DomainSuffix o) (h_DomainKeyword o)
    (h_DomainRegex o) (h_SourceIPCIDR o) (h_IPCIDR o) (h_SourcePort o) (h_SourcePortRange o) (h_Port o)
    (h_PortRange o) (h_ProcessName o) (h_ProcessPath o) (h_ProcessPathRegex o) (h_PackageName o) (h_NetworkType o) v
    (h_NetworkIsConstrained o) (h_WIFISSID o) (h_WIFIBSSID o) (h_NetworkInterfaceAddress o)
    (h_DefaultInterfaceAddress o) (h_Invert o) (h_DomainMatcher o) (h_SourceIPSet o) (h_IPSet o) (h_AdGuardDomain o)
    (h_AdGuardDomainMatcher o).
Definition set_NetworkIsConstrained (v : bool) (o : HeadlessOptions) : HeadlessOptions :=
  mkHeadlessOptions (h_QueryType o) (h_Network o) (h_Domain o) (h_DomainSuffix o) (h_DomainKeyword o)
    (h_DomainRegex o) (h_SourceIPCIDR o) (h_IPCIDR o) (h_SourcePort o) (h_SourcePortRange o) (h_Port o)
    (h_PortRange o) (h_ProcessName o) (h_ProcessPath o) (h_ProcessPathRegex o) (h_PackageName o) (h_NetworkType o)
    (h_NetworkIsExpensive o) v (h_WIFISSID o) (h_WIFIBSSID o) (h_NetworkInterfaceAddress o)
    (h_DefaultInterfaceAddress o) (h_Invert o) (h_DomainMatcher o) (h_SourceIPSet o) (h_IPSet o) (h_AdGuardDomain o)
    (h_AdGuardDomainMatcher o).
Definition set_WIFISSID (v : list string) (o : HeadlessOptions) : HeadlessOptions :=
  mkHeadlessOptions (h_QueryType o) (h_Network o) (h_Domain o) (h_DomainSuffix o) (h_DomainKeyword o)
    (h_DomainRegex o) (h_SourceIPCIDR o) (h_IPCIDR o) (h_SourcePort o) (h_SourcePortRange o) (h_Port o)
    (h_PortRange o) (h_ProcessName o) (h_ProcessPath o) (h_ProcessPathRegex o) (h_PackageName o) (h_NetworkType o)
    (h_NetworkIsExpensive o) (h_NetworkIsConstrained o) v (h_WIFIBSSID o) (h_NetworkInterfaceAddress o)
    (h_DefaultInterfaceAddress o) (h_Invert o) (h_DomainMatcher o) (h_SourceIPSet o) (h_IPSet o) (h_AdGuardDomain o)
    (h_AdGuardDomainMatcher o).
Definition set_WIFIBSSID (v : list string) (o : HeadlessOptions) : HeadlessOptions :=
  mkHeadlessOptions (h_QueryType o) (h_Network o) (h_Domain o) (h_DomainSuffix o) (h_DomainKeyword o)
    (h_DomainRegex o) (h_SourceIPCIDR o) (h_IPCIDR o) (h_SourcePort o) (h_SourcePortRange o) (h_Port o)
    (h_PortRange o) (h_ProcessName o) (h_ProcessPath o) (h_ProcessPathRegex o) (h_PackageName o) (h_NetworkType o)
    (h_NetworkIsExpensive o) (h_NetworkIsConstrained o) (h_WIFISSID o) v (h_NetworkInterfaceAddress o)
    (h_DefaultInterfaceAddress o) (h_Invert o) (h_DomainMatcher o) (h_SourceIPSet o) (h_IPSet o) (h_AdGuardDomain o)
    (h_AdGuardDomainMatcher o).
Definition set_NetworkInterfaceAddress (v : list (Z * list Prefixable)) (o : HeadlessOptions) : HeadlessOptions :=
  mkHeadlessOptions (h_QueryType o) (h_Network o) (h_Domain o) (h_DomainSuffix o) (h_DomainKeyword o)
    (h_DomainRegex o) (h_SourceIPCIDR o) (h_IPCIDR o) (h_SourcePort o) (h_SourcePortRange o) (h_Port o)
    (h_PortRange o) (h_ProcessName o) (h_ProcessPath o) (h_ProcessPathRegex o) (h_PackageName o) (h_NetworkType o)
    (h_NetworkIsExpensive o) (h_NetworkIsConstrained o) (h_WIFISSID o) (h_WIFIBSSID o) v (h_DefaultInterfaceAddress o)
    (h_Invert o) (h_DomainMatcher o) (h_SourceIPSet o) (h_IPSet o) (h_AdGuardDomain o) (h_AdGuardDomainMatcher o).
Definition set_DefaultInterfaceAddress (v : list Prefixable) (o : HeadlessOptions) : HeadlessOptions :=
  mkHeadlessOptions (h_QueryType o) (h_Network o) (h_Domain o) (h_DomainSuffix o) (h_DomainKeyword o)
    (h_DomainRegex o) (h_SourceIPCIDR o) (h_IPCIDR o) (h_SourcePort o) (h_SourcePortRange o) (h_Port o)
    (h_PortRange o) (h_ProcessName o) (h_ProcessPath o) (h_ProcessPathRegex o) (h_PackageName o) (h_NetworkType o)
    (h_NetworkIsExpensive o) (h_NetworkIsConstrained o) (h_WIFISSID o) (h_WIFIBSSID o) (h_NetworkInterfaceAddress o) v
    (h_Invert o) (h_DomainMatcher o) (h_SourceIPSet o) (h_IPSet o) (h_AdGuardDomain o) (h_AdGuardDomainMatcher o).
Definition set_Invert (v : bool) (o : HeadlessOptions) : HeadlessOptions :=
  mkHeadlessOptions (h_QueryType o) (h_Network o) (h_Domain o) (h_DomainSuffix o) (h_DomainKeyword o)
    (h_DomainRegex o) (h_SourceIPCIDR o) (h_IPCIDR o) (h_SourcePort o) (h_SourcePortRange o) (h_Port o)
    (h_PortRange o) (h_ProcessName o) (h_ProcessPath o) (h_ProcessPathRegex o) (h_PackageName o) (h_NetworkType o)
    (h_NetworkIsExpensive o) (h_NetworkIsConstrained o) (h_WIFISSID o) (h_WIFIBSSID o) (h_NetworkInterfaceAddress o)
    (h_DefaultInterfaceAddress o) v (h_DomainMatcher o) (h_SourceIPSet o) (h_IPSet o) (h_AdGuardDomain o)
    (h_AdGuardDomainMatcher o).
Definition set_DomainMatcher (v0 : option DomainMatcher) (v1 : list string) (v2 : list string) (o : HeadlessOptions) : HeadlessOptions :=
  mkHeadlessOptions (h_QueryType o) (h_Network o) v1 v2 (h_DomainKeyword o) (h_DomainRegex o) (h_SourceIPCIDR o)
    (h_IPCIDR o) (h_SourcePort o) (h_SourcePortRange o) (h_Port o) (h_PortRange o) (h_ProcessName o) (h_ProcessPath o)
    (h_ProcessPathRegex o) (h_PackageName o) (h_NetworkType o) (h_NetworkIsExpensive o) (h_NetworkIsConstrained o)
    (h_WIFISSID o) (h_WIFIBSSID o) (h_NetworkInterfaceAddress o) (h_DefaultInterfaceAddress o) (h_Invert o) v0
    (h_SourceIPSet o) (h_IPSet o) (h_AdGuardDomain o) (h_AdGuardDomainMatcher o).
Definition set_SourceIPSet (v0 : option IPSet) (v1 : list string) (o : HeadlessOptions) : HeadlessOptions :=
  mkHeadlessOptions (h_QueryType o) (h_Network o) (h_Domain o) (h_DomainSuffix o) (h_DomainKeyword o)
    (h_DomainRegex o) v1 (h_IPCIDR o) (h_SourcePort o) (h_SourcePortRange o) (h_Port o) (h_PortRange o)
    (h_ProcessName o) (h_ProcessPath o) (h_ProcessPathRegex o) (h_PackageName o) (h_NetworkType o)
    (h_NetworkIsExpensive o) (h_NetworkIsConstrained o) (h_WIFISSID o) (h_WIFIBSSID o) (h_NetworkInterfaceAddress o)
    (h_DefaultInterfaceAddress o) (h_Invert o) (h_DomainMatcher o) v0 (h_IPSet o) (h_AdGuardDomain o)
    (h_AdGuardDomainMatcher o).
Definition set_IPSet (v0 : option IPSet) (v1 : list string) (o : HeadlessOptions) : HeadlessOptions :=
  mkHeadlessOptions (h_QueryType o) (h_Network o) (h_Domain o) (h_DomainSuffix o) (h_DomainKeyword o)
    (h_DomainRegex o) (h_SourceIPCIDR o) v1 (h_SourcePort o) (h_SourcePortRange o) (h_Port o) (h_PortRange o)
    (h_ProcessName o) (h_ProcessPath o) (h_ProcessPathRegex o) (h_PackageName o) (h_NetworkType o)
    (h_NetworkIsExpensive o) (h_NetworkIsConstrained o) (h_WIFISSID o) (h_WIFIBSSID o) (h_NetworkInterfaceAddress o)
    (h_DefaultInterfaceAddress o) (h_Invert o) (h_DomainMatcher o) (h_SourceIPSet o) v0 (h_AdGuardDomain o)
    (h_AdGuardDomainMatcher o).
Definition set_AdGuard (v0 : option AdGuardMatcher) (v1 : list string) (o : HeadlessOptions) : HeadlessOptions :=
  mkHeadlessOptions (h_QueryType o) (h_Network o) (h_Domain o) (h_DomainSuffix o) (h_DomainKeyword o)
    (h_DomainRegex o) (h_SourceIPCIDR o) (h_IPCIDR o) (h_SourcePort o) (h_SourcePortRange o) (h_Port o)
    (h_PortRange o) (h_ProcessName o) (h_ProcessPath o) (h_ProcessPathRegex o) (h_PackageName o) (h_NetworkType o)
    (h_NetworkIsExpensive o) (h_NetworkIsConstrained o) (h_WIFISSID o) (h_WIFIBSSID o) (h_NetworkInterfaceAddress o)
    (h_DefaultInterfaceAddress o) (h_Invert o) (h_DomainMatcher o) (h_SourceIPSet o) (h_IPSet o) v1 v0.
End setters.

Section srs.
Context `{SrsEnv} `{SingAddr}.

Definition MagicBytes : bytes := [u8 83; u8 82; u8 83].
Definition ruleItemQueryType : Z := 0.
Definition ruleItemNetwork : Z := 1.
Definition ruleItemDomain : Z := 2.
Definition ruleItemDomainKeyword : Z := 3.
Definition ruleItemDomainRegex : Z := 4.
Definition ruleItemSourceIPCIDR : Z := 5.
Definition ruleItemIPCIDR : Z := 6.
Definition ruleItemSourcePort : Z := 7.
Definition ruleItemSourcePortRange : Z := 8.
Definition ruleItemPort : Z := 9.
Definition ruleItemPortRange : Z := 10.
Definition ruleItemProcessName : Z := 11.
Definition ruleItemProcessPath : Z := 12.
Definition ruleItemPackageName : Z := 13.
Definition ruleItemWIFISSID : Z := 14.
Definition ruleItemWIFIBSSID : Z := 15.
Definition ruleItemAdGuardDomain : Z := 16.
Definition ruleItemProcessPathRegex : Z := 17.
Definition ruleItemNetworkType : Z := 18.
Definition ruleItemNetworkIsExpensive : Z := 19.
Definition ruleItemNetworkIsConstrained : Z := 20.
Definition ruleItemNetworkInterfaceAddress : Z := 21.
Definition ruleItemDefaultInterfaceAddress : Z := 22.
Definition ruleItemFinal : Z := 255.
Definition RuleSetVersionCurrent : Z := 4.

(** ** Lists *)

(** [make] of a slice of elements of a size. *)
Definition make_slice (size n : Z) : reader unit :=
  if decide (n * size <= maxAlloc)%Z then rret () else rfail (EPanic "makeslice: len out of range").

(** [E.Cause] around an error; a panic is not an error. *)
Definition with_cause {A} (msg : string) (r : reader A) : reader A := λ s,
  match r s with
  | Err (EPanic m) => Err (EPanic m)
  | Err e => Err (ECause e msg)
  | ok => ok
  end.

Definition out_of_fuel : error := EPanic "fuel".

(** A loop that reads [n] elements from the index [i] on.  Every element takes a
    byte at least, so one more than the bytes that are left is enough fuel. *)
Fixpoint read_many {A} (r : Z → reader A) (fuel : nat) (i n : Z) : reader (list A) :=
  if decide (n <= i)%Z then rret []
  else
    match fuel with
    | 0 => rfail out_of_fuel
    | S fuel => let! a := r i in let! l := read_many r fuel (i + 1) n in rret (a :: l)
    end.
Definition read_list {A} (r : Z → reader A) (n : Z) : reader (list A) := λ s, read_many r (S (length s)) 0 n s.

(** [readRuleItemString], [readRuleItemUint8] and [readRuleItemUint16], with
    their writers. *)
Definition read_string : reader string := let! b := read_field in rret (String.string_of_list_ascii b).
Definition readRuleItemString : reader (list string) :=
  let! length := ReadUvarint in
  let! _ := make_slice 16 length in
  read_list (λ _, read_string) length.
Definition write_string (s : string) : bytes :=
  PutUvarint (Z.of_nat (String.length s)) ++ String.list_ascii_of_string s.
Definition writeRuleItemString (itemType : Z) (value : list string) : bytes :=
  u8 itemType :: PutUvarint (Z.of_nat (length value)) ++ (value ≫= write_string).

Definition readRuleItemUint8 : reader (list Z) := let! b := read_field in rret (val <$> b).
Definition writeRuleItemUint8 (itemType : Z) (value : list Z) : bytes :=
  u8 itemType :: PutUvarint (Z.of_nat (length value)) ++ (u8 <$> value).

Fixpoint uint16s (b : bytes) : list Z :=
  match b with x :: y :: b => of_be16 x y :: uint16s b | _ => [] end.
Definition readRuleItemUint16 : reader (list Z) :=
  let! length := ReadUvarint in
  let! _ := make_slice 2 length in
  let! b := read_full (Z.to_nat (2 * length)) in
  rret (uint16s b).
Definition writeRuleItemUint16 (itemType : Z) (value : list Z) : bytes :=
  u8 itemType :: PutUvarint (Z.of_nat (length value)) ++ (value ≫= be16).

(** ** Addresses *)

(** ip_set.go. *)
Definition read_range : reader (Addr * Addr) :=
  let! fromBytes := read_field in
  let! toBytes := read_field in
  rret (AddrFromIP fromBytes, AddrFromIP toBytes).
Definition readIPSet : reader IPSet :=
  let! version := read_byte in
  if decide (val version ≠ 1)%Z then rfail ErrInvalid
  else
    let! length := read_full 8 in
    let! _ := make_slice 48 (of_be length) in
    let! rr := read_list (λ _, read_range) (of_be length) in
    rret (IPSet_of_ranges rr).
Definition write_slice (b : bytes) : bytes := PutUvarint (Z.of_nat (length b)) ++ b.
Definition write_range (r : Addr * Addr) : bytes := write_slice (AsSlice r.1) ++ write_slice (AsSlice r.2).
Definition writeIPSet (set : IPSet) : bytes :=
  u8 1 :: be 8 (Z.of_nat (length (IPSet_ranges set))) ++ (IPSet_ranges set ≫= write_range).

(** [writeRuleItemCIDR]. *)
Definition writeRuleItemCIDR (itemType : Z) (value : list string) : result bytes :=
  let? added := parse_cidrs 0 value [] in
  let? ipSet := IPSetBuilder_IPSet added in
  Ok (u8 itemType :: writeIPSet ipSet).

(** ip_cidr.go. *)
Definition readPrefix : reader Prefix :=
  let! addrSlice := read_field in
  let! prefixBits := read_byte in
  rret (PrefixFrom (AddrFromIP addrSlice) (val prefixBits)).
Definition writePrefix (prefix : Prefix) : bytes := write_slice (AsSlice (p_ip prefix)) ++ [u8 (p_bits prefix)].

Definition read_prefixes : reader (list Prefixable) :=
  let! prefixCount := ReadUvarint in
  read_list (λ _, let! prefix := readPrefix in rret (Prefixable_of prefix)) prefixCount.
Definition write_prefixes (value : list Prefixable) : bytes :=
  PutUvarint (Z.of_nat (length value)) ++ (value ≫= λ rawPrefix, writePrefix (Prefixable_Build rawPrefix)).

(** The entries of a network-interface-address item. *)
Definition read_entry : reader (Z * list Prefixable) :=
  let! key := read_byte in
  let! value := read_prefixes in
  rret (val key, value).
Definition read_entries : reader (list (Z * list Prefixable)) :=
  let! size := ReadUvarint in
  let! entries := read_list (λ _, read_entry) size in
  rret (foldl (λ m e, TypedMap_Put e.1 e.2 m) [] entries).
Definition write_entry (entry : Z * list Prefixable) : bytes := u8 entry.1 :: write_prefixes entry.2.

(** ** Default rules *)

(** One case of the switch of [readDefaultRule]. *)
Definition read_item (recover : bool) (itemType lastItemType : Z) (rule : HeadlessOptions) : reader HeadlessOptions :=
  let strings set := let! v := readRuleItemString in rret (set v rule) in
  let uint16s set := let! v := readRuleItemUint16 in rret (set v rule) in
  if decide (itemType = ruleItemQueryType) then uint16s set_QueryType
  else if decide (itemType = ruleItemNetwork) then strings set_Network
  else if decide (itemType = ruleItemDomain) then
    let! matcher := ReadMatcher in
    let '(d, s) := if recover then Matcher_Dump matcher else (h_Domain rule, h_DomainSuffix rule) in
    rret (set_DomainMatcher (Some matcher) d s rule)
  else if decide (itemType = ruleItemDomainKeyword) then strings set_DomainKeyword
  else if decide (itemType = ruleItemDomainRegex) then strings set_DomainRegex
  else if decide (itemType = ruleItemSourceIPCIDR) then
    let! set := readIPSet in
    rret (set_SourceIPSet (Some set) (if recover then Prefix_String <$> IPSet_Prefixes set else h_SourceIPCIDR rule) rule)
  else if decide (itemType = ruleItemIPCIDR) then
    let! set := readIPSet in
    rret (set_IPSet (Some set) (if recover then Prefix_String <$> IPSet_Prefixes set else h_IPCIDR rule) rule)
  else if decide (itemType = ruleItemSourcePort) then uint16s set_SourcePort
  else if decide (itemType = ruleItemSourcePortRange) then strings set_SourcePortRange
  else if decide (itemType = ruleItemPort) then uint16s set_Port
  else if decide (itemType = ruleItemPortRange) then strings set_PortRange
  else if decide (itemType = ruleItemProcessName) then strings set_ProcessName
  else if decide (itemType = ruleItemProcessPath) then strings set_ProcessPath
  else if decide (itemType = ruleItemProcessPathRegex) then strings set_ProcessPathRegex
  else if decide (itemType = ruleItemPackageName) then strings set_PackageName
  else if decide (itemType = ruleItemWIFISSID) then strings set_WIFISSID
  else if decide (itemType = ruleItemWIFIBSSID) then strings set_WIFIBSSID
  else if decide (itemType = ruleItemAdGuardDomain) then
    let! matcher := ReadAdGuardMatcher in
    rret (set_AdGuard (Some matcher) (if recover then AdGuard_Dump matcher else h_AdGuardDomain rule) rule)
  else if decide (itemType = ruleItemNetworkType) then
    let! v := readRuleItemUint8 in rret (set_NetworkType v rule)
  else if decide (itemType = ruleItemNetworkIsExpensive) then rret (set_NetworkIsExpensive true rule)
  else if decide (itemType = ruleItemNetworkIsConstrained) then rret (set_NetworkIsConstrained true rule)
  else if decide (itemType = ruleItemNetworkInterfaceAddress) then
    let! v := read_entries in rret (set_NetworkInterfaceAddress v rule)
  else if decide (itemType = ruleItemDefaultInterfaceAddress) then
    let! v := read_prefixes in rret (set_DefaultInterfaceAddress v rule)
  else rfail (ENew ("unknown rule item type: " +:+ pretty itemType +:+ ", last type: " +:+ pretty lastItemType)).

(** The loop of [readDefaultRule]; every turn takes the byte of the item type. *)
Fixpoint read_items (recover : bool) (fuel : nat) (lastItemType : Z) (rule : HeadlessOptions) : reader HeadlessOptions :=
  match fuel with
  | 0 => rfail out_of_fuel
  | S fuel =>
      let! t := read_byte in
      let itemType := val t in
      if decide (itemType = ruleItemFinal) then
        let! invert := read_byte in
        rret (set_Invert (negb (bool_decide (val invert = 0)%Z)) rule)
      else
        let! rule := read_item recover itemType lastItemType rule in
        read_items recover fuel itemType rule
  end.
Definition readDefaultRule (recover : bool) : reader HeadlessOptions := λ s,
  read_items recover (S (length s)) 0 no_options s.

(** [writeDefaultRule]: an item for every list that is not empty. *)
Definition nonempty {A} (l : list A) : bool := match l with [] => false | _ => true end.
Definition write_if (b : bool) (w : bytes) : result bytes := Ok (if b then w else []).
Definition write_strings (itemType : Z) (value : list string) : result bytes :=
  write_if (nonempty value) (writeRuleItemString itemType value).
Definition write_ports (itemType : Z) (value : list Z) : result bytes :=
  write_if (nonempty value) (writeRuleItemUint16 itemType value).
Definition write_cidrs (itemType : Z) (msg : string) (value : list string) : result bytes :=
  match value with
  | [] => Ok []
  | _ => match writeRuleItemCIDR itemType value with Err e => Err (ECause e msg) | Ok b => Ok b end
  end.
Definition write_since (version least : Z) (msg : string) (b : bool) (w : bytes) : result bytes :=
  if b then if decide (version < least)%Z then Err (ENew msg) else Ok w else Ok [].

Fixpoint concat_results (ws : list (result bytes)) : result bytes :=
  match ws with
  | [] => Ok []
  | w :: ws => let? b := w in let? rest := concat_results ws in Ok (b ++ rest)
  end.

Definition default_items (rule : HeadlessOptions) (version : Z) : list (result bytes) :=
  [ write_ports ruleItemQueryType (h_QueryType rule);
    write_strings ruleItemNetwork (h_Network rule);
    write_if (nonempty (h_Domain rule) || nonempty (h_DomainSuffix rule))
      (u8 ruleItemDomain :: Matcher_Write (NewMatcher (h_Domain rule) (h_DomainSuffix rule) (bool_decide (version = 1)%Z)));
    write_strings ruleItemDomainKeyword (h_DomainKeyword rule);
    write_strings ruleItemDomainRegex (h_DomainRegex rule);
    write_cidrs ruleItemSourceIPCIDR "source_ip_cidr" (h_SourceIPCIDR rule);
    write_cidrs ruleItemIPCIDR "ipcidr" (h_IPCIDR rule);
    write_ports ruleItemSourcePort (h_SourcePort rule);
    write_strings ruleItemSourcePortRange (h_SourcePortRange rule);
    write_ports ruleItemPort (h_Port rule);
    write_strings ruleItemPortRange (h_PortRange rule);
    write_strings ruleItemProcessName (h_ProcessName rule);
    write_strings ruleItemProcessPath (h_ProcessPath rule);
    write_strings ruleItemProcessPathRegex (h_ProcessPathRegex rule);
    write_strings ruleItemPackageName (h_PackageName rule);
    write_since version 3 "`network_type` rule item is only supported in version 3 or later"
      (nonempty (h_NetworkType rule)) (writeRuleItemUint8 ruleItemNetworkType (h_NetworkType rule));
    write_since version 3 "`network_is_expensive` rule item is only supported in version 3 or later"
      (h_NetworkIsExpensive rule) [u8 ruleItemNetworkIsExpensive];
    write_since version 3 "`network_is_constrained` rule item is only supported in version 3 or later"
      (h_NetworkIsConstrained rule) [u8 ruleItemNetworkIsConstrained];
    write_since version 4 "`network_interface_address` rule item is only supported in version 4 or later"
      (nonempty (h_NetworkInterfaceAddress rule))
      (u8 ruleItemNetworkInterfaceAddress :: PutUvarint (Z.of_nat (length (h_NetworkInterfaceAddress rule)))
         ++ (h_NetworkInterfaceAddress rule ≫= write_entry));
    write_since version 4 "`default_interface_address` rule item is only supported in version 4 or later"
      (nonempty (h_DefaultInterfaceAddress rule))
      (u8 ruleItemDefaultInterfaceAddress :: write_prefixes (h_DefaultInterfaceAddress rule));
    write_strings ruleItemWIFISSID (h_WIFISSID rule);
    write_strings ruleItemWIFIBSSID (h_WIFIBSSID rule);
    write_since version 2 "AdGuard rule items is only supported in version 2 or later"
      (nonempty (h_AdGuardDomain rule)) (u8 ruleItemAdGuardDomain :: AdGuard_Write (NewAdGuardMatcher (h_AdGuardDomain rule))) ].

Definition write_bool (b : bool) : bytes := [u8 (if b then 1 else 0)].
Definition writeDefaultRule (rule : HeadlessOptions) (version : Z) : result bytes :=
  let? items := concat_results (default_items rule version) in
  Ok (u8 0 :: items ++ u8 ruleItemFinal :: write_bool (h_Invert rule)).

(** ** Rules *)

Definition no_logical : LogicalHeadlessOf HeadlessRuleOptions := mkLogicalHeadless _ "" [] false.

(** [readLogicalRule], with the reader of its rules. *)
Definition readLogicalRule (readRule : reader HeadlessRuleOptions) : reader (LogicalHeadlessOf HeadlessRuleOptions) :=
  let! mode := read_byte in
  let! mode :=
    if decide (val mode = 0)%Z then rret LogicalTypeAnd
    else if decide (val mode = 1)%Z then rret LogicalTypeOr
    else rfail (ENew ("unknown logical mode: " +:+ pretty (val mode))) in
  let! length := ReadUvarint in
  let! _ := make_slice sizeof_HeadlessRule length in
  let! rules := read_list (λ i, with_cause ("read logical rule [" +:+ pretty i +:+ "]") readRule) length in
  let! invert := read_byte in
  rret (mkLogicalHeadless _ mode rules (negb (bool_decide (val invert = 0)%Z))).

(** [readRule]; a nested rule has fewer bytes than the one around it. *)
Fixpoint readRule (recover : bool) (fuel : nat) : reader HeadlessRuleOptions :=
  match fuel with
  | 0 => rfail out_of_fuel
  | S fuel =>
      let! ruleType := read_byte in
      if decide (val ruleType = 0)%Z then
        let! rule := readDefaultRule recover in rret (mkHeadlessRuleOptions "default" rule no_logical)
      else if decide (val ruleType = 1)%Z then
        let! rule := readLogicalRule (readRule recover fuel) in rret (mkHeadlessRuleOptions "logical" no_options rule)
      else rfail (ENew ("unknown rule type: " +:+ pretty (val ruleType)))
  end.

(** [writeLogicalRule] and [writeRule]. *)
Definition write_mode (mode : string) : result bytes :=
  if decide (mode = LogicalTypeAnd) then Ok [u8 0]
  else if decide (mode = LogicalTypeOr) then Ok [u8 1]
  else Err (EPanic ("unknown logical mode: " +:+ mode)).
Definition writeLogicalRule (writeRule : HeadlessRuleOptions → result bytes) (l : LogicalHeadlessOf HeadlessRuleOptions) : result bytes :=
  let? mode := write_mode (lh_Mode _ l) in
  let? rules := concat_results (map writeRule (lh_Rules _ l)) in
  Ok (u8 1 :: mode ++ PutUvarint (Z.of_nat (length (lh_Rules _ l))) ++ rules ++ write_bool (lh_Invert _ l)).
Fixpoint writeRule (rule : HeadlessRuleOptions) (version : Z) : result bytes :=
  match rule with
  | mkHeadlessRuleOptions type d l =>
      if decide (type = "default") then writeDefaultRule d version
      else if decide (type = "logical") then writeLogicalRule (λ r, writeRule r version) l
      else Err (EPanic ("unknown rule type: " +:+ type))
  end.

(** ** Files *)

Definition Read (recover : bool) (file : bytes) : result (Z * list HeadlessRuleOptions) :=
  match read_full 3 file with
  | Err e => Err e
  | Ok (magicBytes, file) =>
      if decide (magicBytes ≠ MagicBytes) then Err (ENew "invalid sing-box rule-set file")
      else
        match read_byte file with
        | Err e => Err e
        | Ok (version, file) =>
            if decide (RuleSetVersionCurrent < val version)%Z
            then Err (ENew ("unsupported version: " +:+ pretty (val version)))
            else
              let? stream := zlib_NewReader file in
              let? r := (let! length := ReadUvarint in
                         let! _ := make_slice sizeof_HeadlessRule length in
                         read_list (λ i, with_cause ("read rule[" +:+ pretty i +:+ "]")
                                           (λ s, readRule recover (S (List.length s)) s)) length) stream in
              Ok (val version, r.1)
        end
  end.

Definition Write (rules : list HeadlessRuleOptions) (generateVersion : Z) : result bytes :=
  let? body := concat_results (map (λ r, writeRule r generateVersion) rules) in
  Ok (MagicBytes ++ [u8 generateVersion] ++ zlib_compress (PutUvarint (Z.of_nat (length rules)) ++ body)).
End srs.
