(* ===== verification/SrsProps.v ===== *)
(** * Binary rule sets can be read back

    Each item that is written in the file format is read back by its reader. *)
From S2P Require Import Prelude Bytes MatchState RuleItems Netip Rules RuleAction RuleBuild Srs.

(** What the other packages promise: matchers, IP sets, prefixes and compressed
    streams can be read back. *)
Definition valid_addr (a : Addr) : Prop := wf_addr a ∧ zone_of a = "" ∧ Addr_IsValid a = true.
Class SrsLaws `{SrsEnv} := {
  read_Matcher m s : ReadMatcher (Matcher_Write m ++ s) = Ok (m, s);
  read_AdGuard m s : ReadAdGuardMatcher (AdGuard_Write m ++ s) = Ok (m, s);
  IPSet_cast set : IPSet_of_ranges (IPSet_ranges set) = set;
  IPSet_valid set : Forall (λ r, valid_addr r.1 ∧ valid_addr r.2) (IPSet_ranges set);
  Prefixable_cast p : Prefixable_of (Prefixable_Build p) = p;
  Prefixable_wf p : wf_prefix (Prefixable_Build p);
  Put_new k v m : k ∉ m.*1 → TypedMap_Put k v m = m ++ [(k, v)];
  zlib_roundtrip b : zlib_NewReader (zlib_compress b) = Ok b;
  sizeof_positive : (0 < sizeof_HeadlessRule)%Z;
}.

Section srs.
Context `{SrsLaws} `{SingAddr}.

(** ** Lists *)

Lemma PutUvarint_nonempty x : PutUvarint x ≠ [].
Proof. unfold PutUvarint. cbn. by case_decide. Qed.

Lemma read_many_written {A B} (r : Z → reader B) (w : A → bytes) (g : A → B) xs fuel i rest :
  (∀ i x rest, x ∈ xs → r i (w x ++ rest) = Ok (g x, rest)) → length xs < fuel →
  read_many r fuel i (i + Z.of_nat (length xs)) ((xs ≫= w) ++ rest) = Ok (g <$> xs, rest).
Proof.
  revert fuel i. induction xs as [|x xs IH]; intros fuel i Hr Hf; (destruct fuel as [|fuel]; [cbn in Hf; lia|]).
  - cbn [read_many length]. by rewrite decide_True by lia.
  - cbn [read_many length mbind list_bind]. rewrite decide_False by lia. rewrite <-app_assoc.
    erewrite rbind_step by (apply Hr; by left).
    replace (i + Z.of_nat (S (length xs)))%Z with (i + 1 + Z.of_nat (length xs))%Z by lia.
    fold (xs ≫= w). erewrite rbind_step; [done|]. apply IH; [|cbn in Hf; lia]. intros. apply Hr. by right.
Qed.

Lemma length_bind_ge {A} (w : A → bytes) xs : (∀ x, x ∈ xs → w x ≠ []) → length xs <= length (xs ≫= w).
Proof.
  intros Hw. induction xs as [|x xs IH]; [done|]. cbn [mbind list_bind length]. fold (xs ≫= w). rewrite length_app.
  assert (w x ≠ []) as Hx by (apply Hw; by left). specialize (IH (λ y Hy, Hw y (list_elem_of_further _ _ _ Hy))).
  destruct (w x); [done|]. cbn. lia.
Qed.

Lemma read_list_written {A B} (r : Z → reader B) (w : A → bytes) (g : A → B) xs rest :
  (∀ x, x ∈ xs → w x ≠ []) → (∀ i x rest, x ∈ xs → r i (w x ++ rest) = Ok (g x, rest)) →
  read_list r (Z.of_nat (length xs)) ((xs ≫= w) ++ rest) = Ok (g <$> xs, rest).
Proof.
  intros Hw Hr. unfold read_list. apply (read_many_written r w g xs _ 0); [done|].
  rewrite length_app. pose proof (length_bind_ge w xs Hw). lia.
Qed.

(** ** Items *)

Definition small_string (s : string) : Prop := (Z.of_nat (String.length s) <= maxAlloc)%Z.
Definition small {A} (size : Z) (l : list A) : Prop := (Z.of_nat (length l) * size <= maxAlloc)%Z.
Definition small_strings (l : list string) : Prop := small 16 l ∧ Forall small_string l.

Lemma length_list_ascii s : length (String.list_ascii_of_string s) = String.length s.
Proof. induction s; cbn; congruence. Qed.

Lemma read_slice b rest : (Z.of_nat (length b) <= maxAlloc)%Z → read_field (write_slice b ++ rest) = Ok (b, rest).
Proof. intros Hb. unfold write_slice. rewrite <-app_assoc. by apply read_field_app. Qed.

Lemma read_string_written s rest : small_string s → read_string (write_string s ++ rest) = Ok (s, rest).
Proof.
  intros Hs. unfold read_string, write_string. rewrite <-length_list_ascii, <-app_assoc.
  erewrite rbind_step by (apply read_field_app; by rewrite length_list_ascii). unfold rret. by rewrite string_of_list_of_string.
Qed.

Lemma small_uvarint {A} size (l : list A) : (1 <= size)%Z → small size l → (0 <= Z.of_nat (length l) < 2 ^ 64)%Z.
Proof. unfold small, maxAlloc. intros. nia. Qed.

Lemma make_slice_small {A} size (l : list A) s : small size l → make_slice size (Z.of_nat (length l)) s = Ok (tt, s).
Proof. intros Hl. unfold make_slice. by rewrite decide_True. Qed.

Lemma readRuleItemString_written t l rest :
  small_strings l →
  ∃ b, writeRuleItemString t l = u8 t :: b ∧ readRuleItemString (b ++ rest) = Ok (l, rest).
Proof.
  intros [Hs Hall]. eexists. split; [done|]. unfold readRuleItemString. rewrite <-app_assoc.
  erewrite rbind_step by (apply ReadUvarint_PutUvarint, (small_uvarint 16); [lia|done]).
  erewrite rbind_step by (by apply make_slice_small).
  rewrite (read_list_written _ write_string id); [by rewrite list_fmap_id|..].
  - intros x _ Hx. apply app_eq_nil in Hx as [Hx _]. by apply PutUvarint_nonempty in Hx.
  - intros _ x rest' Hx. apply read_string_written. by eapply Forall_forall in Hall.
Qed.

Definition uint (n : Z) (x : Z) : Prop := (0 <= x < n)%Z.

Lemma readRuleItemUint8_written t l rest :
  small 1 l → Forall (uint 256) l →
  ∃ b, writeRuleItemUint8 t l = u8 t :: b ∧ readRuleItemUint8 (b ++ rest) = Ok (l, rest).
Proof.
  intros Hs Hall. eexists. split; [done|]. unfold readRuleItemUint8. rewrite <-(length_fmap u8 l), <-app_assoc.
  erewrite rbind_step by (apply read_field_app; rewrite length_fmap; unfold small in Hs; lia).
  unfold rret. do 2 f_equal. rewrite <-list_fmap_compose. rewrite <-(list_fmap_id l) at 2.
  apply list_fmap_ext. intros i x Hx. cbn. apply val_u8_small. eapply Forall_lookup in Hall; [|done]. exact Hall.
Qed.

Lemma uint16s_written l : Forall (uint 65536) l → uint16s (l ≫= be16) = l.
Proof.
  induction 1 as [|x l Hx _ IH]; [done|]. cbn [mbind list_bind]. fold (l ≫= be16). unfold be16 at 1. cbn [app uint16s].
  rewrite of_be16_be16, IH, Z.mod_small by done. done.
Qed.

Lemma length_be16s l : length (l ≫= be16) = 2 * length l.
Proof. induction l as [|x l IH]; [done|]. cbn [mbind list_bind]. fold (l ≫= be16). rewrite length_app, IH. cbn. lia. Qed.

Lemma readRuleItemUint16_written t l rest :
  small 2 l → Forall (uint 65536) l →
  ∃ b, writeRuleItemUint16 t l = u8 t :: b ∧ readRuleItemUint16 (b ++ rest) = Ok (l, rest).
Proof.
  intros Hs Hall. eexists. split; [done|]. unfold readRuleItemUint16. rewrite <-app_assoc.
  erewrite rbind_step by (apply ReadUvarint_PutUvarint, (small_uvarint 2); [lia|done]).
  erewrite rbind_step by (by apply make_slice_small).
  replace (Z.to_nat (2 * Z.of_nat (length l))) with (length (l ≫= be16)) by (rewrite length_be16s; lia).
  erewrite rbind_step by apply read_full_app. unfold rret. by rewrite uint16s_written.
Qed.

(** ** Addresses *)

Lemma AsSlice_small a : (Z.of_nat (length (AsSlice a)) <= maxAlloc)%Z.
Proof. unfold maxAlloc. destruct a; cbn [AsSlice]; rewrite ?length_be; cbn; lia. Qed.

Lemma read_range_written r rest :
  valid_addr r.1 → valid_addr r.2 → read_range (write_range r ++ rest) = Ok (r, rest).
Proof.
  intros (Hw1 & Hz1 & _) (Hw2 & Hz2 & _). unfold read_range, write_range. rewrite <-app_assoc.
  erewrite rbind_step by apply read_slice, AsSlice_small. erewrite rbind_step by apply read_slice, AsSlice_small.
  unfold rret. rewrite !AddrFromIP_AsSlice by done. by destruct r.
Qed.

Definition small_set (set : IPSet) : Prop := small 48 (IPSet_ranges set).

Lemma write_slice_nonempty b : write_slice b ≠ [].
Proof. intros Hb. apply app_eq_nil in Hb as [Hb _]. by apply PutUvarint_nonempty in Hb. Qed.

Lemma readIPSet_written set rest : small_set set → readIPSet (writeIPSet set ++ rest) = Ok (set, rest).
Proof.
  intros Hs. unfold readIPSet, writeIPSet. cbn [app]. erewrite rbind_step; [|done].
  rewrite val_u8_small by lia. rewrite decide_False by (intros Hn; by apply Hn). rewrite <-app_assoc.
  set (n := Z.of_nat (length (IPSet_ranges set))). erewrite rbind_step.
  2:{ rewrite <-(length_be 8 n) at 1. apply read_full_app. }
  assert (of_be (be 8 n) = n) as ->.
  { apply of_be_be. pose proof (small_uvarint 48 (IPSet_ranges set) ltac:(lia) Hs). change (8 * Z.of_nat 8)%Z with 64%Z. lia. }
  erewrite rbind_step by (by apply make_slice_small).
  rewrite (rbind_step _ _ _ (id <$> IPSet_ranges set) rest).
  - unfold rret. by rewrite list_fmap_id, IPSet_cast.
  - apply (read_list_written _ write_range id).
    + intros x _ Hx. apply app_eq_nil in Hx as [Hx _]. by apply write_slice_nonempty in Hx.
    + intros _ x rest' Hx. pose proof (IPSet_valid set) as Hv. rewrite Forall_forall in Hv.
      destruct (Hv x Hx). by apply read_range_written.
Qed.

Lemma readPrefix_written p rest : wf_prefix p → readPrefix (writePrefix p ++ rest) = Ok (p, rest).
Proof.
  intros (Hw & Hz & Hb). unfold readPrefix, writePrefix. rewrite <-app_assoc.
  erewrite rbind_step by apply read_slice, AsSlice_small. cbn [app]. erewrite rbind_step; [|done].
  unfold rret. rewrite AddrFromIP_AsSlice by done. rewrite PrefixFrom_byte; [done|]. by repeat split.
Qed.

Lemma read_prefixes_written l rest : small 1 l → read_prefixes (write_prefixes l ++ rest) = Ok (l, rest).
Proof.
  intros Hs. unfold read_prefixes, write_prefixes. rewrite <-app_assoc.
  erewrite rbind_step by (apply ReadUvarint_PutUvarint, (small_uvarint 1); [lia|done]).
  rewrite (read_list_written _ (λ p, writePrefix (Prefixable_Build p)) id); [by rewrite list_fmap_id|..].
  - intros x _ Hx. apply app_eq_nil in Hx as [Hx _]. by apply write_slice_nonempty in Hx.
  - intros _ x rest' _. erewrite rbind_step by apply readPrefix_written, Prefixable_wf. unfold rret. by rewrite Prefixable_cast.
Qed.

(** The entries of a map: different keys, each a byte. *)
Definition wf_entries (l : list (Z * list Prefixable)) : Prop :=
  small 1 l ∧ NoDup l.*1 ∧ Forall (λ e, uint 256 e.1 ∧ small 1 e.2) l.

Lemma put_entries m l :
  NoDup (m.*1 ++ l.*1) → foldl (λ m e, TypedMap_Put e.1 e.2 m) m l = m ++ l.
Proof.
  revert m. induction l as [|[k v] l IH]; intros m Hnd; cbn [foldl fst snd]; [by rewrite app_nil_r|].
  cbn in Hnd. apply NoDup_app in Hnd as (Hm & Hdisj & Hl). apply NoDup_cons in Hl as [Hk Hl].
  rewrite Put_new by (intros Hin; apply (Hdisj k Hin); by left).
  rewrite IH; [by rewrite <-app_assoc|]. rewrite fmap_app. cbn. rewrite <-app_assoc. cbn.
  apply NoDup_app. split; [done|]. split; [done|]. by apply NoDup_cons.
Qed.

Lemma read_entries_written l rest :
  wf_entries l →
  read_entries (PutUvarint (Z.of_nat (length l)) ++ (l ≫= write_entry) ++ rest) = Ok (l, rest).
Proof.
  intros (Hs & Hnd & Hall). unfold read_entries.
  erewrite rbind_step by (apply ReadUvarint_PutUvarint, (small_uvarint 1); [lia|done]).
  rewrite (rbind_step _ _ _ (id <$> l) rest).
  - unfold rret. rewrite list_fmap_id. by rewrite (put_entries [] l).
  - apply (read_list_written _ write_entry id); [done|]. intros _ [k v] rest' Hx. rewrite Forall_forall in Hall.
    destruct (Hall _ Hx) as [Hk Hv]. unfold read_entry, write_entry. cbn [fst snd app].
    erewrite rbind_step; [|done]. erewrite rbind_step by (by apply read_prefixes_written).
    unfold rret. by rewrite val_u8_small.
Qed.
End srs.
