(* ===== verification/SrsRoundtrip.v ===== *)
(** * Round trip of binary rule sets *)
From S2P Require Import Prelude Bytes MatchState RuleItems Netip Rules RuleAction RuleBuild Srs SrsProps.

Section srs.
Context `{SrsLaws} `{SingAddr}.

(** ** The compiled form of a rule *)

(** The matcher of the domains, and the set of the addresses. *)
Definition domain_matcher (version : Z) (o : HeadlessOptions) : option DomainMatcher :=
  if nonempty (h_Domain o) || nonempty (h_DomainSuffix o)
  then Some (NewMatcher (h_Domain o) (h_DomainSuffix o) (bool_decide (version = 1)%Z)) else None.
Definition cidr_set (value : list string) : option IPSet :=
  match value with
  | [] => None
  | _ => match (let? added := parse_cidrs 0 value [] in IPSetBuilder_IPSet added) with Ok s => Some s | Err _ => None end
  end.
Definition adguard_matcher (o : HeadlessOptions) : option AdGuardMatcher :=
  match h_AdGuardDomain o with [] => None | l => Some (NewAdGuardMatcher l) end.

(** The rule that is read back: compiled sets in place of lists, which are
    recovered from the sets when that was asked for. *)
Definition compiled (recover : bool) (version : Z) (o : HeadlessOptions) : HeadlessOptions :=
  let dump {X Y} (f : X → list Y) (x : option X) := if recover then match x with Some x => f x | None => [] end else [] in
  mkHeadlessOptions (h_QueryType o) (h_Network o)
    (dump (λ m, (Matcher_Dump m).1) (domain_matcher version o)) (dump (λ m, (Matcher_Dump m).2) (domain_matcher version o))
    (h_DomainKeyword o) (h_DomainRegex o)
    (dump (λ s, Prefix_String <$> IPSet_Prefixes s) (cidr_set (h_SourceIPCIDR o)))
    (dump (λ s, Prefix_String <$> IPSet_Prefixes s) (cidr_set (h_IPCIDR o)))
    (h_SourcePort o) (h_SourcePortRange o) (h_Port o) (h_PortRange o) (h_ProcessName o) (h_ProcessPath o)
    (h_ProcessPathRegex o) (h_PackageName o) (h_NetworkType o) (h_NetworkIsExpensive o) (h_NetworkIsConstrained o)
    (h_WIFISSID o) (h_WIFIBSSID o) (h_NetworkInterfaceAddress o) (h_DefaultInterfaceAddress o) (h_Invert o)
    (domain_matcher version o) (cidr_set (h_SourceIPCIDR o)) (cidr_set (h_IPCIDR o))
    (dump AdGuard_Dump (adguard_matcher o)) (adguard_matcher o).

(** Values of their widths, and lists that fit into memory. *)
Record wf_options (o : HeadlessOptions) : Prop := {
  wo_ports : Forall (λ l, small 2 l ∧ Forall (uint 65536) l) [h_QueryType o; h_SourcePort o; h_Port o];
  wo_strings : Forall small_strings
    [h_Network o; h_DomainKeyword o; h_DomainRegex o; h_SourcePortRange o; h_PortRange o; h_ProcessName o;
     h_ProcessPath o; h_ProcessPathRegex o; h_PackageName o; h_WIFISSID o; h_WIFIBSSID o];
  wo_sets : Forall (λ l, ∀ s, cidr_set l = Some s → small_set s) [h_SourceIPCIDR o; h_IPCIDR o];
  wo_types : small 1 (h_NetworkType o) ∧ Forall (uint 256) (h_NetworkType o);
  wo_entries : wf_entries (h_NetworkInterfaceAddress o);
  wo_default : small 1 (h_DefaultInterfaceAddress o);
}.

(** ** Items *)

(** Bytes that, read as items, change the rule by [f]. *)
Definition applies (recover : bool) (b : bytes) (f : HeadlessOptions → HeadlessOptions) : Prop :=
  ∀ fuel last rule rest, length (b ++ rest) < fuel →
  ∃ fuel' last', length rest < fuel' ∧ read_items recover fuel last rule (b ++ rest) = read_items recover fuel' last' (f rule) rest.

Lemma applies_nil recover f : (∀ rule, f rule = rule) → applies recover [] f.
Proof. intros Hf fuel last rule rest Hl. exists fuel, last. by rewrite Hf. Qed.

Lemma applies_item recover t b f :
  (0 <= t < 255)%Z →
  (∀ last rule rest, read_item recover t last rule (b ++ rest) = Ok (f rule, rest)) → applies recover (u8 t :: b) f.
Proof.
  intros Ht Hr fuel last rule rest Hl. destruct fuel as [|fuel]; [lia|]. exists fuel, t.
  split; [cbn in Hl; rewrite length_app in Hl; lia|]. cbn [app read_items]. erewrite rbind_step; [|done].
  rewrite val_u8_small by lia. unfold ruleItemFinal. rewrite decide_False by lia. by erewrite rbind_step by apply Hr.
Qed.

Lemma applies_concat recover ws fs b :
  concat_results ws = Ok b → Forall2 (λ w f, ∀ c, w = Ok c → applies recover c f) ws fs →
  applies recover b (λ rule, foldl (λ r f, f r) rule fs).
Proof.
  intros Hb Hall. revert b Hb. induction Hall as [|w f ws fs Hw _ IH]; intros b Hb; cbn [concat_results] in Hb.
  { simplify_eq. by apply applies_nil. }
  destruct w as [c|]; [|done]. cbn [result_bind] in Hb. destruct (concat_results ws) as [b'|]; [|done].
  cbn [result_bind] in Hb. simplify_eq. specialize (Hw c eq_refl). specialize (IH b' eq_refl).
  intros fuel last rule rest Hl. rewrite <-app_assoc in *.
  destruct (Hw fuel last rule (b' ++ rest) Hl) as (fuel1 & last1 & Hl1 & ->).
  destruct (IH fuel1 last1 (f rule) rest Hl1) as (fuel2 & last2 & Hl2 & ->). exists fuel2, last2. done.
Qed.

(** A setter applied to an item that was written if [c] holds. *)
Lemma applies_if recover (c : bool) b (f : HeadlessOptions → HeadlessOptions) d :
  write_if c b = Ok d → (c = true → applies recover b f) → (c = false → ∀ rule, f rule = rule) → applies recover d f.
Proof. unfold write_if. intros Hd Ht Hf. destruct c; simplify_eq; [by apply Ht|]. by apply applies_nil, Hf. Qed.

Lemma applies_since recover version least msg (c : bool) b f d :
  write_since version least msg c b = Ok d →
  (c = true → applies recover b f) → (c = false → ∀ rule, f rule = rule) → applies recover d f.
Proof.
  unfold write_since. intros Hd Ht Hf. destruct c; [|simplify_eq; by apply applies_nil, Hf].
  case_decide; [done|]. simplify_eq. by apply Ht.
Qed.

(** The list that was written, or the one that was there. *)
Definition or_old {A} (l old : list A) : list A := if nonempty l then l else old.

Lemma applies_strings recover t l set (get : HeadlessOptions → list string) c :
  (0 <= t < 255)%Z → small_strings l → write_strings t l = Ok c →
  (∀ last rule, read_item recover t last rule = (let! v := readRuleItemString in rret (set v rule))) →
  (∀ rule, set (get rule) rule = rule) →
  applies recover c (λ rule, set (or_old l (get rule)) rule).
Proof.
  intros Ht Hl Hc Hitem Hget. eapply applies_if; [exact Hc|..]; intros Hn; unfold or_old; rewrite Hn; [|done].
  apply applies_item; [done|]. intros last rule rest. rewrite Hitem.
  destruct (readRuleItemString_written t l rest Hl) as (b & [= <-] & Hr). by erewrite rbind_step by exact Hr.
Qed.

Lemma applies_ports recover t l set (get : HeadlessOptions → list Z) c :
  (0 <= t < 255)%Z → small 2 l → Forall (uint 65536) l → write_ports t l = Ok c →
  (∀ last rule, read_item recover t last rule = (let! v := readRuleItemUint16 in rret (set v rule))) →
  (∀ rule, set (get rule) rule = rule) →
  applies recover c (λ rule, set (or_old l (get rule)) rule).
Proof.
  intros Ht Hl Hu Hc Hitem Hget. eapply applies_if; [exact Hc|..]; intros Hn; unfold or_old; rewrite Hn; [|done].
  apply applies_item; [done|]. intros last rule rest. rewrite Hitem.
  destruct (readRuleItemUint16_written t l rest Hl Hu) as (b & [= <-] & Hr). by erewrite rbind_step by exact Hr.
Qed.

(** Addresses: the set in place of the list. *)
Definition set_dump (recover : bool) (s : option IPSet) (old : list string) : list string :=
  match s with Some s => if recover then Prefix_String <$> IPSet_Prefixes s else old | None => old end.

Lemma applies_cidrs recover t msg l set (get : HeadlessOptions → option IPSet) (lists : HeadlessOptions → list string) c :
  (0 <= t < 255)%Z → (∀ s, cidr_set l = Some s → small_set s) → write_cidrs t msg l = Ok c →
  (∀ last rule, read_item recover t last rule =
     (let! s := readIPSet in rret (set (Some s) (if recover then Prefix_String <$> IPSet_Prefixes s else lists rule) rule))) →
  (∀ rule, set (get rule) (lists rule) rule = rule) →
  applies recover c (λ rule, set (match cidr_set l with Some s => Some s | None => get rule end)
                               (set_dump recover (cidr_set l) (lists rule)) rule).
Proof.
  intros Ht Hsmall Hc Hitem Hget. unfold write_cidrs, writeRuleItemCIDR in Hc. unfold cidr_set in *. destruct l as [|x l].
  { simplify_eq. by apply applies_nil. }
  destruct (parse_cidrs 0 (x :: l) []) as [added|]; cbn [result_bind] in *; [|done].
  destruct (IPSetBuilder_IPSet added) as [s|]; [|done]. cbn [result_bind] in *. simplify_eq.
  apply applies_item; [done|]. intros last rule rest. rewrite Hitem.
  by erewrite rbind_step by (apply readIPSet_written, Hsmall; done).
Qed.

(** ** A default rule *)

(** What the items of a rule change, in the order they are written. *)
Definition changes (recover : bool) (version : Z) (o : HeadlessOptions) : list (HeadlessOptions → HeadlessOptions) :=
  [ λ r, set_QueryType (or_old (h_QueryType o) (h_QueryType r)) r;
    λ r, set_Network (or_old (h_Network o) (h_Network r)) r;
    λ r, match domain_matcher version o with
         | Some m => set_DomainMatcher (Some m) (if recover then (Matcher_Dump m).1 else h_Domain r)
                       (if recover then (Matcher_Dump m).2 else h_DomainSuffix r) r
         | None => r
         end;
    λ r, set_DomainKeyword (or_old (h_DomainKeyword o) (h_DomainKeyword r)) r;
    λ r, set_DomainRegex (or_old (h_DomainRegex o) (h_DomainRegex r)) r;
    λ r, set_SourceIPSet (match cidr_set (h_SourceIPCIDR o) with Some s => Some s | None => h_SourceIPSet r end)
           (set_dump recover (cidr_set (h_SourceIPCIDR o)) (h_SourceIPCIDR r)) r;
    λ r, set_IPSet (match cidr_set (h_IPCIDR o) with Some s => Some s | None => h_IPSet r end)
           (set_dump recover (cidr_set (h_IPCIDR o)) (h_IPCIDR r)) r;
    λ r, set_SourcePort (or_old (h_SourcePort o) (h_SourcePort r)) r;
    λ r, set_SourcePortRange (or_old (h_SourcePortRange o) (h_SourcePortRange r)) r;
    λ r, set_Port (or_old (h_Port o) (h_Port r)) r;
    λ r, set_PortRange (or_old (h_PortRange o) (h_PortRange r)) r;
    λ r, set_ProcessName (or_old (h_ProcessName o) (h_ProcessName r)) r;
    λ r, set_ProcessPath (or_old (h_ProcessPath o) (h_ProcessPath r)) r;
    λ r, set_ProcessPathRegex (or_old (h_ProcessPathRegex o) (h_ProcessPathRegex r)) r;
    λ r, set_PackageName (or_old (h_PackageName o) (h_PackageName r)) r;
    λ r, set_NetworkType (or_old (h_NetworkType o) (h_NetworkType r)) r;
    λ r, set_NetworkIsExpensive (h_NetworkIsExpensive o || h_NetworkIsExpensive r) r;
    λ r, set_NetworkIsConstrained (h_NetworkIsConstrained o || h_NetworkIsConstrained r) r;
    λ r, set_NetworkInterfaceAddress (or_old (h_NetworkInterfaceAddress o) (h_NetworkInterfaceAddress r)) r;
    λ r, set_DefaultInterfaceAddress (or_old (h_DefaultInterfaceAddress o) (h_DefaultInterfaceAddress r)) r;
    λ r, set_WIFISSID (or_old (h_WIFISSID o) (h_WIFISSID r)) r;
    λ r, set_WIFIBSSID (or_old (h_WIFIBSSID o) (h_WIFIBSSID r)) r;
    λ r, match adguard_matcher o with
         | Some m => set_AdGuard (Some m) (if recover then AdGuard_Dump m else h_AdGuardDomain r) r
         | None => r
         end ].

Lemma or_old_nil {A} (l : list A) : or_old l [] = l.
Proof. by destruct l. Qed.

Lemma changes_compiled recover version o :
  set_Invert (h_Invert o) (foldl (λ r f, f r) no_options (changes recover version o)) = compiled recover version o.
Proof.
  unfold changes, compiled, set_dump.
  generalize (domain_matcher version o), (adguard_matcher o), (cidr_set (h_SourceIPCIDR o)), (cidr_set (h_IPCIDR o)).
  intros dm am s4 s6. destruct o, dm, am, s4, s6, recover; cbv -[or_old orb fmap list_fmap fst snd];
    rewrite !or_old_nil, !orb_false_r; reflexivity.
Qed.

(** The two remaining kinds of items. *)
Lemma applies_domain recover version o c :
  write_if (nonempty (h_Domain o) || nonempty (h_DomainSuffix o))
    (u8 ruleItemDomain :: Matcher_Write (NewMatcher (h_Domain o) (h_DomainSuffix o) (bool_decide (version = 1)%Z))) = Ok c →
  applies recover c (λ r, match domain_matcher version o with
    | Some m => set_DomainMatcher (Some m) (if recover then (Matcher_Dump m).1 else h_Domain r)
                  (if recover then (Matcher_Dump m).2 else h_DomainSuffix r) r
    | None => r end).
Proof.
  intros Hc. eapply applies_if; [exact Hc|..]; intros Hn; unfold domain_matcher; rewrite Hn; [|done].
  apply applies_item; [unfold ruleItemDomain; lia|]. intros last rule rest.
  change (read_item recover ruleItemDomain last rule) with
    (let! matcher := ReadMatcher in
     let '(d, s) := if recover then Matcher_Dump matcher else (h_Domain rule, h_DomainSuffix rule) in
     rret (set_DomainMatcher (Some matcher) d s rule)).
  erewrite rbind_step by apply read_Matcher. destruct recover; [|done]. by destruct (Matcher_Dump _).
Qed.

Lemma applies_adguard recover version o c :
  write_since version 2 "AdGuard rule items is only supported in version 2 or later"
    (nonempty (h_AdGuardDomain o)) (u8 ruleItemAdGuardDomain :: AdGuard_Write (NewAdGuardMatcher (h_AdGuardDomain o))) = Ok c →
  applies recover c (λ r, match adguard_matcher o with
    | Some m => set_AdGuard (Some m) (if recover then AdGuard_Dump m else h_AdGuardDomain r) r
    | None => r end).
Proof.
  intros Hc. eapply applies_since; [exact Hc|..]; intros Hn; unfold adguard_matcher; destruct (h_AdGuardDomain o); try done.
  apply applies_item; [unfold ruleItemAdGuardDomain; lia|]. intros last rule rest.
  change (read_item recover ruleItemAdGuardDomain last rule) with
    (let! matcher := ReadAdGuardMatcher in
     rret (set_AdGuard (Some matcher) (if recover then AdGuard_Dump matcher else h_AdGuardDomain rule) rule)).
  by erewrite rbind_step by apply read_AdGuard.
Qed.

Lemma applies_versioned {A} recover t version least msg (l : list A) b set (get : HeadlessOptions → list A) d :
  (0 <= t < 255)%Z → write_since version least msg (nonempty l) (u8 t :: b) = Ok d →
  (∀ last rule rest, read_item recover t last rule (b ++ rest) = Ok (set l rule, rest)) →
  (∀ rule, set (get rule) rule = rule) →
  applies recover d (λ rule, set (or_old l (get rule)) rule).
Proof.
  intros Ht Hd Hr Hget. eapply applies_since; [exact Hd|..]; intros Hn; unfold or_old; rewrite Hn; [|done].
  by apply applies_item.
Qed.

Lemma applies_flag recover t version msg (c : bool) set (get : HeadlessOptions → bool) d :
  (0 <= t < 255)%Z → write_since version 3 msg c [u8 t] = Ok d →
  (∀ last rule, read_item recover t last rule = rret (set true rule)) → (∀ rule, set (get rule) rule = rule) →
  applies recover d (λ rule, set (c || get rule) rule).
Proof.
  intros Ht Hd Hr Hget. eapply applies_since; [exact Hd|..]; intros ->; [|done].
  apply applies_item; [done|]. intros last rule rest. by rewrite Hr.
Qed.

Lemma default_items_apply recover version o :
  wf_options o →
  Forall2 (λ w f, ∀ c, w = Ok c → applies recover c f) (default_items o version) (changes recover version o).
Proof.
  intros [Hp Hs Hsets [Ht Htu] He Hd]. unfold default_items, changes.
  repeat (apply Forall_cons in Hp as [[? ?] Hp]). repeat (apply Forall_cons in Hs as [? Hs]).
  repeat (apply Forall_cons in Hsets as [? Hsets]).
  repeat (apply Forall2_cons; split); [..|by apply Forall2_nil]; intros c Hc.
  all: try (eapply applies_ports; [|..|exact Hc| |]; (lia || done || by intros [])).
  all: try (eapply applies_strings; [|..|exact Hc| |]; (lia || done || by intros [])).
  all: try (eapply applies_cidrs; [|..|exact Hc| |]; (lia || done || by intros [])).
  all: try by eapply applies_domain.
  all: try by eapply applies_adguard.
  all: try (eapply applies_flag; [|exact Hc| |]; (lia || done || by intros [])).
  all: eapply applies_versioned; [|exact Hc| |by intros []]; [vm_compute; by split|]; intros last rule rest.
  - destruct (readRuleItemUint8_written ruleItemNetworkType (h_NetworkType o) rest Ht Htu) as (b & [= <-] & Hr).
    change (read_item recover ruleItemNetworkType last rule) with (let! v := readRuleItemUint8 in rret (set_NetworkType v rule)).
    by erewrite rbind_step by exact Hr.
  - change (read_item recover ruleItemNetworkInterfaceAddress last rule)
      with (let! v := read_entries in rret (set_NetworkInterfaceAddress v rule)).
    rewrite <-app_assoc. by erewrite rbind_step by by apply read_entries_written.
  - change (read_item recover ruleItemDefaultInterfaceAddress last rule)
      with (let! v := read_prefixes in rret (set_DefaultInterfaceAddress v rule)).
    by erewrite rbind_step by by apply read_prefixes_written.
Qed.

Lemma readDefaultRule_written recover version o b rest :
  wf_options o → writeDefaultRule o version = Ok b →
  ∃ b', b = u8 0 :: b' ∧ readDefaultRule recover (b' ++ rest) = Ok (compiled recover version o, rest).
Proof.
  intros Hwf Hb. unfold writeDefaultRule in Hb. destruct (concat_results (default_items o version)) as [items|] eqn:Hi; [|done].
  cbn [result_bind] in Hb. simplify_eq. eexists. split; [done|]. unfold readDefaultRule. rewrite <-app_assoc.
  destruct (applies_concat recover _ _ items Hi (default_items_apply recover version o Hwf)
              (S (length (items ++ (u8 ruleItemFinal :: write_bool (h_Invert o)) ++ rest))) 0%Z no_options
              ((u8 ruleItemFinal :: write_bool (h_Invert o)) ++ rest)) as (fuel & last & Hl & ->); [lia|].
  destruct fuel as [|fuel]; [lia|]. cbn [app read_items write_bool]. erewrite rbind_step; [|done].
  rewrite decide_True by (by rewrite val_u8_small). erewrite rbind_step; [|done]. unfold rret.
  rewrite <-changes_compiled. do 3 f_equal. by destruct (h_Invert o).
Qed.

(** ** All rules *)

(** Rules of the two types the format has, with values that fit. *)
Inductive wf_rule : HeadlessRuleOptions → Prop :=
| wf_default o l : wf_options o → wf_rule (mkHeadlessRuleOptions "default" o l)
| wf_logical o l :
    small sizeof_HeadlessRule (lh_Rules _ l) → Forall wf_rule (lh_Rules _ l) → wf_rule (mkHeadlessRuleOptions "logical" o l).

Fixpoint compiled_rule (recover : bool) (version : Z) (r : HeadlessRuleOptions) : HeadlessRuleOptions :=
  match r with
  | mkHeadlessRuleOptions type o l =>
      if decide (type = "default") then mkHeadlessRuleOptions "default" (compiled recover version o) no_logical
      else mkHeadlessRuleOptions "logical" no_options
             (mkLogicalHeadless _ (lh_Mode _ l) (map (compiled_rule recover version) (lh_Rules _ l)) (lh_Invert _ l))
  end.

(** Reading a written list of rules, given how one rule is read. *)
Lemma concat_rules_written version rules body :
  concat_results (map (λ r, writeRule r version) rules) = Ok body →
  ∃ w, body = (rules ≫= w) ∧ ∀ r, r ∈ rules → writeRule r version = Ok (w r).
Proof.
  intros Hb. exists (λ r, match writeRule r version with Ok b => b | Err _ => [] end). revert body Hb.
  induction rules as [|r rules IH]; intros body Hb; cbn [map concat_results] in Hb.
  { simplify_eq. split; [done|]. by intros r ?%elem_of_nil. }
  destruct (writeRule r version) as [b|] eqn:Hr; [|done]. cbn [result_bind] in Hb.
  destruct (concat_results (map (λ r, writeRule r version) rules)) as [rest|]; [|done]. cbn [result_bind] in Hb.
  simplify_eq. destruct (IH rest eq_refl) as [Hrest Hall]. split.
  - cbn [mbind list_bind]. rewrite Hr. f_equal. exact Hrest.
  - intros r' [->|Hr']%elem_of_cons; [by rewrite Hr|by apply Hall].
Qed.

Lemma with_cause_ok {A} msg (r : reader A) s a s' : r s = Ok (a, s') → with_cause msg r s = Ok (a, s').
Proof. unfold with_cause. by intros ->. Qed.

Lemma writeRule_nonempty r version b : writeRule r version = Ok b → b ≠ [].
Proof.
  destruct r as [type o l]. cbn [writeRule]; unfold writeLogicalRule. case_decide; [|case_decide; [|done]].
  - unfold writeDefaultRule. intros Hb. inv_bind Hb. by simplify_eq.
  - intros Hb. inv_bind Hb. inv_bind Hb. by simplify_eq.
Qed.

Lemma length_part {A B} (w : A → list B) xs x : x ∈ xs → length (w x) <= length (xs ≫= w).
Proof.
  induction 1 as [|x y xs _ IH]; cbn [mbind list_bind]; rewrite length_app; [lia|]. fold (xs ≫= w). lia.
Qed.

Lemma read_rules_written recover version rules body msg (rd : reader HeadlessRuleOptions) rest :
  concat_results (map (λ r, writeRule r version) rules) = Ok body →
  (∀ r b rest, r ∈ rules → writeRule r version = Ok b → length b <= length body →
     rd (b ++ rest) = Ok (compiled_rule recover version r, rest)) →
  read_list (λ i, with_cause (msg i) rd) (Z.of_nat (length rules)) (body ++ rest)
  = Ok (map (compiled_rule recover version) rules, rest).
Proof.
  intros Hb Hrd. destruct (concat_rules_written version rules body Hb) as (w & -> & Hw).
  apply (read_list_written _ w (compiled_rule recover version)).
  - intros r Hr. eapply writeRule_nonempty. by apply Hw.
  - intros i r rest' Hr. apply with_cause_ok. apply Hrd; [done|by apply Hw|by apply length_part].
Qed.

Lemma write_mode_written mode b rest :
  write_mode mode = Ok b →
  ∃ x, b = [x] ∧
    (if decide (val x = 0)%Z then rret LogicalTypeAnd
     else if decide (val x = 1)%Z then rret LogicalTypeOr
     else rfail (ENew ("unknown logical mode: " +:+ pretty (val x)))) rest = Ok (mode, rest).
Proof. unfold write_mode. intros Hb. repeat case_decide; simplify_eq; by eexists. Qed.

Lemma readRule_written recover version fuel r b rest :
  wf_rule r → writeRule r version = Ok b → length b <= fuel →
  readRule recover fuel (b ++ rest) = Ok (compiled_rule recover version r, rest).
Proof.
  revert r b rest. induction fuel as [|fuel IH]; intros r b rest Hwf Hb Hl.
  { apply writeRule_nonempty in Hb. destruct b; [done|]. cbn in Hl. lia. }
  destruct Hwf as [o l Ho|o l Hsmall Hall]; cbn [writeRule] in Hb; unfold writeLogicalRule in Hb.
  - rewrite decide_True in Hb by done. destruct (readDefaultRule_written recover version o b rest Ho Hb) as (b' & -> & Hr).
    cbn [readRule app]. erewrite rbind_step; [|done]. rewrite decide_True by done. by erewrite rbind_step by exact Hr.
  - rewrite decide_False, decide_True in Hb by done. destruct (write_mode (lh_Mode _ l)) as [mode|] eqn:Hm; [|done].
    cbn [result_bind] in Hb. destruct (concat_results _) as [rules|] eqn:Hrules; [|done]. cbn [result_bind] in Hb. simplify_eq.
    destruct (write_mode_written (lh_Mode _ l) mode (PutUvarint (Z.of_nat (length (lh_Rules _ l))) ++ rules ++ write_bool (lh_Invert _ l) ++ rest) Hm)
      as (x & -> & Hx).
    cbn [readRule app]. erewrite rbind_step; [|done]. rewrite decide_False, decide_True by done.
    erewrite rbind_step; [done|]. unfold readLogicalRule. erewrite rbind_step; [|done]. rewrite <-!app_assoc.
    erewrite rbind_step by exact Hx.
    pose proof sizeof_positive as Hsz. erewrite rbind_step by (apply ReadUvarint_PutUvarint, (small_uvarint sizeof_HeadlessRule); [lia|done]).
    erewrite rbind_step by by apply make_slice_small. erewrite rbind_step.
    2:{ apply (read_rules_written recover version _ rules (λ i, "read logical rule [" +:+ pretty i +:+ "]")); [exact Hrules|].
        intros r b rest' Hr Hb Hlb. apply IH; [by eapply Forall_forall in Hall|done|].
        cbn [app length] in Hl. rewrite !length_app in Hl. lia. }
    cbn [app write_bool]. erewrite rbind_step; [|done]. unfold rret. cbn [compiled_rule].
    by destruct (lh_Invert _ l).
Qed.

Lemma srs_read_back recover version rules file :
  (1 <= version <= RuleSetVersionCurrent)%Z → Forall wf_rule rules → small sizeof_HeadlessRule rules →
  Write rules version = Ok file →
  Read recover file = Ok (version, map (compiled_rule recover version) rules).
Proof.
  intros Hv Hall Hsmall Hw. unfold Write in Hw. unfold RuleSetVersionCurrent in Hv.
  destruct (concat_results _) as [body|] eqn:Hb; [|done]. cbn [result_bind] in Hw. simplify_eq.
  unfold Read.
  match goal with |- context [read_full 3 (_ :: _ :: _ :: ?r)] => change (read_full 3 _) with (read_full (length MagicBytes) (MagicBytes ++ r)) end.
  rewrite read_full_app, decide_False by (intros Hn; by apply Hn). cbn [app read_byte]. rewrite val_u8_small by lia. unfold RuleSetVersionCurrent. rewrite decide_False by lia.
  rewrite zlib_roundtrip. cbn [result_bind]. pose proof sizeof_positive as Hsz.
  erewrite rbind_step by (apply ReadUvarint_PutUvarint, (small_uvarint sizeof_HeadlessRule); [lia|done]).
  erewrite rbind_step by by apply make_slice_small. rewrite <-(app_nil_r body).
  rewrite (read_rules_written recover version rules body (λ i, "read rule[" +:+ pretty i +:+ "]")); [done|done|].
  intros r b rest Hr Hb' _. apply readRule_written; [by eapply Forall_forall in Hall|done|]. rewrite length_app. lia.
Qed.
(** A rule set that is written in a version of the format is read back:
    the version, the number and the order of the rules, every condition of every
    rule, however deeply nested, with the domain and address lists compiled to
    the matchers and sets built from them (and listed again from those when
    recovery is asked for). *)
Lemma srs_roundtrip recover version rules file :
  (1 <= version <= RuleSetVersionCurrent)%Z → Forall wf_rule rules → small sizeof_HeadlessRule rules →
  Write rules version = Ok file →
  Read recover file = Ok (version, map (compiled_rule recover version) rules).
Proof. apply srs_read_back. Qed.
End srs.

(** ** Reading a binary rule set ends

    Readers of the file format make progress: the loops over items and rules
    stop at the latest when the bytes are used up, on every input. *)

(** On fewer than [n] bytes, [r] takes [k] bytes at least or fails, and does not
    run out of fuel. *)
Definition progress {A} (n k : nat) (r : reader A) : Prop :=
  ∀ s, length s < n → match r s with Ok (_, s') => length s' + k <= length s | Err e => e ≠ out_of_fuel end.

(** The readers of matchers end and do not put bytes back. *)
Class SrsReaders `{SrsEnv} := {
  ReadMatcher_progress n : progress n 0 ReadMatcher;
  ReadAdGuard_progress n : progress n 0 ReadAdGuardMatcher;
  NewReader_no_fuel b : zlib_NewReader b ≠ Err out_of_fuel;
}.

Section total.
Context `{SrsEnv} {HR : SrsReaders} `{SingAddr}.
Create HintDb progress.

Lemma progress_less {A} n n' k k' (r : reader A) : progress n k r → n' <= n → k' <= k → progress n' k' r.
Proof. intros Hr Hn Hk s Hs. specialize (Hr s ltac:(lia)). destruct (r s) as [[a s']|]; [lia|done]. Qed.

Lemma progress_bind {A B} n k1 k2 (r : reader A) (f : A → reader B) :
  progress n k1 r → (∀ a, progress (n - k1) k2 (f a)) → progress n (k1 + k2) (rbind r f).
Proof.
  intros Hr Hf s Hs. unfold rbind. specialize (Hr s Hs). destruct (r s) as [[a s']|]; [|done].
  specialize (Hf a s' ltac:(lia)). destruct (f a s') as [[b s'']|]; [lia|done].
Qed.

(** The first part takes the bytes. *)
Lemma progress_first {A B} n k (r : reader A) (f : A → reader B) :
  progress n k r → (∀ a, progress n 0 (f a)) → progress n k (rbind r f).
Proof.
  intros Hr Hf. rewrite <-(Nat.add_0_r k). apply progress_bind; [done|]. intros a. eapply progress_less; [apply Hf|lia..].
Qed.

Lemma progress_ret {A} n (a : A) : progress n 0 (rret a).
Proof. intros s Hs. cbn. lia. Qed.
Lemma progress_fail {A} n k e : e ≠ out_of_fuel → progress n k (rfail (A := A) e).
Proof. by intros He s _. Qed.
Lemma progress_byte n : progress n 1 read_byte.
Proof. intros [|b s] _; cbn; [done|lia]. Qed.
Lemma progress_full n m : progress n 0 (read_full m).
Proof. intros s _. unfold read_full. repeat case_decide; [|done..]. rewrite length_drop. lia. Qed.
Lemma progress_read_uvarint n fuel i x z : progress n 1 (read_uvarint fuel i x z).
Proof.
  revert i x z. induction fuel as [|fuel IH]; intros i x z s Hs; [done|].
  cbn [read_uvarint]. destruct s as [|b s]; [by case_decide|]. case_decide; [case_decide; cbn; [done|lia]|].
  specialize (IH (S i) (Z.lor x (Z.shiftl (Z.land (val b) 127) z)) (z + 7)%Z s ltac:(cbn in Hs; lia)).
  destruct (read_uvarint _ _ _ _ s) as [[a s']|]; [cbn; lia|done].
Qed.
Lemma progress_uvarint n : progress n 1 ReadUvarint.
Proof. apply progress_read_uvarint. Qed.
Lemma progress_slice n size m : progress n 0 (make_slice size m).
Proof. unfold make_slice. case_decide; [apply progress_ret|by apply progress_fail]. Qed.
#[local] Hint Resolve progress_first progress_ret progress_fail progress_byte progress_full progress_uvarint progress_slice : progress.

Lemma progress_field n : progress n 1 read_field.
Proof.
  unfold read_field. apply progress_first; [apply progress_uvarint|]. intros m. apply progress_first; auto with progress.
  unfold make_bytes. case_decide; [apply progress_ret|by apply progress_fail].
Qed.

Lemma progress_cause {A} n k msg (r : reader A) : progress n k r → progress n k (with_cause msg r).
Proof. intros Hr s Hs. unfold with_cause. specialize (Hr s Hs). by destruct (r s) as [[a s']|[]]. Qed.

(** A loop whose elements take a byte each. *)
Lemma progress_many {A} (r : Z → reader A) fuel i n :
  (∀ i, progress fuel 1 (r i)) → progress fuel 0 (read_many r fuel i n).
Proof.
  revert i. induction fuel as [|fuel IH]; intros i Hr; cbn [read_many]; (case_decide; [apply progress_ret|]).
  { intros s Hs. lia. }
  apply (progress_less (S fuel) _ (1 + 0) 0); [|lia..]. apply progress_bind; [apply Hr|]. intros a. cbn [Nat.sub]. rewrite Nat.sub_0_r.
  apply progress_first; auto with progress. apply IH. intros j. eapply progress_less; [apply Hr|lia..].
Qed.

Lemma progress_list {A} (r : Z → reader A) n m : (∀ i, progress n 1 (r i)) → progress n 0 (read_list r m).
Proof.
  intros Hr s Hs. unfold read_list. apply (progress_many r (S (length s)) 0 m); [|lia].
  intros i. eapply progress_less; [apply Hr|lia..].
Qed.
#[local] Hint Resolve progress_field progress_cause progress_list : progress.

Lemma progress_weak {A} n (r : reader A) : progress n 1 r → progress n 0 r.
Proof. intros Hr. eapply progress_less; [exact Hr|lia..]. Qed.
#[local] Hint Resolve progress_weak : progress.
Ltac solve_progress :=
  repeat lazymatch goal with
  | |- progress _ _ (rbind _ _) => apply progress_first
  | |- progress _ _ (read_list _ _) => apply progress_list
  | |- progress _ _ (with_cause _ _) => apply progress_cause
  | |- ∀ _, _ => intros ?
  end; eauto 3 with progress.

(** ** Items *)

Lemma progress_prefixes n : progress n 1 read_prefixes.
Proof. unfold read_prefixes, readPrefix. solve_progress. Qed.
Lemma progress_ipset n : progress n 1 readIPSet.
Proof. unfold readIPSet, read_range. apply progress_first; [apply progress_byte|]. intros v. case_decide; [by apply progress_fail|]. solve_progress. Qed.
Lemma progress_strings n : progress n 1 readRuleItemString.
Proof. unfold readRuleItemString, read_string. solve_progress. Qed.
#[local] Hint Resolve progress_prefixes progress_ipset progress_strings : progress.

Lemma progress_item n recover t last rule : progress n 0 (read_item recover t last rule).
Proof using HR.
  unfold read_item, readRuleItemUint8, readRuleItemUint16, read_entries, read_entry.
  repeat case_decide; solve_progress; try apply ReadMatcher_progress; try apply ReadAdGuard_progress; try by apply progress_fail.
  case_match. solve_progress.
Qed.

Lemma progress_items recover fuel last rule : progress fuel 2 (read_items recover fuel last rule).
Proof using HR.
  revert last rule. induction fuel as [|fuel IH]; intros last rule; cbn [read_items]; [intros s Hs; lia|].
  apply (progress_bind _ 1 1); [apply progress_byte|]. intros t. cbn [Nat.sub]. rewrite Nat.sub_0_r. case_decide; [solve_progress|].
  apply (progress_bind _ 0 1); [apply progress_item|]. intros rule'. rewrite Nat.sub_0_r. eapply progress_less; [apply IH|lia..].
Qed.

Lemma progress_default n recover : progress n 2 (readDefaultRule recover).
Proof using HR. intros s _. apply progress_items. lia. Qed.

(** ** Rules *)

Lemma progress_rule recover fuel : progress fuel 1 (readRule recover fuel).
Proof using HR.
  induction fuel as [|fuel IH]; cbn [readRule]; [intros s Hs; lia|].
  apply (progress_bind _ 1 0); [apply progress_byte|]. intros t. cbn [Nat.sub]. rewrite Nat.sub_0_r.
  case_decide; [|case_decide; [|by apply progress_fail]].
  - apply progress_first; [|intros; apply progress_ret]. eapply progress_less; [apply (progress_default fuel)|lia..].
  - apply progress_first; [|intros; apply progress_ret]. unfold readLogicalRule. solve_progress.
    repeat case_decide; solve_progress; by apply progress_fail.
Qed.

(** C35: Reading a rule set ends on every input: whatever the bytes of the file,
    the loops over its rules, their items and the elements of the items do not
    take more turns than there are bytes. *)
Theorem srs_read_terminates recover file : Read recover file ≠ Err out_of_fuel.
Proof using HR.
  unfold Read. destruct (read_full 3 file) as [[magic rest]|e] eqn:Hm.
  2:{ pose proof (progress_full (S (length file)) 3 file ltac:(lia)) as Hp. rewrite Hm in Hp. congruence. }
  case_decide; [done|]. destruct rest as [|version rest]; cbn [read_byte]; [done|]. case_decide; [done|].
  pose proof (NewReader_no_fuel rest) as Hz. destruct (zlib_NewReader rest) as [stream|]; cbn [result_bind]; [|congruence].
  set (r := rbind ReadUvarint _). assert (progress (S (length stream)) 1 r) as Hr.
  { unfold r. solve_progress. intros s Hs. apply progress_rule. lia. }
  specialize (Hr stream ltac:(lia)). destruct (r stream) as [[]|]; cbn [result_bind]; congruence.
Qed.
End total.
