(* ===== verification/SrsMeaning.v ===== *)
(** * A compiled rule set decides like its source

    Rules built from what is read back match exactly the connections the rules
    built from the written options match. *)
From S2P Require Import Prelude Bytes MatchState RuleItems Netip Rules RuleAction RuleBuild Srs SrsProps SrsRoundtrip.

Lemma filter_ext_states f g s : (∀ st, f st = g st) → StateSet.filter f s = StateSet.filter g s.
Proof.
  intros Hfg. unfold StateSet.filter. generalize 0%Z. generalize StateSet.states. intros l.
  induction l as [|st l IH]; intros acc; [done|]. cbn [foldl]. by rewrite Hfg.
Qed.

Section meaning.
Context `{SrsLaws} `{SingAddr} `{ActionEnv} (rt : Runtime).
Notation D := (abstractDefaultRule RuleAction (Rule RuleAction)).

(** ** Rules that match alike *)

Definition same_item (i i' : Item) : Prop := ∀ md, Item_Match rt i md = Item_Match rt i' md.

Record same_default (d d' : D) : Prop := {
  sd_items : Forall2 same_item (items d) (items d');
  sd_sourceAddress : Forall2 same_item (sourceAddressItems d) (sourceAddressItems d');
  sd_sourcePort : Forall2 same_item (sourcePortItems d) (sourcePortItems d');
  sd_destinationAddress : Forall2 same_item (destinationAddressItems d) (destinationAddressItems d');
  sd_destinationIPCIDR : Forall2 same_item (destinationIPCIDRItems d) (destinationIPCIDRItems d');
  sd_destinationPort : Forall2 same_item (destinationPortItems d) (destinationPortItems d');
  sd_all : length (allItems d) = length (allItems d');
  sd_ruleSet : ruleSetItem d = ruleSetItem d';
  sd_invert : invert d = invert d';
}.

#[local] Instance same_item_refl : Reflexive same_item.
Proof. by intros i md. Qed.

Lemma same_default_refl d : same_default d d.
Proof. split; done || by apply Forall_Forall2_diag, Forall_true. Qed.

Lemma same_any l l' md : Forall2 same_item l l' → matchAnyItem rt l md = matchAnyItem rt l' md.
Proof. unfold matchAnyItem. induction 1 as [|i i' l l' Hi _ IH]; [done|]. cbn. by rewrite (Hi md), IH. Qed.

Lemma same_try l l' flag p : Forall2 same_item l l' → try_group rt l flag p = try_group rt l' flag p.
Proof. intros Hl. unfold try_group. destruct p. by rewrite (same_any l l'). Qed.

Lemma same_group l l' flag p : Forall2 same_item l l' → group rt l flag p = group rt l' flag p.
Proof. intros Hl. unfold group. by rewrite (Forall2_length _ _ _ Hl), (same_try l l'). Qed.

Lemma same_match_items l l' md : Forall2 same_item l l' → match_items rt l md = match_items rt l' md.
Proof.
  intros Hl. revert md. induction Hl as [|i i' l l' Hi _ IH]; intros md; [done|]. cbn [match_items].
  rewrite (Hi (set_DidMatch true md)). by destruct (Item_Match rt i' _).
Qed.

Lemma same_default_matches matchSet d d' md base :
  same_default d d' →
  default_matchStatesWithBase rt matchSet d md base = default_matchStatesWithBase rt matchSet d' md base.
Proof.
  intros [Hi Hsa Hsp Hda Hdc Hdp Hall Hrs Hinv].
  assert (∀ md b, base_state rt d md b = base_state rt d' md b) as Hbase.
  { intros m b. unfold base_state, ipcidr_group, destinationIPCIDRMatchesSource, destinationIPCIDRMatchesDestination.
    rewrite (Forall2_length _ _ _ Hdc). repeat rewrite (same_group (sourceAddressItems d) _ _ _ Hsa).
    repeat rewrite (same_try (destinationIPCIDRItems d) _ _ _ Hdc). repeat rewrite (same_group (sourcePortItems d) _ _ _ Hsp).
    repeat rewrite (same_group (destinationAddressItems d) _ _ _ Hda).
    by repeat rewrite (same_group (destinationPortItems d) _ _ _ Hdp). }
  assert (∀ md st, accepted d md st = accepted d' md st) as Hacc.
  { intros m st. unfold accepted, requiresSourceAddressMatch, requiresDestinationAddressMatch,
      destinationIPCIDRMatchesSource, destinationIPCIDRMatchesDestination.
    by rewrite (Forall2_length _ _ _ Hsa), (Forall2_length _ _ _ Hsp), (Forall2_length _ _ _ Hda), (Forall2_length _ _ _ Hdc), (Forall2_length _ _ _ Hdp). }
  unfold default_matchStatesWithBase, invertedFailure. rewrite Hall, Hinv, Hbase, Hrs, (Forall2_length _ _ _ Hdc).
  case_decide; [done|]. destruct (base_state rt d' md _) as [md1 st]. rewrite (same_match_items _ _ md1 Hi).
  destruct (match_items rt (items d') md1) as [md2 []]; [|done]. cbn [negb].
  destruct (ruleSetItem d'); cbn; by rewrite (filter_ext_states _ _ _ (Hacc _)).
Qed.

(** ** Building alike *)

Definition respects (add : Item → D → D) : Prop :=
  ∀ i i' d d', same_item i i' → same_default d d' → same_default (add i d) (add i' d').

Lemma adders_respect :
  respects add_item ∧ respects add_sourceAddress ∧ respects add_sourcePort ∧ respects add_destinationAddress ∧
  respects add_destinationIPCIDR ∧ respects add_destinationPort.
Proof.
  repeat split; cbn; try apply Forall2_app; try (by repeat constructor); rewrite ?length_app; cbn;
    match goal with Hs : same_default _ _ |- _ => destruct Hs; (done || lia) end.
Qed.

Lemma when_some_same {X} (xs : list X) add new d d' :
  respects add → same_default d d' → same_default (when_some xs add new d) (when_some xs add new d').
Proof. intros Ha Hs. unfold when_some. destruct xs; [done|]. by apply Ha. Qed.

Lemma when_same b add i d d' : respects add → same_default d d' → same_default (when b add i d) (when b add i d').
Proof. intros Ha Hs. unfold when. destruct b; [|done]. by apply Ha. Qed.

Lemma when_some_err_same {X} (xs : list X) add new wrap d d' e :
  respects add → same_default d d' → when_some_err xs add new wrap d = Ok e →
  ∃ e', when_some_err xs add new wrap d' = Ok e' ∧ same_default e e'.
Proof.
  intros Ha Hs He. unfold when_some_err in *. destruct xs as [|x xs]; [simplify_eq; eauto|].
  destruct (new (x :: xs)) as [i|]; simplify_eq. eexists. split; [done|]. by apply Ha.
Qed.

(** Options as they are written by hand: nothing is compiled yet. *)
Definition source (o : HeadlessOptions) : Prop :=
  h_DomainMatcher o = None ∧ h_SourceIPSet o = None ∧ h_IPSet o = None ∧ h_AdGuardDomainMatcher o = None.

Lemma headless_domain_same version o d d' e :
  source o → version ≠ 1%Z → same_default d d' → headless_domain o d = Ok e →
  ∃ e', headless_domain (compiled false version o) d' = Ok e' ∧ same_default e e'.
Proof.
  intros (Hdm & _) Hv Hs He. destruct adders_respect as (Hi & _ & _ & Hda & _).
  unfold headless_domain in *. cbn [compiled h_QueryType h_Network h_Domain h_DomainSuffix h_DomainMatcher h_DomainKeyword h_DomainRegex length].
  set (d1 := when_some (h_Network o) add_item NewNetworkItem (when_some (h_QueryType o) add_item NewQueryTypeItem d)) in *.
  set (d1' := when_some (h_Network o) add_item NewNetworkItem (when_some (h_QueryType o) add_item NewQueryTypeItem d')).
  assert (same_default d1 d1') as Hs1 by by repeat apply when_some_same.
  unfold domain_matcher. destruct (nonempty (h_Domain o) || nonempty (h_DomainSuffix o)) eqn:Hn.
  - assert (bool_decide (0 < length (h_Domain o)) || bool_decide (0 < length (h_DomainSuffix o)) = true) as Hlen.
    { destruct (h_Domain o), (h_DomainSuffix o); cbn in *; done || by rewrite ?orb_true_r. }
    rewrite Hlen in He. cbn [orb]. rewrite !bool_decide_false by lia. cbn [orb when_matcher result_bind].
    inv_bind He. destruct (NewDomainItem (h_Domain o) (h_DomainSuffix o)) as [i|] eqn:Hi'; cbn [result_bind] in *; [|done]. simplify_eq.
    eapply when_some_err_same; [done| |exact He]. apply when_some_same; [done|]. apply Hda; [|done].
    unfold NewDomainItem in Hi'. repeat case_bool_decide; simplify_eq; by intros md.
  - assert (bool_decide (0 < length (h_Domain o)) || bool_decide (0 < length (h_DomainSuffix o)) = false) as Hlen.
    { destruct (h_Domain o), (h_DomainSuffix o); cbn in *; done. }
    rewrite Hlen, Hdm in He. rewrite !bool_decide_false by lia. cbn [orb when_matcher result_bind] in *.
    eapply when_some_err_same; [done| |exact He]. by apply when_some_same.
Qed.

(** Address items of the source, compiled. *)
Lemma cidr_same add wrap isSource value set d d' e :
  respects add → same_default d d' →
  match value with [] => Ok (when_matcher set add (NewRawIPCIDRItem isSource) d)
                 | x :: xs => when_some_err (x :: xs) add (NewIPCIDRItem isSource) wrap d end = Ok e → set = None →
  same_default e (when_matcher (cidr_set value) add (NewRawIPCIDRItem isSource) d').
Proof.
  intros Ha Hs He ->. destruct value as [|x value]; cbn [when_matcher cidr_set] in *; [by simplify_eq|].
  unfold when_some_err, NewIPCIDRItem in He. destruct (parse_cidrs 0 (x :: value) []) as [added|]; cbn [result_bind] in *; [|done].
  destruct (IPSetBuilder_IPSet added) as [s|]; cbn [result_bind] in *; [|done]. simplify_eq. by apply Ha.
Qed.

Lemma headless_address_same version o d d' e :
  source o → same_default d d' → headless_address o d = Ok e →
  ∃ e', headless_address (compiled false version o) d' = Ok e' ∧ same_default e e'.
Proof.
  intros (_ & Hs4 & Hs6 & _) Hs He. destruct adders_respect as (_ & Hsa & _ & _ & Hdc & _).
  unfold headless_address in *. inv_bind He. cbn [compiled h_SourceIPCIDR h_SourceIPSet h_IPCIDR h_IPSet result_bind].
  eexists. split; [done|]. eapply (cidr_same _ _ false (h_IPCIDR o)); [done| |exact He|done].
  eapply (cidr_same _ _ true (h_SourceIPCIDR o)); [done|exact Hs|exact E|done].
Qed.

Lemma headless_ports_same version o d d' e :
  same_default d d' → headless_ports o d = Ok e →
  ∃ e', headless_ports (compiled false version o) d' = Ok e' ∧ same_default e e'.
Proof.
  intros Hs He. destruct adders_respect as (Hi & _ & Hsp & _ & _ & Hdp).
  unfold headless_ports in *. cbn [compiled h_SourcePort h_SourcePortRange h_Port h_PortRange h_ProcessName h_ProcessPath h_ProcessPathRegex h_PackageName].
  inv_bind He. destruct (when_some_err_same _ _ _ _ _ (when_some (h_SourcePort o) add_sourcePort (NewPortItem true) d') _ Hsp ltac:(by apply when_some_same) E) as (e1 & -> & Hs1).
  cbn [result_bind]. inv_bind He.
  destruct (when_some_err_same _ _ _ _ _ (when_some (h_Port o) add_destinationPort (NewPortItem false) e1) _ Hdp ltac:(by apply when_some_same) E0) as (e2 & -> & Hs2).
  cbn [result_bind]. inv_bind He.
  destruct (when_some_err_same _ _ _ _ _ (when_some (h_ProcessPath o) add_item NewProcessPathItem (when_some (h_ProcessName o) add_item NewProcessItem e2)) _ Hi
              ltac:(by repeat apply when_some_same) E1) as (e3 & -> & Hs3).
  simplify_eq. eexists. split; [done|]. by apply when_some_same.
Qed.

Lemma NewDefaultHeadlessRule_same nm version o d :
  source o → version ≠ 1%Z → NewDefaultHeadlessRule nm o = Ok d →
  ∃ d', NewDefaultHeadlessRule nm (compiled false version o) = Ok d' ∧ same_default d d'.
Proof.
  intros Hsrc Hv Hd. destruct adders_respect as (Hi & _ & _ & Hda & _). unfold NewDefaultHeadlessRule in *.
  inv_bind Hd. change (h_Invert (compiled false version o)) with (h_Invert o).
  destruct (headless_domain_same version o _ _ _ Hsrc Hv (same_default_refl _) E) as (e1 & -> & Hs1). cbn [result_bind].
  inv_bind Hd. destruct (headless_address_same version o _ _ _ Hsrc Hs1 E0) as (e2 & -> & Hs2). cbn [result_bind].
  inv_bind Hd. destruct (headless_ports_same version o _ _ _ Hs2 E1) as (e3 & -> & Hs3). cbn [result_bind].
  simplify_eq. eexists. split; [done|].
  assert (same_default (headless_network nm o a1) (headless_network nm (compiled false version o) e3)) as Hnet.
  { unfold headless_network. destruct nm; [|done]. cbn [compiled h_NetworkType h_NetworkIsExpensive h_NetworkIsConstrained h_WIFISSID h_WIFIBSSID h_NetworkInterfaceAddress h_DefaultInterfaceAddress].
    repeat first [apply when_some_same; [done|]|apply when_same; [done|]]. done. }
  destruct Hsrc as (_ & _ & _ & Hag). cbn [compiled h_AdGuardDomain h_AdGuardDomainMatcher]. unfold adguard_matcher.
  destruct (h_AdGuardDomain o) as [|x l]; [by rewrite Hag|]. cbn [when_matcher when_some]. by apply Hda.
Qed.

(** ** Rules of any depth *)

(** Induction over the nested rules. *)
Lemma headless_ind (P : HeadlessRuleOptions → Prop) :
  (∀ type o l, Forall P (lh_Rules _ l) → P (mkHeadlessRuleOptions type o l)) → ∀ r, P r.
Proof.
  intros Hstep. fix IH 1. intros [type o [mode rules inv]]. apply Hstep. cbn [lh_Rules].
  induction rules as [|r rules IHr]; constructor; [apply IH|exact IHr].
Qed.

(** [DefaultHeadlessRule.IsValid]: some field other than [Invert] is set. *)
Context (IsValid : HeadlessOptions → bool).
Context (IsValid_spec : ∀ o, IsValid o = false ↔ o = set_Invert (h_Invert o) no_options).

Lemma cidr_set_built isSource value i :
  NewIPCIDRItem isSource value = Ok i → value ≠ [] → cidr_set value ≠ None.
Proof.
  unfold NewIPCIDRItem, cidr_set. intros Hi Hv. destruct value as [|x l]; [done|].
  destruct (parse_cidrs 0 (x :: l) []); [|done]. cbn [result_bind] in *. by destruct (IPSetBuilder_IPSet _).
Qed.

Lemma built_sets nm o d :
  source o → NewDefaultHeadlessRule nm o = Ok d →
  (cidr_set (h_SourceIPCIDR o) = None → h_SourceIPCIDR o = []) ∧ (cidr_set (h_IPCIDR o) = None → h_IPCIDR o = []).
Proof.
  intros _ Hd. unfold NewDefaultHeadlessRule in Hd. inv_bind Hd. inv_bind Hd. unfold headless_address in E0. inv_bind E0.
  split; intros Hnone.
  - destruct (h_SourceIPCIDR o) as [|x l]; [done|]. unfold when_some_err in E1.
    destruct (NewIPCIDRItem true (x :: l)) as [i|] eqn:Hi; [|done]. by apply cidr_set_built in Hi.
  - destruct (h_IPCIDR o) as [|x l]; [done|]. unfold when_some_err in E0.
    destruct (NewIPCIDRItem false (x :: l)) as [i|] eqn:Hi; [|done]. by apply cidr_set_built in Hi.
Qed.

Lemma compiled_valid nm version o d :
  source o → NewDefaultHeadlessRule nm o = Ok d → IsValid o = true → IsValid (compiled false version o) = true.
Proof using IsValid_spec.
  intros Hsrc Hd Hv. destruct (IsValid (compiled false version o)) eqn:Hc; [done|]. exfalso.
  destruct (built_sets nm o d Hsrc Hd) as [Hs4 Hs6]. destruct Hsrc as (Hdm & Hi4 & Hi6 & Hag).
  apply IsValid_spec in Hc. assert (IsValid o = false) as Hf; [|congruence]. apply IsValid_spec.
  unfold compiled, domain_matcher, adguard_matcher in Hc. destruct o; cbn in *. unfold set_Invert, no_options in *. cbn in *.
  injection Hc as -> -> -> -> -> -> -> -> -> -> -> -> -> -> -> -> -> -> -> Hd0 H4 H6 Ha.
  rewrite (Hs4 H4), (Hs6 H6). subst.
  destruct h_Domain, h_DomainSuffix, h_AdGuardDomain; done.
Qed.

(** Two rules that give the same states for every connection. *)
Definition same_rule (R R' : Rule RuleAction) : Prop :=
  ∀ md base, matchStatesWithBase rt R' md base = matchStatesWithBase rt R md base.

Lemma merge_same rules rules' md base st :
  Forall2 same_rule rules rules' →
  foldl (λ stateSet rule, StateSet.merge stateSet (matchStatesWithBase rt rule md base).2) st rules'
  = foldl (λ stateSet rule, StateSet.merge stateSet (matchStatesWithBase rt rule md base).2) st rules.
Proof.
  intros Hall. revert st. induction Hall as [|R R' Rs Rs' HR _ IH]; intros st; [done|]. cbn [foldl]. by rewrite HR, IH.
Qed.

Lemma same_logical rules rules' mode inv act :
  Forall2 same_rule rules rules' → same_rule (LogicalRule rules mode inv act) (LogicalRule rules' mode inv act).
Proof.
  intros Hall md base. cbn [matchStatesWithBase]. unfold logical_matchStatesWithBase.
  assert (∀ b st, logical_and (matchStatesWithBase rt) rules' md b st = logical_and (matchStatesWithBase rt) rules md b st) as Hand.
  { intros b. induction Hall as [|R R' Rs Rs' HR _ IH]; intros st; [done|]. cbn [logical_and]. rewrite HR, IH. done. }
  unfold logical_or. rewrite Hand. by rewrite !(merge_same rules rules').
Qed.

(** Rules written by hand, at every depth. *)
Inductive source_rule : HeadlessRuleOptions → Prop :=
| source_default o l : source o → source_rule (mkHeadlessRuleOptions "default" o l)
| source_logical o l : Forall source_rule (lh_Rules _ l) → source_rule (mkHeadlessRuleOptions "logical" o l).

(** The check of all rules of a logical rule. *)
Notation all_valid := (fix all (rs : list HeadlessRuleOptions) : result bool :=
  match rs with [] => Ok true | r :: rs => let? b := HeadlessRule_IsValid IsValid r in if b then all rs else Ok false end).

Lemma all_valid_true rules : all_valid rules = Ok true ↔ Forall (λ r, HeadlessRule_IsValid IsValid r = Ok true) rules.
Proof.
  induction rules as [|r rules IH]; [done|]. rewrite Forall_cons, <-IH.
  destruct (HeadlessRule_IsValid IsValid r) as [[]|]; cbn [result_bind]; naive_solver.
Qed.

(** What is shown of a rule by induction on its depth. *)
Definition rebuilt (nm : bool) (version : Z) (r : HeadlessRuleOptions) : Prop :=
  ∀ R, source_rule r → NewHeadlessRule IsValid nm r = Ok R →
  (HeadlessRule_IsValid IsValid r = Ok true → HeadlessRule_IsValid IsValid (compiled_rule false version r) = Ok true) ∧
  ∃ R', NewHeadlessRule IsValid nm (compiled_rule false version r) = Ok R' ∧ same_rule R R'.

Lemma rebuilt_all nm version i rules Rs :
  Forall (rebuilt nm version) rules → Forall source_rule rules → build_all (NewHeadlessRule IsValid nm) i rules = Ok Rs →
  (Forall (λ r, HeadlessRule_IsValid IsValid r = Ok true) rules →
   Forall (λ r, HeadlessRule_IsValid IsValid r = Ok true) (map (compiled_rule false version) rules)) ∧
  ∃ Rs', build_all (NewHeadlessRule IsValid nm) i (map (compiled_rule false version) rules) = Ok Rs' ∧ Forall2 same_rule Rs Rs'.
Proof.
  intros Hall. revert i Rs. induction Hall as [|r rules Hr _ IH]; intros i Rs Hsrc Hb; cbn [build_all map] in *.
  { simplify_eq. split; [done|]. eauto. }
  apply Forall_cons in Hsrc as [Hs Hsrc]. destruct (NewHeadlessRule IsValid nm r) as [R|] eqn:HR; [|done].
  inv_bind Hb. simplify_eq. destruct (Hr R Hs HR) as [Hvalid (R' & -> & Hsame)].
  destruct (IH (S i) a Hsrc E) as [Hvalids (Rs' & -> & Hsames)]. cbn [result_bind]. split; [|eauto].
  intros [Hv Hvs]%Forall_cons. constructor; auto.
Qed.

Lemma rebuilt_rule nm version r : version ≠ 1%Z → rebuilt nm version r.
Proof using IsValid_spec.
  intros Hv. induction r as [type o l IH] using headless_ind. intros R Hsrc HR.
  inversion Hsrc as [? ? Ho|? ? Hl]; subst; cbn [compiled_rule]; rewrite ?decide_True, ?decide_False by done.
  - cbn [NewHeadlessRule HeadlessRule_IsValid] in *. rewrite !decide_True by done.
    change (bool_decide ("default" = "") || bool_decide ("default" = "default")) with true in *. cbn [orb negb] in *.
    destruct (IsValid o) eqn:Hval; [|done]. cbn [negb] in HR. inv_bind HR. simplify_eq.
    destruct (NewDefaultHeadlessRule_same nm version o a Ho Hv E) as (d' & Hd' & Hsame).
    assert (IsValid (compiled false version o) = true) as Hval' by by eapply compiled_valid.
    split; [by rewrite Hval'|]. rewrite Hval', Hd'. cbn [negb result_bind]. eexists. split; [done|].
    intros md base. cbn [matchStatesWithBase]. symmetry. by apply same_default_matches.
  - cbn [NewHeadlessRule HeadlessRule_IsValid] in *. rewrite !decide_False, !decide_True in * by done.
    change (bool_decide ("logical" = "") || bool_decide ("logical" = "default")) with false in *. cbn iota in *.
    inv_bind HR. destruct a; [|done]. cbn [negb] in HR. unfold NewLogicalHeadlessRule in *. cbn [lh_Mode lh_Rules lh_Invert].
    destruct (bool_decide (lh_Mode _ l = LogicalTypeAnd) || _) eqn:Hmode; [|done]. inv_bind HR. simplify_eq.
    destruct (rebuilt_all nm version 0 (lh_Rules _ l) a IH Hl E0) as [Hvalids (Rs' & Hb & Hsames)].
    unfold LogicalHeadlessRule_IsValid in *. cbn [lh_Rules].
    destruct (lh_Rules _ l) as [|r0 rs0] eqn:Hrules; [done|]. cbn [map] in *.
    change (all_valid (r0 :: rs0) = Ok true) in E. apply all_valid_true in E. specialize (Hvalids E). apply all_valid_true in Hvalids. split; [by intros _|].
    rewrite Hvalids. cbn [result_bind negb]. rewrite Hb. cbn [result_bind]. eexists. split; [done|]. by apply same_logical.
Qed.

(** ** Whole rule sets *)

Lemma build_all_elem {O R} (new : O → result R) i os Rs :
  build_all new i os = Ok Rs → Forall (λ o, ∃ R, new o = Ok R) os.
Proof.
  revert i Rs. induction os as [|o os IH]; intros i Rs Hb; cbn [build_all] in Hb; [done|].
  destruct (new o) eqn:Ho; [|done]. inv_bind Hb. constructor; eauto.
Qed.

(** A condition on the fields that compiling keeps. *)
Lemma HasHeadlessRule_same nm version cond r :
  (∀ o d, source o → NewDefaultHeadlessRule nm o = Ok d → cond (compiled false version o) = cond o) →
  ∀ R, source_rule r → NewHeadlessRule IsValid nm r = Ok R →
  HasHeadlessRule cond (compiled_rule false version r) = HasHeadlessRule cond r.
Proof.
  intros Hcond. induction r as [type o l IH] using headless_ind. intros R Hsrc HR.
  inversion Hsrc as [? ? Ho|? ? Hl]; subst; cbn [compiled_rule]; rewrite ?decide_True, ?decide_False by done;
    cbn [NewHeadlessRule HasHeadlessRule] in *.
  - rewrite !decide_True by done. change (bool_decide ("default" = "") || bool_decide ("default" = "default")) with true in *.
    destruct (IsValid o); [|done]. cbn [negb] in HR. inv_bind HR. by eapply Hcond.
  - rewrite !decide_False, !decide_True in * by done. cbn [lh_Rules].
    change (bool_decide ("logical" = "") || bool_decide ("logical" = "default")) with false in *. cbn iota in HR.
    inv_bind HR. destruct a; [|done]. cbn [negb] in HR. unfold NewLogicalHeadlessRule in HR.
    destruct (_ || _); [|done]. inv_bind HR. apply build_all_elem in E0. clear HR E Hsrc.
    induction IH as [|r rules Hr _ IHr]; [done|]. apply Forall_cons in Hl as [Hs Hl]. apply Forall_cons in E0 as [[R' HR'] E0].
    cbn [map]. rewrite (Hr R' Hs HR'). f_equal. by apply IHr.
Qed.

Lemma isIPCIDR_same nm version o d :
  source o → NewDefaultHeadlessRule nm o = Ok d → isIPCIDRHeadlessRule (compiled false version o) = isIPCIDRHeadlessRule o.
Proof.
  intros Hsrc Hd. destruct (built_sets nm o d Hsrc Hd) as [_ Hs]. destruct Hsrc as (_ & _ & Hi & _).
  unfold isIPCIDRHeadlessRule. cbn [compiled h_IPCIDR h_IPSet length]. rewrite Hi.
  destruct (cidr_set (h_IPCIDR o)) as [s|] eqn:Hc; [|by rewrite Hs].
  destruct (h_IPCIDR o) as [|x l]; [done|]. rewrite (bool_decide_true (is_Some (Some s))), (bool_decide_true (0 < length (x :: l))) by (eauto || cbn; lia).
  by destruct (bool_decide (0 < 0)).
Qed.

Lemma build_ruleset_same nm version i rules Rs :
  version ≠ 1%Z → Forall source_rule rules → build_ruleset IsValid nm i rules = Ok Rs →
  (∃ Rs', build_ruleset IsValid nm i (map (compiled_rule false version) rules) = Ok Rs' ∧ Forall2 same_rule Rs Rs') ∧
  Forall (λ r, ∃ R, NewHeadlessRule IsValid nm r = Ok R) rules.
Proof using IsValid_spec.
  intros Hv Hsrc. revert i Rs. induction Hsrc as [|r rules Hs _ IH]; intros i Rs Hb; cbn [build_ruleset map] in *.
  { simplify_eq. eauto. }
  destruct (NewHeadlessRule IsValid nm r) as [R|] eqn:HR; [|done]. inv_bind Hb. simplify_eq.
  destruct (rebuilt_rule nm version r Hv R Hs HR) as [_ (R' & -> & Hsame)]. destruct (IH (S i) a E) as [(Rs' & -> & Hsames) Hall].
  cbn [result_bind]. split; eauto.
Qed.

Lemma has_same nm version cond rules :
  (∀ o d, source o → NewDefaultHeadlessRule nm o = Ok d → cond (compiled false version o) = cond o) →
  Forall source_rule rules → Forall (λ r, ∃ R, NewHeadlessRule IsValid nm r = Ok R) rules →
  HasHeadlessRules (map (compiled_rule false version) rules) cond = HasHeadlessRules rules cond.
Proof.
  intros Hcond Hsrc Hall. unfold HasHeadlessRules. induction Hsrc as [|r rules Hs _ IH]; [done|].
  apply Forall_cons in Hall as [[R HR] Hall]. cbn [map existsb]. rewrite (HasHeadlessRule_same nm version cond r Hcond R Hs HR). by rewrite IH.
Qed.

(** C34: A rule set written by hand and the file it is compiled to, in version 2
    of the format or a later one, are the same rule set: when the source can be
    loaded, so can the file, with the same metadata, and the loaded rules match
    exactly the same connections. *)
Theorem srs_same_decisions nm version rules file s s1 :
  (2 <= version <= RuleSetVersionCurrent)%Z → Forall wf_rule rules → small sizeof_HeadlessRule rules →
  Forall source_rule rules → Write rules version = Ok file →
  reloadRules IsValid nm rules s = (s1, None) →
  ∃ rules' s2, Read false file = Ok (version, rules') ∧ reloadRules IsValid nm rules' s = (s2, None) ∧
    s2.2 = s1.2 ∧ ∀ md, RuleSet_Match rt s2.1 md = RuleSet_Match rt s1.1 md.
Proof using All.
  intros Hv Hwf Hsmall Hsrc Hw Hload. unfold reloadRules in Hload.
  destruct (build_ruleset IsValid nm 0 rules) as [Rs|] eqn:Hb; simplify_eq.
  destruct (build_ruleset_same nm version 0 rules Rs ltac:(lia) Hsrc Hb) as [(Rs' & Hb' & Hsame) Hall].
  exists (map (compiled_rule false version) rules). eexists. split; [apply (srs_read_back false version rules file); (done || lia)|].
  unfold reloadRules. rewrite Hb'. split; [done|]. cbn [fst snd]. split.
  - rewrite !(has_same nm version _ rules); try done. intros o d. apply isIPCIDR_same.
  - intros md. unfold RuleSet_Match, RuleSet_matchStatesWithBase. cbn [rs_rules]. do 2 f_equal. by apply merge_same.
Qed.
End meaning.
