(* ===== verification/SrsRun.v ===== *)
(** * A rule set on a concrete environment

    Binary rule sets with matchers, address sets and compression in their
    simplest form, and a rule set that goes through a file. *)
From S2P Require Import Prelude Bytes MatchState RuleItems Netip Rules RulesProps RuleAction RuleBuild RuleBuildProps Srs SrsProps SrsRoundtrip SrsMeaning.

Module SrsRun.

(** Lists of strings, self-delimiting: a one before every element. *)
Definition enc_string (s : string) : bytes := (String.list_ascii_of_string s ≫= λ c, [u8 1; c]) ++ [u8 0].
Definition enc (l : list string) : bytes := (l ≫= λ s, u8 1 :: enc_string s) ++ [u8 0].
Fixpoint dec_string (b : bytes) : result (bytes * bytes) :=
  match b with
  | x :: b =>
      if decide (x = u8 0) then Ok ([], b)
      else match b with c :: b => let? p := dec_string b in Ok (c :: p.1, p.2) | [] => Err ErrUnexpectedEOF end
  | [] => Err ErrUnexpectedEOF
  end.
Fixpoint dec (fuel : nat) : reader (list string) := λ b,
  match fuel, b with
  | S fuel, x :: b =>
      if decide (x = u8 0) then Ok ([], b)
      else
        let? p := dec_string b in
        let? q := dec fuel p.2 in
        Ok (String.string_of_list_ascii p.1 :: q.1, q.2)
  | _, _ => Err ErrUnexpectedEOF
  end.

Lemma dec_string_enc s rest : dec_string (enc_string s ++ rest) = Ok (String.list_ascii_of_string s, rest).
Proof. unfold enc_string. induction s as [|c s IH]; [done|]. cbn -[u8]. rewrite decide_False by done. by rewrite IH. Qed.

Lemma dec_enc l fuel rest : length l < fuel → dec fuel (enc l ++ rest) = Ok (l, rest).
Proof.
  revert fuel. unfold enc. induction l as [|s l IH]; intros [|fuel] Hf; cbn in Hf; try lia; [done|].
  cbn -[u8 enc_string]. rewrite decide_False by done. rewrite <-!app_assoc, dec_string_enc. cbn [result_bind fst snd].
  specialize (IH fuel ltac:(lia)). rewrite <-app_assoc in IH. rewrite IH. cbn [result_bind fst snd]. by rewrite string_of_list_of_string.
Qed.

Lemma length_enc l rest : length l < length (enc l ++ rest).
Proof.
  unfold enc. rewrite !length_app. pose proof (length_bind_ge (λ s, u8 1 :: enc_string s) l ltac:(done)). cbn [length]. lia.
Qed.

(** An IP set is a list of IPv4 addresses, a prefix is one. *)
Notation quad := (Ascii.ascii * Ascii.ascii * Ascii.ascii * Ascii.ascii)%type.
Definition to_addr (q : quad) : Addr := let '(a, b, c, d) := q in Addr4 (of_be [a; b; c; d]).
Definition of_addr (a : Addr) : quad :=
  match AsSlice a with [x; y; z; w] => (x, y, z, w) | _ => (u8 0, u8 0, u8 0, u8 0) end.

Lemma of_to_addr q : of_addr (to_addr q) = q.
Proof.
  destruct q as [[[a b] c] d]. unfold of_addr, to_addr. cbn [AsSlice].
  change 4 with (length [a; b; c; d]). by rewrite be_of_be.
Qed.

Lemma to_addr_valid q : valid_addr (to_addr q).
Proof. destruct q as [[[a b] c] d]. repeat split; apply of_be_range. Qed.

Definition parse_addr (s : string) : result Addr :=
  if decide (s = "10.0.0.1") then Ok (Addr4 167772161) else Err (ENew "unable to parse IP").

#[export] Instance env : RuleEnv := {
  IsIP a := Addr_IsValid (sa_Addr a);
  IsIPv6 a := match sa_Addr a with Addr6 _ _ => true | _ => false end;
  IsPublicAddr a := match a with Addr4 b => negb (Z.shiftr b 24 =? 10)%Z | _ => true end;
  IPSet := list quad;
  IPSet_Contains s a := bool_decide (a ∈ to_addr <$> s);
  IPSetBuilder_IPSet l := Ok ((λ x, of_addr match x with inl p => p_ip p | inr a => a end) <$> l);
  ParsePrefix s := Err (ENew "no '/'");
  ParseAddr := parse_addr;
  Prefix_String _ := "prefix";
  Prefixable := quad;
  Prefixable_Build q := mkPrefix (to_addr q) 32;
  DomainMatcher := list string;
  NewMatcher ds ss _ := ds ++ ss;
  DomainMatcher_Match m h := bool_decide (h ∈ m);
  AdGuardMatcher := list string;
  NewAdGuardMatcher ls := ls;
  AdGuardMatcher_Match m h := bool_decide (h ∈ m);
  Regexp := string;
  regexp_Compile s := if decide (s = "[") then Err (ENew "missing closing ]") else Ok s;
  MatchString m h := bool_decide (m = h);
  ToLower s := s;
  EqualFold a b := bool_decide (a = b);
  TrimSpace s := s;
  ParseMAC _ := None;
  HardwareAddr_String _ := "";
  hex_DecodeString _ := None;
  mDNS_TypeToString t := if decide (t = 1%Z) then Some "A" else None;
  PreferredDomain _ _ := false;
  PreferredAddress _ _ := false;
  IsAndroid := false;
}.

#[export] Instance srs_env : SrsEnv := {
  Matcher_Write := enc;
  ReadMatcher b := dec (length b) b;
  Matcher_Dump m := (m, []);
  AdGuard_Write := enc;
  ReadAdGuardMatcher b := dec (length b) b;
  AdGuard_Dump m := m;
  IPSet_ranges s := (λ q, (to_addr q, to_addr q)) <$> s;
  IPSet_of_ranges l := (λ r, of_addr r.1) <$> l;
  IPSet_Prefixes s := (λ q, mkPrefix (to_addr q) 32) <$> s;
  Prefixable_of p := of_addr (p_ip p);
  TypedMap_Put k v m := if decide (k ∈ m.*1) then (λ e, if decide (e.1 = k) then (k, v) else e) <$> m else m ++ [(k, v)];
  zlib_compress b := b;
  zlib_NewReader b := Ok b;
  sizeof_HeadlessRule := 1000;
}.

#[export] Instance srs_laws : SrsLaws.
Proof.
  split; cbn.
  - intros m s. apply dec_enc, length_enc.
  - intros m s. apply dec_enc, length_enc.
  - intros s. rewrite <-list_fmap_compose. rewrite <-(list_fmap_id s) at 2. apply list_fmap_ext. intros i q _. apply of_to_addr.
  - intros s. apply Forall_fmap, Forall_true. intros q. split; apply to_addr_valid.
  - apply of_to_addr.
  - intros q. destruct (to_addr_valid q) as (Hw & Hz & Hv). split; [done|]. split; [done|]. cbn. rewrite Hv. by destruct q as [[[? ?] ?] ?].
  - intros k v m Hk. by rewrite decide_False.
  - done.
  - done.
Qed.

Lemma dec_string_progress b : match dec_string b with Ok (_, b') => length b' <= length b | Err e => e ≠ out_of_fuel end.
Proof.
  induction b as [b IH] using (induction_ltof1 _ length). destruct b as [|x [|c b]]; [done|cbn; case_decide; [cbn; lia|done]|].
  cbn [dec_string]. case_decide; [cbn; lia|]. specialize (IH b ltac:(unfold ltof; cbn; lia)).
  destruct (dec_string b) as [[p b']|]; cbn [result_bind fst snd length] in *; [lia|done].
Qed.

Lemma dec_progress fuel n : progress n 0 (dec fuel).
Proof.
  intros b _. revert b. induction fuel as [|fuel IH]; intros b; [done|]. destruct b as [|x b]; [done|]. cbn [dec].
  case_decide; [cbn; lia|]. pose proof (dec_string_progress b) as Hs. destruct (dec_string b) as [[p b']|]; cbn [result_bind fst snd]; [|done].
  specialize (IH b'). destruct (dec fuel b') as [[q b'']|]; cbn [result_bind fst snd length] in *; [lia|done].
Qed.

#[export] Instance srs_readers : SrsReaders.
Proof. split; [intros n b Hb; by apply (dec_progress (length b) n b)..|done]. Qed.

#[export] Existing Instance NetipRun.sing_addr.
#[export] Existing Instance BuildRun.act_env.

(** Options with a condition besides inversion. *)
#[local] Instance options_eq_dec : EqDecision HeadlessOptions.
Proof. unfold EqDecision, Decision. repeat (decide equality). Defined.
Definition IsValid (o : HeadlessOptions) : bool := negb (bool_decide (o = set_Invert (h_Invert o) no_options)).

Lemma IsValid_spec o : IsValid o = false ↔ o = set_Invert (h_Invert o) no_options.
Proof. unfold IsValid. rewrite negb_false_iff, bool_decide_eq_true. done. Qed.

(** TCP to a domain or to an address; or, in a logical rule, to port 443 and not
    to a package. *)
Definition plain : HeadlessOptions :=
  set_Network ["tcp"] (set_IPSet None ["10.0.0.1"] (set_DomainMatcher None ["example.org"] ["example.net"] no_options)).
Definition port : HeadlessOptions := set_Port [443%Z] no_options.
Definition package : HeadlessOptions := set_Invert true (set_PackageName ["app"] no_options).
Definition rule (o : HeadlessOptions) : HeadlessRuleOptions := mkHeadlessRuleOptions "default" o no_logical.
Definition rules : list HeadlessRuleOptions :=
  [rule plain; mkHeadlessRuleOptions "logical" no_options (mkLogicalHeadless _ "and" [rule port; rule package] false)].

#[local] Instance small_dec {A} n (l : list A) : Decision (small n l) := ltac:(unfold small; apply _).
#[local] Instance small_string_dec s : Decision (small_string s) := ltac:(unfold small_string; apply _).
#[local] Instance uint_dec n x : Decision (uint n x) := ltac:(unfold uint; apply _).
#[local] Instance prefixable_eq_dec : EqDecision Prefixable := ltac:(cbn; apply _).

(** The conditions that can be evaluated. *)
Lemma options_wf o :
  bool_decide (Forall (λ l, small 2 l ∧ Forall (uint 65536) l) [h_QueryType o; h_SourcePort o; h_Port o] ∧
    Forall (λ l, small 16 l ∧ Forall small_string l)
      [h_Network o; h_DomainKeyword o; h_DomainRegex o; h_SourcePortRange o; h_PortRange o; h_ProcessName o;
       h_ProcessPath o; h_ProcessPathRegex o; h_PackageName o; h_WIFISSID o; h_WIFIBSSID o] ∧
    Forall (λ l, small 48 (IPSet_ranges (default [] (cidr_set l)))) [h_SourceIPCIDR o; h_IPCIDR o] ∧
    h_NetworkType o = [] ∧ h_NetworkInterfaceAddress o = [] ∧ h_DefaultInterfaceAddress o = []) = true → wf_options o.
Proof.
  rewrite bool_decide_eq_true. intros (Hp & Hs & Hc & Ht & Hn & Hd). split; try done.
  - eapply Forall_impl; [exact Hc|]. intros l Hl s Hset. cbv beta in Hl. by rewrite Hset in Hl.
  - by rewrite Ht.
  - rewrite Hn. repeat constructor. done.
  - by rewrite Hd.
Qed.

Lemma rule_wf o : wf_options o → wf_rule (rule o).
Proof. constructor. done. Qed.
Lemma rules_wf : Forall wf_rule rules.
Proof.
  apply Forall_cons; split; [apply rule_wf, options_wf; vm_compute; reflexivity|]. apply Forall_singleton. constructor.
  - vm_compute. discriminate.
  - apply Forall_cons; split; [|apply Forall_singleton]; apply rule_wf, options_wf; vm_compute; reflexivity.
Qed.
Lemma rules_source : Forall source_rule rules.
Proof. repeat constructor. Qed.

Definition loaded (rs : list HeadlessRuleOptions) : (RuleSet RuleAction * RuleSetMetadata) * option error :=
  reloadRules IsValid false rs (mkRuleSet "tag" [] 1, mkMetadata false false false).
Lemma rules_loaded : loaded rules = ((loaded rules).1, None).
Proof.
  assert (bool_decide (is_Some (loaded rules).2) = false) as Hok by (vm_compute; reflexivity).
  apply bool_decide_eq_false, eq_None_not_Some in Hok. rewrite <-Hok. by destruct (loaded rules).
Qed.
Definition file : bytes := match Write rules 3 with Ok b => b | Err _ => [] end.
End SrsRun.

Import (hints) SrsRun.

Lemma srs_roundtrip_witness :
  Read false SrsRun.file = Ok (3%Z, map (compiled_rule false 3) SrsRun.rules) ∧ length SrsRun.file = 104.
Proof.
  split; [|vm_compute; reflexivity].
  apply (srs_roundtrip false 3 SrsRun.rules SrsRun.file); [split; vm_compute; discriminate|apply SrsRun.rules_wf| |].
  - vm_compute. discriminate.
  - vm_compute. reflexivity.
Defined.

Lemma srs_same_decisions_witness :
  ∃ rules' s2, Read false SrsRun.file = Ok (3%Z, rules') ∧ SrsRun.loaded rules' = (s2, None) ∧
    s2.2 = (SrsRun.loaded SrsRun.rules).1.2 ∧
    RuleSet_Match EnvRun.rt s2.1 EnvRun.ip_conn = true ∧
    ∀ md, RuleSet_Match EnvRun.rt s2.1 md = RuleSet_Match EnvRun.rt (SrsRun.loaded SrsRun.rules).1.1 md.
Proof.
  destruct (srs_same_decisions EnvRun.rt SrsRun.IsValid SrsRun.IsValid_spec false 3 SrsRun.rules SrsRun.file
    (mkRuleSet "tag" [] 1, mkMetadata false false false) (SrsRun.loaded SrsRun.rules).1)
    as (rules' & s2 & Hr & Hl & Hm & Hd);
    [split; vm_compute; discriminate|apply SrsRun.rules_wf|vm_compute; discriminate|apply SrsRun.rules_source
    |vm_compute; reflexivity|exact SrsRun.rules_loaded|].
  exists rules', s2. split; [exact Hr|]. split; [exact Hl|]. split; [exact Hm|]. split; [|exact Hd].
  rewrite Hd. vm_compute. reflexivity.
Defined.

(** A file that claims to hold 2^60 rules, in a dozen bytes. *)
Definition huge : bytes := MagicBytes ++ [u8 1] ++ PutUvarint (2 ^ 60).
Lemma srs_read_terminates_witness :
  match Read false huge with Err (EPanic m) => m = "makeslice: len out of range" | _ => False end ∧
  Read false huge ≠ Err out_of_fuel ∧ length huge = 13.
Proof.
  split; [vm_compute; reflexivity|]. split; [|vm_compute; reflexivity].
  apply (srs_read_terminates false huge).
Defined.
