(* ===== verification/Json.v ===== *)
(** * Configuration objects

    The values [encoding/json] produces when it decodes into [any], with the
    type assertions, comparisons and map helpers user_reload.go and the
    top-level hot_add.go apply to them. *)
From S2P Require Import Prelude.
From Stdlib Require QArith.Qcanon.

(** A decoded value: [nil], [bool], [float64], [string], [[]any] or
    [map[string]any].  A [float64] read from JSON is finite; it is its rational
    value, so that zero has one representation, as in Go's [==]. *)
Inductive json :=
| JNull
| JBool (b : bool)
| JNum (q : Qcanon.Qc)
| JStr (s : string)
| JArr (l : list json)
| JObj (m : gmap string json).

Notation object := (gmap string json).

(** [float64(0)]. *)
Definition json_zero : Qcanon.Qc := Qcanon.Q2Qc (QArith_base.Qmake 0 1).

(** [reflect.DeepEqual] on decoded values. *)
#[export] Instance json_eq_dec : EqDecision json.
Proof.
  refine (fix go a b := let _ : EqDecision json := @go in
    match a, b with
    | JNull, JNull => left _
    | JBool x, JBool y => cast_if (decide (x = y))
    | JNum x, JNum y => cast_if (decide (x = y))
    | JStr x, JStr y => cast_if (decide (x = y))
    | JArr x, JArr y => cast_if (decide (x = y))
    | JObj x, JObj y => cast_if (decide (x = y))
    | _, _ => right _
    end); abstract congruence.
Defined.

(** ** Reading objects *)

(** [m[k]]: a missing key reads as [nil]. *)
Definition field (m : object) (k : string) : json := default JNull (m !! k).

(** [v.(string)], [v.([]any)] and [v.(map[string]any)], in their two-value
    form. *)
Definition as_string (v : json) : option string := match v with JStr s => Some s | _ => None end.
Definition as_array (v : json) : option (list json) := match v with JArr l => Some l | _ => None end.
Definition as_object (v : json) : option object := match v with JObj m => Some m | _ => None end.

(** [s, _ := v.(string)]: the zero value when the assertion fails. *)
Definition string_or_zero (v : json) : string := default "" (as_string v).

(** The one-value form of an assertion panics. *)
Definition assert_object (v : json) : result object :=
  match as_object v with Some m => Ok m | None => Err (EPanic "interface conversion") end.
Definition assert_string (v : json) : result string :=
  match as_string v with Some s => Ok s | None => Err (EPanic "interface conversion") end.

(** [a == b] on interface values: comparing two slices or two maps panics. *)
Definition interface_eq (a b : json) : result bool :=
  match a, b with
  | JArr _, JArr _ | JObj _, JObj _ => Err (EPanic "comparing uncomparable type")
  | _, _ => Ok (bool_decide (a = b))
  end.

(** hot_add.go, [rows] and [nested]. *)
Definition rows (o : object) (key : string) : list json := default [] (as_array (field o key)).
Definition nested (o : object) (key : string) : object := default ∅ (as_object (field o key)).

(** user_reload.go, [without]. *)
Definition without (row : object) (keys : list string) : object := foldl (λ m k, delete k m) row keys.

Lemma lookup_foldl_delete {A} (keys : list string) (m : gmap string A) k :
  foldl (λ m k, delete k m) m keys !! k = if decide (k ∈ keys) then None else m !! k.
Proof.
  revert m. induction keys as [|a keys IH]; intros m; cbn [foldl].
  - destruct (decide (k ∈ [])) as [H|H]; [by apply not_elem_of_nil in H|done].
  - rewrite IH, lookup_delete. destruct (decide (k ∈ keys)) as [H|H].
    + rewrite decide_True; [done|]. by apply elem_of_cons; right.
    + destruct (decide (a = k)) as [->|Ha].
      * rewrite (decide_True (P := k ∈ k :: keys)); [done|]. by apply elem_of_cons; left.
      * rewrite (decide_False (P := k ∈ a :: keys)); [done|]. intros [?|?]%elem_of_cons; congruence.
Qed.

Lemma lookup_without row keys k :
  without row keys !! k = if decide (k ∈ keys) then None else row !! k.
Proof. apply lookup_foldl_delete. Qed.

(** The identical part of two objects that agree without some keys. *)
Lemma without_eq a b keys k : without a keys = without b keys → k ∉ keys → a !! k = b !! k.
Proof.
  intros H Hk. pose proof (f_equal (lookup k) H) as Hl. rewrite !lookup_without in Hl.
  by rewrite !decide_False in Hl.
Qed.

Lemma field_without row keys k : k ∉ keys → field (without row keys) k = field row k.
Proof. intros H. unfold field. by rewrite lookup_without, decide_False. Qed.

Lemma rows_in o key v : v ∈ rows o key → ∃ l, o !! key = Some (JArr l) ∧ rows o key = l.
Proof.
  unfold rows, field. destruct (o !! key) as [[]|]; simpl; try by intros ?%not_elem_of_nil. eauto.
Qed.
