(* ===== verification/UserPlan.v ===== *)
(** * The plan of a user update

    Model of user_reload.go from [namedRows] to [planUserUpdate]: the decision
    whether a new configuration differs from the running one in users, user
    outbounds and user rules only, and what has to be published if so. *)
From S2P Require Import Prelude Json.

(** The code outside the repository the plan relies on, and the choices the
    language leaves open: the UUID library, [userstate.Fingerprint] (SHA-256 of
    the encoded value), and the order in which a [range] statement visits a
    map, which may differ from statement to statement ([site]). *)
Class PlanEnv := {
  FromString : string → option string;
  NewV5 : string → string;
  Fingerprint : json → string;
  map_range : ∀ A, nat → gmap string A → list (string * A);
  map_range_perm : ∀ A site (m : gmap string A), map_range A site m ≡ₚ map_to_list m;
}.
#[global] Arguments map_range {_ A} site m.

Record userUpdatePlan := mkPlan {
  inboundIndexes : list nat;
  outboundIndexes : list nat;
  removedOutbounds : list string;
  ruleIndexes : list Z;
  changedNames : gset string;
}.

(** [namedRows]. *)
Definition named_row (acc : gmap string object) (value : json) : result (gmap string object) :=
  match as_object value with
  | None => Err (ENew "expected an object")
  | Some row =>
      let tag := string_or_zero (field row "tag") in
      if decide (tag = "" ∨ is_Some (acc !! tag)) then Err (ENew "missing or duplicate tag")
      else Ok (<[tag := row]> acc)
  end.
Definition namedRows (value : json) : result (gmap string object) :=
  match value with
  | JNull => Ok ∅
  | JArr l => fold_result named_row l ∅
  | _ => Err (ENew "expected an array")
  end.

(** [userNames]: the names, and whether there are any. *)
Definition userNames (row : object) : list string * bool :=
  match field row "auth_user" with
  | JStr s => ([s], true)
  | JArr l =>
      match mapM as_string l with
      | None => ([], false)
      | Some names => (names, bool_decide (0 < length names))
      end
  | _ => ([], false)
  end.

(** [dynamicRule]. *)
Definition dynamic_keys : list string :=
  ["type"; "auth_user"; "action"; "outbound"; "inbound"; "network"; "source_ip_cidr"; "ip_cidr";
   "source_port"; "source_port_range"; "port"; "port_range"; "domain"; "domain_suffix";
   "domain_keyword"; "domain_regex"; "method"; "no_drop"].
Definition dynamicRule (row : object) (known blocked : gset string) : bool :=
  let '(names, ok) := userNames row in
  ok
  && forallb (λ name, negb (bool_decide (name = "" ∨ name ∈ blocked))) names
  && existsb (λ name, bool_decide (name ∈ known)) names
  && forallb (λ kv : string * json, bool_decide (kv.1 ∈ dynamic_keys)) (map_to_list row)
  && match row !! "type" with
     | Some kind => bool_decide (kind = JStr "default" ∨ kind = JStr "")
     | None => true
     end
  && match row !! "action" with
     | Some action => bool_decide (action = JStr "route" ∨ action = JStr "reject" ∨ action = JStr "")
     | None => true
     end.

(** [references]. *)
Definition reference_key (key : string) : bool :=
  bool_decide (key = "outbound" ∨ key = "detour" ∨ key = "download_detour").
Fixpoint references (value : json) (tags : gset string) : bool :=
  match value with
  | JObj m =>
      map_fold (λ key item found,
        (reference_key key && match as_string item with Some tag => bool_decide (tag ∈ tags) | None => false end)
        || references item tags || found) false m
  | JArr l => existsb (λ item, references item tags) l
  | _ => false
  end.

Section plan.
Context `{PlanEnv}.

(** [validateUsers]: one user, then the list. *)
Definition validate_user (kind : json) (acc : gset string * gset string) (value : json)
    : result (gset string * gset string) :=
  let '(names, ids) := acc in
  match as_object value with
  | None => Err (ENew "invalid user")
  | Some user =>
      let socks := bool_decide (kind = JStr "socks") in
      let name := string_or_zero (field user (if socks then "username" else "name")) in
      let password := string_or_zero (field user "password") in
      if socks && (bool_decide (password = "") || bool_decide (255 < String.length name)
                   || bool_decide (255 < String.length password))
      then Err (ENew "invalid SOCKS credential length")
      else if decide (name = "" ∨ name ∈ names)
      then Err (ENew "missing or duplicate authentication name")
      else
        let names := names ∪ {[name]} in
        let? ids :=
          if socks then Ok ids
          else
            let raw := string_or_zero (field user "uuid") in
            if decide (raw = "") then Err (ENew "missing UUID")
            else
              let id := match FromString raw with Some id => id | None => NewV5 raw end in
              if decide (id ∈ ids) then Err (ENew "duplicate canonical UUID")
              else Ok (ids ∪ {[id]}) in
        if bool_decide (kind = JStr "vmess") &&
           match user !! "alterId" with
           | Some alter => negb (bool_decide (alter = JNum json_zero))
           | None => false
           end
        then Err (ENew "dynamic VMess requires AEAD users")
        else Ok (names, ids)
  end.
Definition validateUsers (row : object) : result (gset string) :=
  match field row "users" with
  | JNull => Ok ∅
  | JArr l => let? acc := fold_result (validate_user (field row "type")) l (∅, ∅) in Ok acc.1
  | _ => Err (ENew "invalid users array")
  end.

(** The names of the users of an inbound that is not managed. *)
Definition blocked_names (row : object) : gset string :=
  list_to_set (rows row "users" ≫= λ v,
    match as_object v with
    | Some user => omap (λ f, as_string (field user f)) ["name"; "username"]
    | None => []
    end).

Definition supported (kind : json) : bool :=
  bool_decide (kind = JStr "vless" ∨ kind = JStr "vmess" ∨ kind = JStr "socks").

(** One iteration of the loop over the running inbounds; the state is
    [known] and [blocked]. *)
Definition plan_inbound (newIn : gmap string object) (acc : gset string * gset string)
    (kv : string * object) : result (gset string * gset string) :=
  let '(known, blocked) := acc in
  let '(tag, old) := kv in
  match newIn !! tag with
  | None => Err ErrUnsupportedUserUpdate
  | Some next =>
      let kind := field old "type" in
      if negb (supported kind) then
        if decide (old ≠ next) then Err ErrUnsupportedUserUpdate
        else Ok (known, blocked ∪ blocked_names old)
      else
        let socks := bool_decide (kind = JStr "socks") in
        if socks && bool_decide (field old "require_auth" = JBool true)
           && negb (bool_decide (field next "require_auth" = JBool true))
        then Err (ENew "cannot disable required SOCKS authentication")
        else
          let ignored := if socks then ["users"; "require_auth"] else ["users"] in
          if decide (without old ignored ≠ without next ignored) then Err ErrUnsupportedUserUpdate
          else
            match validateUsers old, validateUsers next with
            | Ok oldNames, Ok newNames => Ok (known ∪ oldNames ∪ newNames, blocked)
            | _, _ =>
                if decide (old ≠ next) then Err (ENew "dynamic inbound requires valid named users")
                else Ok (known, blocked ∪ blocked_names old)
            end
  end.
Definition plan_inbounds (oldIn newIn : gmap string object) : result (gset string * gset string) :=
  let? acc := fold_result (plan_inbound newIn) (map_range 0 oldIn) (∅, ∅) in
  Ok (acc.1 ∖ acc.2, acc.2).

(** Without an explicit [final] the first outbound is the default. *)
Definition plan_default (before after oldRoute : object) : result unit :=
  match oldRoute !! "final" with
  | Some _ => Ok ()
  | None =>
      match rows before "outbounds", rows after "outbounds" with
      | [], _ => Ok ()
      | _ :: _, [] => Err ErrUnsupportedUserUpdate
      | old0 :: _, new0 :: _ =>
          let? old := assert_object old0 in
          let? new := assert_object new0 in
          let? same := interface_eq (field old "tag") (field new "tag") in
          if same : bool then Ok () else Err ErrUnsupportedUserUpdate
      end
  end.

(** The running outbounds that changed or disappeared. *)
Definition plan_removed (oldOut newOut : gmap string object) : list string :=
  (filter (λ kv : string * object, newOut !! kv.1 ≠ Some kv.2) (map_range 1 oldOut)).*1.

(** The indexes of the next outbounds that are new or changed, with their
    tags. *)
Fixpoint plan_added (oldOut : gmap string object) (index : nat) (l : list json)
    : result (list (nat * string)) :=
  match l with
  | [] => Ok []
  | v :: l =>
      let? next := assert_object v in
      let? tag := assert_string (field next "tag") in
      let? rest := plan_added oldOut (S index) l in
      Ok (if decide (oldOut !! tag ≠ Some next) then (index, tag) :: rest else rest)
  end.

(** A changed outbound is direct or socks and dials by itself. *)
Definition independent (row : option object) : bool :=
  match row with
  | None => true
  | Some row =>
      bool_decide (field row "type" = JStr "direct" ∨ field row "type" = JStr "socks")
      && bool_decide (field row "detour" = JNull)
  end.

Definition plan_outbounds (before after oldRoute : object) (oldOut newOut : gmap string object)
    : result (gset string * list string * list nat) :=
  let removed := plan_removed oldOut newOut in
  let? added := plan_added oldOut 0 (rows after "outbounds") in
  let changedOut : gset string := list_to_set (removed ++ added.*2) in
  if negb (forallb (λ tag, independent (oldOut !! tag) && independent (newOut !! tag)) (elements changedOut))
  then Err (ENew "only independent direct/SOCKS user outbounds can change")
  else if references (JObj (without before ["outbounds"; "route"])) changedOut
          || references (JObj (without oldRoute ["rules"])) changedOut
  then Err (ENew "outbound is referenced by global configuration")
  else if existsb (λ kv : string * object,
                    negb (bool_decide (kv.1 ∈ changedOut)) && references (JObj kv.2) changedOut)
                  (map_range 2 oldOut)
  then Err (ENew "outbound is referenced by another outbound")
  else Ok (changedOut, removed, added.*1).

(** [policies]: the ordered policy of each user, a rule with the number of
    static rules before it, and the static rules. *)
Notation policy := (list (nat * object)).
Record policyState := mkPolicies {
  byUser : gmap string policy;
  fixed : list object;
  section : nat;
}.
Definition policy_of (p : gmap string policy) (name : string) : policy := default [] (p !! name).

Definition policy_row (known blocked changedOut : gset string) (oldOut newOut : gmap string object)
    (st : policyState) (v : json) : result policyState :=
  match as_object v with
  | None => Err (ENew "invalid rule")
  | Some row =>
      if negb (dynamicRule row known blocked) then
        if references (JObj row) changedOut
        then Err (ENew "outbound is referenced by an unmanaged rule")
        else Ok (mkPolicies (byUser st) (fixed st ++ [row]) (S (section st)))
      else
        fold_result (λ st name,
          let normalized := without row ["auth_user"] in
          match as_string (field row "outbound") with
          | Some tag =>
              if decide (newOut !! tag = None ∧ oldOut !! tag = None)
              then Err (ENew "unknown user outbound")
              else Ok (mkPolicies (<[name := policy_of (byUser st) name ++ [(section st, normalized)]]> (byUser st))
                                  (fixed st) (section st))
          | None => Ok (mkPolicies (<[name := policy_of (byUser st) name ++ [(section st, normalized)]]> (byUser st))
                                   (fixed st) (section st))
          end) (userNames row).1 st
  end.
Definition policies known blocked changedOut oldOut newOut (list : list json) : result policyState :=
  fold_result (policy_row known blocked changedOut oldOut newOut) list (mkPolicies ∅ [] 0).

(** The users whose policy, or an outbound it refers to, changed. *)
Definition policy_changed (changedOut : gset string) (old new : policy) : bool :=
  bool_decide (old ≠ new)
  || existsb (λ item : nat * object, references (JObj item.2) changedOut) (old ++ new).
Definition changed_names (known changedOut : gset string) (old new : gmap string policy) : gset string :=
  filter (λ name, policy_changed changedOut (policy_of old name) (policy_of new name) = true) known.

(** The positions of the running rules by fingerprint. *)
Definition rule_hashes (oldRules : list json) : gmap string (list nat) :=
  foldl (λ acc (ir : nat * json),
           let hash := Fingerprint ir.2 in <[hash := default [] (acc !! hash) ++ [ir.1]]> acc)
        ∅ (imap pair oldRules).

(** One iteration of the loop over the next rules; the state is
    [previousByHash] and [plan.ruleIndexes]. *)
Definition rule_index (oldRules : list json) (newOut : gmap string object) (known blocked : gset string)
    (acc : gmap string (list nat) * list Z) (next : json) : result (gmap string (list nat) * list Z) :=
  let '(byHash, indexes) := acc in
  let hash := Fingerprint next in
  let '(byHash, previous) :=
    match default [] (byHash !! hash) with
    | candidate :: rest =>
        if decide (oldRules !! candidate = Some next) then (<[hash := rest]> byHash, Z.of_nat candidate)
        else (byHash, (-1)%Z)
    | [] => (byHash, (-1)%Z)
    end in
  if decide (previous < 0)%Z then
    let? row := assert_object next in
    if negb (dynamicRule row known blocked) then Err ErrUnsupportedUserUpdate
    else
      match as_string (field row "outbound") with
      | Some tag =>
          if decide (newOut !! tag = None) then Err (ENew "user rule targets a missing outbound")
          else Ok (byHash, indexes ++ [previous])
      | None => Ok (byHash, indexes ++ [previous])
      end
  else Ok (byHash, indexes ++ [previous]).

(** A retained rule must not target a removed outbound. *)
Definition target_kept (newOut : gmap string object) (changedOut : gset string) (_ : unit) (v : json)
    : result unit :=
  let? row := assert_object v in
  match as_string (field row "outbound") with
  | Some tag =>
      if decide (tag ∈ changedOut ∧ newOut !! tag = None)
      then Err (ENew "removed outbound is still referenced") else Ok ()
  | None => Ok ()
  end.

(** The name a user of an inbound authenticates with. *)
Definition login_name (next user : object) : string :=
  string_or_zero (field user (if bool_decide (field next "type" = JStr "socks") then "username" else "name")).

(** The last loop: the inbounds to publish. *)
Fixpoint plan_changed_inbounds (oldIn : gmap string object) (changed : gset string) (index : nat)
    (l : list json) : result (list nat) :=
  match l with
  | [] => Ok []
  | v :: l =>
      let? next := assert_object v in
      let? tag := assert_string (field next "tag") in
      let? touched :=
        fold_result (λ (c : bool) user,
          let? row := assert_object user in
          Ok (c || bool_decide (login_name next row ∈ changed)))
          (rows next "users") (bool_decide (oldIn !! tag ≠ Some next)) in
      if touched : bool then
        let? _ := validateUsers next in
        let? rest := plan_changed_inbounds oldIn changed (S index) l in
        Ok (index :: rest)
      else plan_changed_inbounds oldIn changed (S index) l
  end.

(** [planUserUpdate]. *)
Definition planUserUpdate (before after : object) : result userUpdatePlan :=
  let? oldIn := namedRows (field before "inbounds") in
  let? newIn := namedRows (field after "inbounds") in
  let global := ["inbounds"; "outbounds"; "route"] in
  if decide (size oldIn ≠ size newIn ∨ without before global ≠ without after global)
  then Err ErrUnsupportedUserUpdate
  else
    let oldRoute := nested before "route" in
    let newRoute := nested after "route" in
    if decide (without oldRoute ["rules"] ≠ without newRoute ["rules"])
    then Err ErrUnsupportedUserUpdate
    else
      let? kb := plan_inbounds oldIn newIn in
      let '(known, blocked) := kb in
      let? _ := plan_default before after oldRoute in
      let? oldOut := namedRows (field before "outbounds") in
      let? newOut := namedRows (field after "outbounds") in
      let? outs := plan_outbounds before after oldRoute oldOut newOut in
      let '(changedOut, removed, added) := outs in
      let oldRules := rows oldRoute "rules" in
      let newRules := rows newRoute "rules" in
      let? oldPolicies := policies known blocked changedOut oldOut newOut oldRules in
      let? newPolicies := policies known blocked changedOut oldOut newOut newRules in
      if decide (fixed oldPolicies ≠ fixed newPolicies) then Err ErrUnsupportedUserUpdate
      else
        let changed := changed_names known changedOut (byUser oldPolicies) (byUser newPolicies) in
        let? indexes := fold_result (rule_index oldRules newOut known blocked) newRules
                                    (rule_hashes oldRules, []) in
        let? _ := fold_result (target_kept newOut changedOut) newRules () in
        let? inbounds := plan_changed_inbounds oldIn changed 0 (rows after "inbounds") in
        Ok (mkPlan inbounds added removed indexes.2 changed).
End plan.
