(* ===== verification/UserPlanSpec.v ===== *)
(** * Lemmas on the plan of a user update

    What an accepted plan passed through, loop by loop: the intermediate
    values, the named rows, the managed inbounds, the changed outbounds, the
    policies, and the positions of the reused rules. *)
From S2P Require Import Prelude Json HotRules UserPlan.

(** ** The intermediate values of an accepted plan *)

Section accepted.
Context `{PlanEnv}.

Record planned (before after : object) (plan : userUpdatePlan) := {
  pl_oldIn : gmap string object;
  pl_newIn : gmap string object;
  pl_known : gset string;
  pl_blocked : gset string;
  pl_oldOut : gmap string object;
  pl_newOut : gmap string object;
  pl_changedOut : gset string;
  pl_old : policyState;
  pl_new : policyState;
  pl_hashes : gmap string (list nat);
  pl_in1 : namedRows (field before "inbounds") = Ok pl_oldIn;
  pl_in2 : namedRows (field after "inbounds") = Ok pl_newIn;
  pl_size : size pl_oldIn = size pl_newIn;
  pl_global : without before ["inbounds"; "outbounds"; "route"] =
              without after ["inbounds"; "outbounds"; "route"];
  pl_route : without (nested before "route") ["rules"] = without (nested after "route") ["rules"];
  pl_inbounds : plan_inbounds pl_oldIn pl_newIn = Ok (pl_known, pl_blocked);
  pl_default : plan_default before after (nested before "route") = Ok ();
  pl_out1 : namedRows (field before "outbounds") = Ok pl_oldOut;
  pl_out2 : namedRows (field after "outbounds") = Ok pl_newOut;
  pl_outbounds : plan_outbounds before after (nested before "route") pl_oldOut pl_newOut =
                 Ok (pl_changedOut, removedOutbounds plan, outboundIndexes plan);
  pl_pol1 : policies pl_known pl_blocked pl_changedOut pl_oldOut pl_newOut (rows (nested before "route") "rules") =
            Ok pl_old;
  pl_pol2 : policies pl_known pl_blocked pl_changedOut pl_oldOut pl_newOut (rows (nested after "route") "rules") =
            Ok pl_new;
  pl_fixed : fixed pl_old = fixed pl_new;
  pl_changed : changedNames plan = changed_names pl_known pl_changedOut (byUser pl_old) (byUser pl_new);
  pl_indexes : fold_result (rule_index (rows (nested before "route") "rules") pl_newOut pl_known pl_blocked)
                 (rows (nested after "route") "rules") (rule_hashes (rows (nested before "route") "rules"), []) =
               Ok (pl_hashes, ruleIndexes plan);
  pl_targets : fold_result (target_kept pl_newOut pl_changedOut) (rows (nested after "route") "rules") () = Ok ();
  pl_touched : plan_changed_inbounds pl_oldIn (changedNames plan) 0 (rows after "inbounds") =
               Ok (inboundIndexes plan);
}.

Lemma plan_accepted before after plan :
  planUserUpdate before after = Ok plan → inhabited (planned before after plan).
Proof.
  unfold planUserUpdate. intros Hp.
  inv_bind Hp. inv_bind Hp.
  destruct (decide _) as [?|Hglobal] in Hp; [done|]. destruct (decide _) as [?|Hroute] in Hp; [done|].
  inv_bind Hp. destruct a1 as [known blocked]. inv_bind Hp. destruct a1. inv_bind Hp. inv_bind Hp.
  inv_bind Hp. destruct a3 as [[changedOut removed] added].
  inv_bind Hp. inv_bind Hp. destruct (decide _) as [?|Hfixed] in Hp; [done|].
  inv_bind Hp. destruct a5 as [hashes indexes]. inv_bind Hp. destruct a5. inv_bind Hp.
  injection Hp as <-. constructor. econstructor; simpl; eauto.
  - destruct (decide (size a = size a0)) as [?|?]; [done|]. destruct Hglobal. by left.
  - destruct (decide (without before ["inbounds"; "outbounds"; "route"] =
      without after ["inbounds"; "outbounds"; "route"])) as [?|?]; [done|]. destruct Hglobal. by right.
  - by apply dec_stable.
  - by apply dec_stable.
Qed.
End accepted.

(** ** Rows by tag *)

(** A list of objects with distinct non-empty tags, and the map of them. *)
Record named (l : list json) (m : gmap string object) : Prop := {
  nm_row : ∀ i v, l !! i = Some v → ∃ row tag,
    v = JObj row ∧ field row "tag" = JStr tag ∧ tag ≠ "" ∧ m !! tag = Some row;
  nm_lookup : ∀ tag row, m !! tag = Some row → JObj row ∈ l ∧ field row "tag" = JStr tag;
  nm_inj : ∀ i j row row', l !! i = Some (JObj row) → l !! j = Some (JObj row') →
    field row "tag" = field row' "tag" → i = j;
}.

Lemma named_nil : named [] ∅.
Proof. by split; intros; simplify_map_eq. Qed.

Lemma string_or_zero_field v : string_or_zero v ≠ "" → v = JStr (string_or_zero v).
Proof. by destruct v. Qed.

Lemma lookup_snoc_cases {A} (l : list A) x i y :
  (l ++ [x]) !! i = Some y → l !! i = Some y ∧ i < length l ∨ i = length l ∧ y = x.
Proof.
  intros [?|[? ?]]%lookup_app_Some; [left; eauto using lookup_lt_Some|right].
  destruct (i - length l) as [|k] eqn:E; [|done]. simplify_eq/=. split; [lia|done].
Qed.

Lemma named_snoc l m v m' : named l m → named_row m v = Ok m' → named (l ++ [v]) m'.
Proof.
  intros [Hrow Hlook Hinj]. unfold named_row. destruct (as_object v) as [row|] eqn:Ev; [|done].
  destruct v; try done. injection Ev as ->.
  destruct (decide _) as [?|Hnew]; [done|]. intros [= <-].
  set (tag := string_or_zero (field row "tag")) in *.
  assert (tag ≠ "" ∧ m !! tag = None) as [Hne Hfree].
  { destruct (decide (tag = "")); [destruct Hnew; by left|].
    split; [done|]. apply eq_None_not_Some. intros ?. destruct Hnew. by right. }
  assert (field row "tag" = JStr tag) as Htag by by apply string_or_zero_field.
  assert (∀ i row', l !! i = Some (JObj row') → field row' "tag" ≠ JStr tag) as Hother.
  { intros i row' Hi Heq. destruct (Hrow _ _ Hi) as (? & t & [= <-] & ? & ? & ?). congruence. }
  split.
  - intros i u [[Hi _]|[_ ->]]%lookup_snoc_cases.
    + destruct (Hrow _ _ Hi) as (r & t & -> & Ht & ? & Hm). exists r, t. split_and!; try done.
      rewrite lookup_insert_ne; [done|]. intros <-. by destruct (Hother _ _ Hi).
    + exists row, tag. rewrite lookup_insert. by rewrite decide_True.
  - intros t r. rewrite lookup_insert. destruct (decide (tag = t)) as [<-|?].
    + intros [= <-]. split; [apply elem_of_snoc; by right|done].
    + intros [Hr ?]%Hlook. split; [apply elem_of_snoc; by left|done].
  - intros i j r r' [[Hi Hil]|[-> [= ->]]]%lookup_snoc_cases [[Hj Hjl]|[-> [= ->]]]%lookup_snoc_cases Heq;
      [by eapply Hinj|destruct (Hother _ _ Hi); congruence|destruct (Hother _ _ Hj); congruence|done].
Qed.

Lemma namedRows_named o key m : namedRows (field o key) = Ok m → named (rows o key) m.
Proof.
  unfold namedRows, rows. destruct (field o key) as [| | | |l|]; try done; cbn [as_array default from_option id].
  - intros [= <-]. apply named_nil.
  - intros Hf. apply (fold_result_inv named_row (λ pre m, named pre m) l ∅ m);
      [apply named_nil|intros pre x c c' _; apply named_snoc|done].
Qed.

(** ** The managed inbounds *)

Section inbounds.
Context `{PlanEnv}.

(** The names of the users of an inbound with a valid user list. *)
Definition valid_names (row : object) : gset string :=
  match validateUsers row with Ok names => names | Err _ => ∅ end.

(** An inbound whose users can be changed at run time. *)
Definition managed (old next : object) : bool :=
  supported (field old "type") && is_ok (validateUsers old) && is_ok (validateUsers next).

(** The fields of a managed inbound that an update may change. *)
Definition user_fields (old : object) : list string :=
  if bool_decide (field old "type" = JStr "socks") then ["users"; "require_auth"] else ["users"].

Definition inbound_fits (old next : object) : Prop :=
  if managed old next then
    without old (user_fields old) = without next (user_fields old) ∧
    (field old "type" = JStr "socks" → field old "require_auth" = JBool true →
     field next "require_auth" = JBool true)
  else old = next.

Lemma plan_inbound_ok newIn known blocked tag old kb :
  plan_inbound newIn (known, blocked) (tag, old) = Ok kb →
  ∃ next, newIn !! tag = Some next ∧ inbound_fits old next ∧
    kb = if managed old next then (known ∪ valid_names old ∪ valid_names next, blocked)
         else (known, blocked ∪ blocked_names old).
Proof.
  unfold plan_inbound, inbound_fits, managed, valid_names, user_fields.
  destruct (newIn !! tag) as [next|]; [|done]. intros Hk. exists next. split; [done|].
  destruct (supported (field old "type")); cbn [negb andb] in *.
  - destruct (bool_decide (field old "type" = JStr "socks") && _ && _) eqn:Hauth; [done|].
    destruct (decide (without old _ ≠ _)) as [?|Hwo] in Hk; [done|]. apply dec_stable in Hwo.
    destruct (validateUsers old) as [no|?], (validateUsers next) as [nn|?]; cbn [is_ok andb] in *;
      try (destruct (decide (old ≠ next)) as [?|?%dec_stable]; [done|]; by simplify_eq).
    injection Hk as <-. split; [|done]. split; [done|]. intros Hs Ho.
    rewrite !bool_decide_true in Hauth by done. cbn [andb] in Hauth.
    apply negb_false_iff, bool_decide_eq_true in Hauth. done.
  - destruct (decide (old ≠ next)) as [?|?%dec_stable]; [done|]. by simplify_eq.
Qed.

(** The result of the loop over a list of running inbounds. *)
Record inbounds_ok (newIn : gmap string object) (l : list (string * object)) (kb : gset string * gset string)
    : Prop := {
  ib_fits : ∀ tag old, (tag, old) ∈ l → ∃ next, newIn !! tag = Some next ∧ inbound_fits old next;
  ib_known : ∀ name, name ∈ kb.1 ↔ ∃ tag old next, (tag, old) ∈ l ∧ newIn !! tag = Some next ∧
    managed old next = true ∧ (name ∈ valid_names old ∨ name ∈ valid_names next);
  ib_blocked : ∀ name, name ∈ kb.2 ↔ ∃ tag old next, (tag, old) ∈ l ∧ newIn !! tag = Some next ∧
    managed old next = false ∧ name ∈ blocked_names old;
}.

Lemma inbounds_ok_snoc newIn l kb kv kb' :
  inbounds_ok newIn l kb → plan_inbound newIn kb kv = Ok kb' → inbounds_ok newIn (l ++ [kv]) kb'.
Proof.
  destruct kb as [known blocked], kv as [tag old].
  intros [Hfits Hknown Hblocked] (next & Hn & Hfit & ->)%plan_inbound_ok. cbn [fst snd] in *. split.
  - intros t o [?|[= -> ->]]%elem_of_snoc; [by apply Hfits|eauto].
  - intros name. setoid_rewrite elem_of_snoc. destruct (managed old next) eqn:Em; cbn [fst snd].
    + rewrite !elem_of_union, Hknown. split.
      * intros [[(t & o & n & ? & ?)|?]|?]; [|exists tag, old, next; tauto..]. exists t, o, n; tauto.
      * intros (t & o & n & [?|[= -> ->]] & Hn' & ? & ?); [left; left; eauto 10|]. simplify_eq. tauto.
    + rewrite Hknown. split; [intros (t & o & n & ? & ?); exists t, o, n; tauto|].
      intros (t & o & n & [?|[= -> ->]] & ? & ? & ?); [eauto 10|congruence].
  - intros name. setoid_rewrite elem_of_snoc. destruct (managed old next) eqn:Em; cbn [fst snd].
    + rewrite Hblocked. split; [intros (t & o & n & ? & ?); exists t, o, n; tauto|].
      intros (t & o & n & [?|[= -> ->]] & ? & ? & ?); [eauto 10|congruence].
    + rewrite elem_of_union, Hblocked. split.
      * intros [(t & o & n & ? & ?)|?]; [exists t, o, n; tauto|exists tag, old, next; tauto].
      * intros (t & o & n & [?|[= -> ->]] & ? & ? & ?); [left; eauto 10|by right].
Qed.

Lemma plan_inbounds_ok oldIn newIn known blocked :
  plan_inbounds oldIn newIn = Ok (known, blocked) →
  (∀ tag old, oldIn !! tag = Some old → ∃ next, newIn !! tag = Some next ∧ inbound_fits old next) ∧
  (∀ name, name ∈ known ↔ name ∉ blocked ∧ ∃ tag old next, oldIn !! tag = Some old ∧ newIn !! tag = Some next ∧
    managed old next = true ∧ (name ∈ valid_names old ∨ name ∈ valid_names next)) ∧
  (∀ name, name ∈ blocked ↔ ∃ tag old next, oldIn !! tag = Some old ∧ newIn !! tag = Some next ∧
    managed old next = false ∧ name ∈ blocked_names old).
Proof.
  unfold plan_inbounds. intros Hp. inv_bind Hp. injection Hp as <- <-.
  assert (inbounds_ok newIn (map_range 0 oldIn) a) as [Hf Hk Hb].
  { apply (fold_result_inv (plan_inbound newIn) (inbounds_ok newIn) _ (∅, ∅) a); [|by intros pre x c c' _; apply inbounds_ok_snoc|done].
    split; [by intros ?? ?%not_elem_of_nil|..]; (intros name; split; [by intros ?%not_elem_of_empty|
      by intros (? & ? & ? & ?%not_elem_of_nil & _)]). }
  setoid_rewrite map_range_perm in Hf. setoid_rewrite map_range_perm in Hk.
  setoid_rewrite map_range_perm in Hb. setoid_rewrite elem_of_map_to_list in Hf.
  setoid_rewrite elem_of_map_to_list in Hk. setoid_rewrite elem_of_map_to_list in Hb.
  split_and!; [done| |done]. intros name. rewrite elem_of_difference, Hk. tauto.
Qed.
End inbounds.

(** ** References *)

(** [tag] is named somewhere in a value as an outbound or a detour. *)
Inductive mentions (tag : string) : json → Prop :=
| mentions_key m k : reference_key k = true → m !! k = Some (JStr tag) → mentions tag (JObj m)
| mentions_field m k v : m !! k = Some v → mentions tag v → mentions tag (JObj m)
| mentions_elem l v : v ∈ l → mentions tag v → mentions tag (JArr l).

Fixpoint json_size (v : json) : nat :=
  match v with
  | JArr l => S (list_sum (json_size <$> l))
  | JObj m => S (map_fold (λ _ v n, json_size v + n) 0 m)
  | _ => 1
  end.

Lemma json_size_elem l v : v ∈ l → json_size v < json_size (JArr l).
Proof.
  intros Hv. cbn [json_size]. induction l as [|x l IH]; [by apply not_elem_of_nil in Hv|].
  rewrite fmap_cons. unfold list_sum in *; cbn [foldr] in *.
  apply elem_of_cons in Hv as [->|?%IH]; lia.
Qed.

Lemma json_size_field m k v : m !! k = Some v → json_size v < json_size (JObj m).
Proof.
  intros Hk. cbn [json_size]. rewrite (map_fold_delete_L _ _ k v m); [lia| |done].
  intros. lia.
Qed.

Lemma mentions_arr tag l : mentions tag (JArr l) ↔ ∃ v, v ∈ l ∧ mentions tag v.
Proof. split; [by inversion_clear 1; eauto|intros (? & ? & ?); by eapply mentions_elem]. Qed.

Lemma mentions_obj tag m :
  mentions tag (JObj m) ↔
  ∃ k v, m !! k = Some v ∧ ((reference_key k = true ∧ v = JStr tag) ∨ mentions tag v).
Proof.
  split; [inversion_clear 1; eauto 6|].
  intros (k & v & Hk & [[? ->]|?]); [by eapply mentions_key|by eapply mentions_field].
Qed.

Lemma references_obj m tags :
  references (JObj m) tags = true ↔
  ∃ k v, m !! k = Some v ∧
    ((reference_key k = true ∧ ∃ tag, v = JStr tag ∧ tag ∈ tags) ∨ references v tags = true).
Proof.
  cbn [references]. rewrite map_fold_foldr. setoid_rewrite <-(elem_of_map_to_list m).
  induction (map_to_list m) as [|[k v] l IH]; cbn [foldr uncurry].
  { split; [done|]. by intros (? & ? & ?%not_elem_of_nil & _). }
  rewrite !orb_true_iff, IH, andb_true_iff. split.
  - intros [[[Hk Ht]|?]|(k' & v' & ? & ?)].
    + exists k, v. split; [by left|left]. destruct v as [| | |s| |]; try done.
      apply bool_decide_eq_true in Ht. split; [done|]. by exists s.
    + exists k, v. split; [by left|by right].
    + exists k', v'. split; [by right|done].
  - intros (k' & v' & [[= -> ->]|?]%elem_of_cons & Hr); [left|right; eauto].
    destruct Hr as [(? & t & -> & ?)|?]; [left|by right]. cbn [as_string]. by rewrite bool_decide_true.
Qed.

(** [references] finds exactly the values that mention one of the tags. *)
Lemma references_spec v tags : references v tags = true ↔ ∃ tag, tag ∈ tags ∧ mentions tag v.
Proof.
  revert v. apply (well_founded_induction (well_founded_ltof _ json_size)). unfold ltof.
  intros v IH. destruct v as [| | | |l|m]; try (split; [done|intros (? & _ & Hm); by inversion Hm]).
  - cbn [references]. rewrite existsb_exists. setoid_rewrite <-list_elem_of_In. split.
    + intros (v & Hv & (tag & ? & ?)%IH); [|by apply json_size_elem].
      exists tag. split; [done|]. by eapply mentions_elem.
    + intros (tag & ? & (v & Hv & ?)%mentions_arr). exists v. split; [done|].
      apply IH; [by apply json_size_elem|eauto].
  - rewrite references_obj. split.
    + intros (k & v & Hk & [(? & tag & -> & ?)|(tag & ? & ?)%IH]).
      * exists tag. split; [done|]. by eapply mentions_key.
      * exists tag. split; [done|]. by eapply mentions_field.
      * by eapply json_size_field.
    + intros (tag & Ht & (k & v & Hk & [[? ->]|?])%mentions_obj); eexists k, _; (split; [done|]).
      * left. eauto.
      * right. apply IH; [by eapply json_size_field|eauto].
Qed.

Lemma references_false v tags : references v tags = false → ∀ tag, tag ∈ tags → ¬ mentions tag v.
Proof. intros Hr tag Ht Hm. assert (references v tags = true) by (apply references_spec; eauto). congruence. Qed.

(** ** The changed outbounds *)

Section outbounds.
Context `{PlanEnv}.

Lemma elem_of_plan_removed oldOut newOut tag :
  tag ∈ plan_removed oldOut newOut ↔ ∃ row, oldOut !! tag = Some row ∧ newOut !! tag ≠ Some row.
Proof.
  unfold plan_removed. rewrite list_elem_of_fmap. setoid_rewrite list_elem_of_filter.
  setoid_rewrite map_range_perm. split.
  - intros ([t row] & -> & ? & ?%elem_of_map_to_list). eauto.
  - intros (row & ? & ?). exists (tag, row). by rewrite elem_of_map_to_list.
Qed.

Lemma plan_removed_NoDup oldOut newOut : NoDup (plan_removed oldOut newOut).
Proof.
  unfold plan_removed. apply NoDup_fmap_2_strong.
  - intros [t r] [t' r'] [_ Hx]%list_elem_of_filter [_ Hy]%list_elem_of_filter; simpl; intros <-.
    rewrite map_range_perm, elem_of_map_to_list in Hx, Hy. congruence.
  - apply NoDup_filter. rewrite map_range_perm. apply NoDup_map_to_list.
Qed.

(** The indexes and tags the loop over the next outbounds collects. *)
Lemma plan_added_spec oldOut l index added :
  plan_added oldOut index l = Ok added →
  (∀ i tag, (i, tag) ∈ added ↔ ∃ j next, i = index + j ∧ l !! j = Some (JObj next) ∧
     field next "tag" = JStr tag ∧ oldOut !! tag ≠ Some next) ∧
  StronglySorted lt added.*1.
Proof.
  revert index added. induction l as [|v l IH]; intros index added; cbn [plan_added].
  { intros [= <-]. split; [|constructor]. intros i tag. split; [by intros ?%not_elem_of_nil|].
    by intros (? & ? & _ & ? & _). }
  intros Hp. inv_bind Hp. inv_bind Hp. inv_bind Hp. destruct (IH _ _ E1) as [Hin Hsort].
  destruct v as [| | | | |next]; try done. injection E as ->. clear IH E1.
  destruct (field a "tag") as [| | |t| |] eqn:Et; try done. injection E0 as ->.
  assert (∀ i tag, (i, tag) ∈ a1 ↔ ∃ j next, i = index + S j ∧ l !! j = Some (JObj next) ∧
     field next "tag" = JStr tag ∧ oldOut !! tag ≠ Some next) as Hin'.
  { intros i tag. rewrite Hin. split; intros (j & n & -> & ?); exists j, n; (split; [lia|done]). }
  assert (∀ i tag, (∃ j next, i = index + j ∧ (JObj a :: l) !! j = Some (JObj next) ∧
     field next "tag" = JStr tag ∧ oldOut !! tag ≠ Some next) ↔
     (i = index ∧ tag = a0 ∧ oldOut !! a0 ≠ Some a) ∨ (i, tag) ∈ a1) as Hcons.
  { intros i tag. rewrite Hin'. split.
    - intros ([|j] & n & -> & Hj & ? & ?); [left|right; eauto 6]. injection Hj as <-.
      assert (tag = a0) as -> by congruence. split_and!; [lia|done..].
    - intros [(-> & -> & ?)|(j & n & -> & ?)]; [exists 0, a|exists (S j), n]; (split; [lia|done]). }
  destruct (decide (oldOut !! a0 ≠ Some a)) as [Hne|Heq]; injection Hp as <-; split.
  - intros i tag. rewrite Hcons, elem_of_cons. intuition congruence.
  - cbn [fmap list_fmap fst]. constructor; [done|]. apply Forall_forall. intros x Hx.
    apply list_elem_of_fmap in Hx as ([i t] & -> & (j & ? & -> & _)%Hin'). simpl. lia.
  - intros i tag. rewrite Hcons. tauto.
  - done.
Qed.

(** What acceptance says of the outbounds. *)
Record outbounds_ok (before after oldRoute : object) (oldOut newOut : gmap string object)
    (changedOut : gset string) (removed : list string) (added : list nat) : Prop := {
  oo_changed : ∀ tag, tag ∈ changedOut ↔ oldOut !! tag ≠ newOut !! tag;
  oo_removed : ∀ tag, tag ∈ removed ↔ is_Some (oldOut !! tag) ∧ tag ∈ changedOut;
  oo_removed_NoDup : NoDup removed;
  oo_added : ∀ i, i ∈ added ↔ ∃ tag row, rows after "outbounds" !! i = Some (JObj row) ∧
    field row "tag" = JStr tag ∧ tag ∈ changedOut;
  oo_sorted : StronglySorted lt added;
  oo_independent : ∀ tag row, tag ∈ changedOut → oldOut !! tag = Some row ∨ newOut !! tag = Some row →
    (field row "type" = JStr "direct" ∨ field row "type" = JStr "socks") ∧ field row "detour" = JNull;
  oo_global : ∀ tag, tag ∈ changedOut → ¬ mentions tag (JObj (without before ["outbounds"; "route"])) ∧
    ¬ mentions tag (JObj (without oldRoute ["rules"]));
  oo_others : ∀ tag other row, tag ∈ changedOut → oldOut !! other = Some row → other ∉ changedOut →
    ¬ mentions tag (JObj row);
}.

Lemma independent_spec row :
  independent row = true → ∀ r, row = Some r →
  (field r "type" = JStr "direct" ∨ field r "type" = JStr "socks") ∧ field r "detour" = JNull.
Proof. intros Hi r ->. apply andb_true_iff in Hi as [?%bool_decide_eq_true ?%bool_decide_eq_true]. done. Qed.

Lemma plan_outbounds_ok before after oldRoute oldOut newOut changedOut removed added :
  named (rows after "outbounds") newOut →
  plan_outbounds before after oldRoute oldOut newOut = Ok (changedOut, removed, added) →
  outbounds_ok before after oldRoute oldOut newOut changedOut removed added.
Proof.
  intros Hnew. unfold plan_outbounds. intros Hp. inv_bind Hp.
  destruct (negb _) eqn:Hind in Hp; [done|]. destruct (references _ _ || _) eqn:Href in Hp; [done|].
  destruct (existsb _ _) eqn:Hoth in Hp; [done|]. injection Hp as <- <- <-.
  destruct (plan_added_spec _ _ _ _ E) as [Hadd Hsort].
  apply orb_false_iff in Href as [Hg1 Hg2]. apply negb_false_iff in Hind. rewrite forallb_forall in Hind.
  set (changedOut := list_to_set (plan_removed oldOut newOut ++ a.*2)) in *.
  assert (∀ tag, tag ∈ changedOut ↔ oldOut !! tag ≠ newOut !! tag) as Hch.
  { intros tag. unfold changedOut. rewrite elem_of_list_to_set, elem_of_app, elem_of_plan_removed, list_elem_of_fmap.
    split.
    - intros [(row & Ho & Hn)|([i t] & -> & (j & row & _ & Hj & Ht & Ho)%Hadd)]; [congruence|].
      destruct (nm_row _ _ Hnew _ _ Hj) as (r & t' & [= <-] & Ht' & _ & Hm). simpl. congruence.
    - intros Hne. destruct (newOut !! tag) as [row|] eqn:En.
      + right. destruct (nm_lookup _ _ Hnew _ _ En) as [[j Hj]%list_elem_of_lookup Ht].
        exists (j, tag). split; [done|]. apply Hadd. exists j, row. done.
      + left. destruct (oldOut !! tag) as [row|]; [|done]. by exists row. }
  split; [done|..].
  - intros tag. rewrite Hch, elem_of_plan_removed. split.
    + intros (row & -> & ?). split; [eauto|congruence].
    + intros [[row ->] ?]. exists row. split; congruence.
  - apply plan_removed_NoDup.
  - intros i. rewrite list_elem_of_fmap. split.
    + intros ([i' t] & -> & (j & row & -> & Hj & Ht & Ho)%Hadd). exists t, row. split_and!; [done..|].
      apply Hch. destruct (nm_row _ _ Hnew _ _ Hj) as (r & t' & [= <-] & Ht' & _ & Hm). congruence.
    + intros (tag & row & Hi & Ht & Hc%Hch). exists (i, tag). split; [done|]. apply Hadd. exists i, row.
      split_and!; [done..|]. destruct (nm_row _ _ Hnew _ _ Hi) as (r & t' & [= <-] & Ht' & _ & Hm). congruence.
  - done.
  - intros tag row Hc Hrow.
    assert (independent (oldOut !! tag) && independent (newOut !! tag) = true) as [Hi1 Hi2]%andb_true_iff.
    { apply Hind. by apply list_elem_of_In, elem_of_elements. }
    destruct Hrow; [eapply (independent_spec _ Hi1)|eapply (independent_spec _ Hi2)]; done.
  - intros tag Hc. split; eapply references_false; done.
  - intros tag other row Hc Ho Hn. eapply references_false; [|done].
    destruct (references (JObj row) changedOut) eqn:Hr; [|done]. exfalso.
    enough (existsb (λ kv : string * object, negb (bool_decide (kv.1 ∈ changedOut)) && references (JObj kv.2) changedOut)
      (map_range 2 oldOut) = true) by congruence.
    apply existsb_exists. exists (other, row). rewrite <-list_elem_of_In, map_range_perm, elem_of_map_to_list.
    cbn [fst snd]. rewrite bool_decide_false by done. done.
Qed.
End outbounds.

(** ** Users' policies *)

Section policy.
Context (dynamic : object → bool).

Definition static_rules (rules : list object) : list object := filter (λ r, dynamic r = false) rules.

(** How often a rule lists a user. *)
Definition listed_times (name : string) (row : object) : nat :=
  length (filter (name =.) (userNames row).1).

(** The policy of a user, each rule with the number of static rules before it. *)
Fixpoint user_policy (section : nat) (rules : list object) (name : string) : list (nat * object) :=
  match rules with
  | [] => []
  | row :: rules =>
      if dynamic row then
        replicate (listed_times name row) (section, without row ["auth_user"]) ++ user_policy section rules name
      else user_policy (S section) rules name
  end.

(** The rules in force for the sessions of a user, in order: static rules and
    the user's own, without the list of users. *)
Fixpoint effective (rules : list object) (name : string) : list (object + object) :=
  match rules with
  | [] => []
  | row :: rules =>
      if dynamic row then
        replicate (listed_times name row) (inr (without row ["auth_user"])) ++ effective rules name
      else inl row :: effective rules name
  end.

(** The sequence of rules is determined by the static rules and the policy. *)
Fixpoint weave (s : nat) (static : list object) (pol : list (nat * object)) : list (object + object) :=
  match pol with
  | [] => inl <$> static
  | (k, r) :: pol => (inl <$> take (k - s) static) ++ inr r :: weave k (drop (k - s) static) pol
  end.

Lemma weave_replicate n s r static pol :
  weave s static (replicate n (s, r) ++ pol) = replicate n (inr r) ++ weave s static pol.
Proof.
  induction n as [|n IH]; [done|]. cbn [replicate app weave].
  by rewrite Nat.sub_diag, take_0, drop_0, IH.
Qed.

Lemma user_policy_section s rules name k r : (k, r) ∈ user_policy s rules name → s <= k.
Proof.
  revert s. induction rules as [|row rules IH]; intros s; cbn [user_policy]; [by intros ?%not_elem_of_nil|].
  destruct (dynamic row); [|by intros ?%IH; lia].
  rewrite elem_of_app, elem_of_replicate. intros [[[= -> _] _]|?%IH]; [done|lia].
Qed.

Lemma effective_weave rules name s :
  effective rules name = weave s (static_rules rules) (user_policy s rules name).
Proof.
  revert s. induction rules as [|row rules IH]; intros s; [done|]. cbn [effective user_policy].
  unfold static_rules. rewrite filter_cons. destruct (dynamic row) eqn:Ed.
  - rewrite decide_False by done. by rewrite weave_replicate, <-IH.
  - rewrite decide_True by done. rewrite (IH (S s)). fold (static_rules rules).
    pose proof (user_policy_section (S s) rules name) as Hs.
    destruct (user_policy (S s) rules name) as [|[k r] pol]; [done|]. cbn [weave].
    specialize (Hs k r ltac:(by left)). by replace (k - s) with (S (k - S s)) by lia.
Qed.

Lemma effective_determined rules rules' name :
  static_rules rules = static_rules rules' → user_policy 0 rules name = user_policy 0 rules' name →
  effective rules name = effective rules' name.
Proof. intros Hs Hp. by rewrite !(effective_weave _ _ 0), Hs, Hp. Qed.

(** And the policy is determined by the sequence. *)
Fixpoint unweave (s : nat) (rules : list (object + object)) : list (nat * object) :=
  match rules with
  | [] => []
  | inl _ :: rules => unweave (S s) rules
  | inr r :: rules => (s, r) :: unweave s rules
  end.

Lemma user_policy_unweave rules name s : user_policy s rules name = unweave s (effective rules name).
Proof.
  revert s. induction rules as [|row rules IH]; intros s; cbn [user_policy effective]; [done|].
  destruct (dynamic row); [|apply IH]. rewrite IH.
  induction (listed_times name row) as [|n IHn]; [done|]. cbn [replicate app unweave]. by rewrite IHn.
Qed.

(** A user no dynamic rule lists is subject to the static rules only. *)
Lemma effective_static rules name :
  (∀ row, row ∈ rules → dynamic row = true → name ∉ (userNames row).1) →
  effective rules name = inl <$> static_rules rules.
Proof.
  induction rules as [|row rules IH]; intros Hl; [done|]. cbn [effective].
  unfold static_rules. rewrite filter_cons. fold (static_rules rules).
  rewrite IH by (intros; apply Hl; [by right|done]).
  destruct (dynamic row) eqn:Ed; [|by rewrite decide_True].
  rewrite decide_False by done.
  assert (listed_times name row = 0) as ->; [|done].
  unfold listed_times. apply length_zero_iff_nil. destruct (filter _ _) as [|x l] eqn:Ef; [done|].
  assert (x ∈ filter (name =.) (userNames row).1) as [<- ?]%list_elem_of_filter by (rewrite Ef; by left).
  by destruct (Hl row ltac:(by left) Ed).
Qed.

Lemma elem_of_effective rules name r :
  inr r ∈ effective rules name ↔ ∃ k, (k, r) ∈ user_policy 0 rules name.
Proof.
  enough (∀ s, inr r ∈ effective rules name ↔ ∃ k, (k, r) ∈ user_policy s rules name) by done.
  induction rules as [|row rules IH]; intros s; cbn [effective user_policy].
  { split; [by intros ?%not_elem_of_nil|by intros [? ?%not_elem_of_nil]]. }
  destruct (dynamic row).
  - rewrite elem_of_app, elem_of_replicate, (IH s). setoid_rewrite elem_of_app.
    setoid_rewrite elem_of_replicate. split.
    + intros [[[= ->] ?]|[k ?]]; eauto 6.
    + intros [k [[[= -> ->] ?]|?]]; eauto.
  - rewrite elem_of_cons, (IH (S s)). naive_solver.
Qed.

Lemma elem_of_effective_static rules name r : inl r ∈ effective rules name ↔ r ∈ static_rules rules.
Proof.
  unfold static_rules. induction rules as [|row rules IH]; cbn [effective].
  { split; by intros ?%not_elem_of_nil. }
  rewrite filter_cons. destruct (dynamic row).
  - rewrite decide_False by done. rewrite elem_of_app, elem_of_replicate, IH. naive_solver.
  - rewrite decide_True by done. rewrite !elem_of_cons, IH. naive_solver.
Qed.
End policy.
