(* ===== verification/UserPlanPolicy.v ===== *)
(** * Policies, reused rules and touched inbounds of a plan

    The remaining loops of [planUserUpdate]: the policies of the users, the
    positions of reused rules, and the inbounds to publish. *)
From S2P Require Import Prelude Json HotRules UserPlan UserPlanSpec.

Section policies.
Context (known blocked changedOut : gset string) (oldOut newOut : gmap string object).

Notation dynamic := (λ row, dynamicRule row known blocked).

(** A rule the plan accepts: a static rule does not depend on a changed
    outbound, a user rule routes to an outbound of one of the two
    configurations. *)
Definition rule_fits (row : object) : Prop :=
  if dynamicRule row known blocked then
    ∀ tag, field row "outbound" = JStr tag → is_Some (newOut !! tag) ∨ is_Some (oldOut !! tag)
  else ∀ tag, tag ∈ changedOut → ¬ mentions tag (JObj row).

Lemma policy_names st row names st' :
  fold_result (λ st name,
    let normalized := without row ["auth_user"] in
    match as_string (field row "outbound") with
    | Some tag =>
        if decide (newOut !! tag = None ∧ oldOut !! tag = None)
        then Err (ENew "unknown user outbound")
        else Ok (mkPolicies (<[name := policy_of (byUser st) name ++ [(section st, normalized)]]> (byUser st))
                            (fixed st) (section st))
    | None => Ok (mkPolicies (<[name := policy_of (byUser st) name ++ [(section st, normalized)]]> (byUser st))
                             (fixed st) (section st))
    end) names st = Ok st' →
  fixed st' = fixed st ∧ section st' = section st ∧
  ∀ name, policy_of (byUser st') name =
    policy_of (byUser st) name ++ replicate (length (filter (name =.) names)) (section st, without row ["auth_user"]).
Proof.
  revert st. induction names as [|n names IH]; intros st; cbn [fold_result].
  { intros [= <-]. split_and!; [done..|]. intros name. by rewrite app_nil_r. }
  intros Hf. inv_bind Hf.
  assert (a = mkPolicies (<[n := policy_of (byUser st) n ++ [(section st, without row ["auth_user"])]]> (byUser st))
                         (fixed st) (section st)) as ->.
  { destruct (as_string _); [destruct (decide _)|]; by simplify_eq. }
  destruct (IH _ Hf) as (-> & -> & Hby). split_and!; [done..|]. intros name. rewrite Hby. cbn [byUser section].
  rewrite filter_cons. unfold policy_of at 1. rewrite lookup_insert. destruct (decide (n = name)) as [<-|Hne].
  - rewrite decide_True by done. cbn [from_option length replicate]. unfold id. by rewrite <-app_assoc.
  - rewrite decide_False by congruence. done.
Qed.

Lemma policies_from rules st st' :
  fold_result (policy_row known blocked changedOut oldOut newOut) rules st = Ok st' →
  ∃ objs, rules = JObj <$> objs ∧ Forall rule_fits objs ∧
    fixed st' = fixed st ++ static_rules dynamic objs ∧
    ∀ name, policy_of (byUser st') name = policy_of (byUser st) name ++ user_policy dynamic (section st) objs name.
Proof.
  revert st. induction rules as [|v rules IH]; intros st; cbn [fold_result].
  { intros [= <-]. exists []. split_and!; [done|constructor|by rewrite app_nil_r|]. intros. by rewrite app_nil_r. }
  intros Hf. inv_bind Hf. destruct (IH _ Hf) as (objs & -> & Hfit & Hfix & Hpol). clear IH Hf.
  unfold policy_row in E. destruct v as [| | | | |row]; try done. cbn [as_object] in E.
  exists (row :: objs). split; [done|]. unfold static_rules in *. rewrite filter_cons. cbn [user_policy].
  destruct (dynamicRule row known blocked) eqn:Ed; cbn [negb] in E.
  - assert (rule_fits row) as Hrow.
    { unfold rule_fits. rewrite Ed. intros tag Ht. rewrite Ht in E. cbn [as_string] in E.
      destruct (newOut !! tag) eqn:En; [eauto|]. destruct (oldOut !! tag) eqn:Eo; [eauto|]. exfalso.
      destruct (userNames row) as [names ok] eqn:Hn. unfold dynamicRule in Ed. rewrite Hn in Ed.
      destruct names as [|n names]; [|cbn [fold_result fst] in E; by rewrite decide_True in E].
      rewrite !andb_true_iff in Ed. by destruct Ed as [[[[_ ?] _] _] _]. }
    destruct (policy_names _ _ _ _ E) as (Hf' & Hs & Hp). rewrite decide_False by done. split_and!.
    + by constructor.
    + congruence.
    + intros name. rewrite Hpol, Hp, Hs, <-app_assoc. done.
  - destruct (references (JObj row) changedOut) eqn:Er; [done|]. injection E as <-. cbn [fixed byUser section] in *.
    rewrite decide_True by done. split_and!.
    + constructor; [|done]. unfold rule_fits. rewrite Ed. by apply references_false.
    + by rewrite Hfix, <-app_assoc.
    + done.
Qed.

Lemma policies_ok rules st :
  policies known blocked changedOut oldOut newOut rules = Ok st →
  ∃ objs, rules = JObj <$> objs ∧ Forall rule_fits objs ∧ fixed st = static_rules dynamic objs ∧
    ∀ name, policy_of (byUser st) name = user_policy dynamic 0 objs name.
Proof. intros (objs & ? & ? & ? & ?)%policies_from. eauto. Qed.

(** A dynamic rule lists no blocked and no empty name. *)
Lemma dynamic_not_blocked row name :
  dynamicRule row known blocked = true → name ∈ (userNames row).1 → name ≠ "" ∧ name ∉ blocked.
Proof.
  unfold dynamicRule. destruct (userNames row) as [names ok]. rewrite !andb_true_iff, forallb_forall.
  intros [[[[[_ Hb] _] _] _] _] Hn. cbn [fst] in Hn. apply list_elem_of_In in Hn. specialize (Hb _ Hn).
  apply negb_true_iff, bool_decide_eq_false in Hb. tauto.
Qed.

Lemma policy_changed_false old new :
  policy_changed changedOut old new = false →
  old = new ∧ ∀ k r tag, (k, r) ∈ old → tag ∈ changedOut → ¬ mentions tag (JObj r).
Proof.
  unfold policy_changed. intros [Heq Hex]%orb_false_iff. apply bool_decide_eq_false in Heq. apply dec_stable in Heq.
  split; [done|]. intros k r tag Hin Ht. eapply references_false; [|done].
  destruct (references (JObj r) changedOut) eqn:Er; [|done]. exfalso.
  enough (existsb (λ item : nat * object, references (JObj item.2) changedOut) (old ++ new) = true) by congruence.
  apply existsb_exists. exists (k, r). rewrite <-list_elem_of_In. split; [|done]. apply elem_of_app. by left.
Qed.

Lemma policy_changed_true old new :
  policy_changed changedOut old new = true →
  old ≠ new ∨ ∃ k r tag, ((k, r) ∈ old ∨ (k, r) ∈ new) ∧ tag ∈ changedOut ∧ mentions tag (JObj r).
Proof.
  unfold policy_changed. intros [?%bool_decide_eq_true|Hex]%orb_true_iff; [by left|right].
  apply existsb_exists in Hex as ([k r] & Hin & (tag & ? & ?)%references_spec).
  apply list_elem_of_In, elem_of_app in Hin. exists k, r, tag. done.
Qed.
End policies.

(** ** The reused rules *)

Section rules.
Context `{PlanEnv}.

Definition hash_list (m : gmap string (list nat)) (h : string) : list nat := default [] (m !! h).

Lemma hash_list_insert m h l h' :
  hash_list (<[h := l]> m) h' = if decide (h = h') then l else hash_list m h'.
Proof. unfold hash_list. rewrite lookup_insert. by destruct (decide (h = h')). Qed.

Lemma rule_hashes_snoc l r :
  rule_hashes (l ++ [r]) =
  <[Fingerprint r := hash_list (rule_hashes l) (Fingerprint r) ++ [length l]]> (rule_hashes l).
Proof.
  unfold rule_hashes. rewrite imap_app, foldl_app. cbn [imap foldl fst snd compose].
  by rewrite Nat.add_0_r.
Qed.

Lemma rule_hashes_spec l :
  (∀ h k, k ∈ hash_list (rule_hashes l) h ↔ ∃ r, l !! k = Some r ∧ Fingerprint r = h) ∧
  (∀ h, StronglySorted lt (hash_list (rule_hashes l) h)).
Proof.
  induction l as [|r l [Hin Hs]] using rev_ind.
  { split; [|constructor]. intros h k. split; [by intros ?%not_elem_of_nil|by intros (? & ? & ?)]. }
  rewrite rule_hashes_snoc. split.
  - intros h k. rewrite hash_list_insert. setoid_rewrite lookup_app_Some. destruct (decide _) as [<-|Hne].
    + rewrite elem_of_snoc, Hin. split.
      * intros [(x & ? & ?)| ->]; [eauto|]. exists r. split; [|done]. right. split; [lia|]. by rewrite Nat.sub_diag.
      * intros (x & [?|[? Hx]] & ?); [eauto|]. right. apply list_lookup_singleton_Some in Hx as [? _]. lia.
    + rewrite Hin. split; [intros (x & ? & ?); eauto|].
      intros (x & [?|[? Hx]] & ?); [eauto|]. apply list_lookup_singleton_Some in Hx as [_ <-]. congruence.
  - intros h. rewrite hash_list_insert. destruct (decide _) as [<-|_]; [|done].
    apply StronglySorted_app_2; [|done|repeat constructor]. intros x y (z & Hz & _)%Hin ->%list_elem_of_singleton.
    by eapply lookup_lt_Some.
Qed.

Lemma StronglySorted_lt_NoDup (l : list nat) : StronglySorted lt l → NoDup l.
Proof.
  induction 1 as [|x l Hs IH Hall]; constructor; [|done]. intros Hx.
  rewrite Forall_forall in Hall. specialize (Hall _ Hx). lia.
Qed.

Context (oldRules : list json) (newOut : gmap string object) (known blocked : gset string).

(** The state of the loop after a prefix of the next rules. *)
Record indexing (pre : list json) (acc : gmap string (list nat) * list Z) : Prop := {
  ix_length : length acc.2 = length pre;
  ix_reused : ∀ j k, acc.2 !! j = Some (Z.of_nat k) → oldRules !! k = pre !! j ∧ is_Some (pre !! j);
  ix_inj : ∀ j j' k, acc.2 !! j = Some (Z.of_nat k) → acc.2 !! j' = Some (Z.of_nat k) → j = j';
  ix_new : ∀ j z, acc.2 !! j = Some z → (z < 0)%Z → ∃ row, pre !! j = Some (JObj row) ∧
    dynamicRule row known blocked = true ∧ ∀ tag, field row "outbound" = JStr tag → is_Some (newOut !! tag);
  ix_free : ∀ h k, k ∈ hash_list acc.1 h →
    (∀ j, acc.2 !! j ≠ Some (Z.of_nat k)) ∧ ∃ r, oldRules !! k = Some r ∧ Fingerprint r = h;
  ix_sorted : ∀ h, NoDup (hash_list acc.1 h);
}.

Lemma indexing_init : indexing [] (rule_hashes oldRules, []).
Proof.
  destruct (rule_hashes_spec oldRules) as [Hin Hs]. split; cbn [fst snd]; try done.
  - intros h k Hk%Hin. done.
  - intros h. by apply StronglySorted_lt_NoDup.
Qed.

Lemma indexing_reuse pre byHash indexes next candidate rest :
  indexing pre (byHash, indexes) →
  hash_list byHash (Fingerprint next) = candidate :: rest → oldRules !! candidate = Some next →
  indexing (pre ++ [next]) (<[Fingerprint next := rest]> byHash, indexes ++ [Z.of_nat candidate]).
Proof.
  intros [Hlen Hre Hinj Hnew Hfree Hs] Hh Hold. cbn [fst snd] in *.
  assert (candidate ∈ hash_list byHash (Fingerprint next)) as Hc by (rewrite Hh; by left).
  destruct (Hfree _ _ Hc) as [Hunused _].
  split; cbn [fst snd].
  - rewrite !length_app. simpl. lia.
  - intros j k [[Hj ?]|[-> ?%(inj Z.of_nat)]]%lookup_snoc_cases.
    + rewrite lookup_app_l by lia. by apply Hre.
    + subst k. by rewrite Hlen, list_lookup_middle.
  - intros j j' k [[Hj ?]|[-> Hk]]%lookup_snoc_cases [[Hj' ?]|[-> Hk']]%lookup_snoc_cases; try done.
    + by eapply Hinj.
    + rewrite Hk' in Hj. by destruct (Hunused j).
    + rewrite Hk in Hj'. by destruct (Hunused j').
  - intros j z [[Hj ?]|[-> ->]]%lookup_snoc_cases Hz; [|lia]. rewrite lookup_app_l by lia. by eapply Hnew.
  - intros h k. rewrite hash_list_insert. destruct (decide _) as [<-|Hne]; intros Hk.
    + assert (k ∈ hash_list byHash (Fingerprint next)) as Hk' by (rewrite Hh; by right).
      destruct (Hfree _ _ Hk') as [Hu ?]. split; [|done].
      intros j [[Hj ?]|[-> Heq%(inj Z.of_nat)]]%lookup_snoc_cases; [by destruct (Hu j)|].
      subst k. pose proof (Hs (Fingerprint next)) as Hnd. rewrite Hh in Hnd. by apply NoDup_cons in Hnd as [? _].
    + destruct (Hfree _ _ Hk) as [Hu (r & Hr & Hfp)]. split; [|eauto].
      intros j [[Hj ?]|[-> Heq%(inj Z.of_nat)]]%lookup_snoc_cases; [by destruct (Hu j)|]. subst k. congruence.
  - intros h. rewrite hash_list_insert. destruct (decide _) as [<-|?]; [|done].
    pose proof (Hs (Fingerprint next)) as Hnd. rewrite Hh in Hnd. by apply NoDup_cons in Hnd as [_ ?].
Qed.

Lemma indexing_new pre acc row :
  indexing pre acc → dynamicRule row known blocked = true →
  (∀ tag, field row "outbound" = JStr tag → is_Some (newOut !! tag)) →
  indexing (pre ++ [JObj row]) (acc.1, acc.2 ++ [(-1)%Z]).
Proof.
  destruct acc as [byHash indexes]. intros [Hlen Hre Hinj Hnew Hfree Hs] Hd Ht. cbn [fst snd] in *.
  split; cbn [fst snd]; try done.
  - rewrite !length_app. simpl. lia.
  - intros j k [[Hj ?]|[-> ?]]%lookup_snoc_cases; [|lia]. rewrite lookup_app_l by lia. by apply Hre.
  - intros j j' k [[Hj ?]|[-> Hk]]%lookup_snoc_cases [[Hj' ?]|[-> Hk']]%lookup_snoc_cases; try lia. by eapply Hinj.
  - intros j z [[Hj ?]|[-> ->]]%lookup_snoc_cases Hz.
    + rewrite lookup_app_l by lia. by eapply Hnew.
    + exists row. by rewrite Hlen, list_lookup_middle.
  - intros h k Hk. destruct (Hfree _ _ Hk) as [Hu ?]. split; [|done].
    intros j [[Hj ?]|[-> ?]]%lookup_snoc_cases; [by destruct (Hu j)|lia].
Qed.

Lemma indexing_step pre acc next acc' :
  indexing pre acc → rule_index oldRules newOut known blocked acc next = Ok acc' → indexing (pre ++ [next]) acc'.
Proof.
  destruct acc as [byHash indexes]. intros Hix. unfold rule_index.
  destruct (match default [] (byHash !! Fingerprint next) with [] => _ | _ => _ end) as [byHash' previous] eqn:Ep.
  assert ((byHash' = byHash ∧ previous = (-1)%Z) ∨ ∃ candidate rest,
    hash_list byHash (Fingerprint next) = candidate :: rest ∧ oldRules !! candidate = Some next ∧
    byHash' = <[Fingerprint next := rest]> byHash ∧ previous = Z.of_nat candidate) as Hcase.
  { unfold hash_list. destruct (default [] (byHash !! Fingerprint next)) as [|c rest]; [simplify_eq; by left|].
    destruct (decide (oldRules !! c = Some next)); simplify_eq; [right; eauto 6|by left]. }
  clear Ep. destruct Hcase as [[-> ->]|(c & rest & Hh & Ho & -> & ->)].
  - rewrite decide_True by lia. intros Hk. inv_bind Hk.
    destruct next as [| | | | |row]; try done. injection E as ->.
    destruct (dynamicRule a known blocked) eqn:Ed; [|done]. cbn [negb] in Hk.
    assert (acc' = (byHash, indexes ++ [(-1)%Z]) ∧ ∀ tag, field a "outbound" = JStr tag → is_Some (newOut !! tag))
      as [-> Ht].
    { destruct (field a "outbound") as [| | |tag| |]; cbn [as_string] in Hk; try (by simplify_eq).
      destruct (decide (newOut !! tag = None)) as [?|Hn]; [done|]. simplify_eq. split; [done|].
      intros t [= ->]. by apply not_eq_None_Some. }
    by apply (indexing_new _ (byHash, indexes)).
  - rewrite decide_False by lia. intros [= <-]. by eapply indexing_reuse.
Qed.

Lemma rule_indexes_ok newRules acc :
  fold_result (rule_index oldRules newOut known blocked) newRules (rule_hashes oldRules, []) = Ok acc →
  indexing newRules acc.
Proof.
  apply (fold_result_inv (rule_index oldRules newOut known blocked) indexing).
  - apply indexing_init.
  - intros pre x c c' _. apply indexing_step.
Qed.
End rules.

(** ** The users of an inbound *)

Section users.
Context `{PlanEnv}.

(** [name] is what some user of the inbound logs in with. *)
Definition has_login (row : object) (name : string) : Prop :=
  ∃ user, JObj user ∈ rows row "users" ∧ login_name row user = name.

Lemma validate_user_ok kind names ids v names' ids' :
  validate_user kind (names, ids) v = Ok (names', ids') →
  ∃ user, v = JObj user ∧
    let name := string_or_zero (field user (if bool_decide (kind = JStr "socks") then "username" else "name")) in
    name ≠ "" ∧ name ∉ names ∧ names' = names ∪ {[name]}.
Proof.
  unfold validate_user. destruct v as [| | | | |user]; try done. cbn [as_object]. intros Hk. exists user.
  split; [done|]. cbv zeta. set (name := string_or_zero _) in *.
  destruct (_ && (_ || _ || _)) in Hk; [done|]. destruct (decide _) as [?|Hn] in Hk; [done|].
  inv_bind Hk. destruct (_ && _) in Hk; [done|]. injection Hk as <- _. split_and!; [tauto..|done].
Qed.

Lemma validateUsers_names row names :
  validateUsers row = Ok names → "" ∉ names ∧ ∀ name, name ∈ names ↔ has_login row name.
Proof.
  unfold validateUsers, has_login, rows, login_name. set (kind := field row "type").
  destruct (field row "users") as [| | | |l|]; cbn [as_array default from_option id]; try done.
  { intros [= <-]. split; [set_solver|]. intros name. split; [set_solver|].
    by intros (u & ?%not_elem_of_nil & _). }
  intros Hv. inv_bind Hv. injection Hv as <-.
  apply (fold_result_inv (validate_user kind) (λ pre acc, "" ∉ acc.1 ∧ ∀ name, name ∈ acc.1 ↔
    ∃ user, JObj user ∈ pre ∧
      string_or_zero (field user (if bool_decide (kind = JStr "socks") then "username" else "name")) = name)
    l (∅, ∅) a); [| |done].
  - split; [set_solver|]. intros name. split; [set_solver|]. by intros (u & ?%not_elem_of_nil & _).
  - intros pre v [ns ds] [ns' ds'] _ [He Hin] (user & -> & Hne & _ & Hns)%validate_user_ok.
    cbn [fst] in *. cbv zeta in *. subst ns'. split; [set_solver|]. intros name.
    rewrite elem_of_union, elem_of_singleton, Hin. setoid_rewrite elem_of_snoc. split.
    + intros [(u & ? & ?)| ->]; eauto.
    + intros (u & [?|[= ->]] & ?); [left; eauto|by right].
Qed.

Lemma blocked_login row name : has_login row name → name ≠ "" → name ∈ blocked_names row.
Proof.
  intros (user & Hu & Hl) Hne. unfold blocked_names. apply elem_of_list_to_set, list_elem_of_bind.
  exists (JObj user). split; [|done]. cbn [as_object]. unfold login_name in Hl.
  apply list_elem_of_omap. eexists. split; [|rewrite (string_or_zero_field _ ltac:(rewrite Hl; done)), Hl; reflexivity].
  destruct (bool_decide _); [right; left|left].
Qed.

(** ** The inbounds to publish *)

(** An inbound that differs from the running one or has a user whose policy
    changed. *)
Definition touched (oldIn : gmap string object) (changed : gset string) (next : object) (tag : string) : Prop :=
  oldIn !! tag ≠ Some next ∨ ∃ name, has_login next name ∧ name ∈ changed.

Lemma touched_loop next (changed : gset string) c b :
  fold_result (λ (c : bool) user,
    let? row := assert_object user in Ok (c || bool_decide (login_name next row ∈ changed)))
    (rows next "users") c = Ok b →
  b = true ↔ c = true ∨ ∃ name, has_login next name ∧ name ∈ changed.
Proof.
  unfold has_login. revert c. induction (rows next "users") as [|v l IH]; intros c; cbn [fold_result].
  { intros [= <-]. split; [by left|]. intros [?|(? & (? & ?%not_elem_of_nil & _) & _)]; done. }
  intros Hf. inv_bind Hf. inv_bind E. destruct v as [| | | | |u]; try done. injection E0 as ->.
  injection E as <-. rewrite (IH _ Hf), orb_true_iff, bool_decide_eq_true. split.
  - intros [[?|?]|(n & (u & ? & ?) & ?)]; [by left|right..].
    + exists (login_name next a0). split; [|done]. exists a0. split; [by left|done].
    + exists n. split; [|done]. exists u. split; [by right|done].
  - intros [?|(n & (u & [[= ->]|?]%elem_of_cons & <-) & ?)]; [by left; left|by left; right|right]. eauto.
Qed.

Lemma plan_changed_inbounds_ok oldIn changed l index idx :
  plan_changed_inbounds oldIn changed index l = Ok idx →
  StronglySorted lt idx ∧
  (∀ i, i ∈ idx ↔ ∃ j next tag, i = index + j ∧ l !! j = Some (JObj next) ∧ field next "tag" = JStr tag ∧
     touched oldIn changed next tag) ∧
  (∀ j next, index + j ∈ idx → l !! j = Some (JObj next) → is_ok (validateUsers next) = true).
Proof.
  revert index idx. induction l as [|v l IH]; intros index idx; cbn [plan_changed_inbounds].
  { intros [= <-]. split_and!; [constructor|intros i; split|done]; [by intros ?%not_elem_of_nil|].
    by intros (? & ? & ? & _ & ? & _). }
  intros Hp. inv_bind Hp. inv_bind Hp. inv_bind Hp. destruct v as [| | | | |next]; try done. injection E as ->.
  destruct (field a "tag") as [| | |t| |] eqn:Et; try done. injection E0 as ->.
  apply touched_loop in E1. rewrite bool_decide_eq_true in E1. fold (touched oldIn changed a a0) in E1.
  assert (∃ rest, plan_changed_inbounds oldIn changed (S index) l = Ok rest ∧
    idx = (if a1 then index :: rest else rest) ∧ (a1 = true → is_ok (validateUsers a) = true))
    as (rest & Hr & -> & Hval).
  { destruct a1; [|exists idx; by split_and!]. inv_bind Hp. inv_bind Hp. injection Hp as <-. eexists. by split_and!. }
  clear Hp. destruct (IH _ _ Hr) as (Hs & Hin & Hok). clear IH.
  assert (∀ i, i ∈ rest ↔ ∃ j next tag, i = index + S j ∧ l !! j = Some (JObj next) ∧
     field next "tag" = JStr tag ∧ touched oldIn changed next tag) as Hin'.
  { intros i. rewrite Hin. split; intros (j & n & t & -> & ?); exists j, n, t; (split; [lia|done]). }
  assert (∀ i, i ∈ (if a1 then index :: rest else rest) ↔ (i = index ∧ touched oldIn changed a a0) ∨ i ∈ rest) as Hif.
  { intros i. rewrite <-E1. destruct a1; [rewrite elem_of_cons|]; intuition done. }
  split_and!.
  - destruct a1; [|done]. constructor; [done|]. apply Forall_forall. intros i (j & ? & ? & -> & _)%Hin'. lia.
  - intros i. rewrite Hif, Hin'. split.
    + intros [[-> ?]|(j & n & t & -> & ?)]; [exists 0, a, a0|exists (S j), n, t]; (split; [lia|done]).
    + intros ([|j] & n & t & -> & Hj & Ht & ?); [left|right; eauto 7]. injection Hj as <-.
      split; [lia|]. congruence.
  - intros [|j] n; rewrite Hif; intros Hj Hn.
    + injection Hn as <-. apply Hval, E1. destruct Hj as [[_ ?]|(j & ? & ? & ? & _)%Hin']; [done|lia].
    + destruct Hj as [[? _]|Hj]; [lia|]. apply (Hok j); [|done]. by rewrite <-Nat.add_succ_comm in Hj.
Qed.
End users.
