(* ===== verification/UserPlanProps.v ===== *)
(** * What an accepted user update may change

    The properties of [planUserUpdate]: which parts of the configuration an
    accepted update leaves alone, that the plan describes the difference
    exactly, whose sessions it revokes, and that it never panics. *)
From S2P Require Import Prelude Json HotRules UserPlan UserPlanSpec UserPlanPolicy.

(** ** The parts of a configuration *)

Definition inbounds_of (o : object) : gmap string object :=
  match namedRows (field o "inbounds") with Ok m => m | Err _ => ∅ end.
Definition outbounds_of (o : object) : gmap string object :=
  match namedRows (field o "outbounds") with Ok m => m | Err _ => ∅ end.
Definition rules_of (o : object) : list json := rows (nested o "route") "rules".

Section props.
Context `{PlanEnv}.

(** The user rules of an update: those [dynamicRule] accepts for the known and
    blocked names of the two configurations. *)
Definition user_rule (before after row : object) : bool :=
  match plan_inbounds (inbounds_of before) (inbounds_of after) with
  | Ok (known, blocked) => dynamicRule row known blocked
  | Err _ => false
  end.

(** The rules in force for a user. *)
Definition rules_for (before after o : object) (name : string) : list (object + object) :=
  effective (user_rule before after) (omap as_object (rules_of o)) name.

Lemma planned_parts before after plan (p : planned before after plan) :
  inbounds_of before = pl_oldIn _ _ _ p ∧ inbounds_of after = pl_newIn _ _ _ p ∧
  outbounds_of before = pl_oldOut _ _ _ p ∧ outbounds_of after = pl_newOut _ _ _ p ∧
  user_rule before after = λ row, dynamicRule row (pl_known _ _ _ p) (pl_blocked _ _ _ p).
Proof.
  unfold user_rule, inbounds_of, outbounds_of.
  by rewrite (pl_in1 _ _ _ p), (pl_in2 _ _ _ p), (pl_out1 _ _ _ p), (pl_out2 _ _ _ p), (pl_inbounds _ _ _ p).
Qed.

Lemma planned_outbounds before after plan (p : planned before after plan) :
  outbounds_ok before after (nested before "route") (outbounds_of before) (outbounds_of after)
    (pl_changedOut _ _ _ p) (removedOutbounds plan) (outboundIndexes plan).
Proof.
  destruct (planned_parts _ _ _ p) as (_ & _ & -> & -> & _).
  apply plan_outbounds_ok; [apply namedRows_named, (pl_out2 _ _ _ p)|apply (pl_outbounds _ _ _ p)].
Qed.

Lemma omap_as_object (l : list object) : omap as_object (JObj <$> l) = l.
Proof. induction l as [|x l IH]; [done|]. cbn. by rewrite IH. Qed.

(** ** Topology *)

Lemma size_eq_dom (a b : gmap string object) :
  (∀ k x, a !! k = Some x → is_Some (b !! k)) → size a = size b → dom a = dom b.
Proof.
  intros Hsub Hsize. apply set_subseteq_size_eq; [|by rewrite !size_dom, Hsize].
  intros k [x Hx]%elem_of_dom. apply elem_of_dom. by eapply Hsub.
Qed.

(** C15: an accepted update changes users only.  Everything outside the
    inbounds, the outbounds and the route, and everything in the route but its
    rules, is the same; the inbounds have the same tags; an inbound that
    changed is a VLESS, VMess or SOCKS inbound with valid users before and
    after and differs in nothing but its users and, for SOCKS, in the
    authentication requirement, which is never dropped; and the rules that are
    not user rules are the same, in the same order. *)
Theorem plan_keeps_topology before after plan :
  planUserUpdate before after = Ok plan →
  (∀ k, k ∉ ["inbounds"; "outbounds"; "route"] → before !! k = after !! k) ∧
  (∀ k, k ≠ "rules" → nested before "route" !! k = nested after "route" !! k) ∧
  dom (inbounds_of before) = dom (inbounds_of after) ∧
  (∀ tag old next, inbounds_of before !! tag = Some old → inbounds_of after !! tag = Some next → old ≠ next →
     supported (field old "type") = true ∧ is_ok (validateUsers old) = true ∧ is_ok (validateUsers next) = true ∧
     (∀ k, k ≠ "users" → k ≠ "require_auth" ∨ field old "type" ≠ JStr "socks" → old !! k = next !! k) ∧
     (field old "type" = JStr "socks" → field old "require_auth" = JBool true →
      field next "require_auth" = JBool true)) ∧
  static_rules (user_rule before after) (omap as_object (rules_of before)) =
  static_rules (user_rule before after) (omap as_object (rules_of after)).
Proof.
  intros [p]%plan_accepted. destruct (planned_parts _ _ _ p) as (Hi1 & Hi2 & _ & _ & Hd).
  destruct (plan_inbounds_ok _ _ _ _ (pl_inbounds _ _ _ p)) as (Hfits & _ & _).
  rewrite <-Hi1, <-Hi2 in Hfits. split_and!.
  - intros k. apply without_eq, (pl_global _ _ _ p).
  - intros k Hk. apply (without_eq _ _ ["rules"]); [apply (pl_route _ _ _ p)|]. by intros ?%list_elem_of_singleton.
  - apply size_eq_dom; [|rewrite Hi1, Hi2; apply (pl_size _ _ _ p)].
    intros tag old (next & ? & _)%Hfits. eauto.
  - intros tag old next Ho Hn Hne. destruct (Hfits _ _ Ho) as (n & Hn' & Hfit). simplify_eq.
    unfold inbound_fits in Hfit. destruct (managed old next) eqn:Hm; [|done].
    unfold managed in Hm. rewrite !andb_true_iff in Hm. destruct Hm as [[? ?] ?], Hfit as [Hwo ?].
    split_and!; [done..| |done]. intros k Hk Hk'. eapply without_eq; [done|].
    unfold user_fields. case_bool_decide; set_solver.
  - destruct (policies_ok _ _ _ _ _ _ _ (pl_pol1 _ _ _ p)) as (l1 & Hl1 & _ & Hf1 & _).
    destruct (policies_ok _ _ _ _ _ _ _ (pl_pol2 _ _ _ p)) as (l2 & Hl2 & _ & Hf2 & _).
    unfold rules_of. rewrite Hl1, Hl2, !omap_as_object, Hd, <-Hf1, <-Hf2. apply (pl_fixed _ _ _ p).
Qed.

(** ** Outbounds *)

(** The outbound rows at the given indexes, installed over a table. *)
Definition install (l : list json) (m : gmap string object) (i : nat) : gmap string object :=
  match l !! i with
  | Some (JObj row) => <[string_or_zero (field row "tag") := row]> m
  | _ => m
  end.

Lemma install_cases l newOut m i k :
  named l newOut →
  (∃ row, l !! i = Some (JObj row) ∧ field row "tag" = JStr k) ∧ install l m i !! k = newOut !! k ∨
  (∀ row, l !! i = Some (JObj row) → field row "tag" ≠ JStr k) ∧ install l m i !! k = m !! k.
Proof.
  intros Hn. unfold install. destruct (l !! i) as [v|] eqn:Hi; [|by right].
  destruct (nm_row _ _ Hn _ _ Hi) as (row & tag & -> & Ht & _ & Hm). rewrite Ht. cbn [string_or_zero as_string default from_option id].
  destruct (decide (tag = k)) as [->|Hne].
  - left. split; [eauto|]. by rewrite lookup_insert, decide_True.
  - right. split; [intros r [= <-]; congruence|]. by rewrite lookup_insert_ne.
Qed.

Lemma install_hit l newOut idx m k :
  named l newOut →
  m !! k = newOut !! k ∨ (∃ i row, i ∈ idx ∧ l !! i = Some (JObj row) ∧ field row "tag" = JStr k) →
  foldl (install l) m idx !! k = newOut !! k.
Proof.
  intros Hn. revert m. induction idx as [|i idx IH]; intros m Hk; cbn [foldl].
  { by destruct Hk as [?|(? & ? & ?%not_elem_of_nil & _)]. }
  apply IH. destruct (install_cases l newOut m i k Hn) as [[_ ?]|[Hno ->]]; [by left|].
  destruct Hk as [?|(j & row & [->|?]%elem_of_cons & Hj & ?)]; [by left| |right; eauto].
  by destruct (Hno _ Hj).
Qed.

Lemma install_miss l newOut idx m k :
  named l newOut → (∀ i row, i ∈ idx → l !! i = Some (JObj row) → field row "tag" ≠ JStr k) →
  foldl (install l) m idx !! k = m !! k.
Proof.
  intros Hn. revert m. induction idx as [|i idx IH]; intros m Hk; cbn [foldl]; [done|].
  rewrite IH by (intros; eapply Hk; [by right|done]).
  destruct (install_cases l newOut m i k Hn) as [[(row & Hr & ?) _]|[_ ->]]; [|done].
  by destruct (Hk i row ltac:(by left) Hr).
Qed.

(** The plan describes the change of the outbounds exactly.  Taking the
    listed tags out of the running outbounds and installing the outbounds at
    the listed positions gives the outbounds of the new configuration; no tag
    is listed twice; what is taken out or installed is a direct or SOCKS
    outbound that dials by itself; and no part of the configuration that stays
    refers to it: neither the global settings nor the route settings, nor
    another outbound, nor a rule that is not a user rule. *)
Lemma plan_describes_outbounds before after plan :
  planUserUpdate before after = Ok plan →
  foldl (install (rows after "outbounds")) (foldl (λ m t, delete t m) (outbounds_of before) (removedOutbounds plan))
        (outboundIndexes plan) = outbounds_of after ∧
  NoDup (removedOutbounds plan) ∧ NoDup (outboundIndexes plan) ∧
  ∀ tag, outbounds_of before !! tag ≠ outbounds_of after !! tag →
    (∀ row, outbounds_of before !! tag = Some row ∨ outbounds_of after !! tag = Some row →
       (field row "type" = JStr "direct" ∨ field row "type" = JStr "socks") ∧ field row "detour" = JNull) ∧
    ¬ mentions tag (JObj (without before ["outbounds"; "route"])) ∧
    ¬ mentions tag (JObj (without (nested before "route") ["rules"])) ∧
    (∀ other row, outbounds_of before !! other = Some row → outbounds_of after !! other = Some row →
       ¬ mentions tag (JObj row)) ∧
    (∀ row, row ∈ static_rules (user_rule before after) (omap as_object (rules_of after)) → ¬ mentions tag (JObj row)).
Proof.
  intros [p]%plan_accepted. pose proof (planned_outbounds _ _ _ p) as [Hch Hrem Hnd Hadd Hsort Hind Hglob Hoth].
  destruct (planned_parts _ _ _ p) as (_ & _ & _ & Ho2 & Hd).
  assert (named (rows after "outbounds") (outbounds_of after)) as Hnamed.
  { rewrite Ho2. apply namedRows_named, (pl_out2 _ _ _ p). }
  split_and!; [|done|by apply StronglySorted_lt_NoDup|].
  - apply map_eq. intros k. destruct (decide (k ∈ pl_changedOut _ _ _ p)) as [Hc|Hc].
    + destruct (outbounds_of after !! k) as [row|] eqn:Ea.
      * rewrite <-Ea. apply install_hit; [done|right].
        destruct (nm_lookup _ _ Hnamed _ _ Ea) as [[i Hi]%list_elem_of_lookup Ht].
        exists i, row. split_and!; [|done..]. apply Hadd. eauto.
      * assert (is_Some (outbounds_of before !! k)) as Hb.
        { apply not_eq_None_Some. intros Hn. apply Hch in Hc. congruence. }
        rewrite (install_miss _ (outbounds_of after)); [|done|].
        -- rewrite lookup_foldl_delete, decide_True; [done|]. by apply Hrem.
        -- intros i row Hi Hr Ht. destruct (nm_row _ _ Hnamed _ _ Hr) as (? & ? & [= <-] & ? & _ & ?). congruence.
    + rewrite (install_miss _ (outbounds_of after)); [|done|].
      * rewrite lookup_foldl_delete, decide_False by (intros [_ ?]%Hrem; done).
        apply dec_stable. intros Hne. by apply Hc, Hch.
      * intros i row (tag & r & Hr & Ht & Htc)%Hadd Hr' Ht'. simplify_eq. congruence.
  - intros tag Hne%Hch. destruct (Hglob _ Hne) as [? ?]. split_and!; [by eauto|done..| |].
    + intros other row Hb Ha. eapply Hoth; [done..|]. rewrite Hch. congruence.
    + intros row. destruct (policies_ok _ _ _ _ _ _ _ (pl_pol2 _ _ _ p)) as (l2 & Hl2 & Hfit & _ & _).
      unfold rules_of. rewrite Hl2, omap_as_object, Hd. intros [Hs Hr]%list_elem_of_filter.
      rewrite Forall_forall in Hfit. specialize (Hfit _ Hr). unfold rule_fits in Hfit. rewrite Hs in Hfit. by apply Hfit.
Qed.

(** ** Rules *)

(** No rule of the new configuration routes to an outbound that is taken out. *)
Lemma planned_targets before after plan (p : planned before after plan) row tag :
  JObj row ∈ rules_of after → field row "outbound" = JStr tag →
  outbounds_of after !! tag = None → outbounds_of before !! tag = None.
Proof.
  intros Hrow Ht Hn. apply dec_stable. intros Hb. destruct (planned_parts _ _ _ p) as (_ & _ & Ho1 & Ho2 & _).
  pose proof (planned_outbounds _ _ _ p) as [Hch _ _ _ _ _ _ _].
  assert (tag ∈ pl_changedOut _ _ _ p) as Hc by (apply Hch; congruence).
  pose proof (pl_targets _ _ _ p) as Hk. apply list_elem_of_split in Hrow as (l1 & l2 & Heq).
  unfold rules_of in Heq. rewrite Heq, fold_result_app in Hk. inv_bind Hk. cbn [fold_result] in Hk. inv_bind Hk.
  unfold target_kept in E0. cbn [assert_object as_object result_bind] in E0. rewrite Ht in E0.
  cbn [as_string] in E0. rewrite decide_True in E0; [done|]. by rewrite <-Ho2.
Qed.

(** The rule positions of the plan are what the router expects.  There is
    one for each rule of the new configuration; a position that is not
    negative is that of an equal rule of the running configuration, and no
    running rule is used twice; a rule with a negative position is a user rule
    whose outbound, if it names one, exists in the new configuration.  No rule
    of the new configuration routes to an outbound that is taken out. *)
Lemma plan_reuses_rules before after plan (previous : list nat) :
  planUserUpdate before after = Ok plan → length previous = length (rules_of before) →
  indexes_ok (length (rules_of after)) previous (ruleIndexes plan) ∧
  (∀ j k, ruleIndexes plan !! j = Some (Z.of_nat k) → rules_of before !! k = rules_of after !! j) ∧
  (∀ j z, ruleIndexes plan !! j = Some z → (z < 0)%Z → ∃ row, rules_of after !! j = Some (JObj row) ∧
     user_rule before after row = true ∧
     ∀ tag, field row "outbound" = JStr tag → is_Some (outbounds_of after !! tag)) ∧
  (∀ row tag, JObj row ∈ rules_of after → field row "outbound" = JStr tag →
     outbounds_of after !! tag = None → outbounds_of before !! tag = None).
Proof.
  intros [p]%plan_accepted Hlen. destruct (planned_parts _ _ _ p) as (_ & _ & Ho1 & Ho2 & ->).
  destruct (rule_indexes_ok _ _ _ _ _ _ (pl_indexes _ _ _ p)) as [Hl Hre Hinj Hnew _ _]. cbn [snd] in *.
  unfold rules_of. split_and!.
  - split; [done| |done]. intros j z Hz. destruct (decide (z < 0)%Z); [lia|].
    destruct (Hre j (Z.to_nat z)) as [Heq [r Hr]]; [by rewrite Z2Nat.id by lia|].
    rewrite Hr in Heq. apply lookup_lt_Some in Heq. unfold rules_of in Hlen. lia.
  - intros j k Hk. by apply Hre.
  - rewrite Ho2. done.
  - intros row tag. by apply (planned_targets _ _ _ p).
Qed.

(** ** Sessions *)

(** A name some user of an inbound of a configuration logs in with; the empty
    name stands for sessions without authentication. *)
Definition logs_in (o : object) (name : string) : Prop :=
  name = "" ∨ ∃ tag row, inbounds_of o !! tag = Some row ∧ has_login row name.

Lemma logs_in_known before after plan (p : planned before after plan) name :
  logs_in before name ∨ logs_in after name → name = "" ∨ name ∈ pl_known _ _ _ p ∨ name ∈ pl_blocked _ _ _ p.
Proof.
  intros Hlog. destruct (decide (name = "")) as [?|Hne]; [by left|right].
  destruct (decide (name ∈ pl_blocked _ _ _ p)) as [?|Hnb]; [by right|left].
  destruct (planned_parts _ _ _ p) as (Hi1 & Hi2 & _).
  destruct (plan_inbounds_ok _ _ _ _ (pl_inbounds _ _ _ p)) as (Hfits & Hknown & Hblocked).
  assert (∃ tag old next row, inbounds_of before !! tag = Some old ∧ inbounds_of after !! tag = Some next ∧
    inbound_fits old next ∧ has_login row name ∧ (row = old ∨ row = next)) as (tag & old & next & row & Ho & Hn & Hfit & Hr & Hrow).
  { rewrite Hi1, Hi2. destruct Hlog as [[->|(tag & row & Ht & Hr)]|[->|(tag & row & Ht & Hr)]]; try done.
    - rewrite Hi1 in Ht. destruct (Hfits _ _ Ht) as (next & ? & ?). eauto 10.
    - assert (dom (pl_oldIn _ _ _ p) = dom (pl_newIn _ _ _ p)) as Hdom.
      { apply size_eq_dom; [|apply (pl_size _ _ _ p)]. intros ? ? (? & ? & _)%Hfits. eauto. }
      rewrite Hi2 in Ht. assert (is_Some (pl_oldIn _ _ _ p !! tag)) as [old Ho].
      { apply elem_of_dom. rewrite Hdom. apply elem_of_dom. eauto. }
      destruct (Hfits _ _ Ho) as (next & ? & ?). simplify_eq. eauto 10. }
  rewrite Hi1 in Ho. rewrite Hi2 in Hn. unfold inbound_fits in Hfit.
  destruct (managed old next) eqn:Hm.
  - apply Hknown. split; [done|]. exists tag, old, next. split_and!; [done..|].
    unfold managed in Hm. rewrite !andb_true_iff in Hm. destruct Hm as [[_ Hv1] Hv2]. unfold valid_names.
    destruct (validateUsers old) as [n1|] eqn:E1; [|done]. destruct (validateUsers next) as [n2|] eqn:E2; [|done].
    destruct Hrow as [->| ->]; [left|right]; [by apply (validateUsers_names _ _ E1)|by apply (validateUsers_names _ _ E2)].
  - subst next. destruct Hnb. apply Hblocked. exists tag, old, old. split_and!; [done..|].
    apply blocked_login; [|done]. by destruct Hrow as [->| ->].
Qed.

(** C16: sessions that are not revoked keep their policy.  A name that some
    inbound of either configuration authenticates (or no name at all) and that
    the plan does not list as changed is subject to the same rules in the same
    order before and after the update, and every outbound these rules refer to
    is configured the same. *)
Theorem unchanged_user_keeps_policy before after plan name :
  planUserUpdate before after = Ok plan → logs_in before name ∨ logs_in after name → name ∉ changedNames plan →
  rules_for before after before name = rules_for before after after name ∧
  ∀ r tag, inl r ∈ rules_for before after after name ∨ inr r ∈ rules_for before after after name →
    mentions tag (JObj r) → outbounds_of before !! tag = outbounds_of after !! tag.
Proof.
  intros [p]%plan_accepted Hlog Hch. apply (logs_in_known _ _ _ p) in Hlog.
  destruct (planned_parts _ _ _ p) as (_ & _ & _ & _ & Hd). unfold rules_for, rules_of. rewrite Hd.
  pose proof (planned_outbounds _ _ _ p) as [Hout _ _ _ _ _ _ _].
  destruct (policies_ok _ _ _ _ _ _ _ (pl_pol1 _ _ _ p)) as (l1 & -> & Hfit1 & Hf1 & Hp1).
  destruct (policies_ok _ _ _ _ _ _ _ (pl_pol2 _ _ _ p)) as (l2 & -> & Hfit2 & Hf2 & Hp2).
  rewrite !omap_as_object. set (dyn := λ row, dynamicRule row _ _) in *.
  assert (static_rules dyn l1 = static_rules dyn l2) as Hstatic.
  { rewrite <-Hf1, <-Hf2. apply (pl_fixed _ _ _ p). }
  assert (user_policy dyn 0 l1 name = user_policy dyn 0 l2 name ∧
    ∀ k r tag, (k, r) ∈ user_policy dyn 0 l2 name → tag ∈ pl_changedOut _ _ _ p → ¬ mentions tag (JObj r)) as [Hpol Hmen].
  { destruct (decide (name ∈ pl_known _ _ _ p)) as [Hk|Hk].
    - rewrite (pl_changed _ _ _ p) in Hch. unfold changed_names in Hch. rewrite elem_of_filter, Hp1, Hp2 in Hch.
      destruct (policy_changed _ _ _) eqn:Hpc in Hch; [by destruct Hch|].
      destruct (policy_changed_false _ _ _ Hpc) as [Heq Hm]. rewrite Heq in Hm |- *. done.
    - assert (∀ l, user_policy dyn 0 l name = []) as Hnil; [|by rewrite !Hnil; split; [|by intros ??? ?%not_elem_of_nil]].
      intros l. destruct (user_policy dyn 0 l name) as [|[k r] q] eqn:Hq; [done|]. exfalso.
      assert (inr r ∈ effective dyn l name) as Hin by (apply elem_of_effective; exists k; rewrite Hq; by left).
      rewrite effective_static in Hin; [by apply list_elem_of_fmap in Hin as (? & ? & ?)|].
      intros row _ Hdyn Hn. destruct (dynamic_not_blocked _ _ _ _ Hdyn Hn). tauto. }
  split; [by apply effective_determined|]. intros r tag Hr Hm. apply dec_stable. intros Hne%Hout.
  destruct Hr as [Hr|[k Hr]%elem_of_effective]; [|by eapply Hmen].
  apply elem_of_effective_static, list_elem_of_filter in Hr as [Hs Hr].
  rewrite Forall_forall in Hfit2. specialize (Hfit2 _ Hr). unfold rule_fits in Hfit2. fold (dyn r) in Hfit2.
  rewrite Hs in Hfit2. by eapply Hfit2.
Qed.

(** Revocation is scoped and published.  A changed name is a managed name
    whose rules differ, or whose rules refer to a changed outbound; every
    inbound that differs from the running one, or that authenticates a changed
    name, is published, no other one is, and each published inbound has valid
    users. *)
Lemma plan_publishes_inbounds before after plan :
  planUserUpdate before after = Ok plan →
  (∀ name, name ∈ changedNames plan →
     rules_for before after before name ≠ rules_for before after after name ∨
     ∃ r tag, (inr r ∈ rules_for before after before name ∨ inr r ∈ rules_for before after after name) ∧
       mentions tag (JObj r) ∧ outbounds_of before !! tag ≠ outbounds_of after !! tag) ∧
  (∀ i, i ∈ inboundIndexes plan ↔ ∃ next tag, rows after "inbounds" !! i = Some (JObj next) ∧
     field next "tag" = JStr tag ∧ touched (inbounds_of before) (changedNames plan) next tag) ∧
  (∀ i next, i ∈ inboundIndexes plan → rows after "inbounds" !! i = Some (JObj next) →
     is_ok (validateUsers next) = true).
Proof.
  intros [p]%plan_accepted. destruct (planned_parts _ _ _ p) as (Hi1 & _ & _ & _ & Hd).
  destruct (plan_changed_inbounds_ok _ _ _ _ _ (pl_touched _ _ _ p)) as (_ & Htouched & Hvalid).
  split_and!.
  - intros name. unfold rules_for, rules_of. rewrite Hd, (pl_changed _ _ _ p). unfold changed_names.
    rewrite elem_of_filter. intros [Hpc _]. pose proof (planned_outbounds _ _ _ p) as [Hout _ _ _ _ _ _ _].
    destruct (policies_ok _ _ _ _ _ _ _ (pl_pol1 _ _ _ p)) as (l1 & -> & _ & _ & Hp1).
    destruct (policies_ok _ _ _ _ _ _ _ (pl_pol2 _ _ _ p)) as (l2 & -> & _ & _ & Hp2).
    rewrite Hp1, Hp2 in Hpc. rewrite !omap_as_object.
    destruct (policy_changed_true _ _ _ Hpc) as [Hne|(k & r & tag & Hin & ?%Hout & ?)]; [left|right].
    + intros Heq. apply Hne. by rewrite !user_policy_unweave, Heq.
    + exists r, tag. split; [|done]. rewrite !elem_of_effective. destruct Hin; eauto.
  - intros i. rewrite Htouched, Hi1. split; [intros (j & n & t & -> & ?)|intros (n & t & ?)]; eauto 6.
  - intros i next Hi Hn. by eapply (Hvalid i).
Qed.

(** ** Panics *)

(** What decoding into typed options guarantees of the encoded configuration:
    outbounds are objects whose tag, if there is one, is a string, and so are
    the users of inbounds. *)
Definition well_typed (o : object) : Prop :=
  (∀ v, v ∈ rows o "outbounds" → ∃ row, v = JObj row ∧ (field row "tag" = JNull ∨ ∃ t, field row "tag" = JStr t)) ∧
  (∀ inbound v, JObj inbound ∈ rows o "inbounds" → v ∈ rows inbound "users" → ∃ user, v = JObj user).

Lemma named_row_safe m v : safe (named_row m v).
Proof. unfold named_row. repeat safe_step. Qed.

Lemma namedRows_safe v : safe (namedRows v).
Proof. unfold namedRows. repeat safe_step. apply named_row_safe. Qed.

Lemma validateUsers_safe row : safe (validateUsers row).
Proof. unfold validateUsers, validate_user. repeat safe_step. Qed.

Lemma plan_inbounds_safe oldIn newIn : safe (plan_inbounds oldIn newIn).
Proof. unfold plan_inbounds, plan_inbound. repeat safe_step. Qed.

Lemma plan_default_safe before after oldRoute :
  well_typed before → well_typed after → safe (plan_default before after oldRoute).
Proof.
  intros [Hb _] [Ha _]. unfold plan_default. destruct (oldRoute !! "final"); [done|].
  destruct (rows before "outbounds") as [|v l]; [done|]. destruct (rows after "outbounds") as [|v' l']; [done|].
  destruct (Hb v ltac:(by left)) as (r & -> & Hr), (Ha v' ltac:(by left)) as (r' & -> & Hr').
  cbn [assert_object as_object result_bind]. apply safe_bind; [|intros; repeat safe_step].
  unfold interface_eq. destruct Hr as [-> |[? ->]], Hr' as [-> |[? ->]]; done.
Qed.

Lemma plan_added_safe oldOut l newOut index :
  named l newOut → safe (plan_added oldOut index l).
Proof.
  intros Hn. assert (∀ v, v ∈ l → ∃ row tag, v = JObj row ∧ field row "tag" = JStr tag) as Hl.
  { intros v [i Hi]%list_elem_of_lookup. destruct (nm_row _ _ Hn _ _ Hi) as (row & tag & -> & ? & _). eauto. }
  clear Hn. revert index. induction l as [|v l IH]; intros index; cbn [plan_added]; [done|].
  destruct (Hl v ltac:(by left)) as (row & tag & -> & Ht). cbn [assert_object as_object result_bind].
  rewrite Ht. cbn [assert_string as_string result_bind]. repeat safe_step.
  apply IH. intros. apply Hl. by right.
Qed.

Lemma policies_safe known blocked changedOut oldOut newOut l :
  safe (policies known blocked changedOut oldOut newOut l).
Proof. unfold policies, policy_row. repeat safe_step. Qed.

Lemma plan_changed_inbounds_safe oldIn newIn changed l index :
  named l newIn → (∀ inbound v, JObj inbound ∈ l → v ∈ rows inbound "users" → ∃ user, v = JObj user) →
  safe (plan_changed_inbounds oldIn changed index l).
Proof.
  intros Hn Husers. assert (∀ v, v ∈ l → ∃ row tag, v = JObj row ∧ field row "tag" = JStr tag) as Hl.
  { intros v [i Hi]%list_elem_of_lookup. destruct (nm_row _ _ Hn _ _ Hi) as (row & tag & -> & ? & _). eauto. }
  clear Hn. revert index. induction l as [|v l IH]; intros index; cbn [plan_changed_inbounds]; [done|].
  destruct (Hl v ltac:(by left)) as (row & tag & -> & Ht). cbn [assert_object as_object result_bind].
  rewrite Ht. cbn [assert_string as_string result_bind].
  assert (∀ index, safe (plan_changed_inbounds oldIn changed index l)) as Hrest.
  { apply IH; [intros inbound v Hi; apply Husers; by right|intros; apply Hl; by right]. }
  apply safe_bind.
  - apply safe_fold. intros b v Hv. destruct (Husers row v ltac:(by left) Hv) as [u ->]. done.
  - intros touched _. destruct touched; [|done]. apply safe_bind; [apply validateUsers_safe|]. intros _ _.
    apply safe_bind; [done|]. intros. done.
Qed.

(** Planning an update of configurations that were decoded into options
    never panics: every type assertion and every comparison of interface
    values on the way is guarded by an earlier check. *)
Lemma plan_never_panics before after :
  well_typed before → well_typed after → safe (planUserUpdate before after).
Proof.
  intros Hb Ha. unfold planUserUpdate.
  apply safe_bind; [apply namedRows_safe|intros oldIn _]. apply safe_bind; [apply namedRows_safe|intros newIn Hin].
  destruct (decide _); [done|]. destruct (decide _); [done|].
  apply safe_bind; [apply plan_inbounds_safe|intros [known blocked] _].
  apply safe_bind; [by apply plan_default_safe|intros _ _].
  apply safe_bind; [apply namedRows_safe|intros oldOut _]. apply safe_bind; [apply namedRows_safe|intros newOut Hout].
  apply safe_bind.
  { unfold plan_outbounds. apply safe_bind; [by eapply plan_added_safe, namedRows_named|]. intros. repeat safe_step. }
  intros [[changedOut removed] added] _.
  apply safe_bind; [apply policies_safe|intros old _]. apply safe_bind; [apply policies_safe|intros new Hnew].
  destruct (decide _); [done|]. apply policies_ok in Hnew as (objs & -> & _).
  apply safe_bind.
  { apply safe_fold. intros acc v (row & -> & _)%list_elem_of_fmap. unfold rule_index.
    destruct acc as [byHash indexes]. destruct (match default [] _ with [] => _ | _ => _ end) as [byHash' previous].
    cbn [assert_object as_object result_bind]. repeat safe_step. }
  intros ? _. apply safe_bind.
  { apply safe_fold. intros acc v (row & -> & _)%list_elem_of_fmap. unfold target_kept.
    cbn [assert_object as_object result_bind]. repeat safe_step. }
  intros _ _. apply safe_bind; [|done].
  eapply plan_changed_inbounds_safe; [by apply namedRows_named|apply Ha].
Qed.
End props.
