(* ===== verification/UserPlanStable.v ===== *)
(** * Re-planning an accepted configuration

    A configuration an update was accepted for is stable: planning it against
    itself succeeds and finds nothing to publish. *)
From S2P Require Import Prelude Json HotRules UserPlan UserPlanSpec UserPlanPolicy UserPlanProps.

(** ** No outbound changed *)

Lemma references_empty v : references v ∅ = false.
Proof.
  destruct (references v ∅) eqn:Hr; [|done]. apply references_spec in Hr as (? & ?%not_elem_of_empty & _). done.
Qed.

Section stable.
Context `{PlanEnv}.

Lemma plan_removed_self m : plan_removed m m = [].
Proof.
  destruct (plan_removed m m) as [|t l] eqn:Hl; [done|].
  assert (t ∈ plan_removed m m) as (row & ? & ?)%elem_of_plan_removed by (rewrite Hl; by left). congruence.
Qed.

Lemma plan_added_self m l index : named l m → plan_added m index l = Ok [].
Proof.
  intros Hn. assert (∀ v, v ∈ l → ∃ row tag, v = JObj row ∧ field row "tag" = JStr tag ∧ m !! tag = Some row) as Hl.
  { intros v [i Hi]%list_elem_of_lookup. destruct (nm_row _ _ Hn _ _ Hi) as (row & tag & -> & ? & _ & ?). eauto. }
  clear Hn. revert index. induction l as [|v l IH]; intros index; cbn [plan_added]; [done|].
  destruct (Hl v ltac:(by left)) as (row & tag & -> & Ht & Hm). cbn [assert_object as_object result_bind].
  rewrite Ht. cbn [assert_string as_string result_bind]. rewrite IH by (intros; apply Hl; by right).
  cbn [result_bind]. rewrite decide_False; [done|]. by intros ?.
Qed.

Lemma plan_outbounds_self o route m :
  named (rows o "outbounds") m → plan_outbounds o o route m m = Ok (∅, [], []).
Proof.
  intros Hn. unfold plan_outbounds. rewrite plan_removed_self, (plan_added_self _ _ _ Hn).
  cbn [result_bind fmap list_fmap app list_to_set]. rewrite elements_empty, !references_empty. cbn [forallb negb orb].
  destruct (existsb _ _) eqn:He; [|done]. apply existsb_exists in He as (kv & _ & Hr).
  by rewrite references_empty, andb_false_r in Hr.
Qed.

Lemma plan_default_self o route m :
  named (rows o "outbounds") m → plan_default o o route = Ok ().
Proof.
  intros Hn. unfold plan_default. destruct (route !! "final"); [done|].
  destruct (rows o "outbounds") as [|v l] eqn:Hl; [done|].
  destruct (nm_row _ _ Hn 0 v) as (row & tag & -> & Ht & _); [done|].
  cbn [assert_object as_object result_bind]. rewrite Ht. cbn [interface_eq result_bind].
  by rewrite bool_decide_true.
Qed.

(** ** Inbounds against themselves *)

Lemma plan_inbound_self m acc tag old : m !! tag = Some old → ∃ acc', plan_inbound m acc (tag, old) = Ok acc'.
Proof.
  intros Ho. unfold plan_inbound. destruct acc as [known blocked]. rewrite Ho.
  destruct (negb (supported _)).
  { rewrite decide_False by (by intros ?). eauto. }
  destruct (bool_decide (field old "type" = JStr "socks") && _ && _) eqn:Ha.
  { rewrite !andb_true_iff, negb_true_iff in Ha. destruct Ha as [[_ ?] ?]. congruence. }
  rewrite decide_False by (by intros ?).
  destruct (validateUsers old); [eauto|]. rewrite decide_False by (by intros ?). eauto.
Qed.

Lemma plan_inbounds_self m : ∃ kb, plan_inbounds m m = Ok kb.
Proof.
  unfold plan_inbounds. destruct (fold_result_total (plan_inbound m) (map_range 0 m) (∅, ∅)) as [kb ->].
  - intros acc [tag old] Hin. rewrite map_range_perm in Hin. by apply plan_inbound_self, elem_of_map_to_list.
  - cbn [result_bind]. eauto.
Qed.

(** The names that count against the new configuration alone. *)
Lemma known_blocked_self oldIn newIn known blocked known' blocked' :
  dom oldIn = dom newIn →
  plan_inbounds oldIn newIn = Ok (known, blocked) → plan_inbounds newIn newIn = Ok (known', blocked') →
  known' ⊆ known ∧ blocked' = blocked.
Proof.
  intros Hdom (Hfits & Hk & Hb)%plan_inbounds_ok (_ & Hk' & Hb')%plan_inbounds_ok.
  assert (∀ tag next, newIn !! tag = Some next → ∃ old, oldIn !! tag = Some old ∧
    (managed old next = managed next next ∨ managed old next = true) ∧
    (managed old next = false → old = next)) as Hold.
  { intros tag next Hn. assert (is_Some (oldIn !! tag)) as [old Ho].
    { apply elem_of_dom. rewrite Hdom. apply elem_of_dom. eauto. }
    exists old. split; [done|]. destruct (Hfits _ _ Ho) as (n & Hn' & Hfit). simplify_eq.
    unfold inbound_fits in Hfit. destruct (managed old next) eqn:Hm; [split; [by right|done]|].
    subst. split; [by left|done]. }
  assert (∀ tag old next, oldIn !! tag = Some old → newIn !! tag = Some next → managed old next = true →
    managed next next = true) as Hself.
  { intros tag old next Ho Hn Hm. destruct (Hfits _ _ Ho) as (n & Hn' & Hfit). simplify_eq.
    unfold inbound_fits in Hfit. rewrite Hm in Hfit. destruct Hfit as [Hwo _].
    assert (field old "type" = field next "type") as Ht.
    { unfold field. f_equal. eapply without_eq; [done|]. unfold user_fields. case_bool_decide; set_solver. }
    unfold managed in *. rewrite <-Ht. rewrite !andb_true_iff in *. tauto. }
  assert (blocked' = blocked) as ->.
  { apply set_eq. intros name. rewrite Hb, Hb'. split.
    - intros (tag & n & n' & Hn & Hn' & Hm & Hin). rewrite Hn in Hn'. injection Hn' as <-.
      destruct (Hold _ _ Hn) as (old & Ho & _ & Heq).
      assert (managed old n = false) as Hmo.
      { destruct (managed old n) eqn:E; [|done]. rewrite (Hself _ _ _ Ho Hn E) in Hm. done. }
      pose proof (Heq Hmo) as ->. exists tag, n, n. done.
    - intros (tag & old & n & Ho & Hn & Hm & Hin). destruct (Hold _ _ Hn) as (old' & Ho' & _ & Heq). simplify_eq.
      pose proof (Heq Hm) as ->. exists tag, n, n. done. }
  split; [|done]. intros name. rewrite Hk, Hk'. intros (Hnb & tag & n & n' & Hn & Hn' & Hm & Hin).
  rewrite Hn in Hn'. injection Hn' as <-.
  split; [done|]. destruct (Hold _ _ Hn) as (old & Ho & Hmm & _). exists tag, old, n. split_and!; [done..| |].
  - destruct Hmm as [Hmm|Hmm]; rewrite Hmm; done.
  - right. tauto.
Qed.

Lemma dynamicRule_mono row known known' blocked :
  known' ⊆ known → dynamicRule row known' blocked = true → dynamicRule row known blocked = true.
Proof.
  unfold dynamicRule. destruct (userNames row) as [names ok]. rewrite !andb_true_iff, !existsb_exists.
  intros Hsub [[[[[? ?] (n & ? & Hn)] ?] ?] ?]. split_and!; try done. exists n. split; [done|].
  apply bool_decide_eq_true in Hn. apply bool_decide_eq_true. set_solver.
Qed.

(** ** Rules and inbounds against themselves *)

Lemma policies_self known blocked newOut objs :
  (∀ row tag, row ∈ objs → dynamicRule row known blocked = true → field row "outbound" = JStr tag →
     is_Some (newOut !! tag)) →
  ∃ st, policies known blocked ∅ newOut newOut (JObj <$> objs) = Ok st.
Proof.
  intros Hout. apply fold_result_total. intros st v (row & -> & Hrow)%list_elem_of_fmap.
  unfold policy_row. cbn [as_object]. destruct (dynamicRule row known blocked) eqn:Ed; cbn [negb].
  - apply fold_result_total. intros st' name _.
    destruct (as_string (field row "outbound")) as [tag|] eqn:Et; [|eauto].
    rewrite decide_False; [eauto|]. intros [Hn _].
    destruct (Hout row tag Hrow Ed) as [? ?]; [by destruct (field row "outbound"); simplify_eq/=|congruence].
  - rewrite references_empty. eauto.
Qed.

Lemma changed_names_self known pol : changed_names known ∅ pol pol = ∅.
Proof.
  apply set_eq. intros name. unfold changed_names. rewrite elem_of_filter. split; [|set_solver].
  intros [[Hne|(k & r & t & _ & ?%not_elem_of_empty & _)]%policy_changed_true _]; done.
Qed.

(** The state of the loop when the first [j] rules were matched with
    themselves. *)
Record self_indexing (l : list json) (j : nat) (acc : gmap string (list nat) * list Z) : Prop := {
  si_indexes : acc.2 = Z.of_nat <$> seq 0 j;
  si_sorted : ∀ h, StronglySorted lt (hash_list acc.1 h);
  si_free : ∀ h k, k ∈ hash_list acc.1 h ↔ j <= k ∧ ∃ r, l !! k = Some r ∧ Fingerprint r = h;
}.

Lemma self_indexing_step l j acc next newOut known blocked :
  self_indexing l j acc → l !! j = Some next →
  ∃ acc', rule_index l newOut known blocked acc next = Ok acc' ∧ self_indexing l (S j) acc'.
Proof.
  destruct acc as [byHash indexes]. intros [Hi Hs Hf] Hj. cbn [fst snd] in *.
  assert (∃ rest, hash_list byHash (Fingerprint next) = j :: rest) as [rest Hr].
  { assert (j ∈ hash_list byHash (Fingerprint next)) as Hin by (apply Hf; eauto).
    specialize (Hs (Fingerprint next)). pose proof (Hf (Fingerprint next)) as Hh.
    destruct (hash_list byHash (Fingerprint next)) as [|c rest]; [by apply not_elem_of_nil in Hin|].
    destruct (Hh c) as [[Hc _] _]; [by left|]. inversion_clear Hs as [|?? _ Hall].
    apply elem_of_cons in Hin as [->|Hin]; [by exists rest|].
    rewrite Forall_forall in Hall. specialize (Hall _ Hin). lia. }
  exists (<[Fingerprint next := rest]> byHash, indexes ++ [Z.of_nat j]). split.
  - unfold rule_index. change (default [] (byHash !! Fingerprint next)) with (hash_list byHash (Fingerprint next)).
    rewrite Hr, decide_True by done. by rewrite decide_False by lia.
  - assert (StronglySorted lt (j :: rest)) as Hs' by (rewrite <-Hr; apply Hs).
    inversion_clear Hs' as [|?? Hsr Hall]. rewrite Forall_forall in Hall. split; cbn [fst snd].
    + by rewrite Hi, seq_S, fmap_app.
    + intros h. rewrite hash_list_insert. by destruct (decide _).
    + intros h k. rewrite hash_list_insert. destruct (decide _) as [<-|Hne].
      * pose proof (Hf (Fingerprint next) k) as Hk. rewrite Hr, elem_of_cons in Hk. split.
        -- intros Hin. specialize (Hall _ Hin). split; [lia|]. by apply Hk; right.
        -- intros [? ?]. assert (k = j ∨ k ∈ rest) as [->|?]; [apply Hk; split; [lia|done]|lia|done].
      * rewrite Hf. split; intros [? (r & Hr' & ?)]; (split; [|eauto]); [|lia].
        destruct (decide (k = j)) as [->|?]; [congruence|lia].
Qed.

Lemma rule_indexes_self l newOut known blocked :
  ∃ hashes, fold_result (rule_index l newOut known blocked) l (rule_hashes l, []) =
    Ok (hashes, Z.of_nat <$> seq 0 (length l)).
Proof.
  assert (∀ rest pre acc, l = pre ++ rest → self_indexing l (length pre) acc →
    ∃ acc', fold_result (rule_index l newOut known blocked) rest acc = Ok acc' ∧ self_indexing l (length l) acc')
    as Hgen.
  { induction rest as [|next rest IH]; intros pre acc Hl Hacc; cbn [fold_result].
    - exists acc. rewrite Hl, app_nil_r. rewrite Hl, app_nil_r in Hacc. done.
    - destruct (self_indexing_step l (length pre) acc next newOut known blocked Hacc) as (acc' & -> & Hacc').
      { by rewrite Hl, list_lookup_middle. }
      cbn [result_bind]. apply (IH (pre ++ [next])); [by rewrite <-app_assoc|].
      by rewrite length_app, Nat.add_1_r. }
  destruct (rule_hashes_spec l) as [Hin Hs].
  destruct (Hgen l [] (rule_hashes l, [])) as ([hashes idx] & -> & [Hi _ _]); [done| |exists hashes; by simpl in Hi; subst].
  split; cbn [fst snd]; [done..|]. intros h k. rewrite Hin. split; [intros; split; [cbn; lia|done]|by intros [_ ?]].
Qed.

Lemma login_loop_self row (changed : gset string) c b (l : list json) (none : gset string) :
  fold_result (λ (c : bool) user,
    let? user := assert_object user in Ok (c || bool_decide (login_name row user ∈ changed))) l c = Ok b →
  (∀ name, name ∉ none) →
  fold_result (λ (c : bool) user,
    let? user := assert_object user in Ok (c || bool_decide (login_name row user ∈ none))) l false = Ok false.
Proof.
  intros Hf Hnone. revert c Hf. induction l as [|u us IH]; intros c; cbn [fold_result]; [done|].
  intros Hf. inv_bind Hf. inv_bind E. cbn [result_bind orb]. rewrite bool_decide_false by apply Hnone.
  by eapply IH.
Qed.

Lemma plan_changed_inbounds_self oldIn newIn changed l index idx :
  named l newIn → plan_changed_inbounds oldIn changed index l = Ok idx →
  ∀ index', plan_changed_inbounds newIn ∅ index' l = Ok [].
Proof.
  intros Hn. assert (∀ v, v ∈ l → ∃ row tag, v = JObj row ∧ field row "tag" = JStr tag ∧ newIn !! tag = Some row) as Hl.
  { intros v [i Hi]%list_elem_of_lookup. destruct (nm_row _ _ Hn _ _ Hi) as (row & tag & -> & ? & _ & ?). eauto. }
  clear Hn. revert index idx. induction l as [|v l IH]; intros index idx; cbn [plan_changed_inbounds]; [done|].
  destruct (Hl v ltac:(by left)) as (row & tag & -> & Ht & Hm). cbn [assert_object as_object result_bind].
  rewrite Ht. cbn [assert_string as_string result_bind]. intros Hp index'. inv_bind Hp.
  assert (∃ index idx, plan_changed_inbounds oldIn changed index l = Ok idx) as (i & x & Hrest).
  { destruct a; [|eauto]. inv_bind Hp. inv_bind Hp. eauto. }
  rewrite bool_decide_false by (by intros ?).
  rewrite (login_loop_self _ _ _ _ _ ∅ E) by set_solver.
  cbn [result_bind]. eapply IH; [intros; apply Hl; by right|done].
Qed.

(** ** Stability *)

(** C17: an accepted configuration is stable.  Planning it against itself
    succeeds, publishes no inbound and no outbound, revokes nobody, and reuses
    every rule in its place. *)
Theorem accepted_update_is_stable before after plan :
  planUserUpdate before after = Ok plan →
  planUserUpdate after after =
    Ok (mkPlan [] [] [] (Z.of_nat <$> seq 0 (length (rules_of after))) ∅).
Proof.
  intros [p]%plan_accepted.
  pose proof (namedRows_named _ _ _ (pl_in2 _ _ _ p)) as Hin. pose proof (namedRows_named _ _ _ (pl_out2 _ _ _ p)) as Hout.
  destruct (plan_inbounds_ok _ _ _ _ (pl_inbounds _ _ _ p)) as (Hfits & _ & _).
  assert (dom (pl_oldIn _ _ _ p) = dom (pl_newIn _ _ _ p)) as Hdom.
  { apply size_eq_dom; [|apply (pl_size _ _ _ p)]. intros ? ? (? & ? & _)%Hfits. eauto. }
  destruct (plan_inbounds_self (pl_newIn _ _ _ p)) as [[known blocked] Hkb].
  destruct (known_blocked_self _ _ _ _ _ _ Hdom (pl_inbounds _ _ _ p) Hkb) as [Hsub ->].
  destruct (policies_ok _ _ _ _ _ _ _ (pl_pol2 _ _ _ p)) as (objs & Hobjs & Hfit & _).
  destruct (policies_self known (pl_blocked _ _ _ p) (pl_newOut _ _ _ p) objs) as [st Hst].
  { intros row tag Hrow Hd%(dynamicRule_mono _ (pl_known _ _ _ p)) Ht; [|done].
    rewrite Forall_forall in Hfit. specialize (Hfit _ Hrow). unfold rule_fits in Hfit. rewrite Hd in Hfit.
    destruct (planned_parts _ _ _ p) as (_ & _ & Ho1 & Ho2 & _). rewrite <-Ho2. apply not_eq_None_Some. intros Hn.
    assert (outbounds_of before !! tag = None) as Hb.
    { eapply (planned_targets _ _ _ p row); [|done..]. unfold rules_of. rewrite Hobjs.
      apply list_elem_of_fmap. eauto. }
    destruct (Hfit _ Ht) as [[? ?]|[? ?]]; congruence. }
  destruct (rule_indexes_self (rows (nested after "route") "rules") (pl_newOut _ _ _ p) known (pl_blocked _ _ _ p))
    as [hashes Hidx].
  unfold planUserUpdate, rules_of. rewrite (pl_in2 _ _ _ p). cbn [result_bind].
  rewrite decide_False by (intros [?|?]; done). rewrite decide_False by (by intros ?).
  rewrite Hkb. cbn [result_bind]. rewrite (plan_default_self _ _ _ Hout), (pl_out2 _ _ _ p). cbn [result_bind].
  rewrite (plan_outbounds_self _ _ _ Hout). cbn [result_bind]. rewrite Hidx.
  rewrite Hobjs, Hst. cbn [result_bind]. rewrite decide_False by (by intros ?). rewrite changed_names_self.
  destruct (fold_result_total (target_kept (pl_newOut _ _ _ p) ∅) (JObj <$> objs) ()) as [[] ->].
  { intros u v (row & -> & _)%list_elem_of_fmap. unfold target_kept. cbn [assert_object as_object result_bind].
    destruct (as_string _); [|eauto]. rewrite decide_False; [eauto|]. by intros [?%not_elem_of_empty _]. }
  cbn [result_bind]. rewrite (plan_changed_inbounds_self _ _ _ _ _ _ Hin (pl_touched _ _ _ p)). cbn [result_bind snd].
  done.
Qed.
End stable.

(** ** A run: the fixtures of the repository's tests *)

Module PlanRun.

Fixpoint encode (v : json) : string :=
  match v with
  | JNull => "null"
  | JBool b => if b then "true" else "false"
  | JNum _ => "0"
  | JStr s => s
  | JArr l => "[" +:+ Join "," (encode <$> l) +:+ "]"
  | JObj m => "{" +:+ map_fold (λ k v acc, k +:+ ":" +:+ encode v +:+ "," +:+ acc) "}" m
  end.

#[refine] Definition env : PlanEnv := {|
  FromString := λ _, None;
  NewV5 := λ raw, raw;
  Fingerprint := encode;
  map_range := λ A _ m, map_to_list m;
|}.
Proof. done. Defined.
#[export] Existing Instance env.

Definition number (z : Z) : json := JNum (Qcanon.Q2Qc (QArith_base.Qmake z 1)).
Definition obj (l : list (string * json)) : json := JObj (list_to_map l).
Definition user (name uuid : string) : json := obj [("name", JStr name); ("uuid", JStr uuid)].
Definition vless (users : list json) : json :=
  obj [("type", JStr "vless"); ("tag", JStr "vless"); ("listen_port", number 25111); ("users", JArr users)].
Definition direct : json := obj [("type", JStr "direct"); ("tag", JStr "direct")].
Definition socks : json :=
  obj [("type", JStr "socks"); ("tag", JStr "new-out"); ("server", JStr "127.0.0.1"); ("server_port", number 25201)].
Definition route_to (name outbound : string) : json :=
  obj [("auth_user", JArr [JStr name]); ("outbound", JStr outbound)].
Definition reject : json := obj [("action", JStr "reject")].
Definition config (users outbounds rules : list json) : object :=
  list_to_map [("log", obj [("level", JStr "error")]); ("inbounds", JArr [vless users]);
               ("outbounds", JArr outbounds); ("route", obj [("rules", JArr rules); ("final", JStr "direct")])].

(** [originalFixture] and [appendedFixture]. *)
Definition original : object := config [user "old" "a"] [direct] [route_to "old" "direct"; reject].
Definition appended : object :=
  config [user "old" "a"; user "new" "b"] [direct; socks]
         [route_to "new" "new-out"; route_to "old" "direct"; reject].
Definition appended_plan : userUpdatePlan := mkPlan [0] [1] [] [-1; 0; 1]%Z {["new"]}.

Lemma plan_run : planUserUpdate original appended = Ok appended_plan.
Proof. vm_compute. reflexivity. Qed.

(** Removing the user again revokes it and drops its outbound. *)
Lemma run_back : planUserUpdate appended original = Ok (mkPlan [0] [] ["new-out"] [1; 2]%Z {["new"]}).
Proof. vm_compute. reflexivity. Qed.

(** Some of the updates the tests expect to be refused: a duplicate name, an
    outbound that is missing, a changed port, a changed global rule. *)
Lemma refused :
  planUserUpdate original (config [user "old" "a"; user "old" "b"] [direct] [route_to "old" "direct"; reject]) =
    Err (ENew "dynamic inbound requires valid named users") ∧
  planUserUpdate original (config [user "old" "a"] [direct] [route_to "old" "missing"; reject]) =
    Err (ENew "unknown user outbound") ∧
  planUserUpdate original (config [user "old" "a"] [direct] [route_to "old" "direct"; direct]) =
    Err ErrUnsupportedUserUpdate.
Proof. vm_compute. done. Qed.
End PlanRun.
Import PlanRun.

Lemma plan_keeps_topology_witness :
  original !! "log" = appended !! "log" ∧ dom (inbounds_of original) = dom (inbounds_of appended).
Proof.
  destruct (plan_keeps_topology original appended appended_plan plan_run) as (Hg & _ & Hd & _).
  split; [apply Hg, (bool_decide_unpack _); vm_compute; exact I|apply Hd].
Defined.

Lemma plan_describes_outbounds_witness :
  foldl (install (rows appended "outbounds")) (outbounds_of original) [1] = outbounds_of appended ∧
  ¬ mentions "new-out" (JObj (without original ["outbounds"; "route"])).
Proof.
  destruct (plan_describes_outbounds original appended appended_plan plan_run) as (Heq & _ & _ & Hch).
  destruct (Hch "new-out") as (_ & Hg & _); [apply (bool_decide_unpack _); vm_compute; exact I|].
  split; [apply Heq|apply Hg].
Defined.

Lemma plan_reuses_rules_witness :
  indexes_ok 3 [7; 8] [-1; 0; 1]%Z ∧ rules_of original !! 1 = rules_of appended !! 2.
Proof.
  destruct (plan_reuses_rules original appended appended_plan [7; 8] plan_run eq_refl) as (Hix & Hre & _).
  split; [exact Hix|by apply Hre].
Defined.

Lemma unchanged_user_keeps_policy_witness :
  rules_for original appended original "old" = rules_for original appended appended "old" ∧
  outbounds_of original !! "direct" = outbounds_of appended !! "direct".
Proof.
  destruct (unchanged_user_keeps_policy original appended appended_plan "old" plan_run) as [Heq Hout].
  - left. right. exists "vless", (default ∅ (as_object (vless [user "old" "a"]))).
    split; [|exists (default ∅ (as_object (user "old" "a"))); split];
      apply (bool_decide_unpack _); vm_compute; exact I.
  - apply (bool_decide_unpack _). vm_compute. exact I.
  - split; [exact Heq|]. apply (Hout {["outbound" := JStr "direct"]}).
    + right. apply (bool_decide_unpack _). vm_compute. exact I.
    + by eapply (mentions_key _ _ "outbound").
Defined.

Lemma plan_publishes_inbounds_witness :
  is_ok (validateUsers (default ∅ (as_object (vless [user "old" "a"; user "new" "b"])))) = true.
Proof.
  destruct (plan_publishes_inbounds original appended appended_plan plan_run) as (_ & _ & Hv).
  apply (Hv 0); [by left|vm_compute; reflexivity].
Defined.

Lemma plan_never_panics_witness : safe (planUserUpdate original appended).
Proof.
  assert (∀ users outs rules, Forall (λ v, ∃ row t, v = JObj row ∧ field row "tag" = JStr t) outs →
    Forall (λ v, ∃ u, v = JObj u) users → well_typed (config users outs rules)) as Hty.
  { intros users outs rules Hout Hus. rewrite Forall_forall in Hout, Hus. split.
    - intros v (row & t & -> & Ht)%Hout. exists row. eauto.
    - intros inbound v Hin Hv. apply Hus. assert (inbound = default ∅ (as_object (vless users))) as ->; [|done].
      change (JObj inbound ∈ [vless users]) in Hin. apply list_elem_of_singleton in Hin. by rewrite <-Hin. }
  apply plan_never_panics; apply Hty; repeat constructor; repeat eexists.
Defined.

Lemma accepted_update_is_stable_witness :
  planUserUpdate appended appended = Ok (mkPlan [] [] [] [0; 1; 2]%Z ∅).
Proof. apply (accepted_update_is_stable original appended appended_plan plan_run). Defined.
