(* ===== verification/InboundUsers.v ===== *)
(** * Users of the SOCKS, VLESS and VMess inbounds

    Model of protocol/socks/hot_add.go, protocol/vless/hot_add.go and
    protocol/vmess/hot_add.go: preparing the users of an inbound and the
    snapshot that is published with them, with the user tables of the VLESS
    and VMess services of local-modules/sing-vmess.  What [prepareUsers]
    returns is the publication of the user table and the inbound as it will be
    once the closure has run. *)
From S2P Require Import Prelude Json UserState UserPlan.

(** ** Options *)

Record SocksUser := mkSocksUser { su_Username : string; su_Password : string }.
Record SocksInboundOptions := mkSocksOptions { so_Users : list SocksUser; so_RequireAuth : bool }.
Record VLESSUser := mkVLESSUser { vu_Name : string; vu_UUID : string; vu_Flow : string }.
Record VMessUser := mkVMessUser { mu_Name : string; mu_UUID : string; mu_AlterId : Z }.

(** The dynamic type behind the [any] of [PrepareUserUpdate]. *)
Inductive InboundOptions :=
| SocksOptions (o : SocksInboundOptions)
| VLESSOptions (users : list VLESSUser)
| VMessOptions (users : list VMessUser)
| OtherOptions.

(** ** Code outside the repository *)

(** [userstate.Fingerprint] of a user, [auth.NewAuthenticator], which is nil
    exactly for an empty list, and the VMess key derivations (MD5 and AES). *)
Class InboundEnv := {
  inbound_plan :: PlanEnv;
  socks_fingerprint : SocksUser → string;
  vless_fingerprint : VLESSUser → string;
  vmess_fingerprint : VMessUser → string;
  Authenticator : Type;
  NewAuthenticator : list SocksUser → option Authenticator;
  NewAuthenticator_nil : ∀ us, NewAuthenticator us = None ↔ us = [];
  VMessKey : string → string;
  AlterId : string → string;
  NewCipher : string → option error;
}.

(** [uuid.FromString], or the UUID derived from the text. *)
Definition canonical_uuid `{PlanEnv} (raw : string) : string :=
  match FromString raw with Some id => id | None => NewV5 raw end.

(** ** Identities and services *)

Record userIdentity := mkUserIdentity { ui_Name : string; ui_Index : nat; ui_Token : option nat }.

#[export] Instance userIdentity_eq_dec : EqDecision userIdentity.
Proof. solve_decision. Defined.
#[export] Program Instance userIdentity_countable : Countable userIdentity :=
  inj_countable' (λ i, (ui_Name i, ui_Index i, ui_Token i)) (λ p, mkUserIdentity p.1.1 p.1.2 p.2) _.
Next Obligation. by intros []. Qed.

Record vlessService := mkVlessService {
  userMap : gmap string userIdentity;
  userFlow : gmap userIdentity string;
}.
Record vmessService := mkVmessService {
  userKey : gmap userIdentity string;
  userAlterIds : gmap userIdentity (list string);
}.

Section inbounds.
Context `{InboundEnv}.

Record userSnapshot := mkUserSnapshot {
  required : bool;
  authenticator : option Authenticator;
  us_identities : gmap string nat;
}.

(** The state [PrepareUserUpdate] reads and the closure replaces. *)
Inductive Inbound :=
| SocksInbound (userTable : nat) (users : option userSnapshot)
| VLESSInbound (userTable : nat) (kernelTLS : bool) (service : option vlessService)
| VMessInbound (userTable : nat) (service : vmessService)
| OtherInbound.

(** [h.userTable.Prepare]; the table of an inbound is allocated with it. *)
Definition prepare_table (t : nat) (fingerprints : gmap string string) (changed : option (gmap string bool))
    (w : World) : World * gmap string nat * Publication :=
  match tables w !! t with
  | Some tb => Prepare t tb fingerprints (default ∅ changed) w
  | None => (w, ∅, mkPublication t [] ∅)
  end.

(** ** SOCKS *)

Definition socks_fingerprint_loop (fps : gmap string string) (user : SocksUser) : result (gmap string string) :=
  if bool_decide (su_Username user = "") || bool_decide (su_Password user = "")
     || bool_decide (255 < String.length (su_Username user)) || bool_decide (255 < String.length (su_Password user))
  then Err (ENew "SOCKS credentials require 1 to 255 bytes")
  else if decide (is_Some (fps !! su_Username user)) then Err (ENew "duplicate SOCKS user")
  else Ok (<[su_Username user := socks_fingerprint user]> fps).

Definition socks_prepareUsers (t : nat) (users : option userSnapshot) (options : SocksInboundOptions)
    (changed : option (gmap string bool)) (w : World) : World * result (Publication * Inbound) :=
  match fold_result socks_fingerprint_loop (so_Users options) ∅ with
  | Err e => (w, Err e)
  | Ok fingerprints =>
      let '(w, identities, publish) := prepare_table t fingerprints changed w in
      let some_users := bool_decide (0 < length (so_Users options)) in
      let req := so_RequireAuth options || some_users || match users with Some previous => required previous | None => false end in
      if bool_decide (is_Some changed) && req && negb some_users && negb (so_RequireAuth options)
      then (w, Err (ENew "empty authenticated SOCKS requires require_auth:true for restart safety"))
      else (w, Ok (publish, SocksInbound t (Some (mkUserSnapshot req (NewAuthenticator (so_Users options)) identities))))
  end.

(** ** VLESS *)

Definition vless_fingerprint_loop (kernelTLS : bool) (fps : gmap string string) (iu : nat * VLESSUser)
    : result (gmap string string) :=
  let '(index, user) := iu in
  if kernelTLS && bool_decide (vu_Flow user ≠ "")
  then Err (ENew "VLESS flow changes are incompatible with kernel TLS")
  else if decide (vu_Flow user ≠ "" ∧ vu_Flow user ≠ "xtls-rprx-vision") then Err (ENew "invalid VLESS flow")
  else
    let key := Key (vu_Name user) index in
    if decide (is_Some (fps !! key)) then Err (ENew "duplicate VLESS user")
    else Ok (<[key := vless_fingerprint user]> fps).

(** vless/service.go, [UpdateUsers], over the list of users with their UUIDs
    and flows. *)
Definition vless_UpdateUsers (l : list (userIdentity * string * string)) : vlessService :=
  foldl (λ s (e : userIdentity * string * string),
           let '(user, raw, flow) := e in
           mkVlessService (<[canonical_uuid raw := user]> (userMap s)) (<[user := flow]> (userFlow s)))
        (mkVlessService ∅ ∅) l.

Definition vless_identities (tokens : gmap string nat) (users : list VLESSUser)
    : list (userIdentity * string * string) :=
  imap (λ index user,
          (mkUserIdentity (vu_Name user) index (tokens !! Key (vu_Name user) index), vu_UUID user, vu_Flow user))
       users.

Definition vless_prepareUsers (t : nat) (kernelTLS : bool) (users : list VLESSUser)
    (changed : option (gmap string bool)) (w : World) : World * result (Publication * Inbound) :=
  match fold_result (vless_fingerprint_loop kernelTLS) (imap pair users) ∅ with
  | Err e => (w, Err e)
  | Ok fingerprints =>
      let '(w, tokens, publish) := prepare_table t fingerprints changed w in
      (w, Ok (publish, VLESSInbound t kernelTLS (Some (vless_UpdateUsers (vless_identities tokens users)))))
  end.

(** ** VMess *)

Definition vmess_fingerprint_loop (dynamic : bool) (fps : gmap string string) (iu : nat * VMessUser)
    : result (gmap string string) :=
  let '(index, user) := iu in
  if dynamic && bool_decide (mu_AlterId user ≠ 0%Z) then Err (ENew "dynamic VMess requires AEAD users")
  else
    let key := Key (mu_Name user) index in
    if decide (is_Some (fps !! key)) then Err (ENew "duplicate VMess user")
    else Ok (<[key := vmess_fingerprint user]> fps).

(** [n] successive alternative identifiers. *)
Fixpoint alter_ids (n : nat) (current : string) : list string :=
  match n with
  | 0 => []
  | S n => let next := AlterId current in next :: alter_ids n next
  end.

(** local-modules/sing-vmess/service.go, [PrepareUsers]: the tables the closure
    installs. *)
Definition vmess_PrepareUser (s : vmessService) (e : userIdentity * string * Z) : result vmessService :=
  let '(user, raw, alterId) := e in
  let userUUID := canonical_uuid raw in
  let key := VMessKey userUUID in
  match NewCipher key with
  | Some err => Err err
  | None =>
      Ok (mkVmessService (<[user := key]> (userKey s))
            (if bool_decide (0 < alterId)%Z then <[user := alter_ids (Z.to_nat alterId) userUUID]> (userAlterIds s)
             else userAlterIds s))
  end.

Definition vmess_identities (tokens : gmap string nat) (users : list VMessUser)
    : list (userIdentity * string * Z) :=
  imap (λ index user,
          (mkUserIdentity (mu_Name user) index (tokens !! Key (mu_Name user) index), mu_UUID user, mu_AlterId user))
       users.

Definition vmess_prepareUsers (t : nat) (users : list VMessUser)
    (changed : option (gmap string bool)) (w : World) : World * result (Publication * Inbound) :=
  match fold_result (vmess_fingerprint_loop (bool_decide (is_Some changed))) (imap pair users) ∅ with
  | Err e => (w, Err e)
  | Ok fingerprints =>
      let '(w, tokens, publish) := prepare_table t fingerprints changed w in
      match fold_result vmess_PrepareUser (vmess_identities tokens users) (mkVmessService ∅ ∅) with
      | Err e => (w, Err e)
      | Ok service => (w, Ok (publish, VMessInbound t service))
      end
  end.

(** ** The interface the reload uses *)

(** [PrepareUserUpdate] of the three inbounds; the outer option is the failed
    interface assertion of the caller. *)
Definition PrepareUserUpdate (h : Inbound) (raw : InboundOptions) (changed : gmap string bool) (w : World)
    : option (World * result (Publication * Inbound)) :=
  match h with
  | SocksInbound t users =>
      Some match raw with
           | SocksOptions o => socks_prepareUsers t users o (Some changed) w
           | _ => (w, Err (ENew "invalid SOCKS user options"))
           end
  | VLESSInbound t ktls _ =>
      Some match raw with
           | VLESSOptions us => vless_prepareUsers t ktls us (Some changed) w
           | _ => (w, Err (ENew "invalid VLESS user options"))
           end
  | VMessInbound t _ =>
      Some match raw with
           | VMessOptions us => vmess_prepareUsers t us (Some changed) w
           | _ => (w, Err (ENew "invalid VMess user options"))
           end
  | OtherInbound => None
  end.

(** ** Admission *)

(** What [socks.Inbound.NewConnectionEx] does with a connection. *)
Inductive socks_admission :=
| RefuseRevoked
| Anonymous
| Authenticate (a : Authenticator).

Definition socks_NewConnection (snapshot : userSnapshot) : socks_admission :=
  match authenticator snapshot with
  | None => if required snapshot then RefuseRevoked else Anonymous
  | Some a => Authenticate a
  end.

(** [bindUser]: the identity a SOCKS user name stands for is that of the
    snapshot the connection started with. *)
Definition socks_bindUser (ctx : Ctx) (snapshot : option userSnapshot) (name : option string) (w : World)
    : World * option error :=
  match snapshot, name with
  | Some sn, Some name => Bind ctx (us_identities sn !! name) w
  | _, _ => (w, Some ErrRevoked)
  end.

(** vless/service.go, [NewConnection] up to [OnAuthenticated]: the UUID and the
    flow of a request select the identity to bind. *)
Definition vless_authenticate (s : vlessService) (uuid flow : string) (visionUDP : bool) (ctx : Ctx) (w : World)
    : World * result userIdentity :=
  match userMap s !! uuid with
  | None => (w, Err (ENew "unknown UUID"))
  | Some user =>
      if bool_decide (flow = "xtls-rprx-vision") && visionUDP
      then (w, Err (ENew "flow does not support UDP"))
      else if decide (flow ≠ default "" (userFlow s !! user)) then (w, Err (ENew "flow mismatch"))
      else
        match Bind ctx (ui_Token user) w with
        | (w', Some e) => (w', Err e)
        | (w', None) => (w', Ok user)
        end
  end.
End inbounds.
