(* ===== verification/InboundUsersProps.v ===== *)
(** * Properties of the users of inbounds

    An inbound that requires authentication never serves anonymous clients
    again; the published VLESS service authenticates exactly the listed users
    and binds their sessions to the identities of the user table. *)
From S2P Require Import Prelude Json UserState UserStateInv UserPlan InboundUsers.

Section props.
Context `{InboundEnv}.

(** ** What a preparation returns *)

Definition inbound_table (h : Inbound) : option nat :=
  match h with
  | SocksInbound t _ | VLESSInbound t _ _ | VMessInbound t _ => Some t
  | OtherInbound => None
  end.

(** The fingerprints a preparation passes to the user table. *)
Definition fingerprints (h : Inbound) (raw : InboundOptions) : result (gmap string string) :=
  match h, raw with
  | SocksInbound _ _, SocksOptions o => fold_result socks_fingerprint_loop (so_Users o) ∅
  | VLESSInbound _ ktls _, VLESSOptions us => fold_result (vless_fingerprint_loop ktls) (imap pair us) ∅
  | VMessInbound _ _, VMessOptions us => fold_result (vmess_fingerprint_loop true) (imap pair us) ∅
  | _, _ => Err (ENew "invalid user options")
  end.

Lemma inbound_update_ok h raw changed w w' p h' :
  PrepareUserUpdate h raw changed w = Some (w', Ok (p, h')) →
  ∃ t fps ids, inbound_table h = Some t ∧ inbound_table h' = Some t ∧ fingerprints h raw = Ok fps ∧
    prepare_table t fps (Some changed) w = (w', ids, p).
Proof.
  destruct h as [t us|t ktls sv|t sv|], raw as [o|us'|us'|]; cbn [PrepareUserUpdate fingerprints inbound_table]; try done.
  - unfold socks_prepareUsers. destruct (fold_result _ _ _) as [fps|]; [|done].
    destruct (prepare_table _ _ _ _) as [[w1 ids] p1] eqn:Hp. destruct (_ && _ && _ && _); [done|].
    intros [= <- <- <-]. by eexists _, _, _.
  - unfold vless_prepareUsers. destruct (fold_result _ _ _) as [fps|]; [|done].
    destruct (prepare_table _ _ _ _) as [[w1 ids] p1] eqn:Hp. intros [= <- <- <-]. by eexists _, _, _.
  - unfold vmess_prepareUsers. rewrite (bool_decide_true (is_Some (Some changed))) by eauto.
    destruct (fold_result _ _ _) as [fps|]; [|done].
    destruct (prepare_table _ _ _ _) as [[w1 ids] p1] eqn:Hp. destruct (fold_result _ _ _); [|done].
    intros [= <- <- <-]. by eexists _, _, _.
Qed.

(** ** SOCKS authentication *)

(** A successful update of an inbound, once published. *)
Definition updates (h h' : Inbound) : Prop :=
  ∃ raw changed w w' p, PrepareUserUpdate h raw changed w = Some (w', Ok (p, h')).

Definition requires_auth (h : Inbound) : Prop :=
  ∃ t sn, h = SocksInbound t (Some sn) ∧ required sn = true.

Lemma socks_prepare_required t users o changed w w' p h' :
  socks_prepareUsers t users o changed w = (w', Ok (p, h')) →
  so_RequireAuth o = true ∨ so_Users o ≠ [] ∨ (∃ sn, users = Some sn ∧ required sn = true) →
  requires_auth h'.
Proof.
  unfold socks_prepareUsers. destruct (fold_result _ _ _) as [fps|]; [|done].
  destruct (prepare_table _ _ _ _) as [[w1 ids] p1]. destruct (_ && _ && _ && _); [done|].
  intros [= _ _ <-] Hr. eexists _, _. split; [done|]. cbn [required].
  destruct Hr as [-> |[Hu|(sn & -> & ->)]]; [done| |by rewrite orb_true_r].
  rewrite (bool_decide_true (0 < _)), orb_true_r; [done|]. destruct (so_Users o); [done|simpl; lia].
Qed.

Lemma updates_requires_auth h h' : requires_auth h → updates h h' → requires_auth h'.
Proof.
  intros (t & sn & -> & Hr) (raw & changed & w & w' & p & Hp). destruct raw as [o| | |]; try done.
  injection Hp as Hp. eapply socks_prepare_required; [exact Hp|]. eauto.
Qed.

(** C11: an authenticated SOCKS inbound never becomes anonymous.  After it was
    created with users, or with required authentication, every connection is
    authenticated or refused, whatever updates succeed afterwards, also when
    the last user is removed. *)
Theorem socks_never_anonymous t o w w1 p h h' :
  socks_prepareUsers t None o None w = (w1, Ok (p, h)) → so_Users o ≠ [] ∨ so_RequireAuth o = true →
  star updates h h' →
  ∃ t' sn, h' = SocksInbound t' (Some sn) ∧
    match socks_NewConnection sn with
    | Anonymous => False
    | RefuseRevoked => authenticator sn = None
    | Authenticate a => authenticator sn = Some a
    end.
Proof.
  intros Hp Ho Hs.
  assert (requires_auth h') as (t' & sn & -> & Hr).
  { apply (star_preserves updates requires_auth requires_auth) with h; try done.
    - apply updates_requires_auth.
    - intros. by eapply updates_requires_auth.
    - eapply socks_prepare_required; [done|tauto].
    - eapply socks_prepare_required; [done|tauto]. }
  exists t', sn. split; [done|]. unfold socks_NewConnection. rewrite Hr. by destruct (authenticator sn).
Qed.

(** ** VLESS authentication *)

Lemma vless_fingerprints_listed ktls users fps i u :
  fold_result (vless_fingerprint_loop ktls) (imap pair users) ∅ = Ok fps → users !! i = Some u →
  is_Some (fps !! Key (vu_Name u) i).
Proof.
  intros Hf Hi.
  assert (∀ j v, (j, v) ∈ imap pair users → is_Some (fps !! Key (vu_Name v) j)) as Hall.
  { apply (fold_result_inv (vless_fingerprint_loop ktls)
      (λ pre fps, ∀ j v, (j, v) ∈ pre → is_Some (fps !! Key (vu_Name v) j)) (imap pair users) ∅ fps); [| |done].
    - by intros j v ?%not_elem_of_nil.
    - intros pre [j v] c c' _ Hpre. unfold vless_fingerprint_loop. destruct (_ && _); [done|].
      destruct (decide (_ ∧ _)); [done|]. destruct (decide (is_Some _)); [done|]. intros [= <-] j' v' Hin.
      rewrite lookup_insert. destruct (decide (Key (vu_Name v) j = _)) as [|Hne]; [eauto|].
      apply elem_of_snoc in Hin as [?|[= -> ->]]; [by apply Hpre|done]. }
  apply Hall, list_elem_of_lookup. exists i. by rewrite list_lookup_imap, Hi.
Qed.

(** The tables [UpdateUsers] builds, when no two users share a UUID and no
    identity is listed twice. *)
Lemma vless_UpdateUsers_lookup l :
  NoDup ((λ e : userIdentity * string * string, canonical_uuid e.1.2) <$> l) →
  NoDup ((λ e : userIdentity * string * string, e.1.1) <$> l) →
  (∀ uuid id, userMap (vless_UpdateUsers l) !! uuid = Some id ↔
     ∃ raw flow, (id, raw, flow) ∈ l ∧ canonical_uuid raw = uuid) ∧
  (∀ id raw flow, (id, raw, flow) ∈ l → userFlow (vless_UpdateUsers l) !! id = Some flow).
Proof.
  induction l as [|[[id raw] flow] l IH] using rev_ind; intros Hu Hd.
  { split; [|by intros ??? ?%not_elem_of_nil]. intros uuid id. split; [done|]. by intros (? & ? & ?%not_elem_of_nil & _). }
  rewrite !fmap_app in *. apply NoDup_app in Hu as (Hu & Hu' & _), Hd as (Hd & Hd' & _).
  destruct (IH Hu Hd) as [Hmap Hflow]. unfold vless_UpdateUsers. rewrite foldl_app. fold (vless_UpdateUsers l).
  cbn [foldl userMap userFlow]. split.
  - intros uuid id'. setoid_rewrite elem_of_snoc. rewrite lookup_insert.
    destruct (decide (canonical_uuid raw = uuid)) as [<-|Hne].
    + split; [intros [= <-]; eauto 6|]. intros (raw' & flow' & [Hin|[= -> -> ->]] & Heq); [|done].
      destruct (Hu' (canonical_uuid raw')); [|rewrite Heq; by left].
      by apply (list_elem_of_fmap_2 (λ e : userIdentity * string * string, canonical_uuid e.1.2) l (id', raw', flow')).
    + rewrite Hmap. split; [intros (? & ? & ? & ?); eauto 6|].
      intros (raw' & flow' & [?|[= -> -> ->]] & ?); [eauto|done].
  - intros id' raw' flow' [Hin|[= -> -> ->]]%elem_of_snoc; [|by rewrite lookup_insert, decide_True].
    rewrite lookup_insert_ne; [by eapply Hflow|]. intros <-. destruct (Hd' id); [|by left].
    by apply (list_elem_of_fmap_2 (λ e : userIdentity * string * string, e.1.1) l (id, raw', flow')).
Qed.

Lemma elem_of_vless_identities tokens users id raw flow :
  (id, raw, flow) ∈ vless_identities tokens users ↔
  ∃ i u, users !! i = Some u ∧ id = mkUserIdentity (vu_Name u) i (tokens !! Key (vu_Name u) i) ∧
    raw = vu_UUID u ∧ flow = vu_Flow u.
Proof.
  unfold vless_identities. rewrite list_elem_of_lookup. setoid_rewrite list_lookup_imap. split.
  - intros [i Hi]. destruct (users !! i) as [u|] eqn:Hu; [|done]. simplify_eq/=. eauto 6.
  - intros (i & u & Hu & -> & -> & ->). exists i. by rewrite Hu.
Qed.

Lemma vless_identities_NoDup tokens users :
  NoDup ((λ e : userIdentity * string * string, e.1.1) <$> vless_identities tokens users).
Proof.
  apply NoDup_alt. intros i j x. rewrite !list_lookup_fmap. unfold vless_identities.
  rewrite !list_lookup_imap. destruct (users !! i), (users !! j); try done. simpl. intros [= <-] [=]. done.
Qed.

(** The token of a published user is a valid identity of the inbound's manager. *)
Lemma published_token t tb fps changed w w1 ids p pend key :
  Inv w pend [] → tables w !! t = Some tb → prepare_table t fps changed w = (w1, ids, p) → is_Some (fps !! key) →
  ∃ i, ids !! key = Some i ∧
    identities (publish p w1).1 !! i = Some (mkIdentity (t_manager tb) key true).
Proof.
  intros HI Htb Hp [fp Hf]. unfold prepare_table in Hp. rewrite Htb in Hp.
  pose proof (Prepare_spec t tb fps (default ∅ changed) w) as HS. rewrite Hp in HS.
  destruct HS as (HS & -> & Ht & _).
  assert (Inv w1 pend [p]) as HI1.
  { pose proof (Prepare_inv t tb fps (default ∅ changed) w pend [] HI Htb) as Hpi. rewrite Hp in Hpi.
    apply Hpi. by intros ?%not_elem_of_nil. }
  destruct (ps_dom _ _ _ _ _ _ HS key fp) as [e He]; [by apply elem_of_map_to_list|].
  exists (e_identity e). rewrite lookup_fmap, He. split; [done|].
  destruct (ps_frame _ _ _ _ _ _ HS) as (_ & Htabs & _).
  assert (tables w1 !! p_table p = Some tb) as Htb1 by by rewrite Ht, Htabs.
  apply (publish_inv_own w1 pend p [] HI1 tb Htb1 (p_table p) (mkTable (t_manager tb) (p_next p))); [|done].
  destruct (publish_frame p w1) as (_ & _ & _ & _ & ->). by rewrite lookup_alter_eq, Htb1.
Qed.

Lemma Bind_fresh_session m conn tr w i name :
  identities w !! i = Some (mkIdentity m name true) →
  let '(w', ctx, s) := NewSession m conn tr w in
  (Bind ctx (Some i) w').2 = None ∧ open_bound (Bind ctx (Some i) w').1 s m i.
Proof.
  intros Hi. unfold NewSession, Bind, open_bound. set (s := fresh (dom (sessions w))). clearbody s.
  cbn [ctx_Err ctx_session set_sessions sessions identities]. simpl. rewrite lookup_insert_eq. simpl. rewrite Hi. simpl.
  rewrite (bool_decide_false (m ≠ m)) by (by intros ?). simpl.
  split; [done|]. rewrite lookup_insert_eq. eexists. split; [done|]. done.
Qed.

(** C12: the published VLESS users are the listed ones.  When no two users
    share a UUID, a request on a new connection is admitted exactly when it
    carries the UUID of a listed user and that user's flow (and does not ask
    for UDP with the vision flow); the session is then bound to the valid
    identity the user table holds for that user.  A refused request changes
    nothing. *)
Theorem vless_authenticates_listed_users t ktls users changed w w1 p s tb pend conn tr :
  Inv w pend [] → tables w !! t = Some tb →
  NoDup ((λ u, canonical_uuid (vu_UUID u)) <$> users) →
  vless_prepareUsers t ktls users changed w = (w1, Ok (p, VLESSInbound t ktls (Some s))) →
  let '(w2, ctx, sid) := NewSession (t_manager tb) conn tr (publish p w1).1 in
  ∀ uuid flow visionUDP,
    match vless_authenticate s uuid flow visionUDP ctx w2 with
    | (w3, Ok id) => ∃ i u tok, users !! i = Some u ∧ canonical_uuid (vu_UUID u) = uuid ∧ flow = vu_Flow u ∧
        (flow = "xtls-rprx-vision" → visionUDP = false) ∧
        id = mkUserIdentity (vu_Name u) i (Some tok) ∧ open_bound w3 sid (t_manager tb) tok
    | (w3, Err _) => w3 = w2 ∧ ∀ u, u ∈ users → canonical_uuid (vu_UUID u) = uuid →
        flow ≠ vu_Flow u ∨ (flow = "xtls-rprx-vision" ∧ visionUDP = true)
    end.
Proof.
  intros HI Htb Hnd. unfold vless_prepareUsers.
  destruct (fold_result _ _ _) as [fps|] eqn:Hfps; [|done].
  destruct (prepare_table t fps changed w) as [[w' tokens] p'] eqn:Hprep. intros [= -> -> <-].
  pose proof (Bind_fresh_session (t_manager tb) conn tr (publish p w1).1) as Hbind.
  destruct (NewSession _ _ _ _) as [[w2 ctx] sid].
  destruct (vless_UpdateUsers_lookup (vless_identities tokens users)) as [Hmap Hflow].
  { unfold vless_identities. rewrite fmap_imap. erewrite imap_ext, imap_const; [exact Hnd|done]. }
  { apply vless_identities_NoDup. }
  intros uuid flow vision. unfold vless_authenticate.
  destruct (userMap _ !! uuid) as [ident|] eqn:Hid.
  - apply Hmap in Hid as (raw & fl & Hin & Hu). rewrite (Hflow _ _ _ Hin). cbn [default from_option Datatypes.id].
    apply elem_of_vless_identities in Hin as (i & u & Hi & Hident & -> & ->).
    assert (∀ u', u' ∈ users → canonical_uuid (vu_UUID u') = uuid → u' = u) as Huniq.
    { intros u' Hu' Heq. eapply (NoDup_fmap_elem (λ u, canonical_uuid (vu_UUID u)) users); [done..| |congruence].
      by eapply list_elem_of_lookup_2. }
    destruct (bool_decide _ && vision) eqn:Hv.
    { apply andb_true_iff in Hv as [Hv%bool_decide_eq_true ->]. split; [done|]. intros. by right. }
    destruct (decide (flow ≠ vu_Flow u)) as [Hne|Heq%dec_stable].
    { split; [done|]. intros u' Hu' Heq. rewrite (Huniq _ Hu' Heq). by left. }
    destruct (published_token t tb fps changed w w1 tokens p pend (Key (vu_Name u) i) HI Htb Hprep) as (tok & Htok & Hidn).
    { by eapply vless_fingerprints_listed. }
    rewrite Hident, Htok. cbn [ui_Token]. destruct (Hbind tok _ Hidn) as [Hb Ho].
    destruct (Bind ctx (Some tok) w2) as [w3 err]. cbn [fst snd] in *. subst err.
    exists i, u, tok. split_and!; try done. intros ->. by apply andb_false_iff in Hv as [?%bool_decide_eq_false|?].
  - split; [done|]. intros u [i Hi]%list_elem_of_lookup Hu. exfalso.
    assert (userMap (vless_UpdateUsers (vless_identities tokens users)) !! uuid =
      Some (mkUserIdentity (vu_Name u) i (tokens !! Key (vu_Name u) i))) as Hs; [|congruence].
    apply Hmap. exists (vu_UUID u), (vu_Flow u). split; [|done]. apply elem_of_vless_identities. eauto 6.
Qed.
End props.

(** ** A run *)

Module InboundRun.

#[refine] Definition env (plan : PlanEnv) : InboundEnv := {|
  inbound_plan := plan;
  socks_fingerprint := su_Password;
  vless_fingerprint := λ u, vu_UUID u +:+ vu_Flow u;
  vmess_fingerprint := mu_UUID;
  Authenticator := list SocksUser;
  NewAuthenticator := λ us, match us with [] => None | _ => Some us end;
  VMessKey := λ id, id;
  AlterId := λ id, id +:+ "'";
  NewCipher := λ _, None;
|}.
Proof. by intros []. Defined.

#[refine] Definition plan_env : PlanEnv := {|
  FromString := λ _, None;
  NewV5 := λ raw, raw;
  Fingerprint := λ _, "";
  map_range := λ A _ m, map_to_list m;
|}.
Proof. done. Defined.
#[export] Existing Instance plan_env.
#[export] Instance run_env : InboundEnv := env plan_env.

(** A manager and a table. *)
Definition w0 : World := (NewTable 0 (NewManager empty_world).1).1.

Definition alice : SocksUser := mkSocksUser "alice" "secret".
Definition created := socks_prepareUsers 0 None (mkSocksOptions [alice] false) None w0.
Definition created_inbound : Inbound := match created.2 with Ok (_, h) => h | Err _ => OtherInbound end.
Definition emptied := PrepareUserUpdate created_inbound (SocksOptions (mkSocksOptions [] true)) ∅ created.1.
Definition emptied_inbound : Inbound :=
  match emptied with Some (_, Ok (_, h)) => h | _ => OtherInbound end.

Definition listed : list VLESSUser := [mkVLESSUser "a" "id-a" ""; mkVLESSUser "b" "id-b" "xtls-rprx-vision"].
Definition prepared := vless_prepareUsers 0 false listed None w0.

Lemma w0_inv : Inv w0 [] [].
Proof. apply NewTable_inv, NewManager_inv, empty_inv. Qed.
End InboundRun.
Import InboundRun.

Lemma created_run : ∃ p, created = (created.1, Ok (p, created_inbound)).
Proof.
  assert (is_ok created.2 = true) as Hok by (vm_compute; reflexivity). unfold created_inbound.
  destruct created as [w [[p h]|e]]; [by exists p|done].
Qed.

Lemma emptied_run : ∃ w p, emptied = Some (w, Ok (p, emptied_inbound)).
Proof.
  assert (match emptied with Some (_, r) => is_ok r | None => false end = true) as Hok by (vm_compute; reflexivity).
  unfold emptied_inbound. destruct emptied as [[w [[p h]|e]]|]; [by exists w, p|done..].
Qed.

Lemma socks_never_anonymous_witness :
  ∃ t sn, emptied_inbound = SocksInbound t (Some sn) ∧ socks_NewConnection sn ≠ Anonymous.
Proof.
  destruct created_run as [p Hp], emptied_run as (w' & p' & He).
  destruct (socks_never_anonymous 0 _ w0 _ p created_inbound emptied_inbound Hp) as (t & sn & Heq & Hm).
  - by left.
  - eapply star_step, star_refl. exists (SocksOptions (mkSocksOptions [] true)), ∅, created.1, w', p'. exact He.
  - exists t, sn. split; [exact Heq|]. intros Ha. by rewrite Ha in Hm.
Defined.

Lemma vless_authenticates_listed_users_witness :
  match prepared with
  | (w1, Ok (p, VLESSInbound 0 false (Some s))) =>
      let '(w2, ctx, sid) := NewSession 0 5 [] (publish p w1).1 in
      ∃ i u tok, listed !! i = Some u ∧ canonical_uuid (vu_UUID u) = "id-b" ∧
        open_bound (vless_authenticate s "id-b" "xtls-rprx-vision" false ctx w2).1 sid 0 tok
  | _ => False
  end.
Proof.
  assert (match prepared with (_, Ok (_, VLESSInbound 0 false (Some _))) => true | _ => false end = true) as Hshape
    by (vm_compute; reflexivity).
  destruct prepared as [w1 [[p [| [|t] [|] [s|]| |]]|]] eqn:Hp; try discriminate Hshape.
  pose proof (vless_authenticates_listed_users 0 false listed None w0 w1 p s (mkTable 0 ∅) [] 5 [] w0_inv eq_refl) as Ht.
  specialize (Ht ltac:(apply (bool_decide_unpack _); vm_compute; exact I) Hp). cbn [t_manager] in Ht.
  destruct (NewSession 0 5 [] (publish p w1).1) as [[w2 ctx] sid].
  specialize (Ht "id-b" "xtls-rprx-vision" false).
  destruct (vless_authenticate s "id-b" "xtls-rprx-vision" false ctx w2) as [w3 [ident|e]].
  - destruct Ht as (i & u & tok & Hi & Hu & _ & _ & _ & Ho). by exists i, u, tok.
  - destruct Ht as [_ Ht]. destruct (Ht (mkVLESSUser "b" "id-b" "xtls-rprx-vision")) as [?|[_ ?]];
      [by right; left|done..].
Defined.
