(* ===== verification/BoxReload.v ===== *)
(** * User reload of the running instance

    Model of the run-time part of user_reload.go and of hot_add.go at the top
    of the repository: the status of the instance, the reload of users and
    routes, the fence and the preview.  All of them run under [reloadMu], so
    each is one function on the state of the instance. *)
From S2P Require Import Prelude Json UserState UserStateInv HotRules Registry OutboundManager UserPlan InboundUsers.

(** [RuntimeStatus]. *)
Record RuntimeStatus := mkStatus {
  ActiveSessions : nat;
  InstanceID : string;
  Revision : Z;
  ContentHash : string;
  ClosedSessions : nat;
  CleanupPending : bool;
}.

Definition with_active (n : nat) (s : RuntimeStatus) : RuntimeStatus :=
  mkStatus n (InstanceID s) (Revision s) (ContentHash s) (ClosedSessions s) (CleanupPending s).
Definition with_closed (n : nat) (s : RuntimeStatus) : RuntimeStatus :=
  mkStatus (ActiveSessions s) (InstanceID s) (Revision s) (ContentHash s) n (CleanupPending s).
Definition with_pending (b : bool) (s : RuntimeStatus) : RuntimeStatus :=
  mkStatus (ActiveSessions s) (InstanceID s) (Revision s) (ContentHash s) (ClosedSessions s) b.

(** The message of a run-time panic, which is no error value: it unwinds the
    callers up to one that recovers. *)
Definition panic_of (e : error) : option string := match e with EPanic msg => Some msg | _ => None end.

(** ** Normalised configuration objects *)

(** hot_add.go, the innermost loop of [configObject]. *)
Definition rename (upper lower : string) (user : object) : object :=
  match user !! upper with
  | Some value => delete upper (<[lower := value]> user)
  | None => user
  end.
Definition normalize_user (v : json) : json :=
  match v with
  | JObj user => JObj (rename "Password" "password" (rename "Username" "username" user))
  | _ => v
  end.
(** Replace the rows under a key, if there are any. *)
Definition map_rows (f : json → json) (key : string) (o : object) : object :=
  match o !! key with Some (JArr l) => <[key := JArr (f <$> l)]> o | _ => o end.
Definition normalize_inbound (v : json) : json :=
  match v with
  | JObj inbound =>
      if decide (field inbound "type" = JStr "socks") then JObj (map_rows normalize_user "users" inbound) else v
  | _ => v
  end.

(** option/options.go, one iteration of the loops of [checkInbounds] and
    [checkOutbounds]: an untagged row counts as its position. *)
Definition check_tag (message : string) (seen : gset string) (it : nat * string) : result (gset string) :=
  let tag := if decide (it.2 = "") then pretty (N.of_nat it.1) else it.2 in
  if decide (tag ∈ seen) then Err (ENew (message +:+ tag)) else Ok (seen ∪ {[tag]}).

Section box.
Context `{InboundEnv}.

(** The options of rules and outbounds, the endpoint manager, the methods of
    adapters, the constructors of rules and outbounds, and the rest of the
    configuration, which a reload only passes on.  Of an endpoint's options
    only the tag is looked at. *)
Context {RuleOption OutOptions E RouteRest Rest : Type} `{EndpointManager E} (endpoint : E).
Context (answer : nat → method → option error) (create : string → string → OutOptions → result Adapter).
Context (NewRule StartRule : RuleOption → option error).
Context (route_zero : RouteRest).

(** [option.Options]. *)
Record RouteOptions := mkRoute { Rules : list RuleOption; route_rest : RouteRest }.
Record Options := mkOptions {
  Inbounds : list (string * InboundOptions);
  Outbounds : list (OutboundOption OutOptions);
  EndpointTags : list string;
  Route : option RouteOptions;
  options_rest : Rest;
}.

(** Encoding to and decoding from a configuration object ([json.MarshalContext],
    [json.Unmarshal], the JSON decoder), and the identifier drawn for an
    instance. *)
Context (marshal : Options → result object) (decode : object → result Options).
Context (instanceID : string).

(** option/options.go, [checkInbounds], [checkOutbounds] and [checkOptions]. *)
Definition checkInbounds (inbounds : list (string * InboundOptions)) : result (gset string) :=
  fold_result (check_tag "duplicate inbound tag: ") (imap pair inbounds.*1) ∅.
Definition checkOutbounds (outbounds : list (OutboundOption OutOptions)) (endpoints : list string)
    : result (gset string) :=
  let? seen := fold_result (check_tag "duplicate outbound/endpoint tag: ") (imap pair (oo_Tag <$> outbounds)) ∅ in
  fold_result (check_tag "duplicate outbound/endpoint tag: ") (imap pair endpoints) seen.
Definition checkOptions (options : Options) : result unit :=
  let? _ := checkInbounds (Inbounds options) in
  let? _ := checkOutbounds (Outbounds options) (EndpointTags options) in
  Ok ().

(** option/options.go, [UnmarshalJSONContext]. *)
Definition unmarshal (o : object) : result Options :=
  let? options := decode o in
  let? _ := checkOptions options in
  Ok options.

(** hot_add.go, [configObject]. *)
Definition configObject (options : Options) : result object :=
  let? o := marshal options in Ok (map_rows normalize_inbound "inbounds" o).

(** hot_add.go, [cloneRuntimeOptions]. *)
Definition cloneRuntimeOptions (options : Options) : result Options :=
  let? o := configObject options in unmarshal o.

(** box.go, the fields of [Box] a reload uses. *)
Record Box := mkBox {
  world : World;
  userState : nat;
  router : Router;
  outbound : OManager;
  inbound : gmap string Inbound;
  reloadOptions : Options;
  runtimeRevision : Z;
  runtimeInstance : string;
  runtimeView : option RuntimeStatus;
  closed : bool;
}.

Definition set_view (instance : string) (v : option RuntimeStatus) (s : Box) : Box :=
  mkBox (world s) (userState s) (router s) (outbound s) (inbound s) (reloadOptions s) (runtimeRevision s)
        instance v (closed s).
Definition set_revision (r : Z) (s : Box) : Box :=
  mkBox (world s) (userState s) (router s) (outbound s) (inbound s) (reloadOptions s) r
        (runtimeInstance s) (runtimeView s) (closed s).
Definition set_parts (w : World) (r : Router) (o : OManager) (s : Box) : Box :=
  mkBox w (userState s) r o (inbound s) (reloadOptions s) (runtimeRevision s) (runtimeInstance s)
        (runtimeView s) (closed s).
Definition set_published (i : gmap string Inbound) (options : Options) (s : Box) : Box :=
  mkBox (world s) (userState s) (router s) (outbound s) i options (runtimeRevision s) (runtimeInstance s)
        (runtimeView s) (closed s).

(** ** Status *)

(** [publishRuntimeStatusLocked]. *)
Definition publishRuntimeStatusLocked (hash : string) (s : Box) : Box * RuntimeStatus :=
  let status := mkStatus 0 (runtimeInstance s) (runtimeRevision s) hash 0 false in
  (set_view (runtimeInstance s) (Some status) s, with_active (SessionCount (userState s) (world s)) status).

(** [statusLocked].  An encoding error is ignored and hashes as [null]. *)
Definition statusLocked (s : Box) : Box * RuntimeStatus :=
  match runtimeView s with
  | Some view => (s, with_active (SessionCount (userState s) (world s)) view)
  | None =>
      let s := if decide (runtimeInstance s = "") then set_view instanceID (runtimeView s) s else s in
      let object := match configObject (reloadOptions s) with Ok o => JObj o | Err _ => JNull end in
      publishRuntimeStatusLocked (Fingerprint object) s
  end.

(** [UserRuntimeStatus]. *)
Definition UserRuntimeStatus (s : Box) : Box * RuntimeStatus :=
  match runtimeView s with
  | Some view => (s, with_active (SessionCount (userState s) (world s)) view)
  | None => statusLocked s
  end.

(** ** Reload *)

(** The loop over [plan.inboundIndexes]: the publications in order, and the
    inbounds as they will be. *)
Fixpoint prepare_inbounds (s : Box) (updated : Options) (changed : gmap string bool) (idx : list nat) (w : World)
    (acc : list Publication * gmap string Inbound) : World * result (list Publication * gmap string Inbound) :=
  match idx with
  | [] => (w, Ok acc)
  | i :: idx =>
      match Inbounds updated !! i with
      | None => (w, Err (EPanic "index out of range"))
      | Some (tag, options) =>
          match inbound s !! tag with
          | None => (w, Err (ENew "dynamic inbound is unavailable"))
          | Some h =>
              match InboundUsers.PrepareUserUpdate h options changed w with
              | None => (w, Err ErrUnsupportedUserUpdate)
              | Some (w, Err e) => (w, Err e)
              | Some (w, Ok (p, h')) =>
                  prepare_inbounds s updated changed idx w (acc.1 ++ [p], <[tag := h']> acc.2)
              end
          end
      end
  end.

(** [updated.Outbounds[index]] for the planned indexes. *)
Fixpoint select_outbounds (os : list (OutboundOption OutOptions)) (idx : list nat)
    : result (list (OutboundOption OutOptions)) :=
  match idx with
  | [] => Ok []
  | i :: idx =>
      match os !! i with
      | None => Err (EPanic "index out of range")
      | Some o => let? rest := select_outbounds os idx in Ok (o :: rest)
      end
  end.

(** The part of [reloadUsersLocked] after the last check: prepare everything,
    then publish outbounds, rules and users under the admission gate. *)
Definition publish_update (plan : userUpdatePlan) (updated : Options) (hash : string) (status : RuntimeStatus)
    (s : Box) : Box * RuntimeStatus * option error :=
  let changed := gset_to_gmap true (changedNames plan) in
  match prepare_inbounds s updated changed (inboundIndexes plan) (world s) ([], inbound s) with
  | (w, Err e) => (set_parts w (router s) (outbound s) s, status, Some e)
  | (w, Ok (userCommits, inbounds)) =>
      let ruleOptions := match Route updated with Some r => Rules r | None => [] end in
      match PrepareAddedRules NewRule StartRule ruleOptions (ruleIndexes plan) (router s) with
      | (r, Err e) => (set_parts w r (outbound s) s, status, Some e)
      | (r, Ok rules) =>
          match select_outbounds (Outbounds updated) (outboundIndexes plan) with
          | Err e => (set_parts w r (outbound s) s, status, Some e)
          | Ok outboundOptions =>
              match OutboundManager.PrepareUserUpdate endpoint answer create outboundOptions
                      (removedOutbounds plan) (outbound s) with
              | (o, Err e) => (set_parts w (abortRules rules r) o s, status, Some e)
              | (o, Ok prepared) =>
                  let '(o, retiredOutbounds) := update_publish (removedOutbounds plan) prepared o in
                  let r := commitRules rules r in
                  let '(w, closedSessions) := Commit (userState s) (publish_all userCommits) w in
                  let s := set_published inbounds updated (set_parts w r o s) in
                  let s := set_revision (wrap_uint64 (runtimeRevision s + 1)) s in
                  let '(s, status) := publishRuntimeStatusLocked hash s in
                  let status := with_closed closedSessions status in
                  let '(calls, err) := update_cleanup answer retiredOutbounds None (o_calls (outbound s)) in
                  (set_parts (world s) (router s) (set_calls calls (outbound s)) s,
                   (if decide (err = None) then status else with_pending true status), None)
              end
          end
      end
  end.

(** [reloadUsersLocked]. *)
Definition reloadUsersLocked (updated : Options) (expectedRevision : option Z) (expectedInstance : string)
    (s : Box) : Box * RuntimeStatus * option error :=
  let '(s, status) := statusLocked s in
  if closed s then (s, status, Some (ENew "instance is closed"))
  else if decide (expectedInstance ≠ "" ∧ expectedInstance ≠ InstanceID status)
  then (s, status, Some ErrRuntimeConflict)
  else
    match configObject updated with
    | Err e => (s, status, Some e)
    | Ok after =>
        if decide (Fingerprint (JObj after) = ContentHash status) then (s, status, None)
        else if bool_decide (is_Some expectedRevision ∧ expectedRevision ≠ Some (Revision status))
        then (s, status, Some ErrRuntimeConflict)
        else
          match configObject (reloadOptions s) with
          | Err e => (s, status, Some e)
          | Ok before =>
              match planUserUpdate before after with
              | Err e => (s, status, Some e)
              | Ok plan =>
                  match unmarshal after with
                  | Err e => (s, status, Some e)
                  | Ok updated => publish_update plan updated (Fingerprint (JObj after)) status s
                  end
              end
          end
    end.

(** [ReloadUsers] and [ReloadUserRoutes]. *)
Definition ReloadUsers := reloadUsersLocked.

Definition ReloadUserRoutes (rules : list RuleOption) (outbounds : list (OutboundOption OutOptions))
    (expectedRevision : option Z) (expectedInstance : string) (s : Box) : Box * RuntimeStatus * option error :=
  let '(s, status) := statusLocked s in
  if decide (expectedRevision ≠ Some (Revision status) ∨ expectedInstance ≠ InstanceID status)
  then (s, status, Some ErrRuntimeConflict)
  else
    match cloneRuntimeOptions (reloadOptions s) with
    | Err e => (s, status, Some e)
    | Ok updated =>
        let rest := match Route updated with Some r => route_rest r | None => route_zero end in
        let updated := mkOptions (Inbounds updated) outbounds (EndpointTags updated) (Some (mkRoute rules rest)) (options_rest updated) in
        reloadUsersLocked updated expectedRevision expectedInstance s
    end.

(** [FenceUserRuntime]. *)
Definition FenceUserRuntime (expectedRevision : Z) (expectedInstance : string) (s : Box)
    : Box * RuntimeStatus * option error :=
  let '(s, status) := statusLocked s in
  if closed s then (s, status, Some (ENew "instance is closed"))
  else if decide (expectedInstance ≠ InstanceID status ∨ expectedRevision ≠ Revision status)
  then (s, status, Some ErrRuntimeConflict)
  else
    let s := set_revision (wrap_uint64 (runtimeRevision s + 1)) s in
    let '(s, status) := publishRuntimeStatusLocked (ContentHash status) s in
    (s, status, None).

(** [PreviewUserUpdate]: the status, the hash of the update, and whether it
    would be accepted; a panic of the planner is one of the preview. *)
Definition PreviewUserUpdate (updated : Options) (s : Box) : Box * RuntimeStatus * result (string * bool) :=
  let '(s, status) := statusLocked s in
  match configObject updated with
  | Err e => (s, status, Err e)
  | Ok after =>
      let hash := Fingerprint (JObj after) in
      if decide (hash = ContentHash status) then (s, status, Ok (hash, true))
      else
        match configObject (reloadOptions s) with
        | Err e => (s, status, Err e)
        | Ok before =>
            match planUserUpdate before after with
            | Ok _ => (s, status, Ok (hash, true))
            | Err planErr => (s, status, match panic_of planErr with Some _ => Err planErr | None => Ok (hash, false) end)
            end
        end
  end.

(** [TryAdditiveReload]. *)
Definition TryAdditiveReload (updated : Options) (s : Box) : Box * bool * option error :=
  let '(s, _, err) := ReloadUsers updated None "" s in (s, true, err).
End box.
