(* ===== verification/BoxReloadSpec.v ===== *)
(** * Lemmas on the reload of users

    What the preparation of an update leaves alone, and the publications it
    hands to the admission gate. *)
From S2P Require Import Prelude Json UserState UserStateInv UserStateProps HotRules Registry OutboundManager OutboundProps.
From S2P Require Import UserPlan UserPlanSpec InboundUsers InboundUsersProps BoxReload.

(** ** What preparation leaves alone *)

(** A world that differs from another in identities only it has, none of them
    valid. *)
Record grown (w w' : World) : Prop := {
  gr_managers : managers w' = managers w;
  gr_tables : tables w' = tables w;
  gr_sessions : sessions w' = sessions w;
  gr_counters : counters w' = counters w;
  gr_events : events w' = events w;
  gr_old : identities w ⊆ identities w';
  gr_new : ∀ i idn, identities w' !! i = Some idn → identities w !! i = None → id_valid idn = false;
}.

Lemma grown_refl w : grown w w.
Proof. split; try done. intros. congruence. Qed.

Lemma grown_trans w1 w2 w3 : grown w1 w2 → grown w2 w3 → grown w1 w3.
Proof.
  intros [] []. split; try congruence.
  - by etrans.
  - intros i idn H3 H1. destruct (identities w2 !! i) as [idn2|] eqn:H2; [|by eapply gr_new1].
    pose proof (lookup_weaken _ _ _ _ H2 gr_old1). simplify_eq. by eapply gr_new0.
Qed.

#[export] Hint Resolve grown_refl grown_trans : go.

Lemma grown_valid w w' i : grown w w' → is_valid w' i ↔ is_valid w i.
Proof.
  intros HG. unfold is_valid. split.
  - intros (idn & Hi & Hv). destruct (identities w !! i) as [idn'|] eqn:Hw.
    + pose proof (lookup_weaken _ _ _ _ Hw (gr_old _ _ HG)). simplify_eq. eauto.
    + pose proof (gr_new _ _ HG _ _ Hi Hw). congruence.
  - intros (idn & Hi & Hv). exists idn. split; [|done]. by eapply lookup_weaken, HG.
Qed.

Section prepare.
Context `{InboundEnv}.

Lemma prepare_table_grown t fps changed w w' ids p :
  prepare_table t fps changed w = (w', ids, p) → grown w w'.
Proof.
  unfold prepare_table. destruct (tables w !! t) as [tb|]; [|intros [= <- _ _]; apply grown_refl].
  pose proof (Prepare_spec t tb fps (default ∅ changed) w) as HS. intros Hp. rewrite Hp in HS.
  destruct HS as ([(? & ? & ? & ? & ?) Hold Hnew _ _] & _). by split.
Qed.

Lemma inbound_update_grown h raw changed w w' r :
  InboundUsers.PrepareUserUpdate h raw changed w = Some (w', r) → grown w w'.
Proof.
  destruct h as [t us|t ktls sv|t sv|], raw as [o|us'|us'|]; cbn [InboundUsers.PrepareUserUpdate];
    try (by intros [= <- _]; apply grown_refl); try done.
  - unfold socks_prepareUsers. destruct (fold_result _ _ _); [|intros [= <- _]; apply grown_refl].
    destruct (prepare_table _ _ _ _) as [[w1 ids] p] eqn:Hp. apply prepare_table_grown in Hp.
    destruct (_ && _ && _ && _); by intros [= <- _].
  - unfold vless_prepareUsers. destruct (fold_result _ _ _); [|intros [= <- _]; apply grown_refl].
    destruct (prepare_table _ _ _ _) as [[w1 ids] p] eqn:Hp. apply prepare_table_grown in Hp. by intros [= <- _].
  - unfold vmess_prepareUsers. destruct (fold_result _ _ _); [|intros [= <- _]; apply grown_refl].
    destruct (prepare_table _ _ _ _) as [[w1 ids] p] eqn:Hp. apply prepare_table_grown in Hp.
    destruct (fold_result _ _ _); by intros [= <- _].
Qed.
End prepare.

(** The published rules of a router do not change while rules are prepared or
    aborted. *)
Definition same_rules (r r' : Router) : Prop :=
  r_rules r' = r_rules r ∧ r_addedRules r' = r_addedRules r ∧ r_snapshots r' = r_snapshots r.

Lemma same_rules_current r r' : same_rules r r' → currentRules r' = currentRules r.
Proof. intros (H1 & H2 & H3). unfold currentRules. by rewrite H1, H2, H3. Qed.

Lemma PrepareAddedRules_same {O} (NewRule Start : O → option error) options idx r r' res :
  PrepareAddedRules NewRule Start options idx r = (r', res) → same_rules r r'.
Proof.
  unfold PrepareAddedRules.
  assert (∀ options i r0 next added r1 res1, same_rules r r0 →
    prepare_loop NewRule Start (currentRules r) idx options i r0 next added = (r1, res1) → same_rules r r1) as Hloop.
  { clear. induction options as [|o options IH]; intros i r0 next added r1 res1 Hs; cbn [prepare_loop].
    { by intros [= <- _]. }
    destruct (index idx _) as [k|]; [|by intros [= <- _]]. destruct (decide _).
    - destruct (index _ _); [by apply IH|by intros [= <- _]].
    - destruct (NewRule o); [by intros [= <- _]|]. destruct (Start o); [by intros [= <- _]|]. by apply IH. }
  destruct (prepare_loop _ _ _ _ _ _ _ _ _) as [r1 [[next added]|e]] eqn:Hp; intros [= <- _];
    by eapply (Hloop _ _ r).
Qed.

(** ** What a commit keeps *)

(** The managers and tables there are, and which manager a table belongs to. *)
Record same_shape (w w' : World) : Prop := {
  sh_managers : ∀ m, is_Some (managers w !! m) → is_Some (managers w' !! m);
  sh_tables : ∀ t, t_manager <$> tables w' !! t = t_manager <$> tables w !! t;
}.

Lemma same_shape_refl w : same_shape w w.
Proof. by split. Qed.
Lemma same_shape_trans w1 w2 w3 : same_shape w1 w2 → same_shape w2 w3 → same_shape w1 w3.
Proof. intros [? H1] [? H2]. split; [eauto|]. intros t. by rewrite H2. Qed.

Lemma Session_Close_shape s w : same_shape w (Session_Close s w).1.
Proof.
  destruct (sessions w !! s) as [se|] eqn:Hs; [destruct (s_closed se) eqn:Hc|].
  - rewrite Session_Close_noop; [apply same_shape_refl|]. intros ? ?. congruence.
  - destruct (Session_Close_open s se w Hs Hc) as (_ & Ht & _ & _ & Hm). split; [|intros t; by rewrite Ht].
    intros m [mg Hmg]. rewrite Hm. destruct (s_identity se); [|eauto].
    rewrite lookup_alter. destruct (decide _) as [<-|]; [|eauto]. rewrite Hmg. simpl. eauto.
  - rewrite Session_Close_noop; [apply same_shape_refl|]. intros ? ?. congruence.
Qed.

Lemma publish_all_shape ps w : same_shape w (publish_all ps w).1.
Proof.
  revert w. induction ps as [|p ps IH]; intros w; [apply same_shape_refl|].
  rewrite publish_all_cons. cbn [fst]. eapply same_shape_trans; [|apply IH].
  destruct (publish_frame p w) as (Hm & _ & _ & _ & Ht). split; [by rewrite Hm|].
  intros t. rewrite Ht, lookup_alter. destruct (decide _) as [<-|]; [|done]. by destruct (tables w !! p_table p).
Qed.

Lemma Commit_shape m ps w : same_shape w (Commit m (publish_all ps) w).1.
Proof.
  unfold Commit, commit_gate. pose proof (publish_all_shape ps w) as Hp.
  destruct (publish_all ps w) as [w1 retired]. cbn [fst] in *.
  eapply same_shape_trans; [exact Hp|]. clear Hp. destruct (managers w1 !! m) as [mg|]; [|apply same_shape_refl].
  generalize (collect mg retired). clear. intros ss. revert w1. induction ss as [|s ss IH]; intros w; [apply same_shape_refl|].
  eapply same_shape_trans; [apply Session_Close_shape|apply IH].
Qed.

(** ** Tags *)

Lemma check_tag_distinct message l seen0 seen :
  fold_result (check_tag message) l seen0 = Ok seen →
  ∀ i j it it' , l !! i = Some it → l !! j = Some it' → it.2 = it'.2 → it.2 ≠ "" → i = j.
Proof.
  intros Hf.
  apply (fold_result_inv (check_tag message)
    (λ pre (seen : gset string), (∀ i it, pre !! i = Some it → it.2 ≠ "" → it.2 ∈ seen) ∧
      ∀ i j it it', pre !! i = Some it → pre !! j = Some it' → it.2 = it'.2 → it.2 ≠ "" → i = j) l seen0 seen);
    [done| |done].
  intros pre x c c' _ [Hin Hdist]. unfold check_tag. destruct (decide (x.2 = "")) as [Hx|Hx]; cbv zeta.
  - destruct (decide _); [done|]. intros [= <-]. split.
    + intros i it [[Hi _]|[-> ->]]%lookup_snoc_cases Hne; [|done]. apply elem_of_union_l. eauto.
    + intros i j it it' [[Hi _]|[-> ->]]%lookup_snoc_cases [[Hj _]|[-> ->]]%lookup_snoc_cases Heq Hne;
        [eauto|congruence|congruence|done].
  - destruct (decide _) as [|Hnew]; [done|]. intros [= <-]. split.
    + intros i it [[Hi _]|[-> ->]]%lookup_snoc_cases Hne; [|set_solver]. apply elem_of_union_l. eauto.
    + intros i j it it' [[Hi _]|[-> ->]]%lookup_snoc_cases [[Hj _]|[-> ->]]%lookup_snoc_cases Heq Hne; try done.
      * by eapply Hdist.
      * destruct Hnew. rewrite <-Heq. by eapply Hin.
      * destruct Hnew. rewrite Heq. eapply Hin; [done|congruence].
Qed.

Section box.
Context `{InboundEnv}.
Context {RuleOption OutOptions E RouteRest Rest : Type} `{EndpointManager E} (endpoint : E).
Context (answer : nat → method → option error) (create : string → string → OutOptions → result Adapter).
Context (NewRule StartRule : RuleOption → option error) (route_zero : RouteRest).
Notation Options := (@Options RuleOption OutOptions RouteRest Rest).
Notation Box := (@Box _ RuleOption OutOptions RouteRest Rest).
Context (marshal : Options → result object) (decode : object → result Options) (instanceID : string).

Lemma unmarshal_tags o u i j tag x y :
  unmarshal decode o = Ok u → Inbounds u !! i = Some (tag, x) → Inbounds u !! j = Some (tag, y) → tag ≠ "" → i = j.
Proof.
  unfold unmarshal. intros Hu Hi Hj Hne. inv_bind Hu. inv_bind Hu. injection Hu as ->.
  unfold checkOptions in E1. inv_bind E1. unfold checkInbounds in E2.
  eapply (check_tag_distinct _ _ _ _ E2 i j (i, tag) (j, tag)); try done;
    rewrite list_lookup_imap, list_lookup_fmap, ?Hi, ?Hj; done.
Qed.

(** ** The invariant of a running instance *)

(** The user state is well formed, every managed inbound has a table of its
    own that belongs to the instance's manager, and no inbound has the empty
    tag. *)
Record box_inv (s : Box) : Prop := {
  bi_world : Inv (world s) [] [];
  bi_manager : is_Some (managers (world s) !! userState s);
  bi_table : ∀ tag h t, inbound s !! tag = Some h → inbound_table h = Some t →
    t_manager <$> tables (world s) !! t = Some (userState s);
  bi_inj : ∀ tag tag' h h' t, inbound s !! tag = Some h → inbound s !! tag' = Some h' →
    inbound_table h = Some t → inbound_table h' = Some t → tag = tag';
  bi_tag : inbound s !! "" = None;
}.

(** What is known of a prepared publication: its table, and whom it retires. *)
Definition prepared_for (s : Box) (u : Options) (changed : gmap string bool) (i : nat) (p : Publication) : Prop :=
  ∃ tag options h tb fps, Inbounds u !! i = Some (tag, options) ∧ inbound s !! tag = Some h ∧
    inbound_table h = Some (p_table p) ∧ tables (world s) !! p_table p = Some tb ∧ fingerprints h options = Ok fps ∧
    ∀ name old, t_users tb !! name = Some old →
      e_identity old ∈ p_retired p ↔ fps !! name ≠ Some (e_fingerprint old) ∨ flag changed name = true.

Lemma prepare_inbounds_grown (s : Box) (u : Options) changed idx w acc w' r :
  prepare_inbounds s u changed idx w acc = (w', r) → grown w w'.
Proof.
  revert w acc. induction idx as [|i idx IH]; intros w acc; cbn [prepare_inbounds].
  { intros [= <- _]. apply grown_refl. }
  destruct (Inbounds u !! i) as [[tag options]|]; [|intros [= <- _]; apply grown_refl].
  destruct (inbound s !! tag) as [h|]; [|intros [= <- _]; apply grown_refl].
  destruct (InboundUsers.PrepareUserUpdate h options changed w) as [[w1 r1]|] eqn:Hp;
    [|intros [= <- _]; apply grown_refl].
  apply inbound_update_grown in Hp. destruct r1 as [[p h']|e]; [|by intros [= <- _]].
  intros ?%IH. by eapply grown_trans.
Qed.

Lemma prepare_inbounds_ok (s : Box) (u : Options) changed idx w acc w' pubs ins :
  box_inv s → grown (world s) w → Inv w [] acc.1 → NoDup idx →
  (∀ i j tag x y, Inbounds u !! i = Some (tag, x) → Inbounds u !! j = Some (tag, y) → tag ≠ "" → i = j) →
  (∀ i tag x h t, i ∈ idx → Inbounds u !! i = Some (tag, x) → inbound s !! tag = Some h →
     inbound_table h = Some t → t ∉ p_table <$> acc.1) →
  (∀ tag, inbound_table <$> acc.2 !! tag = inbound_table <$> inbound s !! tag) →
  prepare_inbounds s u changed idx w acc = (w', Ok (pubs, ins)) →
  Inv w' [] pubs ∧ (∀ tag, inbound_table <$> ins !! tag = inbound_table <$> inbound s !! tag) ∧
  ∃ new, pubs = acc.1 ++ new ∧ Forall2 (prepared_for s u changed) idx new.
Proof.
  intros HB. revert w acc. induction idx as [|i idx IH]; intros w acc Hg HI Hnd Htags Hfree Hins; cbn [prepare_inbounds].
  { intros [= <- ->]. split_and!; [done|done|]. exists []. by rewrite app_nil_r. }
  destruct (Inbounds u !! i) as [[tag options]|] eqn:Hi; [|done].
  destruct (inbound s !! tag) as [h|] eqn:Hh; [|done].
  destruct (InboundUsers.PrepareUserUpdate h options changed w) as [[w1 [[p h']|e]]|] eqn:Hp; [|done..].
  destruct (inbound_update_ok _ _ _ _ _ _ _ Hp) as (t & fps & ids & Ht & Ht' & Hfps & Hprep).
  pose proof (prepare_table_grown _ _ _ _ _ _ _ Hprep) as Hg1.
  destruct (tables (world s) !! t) as [tb|] eqn:Htb; [|pose proof (bi_table _ HB _ _ _ Hh Ht) as Hb; by rewrite Htb in Hb].
  unfold prepare_table in Hprep. rewrite (gr_tables _ _ Hg), Htb in Hprep. cbn [default from_option id] in Hprep.
  assert (tables w !! t = Some tb) as Htw by by rewrite (gr_tables _ _ Hg).
  assert (t ∉ p_table <$> acc.1) as Hfresh by (eapply Hfree; [by left|done..]).
  assert (p_table p = t) as Hpt.
  { pose proof (Prepare_spec t tb fps changed w) as HS. rewrite Hprep in HS. apply HS. }
  assert (prepared_for s u changed i p) as Hfor.
  { exists tag, options, h, tb, fps. rewrite Hpt. split_and!; try done. intros name old Hu.
    pose proof (Prepare_retires t tb fps changed w [] acc.1 name old HI Htw Hu) as Hr. by rewrite Hprep in Hr. }
  assert (Inv w1 [] (acc.1 ++ [p])) as HI1.
  { pose proof (Prepare_inv t tb fps changed w [] acc.1 HI Htw Hfresh) as Hx. by rewrite Hprep in Hx. }
  apply NoDup_cons in Hnd as [Hni Hnd].
  intros Hrest. apply IH in Hrest as (HI' & Hins' & new & -> & HF); try done.
  - split_and!; [done|done|]. exists (p :: new). split; [cbn [fst]; by rewrite <-app_assoc|by constructor].
  - by eapply grown_trans.
  - intros j tag' x h1 t1 Hj Hj' Hh1 Ht1. cbn [fst]. rewrite fmap_app, elem_of_app.
    intros [Hin|Heq%list_elem_of_singleton]; [by eapply (Hfree j); [right| | | |]|]. rewrite Hpt in Heq. subst t1.
    assert (tag' = tag) as -> by by eapply (bi_inj _ HB).
    destruct (decide (tag = "")) as [->|Hne]; [pose proof (bi_tag _ HB); congruence|].
    assert (j = i) as -> by by eapply Htags. done.
  - intros tag'. cbn [snd]. rewrite lookup_insert. destruct (decide (tag = tag')) as [<-|]; [|done].
    rewrite Hh. simpl. by rewrite Ht, Ht'.
Qed.
End box.
