(* ===== verification/BoxReloadProps.v ===== *)
(** * What a reload of users promises

    A refused update changes nothing that is published; an accepted one closes
    exactly the sessions whose credentials or policy changed; the status tells
    the truth; and a request that carries an old revision can not change the
    configuration any more. *)
From S2P Require Import Prelude Json UserState UserStateInv UserStateProps HotRules Registry OutboundManager OutboundProps.
From S2P Require Import UserPlan UserPlanSpec UserPlanPolicy InboundUsers InboundUsersProps BoxReload BoxReloadSpec.

Section props.
Context `{InboundEnv}.
Context {RuleOption OutOptions E RouteRest Rest : Type} `{EndpointManager E} (endpoint : E).
Context (answer : nat → method → option error) (create : string → string → OutOptions → result Adapter).
Context (NewRule StartRule : RuleOption → option error) (route_zero : RouteRest).
Notation Options := (@Options RuleOption OutOptions RouteRest Rest).
Notation Box := (@Box _ RuleOption OutOptions RouteRest Rest).
Context (marshal : Options → result object) (decode : object → result Options) (instanceID : string).

Notation reload := (reloadUsersLocked endpoint answer create NewRule StartRule marshal decode instanceID).
Notation routes := (ReloadUserRoutes endpoint answer create NewRule StartRule route_zero marshal decode instanceID).
Notation status_of := (statusLocked marshal instanceID).
Notation publish := (publish_update endpoint answer create NewRule StartRule).

(** ** Status *)

(** Nothing but the cached status and the drawn identifier differs. *)
Definition same_but_view (s s' : Box) : Prop := s' = set_view (runtimeInstance s') (runtimeView s') s.

Lemma same_but_view_refl s : same_but_view s s.
Proof. by destruct s. Qed.

Lemma same_but_view_trans s1 s2 s3 : same_but_view s1 s2 → same_but_view s2 s3 → same_but_view s1 s3.
Proof. unfold same_but_view. intros -> ->. done. Qed.

Lemma statusLocked_frame s : same_but_view s (status_of s).1.
Proof.
  unfold statusLocked. destruct (runtimeView s) as [v|]; [apply same_but_view_refl|].
  destruct (decide _); unfold publishRuntimeStatusLocked; destruct s; done.
Qed.

(** The hash of the running configuration. *)
Definition current_hash (s : Box) : string :=
  Fingerprint (match configObject marshal (reloadOptions s) with Ok o => JObj o | Err _ => JNull end).

(** ** Refused updates *)

(** What of an instance a refused update may touch: it may have allocated
    identities nobody holds, called the methods of outbounds it created
    itself, and closed the rules it created. *)
Record unpublished (s s' : Box) : Prop := {
  up_world : grown (world s) (world s');
  up_userState : userState s' = userState s;
  up_rules : same_rules (router s) (router s');
  up_outbound : outbound s' = set_calls (o_calls (outbound s')) (outbound s);
  up_inbound : inbound s' = inbound s;
  up_options : reloadOptions s' = reloadOptions s;
  up_revision : runtimeRevision s' = runtimeRevision s;
  up_closed : closed s' = closed s;
}.

Lemma same_but_view_unpublished s s' : same_but_view s s' → unpublished s s'.
Proof. intros ->. destruct s as [? ? [] []]. split; try done. apply grown_refl. Qed.

Lemma unpublished_trans s1 s2 s3 : same_but_view s1 s2 → unpublished s2 s3 → unpublished s1 s3.
Proof. intros -> []. by split. Qed.

Lemma set_parts_unpublished s w r o :
  grown (world s) w → same_rules (router s) r → o = set_calls (o_calls o) (outbound s) →
  unpublished s (set_parts w r o s).
Proof. intros Hw Hr Ho. by split. Qed.

Lemma publish_update_err plan u hash status s s' st e :
  publish plan u hash status s = (s', st, Some e) → unpublished s s' ∧ st = status ∧ runtimeView s' = runtimeView s ∧
  runtimeInstance s' = runtimeInstance s.
Proof.
  unfold publish_update.
  assert (outbound s = set_calls (o_calls (outbound s)) (outbound s)) as Hself by by destruct (outbound s).
  destruct (prepare_inbounds _ _ _ _ _ _) as [w [[pubs ins]|e1]] eqn:Hin; apply prepare_inbounds_grown in Hin.
  2:{ intros [= <- <- _]. split; [by apply set_parts_unpublished|done]. }
  destruct (PrepareAddedRules _ _ _ _ _) as [r [rules|e1]] eqn:Hr; apply PrepareAddedRules_same in Hr.
  2:{ intros [= <- <- _]. split; [by apply set_parts_unpublished|done]. }
  destruct (select_outbounds _ _) as [os|e1].
  2:{ intros [= <- <- _]. split; [by apply set_parts_unpublished|done]. }
  destruct (OutboundManager.PrepareUserUpdate _ _ _ _ _ _) as [o [prepared|e1]] eqn:Ho.
  2:{ apply PrepareUserUpdate_err in Ho. intros [= <- <- _]. split; [by apply set_parts_unpublished|done]. }
  destruct (update_publish _ _ _). destruct (Commit _ _ _). destruct (publishRuntimeStatusLocked _ _).
  destruct (update_cleanup _ _ _ _). done.
Qed.

Lemma reload_refused updated rev inst s s' st e :
  reload updated rev inst s = (s', st, Some e) → unpublished s s' ∧ st = (status_of s).2.
Proof.
  intros Hr. unfold reloadUsersLocked in Hr. pose proof (statusLocked_frame s) as Hf.
  destruct (status_of s) as [s1 status]. cbn [fst snd] in *.
  assert (unpublished s s1) as Hu by by apply same_but_view_unpublished.
  destruct (closed s1); [by simplify_eq|]. destruct (decide _); [by simplify_eq|].
  destruct (configObject marshal updated) as [after|]; [|by simplify_eq]. destruct (decide _); [by simplify_eq|].
  destruct (bool_decide _); [by simplify_eq|]. destruct (configObject marshal (reloadOptions s1)); [|by simplify_eq].
  destruct (planUserUpdate _ _) as [plan|]; [|by simplify_eq]. destruct (unmarshal _ _); [|by simplify_eq].
  apply publish_update_err in Hr as (Hu' & -> & _). split; [|done]. by eapply unpublished_trans.
Qed.

(** C2: a refused update publishes nothing.  Whatever the reason, the users,
    their sessions and their traffic, the rules in force, the registered
    outbounds, the inbounds, the configuration and the revision are those of
    before, and the caller gets the status of before. *)
Theorem refused_update_publishes_nothing updated rev inst s s' st e :
  reload updated rev inst s = (s', st, Some e) →
  unpublished s s' ∧ currentRules (router s') = currentRules (router s) ∧
  (∀ i, is_valid (world s') i ↔ is_valid (world s) i) ∧ st = (status_of s).2.
Proof.
  intros [Hu ->]%reload_refused. split; [done|]. split; [apply same_rules_current, Hu|]. split; [|done].
  intros i. apply grown_valid, Hu.
Qed.

(** ** Accepted updates *)

(** The state after a publication, in terms of what was prepared. *)
Record published (plan : userUpdatePlan) (u : Options) (hash : string) (s s' : Box) (st : RuntimeStatus) : Prop := {
  pb_world : ∃ w pubs,
    prepare_inbounds s u (gset_to_gmap true (changedNames plan)) (inboundIndexes plan) (world s) ([], inbound s) =
      (w, Ok (pubs, inbound s')) ∧
    world s' = (Commit (userState s) (publish_all pubs) w).1 ∧
    ClosedSessions st = (Commit (userState s) (publish_all pubs) w).2;
  pb_rules : ∃ r rules,
    PrepareAddedRules NewRule StartRule (match Route u with Some r => Rules r | None => [] end) (ruleIndexes plan)
      (router s) = (r, Ok rules) ∧ router s' = commitRules rules r;
  pb_outbounds : ∃ os o prepared o' retired,
    select_outbounds (Outbounds u) (outboundIndexes plan) = Ok os ∧
    OutboundManager.PrepareUserUpdate endpoint answer create os (removedOutbounds plan) (outbound s) = (o, Ok prepared) ∧
    update_publish (removedOutbounds plan) prepared o = (o', retired) ∧
    outbound s' = set_calls (update_cleanup answer retired None (o_calls o')).1 o' ∧
    CleanupPending st = bool_decide ((update_cleanup answer retired None (o_calls o')).2 ≠ None);
  pb_userState : userState s' = userState s;
  pb_options : reloadOptions s' = u;
  pb_revision : runtimeRevision s' = wrap_uint64 (runtimeRevision s + 1);
  pb_instance : runtimeInstance s' = runtimeInstance s;
  pb_closed : closed s' = closed s;
  pb_view : runtimeView s' = Some (mkStatus 0 (runtimeInstance s) (runtimeRevision s') hash 0 false);
  pb_status : InstanceID st = runtimeInstance s ∧ Revision st = runtimeRevision s' ∧ ContentHash st = hash;
}.

Lemma publish_update_ok plan u hash status s s' st :
  publish plan u hash status s = (s', st, None) → published plan u hash s s' st.
Proof.
  unfold publish_update.
  destruct (prepare_inbounds _ _ _ _ _ _) as [w [[pubs ins]|e1]] eqn:Hin; [|done].
  destruct (PrepareAddedRules _ _ _ _ _) as [r [rules|e1]] eqn:Hr; [|done].
  destruct (select_outbounds _ _) as [os|e1] eqn:Hos; [|done].
  destruct (OutboundManager.PrepareUserUpdate _ _ _ _ _ _) as [o [prepared|e1]] eqn:Ho; [|done].
  destruct (update_publish _ _ _) as [o' retired] eqn:Hup.
  destruct (Commit _ _ _) as [w' n] eqn:Hc. unfold publishRuntimeStatusLocked.
  cbn [outbound set_view set_revision set_published set_parts].
  destruct (update_cleanup _ _ _ _) as [calls err] eqn:Hcl. intros [= <- <-].
  split; try done.
  - exists w, pubs. rewrite Hc. split_and!; [done..|]. by destruct (decide _).
  - exists r, rules. done.
  - exists os, o, prepared, o', retired. rewrite Hcl. split_and!; try done.
    destruct (decide _) as [->|Hne]; [done|]. by rewrite bool_decide_true.
  - by destruct (decide _).
Qed.

(** The ways an accepted update ends: the content was the running one, or it
    was planned and published. *)
Lemma reload_accepted updated rev inst s s' st :
  reload updated rev inst s = (s', st, None) →
  (∃ after, configObject marshal updated = Ok after ∧ Fingerprint (JObj after) = ContentHash (status_of s).2 ∧
     s' = (status_of s).1 ∧ st = (status_of s).2) ∨
  (∃ before after plan u, configObject marshal (reloadOptions s) = Ok before ∧ configObject marshal updated = Ok after ∧
     planUserUpdate before after = Ok plan ∧ unmarshal decode after = Ok u ∧
     Fingerprint (JObj after) ≠ ContentHash (status_of s).2 ∧
     (∀ r, rev = Some r → r = Revision (status_of s).2) ∧
     (inst = "" ∨ inst = InstanceID (status_of s).2) ∧
     published plan u (Fingerprint (JObj after)) (status_of s).1 s' st).
Proof.
  unfold reloadUsersLocked. pose proof (statusLocked_frame s) as Hf.
  destruct (status_of s) as [s1 status]. cbn [fst snd] in *.
  assert (reloadOptions s1 = reloadOptions s) as Ho by by rewrite Hf.
  destruct (closed s1); [done|]. destruct (decide (_ ∧ _)) as [|Hinst]; [done|].
  destruct (configObject marshal updated) as [after|]; [|done].
  destruct (decide _) as [Heq|Hne]; [intros [= <- <-]; left; eauto|].
  destruct (bool_decide _) eqn:Hrev; [done|]. rewrite Ho. destruct (configObject marshal (reloadOptions s)) as [before|]; [|done].
  destruct (planUserUpdate before after) as [plan|] eqn:Hplan; [|done].
  destruct (unmarshal decode after) as [u|] eqn:Hu; [|done]. intros Hp%publish_update_ok. right.
  exists before, after, plan, u. split_and!; try done.
  - intros r ->. apply bool_decide_eq_false in Hrev. destruct (decide (r = Revision status)) as [|Hn]; [done|].
    destruct Hrev. split; [eauto|congruence].
  - destruct (decide (inst = "")) as [|?]; [by left|right]. apply dec_stable. tauto.
Qed.

Lemma box_inv_view s s' : same_but_view s s' → box_inv s → box_inv s'.
Proof. intros -> []. by split. Qed.

Lemma flag_changed (X : gset string) name : flag (gset_to_gmap true X) name = true ↔ name ∈ X.
Proof.
  unfold flag. rewrite lookup_gset_to_gmap. destruct (decide (name ∈ X)).
  - rewrite option_guard_True by done. done.
  - rewrite option_guard_False by done. done.
Qed.

(** The publications of an accepted update. *)
Record commits (plan : userUpdatePlan) (u : Options) (s s' : Box) (w : World) (pubs : list Publication) : Prop := {
  cm_grown : grown (world s) w;
  cm_inv : Inv w [] pubs;
  cm_world : world s' = (Commit (userState s) (publish_all pubs) w).1;
  cm_manager : is_Some (managers w !! userState s);
  cm_owner : ∀ p tb, p ∈ pubs → tables w !! p_table p = Some tb → t_manager tb = userState s;
  cm_inbound : ∀ tag, inbound_table <$> inbound s' !! tag = inbound_table <$> inbound s !! tag;
  cm_for : Forall2 (prepared_for s u (gset_to_gmap true (changedNames plan))) (inboundIndexes plan) pubs;
}.

Lemma published_commits plan after u hash s s' st :
  box_inv s → NoDup (inboundIndexes plan) → unmarshal decode after = Ok u → published plan u hash s s' st →
  ∃ w pubs, commits plan u s s' w pubs ∧ ClosedSessions st = (Commit (userState s) (publish_all pubs) w).2.
Proof.
  intros HB Hnd Hu Hp. destruct (pb_world _ _ _ _ _ _ Hp) as (w & pubs & Hin & Hw & Hn).
  exists w, pubs. split; [|done]. pose proof (prepare_inbounds_grown _ _ _ _ _ _ _ _ Hin) as Hg.
  apply prepare_inbounds_ok in Hin as (HI & Hins & new & Heq & HF); try done.
  - cbn [fst app] in Heq. subst new. split; try done.
    + rewrite (gr_managers _ _ Hg). apply (bi_manager _ HB).
    + intros p tb [k Hk]%list_elem_of_lookup Htb. rewrite (gr_tables _ _ Hg) in Htb.
      destruct (Forall2_lookup_r _ _ _ _ _ HF Hk) as (j & _ & tag & o & h & tb' & fps & _ & Hh & Ht & _).
      pose proof (bi_table _ HB _ _ _ Hh Ht) as Hm. rewrite Htb in Hm. by injection Hm.
  - apply grown_refl.
  - apply (bi_world _ HB).
  - intros. by eapply unmarshal_tags.
  - intros. cbn. apply not_elem_of_nil.
Qed.

Lemma commits_inv plan u s s' w pubs :
  box_inv s → commits plan u s s' w pubs → userState s' = userState s → box_inv s'.
Proof.
  intros HB [Hg HI Hw [mg Hm] Hown Hins _] Hus. pose proof (Commit_shape (userState s) pubs w) as Hs.
  assert (∀ tag h t, inbound s' !! tag = Some h → inbound_table h = Some t →
    ∃ h0, inbound s !! tag = Some h0 ∧ inbound_table h0 = Some t) as Hback.
  { intros tag h t Hh Ht. specialize (Hins tag). rewrite Hh in Hins. simpl in Hins.
    destruct (inbound s !! tag) as [h0|]; [|done]. exists h0. split; [done|]. simpl in Hins. congruence. }
  split.
  - rewrite Hw. by eapply Commit_inv.
  - rewrite Hw, Hus. apply Hs. eauto.
  - intros tag h t Hh Ht. destruct (Hback _ _ _ Hh Ht) as (h0 & Hh0 & Ht0).
    rewrite Hw, Hus, (sh_tables _ _ Hs), (gr_tables _ _ Hg). by eapply (bi_table _ HB).
  - intros tag tag' h h' t Hh Hh' Ht Ht'. destruct (Hback _ _ _ Hh Ht) as (h0 & ? & ?).
    destruct (Hback _ _ _ Hh' Ht') as (h1 & ? & ?). by eapply (bi_inj _ HB).
  - specialize (Hins ""). rewrite (bi_tag _ HB) in Hins. by destruct (inbound s' !! "").
Qed.

(** The user [name] of inbound [tag] as the running instance knows it. *)
Definition credential (s : Box) (tag name : string) (h : Inbound) (old : entry) : Prop :=
  ∃ t tb, inbound s !! tag = Some h ∧ inbound_table h = Some t ∧ tables (world s) !! t = Some tb ∧
    t_users tb !! name = Some old.

(** The update lists the user with the same credentials, and its policy is
    unchanged; or it does not publish the inbound at all. *)
Definition keeps_user (plan : userUpdatePlan) (u : Options) (tag name : string) (h : Inbound) (old : entry) : Prop :=
  ∀ j options, j ∈ inboundIndexes plan → Inbounds u !! j = Some (tag, options) →
    ∃ fps, fingerprints h options = Ok fps ∧ fps !! name = Some (e_fingerprint old) ∧ name ∉ changedNames plan.

Lemma commits_retire plan u s s' w pubs tag name h old :
  box_inv s → commits plan u s s' w pubs → credential s tag name h old →
  e_identity old ∉ (publish_all pubs w).2 ↔ keeps_user plan u tag name h old.
Proof.
  intros HB [Hg HI _ _ _ _ HF] (t & tb & Hh & Ht & Htb & Hu). rewrite publish_all_retired, list_elem_of_bind.
  assert (owner w t name (e_identity old)) as Hown by (exists tb, old; by rewrite (gr_tables _ _ Hg)).
  split.
  - intros Hnot j options [k Hk]%list_elem_of_lookup Hj.
    destruct (Forall2_lookup_l _ _ _ _ _ HF Hk) as (p & Hp & tag' & o' & h' & tb' & fps & Hj' & Hh' & Ht' & Htb' & Hf & Hr).
    simplify_eq. exists fps. assert (e_identity old ∉ p_retired p) as Hn.
    { intros Hin. apply Hnot. exists p. split; [done|]. by eapply list_elem_of_lookup_2. }
    specialize (Hr name old Hu). split; [done|]. rewrite <-flag_changed.
    destruct (decide (fps !! name = Some (e_fingerprint old))), (decide (flag (gset_to_gmap true (changedNames plan)) name = true)); tauto.
  - intros Hkeep (p & Hin & [k Hk]%list_elem_of_lookup).
    destruct (Forall2_lookup_r _ _ _ _ _ HF Hk) as (j & Hj & tag' & o' & h' & tb' & fps & Hj' & Hh' & Ht' & Htb' & Hf & Hr).
    destruct (prepared_retired_owner _ _ _ _ _ HI (list_elem_of_lookup_2 _ _ _ Hk) Hin) as [name' Hown'].
    destruct (inv_inj _ _ _ HI _ _ _ _ _ Hown Hown') as [-> <-]. simplify_eq.
    assert (tag' = tag) as -> by by eapply (bi_inj _ HB). simplify_eq.
    destruct (Hkeep j o' (list_elem_of_lookup_2 _ _ _ Hj) Hj') as (fps' & ? & Hsame & Hunch). simplify_eq.
    apply (Hr name old Hu) in Hin as [Hbad|Hbad%flag_changed]; [congruence|done].
Qed.

Lemma open_bound_grown w w' sid m i : grown w w' → open_bound w' sid m i ↔ open_bound w sid m i.
Proof. intros HG. unfold open_bound. by rewrite (gr_sessions _ _ HG). Qed.

Lemma commits_open plan u s s' w pubs sid i :
  commits plan u s s' w pubs → open_bound (world s) sid (userState s) i →
  open_bound (world s') sid (userState s) i ↔ i ∉ (publish_all pubs w).2.
Proof.
  intros [Hg HI Hw [mg Hm] Hown _ _] (se & Hs & Hsm & Hsi & Hsc).
  assert (sessions w !! sid = Some se) as Hsw by by rewrite (gr_sessions _ _ Hg).
  unfold open_bound. rewrite Hw, (Commit_sessions _ mg _ _ HI Hm Hown _ _ Hsw), Hsi.
  destruct (decide (i ∈ (publish_all pubs w).2)) as [Hr|Hr].
  - split; [|done]. unfold closed_session. rewrite Hsc. by intros (se' & [= <-] & _ & _ & ?).
  - split; [done|]. intros _. by exists se.
Qed.

Lemma commits_gone plan u s s' w pubs :
  commits plan u s s' w pubs →
  ∃ gone, NoDup gone ∧ length gone = (Commit (userState s) (publish_all pubs) w).2 ∧
    ∀ sid, sid ∈ gone ↔ ∃ i, open_bound (world s) sid (userState s) i ∧ ¬ open_bound (world s') sid (userState s) i.
Proof.
  intros HC. pose proof HC as [Hg HI Hw [mg Hm] Hown _ _].
  exists (collect mg (publish_all pubs w).2). rewrite (Commit_eq _ mg _ _ Hm). split_and!; [|done|].
  - eapply collect_NoDup; [done..|]. rewrite publish_all_retired. by eapply retired_NoDup.
  - intros sid. rewrite (elem_of_collect w [] pubs _ mg _ _ HI Hm). split.
    + intros (i & Hb%(open_bound_grown _ _ _ _ _ Hg) & Hr). exists i. split; [done|].
      rewrite (commits_open _ _ _ _ _ _ _ _ HC Hb). tauto.
    + intros (i & Hb & Hn). exists i. rewrite (open_bound_grown _ _ _ _ _ Hg). split; [done|].
      rewrite (commits_open _ _ _ _ _ _ _ _ HC Hb) in Hn. by apply dec_stable.
Qed.

(** C1: an accepted update closes exactly the sessions it has to.  Either the
    encoded content has the hash that the status reports for the running
    configuration, and then nothing but the cached status differs; or it has
    another hash, and then the update is planned, the configuration, the revision and the hash are
    the new ones, the invariant of the instance still holds, and an open
    session of a user of an inbound stays open exactly when the update lists
    that user with the same credentials and does not change its policy, or
    does not publish the inbound.  After the update no session of a revoked
    identity is open, and the number of closed sessions is reported. *)
Theorem accepted_update_closes_exactly updated rev inst s s' st :
  box_inv s → reload updated rev inst s = (s', st, None) →
  (∃ after, configObject marshal updated = Ok after ∧ Fingerprint (JObj after) = ContentHash (status_of s).2 ∧
     same_but_view s s' ∧ st = (status_of s).2) ∨
  ∃ before after plan u, configObject marshal (reloadOptions s) = Ok before ∧ configObject marshal updated = Ok after ∧
    Fingerprint (JObj after) ≠ ContentHash (status_of s).2 ∧
    planUserUpdate before after = Ok plan ∧ unmarshal decode after = Ok u ∧
    reloadOptions s' = u ∧ runtimeRevision s' = wrap_uint64 (runtimeRevision s + 1) ∧
    ContentHash st = Fingerprint (JObj after) ∧ Revision st = runtimeRevision s' ∧ box_inv s' ∧
    (∀ sid tag name h old, open_bound (world s) sid (userState s) (e_identity old) → credential s tag name h old →
       open_bound (world s') sid (userState s) (e_identity old) ↔ keeps_user plan u tag name h old) ∧
    (∀ sid m i, open_bound (world s') sid m i → is_valid (world s') i) ∧
    ∃ gone, NoDup gone ∧ length gone = ClosedSessions st ∧
      ∀ sid, sid ∈ gone ↔ ∃ i, open_bound (world s) sid (userState s) i ∧ ¬ open_bound (world s') sid (userState s) i.
Proof.
  intros HB Hr. pose proof (statusLocked_frame s) as Hf. pose proof (box_inv_view _ _ Hf HB) as HB1.
  apply reload_accepted in Hr as [(after & Ha & Hh & -> & ->)|(before & after & plan & u & Hb & Ha & Hpl & Hu & Hne & _ & _ & Hp)];
    [left; by exists after|right].
  set (s1 := (status_of s).1) in *.
  assert (world s1 = world s ∧ userState s1 = userState s ∧ runtimeRevision s1 = runtimeRevision s ∧ inbound s1 = inbound s)
    as (Hw1 & Hu1 & Hr1 & Hi1) by by rewrite Hf.
  assert (NoDup (inboundIndexes plan)) as Hnd.
  { destruct (plan_accepted _ _ _ Hpl) as [pl].
    destruct (plan_changed_inbounds_ok _ _ _ _ _ (pl_touched _ _ _ pl)) as [Hs _]. by apply StronglySorted_lt_NoDup. }
  destruct (published_commits _ _ _ _ _ _ _ HB1 Hnd Hu Hp) as (w & pubs & HC & Hn).
  pose proof (commits_inv _ _ _ _ _ _ HB1 HC (pb_userState _ _ _ _ _ _ Hp)) as HB'.
  rewrite <-Hw1, <-Hu1, <-Hr1. exists before, after, plan, u. split_and!; try done; try apply Hp.
  - intros sid tag name h old Hb' (t & tb & Hcred). rewrite (commits_open _ _ _ _ _ _ _ _ HC Hb').
    eapply (commits_retire _ _ _ _ _ _ _ _ _ _ HB1 HC). exists t, tb. by rewrite Hw1, Hi1.
  - apply (Inv_no_pending_valid _ []), HB'.
  - rewrite Hn. by eapply commits_gone.
Qed.

(** ** Runs of an instance *)

(** The requests an instance serves, one at a time, and the activity of
    sessions between them. *)
Inductive bstep : Box → Box → Prop :=
| bs_reload u rev inst s s' st err : reload u rev inst s = (s', st, err) → bstep s s'
| bs_routes rules os rev inst s s' st err : routes rules os rev inst s = (s', st, err) → bstep s s'
| bs_fence rev inst s s' st err : FenceUserRuntime marshal instanceID rev inst s = (s', st, err) → bstep s s'
| bs_preview u s s' st res : PreviewUserUpdate marshal instanceID u s = (s', st, res) → bstep s s'
| bs_status s s' st : UserRuntimeStatus marshal instanceID s = (s', st) → bstep s s'
| bs_sessions w s : bstep s (set_parts w (router s) (outbound s) s).

(** How a step moves the revision and the cached status: the cache may have
    been filled, an update may have been refused after preparation, the fence
    may have raised the revision, or an update was published. *)
Inductive moves : Box → Box → Prop :=
| mv_view s : moves s (status_of s).1
| mv_refused s s' : unpublished (status_of s).1 s' → runtimeView s' = runtimeView (status_of s).1 →
    runtimeInstance s' = runtimeInstance (status_of s).1 → moves s s'
| mv_fence s : moves s (publishRuntimeStatusLocked (ContentHash (status_of s).2)
    (set_revision (wrap_uint64 (runtimeRevision s + 1)) (status_of s).1)).1
| mv_published plan x after u s s' st : configObject marshal x = Ok after → unmarshal decode after = Ok u →
    published plan u (Fingerprint (JObj after)) (status_of s).1 s' st → moves s s'.

Lemma reload_moves u rev inst s s' st err : reload u rev inst s = (s', st, err) → moves s s'.
Proof.
  destruct err as [e|].
  - unfold reloadUsersLocked. pose proof (mv_view s) as Hv. pose proof (mv_refused s) as Hr.
    destruct (status_of s) as [s1 status]. cbn [fst] in *.
    destruct (closed s1); [by intros [= <- _ _]|]. destruct (decide _); [by intros [= <- _ _]|].
    destruct (configObject marshal u) as [after|]; [|by intros [= <- _ _]]. destruct (decide _); [by intros [= <- _ _]|].
    destruct (bool_decide _); [by intros [= <- _ _]|]. destruct (configObject marshal (reloadOptions s1)); [|by intros [= <- _ _]].
    destruct (planUserUpdate _ _) as [plan|]; [|by intros [= <- _ _]]. destruct (unmarshal _ _); [|by intros [= <- _ _]].
    intros (Hu & _ & Hview & Hinst)%publish_update_err. by apply Hr.
  - intros [(after & _ & _ & -> & _)|(b & after & plan & x & _ & Ha & _ & Hu & _ & _ & _ & Hp)]%reload_accepted;
      [apply mv_view|by eapply mv_published].
Qed.

(** Reading the status again does nothing. *)
Lemma statusLocked_twice s : status_of (status_of s).1 = status_of s.
Proof.
  unfold statusLocked at 2 3. destruct (runtimeView s) as [v|] eqn:Hv.
  - cbn [fst]. unfold statusLocked. by rewrite Hv.
  - unfold publishRuntimeStatusLocked. destruct (decide _); done.
Qed.

Lemma moves_again s s' : moves (status_of s).1 s' → moves s s'.
Proof.
  intros Hm. remember (status_of s).1 as s1 eqn:Hs1. destruct Hm as [s1|s1 s' Hu Hv Hi|s1|plan x after u s1 s' st Hx Hu Hp];
    subst s1; rewrite statusLocked_twice in *.
  - apply mv_view.
  - by apply mv_refused.
  - replace (runtimeRevision (status_of s).1) with (runtimeRevision s) by (by rewrite (statusLocked_frame s)).
    apply mv_fence.
  - by eapply mv_published.
Qed.

Lemma bstep_moves s s' : bstep s s' → moves s s' ∨ ∃ w, s' = set_parts w (router s) (outbound s) s.
Proof.
  intros [u rev inst s0 s1 st err Hr|rules os rev inst s0 s1 st err Hr|rev inst s0 s1 st err Hr|u s0 s1 st res Hr|s0 s1 st Hr|w s0];
    [left..|by right; exists w].
  - by eapply reload_moves.
  - unfold ReloadUserRoutes in Hr. pose proof (mv_view s0) as Hv. pose proof (moves_again s0) as Ha.
    destruct (status_of s0) as [s2 status]. cbn [fst] in *. destruct (decide _); [by simplify_eq|].
    destruct (cloneRuntimeOptions _ _ _); [|by simplify_eq]. apply Ha. by eapply reload_moves.
  - unfold FenceUserRuntime in Hr. pose proof (mv_view s0) as Hv. pose proof (mv_fence s0) as Hf.
    pose proof (statusLocked_frame s0) as Hsame. destruct (status_of s0) as [s2 status]. cbn [fst snd] in *.
    destruct (closed s2); [by simplify_eq|]. destruct (decide _); [by simplify_eq|].
    assert (runtimeRevision s2 = runtimeRevision s0) as Hrev by by rewrite Hsame. rewrite Hrev in Hr.
    destruct (publishRuntimeStatusLocked _ _) as [s3 st3]. by simplify_eq.
  - unfold PreviewUserUpdate in Hr. pose proof (mv_view s0) as Hv. destruct (status_of s0) as [s2 status]. cbn [fst] in *.
    destruct (configObject marshal u); [|by simplify_eq]. destruct (decide _); [by simplify_eq|].
    destruct (configObject marshal (reloadOptions s2)); [|by simplify_eq]. destruct (planUserUpdate _ _); by simplify_eq.
  - unfold UserRuntimeStatus in Hr. pose proof (mv_view s0) as Hv. unfold statusLocked in Hv.
    destruct (runtimeView s0) as [v|] eqn:Hview; [by simplify_eq|]. unfold statusLocked in Hr. rewrite Hview in Hr.
    destruct (publishRuntimeStatusLocked _ _). by simplify_eq.
Qed.

Lemma same_view_hash s s' : reloadOptions s' = reloadOptions s → current_hash s' = current_hash s.
Proof. unfold current_hash. by intros ->. Qed.

(** The hash [h] is that of the configuration that is running: the one the
    instance [s0] was created with, or the content of the update it was decoded
    from. *)
Definition hash_of_running (s0 s : Box) (h : string) : Prop :=
  (reloadOptions s = reloadOptions s0 ∧ h = current_hash s0) ∨
  ∃ x after, configObject marshal x = Ok after ∧ unmarshal decode after = Ok (reloadOptions s) ∧
    h = Fingerprint (JObj after).

(** The cached status carries the instance, the revision and the hash of the
    running configuration; as long as nothing is cached, the configuration is
    the first one. *)
Definition view_ok (s0 s : Box) : Prop :=
  match runtimeView s with
  | None => reloadOptions s = reloadOptions s0
  | Some v => ∃ h, v = mkStatus 0 (runtimeInstance s) (runtimeRevision s) h 0 false ∧ hash_of_running s0 s h
  end.

Lemma hash_of_running_same s0 s s' h :
  reloadOptions s' = reloadOptions s → hash_of_running s0 s h → hash_of_running s0 s' h.
Proof. unfold hash_of_running. by intros ->. Qed.

Lemma statusLocked_ok s0 s :
  view_ok s0 s → let s' := (status_of s).1 in
  view_ok s0 s' ∧ is_Some (runtimeView s') ∧ ∃ h, hash_of_running s0 s h ∧ (status_of s).2 =
    mkStatus (SessionCount (userState s) (world s)) (runtimeInstance s') (runtimeRevision s) h 0 false.
Proof.
  unfold view_ok at 1, statusLocked. destruct (runtimeView s) as [v|] eqn:Hr.
  { intros (h & -> & Hh). cbn [fst snd]. split_and!; [unfold view_ok; rewrite Hr; eauto|by rewrite Hr|eauto]. }
  intros Ho. assert (hash_of_running s0 s (current_hash s)) as Hh by (left; split; [done|]; unfold current_hash; by rewrite Ho).
  unfold publishRuntimeStatusLocked. destruct (decide _); cbn [fst snd]; (split; [|split; [by eexists|eauto]]);
    (eexists; split; [done|exact Hh]).
Qed.

Lemma moves_view_ok s0 s s' : view_ok s0 s → moves s s' → view_ok s0 s'.
Proof.
  intros Hv Hm. destruct (statusLocked_ok s0 s Hv) as (Hv1 & [v1 Hsome] & h & Hh & Hst).
  destruct Hm as [s|s s' Hu Hview Hinst|s|plan x after u s s' st Hx Hu Hp].
  - done.
  - unfold view_ok in *. rewrite Hview. rewrite Hsome in *. destruct Hv1 as (h1 & -> & Hh1). exists h1.
    rewrite Hinst, (up_revision _ _ Hu). split; [done|]. by apply (hash_of_running_same _ _ _ _ (up_options _ _ Hu)).
  - unfold view_ok. cbn. exists h. rewrite Hst. split; [done|]. revert Hh. apply hash_of_running_same.
    by rewrite (statusLocked_frame s).
  - unfold view_ok. rewrite (pb_view _ _ _ _ _ _ Hp), (pb_instance _ _ _ _ _ _ Hp). eexists. split; [done|].
    right. exists x, after. by rewrite (pb_options _ _ _ _ _ _ Hp).
Qed.

(** C3: the status tells the truth.  Whatever requests an instance served and
    whatever its sessions did since it was created, the status it reports has
    the current revision, the number of sessions that are open now, and the
    hash of the running configuration: that of the first configuration as long
    as it is still the one, and otherwise that of the encoded content from
    which the running configuration was decoded when its update was published.
    Nothing is assumed of encoding and decoding: where decoding rewrites a
    configuration, the hash is that of the content before it was decoded. *)
Theorem status_tells_truth s0 s :
  runtimeView s0 = None → star bstep s0 s →
  ∃ hash, hash_of_running s0 s hash ∧
  (UserRuntimeStatus marshal instanceID s).2 =
    mkStatus (SessionCount (userState s) (world s)) (runtimeInstance (status_of s).1) (runtimeRevision s) hash 0 false.
Proof.
  intros Hnone Hs.
  assert (view_ok s0 s) as Hv.
  { apply (star_preserves bstep (view_ok s0) (view_ok s0)) with s0; try done; try (by unfold view_ok; rewrite Hnone);
      intros a b Ha; [|intros _]; (intros [?|[w ->]]%bstep_moves; [by eapply moves_view_ok|done]). }
  destruct (statusLocked_ok s0 s Hv) as (_ & _ & h & Hh & Hst). exists h. split; [done|]. rewrite <-Hst.
  unfold UserRuntimeStatus, statusLocked. by destruct (runtimeView s).
Qed.

(** ** Fencing *)

(** The cached status carries the current revision. *)
Definition revision_ok (s : Box) : Prop :=
  (0 <= runtimeRevision s < 2 ^ 64)%Z ∧ ∀ v, runtimeView s = Some v → Revision v = runtimeRevision s.

Lemma statusLocked_revision s :
  revision_ok s → revision_ok (status_of s).1 ∧ Revision (status_of s).2 = runtimeRevision s ∧
  runtimeRevision (status_of s).1 = runtimeRevision s.
Proof.
  intros [Hr Hv]. unfold statusLocked. destruct (runtimeView s) as [v|] eqn:Hview.
  { cbn [fst snd]. split; [split; [done|intros v'; rewrite Hview; apply Hv]|]. split; [exact (Hv v eq_refl)|done]. }
  unfold publishRuntimeStatusLocked. destruct (decide _); cbn [fst snd];
    (split; [split; [done|by intros v [= <-]]|done]).
Qed.

Lemma wrap_uint64_range z : (0 <= wrap_uint64 z < 2 ^ 64)%Z.
Proof. apply Z.mod_pos_bound. lia. Qed.

(** A revision that was raised less than 2^64 times differs from the old one. *)
Lemma wrap_uint64_moved a b : (0 <= a < 2 ^ 64)%Z → (0 < b < 2 ^ 64)%Z → wrap_uint64 (a + b) ≠ a.
Proof.
  intros Ha Hb. unfold wrap_uint64. destruct (decide (a + b < 2 ^ 64)%Z).
  - rewrite Z.mod_small; lia.
  - rewrite <-(Z.mod_add _ (-1)) by lia. rewrite Z.mod_small; lia.
Qed.

Lemma moves_revision s s' :
  revision_ok s → moves s s' →
  revision_ok s' ∧ (runtimeRevision s' = runtimeRevision s ∨ runtimeRevision s' = wrap_uint64 (runtimeRevision s + 1)).
Proof.
  intros Hr Hm. destruct (statusLocked_revision s Hr) as ([Hr1 Hv1] & Hst & Heq).
  destruct Hm as [s|s s' Hu Hview Hinst|s|plan x after u s s' st Hx Hu Hp].
  - split; [done|by left].
  - rewrite (up_revision _ _ Hu). split; [|by left]. split; [by rewrite (up_revision _ _ Hu)|].
    intros v. rewrite Hview, (up_revision _ _ Hu). apply Hv1.
  - split; [|by right]. split; [apply wrap_uint64_range|by intros v [= <-]].
  - rewrite (pb_revision _ _ _ _ _ _ Hp), Heq. split; [|by right].
    split; [rewrite (pb_revision _ _ _ _ _ _ Hp); apply wrap_uint64_range|].
    rewrite (pb_view _ _ _ _ _ _ Hp). by intros v [= <-].
Qed.

Lemma bstep_revision s s' :
  revision_ok s → bstep s s' →
  revision_ok s' ∧ (runtimeRevision s' = runtimeRevision s ∨ runtimeRevision s' = wrap_uint64 (runtimeRevision s + 1)).
Proof. intros Hr [?|[w ->]]%bstep_moves; [by apply moves_revision|]. split; [done|by left]. Qed.

(** A run with the number of times the revision moved. *)
Inductive bsteps : nat → Box → Box → Prop :=
| bsteps_refl s : bsteps 0 s s
| bsteps_step n s s1 s2 : bsteps n s s1 → bstep s1 s2 →
    bsteps (if decide (runtimeRevision s2 = runtimeRevision s1) then n else S n) s s2.

Lemma bsteps_revision n s s' :
  revision_ok s → bsteps n s s' →
  revision_ok s' ∧ runtimeRevision s' = wrap_uint64 (runtimeRevision s + Z.of_nat n).
Proof.
  intros Hr Hs. induction Hs as [s|n s s1 s2 Hs IH Hb].
  - split; [done|]. unfold wrap_uint64. rewrite Z.add_0_r, Z.mod_small; [done|]. apply Hr.
  - destruct (IH Hr) as [Hr1 Heq]. destruct (bstep_revision _ _ Hr1 Hb) as [Hr2 Hcase]. split; [done|].
    destruct (decide _) as [Hsame|Hne]; [by rewrite Hsame|]. destruct Hcase as [?|Hw]; [done|].
    rewrite Hw, Heq. unfold wrap_uint64. rewrite Zplus_mod_idemp_l. f_equal. lia.
Qed.

(** A late request can not change the configuration.  Once the revision
    has moved on, by an update or by a fence, a request that still carries the
    old revision publishes nothing: it is a conflict, or it asks for the
    content that is running already, or it fails for another reason; and only
    the cached status may differ afterwards.  This holds until the 64-bit
    revision has been raised so often that it comes around. *)
Lemma late_update_is_fenced n s s' updated inst s2 st err :
  revision_ok s → bsteps n s s' → 0 < n → (Z.of_nat n < 2 ^ 64)%Z →
  reload updated (Some (runtimeRevision s)) inst s' = (s2, st, err) →
  same_but_view s' s2 ∧ st = (status_of s').2 ∧
  match err with
  | None => ∃ after, configObject marshal updated = Ok after ∧ Fingerprint (JObj after) = ContentHash st
  | Some e => True
  end.
Proof.
  intros Hr Hs Hn Hmax Hre. destruct (bsteps_revision _ _ _ Hr Hs) as [Hr' Heq].
  assert (runtimeRevision s' ≠ runtimeRevision s) as Hne.
  { rewrite Heq. apply wrap_uint64_moved; [apply Hr|lia]. }
  destruct (statusLocked_revision s' Hr') as (_ & Hst & _). revert Hre. unfold reloadUsersLocked.
  pose proof (statusLocked_frame s') as Hf. destruct (status_of s') as [s1 status]. cbn [fst snd] in *.
  destruct (closed s1); [by intros [= <- <- <-]|]. destruct (decide _); [by intros [= <- <- <-]|].
  destruct (configObject marshal updated) as [after|]; [|by intros [= <- <- <-]].
  destruct (decide _); [intros [= <- <- <-]; eauto|].
  rewrite bool_decide_true; [by intros [= <- <- <-]|]. split; [eauto|]. rewrite Hst. congruence.
Qed.
End props.
