(* ===== verification/BoxReloadRun.v ===== *)
(** * A run of the reload of users

    The instance of [user_reload_test.go]: one VLESS inbound whose user [old]
    has an open session.  The configuration is carried as the decoded object
    and read off it, so decoding and encoding are concrete functions here.
    The requests are an update that adds a user with an outbound of its own, a
    refused one, a fence, and an update that arrives after the fence. *)
From S2P Require Import Prelude Json UserState UserStateInv UserStateProps HotRules Registry OutboundManager OutboundProps.
From S2P Require Import UserPlan UserPlanStable InboundUsers InboundUsersProps BoxReload BoxReloadSpec BoxReloadProps.

(** ** Normalising twice is normalising once *)

Lemma rename_absent upper lower user : user !! upper = None → rename upper lower user = user.
Proof. unfold rename. by intros ->. Qed.

Lemma rename_lookup upper lower user : upper ≠ lower → rename upper lower user !! upper = None.
Proof.
  intros Hne. unfold rename. destruct (user !! upper) eqn:Hu; [by rewrite lookup_delete_eq|done].
Qed.

Lemma rename_lookup_ne upper lower user k :
  k ≠ lower → user !! k = None → rename upper lower user !! k = None.
Proof.
  intros Hk Hu. unfold rename. destruct (user !! upper) as [v|] eqn:Hup; [|done].
  rewrite lookup_delete_ne by congruence. by rewrite lookup_insert_ne.
Qed.

Lemma normalize_user_idemp v : normalize_user (normalize_user v) = normalize_user v.
Proof.
  destruct v as [| | | | |user]; try done. unfold normalize_user. f_equal.
  rewrite (rename_absent "Username"), (rename_absent "Password"); [done|..].
  - by apply rename_lookup.
  - apply rename_lookup_ne; [done|]. by apply rename_lookup.
Qed.

Lemma map_rows_idemp f key o : (∀ v, f (f v) = f v) → map_rows f key (map_rows f key o) = map_rows f key o.
Proof.
  intros Hf. unfold map_rows. destruct (o !! key) as [[| | | |l|]|] eqn:Ho; try (by rewrite Ho).
  rewrite lookup_insert_eq. rewrite insert_insert_eq. do 2 f_equal. rewrite <-list_fmap_compose.
  apply list_fmap_ext. intros ? v _. apply Hf.
Qed.

Lemma normalize_inbound_idemp v : normalize_inbound (normalize_inbound v) = normalize_inbound v.
Proof.
  destruct v as [| | | | |o]; try done. unfold normalize_inbound at 2 3. destruct (decide _) as [Hs|Hn].
  - unfold normalize_inbound. rewrite decide_True.
    + by rewrite (map_rows_idemp _ _ _ normalize_user_idemp).
    + rewrite <-Hs. unfold map_rows, field. destruct (o !! "users") as [[]|]; try done.
      by rewrite lookup_insert_ne.
  - unfold normalize_inbound. by rewrite decide_False.
Qed.

(** ** The instance *)

Module BoxRun.
#[export] Existing Instance PlanRun.env.
#[export] Instance run_env : InboundEnv := InboundRun.env PlanRun.env.

Definition Opts : Type := @Options json object unit object.
Definition Instance_ : Type := @Box _ json object unit object.

Definition text (o : object) (k : string) : string := match field o k with JStr s => s | _ => "" end.
Definition objects (o : object) (k : string) : list object :=
  match o !! k with Some (JArr l) => omap as_object l | _ => [] end.
Definition decode_inbound (o : object) : string * InboundOptions :=
  (text o "tag",
   if decide (text o "type" = "vless")
   then VLESSOptions ((λ u, mkVLESSUser (text u "name") (text u "uuid") (text u "flow")) <$> objects o "users")
   else OtherOptions).
Definition decode (o : object) : result Opts :=
  Ok (mkOptions (decode_inbound <$> objects o "inbounds")
        ((λ out, mkOutboundOption (text out "type") (text out "tag") out) <$> objects o "outbounds")
        [] (Some (mkRoute (JObj <$> objects (default ∅ (as_object (field o "route"))) "rules") ())) o).
Definition marshal (u : Opts) : result object := Ok (options_rest u).
Definition options (o : object) : Opts := match decode o with Ok u => u | Err _ => mkOptions [] [] [] None ∅ end.

Definition create (tag type : string) (o : object) : result Adapter :=
  Ok (mkAdapter (String.length tag) type tag [] Lifecycle true).
Definition accept (_ : json) : option error := None.

(** The world after the inbound was created with the user [old]. *)
Definition old_user : VLESSUser := mkVLESSUser "old" "a" "".
Definition prepared := vless_prepareUsers 0 false [old_user] None InboundRun.w0.
Definition service : option vlessService :=
  match prepared.2 with Ok (_, VLESSInbound _ _ s) => s | _ => None end.
Definition fps : gmap string string := {[ "old" := "a" ]}.
Definition wp := Prepare 0 (mkTable 0 ∅) fps ∅ InboundRun.w0.
Definition w1 : World := (Commit 0 (publish_all [wp.2]) wp.1.1).1.
Definition opened := NewSession 0 5 [] w1.
Definition token : nat := default 0 (wp.1.2 !! "old").
Definition w2 : World := (Bind opened.1.2 (Some token) opened.1.1).1.

Definition outbounds0 : OManager := (Create OutRun.quiet create "direct" "direct" ∅ (NewOManager "direct")).1.
Definition box0 : Instance_ :=
  mkBox w2 0 (rc_router (initial [1; 2])) outbounds0 {[ "vless" := VLESSInbound 0 false service ]}
        (options PlanRun.original) 1 "" None false.

Definition reload := reloadUsersLocked OutRun.endpoints OutRun.quiet create accept accept marshal decode "instance".

(** The accepted update, a refused one, a fence and the late update. *)
Definition accepted := reload (options PlanRun.appended) None "" box0.
Definition refused := reload (options (PlanRun.config [PlanRun.user "old" "a"] [PlanRun.direct]
  [PlanRun.route_to "old" "missing"; PlanRun.reject])) None "" box0.
Definition fenced := FenceUserRuntime marshal "instance" 1 "instance" box0.
Definition late := reload (options PlanRun.appended) (Some 1%Z) "instance" fenced.1.1.

Lemma w1_inv : Inv w1 [] [] ∧ is_Some (managers w1 !! 0).
Proof.
  assert (Inv wp.1.1 [] [wp.2]) as HI.
  { apply (Prepare_inv 0 (mkTable 0 ∅) fps ∅ InboundRun.w0 [] []); [apply InboundRun.w0_inv|done|].
    by intros ?%not_elem_of_nil. }
  split; [|apply (bool_decide_unpack _); vm_compute; exact I].
  destruct (managers wp.1.1 !! 0) as [mg|] eqn:Hm; [|vm_compute in Hm; discriminate].
  apply (Commit_inv 0 mg [wp.2] wp.1.1 HI Hm).
  intros p tb ->%list_elem_of_singleton Htb. vm_compute in Htb. by injection Htb as <-.
Qed.

Lemma box0_inv : box_inv box0.
Proof.
  destruct w1_inv as [HI Hm]. split; cbn [world userState inbound box0].
  - apply Bind_inv. by apply NewSession_inv.
  - apply (bool_decide_unpack _). vm_compute. exact I.
  - intros tag h t [_ <-]%lookup_singleton_Some [= <-]. vm_compute. reflexivity.
  - by intros tag tag' h h' t [<- _]%lookup_singleton_Some [<- _]%lookup_singleton_Some.
  - done.
Qed.

Definition no_error {A} (r : A * option error) : bool := bool_decide (r.2 = None).

Lemma accepted_run : no_error accepted = true.
Proof. vm_compute. reflexivity. Qed.
Lemma refused_run : no_error refused = false.
Proof. vm_compute. reflexivity. Qed.
Lemma fenced_run : no_error fenced = true.
Proof. vm_compute. reflexivity. Qed.
End BoxRun.
Import BoxRun.

(** The session of [old]. *)
Lemma old_bound : open_bound (world box0) opened.2 0 token.
Proof.
  destruct (Bind_fresh_session 0 5 [] w1 token "old") as [_ Ho]; [vm_compute; reflexivity|exact Ho].
Qed.

Lemma config_original : configObject marshal (options PlanRun.original) = Ok PlanRun.original.
Proof. vm_compute. reflexivity. Qed.
Lemma config_appended : configObject marshal (options PlanRun.appended) = Ok PlanRun.appended.
Proof. vm_compute. reflexivity. Qed.

Lemma refused_update_publishes_nothing_witness :
  unpublished box0 refused.1.1 ∧ runtimeRevision refused.1.1 = 1%Z.
Proof.
  pose proof refused_run as Hr. destruct refused as [[s st] [e|]] eqn:Heq; [|discriminate Hr].
  destruct (refused_update_publishes_nothing _ _ _ _ _ _ _ _ _ _ _ _ _ _ _ Heq) as [Hu _].
  split; [exact Hu|]. cbn [fst]. by rewrite (up_revision _ _ Hu).
Defined.

Lemma accepted_update_closes_exactly_witness :
  open_bound (world accepted.1.1) opened.2 0 token ∧ runtimeRevision accepted.1.1 = 2%Z.
Proof.
  assert (runtimeRevision accepted.1.1 = 2%Z) as Hrev by (vm_compute; reflexivity).
  pose proof accepted_run as Hr. pose proof old_bound as Ho.
  destruct accepted as [[s st] [e|]] eqn:Heq; [discriminate Hr|]. cbn [fst] in *. split; [|exact Hrev].
  destruct (accepted_update_closes_exactly _ _ _ _ _ _ _ _ _ _ _ _ _ _ box0_inv Heq)
    as [(after & _ & _ & Hsame & _)|(before & after & plan & u & Hb & Ha & _ & Hpl & Hu & _ & _ & _ & _ & _ & Hiff & _)];
    [by rewrite Hsame|].
  change (configObject marshal (options PlanRun.original) = Ok before) in Hb. rewrite config_original in Hb.
  change (configObject marshal (options PlanRun.appended) = Ok after) in Ha. rewrite config_appended in Ha.
  injection Hb as <-. injection Ha as <-. pose proof (eq_trans (eq_sym PlanRun.plan_run) Hpl) as [= <-].
  apply (Hiff opened.2 "vless" "old" (VLESSInbound 0 false service) (mkEntry "a" token) Ho).
  - exists 0, (mkTable 0 {["old" := mkEntry "a" token]}). split; [done|]. split; [done|].
    split; vm_compute; reflexivity.
  - intros j raw ->%list_elem_of_singleton Hraw. exists {["old" := "a"; "new" := "b"]}.
    assert (unmarshal decode PlanRun.appended = Ok (options PlanRun.appended)) as Hu' by (vm_compute; reflexivity).
    rewrite Hu' in Hu. injection Hu as <-. vm_compute in Hraw. injection Hraw as <-.
    split; [vm_compute; reflexivity|]. split; [vm_compute; reflexivity|]. apply (bool_decide_unpack _). vm_compute. exact I.
Defined.

Lemma status_tells_truth_witness :
  let st := (UserRuntimeStatus marshal "instance" accepted.1.1).2 in
  Revision st = runtimeRevision accepted.1.1 ∧ ContentHash st = PlanRun.encode (JObj PlanRun.appended) ∧
  hash_of_running marshal decode box0 accepted.1.1 (ContentHash st).
Proof.
  assert (ContentHash (UserRuntimeStatus marshal "instance" accepted.1.1).2 = PlanRun.encode (JObj PlanRun.appended))
    as Hhash by (vm_compute; reflexivity).
  pose proof accepted_run as Hr. destruct accepted as [[s st] [e|]] eqn:Heq; [discriminate Hr|]. cbn [fst] in *.
  destruct (status_tells_truth OutRun.endpoints OutRun.quiet create accept accept () marshal decode "instance"
    box0 s eq_refl) as (h & Hh & Hst).
  - eapply star_step, star_refl. eapply bs_reload. exact Heq.
  - cbv zeta. split; [by rewrite Hst|]. split; [exact Hhash|]. rewrite Hst. exact Hh.
Defined.

Lemma late_update_is_fenced_witness : same_but_view fenced.1.1 late.1.1.
Proof.
  pose proof fenced_run as Hr.
  assert (runtimeRevision fenced.1.1 = 2%Z) as Hrev by (vm_compute; reflexivity).
  unfold late. destruct fenced as [[s st] err] eqn:Heq. cbn [fst] in *.
  destruct (reload (options PlanRun.appended) (Some 1%Z) "instance" s) as [[s2 st2] err2] eqn:Hlate.
  assert (revision_ok box0) as Hok by (split; [done|intros v [=]]).
  eapply (late_update_is_fenced OutRun.endpoints OutRun.quiet create accept accept () marshal decode "instance"
    1 box0 s (options PlanRun.appended) "instance" s2 st2 err2 Hok); [|lia|lia|exact Hlate].
  pose proof (bsteps_step OutRun.endpoints OutRun.quiet create accept accept () marshal decode "instance"
    0 box0 box0 s (bsteps_refl _ _ _ _ _ _ _ _ _ box0)) as Hstep.
  rewrite decide_False in Hstep by (by rewrite Hrev). apply Hstep. eapply bs_fence. exact Heq.
Defined.
