(* ===== verification/Management.v ===== *)
(** * The management interface

    Model of cmd/sing-box/cmd_user_management.go: the handlers behind the
    private socket, with the status codes and error categories they answer,
    and the admission of at most one heavy request at a time.  The text of a
    request is decoded by the JSON libraries, whose result is a parameter: the
    decoded request or an error, and whether the decoder is then at the end of
    the body. *)
From S2P Require Import Prelude Json UserState Traffic HotRules Registry OutboundManager UserPlan InboundUsers BoxReload.

(** The decoded requests; an absent raw field is the empty text. *)
Record PreviewRequest := mkPreviewRequest { pr_Config : string }.
Record FenceRequest := mkFenceRequest { fr_Instance : string; fr_Revision : option Z }.
Record UpdateRequest := mkUpdateRequest {
  ur_ExpectedInstanceID : string;
  ur_ExpectedRevision : option Z;
  ur_Config : string;
}.
Record RoutesRequest := mkRoutesRequest {
  rr_ExpectedInstanceID : string;
  rr_ExpectedRevision : option Z;
  rr_Rules : string;
  rr_Outbounds : string;
}.

(** ** Responses *)

Inductive Content :=
| CStatus (runtime : RuntimeStatus)
| CCounters (instanceId : string) (users : list TrafficSnapshot)
| CPreview (runtime : RuntimeStatus) (contentHash : string) (supported : bool)
| CError (category : string)
| CRuntimeError (category : string) (runtime : RuntimeStatus)
| CNothing.

Record Response := mkResponse { code : Z; retryAfter : bool; content : Content }.

(** [write]. *)
Definition write (status : Z) (value : Content) : option Response := Some (mkResponse status false value).

(** ** The routes of the mux *)

Inductive Handler := HStatus | HCounters | HPreview | HFence | HConfiguration | HRoutes.

#[export] Instance Handler_eq_dec : EqDecision Handler.
Proof. solve_decision. Defined.

Definition patterns : list (string * string * Handler) :=
  [("GET", "/management/v1/status", HStatus);
   ("GET", "/management/v1/counters", HCounters);
   ("POST", "/management/v1/preview", HPreview);
   ("POST", "/management/v1/fence", HFence);
   ("PUT", "/management/v1/users", HConfiguration);
   ("PUT", "/management/v1/configuration", HConfiguration);
   ("PUT", "/management/v1/routes", HRoutes)].

(** [http.ServeMux]: a GET pattern serves HEAD too; a known path with another
    method is 405, an unknown path 404. *)
Definition serves (method : string) (p : string * string * Handler) : bool :=
  bool_decide (p.1.1 = method) || (bool_decide (p.1.1 = "GET") && bool_decide (method = "HEAD")).
Definition dispatch (method path : string) : Handler + Z :=
  match filter (λ p, p.1.2 = path) patterns with
  | [] => inr 404%Z
  | ps => match list_find (λ p, serves method p = true) ps with
          | Some (_, p) => inl p.2
          | None => inr 405%Z
          end
  end.

(** The handlers wrapped by [guarded]. *)
Definition guarded (h : Handler) : bool :=
  match h with HPreview | HConfiguration | HRoutes => true | HStatus | HCounters | HFence => false end.

Section management.
Context `{InboundEnv}.
Context {RuleOption OutOptions E RouteRest Rest : Type} `{EndpointManager E} (endpoint : E).
Context (answer : nat → method → option error) (create : string → string → OutOptions → result Adapter).
Context (NewRule StartRule : RuleOption → option error) (route_zero : RouteRest).
Notation Options := (@Options RuleOption OutOptions RouteRest Rest).
Notation Box := (@Box _ RuleOption OutOptions RouteRest Rest).
Context (marshal : Options → result object) (decode : object → result Options) (instanceID : string).

(** The decoder over a body limited to some bytes, the options decoder over a
    text, and the text [json.Marshal] makes of the raw rules and outbounds. *)
Context {Body : Type}.
Context (decode_preview : Z → Body → result PreviewRequest * bool).
Context (decode_fence : Z → Body → result FenceRequest * bool).
Context (decode_update : Z → Body → result UpdateRequest * bool).
Context (decode_routes : Z → Body → result RoutesRequest * bool).
Context (unmarshal_text : string → result Options) (marshal_routes : string → string → string).

Definition body_limit : Z := Z.shiftl 8 20.

(** ** Handlers *)

(** No response is a panic, which [net/http] recovers: the connection is closed
    and the instance goes on with the state it has at that point. *)
Definition handle_status (s : Box) : Box * option Response :=
  let '(s, status) := UserRuntimeStatus marshal instanceID s in (s, write 200 (CStatus status)).

(** With [Box.UserTrafficCounters]. *)
Definition handle_counters (s : Box) : Box * option Response :=
  let '(s, status) := UserRuntimeStatus marshal instanceID s in
  (s, write 200 (CCounters (InstanceID status) (Counters (userState s) (world s)))).

Definition handle_preview (body : Body) (s : Box) : Box * option Response :=
  match decode_preview body_limit body with
  | (Err _, _) => (s, write 400 (CError "config_required"))
  | (Ok request, eof) =>
      if decide (pr_Config request = "") then (s, write 400 (CError "config_required"))
      else if negb eof then (s, write 400 (CError "invalid_request"))
      else
        match unmarshal_text (pr_Config request) with
        | Err _ => (s, write 400 (CError "invalid_configuration"))
        | Ok options =>
            match PreviewUserUpdate marshal instanceID options s with
            | (s, _, Err err) => (s, match panic_of err with Some _ => None | None => write 422 (CError "preview_rejected") end)
            | (s, status, Ok (hash, supported)) => (s, write 200 (CPreview status hash supported))
            end
        end
  end.

Definition handle_fence (body : Body) (s : Box) : Box * option Response :=
  match decode_fence 4096 body with
  | (Err _, _) => (s, write 400 (CError "runtime_fence_required"))
  | (Ok request, eof) =>
      match fr_Revision request with
      | None => (s, write 400 (CError "runtime_fence_required"))
      | Some revision =>
          if decide (fr_Instance request = "") then (s, write 400 (CError "runtime_fence_required"))
          else if negb eof then (s, write 400 (CError "invalid_request"))
          else
            match FenceUserRuntime marshal instanceID revision (fr_Instance request) s with
            | (s, status, Some _) => (s, write 409 (CRuntimeError "runtime_revision_conflict" status))
            | (s, status, None) => (s, write 200 (CStatus status))
            end
      end
  end.

Definition missing_update : string := "expectedInstanceId, expectedRevision and config are required".
Definition handle_configuration (body : Body) (s : Box) : Box * option Response :=
  match decode_update body_limit body with
  | (Err _, _) => (s, write 400 (CError missing_update))
  | (Ok request, eof) =>
      if bool_decide (ur_ExpectedRevision request = None) || bool_decide (ur_ExpectedInstanceID request = "")
         || bool_decide (ur_Config request = "")
      then (s, write 400 (CError missing_update))
      else if negb eof then (s, write 400 (CError "request must contain one JSON object"))
      else
        match unmarshal_text (ur_Config request) with
        | Err _ => (s, write 400 (CError "invalid sing-box configuration"))
        | Ok options =>
            match ReloadUsers endpoint answer create NewRule StartRule marshal decode instanceID
                    options (ur_ExpectedRevision request) (ur_ExpectedInstanceID request) s with
            | (s, status, Some err) =>
                let category := if decide (err = ErrUnsupportedUserUpdate) then "unsupported_topology_change"
                                else "invalid_user_update" in
                let '(code, category) := if decide (err = ErrRuntimeConflict)
                                         then (409%Z, "runtime_revision_conflict") else (422%Z, category) in
                (s, match panic_of err with Some _ => None | None => write code (CRuntimeError category status) end)
            | (s, status, None) => (s, write 200 (CStatus status))
            end
        end
  end.

Definition missing_routes : string := "route_snapshot_and_fence_required".
Definition handle_routes (body : Body) (s : Box) : Box * option Response :=
  match decode_routes body_limit body with
  | (Err _, _) => (s, write 400 (CError missing_routes))
  | (Ok request, eof) =>
      if bool_decide (rr_ExpectedInstanceID request = "") || bool_decide (rr_ExpectedRevision request = None)
         || bool_decide (rr_Rules request = "") || bool_decide (rr_Outbounds request = "")
      then (s, write 400 (CError missing_routes))
      else if negb eof then (s, write 400 (CError "invalid_request"))
      else
        match unmarshal_text (marshal_routes (rr_Rules request) (rr_Outbounds request)) with
        | Err _ => (s, write 400 (CError "invalid_route_snapshot"))
        | Ok options =>
            match Route options with
            | None => (s, None)
            | Some route =>
                match ReloadUserRoutes endpoint answer create NewRule StartRule route_zero marshal decode instanceID
                        (Rules route) (Outbounds options) (rr_ExpectedRevision request)
                        (rr_ExpectedInstanceID request) s with
                | (s, status, Some err) =>
                    let '(code, category) := if decide (err = ErrRuntimeConflict)
                                             then (409%Z, "runtime_revision_conflict")
                                             else (422%Z, "unsupported_route_update") in
                    (s, match panic_of err with Some _ => None | None => write code (CRuntimeError category status) end)
                | (s, status, None) => (s, write 200 (CStatus status))
                end
            end
        end
  end.

Definition handle (h : Handler) (body : Body) (s : Box) : Box * option Response :=
  match h with
  | HStatus => handle_status s
  | HCounters => handle_counters s
  | HPreview => handle_preview body s
  | HFence => handle_fence body s
  | HConfiguration => handle_configuration body s
  | HRoutes => handle_routes body s
  end.

(** ** The server *)

(** A request, and whether its client is gone by the time it is admitted. *)
Record Request := mkRequest { rq_method : string; rq_path : string; cancelled : bool; rq_body : Body }.

(** The instance and the one slot of the channel [heavy], with its holder. *)
Record Server := mkServer { instance : Box; heavy : option (Request * Handler) }.

Definition busy : Response := mkResponse 429 true (CError "runtime_busy").

(** A request arrives: it is answered at once, or it takes the slot. *)
Definition arrive (r : Request) (sv : Server) : Server * option (option Response) :=
  match dispatch (rq_method r) (rq_path r) with
  | inr code => (sv, Some (write code CNothing))
  | inl h =>
      if guarded h
      then match heavy sv with
           | Some _ => (sv, Some (Some busy))
           | None => (mkServer (instance sv) (Some (r, h)), None)
           end
      else let '(s, response) := handle h (rq_body r) (instance sv) in (mkServer s (heavy sv), Some response)
  end.

(** The holder of the slot runs and gives it back, also when it panics.  A
    cancelled request is not looked at. *)
Definition finish (sv : Server) : Server * option (option Response) :=
  match heavy sv with
  | None => (sv, None)
  | Some (r, h) =>
      if cancelled r then (mkServer (instance sv) None, Some (write 200 CNothing))
      else let '(s, response) := handle h (rq_body r) (instance sv) in (mkServer s None, Some response)
  end.
End management.
