(* ===== verification/ManagementProps.v ===== *)
(** * What the management interface promises

    A request changes the instance only if it carries the identifier and the
    revision the instance has at that moment; its client is then told the new
    revision.  Every other request, whatever it is answered, publishes
    nothing, and of the requests that carry one revision at most one wins. *)
From S2P Require Import Prelude UserState UserStateInv UserStateProps Traffic HotRules Registry OutboundManager OutboundProps Json UserPlan UserPlanStable InboundUsers BoxReload BoxReloadSpec BoxReloadProps BoxReloadRun Management.

Section props.
Context `{InboundEnv}.
Context {RuleOption OutOptions E RouteRest Rest : Type} `{EndpointManager E} (endpoint : E).
Context (answer : nat → method → option error) (create : string → string → OutOptions → result Adapter).
Context (NewRule StartRule : RuleOption → option error) (route_zero : RouteRest).
Notation Options := (@Options RuleOption OutOptions RouteRest Rest).
Notation Box := (@Box _ RuleOption OutOptions RouteRest Rest).
Context (marshal : Options → result object) (decode : object → result Options) (instanceID : string).
Context {Body : Type}.
Context (decode_preview : Z → Body → result PreviewRequest * bool).
Context (decode_fence : Z → Body → result FenceRequest * bool).
Context (decode_update : Z → Body → result UpdateRequest * bool).
Context (decode_routes : Z → Body → result RoutesRequest * bool).
Context (unmarshal_text : string → result Options) (marshal_routes : string → string → string).

Notation status_of := (statusLocked marshal instanceID).
Notation reload := (reloadUsersLocked endpoint answer create NewRule StartRule marshal decode instanceID).
Notation routes := (ReloadUserRoutes endpoint answer create NewRule StartRule route_zero marshal decode instanceID).
Notation handle := (handle endpoint answer create NewRule StartRule route_zero marshal decode instanceID
  decode_preview decode_fence decode_update decode_routes unmarshal_text marshal_routes).
Notation arrive := (arrive endpoint answer create NewRule StartRule route_zero marshal decode instanceID
  decode_preview decode_fence decode_update decode_routes unmarshal_text marshal_routes).
Notation finish := (finish endpoint answer create NewRule StartRule route_zero marshal decode instanceID
  decode_preview decode_fence decode_update decode_routes unmarshal_text marshal_routes).

(** ** Requests *)

(** The instance and the revision a request carries. *)
Definition fence_of (h : Handler) (body : Body) : option (string * Z) :=
  match h with
  | HFence => match (decode_fence 4096 body).1 with
              | Ok r => pair (fr_Instance r) <$> fr_Revision r | Err _ => None end
  | HConfiguration => match (decode_update body_limit body).1 with
                      | Ok r => pair (ur_ExpectedInstanceID r) <$> ur_ExpectedRevision r | Err _ => None end
  | HRoutes => match (decode_routes body_limit body).1 with
               | Ok r => pair (rr_ExpectedInstanceID r) <$> rr_ExpectedRevision r | Err _ => None end
  | _ => None
  end.

(** The configuration a request asks for. *)
Definition asks_for (h : Handler) (body : Body) (s : Box) (x : Options) : Prop :=
  match h with
  | HConfiguration => ∃ r, (decode_update body_limit body).1 = Ok r ∧ unmarshal_text (ur_Config r) = Ok x
  | HRoutes => ∃ r options route current, (decode_routes body_limit body).1 = Ok r ∧
      unmarshal_text (marshal_routes (rr_Rules r) (rr_Outbounds r)) = Ok options ∧ Route options = Some route ∧
      cloneRuntimeOptions marshal decode (reloadOptions s) = Ok current ∧
      Rules (default (mkRoute [] route_zero) (Route x)) = Rules route ∧ Outbounds x = Outbounds options ∧
      Inbounds x = Inbounds current ∧ EndpointTags x = EndpointTags current ∧ options_rest x = options_rest current
  | _ => False
  end.

(** A change of the instance by a request that carried the current revision:
    the fence raises the revision only, an update installs what was asked. *)
Record changed_by (h : Handler) (body : Body) (s s' : Box) (o : option Response) (st : RuntimeStatus) : Prop := {
  ch_fence : fence_of h body = Some (InstanceID (status_of s).2, Revision (status_of s).2);
  ch_answer : o = Some (mkResponse 200 false (CStatus st));
  ch_revision : runtimeRevision s' = wrap_uint64 (runtimeRevision s + 1);
  ch_status : InstanceID st = InstanceID (status_of s).2 ∧ Revision st = runtimeRevision s';
  ch_options :
    (h = HFence ∧ reloadOptions s' = reloadOptions s ∧ world s' = world s ∧ router s' = router s ∧
       outbound s' = outbound s ∧ inbound s' = inbound s) ∨
    ∃ x after, asks_for h body s x ∧ configObject marshal x = Ok after ∧
      unmarshal decode after = Ok (reloadOptions s') ∧ ContentHash st = Fingerprint (JObj after);
}.

(** ** Handlers *)

(** The cached status carries the identifier of the instance. *)
Definition instance_ok (s : Box) : Prop := ∀ v, runtimeView s = Some v → InstanceID v = runtimeInstance s.

Lemma statusLocked_instance s : instance_ok s → runtimeInstance (status_of s).1 = InstanceID (status_of s).2.
Proof.
  intros Hi. unfold statusLocked. destruct (runtimeView s) as [v|] eqn:Hv; [cbn; symmetry; by apply Hi|].
  unfold publishRuntimeStatusLocked. by destruct (decide _).
Qed.

(** A reload under a fence. *)
Lemma reload_fenced x rev inst s s' st err :
  instance_ok s → inst ≠ "" → reload x (Some rev) inst s = (s', st, err) →
  unpublished s s' ∨
  (err = None ∧ inst = InstanceID (status_of s).2 ∧ rev = Revision (status_of s).2 ∧
   runtimeRevision s' = wrap_uint64 (runtimeRevision s + 1) ∧
   InstanceID st = inst ∧ Revision st = runtimeRevision s' ∧
   ∃ after, configObject marshal x = Ok after ∧ unmarshal decode after = Ok (reloadOptions s') ∧
     ContentHash st = Fingerprint (JObj after)).
Proof.
  intros Hi Hne Hr. pose proof (statusLocked_frame marshal instanceID s) as Hf. destruct err as [e|]; [left; by eapply reload_refused|].
  apply reload_accepted in Hr as [(after & _ & _ & -> & _)|(before & after & plan & u & _ & Ha & _ & Hu & _ & Hrev & Hinst & Hp)].
  { left. by apply same_but_view_unpublished. }
  right. destruct Hinst as [?|Hinst]; [done|]. destruct Hp as [_ _ _ _ Ho Hv _ _ _ (Hs1 & Hs2 & Hs3)].
  split_and!; try done; [by apply Hrev|by rewrite Hv, Hf| |].
  - rewrite Hs1, Hinst. by apply statusLocked_instance.
  - exists after. by rewrite Ho.
Qed.

Lemma statusLocked_instance_ok s : instance_ok s → instance_ok (status_of s).1.
Proof.
  intros Hi. unfold statusLocked. destruct (runtimeView s) as [v|] eqn:Hv; [done|].
  unfold publishRuntimeStatusLocked. destruct (decide _); by intros v [= <-].
Qed.

Lemma fence_changes body s s' o :
  instance_ok s → handle HFence body s = (s', o) → unpublished s s' ∨ ∃ st, changed_by HFence body s s' o st.
Proof.
  intros Hi. cbn [Management.handle]. unfold handle_fence.
  pose proof (same_but_view_unpublished _ _ (same_but_view_refl s)) as Hself.
  destruct (decode_fence 4096 body) as [[r|e] eof] eqn:Hd; [|intros [= <- _]; by left].
  destruct (fr_Revision r) as [rev|] eqn:Hrev; [|intros [= <- _]; by left].
  destruct (decide _); [intros [= <- _]; by left|]. destruct (negb eof); [intros [= <- _]; by left|].
  unfold FenceUserRuntime. pose proof (statusLocked_frame marshal instanceID s) as Hf. pose proof (statusLocked_instance s Hi) as Hid.
  pose proof (changed_by HFence body s) as Hch.
  destruct (status_of s) as [s1 status] eqn:Hst. cbn [fst snd] in *.
  pose proof (same_but_view_unpublished _ _ Hf) as Hu.
  destruct (closed s1); [intros [= <- _]; by left|]. destruct (decide _) as [|Hok]; [intros [= <- _]; by left|].
  unfold publishRuntimeStatusLocked. intros [= <- <-]. right. eexists. split; [| |cbn; by rewrite Hf| |left].
  - cbn [fence_of]. rewrite Hd. cbn [fst]. rewrite Hrev, Hst. cbn. do 2 f_equal; apply dec_stable; tauto.
  - done.
  - cbn. rewrite Hst. cbn. done.
  - rewrite Hf. done.
Qed.

Lemma configuration_changes body s s' o :
  instance_ok s → handle HConfiguration body s = (s', o) →
  unpublished s s' ∨ ∃ st, changed_by HConfiguration body s s' o st.
Proof.
  intros Hi. cbn [Management.handle]. unfold handle_configuration, ReloadUsers.
  pose proof (same_but_view_unpublished _ _ (same_but_view_refl s)) as Hself.
  destruct (decode_update body_limit body) as [[r|e] eof] eqn:Hd; [|intros [= <- _]; by left].
  destruct (_ || _ || _) eqn:Hm; [intros [= <- _]; by left|]. destruct (negb eof); [intros [= <- _]; by left|].
  destruct (unmarshal_text _) as [x|] eqn:Hx; [|intros [= <- _]; by left].
  apply orb_false_iff in Hm as [[Hr Hinst]%orb_false_iff _]. rewrite bool_decide_eq_false in Hr, Hinst.
  destruct (ur_ExpectedRevision r) as [rev|] eqn:Hrev; [|done].
  destruct (reload x (Some rev) (ur_ExpectedInstanceID r) s) as [[s1 st] err] eqn:Hre.
  apply reload_fenced in Hre as [Hu|(-> & Hin & Hrv & Hw & Hs1 & Hs2 & after & Ha & Hu & Hc)]; [| |done..].
  { destruct err; repeat case_decide; intros [= <- _]; by left. }
  intros [= <- <-]. right. exists st. split; [|done|done|split; congruence|right].
  - cbn [fence_of]. rewrite Hd. cbn [fst]. rewrite Hrev. cbn. congruence.
  - exists x, after. split; [|done]. exists r. by rewrite Hd.
Qed.

Lemma routes_changes body s s' o :
  instance_ok s → handle HRoutes body s = (s', o) →
  unpublished s s' ∨ ∃ st, changed_by HRoutes body s s' o st.
Proof.
  intros Hi. cbn [Management.handle]. unfold handle_routes.
  pose proof (same_but_view_unpublished _ _ (same_but_view_refl s)) as Hself.
  destruct (decode_routes body_limit body) as [[r|e] eof] eqn:Hd; [|intros [= <- _]; by left].
  destruct (_ || _ || _ || _) eqn:Hm; [intros [= <- _]; by left|]. destruct (negb eof); [intros [= <- _]; by left|].
  destruct (unmarshal_text _) as [x|] eqn:Hx; [|intros [= <- _]; by left].
  destruct (Route x) as [route|] eqn:Hroute; [|intros [= <- _]; by left].
  apply orb_false_iff in Hm as [[[Hinst Hr]%orb_false_iff _]%orb_false_iff _]. rewrite bool_decide_eq_false in Hr, Hinst.
  destruct (rr_ExpectedRevision r) as [rev|] eqn:Hrev; [|done]. unfold ReloadUserRoutes.
  pose proof (statusLocked_frame marshal instanceID s) as Hf. pose proof (statusLocked_twice marshal instanceID s) as Htw.
  pose proof (statusLocked_instance_ok s Hi) as Hi1.
  destruct (status_of s) as [s1 status] eqn:Hst. cbn [fst] in *. pose proof (same_but_view_unpublished _ _ Hf) as Hu1.
  destruct (decide _) as [|Hok]; [repeat case_decide; intros [= <- _]; by left|].
  destruct (cloneRuntimeOptions _ _ _) as [cur|] eqn:Hcl; [|repeat case_decide; intros [= <- _]; by left].
  destruct (reload _ (Some rev) (rr_ExpectedInstanceID r) s1) as [[s2 st] err] eqn:Hre.
  apply reload_fenced in Hre as [Hu|(-> & Hin & Hrv & Hw & Hs1 & Hs2 & after & Ha & Hu & Hc)]; [| |done..].
  { assert (unpublished s s2) by by eapply unpublished_trans.
    destruct err; repeat case_decide; intros [= <- _]; by left. }
  rewrite Htw in Hin, Hrv. cbn [snd] in Hin, Hrv.
  intros [= <- <-]. right. exists st. split; [|done|rewrite Hw, Hf; done|rewrite Hst; cbn [snd]; split; congruence|right].
  - cbn [fence_of]. rewrite Hd, Hst. cbn [fst snd]. rewrite Hrev. cbn. congruence.
  - eexists _, after. split; [|split; [exact Ha|done]]. cbn [asks_for]. rewrite Hd.
    exists r, x, route, cur. split_and!; try done. by rewrite Hf in Hcl.
Qed.

(** A request changes the instance only under a fence that holds. *)
Lemma handle_changes h body s s' o :
  instance_ok s → handle h body s = (s', o) → unpublished s s' ∨ ∃ st, changed_by h body s s' o st.
Proof.
  intros Hi. destruct h.
  1,2: cbn [Management.handle]; unfold handle_status, handle_counters; pose proof (statusLocked_frame marshal instanceID s) as Hf;
    unfold UserRuntimeStatus, statusLocked in *; left; apply same_but_view_unpublished;
    destruct (runtimeView s); [by simplify_eq|]; destruct (publishRuntimeStatusLocked _ _); by simplify_eq.
  - pose proof (same_but_view_unpublished _ _ (same_but_view_refl s)) as Hself.
    cbn [Management.handle]. unfold handle_preview. left.
    destruct (decode_preview _ _) as [[r|e] eof]; [|by simplify_eq]. destruct (decide _); [by simplify_eq|].
    destruct (negb eof); [by simplify_eq|]. destruct (unmarshal_text _) as [x|]; [|by simplify_eq].
    destruct (PreviewUserUpdate _ _ _ _) as [[s1 st] res] eqn:Hp.
    assert (unpublished s s1) as Hu; [|destruct res as [[]|]; by simplify_eq].
    apply same_but_view_unpublished. unfold PreviewUserUpdate in Hp. pose proof (statusLocked_frame marshal instanceID s) as Hf.
    destruct (status_of s) as [s2 status]. cbn [fst] in *. destruct (configObject marshal x); [|by simplify_eq].
    destruct (decide _); [by simplify_eq|]. destruct (configObject marshal (reloadOptions s2)); [|by simplify_eq].
    destruct (planUserUpdate _ _); by simplify_eq.
  - by apply fence_changes.
  - by apply configuration_changes.
  - by apply routes_changes.
Qed.

(** ** The server *)

(** What connections do between requests: sessions are opened, bound to a user,
    given resources and closed, and traffic is counted. *)
Inductive activity : World → World → Prop :=
| act_new m conn transport w : activity w (NewSession m conn transport w).1.1
| act_bind ctx identity w : activity w (Bind ctx identity w).1
| act_attach ctx closer w : activity w (Attach ctx closer w).1
| act_close sid w : activity w (Session_Close sid w).1
| act_routed m inb user w : activity w (RoutedConnection m inb user w).1
| act_upload c n w : activity w (count_upload c n w)
| act_download c n w : activity w (count_download c n w).

(** It publishes no user: the tables and the identities stay. *)
Lemma activity_users w w' : activity w w' → tables w' = tables w ∧ identities w' = identities w.
Proof.
  intros [m conn tr w0|ctx io w0|ctx c w0|sid w0|m inb user w0|c n w0|c n w0]; [done|..].
  - split; [|apply Bind_identities]. unfold Bind. by repeat case_match.
  - unfold Attach. by repeat case_match.
  - split; [|apply Session_Close_identities]. unfold Session_Close. by repeat case_match.
  - unfold RoutedConnection, counter. by repeat case_match.
  - unfold count_upload. by repeat case_match.
  - unfold count_download. by repeat case_match.
Qed.

(** What a server does: answer a request at once, admit it, finish the
    admitted one; and sessions come and go.  The label is the request that is
    answered, with its handler and the answer. *)
Inductive mstep : Server → option (@Request Body * Handler * option Response) → Server → Prop :=
| ms_answer r h sv sv' o : dispatch (rq_method r) (rq_path r) = inl h → arrive r sv = (sv', Some o) →
    mstep sv (Some (r, h, o)) sv'
| ms_lost r c sv sv' o : dispatch (rq_method r) (rq_path r) = inr c → arrive r sv = (sv', o) → mstep sv None sv'
| ms_admit r sv sv' : arrive r sv = (sv', None) → mstep sv None sv'
| ms_finish r h sv sv' o : heavy sv = Some (r, h) → finish sv = (sv', Some o) → mstep sv (Some (r, h, o)) sv'
| ms_sessions w sv : activity (world (instance sv)) w →
    mstep sv None (mkServer (set_parts w (router (instance sv)) (outbound (instance sv)) (instance sv)) (heavy sv)).

(** What a step does to the instance [s].  A step that answers a request leaves
    everything that is published, and every session, or is a change under a
    fence; any other step is the activity of sessions. *)
Definition fenced_step (s s' : Box) (l : option (@Request Body * Handler * option Response)) : Prop :=
  match l with
  | None => s' = s ∨ ∃ w, activity (world s) w ∧ s' = set_parts w (router s) (outbound s) s
  | Some (r, h, o) => unpublished s s' ∨ ∃ st, changed_by h (rq_body r) s s' o st
  end.

Lemma mstep_changes sv l sv' :
  instance_ok (instance sv) → mstep sv l sv' → fenced_step (instance sv) (instance sv') l.
Proof.
  intros Hi Hm. pose proof (same_but_view_unpublished _ _ (same_but_view_refl (instance sv))) as Hst.
  destruct Hm as [r h sv sv' o Hd Ha|r c sv sv' o Hd Ha|r sv sv' Ha|r h sv sv' o Hh Hf|w sv Hact]; cbn [fenced_step].
  - unfold Management.arrive in Ha. rewrite Hd in Ha. destruct (guarded h).
    { left. destruct (heavy sv); by simplify_eq. }
    destruct (handle h (rq_body r) (instance sv)) as [s o'] eqn:He. simplify_eq. cbn [instance]. by apply handle_changes.
  - unfold Management.arrive in Ha. rewrite Hd in Ha. left. by simplify_eq.
  - left. unfold Management.arrive in Ha. destruct (dispatch _ _); [|by simplify_eq]. destruct (guarded h).
    { destruct (heavy sv); by simplify_eq. }
    destruct (handle _ _ _). by simplify_eq.
  - unfold Management.finish in Hf. rewrite Hh in Hf. destruct (cancelled r); [left; by simplify_eq|].
    destruct (handle h (rq_body r) (instance sv)) as [s o'] eqn:He. simplify_eq. cbn [instance]. by apply handle_changes.
  - right. by exists w.
Qed.

(** ** Runs *)

Notation bstep := (bstep endpoint answer create NewRule StartRule route_zero marshal decode instanceID).

Lemma handle_bstep h body s s' o : handle h body s = (s', o) → s' = s ∨ bstep s s'.
Proof.
  destruct h; cbn [Management.handle]; unfold handle_status, handle_counters, handle_preview, handle_fence,
    handle_configuration, handle_routes, ReloadUsers; intros Hh.
  1,2: right; destruct (UserRuntimeStatus marshal instanceID s) as [s1 st] eqn:Hu; simplify_eq; by eapply bs_status.
  - destruct (decode_preview _ _) as [[r|] eof]; [|left; by simplify_eq]. repeat (case_decide || case_match; [left; by simplify_eq|]).
    destruct (unmarshal_text _) as [x|]; [|left; by simplify_eq].
    destruct (PreviewUserUpdate _ _ _ _) as [[s1 st] res] eqn:Hp. right. eapply bs_preview.
    destruct res as [[]|]; simplify_eq; exact Hp.
  - destruct (decode_fence _ _) as [[r|] eof]; [|left; by simplify_eq].
    destruct (fr_Revision r) as [rev|]; [|left; by simplify_eq]. repeat (case_decide || case_match; [left; by simplify_eq|]).
    destruct (FenceUserRuntime _ _ _ _ _) as [[s1 st] err] eqn:Hf. right. eapply bs_fence.
    destruct err; simplify_eq; exact Hf.
  - destruct (decode_update _ _) as [[r|] eof]; [|left; by simplify_eq]. destruct (_ || _ || _); [left; by simplify_eq|].
    destruct (negb eof); [left; by simplify_eq|]. destruct (unmarshal_text _) as [x|]; [|left; by simplify_eq].
    destruct (reload x _ _ s) as [[s1 st] err] eqn:Hr. right. eapply bs_reload.
    destruct err; repeat case_decide; simplify_eq; exact Hr.
  - destruct (decode_routes _ _) as [[r|] eof]; [|left; by simplify_eq]. destruct (_ || _ || _ || _); [left; by simplify_eq|].
    destruct (negb eof); [left; by simplify_eq|]. destruct (unmarshal_text _) as [x|]; [|left; by simplify_eq].
    destruct (Route x) as [route|]; [|left; by simplify_eq].
    destruct (routes _ _ _ _ s) as [[s1 st] err] eqn:Hr. right. eapply bs_routes.
    destruct err; repeat case_decide; simplify_eq; exact Hr.
Qed.

Lemma mstep_bstep sv l sv' : mstep sv l sv' → instance sv' = instance sv ∨ bstep (instance sv) (instance sv').
Proof.
  assert (∀ r sv sv' o, arrive r sv = (sv', o) → instance sv' = instance sv ∨ bstep (instance sv) (instance sv')) as Harr.
  { intros r sv0 sv1 o. unfold Management.arrive. destruct (dispatch _ _) as [h|]; [|intros [= <- _]; by left].
    destruct (guarded h); [destruct (heavy sv0); intros [= <- _]; by left|].
    destruct (handle _ _ _) as [s o'] eqn:He. intros [= <- _]. by eapply handle_bstep. }
  intros [r h sv0 sv1 o _ Ha|r c sv0 sv1 o _ Ha|r sv0 sv1 Ha|r h sv0 sv1 o Hh Hf|w sv0 _]; [by eapply Harr..| |].
  - unfold Management.finish in Hf. rewrite Hh in Hf. destruct (cancelled r); [left; by simplify_eq|].
    destruct (handle _ _ _) as [s o'] eqn:He. simplify_eq. by eapply handle_bstep.
  - right. apply bs_sessions.
Qed.

Lemma moves_instance s s' :
  instance_ok s → moves endpoint answer create NewRule StartRule marshal decode instanceID s s' → instance_ok s'.
Proof.
  intros Hi Hm. pose proof (statusLocked_instance_ok s Hi) as Hi1. destruct Hm as [s|s s' _ Hv He|s|plan x after u s s' st _ _ Hp].
  - done.
  - intros v. rewrite Hv, He. apply Hi1.
  - by intros v [= <-].
  - intros v. rewrite (pb_view _ _ _ _ _ _ _ _ _ _ _ Hp), (pb_instance _ _ _ _ _ _ _ _ _ _ _ Hp). by intros [= <-].
Qed.

(** The state of a server between requests. *)
Definition server_ok (sv : @Server _ RuleOption OutOptions RouteRest Rest Body) : Prop :=
  revision_ok (instance sv) ∧ instance_ok (instance sv).

Lemma mstep_ok sv l sv' :
  server_ok sv → mstep sv l sv' →
  server_ok sv' ∧ (runtimeRevision (instance sv') = runtimeRevision (instance sv) ∨
                   runtimeRevision (instance sv') = wrap_uint64 (runtimeRevision (instance sv) + 1)).
Proof.
  intros [Hr Hi] [Heq|Hb]%mstep_bstep; [unfold server_ok; rewrite Heq; split; [done|by left]|].
  destruct (bstep_revision _ _ _ _ _ _ _ _ _ _ _ Hr Hb) as [Hr' Hc]. split; [split; [done|]|done].
  apply bstep_moves in Hb as [Hm|[w ->]]; [by eapply moves_instance|done].
Qed.

(** A run, with the number of times the revision moved. *)
Inductive msteps : nat → Server → Server → Prop :=
| msteps_refl sv : msteps 0 sv sv
| msteps_step n sv sv1 l sv2 : msteps n sv sv1 → mstep sv1 l sv2 →
    msteps (if decide (runtimeRevision (instance sv2) = runtimeRevision (instance sv1)) then n else S n) sv sv2.

Lemma msteps_ok n sv sv' :
  server_ok sv → msteps n sv sv' →
  server_ok sv' ∧ runtimeRevision (instance sv') = wrap_uint64 (runtimeRevision (instance sv) + Z.of_nat n).
Proof.
  intros Hok Hs. induction Hs as [sv|n sv sv1 l sv2 Hs IH Hm].
  - split; [done|]. unfold wrap_uint64. rewrite Z.add_0_r, Z.mod_small; [done|]. apply Hok.
  - destruct (IH Hok) as [Hok1 Heq]. destruct (mstep_ok _ _ _ Hok1 Hm) as [Hok2 Hc]. split; [done|].
    destruct (decide _) as [Hsame|Hne]; [by rewrite Hsame|]. destruct Hc as [?|Hw]; [done|].
    rewrite Hw, Heq. unfold wrap_uint64. rewrite Zplus_mod_idemp_l. f_equal. lia.
Qed.

(** A server at its start. *)
Definition fresh_server (sv : @Server _ RuleOption OutOptions RouteRest Rest Body) : Prop :=
  runtimeView (instance sv) = None ∧ (0 <= runtimeRevision (instance sv) < 2 ^ 64)%Z.

Lemma fresh_server_ok sv : fresh_server sv → server_ok sv.
Proof. intros [Hv Hr]. split; [split; [done|]|]; intros v; by rewrite Hv. Qed.

Lemma changed_by_revision h body s s' o st :
  revision_ok s → changed_by h body s s' o st →
  ∃ inst, fence_of h body = Some (inst, runtimeRevision s) ∧ runtimeRevision s' = wrap_uint64 (runtimeRevision s + 1).
Proof.
  intros Hr [Hf _ Hw _ _]. destruct (statusLocked_revision marshal instanceID s Hr) as (_ & Hrev & _).
  rewrite Hrev in Hf. eauto.
Qed.

(** C4: the management interface changes an instance only under a fence.  After
    any history of requests and sessions, a step that answers a request either
    publishes nothing (the users, their identities and sessions, the rules,
    outbounds, inbounds, configuration and revision stay), or the request
    carried the identifier and the revision of the instance at that moment;
    then the revision is raised by one, the answer is 200 with the new status,
    and the new configuration is the one the request asked for (unchanged, with
    everything else, for a fence).  So every other answer, and a handler that
    panics, has published nothing.  A step that answers no request changes at
    most sessions and traffic counters: no user, rule, outbound or
    configuration. *)
Theorem management_changes_are_fenced n sv0 sv l sv' :
  fresh_server sv0 → msteps n sv0 sv → mstep sv l sv' →
  fenced_step (instance sv) (instance sv') l ∧
  Revision (status_of (instance sv)).2 = runtimeRevision (instance sv) ∧
  (l = None → tables (world (instance sv')) = tables (world (instance sv)) ∧
     identities (world (instance sv')) = identities (world (instance sv))).
Proof.
  intros Hf%fresh_server_ok Hs Hm. destruct (msteps_ok _ _ _ Hf Hs) as [[Hr Hi] _].
  pose proof (mstep_changes _ _ _ Hi Hm) as Hc. split; [done|]. split; [by apply statusLocked_revision|].
  intros ->. destruct Hc as [->|(w & Ha & ->)]; [done|]. by apply activity_users.
Qed.

(** Of the requests that carry the same revision at most one wins.  After a
    request changed the instance, a later one that carries the revision the
    first one carried publishes nothing, whatever happens in between, until
    the 64-bit revision comes around: no update is lost by a concurrent one. *)
Lemma competing_updates_one_winner n k sv0 sv1 r h o sv2 sv3 r' h' o' sv4 inst inst' rev :
  fresh_server sv0 → msteps n sv0 sv1 →
  mstep sv1 (Some (r, h, o)) sv2 → ¬ unpublished (instance sv1) (instance sv2) → fence_of h (rq_body r) = Some (inst, rev) →
  msteps k sv2 sv3 → (Z.of_nat k + 1 < 2 ^ 64)%Z →
  mstep sv3 (Some (r', h', o')) sv4 → fence_of h' (rq_body r') = Some (inst', rev) →
  unpublished (instance sv3) (instance sv4).
Proof.
  intros Hf%fresh_server_ok Hs1 Hm1 Hch Hfe Hs2 Hk Hm2 Hfe'.
  destruct (msteps_ok _ _ _ Hf Hs1) as [Hok1 _]. destruct (mstep_ok _ _ _ Hok1 Hm1) as [Hok2 _].
  destruct (msteps_ok _ _ _ Hok2 Hs2) as [Hok3 Hrev3].
  destruct (mstep_changes _ _ _ (proj2 Hok1) Hm1) as [?|[st Hc1]]; [done|].
  destruct (changed_by_revision _ _ _ _ _ _ (proj1 Hok1) Hc1) as (i1 & Hf1 & Hrev2).
  destruct (mstep_changes _ _ _ (proj2 Hok3) Hm2) as [?|[st' Hc2]]; [done|].
  destruct (changed_by_revision _ _ _ _ _ _ (proj1 Hok3) Hc2) as (i2 & Hf2 & _). exfalso.
  assert (rev = runtimeRevision (instance sv1)) as -> by congruence.
  assert (runtimeRevision (instance sv3) = runtimeRevision (instance sv1)) as Heq by congruence.
  revert Heq. rewrite Hrev3, Hrev2. unfold wrap_uint64. rewrite Zplus_mod_idemp_l, <-Z.add_assoc.
  apply wrap_uint64_moved; [apply Hok1|lia].
Qed.
End props.

(** ** A run of the management interface

    Two clients send updates that carry the first revision of the instance of
    [BoxReloadRun]: the one that finishes first wins. *)

Import BoxRun.

Module ManagementRun.

(** Bodies are the requests; a configuration is named by a text. *)
Inductive Body :=
| BFence (r : FenceRequest)
| BUpdate (r : UpdateRequest).
Definition decode_preview (_ : Z) (_ : Body) : result PreviewRequest * bool := (Err (ENew "decode"), false).
Definition decode_fence (_ : Z) (b : Body) : result FenceRequest * bool :=
  match b with BFence r => (Ok r, true) | _ => (Err (ENew "decode"), false) end.
Definition decode_update (_ : Z) (b : Body) : result UpdateRequest * bool :=
  match b with BUpdate r => (Ok r, true) | _ => (Err (ENew "decode"), false) end.
Definition decode_routes (_ : Z) (_ : Body) : result RoutesRequest * bool := (Err (ENew "decode"), false).
Definition unmarshal_text (t : string) : result Opts :=
  if decide (t = "appended") then Ok (options PlanRun.appended)
  else if decide (t = "original") then Ok (options PlanRun.original) else Err (ENew "parse").
Definition marshal_routes (rules outbounds : string) : string := rules.

Definition step_arrive := arrive OutRun.endpoints OutRun.quiet create accept accept () marshal decode "instance"
  decode_preview decode_fence decode_update decode_routes unmarshal_text marshal_routes.
Definition step_finish := finish OutRun.endpoints OutRun.quiet create accept accept () marshal decode "instance"
  decode_preview decode_fence decode_update decode_routes unmarshal_text marshal_routes.
Notation mstep := (mstep OutRun.endpoints OutRun.quiet create accept accept () marshal decode "instance"
  decode_preview decode_fence decode_update decode_routes unmarshal_text marshal_routes).
Notation msteps := (msteps OutRun.endpoints OutRun.quiet create accept accept () marshal decode "instance"
  decode_preview decode_fence decode_update decode_routes unmarshal_text marshal_routes).

Definition update (config : string) : @Request Body :=
  mkRequest "PUT" "/management/v1/users" false (BUpdate (mkUpdateRequest "instance" (Some 1%Z) config)).
Definition first : @Request Body := update "appended".
Definition second : @Request Body := update "original".

Definition State : Type := @Server _ json object unit object Body.
Definition sv0 : State := mkServer box0 None.
Definition sv1 : State := (step_arrive first sv0).1.
Definition sv2 : State := (step_finish sv1).1.
Definition sv3 : State := (step_arrive second sv2).1.
Definition sv4 : State := (step_finish sv3).1.

Definition answer_code (r : State * option (option Response)) : option Z := mjoin r.2 ≫= λ r, Some (code r).

(** The first update is accepted; while it runs, the second is refused as busy;
    sent again afterwards, it is a conflict. *)
Lemma answers :
  answer_code (step_arrive second sv1) = Some 429%Z ∧ answer_code (step_finish sv1) = Some 200%Z ∧
  answer_code (step_finish sv3) = Some 409%Z.
Proof. vm_compute. done. Qed.

Lemma revisions : runtimeRevision (instance sv1) = 1%Z ∧ runtimeRevision (instance sv2) = 2%Z ∧
  runtimeRevision (instance sv3) = 2%Z.
Proof. vm_compute. done. Qed.

Lemma start : fresh_server sv0.
Proof. done. Qed.

Lemma admitted (r : @Request Body) (h : Handler) (sv : State) : 
  dispatch (rq_method r) (rq_path r) = inl h → guarded h = true → heavy sv = None →
  step_arrive r sv = (mkServer (instance sv) (Some (r, h)), None).
Proof. unfold step_arrive, arrive. by intros -> -> ->. Qed.

Lemma finished (sv : State) r h : heavy sv = Some (r, h) → cancelled r = false →
  ∃ o, step_finish sv = ((step_finish sv).1, Some o).
Proof.
  unfold step_finish, finish. intros -> ->. destruct (handle _ _ _ _ _ _ _ _ _ _ _ _ _ _ _ _ _ _) as [s o]. by exists o.
Qed.

Lemma run_admit (r : @Request Body) (h : Handler) (sv : State) :
  dispatch (rq_method r) (rq_path r) = inl h → guarded h = true → heavy sv = None → msteps 0 sv (step_arrive r sv).1.
Proof.
  intros Hd Hg Hh. pose proof (admitted r h sv Hd Hg Hh) as Ha.
  pose proof (msteps_step OutRun.endpoints OutRun.quiet create accept accept () marshal decode "instance"
    decode_preview decode_fence decode_update decode_routes unmarshal_text marshal_routes 0 sv sv None
    (step_arrive r sv).1) as Hs.
  rewrite decide_True in Hs by by rewrite Ha. apply Hs; [apply msteps_refl|]. eapply (ms_admit _ _ _ _ _ _ _ _ _ _ _ _ _ _ _ r).
  unfold step_arrive in *. by rewrite Ha.
Qed.

Lemma run_sv1 : msteps 0 sv0 sv1.
Proof. by apply (run_admit first HConfiguration). Qed.

Lemma run_first : ∃ o, mstep sv1 (Some (first, HConfiguration, o)) sv2.
Proof.
  pose proof (admitted first HConfiguration sv0 eq_refl eq_refl eq_refl) as Ha.
  assert (heavy sv1 = Some (first, HConfiguration)) as Hh by (unfold sv1; by rewrite Ha).
  destruct (finished _ _ _ Hh eq_refl) as [o Ho]. exists o. eapply ms_finish; [done|exact Ho].
Qed.

Lemma heavy_sv2 : heavy sv2 = None.
Proof. vm_compute. reflexivity. Qed.

Lemma run_sv3 : msteps 0 sv2 sv3.
Proof. apply (run_admit second HConfiguration); [done|done|apply heavy_sv2]. Qed.

Lemma run_second : ∃ o, mstep sv3 (Some (second, HConfiguration, o)) sv4.
Proof.
  pose proof (admitted second HConfiguration sv2 eq_refl eq_refl heavy_sv2) as Ha.
  assert (heavy sv3 = Some (second, HConfiguration)) as Hh by (unfold sv3; by rewrite Ha).
  destruct (finished _ _ _ Hh eq_refl) as [o Ho]. exists o. eapply ms_finish; [done|exact Ho].
Qed.

Lemma first_moved : ¬ unpublished (instance sv1) (instance sv2).
Proof. intros Hs%up_revision. destruct revisions as (Hr1 & Hr2 & _). rewrite Hr1, Hr2 in Hs. discriminate Hs. Qed.
End ManagementRun.
Import ManagementRun.

Lemma management_changes_are_fenced_witness :
  ∃ o st, o = Some (mkResponse 200 false (CStatus st)) ∧ Revision st = 2%Z.
Proof.
  destruct run_first as [o Hm]. destruct revisions as (_ & Hr2 & _).
  destruct (management_changes_are_fenced _ _ _ _ _ _ _ _ _ _ _ _ _ _ _ 0 sv0 sv1 _ sv2 start run_sv1 Hm)
    as [[Hs|[st Hc]] _]; [destruct (first_moved Hs)|].
  exists o, st. split; [apply Hc|]. destruct (ch_status _ _ _ _ _ _ _ _ _ _ _ _ _ _ _ Hc) as [_ Hrev].
  rewrite Hrev. exact Hr2.
Defined.

Lemma competing_updates_one_winner_witness : unpublished (instance sv3) (instance sv4).
Proof.
  destruct run_first as [o Hm1], run_second as [o' Hm2].
  exact (competing_updates_one_winner _ _ _ _ _ _ _ _ _ _ _ _ _ _ _ 0 0 sv0 sv1 first HConfiguration o sv2 sv3
    second HConfiguration o' sv4 "instance" "instance" 1%Z start run_sv1 Hm1 first_moved eq_refl run_sv3 ltac:(lia) Hm2 eq_refl).
Defined.
