(* ===== verification/Commands.v ===== *)
(** * The run command

    Model of cmd/sing-box/cmd_run.go and cmd_reload_receipt.go: reading and
    merging the configuration files, and the loop that serves signals.  A
    hang-up signal reloads users in place; only with an explicit flag may it
    replace the instance.  The supervisor that requested the reload is told
    the result in a receipt. *)
From S2P Require Import Prelude UserState HotRules Registry OutboundManager OutboundProps Json UserPlan UserPlanStable InboundUsers BoxReload BoxReloadSpec BoxReloadProps BoxReloadRun.

(** The receipt of a reload. *)
Record Ack := mkAck { ack_nonce : string; ack_mode : string; ack_success : bool }.

Definition has_suffix (s t : string) : bool :=
  bool_decide (String.length t <= String.length s) &&
  bool_decide (String.substring (String.length s - String.length t) (String.length t) s = t).

Section commands.
Context `{InboundEnv}.
Context {RuleOption OutOptions E RouteRest Rest : Type} `{EndpointManager E} (endpoint : E).
Context (answer : nat → method → option error) (create : string → string → OutOptions → result Adapter).
Context (NewRule StartRule : RuleOption → option error).
Notation Options := (@Options RuleOption OutOptions RouteRest Rest).
Notation Box := (@Box _ RuleOption OutOptions RouteRest Rest).
Context (marshal : Options → result object) (decode : object → result Options) (instanceID : string).

(** ** Reading the configuration *)

(** The file system, the path functions, the two decoders, the text options
    keep of their source, and the merge of two texts ([badjson.MergeJSON]). *)
Context (ReadFile : string → result string) (ReadDir : string → result (list (string * bool))).
Context (path_Join : string → string → string).
Context (unmarshal_text UnmarshalJSON : string → result Options) (RawMessage : Options → string).
Context (MergeJSON : string → string → result string).

Record OptionsEntry := mkOptionsEntry { oe_content : string; oe_path : string; oe_options : Options }.

(** The standard input is read as the file [stdin]. *)
Definition readConfigAt (path : string) : result OptionsEntry :=
  match ReadFile path with
  | Err e => Err (ECause e ("read config at " +:+ path))
  | Ok content =>
      match unmarshal_text content with
      | Err e => Err (ECause e ("decode config at " +:+ path))
      | Ok options => Ok (mkOptionsEntry content path options)
      end
  end.

Definition read_path (acc : list OptionsEntry) (path : string) : result (list OptionsEntry) :=
  let? e := readConfigAt path in Ok (acc ++ [e]).
Definition config_files (directory : string) (entries : list (string * bool)) : list string :=
  path_Join directory <$> (filter (λ e : string * bool, has_suffix e.1 ".json" = true ∧ e.2 = false) entries).*1.
Definition read_directory (acc : list OptionsEntry) (directory : string) : result (list OptionsEntry) :=
  match ReadDir directory with
  | Err e => Err (ECause e ("read config directory at " +:+ directory))
  | Ok entries => fold_result read_path (config_files directory entries) acc
  end.

Definition path_le (a b : OptionsEntry) : Prop := string_lt (oe_path b) (oe_path a) = false.
#[export] Instance path_le_dec a b : Decision (path_le a b).
Proof. unfold path_le. apply _. Defined.

Definition readConfig (configPaths configDirectories : list string) : result (list OptionsEntry) :=
  let? l := fold_result read_path configPaths [] in
  let? l := fold_result read_directory configDirectories l in
  Ok (merge_sort path_le l).

Definition merge_entry (merged : string) (e : OptionsEntry) : result string :=
  match MergeJSON (RawMessage (oe_options e)) merged with
  | Err err => Err (ECause err ("merge config at " +:+ oe_path e))
  | Ok m => Ok m
  end.

Definition readConfigAndMerge (configPaths configDirectories : list string) : result Options :=
  let? l := readConfig configPaths configDirectories in
  match l with
  | [e] => Ok (oe_options e)
  | _ =>
      let? merged := fold_result merge_entry l "" in
      match UnmarshalJSON merged with
      | Err err => Err (ECause err "unmarshal merged config")
      | Ok options => Ok options
      end
  end.

(** ** The signal loop *)

(** A signal with what the environment answers while it is handled: the nonce
    of the request file, the configuration as it is read then, the check of
    it, and the creation of the next instance and its management socket. *)
Record Signal := mkSignal {
  sg_hup : bool;
  sg_nonce : string;
  sg_config : result Options;
  sg_check : option error;
  sg_create : result Box;
  sg_management : option error;
}.

Context (reloadReceiptPath : string) (allowDisruptiveReload : bool).

(** [acknowledgeReload]; writing the receipt is best effort. *)
Definition acknowledgeReload (nonce mode : string) (success : bool) : list Ack :=
  if bool_decide (nonce = "") || bool_decide (reloadReceiptPath = "") then [] else [mkAck nonce mode success].

Inductive Outcome :=
| Serve (b : Box)            (** the same instance goes on *)
| Replace (old new : Box)    (** the old instance was closed, a new one serves *)
| Exit (err : option error)  (** the command returned *)
| Crash (msg : string).      (** a panic took the process down *)

(** The start of an iteration of the outer loop of [run]. *)
Definition start_instance (pending : string) (created : result Box) (management : option error) (old : option Box)
    : list Ack * Outcome :=
  match created with
  | Err e => (acknowledgeReload pending "full" false, Exit (Some e))
  | Ok b =>
      match management with
      | Some e => ([], Exit (Some e))
      | None => (acknowledgeReload pending "full" true,
                 match old with Some o => Replace o b | None => Serve b end)
      end
  end.

(** One signal. *)
Definition handle_signal (e : Signal) (b : Box) : list Ack * Outcome :=
  if sg_hup e then
    match sg_config e with
    | Err _ => (acknowledgeReload (sg_nonce e) "users" false, Serve b)
    | Ok updated =>
        match ReloadUsers endpoint answer create NewRule StartRule marshal decode instanceID updated None "" b with
        | (b, _, None) => (acknowledgeReload (sg_nonce e) "users" true, Serve b)
        | (b, _, Some reloadErr) =>
            if panic_of reloadErr is Some msg then ([], Crash msg)
            else if negb allowDisruptiveReload || bool_decide (reloadErr ≠ ErrUnsupportedUserUpdate)
            then (acknowledgeReload (sg_nonce e) "users" false, Serve b)
            else
              match sg_check e with
              | Some _ => (acknowledgeReload (sg_nonce e) "full" false, Serve b)
              | None => start_instance (sg_nonce e) (sg_create e) (sg_management e) (Some b)
              end
        end
    end
  else ([], Exit None).

(** [run], after the first instance: the receipts of a sequence of signals and
    the state of the command after them. *)
Fixpoint run_signals (signals : list Signal) (b : Box) : list Ack * Outcome :=
  match signals with
  | [] => ([], Serve b)
  | e :: signals =>
      match handle_signal e b with
      | (acks, Serve b) | (acks, Replace _ b) => let '(acks', o) := run_signals signals b in (acks ++ acks', o)
      | (acks, o) => (acks, o)
      end
  end.

Definition run (created : result Box) (management : option error) (signals : list Signal) : list Ack * Outcome :=
  match start_instance "" created management None with
  | (acks, Serve b) | (acks, Replace _ b) => let '(acks', o) := run_signals signals b in (acks ++ acks', o)
  | (acks, o) => (acks, o)
  end.
End commands.

(** ** Properties of the run command

    The order of the configuration arguments does not matter, and every
    requested reload is answered truthfully by one receipt. *)

(** A loop that appends what each element yields. *)
Lemma fold_result_collect {A B} (f : A → result (list B)) (g : list B → A → result (list B)) l acc r :
  (∀ acc x, g acc x = let? e := f x in Ok (acc ++ e)) →
  fold_result g l acc = Ok r ↔ ∃ ls, Forall2 (λ x e, f x = Ok e) l ls ∧ r = acc ++ concat ls.
Proof.
  intros Hg. revert acc. induction l as [|x l IH]; intros acc; cbn [fold_result].
  - split.
    + intros [= <-]. exists []. split; [constructor|]. by rewrite app_nil_r.
    + intros (ls & ->%Forall2_nil_inv_l & ->). simpl. by rewrite app_nil_r.
  - rewrite Hg. destruct (f x) as [e|] eqn:Hx; cbn [result_bind].
    + rewrite IH. split.
      * intros (ls & Hls & ->). exists (e :: ls). split; [by constructor|]. simpl. by rewrite app_assoc.
      * intros (ls & (e' & ls' & He & Hls & ->)%Forall2_cons_inv_l & ->). assert (e' = e) as -> by congruence. exists ls'. split; [done|].
        simpl. by rewrite app_assoc.
    + split; [done|]. intros (ls & (e' & ls' & He & _ & _)%Forall2_cons_inv_l & _). congruence.
Qed.

Lemma Forall2_Permutation_concat {A B} (R : A → list B → Prop) l l' ls :
  l ≡ₚ l' → Forall2 R l ls → ∃ ls', Forall2 R l' ls' ∧ concat ls ≡ₚ concat ls'.
Proof.
  intros Hp. revert ls. induction Hp as [|x l l' Hp IH|x y l|l l1 l2 _ IH1 _ IH2]; intros ls Hls.
  - exists ls. done.
  - apply Forall2_cons_inv_l in Hls as (e & ls' & He & Hls & ->). destruct (IH _ Hls) as (ls'' & Hls' & Hc).
    exists (e :: ls''). split; [by constructor|]. simpl. by rewrite Hc.
  - apply Forall2_cons_inv_l in Hls as (e & ls' & He & Hls & ->).
    apply Forall2_cons_inv_l in Hls as (e' & ls'' & He' & Hls & ->). exists (e' :: e :: ls'').
    split; [by repeat constructor|]. simpl. rewrite !app_assoc. by rewrite (Permutation_app_comm e e').
  - destruct (IH1 _ Hls) as (ls1 & Hls1 & Hc1). destruct (IH2 _ Hls1) as (ls2 & Hls2 & Hc2).
    exists ls2. split; [done|]. by rewrite Hc1.
Qed.

(** Such a loop over a permuted list yields a permuted result. *)
Lemma fold_result_permuted {A B} (f : A → result (list B)) (g : list B → A → result (list B)) l l' acc acc' r :
  (∀ acc x, g acc x = let? e := f x in Ok (acc ++ e)) → l ≡ₚ l' → acc ≡ₚ acc' →
  fold_result g l acc = Ok r → ∃ r', fold_result g l' acc' = Ok r' ∧ r ≡ₚ r'.
Proof.
  intros Hg Hl Hacc (ls & Hls & ->)%(fold_result_collect f _ _ _ _ Hg).
  destruct (Forall2_Permutation_concat _ _ _ _ Hl Hls) as (ls' & Hls' & Hc).
  exists (acc' ++ concat ls'). split; [apply (fold_result_collect f _ _ _ _ Hg); eauto|]. by rewrite Hacc, Hc.
Qed.

Section props.
Context `{InboundEnv}.
Context {RuleOption OutOptions E RouteRest Rest : Type} `{EndpointManager E} (endpoint : E).
Context (answer : nat → method → option error) (create : string → string → OutOptions → result Adapter).
Context (NewRule StartRule : RuleOption → option error).
Notation Options := (@Options RuleOption OutOptions RouteRest Rest).
Notation Box := (@Box _ RuleOption OutOptions RouteRest Rest).
Context (marshal : Options → result object) (decode : object → result Options) (instanceID : string).
Context (ReadFile : string → result string) (ReadDir : string → result (list (string * bool))).
Context (path_Join : string → string → string).
Context (unmarshal_text UnmarshalJSON : string → result Options) (RawMessage : Options → string).
Context (MergeJSON : string → string → result string).

Notation readConfigAt := (readConfigAt ReadFile unmarshal_text).
Notation read_path := (read_path ReadFile unmarshal_text).
Notation read_directory := (read_directory ReadFile ReadDir path_Join unmarshal_text).
Notation readConfig := (readConfig ReadFile ReadDir path_Join unmarshal_text).
Notation readConfigAndMerge := (readConfigAndMerge ReadFile ReadDir path_Join unmarshal_text UnmarshalJSON RawMessage MergeJSON).
Notation Entry := (@OptionsEntry RuleOption OutOptions RouteRest Rest).

(** ** Configuration files *)

Definition load_path (path : string) : result (list Entry) := let? e := readConfigAt path in Ok [e].
Definition load_directory (d : string) : result (list Entry) := read_directory [] d.

Lemma read_path_collect acc x : read_path acc x = let? e := load_path x in Ok (acc ++ e).
Proof. unfold Commands.read_path, load_path. by destruct (readConfigAt x). Qed.

Lemma read_directory_collect acc d : read_directory acc d = let? e := load_directory d in Ok (acc ++ e).
Proof.
  unfold load_directory, Commands.read_directory. destruct (ReadDir d) as [entries|]; [|done].
  generalize (config_files path_Join d entries). intros l. revert acc.
  induction l as [|x l IH] using rev_ind; intros acc; cbn [fold_result result_bind]; [by rewrite app_nil_r|].
  rewrite !fold_result_app, (IH acc). destruct (fold_result read_path l []) as [r|]; cbn [result_bind fold_result]; [|done].
  rewrite !read_path_collect. destruct (load_path x); cbn [result_bind]; [|done]. by rewrite app_assoc.
Qed.

#[export] Instance path_le_total : Total (path_le (RuleOption:=RuleOption) (OutOptions:=OutOptions) (RouteRest:=RouteRest) (Rest:=Rest)).
Proof.
  intros a b. unfold path_le. destruct (string_lt (oe_path b) (oe_path a)) eqn:E1; [|by left].
  right. apply not_true_is_false. intros E2. pose proof (string_lt_trans _ _ _ E1 E2). by rewrite string_lt_irrefl in *.
Qed.
#[export] Instance path_le_trans : Transitive (path_le (RuleOption:=RuleOption) (OutOptions:=OutOptions) (RouteRest:=RouteRest) (Rest:=Rest)).
Proof.
  intros a b c. unfold path_le. intros H1 H2. apply not_true_is_false. intros H3.
  destruct (string_lt_trichotomy (oe_path a) (oe_path b)) as [Hab|[Hab|Hab]]; [|congruence|congruence].
  pose proof (string_lt_trans _ _ _ H3 Hab). congruence.
Qed.

Lemma path_le_antisym (a b : Entry) : path_le a b → path_le b a → oe_path a = oe_path b.
Proof.
  unfold path_le. intros H1 H2. destruct (string_lt_trichotomy (oe_path a) (oe_path b)) as [?|[?|?]]; congruence.
Qed.

(** Sorting by distinct paths gives one result whatever the order was. *)
Lemma sort_permuted (l l' : list Entry) :
  NoDup (oe_path <$> l) → l ≡ₚ l' → merge_sort path_le l = merge_sort path_le l'.
Proof.
  intros Hnd Hp. apply (StronglySorted_unique_strong path_le).
  - intros a b Ha Hb Hab Hba. rewrite (merge_sort_Permutation path_le l) in Ha.
    rewrite (merge_sort_Permutation path_le l'), <-Hp in Hb.
    apply (NoDup_fmap_elem oe_path l); [done..|]. by apply path_le_antisym.
  - apply StronglySorted_merge_sort; apply _.
  - apply StronglySorted_merge_sort; apply _.
  - by rewrite !merge_sort_Permutation.
Qed.

(** The order in which configuration files and directories are named does
    not matter.  When every named file is read, under distinct paths, then
    naming them in another order reads the same entries, in the order of
    their paths, and merges them to the same configuration or the same
    error. *)
Lemma config_order_irrelevant paths paths' dirs dirs' es :
  readConfig paths dirs = Ok es → NoDup (oe_path <$> es) → paths ≡ₚ paths' → dirs ≡ₚ dirs' →
  readConfig paths' dirs' = Ok es ∧ StronglySorted (λ a b, string_lt (oe_path a) (oe_path b) = true) es ∧
  readConfigAndMerge paths' dirs' = readConfigAndMerge paths dirs.
Proof.
  intros Hr Hnd Hp Hd. assert (readConfig paths' dirs' = Ok es) as Hr'.
  { unfold Commands.readConfig in *. inv_bind Hr. inv_bind Hr. injection Hr as <-.
    destruct (fold_result_permuted _ _ _ _ [] [] _ read_path_collect Hp ltac:(done) E0) as (a' & -> & Ha).
    cbn [result_bind]. destruct (fold_result_permuted _ _ _ _ _ _ _ read_directory_collect Hd Ha E1) as (b' & -> & Hb).
    cbn [result_bind]. f_equal. symmetry. apply sort_permuted; [|done]. by rewrite merge_sort_Permutation in Hnd. }
  split; [done|]. split.
  - assert (StronglySorted path_le es) as Hs.
    { unfold Commands.readConfig in Hr. inv_bind Hr. inv_bind Hr. injection Hr as <-.
      apply StronglySorted_merge_sort; apply _. }
    clear -Hs Hnd. induction Hs as [|e es Hs IH Hall]; [constructor|]. rewrite fmap_cons in Hnd.
    apply NoDup_cons in Hnd as [Hn Hnd]. constructor; [by apply IH|]. rewrite Forall_forall in *. intros x Hx.
    specialize (Hall x Hx). unfold path_le in Hall.
    destruct (string_lt_trichotomy (oe_path e) (oe_path x)) as [?|[Heq|?]]; [done| |congruence].
    destruct Hn. rewrite Heq. by apply (list_elem_of_fmap_2 oe_path).
  - unfold Commands.readConfigAndMerge. by rewrite Hr, Hr'.
Qed.

(** ** Signals *)

Context (reloadReceiptPath : string) (allowDisruptiveReload : bool).
Notation reload := (reloadUsersLocked endpoint answer create NewRule StartRule marshal decode instanceID).
Notation handle_signal := (handle_signal endpoint answer create NewRule StartRule marshal decode instanceID
  reloadReceiptPath allowDisruptiveReload).

(** How a requested reload may end, with its receipt. *)
Inductive reload_ends (e : @Signal _ RuleOption OutOptions RouteRest Rest) (b : Box) : option (string * bool) → Outcome → Prop :=
| re_unreadable err : sg_config e = Err err → reload_ends e b (Some ("users", false)) (Serve b)
| re_users updated b' st : sg_config e = Ok updated → reload updated None "" b = (b', st, None) →
    reload_ends e b (Some ("users", true)) (Serve b')
| re_panic updated b' st err msg : sg_config e = Ok updated → reload updated None "" b = (b', st, Some err) →
    panic_of err = Some msg → reload_ends e b None (Crash msg)
| re_refused updated b' st err : sg_config e = Ok updated → reload updated None "" b = (b', st, Some err) →
    panic_of err = None → unpublished b b' → allowDisruptiveReload = false ∨ err ≠ ErrUnsupportedUserUpdate →
    reload_ends e b (Some ("users", false)) (Serve b')
| re_check updated b' st err : sg_config e = Ok updated → reload updated None "" b = (b', st, Some ErrUnsupportedUserUpdate) →
    unpublished b b' → sg_check e = Some err → reload_ends e b (Some ("full", false)) (Serve b')
| re_full updated b' st receipt o : sg_config e = Ok updated →
    reload updated None "" b = (b', st, Some ErrUnsupportedUserUpdate) → unpublished b b' →
    allowDisruptiveReload = true → sg_check e = None →
    (∀ err, sg_create e = Err err → receipt = Some ("full", false) ∧ o = Exit (Some err)) →
    (∀ new, sg_create e = Ok new → sg_management e = None → receipt = Some ("full", true) ∧ o = Replace b' new) →
    (∀ new err, sg_create e = Ok new → sg_management e = Some err → receipt = None ∧ o = Exit (Some err)) →
    reload_ends e b receipt o.

Lemma reload_ends_none e b o :
  reload_ends e b None o → allowDisruptiveReload = true ∨ ∃ msg, o = Crash msg.
Proof. inversion 1; eauto. Qed.

(** C5: a hang-up signal is answered truthfully, and an instance is only
    replaced on request.  The receipt carries the nonce of the request: it
    reports success exactly when the users were reloaded in place or the new
    instance serves; a refused update leaves what is published and keeps the
    instance; the instance is closed only when disruptive reloads are allowed,
    the update was refused as a change of topology and the new configuration
    passed the check.  One receipt is written per request, with two exceptions:
    when the new instance starts but its management socket does not, the
    command returns without any; and a panic of the reload takes the process
    down. *)
Theorem sighup_is_acknowledged e b :
  sg_hup e = true → sg_nonce e ≠ "" → reloadReceiptPath ≠ "" →
  ∃ receipt, reload_ends e b receipt (handle_signal e b).2 ∧
    (handle_signal e b).1 = match receipt with Some (mode, ok) => [mkAck (sg_nonce e) mode ok] | None => [] end.
Proof.
  intros Hh Hn Hp. unfold Commands.handle_signal, ReloadUsers. rewrite Hh.
  assert (∀ mode ok, acknowledgeReload reloadReceiptPath (sg_nonce e) mode ok = [mkAck (sg_nonce e) mode ok]) as Hack.
  { intros mode ok. unfold acknowledgeReload. by rewrite !bool_decide_false. }
  destruct (sg_config e) as [updated|err] eqn:Hc; [|exists (Some ("users", false)); split; [by eapply re_unreadable|by rewrite Hack]].
  destruct (reload updated None "" b) as [[b' st] [err|]] eqn:Hr; [|exists (Some ("users", true)); split; [by eapply re_users|by rewrite Hack]].
  pose proof (reload_refused _ _ _ _ _ _ _ _ _ _ _ _ _ _ _ Hr) as [Hu _].
  destruct (panic_of err) as [msg|] eqn:Hpanic; [exists None; split; [by eapply re_panic|done]|].
  destruct (negb allowDisruptiveReload || _) eqn:Ho.
  { exists (Some ("users", false)). split; [|by rewrite Hack]. eapply re_refused; [done..|].
    apply orb_true_iff in Ho as [Ho|Ho%bool_decide_eq_true]; [left; by destruct allowDisruptiveReload|by right]. }
  apply orb_false_iff in Ho as [Ha%negb_false_iff Herr%bool_decide_eq_false]. apply dec_stable in Herr as ->.
  destruct (sg_check e) as [err|] eqn:Hk; [exists (Some ("full", false)); split; [by eapply re_check|by rewrite Hack]|].
  unfold start_instance. destruct (sg_create e) as [new|err] eqn:Hcr.
  - destruct (sg_management e) as [err|] eqn:Hm.
    + exists None. split; [|done]. eapply re_full; try done; cbn [snd]; intros; split; congruence.
    + exists (Some ("full", true)). split; [|by rewrite Hack]. eapply re_full; try done; cbn [snd]; intros; split; congruence.
  - exists (Some ("full", false)). split; [|by rewrite Hack]. eapply re_full; try done; cbn [snd]; intros; split; congruence.
Qed.
End props.

(** ** A run *)

Module CommandsRun.
Import BoxRun.
Definition ReadFile (path : string) : result string :=
  if decide (path = "b.json") then Ok "original" else if decide (path = "conf/a.json") then Ok "appended" else Err (EEnv 2).
Definition ReadDir (d : string) : result (list (string * bool)) :=
  Ok [("a.json", false); ("notes.txt", false); ("old.json", true)].
Definition path_Join (d name : string) : string := d +:+ "/" +:+ name.
Definition unmarshal_text (t : string) : result Opts :=
  if decide (t = "appended") then Ok (options PlanRun.appended) else Ok (options PlanRun.original).
Definition MergeJSON (src dst : string) : result string := Ok (dst +:+ src).
Definition paths : list string := ["conf/a.json"; "b.json"].
Definition paths' : list string := ["b.json"; "conf/a.json"].
Definition entries : list (@OptionsEntry json object unit object) :=
  match readConfig ReadFile ReadDir path_Join unmarshal_text paths [] with Ok l => l | Err _ => [] end.

(** A refused reload of the running instance. *)
Definition signal : @Signal _ json object unit object :=
  mkSignal true "0123456789abcdef0123456789abcdef" (Ok (options (PlanRun.config [PlanRun.user "old" "a"]
    [PlanRun.direct] [PlanRun.route_to "old" "missing"; PlanRun.reject]))) None (Err (EEnv 1)) None.
End CommandsRun.
Import CommandsRun.

Lemma entries_read : readConfig ReadFile ReadDir path_Join unmarshal_text paths [] = Ok entries.
Proof.
  assert (is_ok (readConfig ReadFile ReadDir path_Join unmarshal_text paths []) = true) as Hok by (vm_compute; reflexivity).
  unfold entries. destruct (readConfig _ _ _ _ _ _); [reflexivity|discriminate Hok].
Qed.

Lemma config_order_irrelevant_witness :
  readConfig ReadFile ReadDir path_Join unmarshal_text paths' [] = Ok entries ∧
  (oe_path <$> entries) = ["b.json"; "conf/a.json"].
Proof.
  assert (oe_path <$> entries = ["b.json"; "conf/a.json"]) as Hp by (vm_compute; reflexivity).
  split; [|exact Hp].
  apply (config_order_irrelevant ReadFile ReadDir path_Join unmarshal_text unmarshal_text (λ _, EmptyString) MergeJSON paths paths' [] []).
  - exact entries_read.
  - rewrite Hp. apply (bool_decide_unpack _). vm_compute. exact I.
  - constructor.
  - constructor.
Defined.

Definition serves : bool :=
  match (handle_signal OutRun.endpoints OutRun.quiet BoxRun.create BoxRun.accept BoxRun.accept BoxRun.marshal
    BoxRun.decode "instance" "/run/receipt" false signal BoxRun.box0).2 with Serve _ => true | _ => false end.

Lemma sighup_is_acknowledged_witness :
  ∃ mode ok, (handle_signal OutRun.endpoints OutRun.quiet BoxRun.create BoxRun.accept BoxRun.accept BoxRun.marshal
    BoxRun.decode "instance" "/run/receipt" false signal BoxRun.box0).1 = [mkAck (sg_nonce signal) mode ok].
Proof.
  destruct (sighup_is_acknowledged OutRun.endpoints OutRun.quiet BoxRun.create BoxRun.accept BoxRun.accept BoxRun.marshal
    BoxRun.decode "instance" "/run/receipt" false signal BoxRun.box0 eq_refl ltac:(discriminate) ltac:(discriminate))
    as (receipt & Hends & Heq).
  destruct receipt as [[mode ok]|]; [by exists mode, ok|].
  apply reload_ends_none in Hends as [Hends|[msg Hends]]; [discriminate Hends|].
  assert (serves = true) as Hs by (vm_compute; reflexivity). unfold serves in Hs. rewrite Hends in Hs. discriminate Hs.
Defined.
