(* ===== verification/VlessCodec.v ===== *)
(** * The VLESS request header

    Model of local-modules/sing-vmess/vless/protocol.go, the header a client
    sends before it is authenticated, and of [serverConn], which answers with
    the response header.  The address serializer is a library and a parameter:
    what it writes has the announced length and is read back. *)
From S2P Require Import Prelude Bytes.

(** A serializer of addresses ([M.Serializer]). *)
Class AddrSerializer (Addr : Type) := {
  ReadAddrPort : reader Addr;
  WriteAddrPort : Addr → result bytes;
  AddrPortLen : Addr → nat;
}.

(** What the library documents of it; an address is plain when the wire format
    can tell it from every other. *)
Class AddrSerializerLaws (Addr : Type) `{AddrSerializer Addr} (plain : Addr → Prop) := {
  write_length : ∀ a b, WriteAddrPort a = Ok b → length b = AddrPortLen a;
  read_written : ∀ a b rest, plain a → WriteAddrPort a = Ok b → ReadAddrPort (b ++ rest) = Ok (a, rest);
}.

(** The commands of a request. *)
Definition CommandTCP : Z := 1.
Definition CommandUDP : Z := 2.
Definition CommandMux : Z := 3.

Record Addons := mkAddons { ad_Flow : bytes; ad_Seed : bytes }.

(** [readAddons].  Each iteration takes at least the header byte, so the length
    of the input is enough fuel. *)
Fixpoint read_addons (fuel : nat) (addons : Addons) : reader Addons := λ s,
  match fuel, s with
  | _, [] => Ok (addons, [])
  | 0, _ => Err (EPanic "fuel")
  | S fuel, protoHeader :: s =>
      if decide (val protoHeader = 10)%Z
      then (let! flow := read_field in read_addons fuel (mkAddons flow (ad_Seed addons))) s
      else if decide (val protoHeader = 18)%Z
      then (let! seed := read_field in read_addons fuel (mkAddons (ad_Flow addons) seed)) s
      else Err (ENew "unknown protobuf message header")
  end.
Definition readAddons (s : bytes) : result Addons :=
  match read_addons (length s) (mkAddons [] []) s with Ok (a, _) => Ok a | Err e => Err e end.

Section codec.
Context {Addr : Type} `{AddrSerializer Addr} (UvarintLen : Z → nat) (no_addr : Addr).

Record Request := mkRequest {
  UUID : bytes;
  Command : byte;
  Destination : Addr;
  Flow : bytes;
}.

(** ** Reading *)

Definition read_version (k : reader Request) : reader Request :=
  let! version := read_byte in
  if decide (val version ≠ 0)%Z then rfail (ENew "unknown version") else k.

(** [ReadRequest]. *)
Definition ReadRequest : reader Request :=
  read_version (
    let! uuid := read_full 16 in
    let! addonsLen := read_byte in
    let! flow :=
      if decide (0 < val addonsLen)%Z
      then (let! addonsBytes := read_full (Z.to_nat (val addonsLen)) in
            match readAddons addonsBytes with Ok a => rret (ad_Flow a) | Err e => rfail e end)
      else rret [] in
    let! command := read_byte in
    if decide (val command ≠ CommandMux)
    then (let! destination := ReadAddrPort in rret (mkRequest uuid command destination flow))
    else rret (mkRequest uuid command no_addr flow)).

(** ** Writing *)

Definition addons_len (request : Request) : nat :=
  if decide (Flow request ≠ []) then 1 + UvarintLen (Z.of_nat (length (Flow request))) + length (Flow request) else 0.

(** [RequestLen]. *)
Definition RequestLen (request : Request) : nat :=
  1 + 16 + 1 + addons_len request + 1
  + (if decide (val (Command request) ≠ CommandMux) then AddrPortLen (Destination request) else 0).

(** The bytes both writers put between the version and the payload. *)
Definition write_addons (request : Request) : bytes :=
  if decide (0 < addons_len request)
  then u8 10 :: PutUvarint (Z.of_nat (length (Flow request))) ++ Flow request else [].
Definition write_destination (request : Request) : result bytes :=
  if decide (val (Command request) ≠ CommandMux) then WriteAddrPort (Destination request) else Ok [].

(** [EncodeRequest], into a buffer. *)
Definition EncodeRequest (request : Request) : result bytes :=
  let header := [u8 0] ++ UUID request ++ [u8 (Z.of_nat (addons_len request))] ++ write_addons request ++ [Command request] in
  let? destination := write_destination request in
  Ok (header ++ destination).

(** [WriteRequest]: the size of the buffer, and what is written to it. *)
Definition WriteRequest (request : Request) (payload : bytes) : nat * result bytes :=
  let requestLen :=
    1 + 16 + 1 + addons_len request + 1
    + (if decide (val (Command request) ≠ CommandMux) then AddrPortLen (Destination request) else 0) + length payload in
  (requestLen,
   let header := [u8 0] ++ UUID request ++ [u8 (Z.of_nat (addons_len request))] ++ write_addons request ++ [Command request] in
   let? destination := write_destination request in
   Ok (header ++ destination ++ payload)).

(** [WritePacketRequest]: no addons, and the command is always UDP. *)
Definition WritePacketRequest (request : Request) (payload : bytes) : nat * result bytes :=
  let requestLen :=
    1 + 16 + 1 + 1 + AddrPortLen (Destination request)
    + (if decide (0 < length payload) then 2 + length payload else 0) in
  (requestLen,
   let? destination := WriteAddrPort (Destination request) in
   Ok ([u8 0] ++ UUID request ++ [u8 0] ++ [u8 CommandUDP] ++ destination
       ++ (if decide (0 < length payload) then be16 (Z.of_nat (length payload)) ++ payload else []))).
End codec.

(** ** The response *)

(** [ReadResponse]. *)
Definition ReadResponse : reader unit :=
  let! version := read_byte in
  if decide (val version ≠ 0)%Z then rfail (ENew "unknown version")
  else
    let! protobufLength := read_byte in
    if decide (0 < val protobufLength)%Z then (let! _ := read_full (Z.to_nat (val protobufLength)) in rret ()) else rret ().

(** [serverConn.Write]: the header goes before the first bytes written. *)
Definition serverConn_Write (responseWritten : bool) (b : bytes) : bool * bytes :=
  if responseWritten then (true, b) else (true, [u8 0; u8 0] ++ b).

(** ** Properties of the VLESS header

    What a client writes, the server reads back, and the buffers are exactly
    as large as needed; an unauthenticated client can make the reader
    panic. *)

(** ** Readers of parts *)

Lemma read_byte_cons b s : read_byte (b :: s) = Ok (b, s).
Proof. done. Qed.

Lemma read_addons_nil fuel a : read_addons fuel a [] = Ok (a, []).
Proof. by destruct fuel. Qed.

Lemma readAddons_flow f :
  (Z.of_nat (length f) <= maxAlloc)%Z → readAddons (u8 10 :: PutUvarint (Z.of_nat (length f)) ++ f) = Ok (mkAddons f []).
Proof.
  intros Hf. unfold readAddons. cbn [length read_addons]. rewrite decide_True by (by rewrite val_u8_small).
  erewrite rbind_step; [|rewrite <-(app_nil_r f) at 2; by apply read_field_app].
  by rewrite read_addons_nil.
Qed.

Section props.
Context {Addr : Type} `{AddrSerializer Addr} {plain : Addr → Prop} `{!AddrSerializerLaws Addr plain}.
Context (UvarintLen : Z → nat) (no_addr : Addr).
(** [varbin.UvarintLen] is the number of bytes [PutUvarint] takes. *)
Context (HUvarintLen : ∀ n, (0 <= n)%Z → UvarintLen n = length (PutUvarint n)).

Notation Request := (@Request Addr).
Notation addons_len := (addons_len UvarintLen).
Notation write_addons := (write_addons UvarintLen).

Lemma write_addons_length (r : Request) : length (write_addons r) = addons_len r.
Proof using HUvarintLen.
  unfold VlessCodec.write_addons. destruct (decide (0 < addons_len r)) as [Hpos|Hz]; [|simpl; lia].
  unfold VlessCodec.addons_len in *. destruct (decide _); [|lia].
  cbn [length]. rewrite length_app, HUvarintLen by lia. lia.
Qed.

Lemma addons_positive (r : Request) : Flow r ≠ [] → 0 < addons_len r.
Proof. intros Hf. unfold VlessCodec.addons_len. rewrite decide_True by done. lia. Qed.

Lemma addons_none (r : Request) : Flow r = [] → addons_len r = 0.
Proof. intros Hf. unfold VlessCodec.addons_len. rewrite decide_False; [done|]. by intros ?. Qed.

(** Reading the addons a writer wrote gives the flow. *)
Lemma read_written_addons (r : Request) s :
  addons_len r < 256 →
  (let! addonsLen := read_byte in
   if decide (0 < val addonsLen)%Z
   then (let! addonsBytes := read_full (Z.to_nat (val addonsLen)) in
         match readAddons addonsBytes with Ok a => rret (ad_Flow a) | Err e => rfail e end)
   else rret []) (u8 (Z.of_nat (addons_len r)) :: write_addons r ++ s) = Ok (Flow r, s).
Proof using HUvarintLen.
  intros Hlt. pose proof (write_addons_length r) as Hlen. erewrite rbind_step; [|apply read_byte_cons].
  rewrite val_u8_small by lia. destruct (decide (Flow r = [])) as [Hf|Hf].
  - rewrite (addons_none r Hf) in *. rewrite Hf. by apply nil_length_inv in Hlen as ->.
  - pose proof (addons_positive r Hf) as Hpos. rewrite decide_True by lia. rewrite Nat2Z.id, <-Hlen.
    erewrite rbind_step; [|apply read_full_app]. unfold VlessCodec.write_addons. rewrite decide_True by done.
    rewrite readAddons_flow; [done|]. unfold maxAlloc. unfold VlessCodec.addons_len in *. rewrite decide_True in Hlt by done. lia.
Qed.

(** The request a reader can tell: a mux request has no destination. *)
Definition on_wire (r : Request) : Request :=
  if decide (val (Command r) ≠ CommandMux) then r else mkRequest (UUID r) (Command r) no_addr (Flow r).

Lemma read_written_request (r : Request) e rest :
  length (UUID r) = 16 → addons_len r < 256 → (val (Command r) ≠ CommandMux → plain (Destination r)) →
  EncodeRequest UvarintLen r = Ok e → ReadRequest no_addr (e ++ rest) = Ok (on_wire r, rest).
Proof using All.
  intros Hu Ha Hp He. unfold EncodeRequest in He. destruct (write_destination r) as [d|] eqn:Hd; [|done].
  injection He as <-. unfold ReadRequest, read_version. cbn [app]. repeat (rewrite <-app_assoc; cbn [app]).
  erewrite rbind_step; [|apply read_byte_cons]. rewrite decide_False by (rewrite val_u8_small; lia).
  erewrite rbind_step; [|rewrite <-Hu; apply read_full_app].
  (* the length of the addons and the addons *)
  assert (∀ B (k : bytes → reader B) s, addons_len r < 256 →
    (let! addonsLen := read_byte in
     let! flow := (if decide (0 < val addonsLen)%Z
       then (let! addonsBytes := read_full (Z.to_nat (val addonsLen)) in
             match readAddons addonsBytes with Ok a => rret (ad_Flow a) | Err e => rfail e end)
       else rret []) in k flow) (u8 (Z.of_nat (addons_len r)) :: write_addons r ++ s) = k (Flow r) s) as Hadd.
  { intros B k s Hlt. pose proof (read_written_addons r s Hlt) as Hr. unfold rbind at 1 in Hr.
    cbn [read_byte] in Hr. unfold rbind at 1. cbn [read_byte]. by apply rbind_step. }
  rewrite Hadd by done. erewrite rbind_step; [|apply read_byte_cons]. unfold write_destination in Hd. unfold on_wire.
  destruct (decide _) as [Hm|Hm].
  - erewrite rbind_step; [|by eapply read_written; [apply Hp|]]. by destruct r.
  - by injection Hd as <-.
Qed.

(** C24: a VLESS request survives the wire.  What [WriteRequest] writes is the
    encoded header followed by the payload, exactly as many bytes as its
    buffer and [RequestLen] were computed for; [ReadRequest] reads back the
    same user, flow, command and destination, and leaves the payload for the
    connection.  The flow must fit the one-byte length of the addons. *)
Theorem vless_request_roundtrip (r : Request) payload n b :
  length (UUID r) = 16 → addons_len r < 256 → (val (Command r) ≠ CommandMux → plain (Destination r)) →
  WriteRequest UvarintLen r payload = (n, Ok b) →
  ReadRequest no_addr b = Ok (on_wire r, payload) ∧ length b = n ∧ n = RequestLen UvarintLen r + length payload ∧
  ∃ e, EncodeRequest UvarintLen r = Ok e ∧ b = e ++ payload ∧ length e = RequestLen UvarintLen r.
Proof using All.
  intros Hu Ha Hp Hw. unfold WriteRequest in Hw. destruct (write_destination r) as [d|] eqn:Hd; [|by injection Hw].
  injection Hw as <- <-.
  assert (length d = if decide (val (Command r) ≠ CommandMux) then AddrPortLen (Destination r) else 0) as Hdl.
  { unfold write_destination in Hd. destruct (decide _); [by apply (write_length (plain:=plain))|by injection Hd as <-]. }
  pose proof (write_addons_length r) as Hal.
  set (header := [u8 0] ++ UUID r ++ [u8 (Z.of_nat (addons_len r))] ++ write_addons r ++ [Command r]).
  assert (length header = 1 + 16 + 1 + addons_len r + 1) as Hh.
  { unfold header. rewrite !length_app, Hu, Hal. simpl. lia. }
  assert (EncodeRequest UvarintLen r = Ok (header ++ d)) as He by by unfold EncodeRequest; rewrite Hd.
  split; [|split; [|split]].
  - pose proof (read_written_request r (header ++ d) payload Hu Ha Hp He) as Hr. rewrite <-app_assoc in Hr. exact Hr.
  - change (length (header ++ d ++ payload) = 1 + 16 + 1 + addons_len r + 1
      + (if decide (val (Command r) ≠ CommandMux) then AddrPortLen (Destination r) else 0) + length payload).
    rewrite !length_app, Hh, Hdl. lia.
  - unfold RequestLen. done.
  - exists (header ++ d). split; [done|]. split; [exact (app_assoc header d payload)|]. rewrite length_app, Hh, Hdl. done.
Qed.

(** An unauthenticated client can crash the server.  The length of a field
    of the addons is taken from the request and allocated before it is
    compared with the bytes that are there: a header of 29 bytes, with any
    UUID, makes the reader panic, and no user has to exist. *)
Lemma vless_header_can_panic uuid rest :
  length uuid = 16 →
  ReadRequest (Addr:=Addr) no_addr (u8 0 :: uuid ++ u8 11 :: u8 10 :: PutUvarint (2 ^ 63) ++ rest) =
    Err (EPanic "makeslice: len out of range").
Proof.
  intros Hu. unfold ReadRequest, read_version. erewrite rbind_step; [|apply read_byte_cons].
  rewrite decide_False by (rewrite val_u8_small; lia). erewrite rbind_step; [|rewrite <-Hu; apply read_full_app].
  erewrite rbind_step; [|apply read_byte_cons]. rewrite val_u8_small by lia. rewrite decide_True by lia.
  assert (length (PutUvarint (2 ^ 63)) = 10) as Hl by (vm_compute; reflexivity).
  assert (readAddons (u8 10 :: PutUvarint (2 ^ 63)) = Err (EPanic "makeslice: len out of range")) as Hr
    by (vm_compute; reflexivity).
  unfold rbind at 1 2. change (u8 10 :: PutUvarint (2 ^ 63) ++ rest) with ((u8 10 :: PutUvarint (2 ^ 63)) ++ rest).
  replace (Z.to_nat 11) with (length (u8 10 :: PutUvarint (2 ^ 63))) by (cbn [length]; rewrite Hl; done).
  rewrite read_full_app, Hr. done.
Qed.
End props.
