(* ===== verification/Vision.v ===== *)
(** * The vision flow

    Model of local-modules/sing-vmess/vless/vision.go and constant.go: the
    padded frames of the first records of a connection, the filter that
    recognises TLS 1.3, and the decision to leave the tunnel.  A slice is its
    visible bytes with the bytes between its length and its capacity, which Go
    lets a slice expression reach; beyond the capacity it panics. *)
From S2P Require Import Prelude Bytes VlessCodec.

Record slice := mkSlice { seen : bytes; spare : bytes }.

(** [b[i:i+n]]. *)
Definition subslice (b : slice) (i n : nat) : result bytes :=
  if decide (i + n <= length (seen b) + length (spare b)) then Ok (take n (drop i (seen b ++ spare b)))
  else Err (EPanic "slice bounds out of range").

Definition bytes_of (l : list Z) : bytes := u8 <$> l.
Definition tls13SupportedVersions : bytes := bytes_of [0; 43; 0; 2; 3; 4]%Z.
Definition tlsApplicationDataStart : bytes := bytes_of [23; 3; 3]%Z.

Definition commandPaddingContinue : Z := 0.
Definition commandPaddingEnd : Z := 1.
Definition commandPaddingDirect : Z := 2.

(** The keys of [tls13CipherSuiteDic] but for the suite that is excluded. *)
Definition xtls_cipher (c : Z) : bool := bool_decide (4865 <= c <= 4868)%Z.

(** [bytes.Contains] and [bytes.LastIndex]. *)
Fixpoint starts_with (sub s : bytes) : bool :=
  match sub, s with
  | [], _ => true
  | a :: sub, b :: s => bool_decide (a = b) && starts_with sub s
  | _ :: _, [] => false
  end.
Fixpoint contains (sub s : bytes) : bool :=
  starts_with sub s || match s with [] => false | _ :: s => contains sub s end.
Fixpoint last_index (sub s : bytes) : option nat :=
  match s with
  | [] => if starts_with sub [] then Some 0 else None
  | _ :: s' =>
      match last_index sub s' with
      | Some i => Some (S i)
      | None => if starts_with sub s then Some 0 else None
      end
  end.

(** The fields of [VisionConn] that are not connections. *)
Record VisionConn := mkVision {
  userUUID : bytes;
  isTLS : bool;
  numberOfPacketToFilter : Z;
  isTLS12orAbove : bool;
  remainingServerHello : Z;
  cipher : Z;
  enableXTLS : bool;
  isPadding : bool;
  directWrite : bool;
  writeUUID : bool;
  withinPaddingBuffers : bool;
  remainingContent : Z;
  remainingPadding : Z;
  currentCommand : Z;
  directRead : bool;
}.

(** [NewVisionConn], once the TLS connection is recognised. *)
Definition NewVisionConn (uuid : bytes) : VisionConn :=
  mkVision uuid false 8 false (-1) 0 false true false true true (-1) (-1) 0 false.

(** ** The filter *)

Definition with_filter (tls tls12 : bool) (hello ciph : Z) (xtls : bool) (n : Z) (c : VisionConn) : VisionConn :=
  mkVision (userUUID c) tls n tls12 hello ciph xtls (isPadding c) (directWrite c) (writeUUID c)
           (withinPaddingBuffers c) (remainingContent c) (remainingPadding c) (currentCommand c) (directRead c).

Definition byte_at (b : slice) (i : nat) : Z := default 0%Z (val <$> (seen b !! i)).

(** The first half of an iteration: is this the start of a handshake? *)
Definition filter_start (b : slice) (c : VisionConn) : result VisionConn :=
  let n := (numberOfPacketToFilter c - 1)%Z in
  let skip := with_filter (isTLS c) (isTLS12orAbove c) (remainingServerHello c) (cipher c) (enableXTLS c) n c in
  if decide (6 < length (seen b)) then
    if bool_decide (byte_at b 0 = 22 ∧ byte_at b 1 = 3 ∧ byte_at b 2 = 3)%Z then
      if decide (byte_at b 5 = 2)%Z then
        let hello := (Z.lor (Z.shiftl (byte_at b 3) 8) (byte_at b 4) + 5)%Z in
        if bool_decide (79 <= length (seen b)) && bool_decide (79 <= hello)%Z then
          let sessionIdLen := Z.to_nat (byte_at b 43) in
          let? cipherSuite := subslice b (43 + sessionIdLen + 1) 2 in
          let ciph := match cipherSuite with [x; y] => Z.lor (Z.shiftl (val x) 8) (val y) | _ => 0%Z end in
          Ok (with_filter true true hello ciph (enableXTLS c) n c)
        else Ok (with_filter true true hello (cipher c) (enableXTLS c) n c)
      else Ok (with_filter true (isTLS12orAbove c) (remainingServerHello c) (cipher c) (enableXTLS c) n c)
    else if bool_decide (byte_at b 0 = 22 ∧ byte_at b 1 = 3 ∧ byte_at b 5 = 1)%Z
    then Ok (with_filter true (isTLS12orAbove c) (remainingServerHello c) (cipher c) (enableXTLS c) n c)
    else Ok skip
  else Ok skip.

(** The second half: the rest of a server hello; the flag is the early return. *)
Definition filter_hello (b : slice) (c : VisionConn) : VisionConn * bool :=
  if decide (0 < remainingServerHello c)%Z then
    let e := Z.min (remainingServerHello c) (Z.of_nat (length (seen b))) in
    let hello := (remainingServerHello c - e)%Z in
    if contains tls13SupportedVersions (take (Z.to_nat e) (seen b))
    then (with_filter (isTLS c) (isTLS12orAbove c) hello (cipher c) (xtls_cipher (cipher c) || enableXTLS c) 0 c, true)
    else if decide (hello = 0)%Z
    then (with_filter (isTLS c) (isTLS12orAbove c) hello (cipher c) (enableXTLS c) 0 c, true)
    else (with_filter (isTLS c) (isTLS12orAbove c) hello (cipher c) (enableXTLS c) (numberOfPacketToFilter c) c, false)
  else (c, false).

(** [filterTLS]. *)
Fixpoint filterTLS (buffers : list slice) (c : VisionConn) : result VisionConn :=
  match buffers with
  | [] => Ok c
  | b :: buffers =>
      let? c := filter_start b c in
      match filter_hello b c with
      | (c, true) => Ok c
      | (c, false) => filterTLS buffers c
      end
  end.

(** ** Writing *)

(** [reshapeBuffer]. *)
Definition reshapeBuffer (b : bytes) : list bytes :=
  if decide (Z.of_nat (length b) < 8192 - 21)%Z then [b]
  else
    let index := match last_index tlsApplicationDataStart b with
                 | Some (S i) => S i
                 | _ => Z.to_nat (8192 / 2)
                 end in
    [take index b; drop index b].

(** The length of the padding for a random number, which is below 500 or 256. *)
Definition padding_len (tls : bool) (contentLen : nat) (random : Z) : Z :=
  if bool_decide (contentLen < 900) && tls then (random + 900 - Z.of_nat contentLen)%Z else random.

(** The frame of one buffer; [junk] are the bytes the padding happens to have. *)
Definition frame (command contentLen paddingLen : Z) (content junk : bytes) : bytes :=
  [u8 command; u8 (Z.shiftr contentLen 8); u8 contentLen; u8 (Z.shiftr paddingLen 8); u8 paddingLen] ++ content ++ junk.

Definition set_writeUUID (v : bool) (c : VisionConn) : VisionConn :=
  mkVision (userUUID c) (isTLS c) (numberOfPacketToFilter c) (isTLS12orAbove c) (remainingServerHello c) (cipher c)
           (enableXTLS c) (isPadding c) (directWrite c) v (withinPaddingBuffers c) (remainingContent c)
           (remainingPadding c) (currentCommand c) (directRead c).

(** [padding], with the random number and the bytes of the padding. *)
Definition padding (content : bytes) (command random : Z) (junk : bytes) (c : VisionConn) : bytes * VisionConn :=
  let paddingLen := padding_len (isTLS c) (length content) random in
  ((if writeUUID c then userUUID c else [])
     ++ frame command (Z.of_nat (length content)) paddingLen content (take (Z.to_nat paddingLen) junk),
   set_writeUUID false c).

Definition set_writing (pad direct : bool) (c : VisionConn) : VisionConn :=
  mkVision (userUUID c) (isTLS c) (numberOfPacketToFilter c) (isTLS12orAbove c) (remainingServerHello c) (cipher c)
           (enableXTLS c) pad direct (writeUUID c) (withinPaddingBuffers c) (remainingContent c)
           (remainingPadding c) (currentCommand c) (directRead c).

(** The command a buffer is padded with, and whether padding stops there. *)
Definition write_command (b : bytes) (c : VisionConn) : Z * bool * VisionConn :=
  if isTLS c && bool_decide (6 < length b) && starts_with tlsApplicationDataStart b then
    if enableXTLS c then (commandPaddingDirect, true, set_writing false true c)
    else (commandPaddingEnd, true, set_writing false (directWrite c) c)
  else if negb (isTLS12orAbove c) && bool_decide (numberOfPacketToFilter c <= 1)%Z
  then (commandPaddingEnd, true, set_writing false (directWrite c) c)
  else (commandPaddingContinue, false, c).

(** The loop over the buffers: those that go through the tunnel, and those that
    are left as they are when padding stops.  Without a direct command the
    rest goes through the tunnel too. *)
Fixpoint pad_buffers (buffers : list bytes) (randoms : list (Z * bytes)) (c : VisionConn)
    : list bytes * list bytes * VisionConn :=
  match buffers with
  | [] => ([], [], c)
  | b :: buffers =>
      let '(random, junk) := default (0%Z, []) (head randoms) in
      let '(command, stop, c) := write_command b c in
      let '(out, c) := padding b command random junk c in
      if stop then ([out], buffers, c)
      else let '(outs, rest, c) := pad_buffers buffers (tail randoms) c in (out :: outs, rest, c)
  end.

(** [Write]: what goes through the tunnel and what goes to the network below. *)
Definition Write (p : slice) (randoms : list (Z * bytes)) (c : VisionConn) : result (list bytes * list bytes * VisionConn) :=
  let? c := if decide (0 < numberOfPacketToFilter c)%Z then filterTLS [p] c else Ok c in
  Ok (if isPadding c then
        let '(outs, rest, c) := pad_buffers (reshapeBuffer (seen p)) randoms c in
        if directWrite c then (outs, rest, c) else (outs ++ rest, [], c)
      else if directWrite c then ([], [seen p], c) else ([seen p], [], c)).

(** ** Reading *)

Record UnpadState := mkUnpad { us_content : Z; us_padding : Z; us_command : Z }.

(** The loop of [unPadding] over what is left of the buffer.  Every iteration
    takes at least one byte. *)
Fixpoint unpad_loop (fuel : nat) (s spare : bytes) (u : UnpadState) : result (UnpadState * list bytes) :=
  match fuel, s with
  | _, [] => Ok (u, [])
  | 0, _ => Err (EPanic "fuel")
  | S fuel, _ =>
      if bool_decide (us_content u <= 0 ∧ us_padding u <= 0)%Z then
        if decide (us_command u = 1)%Z then Ok (u, [s])
        else
          let? info := subslice (mkSlice s spare) 0 5 in
          match info with
          | [c; a; b; d; e] => unpad_loop fuel (drop 5 s) spare (mkUnpad (of_be16 a b) (of_be16 d e) (val c))
          | _ => Err (EPanic "unreachable")
          end
      else if decide (0 < us_content u)%Z then
        let e := Z.min (us_content u) (Z.of_nat (length s)) in
        let? (u', out) := unpad_loop fuel (drop (Z.to_nat e) s) spare
                            (mkUnpad (us_content u - e) (us_padding u) (us_command u)) in
        Ok (u', take (Z.to_nat e) s :: out)
      else
        let e := Z.min (us_padding u) (Z.of_nat (length s)) in
        unpad_loop fuel (drop (Z.to_nat e) s) spare (mkUnpad (us_content u) (us_padding u - e) (us_command u))
  end.

(** [unPadding]. *)
Definition unPadding (uuid : bytes) (b : slice) (u : UnpadState) : result (UnpadState * list bytes) :=
  let idle (u : UnpadState) := bool_decide (us_content u = -1 ∧ us_padding u = -1)%Z in
  let '(s, u) :=
    if idle u && bool_decide (21 <= length (seen b)) && bool_decide (take 16 (seen b) = uuid)
    then (drop 16 (seen b), mkUnpad 0 0 0) else (seen b, u) in
  if idle u then Ok (u, [seen b]) else unpad_loop (length s) s (spare b) u.

Definition set_reading (within direct : bool) (u : UnpadState) (c : VisionConn) : VisionConn :=
  mkVision (userUUID c) (isTLS c) (numberOfPacketToFilter c) (isTLS12orAbove c) (remainingServerHello c) (cipher c)
           (enableXTLS c) (isPadding c) (directWrite c) (writeUUID c) within
           (us_content u) (us_padding u) (us_command u) direct.

(** The part of [Read] between a read from the tunnel and the buffers handed to
    the caller; [input] and [rawInput] are what the TLS layer has buffered, and
    [own] copies bytes to a buffer with a capacity of its own. *)
Definition read_chunk (own : bytes → slice) (b : slice) (input rawInput : bytes) (c : VisionConn) : result (list bytes * VisionConn) :=
  if withinPaddingBuffers c || bool_decide (0 < numberOfPacketToFilter c)%Z then
    let? (u, buffers) := unPadding (userUUID c) b (mkUnpad (remainingContent c) (remainingPadding c) (currentCommand c)) in
    let? (buffers, c) :=
      if bool_decide (us_content u = 0 ∧ us_padding u = 0)%Z then
        if decide (us_command u = commandPaddingEnd)
        then Ok (buffers, set_reading false (directRead c) (mkUnpad (-1) (-1) (us_command u)) c)
        else if decide (us_command u = commandPaddingDirect)
        then Ok (buffers ++ [input; rawInput], set_reading false true u c)
        else if decide (us_command u = commandPaddingContinue)
        then Ok (buffers, set_reading true (directRead c) u c)
        else Err (ENew "unknown command")
      else if bool_decide (0 < us_content u ∨ 0 < us_padding u)%Z
      then Ok (buffers, set_reading true (directRead c) u c)
      else Ok (buffers, set_reading false (directRead c) u c) in
    let? c := if decide (0 < numberOfPacketToFilter c)%Z
              then filterTLS (own <$> buffers) c else Ok c in
    Ok (buffers, c)
  else Ok ([seen b], c).
