(* ===== verification/VisionProps.v ===== *)
(** * Properties of the vision flow

    A byte-at-a-time decoder is the reference: [unPadding] agrees with it on
    every chunk that does not end inside a frame header, and panics on one
    that does and fills its buffer.  What [Write] sends, in whatever chunks it
    arrives, is what [Read] hands out, under the conditions stated there. *)
From S2P Require Import Prelude Bytes VlessCodec Vision.

(** ** The reference decoder *)

Inductive mode :=
| MHeader (last : Z) (h : bytes) (** the command before, the bytes of a header so far *)
| MBody (command content padding : Z)
| MRaw.                        (** after the frame that ends the padding *)
#[export] Instance mode_eq_dec : EqDecision mode.
Proof. solve_decision. Defined.

Definition settle (command content padding : Z) : mode :=
  if bool_decide (content <= 0 ∧ padding <= 0)%Z then if decide (command = 1)%Z then MRaw else MHeader command []
  else MBody command content padding.

Definition ref_step (m : mode) (b : byte) : mode * bytes :=
  match m with
  | MRaw => (MRaw, [b])
  | MHeader last h =>
      match h ++ [b] with
      | [c; x; y; d; e] => (settle (val c) (of_be16 x y) (of_be16 d e), [])
      | h' => (MHeader last h', [])
      end
  | MBody command content padding =>
      if decide (0 < content)%Z then (settle command (content - 1) padding, [b])
      else (settle command content (padding - 1), [])
  end.

Fixpoint ref_run (m : mode) (s : bytes) : mode * bytes :=
  match s with
  | [] => (m, [])
  | b :: s => let '(m, o) := ref_step m b in let '(m', o') := ref_run m s in (m', o ++ o')
  end.

Definition in_header (m : mode) : bool := match m with MHeader _ (_ :: _) => true | _ => false end.
Definition mode_of (u : UnpadState) : mode := settle (us_command u) (us_content u) (us_padding u).

Lemma ref_run_app m s1 s2 :
  ref_run m (s1 ++ s2) = let '(m1, o1) := ref_run m s1 in let '(m2, o2) := ref_run m1 s2 in (m2, o1 ++ o2).
Proof.
  revert m. induction s1 as [|b s1 IH]; intros m; cbn [app ref_run]; [by destruct (ref_run m s2)|].
  destruct (ref_step m b) as [m1 o1]. rewrite IH. destruct (ref_run m1 s1) as [m2 o2].
  destruct (ref_run m2 s2) as [m3 o3]. by rewrite app_assoc.
Qed.

Lemma settle_body command content padding :
  (0 < content ∨ 0 < padding)%Z → settle command content padding = MBody command content padding.
Proof. intros Hp. unfold settle. rewrite bool_decide_false; [done|]. lia. Qed.

Lemma ref_run_content command content padding s :
  (Z.of_nat (length s) <= content)%Z → (0 < content)%Z →
  ref_run (MBody command content padding) s = (settle command (content - Z.of_nat (length s)) padding, s).
Proof.
  revert content. induction s as [|b s IH]; intros content Hl Hc; cbn [ref_run length].
  { rewrite Z.sub_0_r, settle_body by lia. done. }
  cbn [ref_step]. rewrite decide_True by done. cbn [length] in Hl.
  destruct s as [|b' s].
  { cbn [ref_run length app]. do 3 f_equal. }
  rewrite settle_body by (cbn [length] in Hl; lia). rewrite IH by (cbn [length] in *; lia).
  cbn [app]. do 2 f_equal. cbn [length]. lia.
Qed.

Lemma ref_run_padding command content padding s :
  (Z.of_nat (length s) <= padding)%Z → (content <= 0)%Z → (0 < padding)%Z →
  ref_run (MBody command content padding) s = (settle command content (padding - Z.of_nat (length s)), []).
Proof.
  revert padding. induction s as [|b s IH]; intros padding Hl Hc Hp; cbn [ref_run length].
  { rewrite Z.sub_0_r, settle_body by lia. done. }
  cbn [ref_step]. rewrite decide_False by lia. cbn [length] in Hl.
  destruct s as [|b' s].
  { cbn [ref_run length app]. do 3 f_equal. }
  rewrite settle_body by (cbn [length] in Hl; lia). rewrite IH by (cbn [length] in *; lia).
  cbn [app]. do 2 f_equal. cbn [length]. lia.
Qed.

Lemma ref_run_header last c x y d e s :
  ref_run (MHeader last []) (c :: x :: y :: d :: e :: s) = ref_run (settle (val c) (of_be16 x y) (of_be16 d e)) s.
Proof. cbn [ref_run ref_step app]. by destruct (ref_run _ s). Qed.

Lemma ref_run_raw s : ref_run MRaw s = (MRaw, s).
Proof. induction s as [|b s IH]; [done|]. cbn [ref_run ref_step]. by rewrite IH. Qed.

(** ** Equivalence *)

Definition unpad_ok (u : UnpadState) : Prop := (0 <= us_content u ∧ 0 <= us_padding u)%Z.

Lemma mode_of_whole u : in_header (mode_of u) = false.
Proof. unfold mode_of, settle. destruct (bool_decide _); [destruct (decide _)|]; done. Qed.

(** What an iteration takes of the content, or of the padding. *)
Lemma ref_run_take_content command content padding t :
  (0 < content)%Z → let e := Z.to_nat (Z.min content (Z.of_nat (length t))) in
  ref_run (MBody command content padding) t =
    let '(m, o) := ref_run (settle command (content - Z.min content (Z.of_nat (length t))) padding) (drop e t) in
    (m, take e t ++ o).
Proof.
  intros Hc e. rewrite <-(take_drop e t) at 1. rewrite ref_run_app.
  assert (length (take e t) = e) as Hlen by (rewrite length_take; lia).
  rewrite ref_run_content by lia. rewrite Hlen. unfold e at 1. by rewrite Z2Nat.id by lia.
Qed.

Lemma ref_run_take_padding command content padding t :
  (content <= 0)%Z → (0 < padding)%Z → let e := Z.to_nat (Z.min padding (Z.of_nat (length t))) in
  ref_run (MBody command content padding) t =
    ref_run (settle command content (padding - Z.min padding (Z.of_nat (length t)))) (drop e t).
Proof.
  intros Hc Hp e. rewrite <-(take_drop e t) at 1. rewrite ref_run_app.
  assert (length (take e t) = e) as Hlen by (rewrite length_take; lia).
  rewrite ref_run_padding by lia. rewrite Hlen. unfold e at 1. rewrite Z2Nat.id by lia. by destruct (ref_run _ _).
Qed.

(** The loop against the reference, with and without spare capacity. *)
Lemma unpad_loop_reference fuel s spare u :
  length s <= fuel → unpad_ok u →
  if in_header (ref_run (mode_of u) s).1
  then spare = [] → unpad_loop fuel s spare u = Err (EPanic "slice bounds out of range")
  else ∃ u' out, unpad_loop fuel s spare u = Ok (u', out) ∧ unpad_ok u' ∧
         ref_run (mode_of u) s = (mode_of u', concat out).
Proof.
  revert s u. induction fuel as [|fuel IH]; intros s u Hl [Hc Hp].
  { destruct s; [|simpl in Hl; lia]. cbn [ref_run fst]. rewrite mode_of_whole. by exists u, []. }
  destruct s as [|b s]; [cbn [ref_run fst]; rewrite mode_of_whole; by exists u, []|].
  cbn [unpad_loop]. set (t := b :: s) in *. assert (0 < length t) as Ht0 by (unfold t; cbn [length]; lia).
  clearbody t. unfold mode_of at 1 2, settle at 1 2.
  destruct (bool_decide_reflect (us_content u <= 0 ∧ us_padding u <= 0)%Z) as [Hdone|Hbody].
  { destruct (decide (us_command u = 1)%Z) as [Hcmd|Hcmd].
    { rewrite ref_run_raw. cbn [fst in_header]. exists u, [t]. split; [done|]. split; [done|].
      unfold mode_of, settle. rewrite bool_decide_true by done. rewrite decide_True by done. cbn [concat]. by rewrite app_nil_r. }
    unfold subslice. cbn [seen Vision.spare]. destruct (decide (5 <= length t)) as [H5|H5].
    - destruct t as [|c [|x [|y [|d [|e t']]]]]; try (cbn [length] in H5; lia).
      rewrite decide_True by (cbn [length] in *; lia). cbn [drop app take result_bind]. rewrite ref_run_header.
      apply (IH t' (mkUnpad (of_be16 x y) (of_be16 d e) (val c))); [cbn [length] in Hl; lia|].
      split; cbn; apply of_be16_range.
    - assert (in_header (ref_run (MHeader (us_command u) []) t).1 = true) as ->.
      { destruct t as [|c [|x [|y [|d [|e t']]]]]; try done; cbn [length] in *; lia. }
      intros ->. rewrite decide_False by (cbn [length]; lia). done. }
  destruct (decide (0 < us_content u)%Z) as [Hcont|Hcont].
  - rewrite ref_run_take_content by done. set (e := Z.min (us_content u) (Z.of_nat (length t))).
    specialize (IH (drop (Z.to_nat e) t) (mkUnpad (us_content u - e) (us_padding u) (us_command u))).
    unfold mode_of at 1 2 in IH. cbn [us_command us_content us_padding] in IH. destruct (ref_run _ _) as [m' o']. cbn [fst] in *.
    specialize (IH ltac:(rewrite length_drop; lia) ltac:(split; cbn; lia)). destruct (in_header m').
    + intros Hs. by rewrite (IH Hs).
    + destruct IH as (u' & out & -> & Hu' & [= -> ->]). cbn [result_bind]. by exists u', (take (Z.to_nat e) t :: out).
  - rewrite ref_run_take_padding by lia. set (e := Z.min (us_padding u) (Z.of_nat (length t))).
    apply (IH (drop (Z.to_nat e) t) (mkUnpad (us_content u) (us_padding u - e) (us_command u))).
    + rewrite length_drop. lia.
    + split; cbn; lia.
Qed.

Lemma unPadding_running uuid b u :
  unpad_ok u → unPadding uuid b u = unpad_loop (length (seen b)) (seen b) (spare b) u.
Proof.
  intros Hu. unfold unPadding. rewrite (bool_decide_false (us_content u = -1 ∧ us_padding u = -1)%Z) by (destruct Hu; lia).
  cbn [andb]. rewrite bool_decide_false by (destruct Hu; lia). done.
Qed.

(** C26: [unPadding] agrees with decoding byte by byte.  In the middle of a
    padded stream, a chunk that does not end inside a frame header is decoded
    to exactly what the reference decodes from its bytes, and leaves the same
    state, whatever lies beyond the chunk; a chunk that ends inside a header
    and fills its buffer panics. *)
Theorem unPadding_agrees_with_reference uuid b u :
  unpad_ok u →
  if in_header (ref_run (mode_of u) (seen b)).1
  then spare b = [] → unPadding uuid b u = Err (EPanic "slice bounds out of range")
  else ∃ u' out, unPadding uuid b u = Ok (u', out) ∧ unpad_ok u' ∧
         ref_run (mode_of u) (seen b) = (mode_of u', concat out).
Proof.
  intros Hu. rewrite unPadding_running by done. by apply unpad_loop_reference.
Qed.

(** ** Round trip *)

(** No chunk ends inside a header. *)
Definition whole_headers (m : mode) (chunks : list slice) : Prop :=
  ∀ k, in_header (ref_run m (concat (seen <$> take k chunks))).1 = false.

Lemma whole_headers_cons m b chunks :
  whole_headers m (b :: chunks) →
  in_header (ref_run m (seen b)).1 = false ∧ whole_headers (ref_run m (seen b)).1 chunks.
Proof.
  intros Hw. split.
  - specialize (Hw 1). cbn in Hw. by rewrite app_nil_r in Hw.
  - intros k. specialize (Hw (S k)). cbn [take fmap list_fmap concat] in Hw. rewrite ref_run_app in Hw.
    destruct (ref_run m (seen b)) as [m1 o1]. cbn [fst]. destruct (ref_run m1 _). exact Hw.
Qed.

(** *** Clean streams *)

(** Wherever a stream is cut between frames, the frame before was one that is
    continued, or the stream ends there with a direct command. *)
Definition clean (m : mode) (t : bytes) : Prop :=
  ∀ p q, t = p ++ q → ∀ k, (ref_run m p).1 = MHeader k [] → k = 0%Z ∨ (k = 2%Z ∧ q = []).

Lemma clean_drop m p q : clean m (p ++ q) → clean (ref_run m p).1 q.
Proof.
  intros Hc p' q' -> k Hk. apply (Hc (p ++ p') q'); [by rewrite app_assoc|]. rewrite ref_run_app.
  destruct (ref_run m p) as [m1 o1]. cbn [fst] in Hk. by destruct (ref_run m1 p').
Qed.

Lemma clean_app m t t2 :
  clean m t → (ref_run m t).1 = MRaw ∨ ((ref_run m t).1 = MHeader 0 [] ∧ clean (MHeader 0 []) t2) → clean m (t ++ t2).
Proof.
  intros Ht Hnext p q Hpq k Hk. destruct (app_eq_inv _ _ _ _ Hpq) as [(l & -> & ->)|(l & -> & ->)].
  2: { rewrite ref_run_app in Hk. destruct (ref_run m t) as [m1 o1]. cbn [fst] in Hnext.
    destruct Hnext as [->|[-> Hc]].
    + rewrite ref_run_raw in Hk. done.
    + apply (Hc l q eq_refl k). by destruct (ref_run (MHeader 0 []) l). }
  destruct (Ht p l eq_refl k Hk) as [?|[-> ->]]; [by left|]. exfalso. rewrite app_nil_r in Hnext.
  destruct Hnext as [Hn|[Hn _]]; rewrite Hn in Hk; done.
Qed.

(** Before its end a body has not settled. *)
Lemma ref_run_inside command s : ∀ content padding,
  (0 <= content)%Z → (0 <= padding)%Z → (Z.of_nat (length s) < content + padding)%Z →
  ∃ c p, (ref_run (settle command content padding) s).1 = MBody command c p.
Proof.
  induction s as [|b s IH]; intros content padding Hc Hp Hl; rewrite settle_body by (cbn [length] in Hl; lia).
  { by eexists _, _. }
  cbn [ref_run ref_step length] in *. destruct (decide (0 < content)%Z).
  - destruct (IH (content - 1)%Z padding) as (c & p & Hr); [lia..|]. exists c, p. by destruct (ref_run _ s).
  - destruct (IH content (padding - 1)%Z) as (c & p & Hr); [lia..|]. exists c, p. by destruct (ref_run _ s).
Qed.

(** ** The writer *)

(** What the environment draws for a frame. *)
Definition good_random (r : Z * bytes) : Prop := (0 <= r.1 < 500)%Z ∧ 1400 <= length r.2.

Lemma padding_len_range tls n random : (0 <= random < 500)%Z → (0 <= padding_len tls n random < 1400)%Z.
Proof. intros Hr. unfold padding_len. destruct (bool_decide_reflect (n < 900)), tls; simpl; lia. Qed.

(** A frame is decoded to its content. *)
Lemma ref_run_frame command content pad :
  (0 <= command < 256)%Z → (Z.of_nat (length content) < 65536)%Z → (Z.of_nat (length pad) < 65536)%Z →
  ref_run (MHeader 0 []) (frame command (Z.of_nat (length content)) (Z.of_nat (length pad)) content pad) =
    (settle command 0 0, content).
Proof.
  intros Hcmd Hc Hp. unfold frame. cbn [app]. rewrite ref_run_header, !of_be16_be16, val_u8_small, !Z.mod_small by lia.
  rewrite ref_run_app. destruct (decide (length content = 0)) as [Hz|Hz].
  - apply nil_length_inv in Hz as ->. cbn [ref_run length Z.of_nat].
    destruct (decide (length pad = 0)) as [Hz'|Hz']; [by apply nil_length_inv in Hz' as ->|].
    rewrite settle_body, ref_run_padding by lia. by rewrite Z.sub_diag.
  - rewrite settle_body, ref_run_content by lia. rewrite Z.sub_diag.
    destruct (decide (length pad = 0)) as [Hz'|Hz'].
    + apply nil_length_inv in Hz' as ->. cbn [ref_run length Z.of_nat]. by rewrite app_nil_r.
    + rewrite settle_body, ref_run_padding by lia. by rewrite Z.sub_diag, app_nil_r.
Qed.

Lemma frame_clean command content pad :
  (0 <= command <= 2)%Z → (Z.of_nat (length content) < 65536)%Z → (Z.of_nat (length pad) < 65536)%Z →
  clean (MHeader 0 []) (frame command (Z.of_nat (length content)) (Z.of_nat (length pad)) content pad).
Proof.
  intros Hcmd Hc Hp p q Hpq k Hk. set (f := frame _ _ _ _ _) in *.
  assert (length f = 5 + length content + length pad) as Hf by (unfold f, frame; rewrite !length_app; cbn; lia).
  destruct (decide (q = [])) as [->|Hq].
  { rewrite app_nil_r in Hpq. subst p. unfold f in Hk. rewrite ref_run_frame in Hk by lia. cbn [fst] in Hk. unfold settle in Hk.
    rewrite bool_decide_true in Hk by lia. destruct (decide (command = 1)%Z); [done|]. injection Hk as <-.
    destruct (decide (command = 0)%Z); [by left|right]. split; [lia|done]. }
  left. assert (length p < length f) as Hlt by (rewrite Hpq, length_app; destruct q; cbn; [done|lia]).
  unfold f, frame in Hpq. cbn [app] in Hpq.
  destruct p as [|b1 [|b2 [|b3 [|b4 [|b5 p]]]]]; cbn [app] in Hpq;
    try (cbn in Hk; congruence). injection Hpq as <- <- <- <- <- Hbody.
  rewrite ref_run_header, !of_be16_be16, val_u8_small, !Z.mod_small in Hk by lia.
  destruct (ref_run_inside command p (Z.of_nat (length content)) (Z.of_nat (length pad))) as (c & p' & Hr); [lia|lia|cbn [length] in *; lia|].
  rewrite Hr in Hk. done.
Qed.

(** What [padding] writes, without the UUID that precedes the first frame. *)
Definition uuid_part (c : VisionConn) : bytes := if writeUUID c then userUUID c else [].

Lemma padding_spec content command random junk c :
  (0 <= command <= 2)%Z → (Z.of_nat (length content) < 65536)%Z → good_random (random, junk) →
  ∃ f, padding content command random junk c = (uuid_part c ++ f, set_writeUUID false c) ∧
    ref_run (MHeader 0 []) f = (settle command 0 0, content) ∧ clean (MHeader 0 []) f.
Proof.
  intros Hcmd Hc [Hr Hj]. cbn [fst snd] in *. unfold padding. eexists. split; [done|].
  pose proof (padding_len_range (isTLS c) (length content) random Hr) as Hp. set (n := padding_len _ _ _) in *.
  assert (Z.of_nat (length (take (Z.to_nat n) junk)) = n) as Hl by (rewrite length_take; lia).
  rewrite <-Hl at 1 3. split; [apply ref_run_frame|apply frame_clean]; lia.
Qed.

(** The state of the decoder that matches a writer. *)
Definition expects (c : VisionConn) (m : mode) : Prop :=
  m = if isPadding c then MHeader 0 [] else if directWrite c then MHeader 2 [] else MRaw.

(** What a writer in state [c] sent for some content, in terms of the decoder. *)
Record sends (c c' : VisionConn) (tunnel raw content : bytes) : Prop := {
  sd_uuid : userUUID c' = userUUID c;
  sd_written : writeUUID c' = false;
  sd_rest : isPadding c' = true → raw = [] ∧ directWrite c' = false;
  sd_run : ∃ t o m, tunnel = uuid_part c ++ t ∧ ref_run (MHeader 0 []) t = (m, o) ∧ clean (MHeader 0 []) t ∧
    expects c' m ∧ o ++ raw = content;
}.

Lemma write_command_spec b c command stop c1 :
  isPadding c = true → directWrite c = false → write_command b c = (command, stop, c1) →
  (0 <= command <= 2)%Z ∧ userUUID c1 = userUUID c ∧ writeUUID c1 = writeUUID c ∧ expects c1 (settle command 0 0) ∧
  if stop then isPadding c1 = false else c1 = c.
Proof.
  intros Hp Hd. unfold write_command, expects. destruct (_ && _ && _).
  { destruct (enableXTLS c); intros [= <- <- <-]; cbn; [done|]. by rewrite Hd. }
  destruct (_ && _); intros [= <- <- <-]; cbn; [by rewrite Hd|]. by rewrite Hp.
Qed.

Lemma pad_buffers_sends buffers randoms c outs rest c' :
  isPadding c = true → directWrite c = false → buffers ≠ [] ∨ writeUUID c = false →
  Forall (λ b, Z.of_nat (length b) < 65536)%Z buffers → Forall good_random randoms → length buffers <= length randoms →
  pad_buffers buffers randoms c = (outs, rest, c') → sends c c' (concat outs) (concat rest) (concat buffers).
Proof.
  revert randoms c outs rest c'.
  induction buffers as [|b buffers IH]; intros randoms c outs rest c' Hp Hd Hne Hlen Hgood Hl; cbn [pad_buffers].
  { destruct Hne as [?|Hw]; [done|]. intros [= <- <- <-]. split; [done..|]. exists [], [], (MHeader 0 []).
    unfold uuid_part, expects. rewrite Hw, Hp. split_and!; try done. intros p q Hpq k.
    symmetry in Hpq. apply app_eq_nil in Hpq as [-> ->]. cbn. intros [= <-]. by left. }
  destruct randoms as [|[random junk] randoms]; [cbn [length] in Hl; lia|]. cbn [head default tail].
  apply Forall_cons in Hlen as [Hb Hlen], Hgood as [Hg Hgood].
  destruct (write_command b c) as [[command stop] c1] eqn:Hwc.
  destruct (write_command_spec _ _ _ _ _ Hp Hd Hwc) as (Hcmd & Hu & Hw & Hex & Hstop).
  destruct (padding_spec b command random junk c1 Hcmd Hb Hg) as (f & Hpad & Hrun & Hclean). cbn [default from_option Datatypes.id]. rewrite Hpad.
  assert (uuid_part c1 = uuid_part c) as Hup by (unfold uuid_part; by rewrite Hu, Hw).
  destruct stop.
  { intros [= <- <- <-]. split; [by rewrite <-Hu|done|cbn; congruence|]. exists f, b, (settle command 0 0). cbn [concat].
    rewrite app_nil_r, Hup. by split_and!. }
  subst c1. destruct (pad_buffers buffers randoms (set_writeUUID false c)) as [[outs' rest'] c2] eqn:Hrec. intros [= <- <- <-].
  destruct (IH randoms (set_writeUUID false c) outs' rest' c2) as [Hu2 Hw2 Hrest (t & o & m & Ht & Hr & Hcl & He & Ho)]; try done;
    [by right|cbn [length] in Hl; lia|].
  split; [by rewrite Hu2|done|done|]. exists (f ++ t), (b ++ o), m. cbn [concat]. rewrite Ht.
  split; [by rewrite <-app_assoc|].
  assert (settle command 0 0 = MHeader 0 []) as Hset by (unfold expects in Hex; by rewrite Hp in Hex). rewrite Hset in Hrun.
  split; [by rewrite ref_run_app, Hrun, Hr|]. split; [|split; [done|by rewrite <-app_assoc, Ho]].
  apply clean_app; [done|right]. rewrite Hrun. done.
Qed.

(** The filter only changes its own fields, and panics only on a server hello
    whose buffer ends before the longest session identifier does. *)
Definition roomy (b : slice) : Prop := 79 <= length (seen b) → 301 <= length (seen b) + length (spare b).
Definition filtered (c c' : VisionConn) : Prop := ∃ tls tls12 hello ciph xtls n, c' = with_filter tls tls12 hello ciph xtls n c.

Lemma filtered_trans c1 c2 c3 : filtered c1 c2 → filtered c2 c3 → filtered c1 c3.
Proof. intros (?&?&?&?&?&?&->) (?&?&?&?&?&?&->). by repeat eexists. Qed.

Lemma filtered_refl c : filtered c c.
Proof. destruct c. by repeat eexists. Qed.

Lemma byte_at_range b i : (0 <= byte_at b i < 256)%Z.
Proof. unfold byte_at. destruct (seen b !! i) as [x|]; cbn; [|lia]. apply val_range. Qed.

Lemma filter_start_spec b c :
  match filter_start b c with
  | Ok c' => filtered c c'
  | Err e => e = EPanic "slice bounds out of range" ∧ ¬ roomy b
  end.
Proof.
  unfold filter_start, filtered. destruct (decide _); [|by repeat eexists]. destruct (bool_decide _).
  2: { destruct (bool_decide _); by repeat eexists. }
  destruct (decide _); [|by repeat eexists]. destruct (bool_decide_reflect (79 <= length (seen b))) as [H79|]; cbn [andb];
    [destruct (bool_decide _)|]; [|by repeat eexists..].
  unfold subslice. destruct (decide _) as [|Hcap]; cbn [result_bind]; [by repeat eexists|]. split; [done|].
  intros Hroom. specialize (Hroom H79). pose proof (byte_at_range b 43). lia.
Qed.

Lemma filter_hello_spec b c : filtered c (filter_hello b c).1.
Proof.
  unfold filter_hello, filtered.
  repeat (destruct (decide _) || destruct (contains _ _)); try (by repeat eexists). apply filtered_refl.
Qed.

Lemma filterTLS_spec buffers c :
  match filterTLS buffers c with
  | Ok c' => filtered c c'
  | Err e => e = EPanic "slice bounds out of range" ∧ ¬ Forall roomy buffers
  end.
Proof.
  revert c. induction buffers as [|b buffers IH]; intros c; cbn [filterTLS]; [apply filtered_refl|].
  pose proof (filter_start_spec b c) as Hs. destruct (filter_start b c) as [c1|e]; cbn [result_bind].
  2: { destruct Hs as [-> Hb]. split; [done|]. intros Hall. apply Forall_cons in Hall as [? _]. done. }
  pose proof (filter_hello_spec b c1) as Hh. destruct (filter_hello b c1) as [c2 [|]]; cbn [fst] in Hh;
    [by eapply filtered_trans|]. specialize (IH c2). destruct (filterTLS buffers c2).
  - eauto using filtered_trans.
  - destruct IH as [-> Hn]. split; [done|]. intros Hall. by apply Forall_cons in Hall as [_ ?].
Qed.

(** What the writer keeps. *)
Definition same_io (c c' : VisionConn) : Prop :=
  userUUID c' = userUUID c ∧ isPadding c' = isPadding c ∧ directWrite c' = directWrite c ∧ writeUUID c' = writeUUID c.

Lemma filterTLS_io buffers c c' : filterTLS buffers c = Ok c' → same_io c c'.
Proof. intros Hf. pose proof (filterTLS_spec buffers c) as Hs. rewrite Hf in Hs. by destruct Hs as (?&?&?&?&?&?&->). Qed.

Lemma reshapeBuffer_concat b : concat (reshapeBuffer b) = b.
Proof.
  unfold reshapeBuffer. destruct (decide _); cbn [concat]; rewrite app_nil_r; [done|]. by rewrite take_drop.
Qed.

Lemma reshapeBuffer_small b :
  (Z.of_nat (length b) < 65536)%Z →
  Forall (λ p, Z.of_nat (length p) < 65536)%Z (reshapeBuffer b) ∧ length (reshapeBuffer b) <= 2 ∧ reshapeBuffer b ≠ [].
Proof.
  intros Hb. unfold reshapeBuffer. destruct (decide _); [split; [by repeat constructor|simpl; split; [lia|done]]|].
  split; [|simpl; split; [lia|done]]. repeat constructor; rewrite ?length_take, ?length_drop; lia.
Qed.

(** One [Write], from the state of the decoder that matches the writer. *)
Lemma Write_sends p randoms c tunnel raw c' :
  isPadding c = true → directWrite c = false → (Z.of_nat (length (seen p)) < 65536)%Z →
  Forall good_random randoms → 2 <= length randoms → Write p randoms c = Ok (tunnel, raw, c') →
  sends c c' (concat tunnel) (concat raw) (seen p).
Proof.
  intros Hp Hd Hlen Hgood Hl Hw. unfold Write in Hw. inv_bind Hw.
  assert (same_io c a) as (Hu & Hp1 & Hd1 & Hw1).
  { destruct (decide _); [by eapply filterTLS_io|]. by simplify_eq. }
  rewrite Hp1, Hp in Hw. destruct (pad_buffers _ _ _) as [[outs rest] c1] eqn:Hpad.
  destruct (reshapeBuffer_small _ Hlen) as (Hs & Hn & Hne).
  apply pad_buffers_sends in Hpad; [|congruence|congruence|by left|done|done|lia].
  rewrite reshapeBuffer_concat in Hpad. destruct Hpad as [Hu1 Hwr Hrest (t & o & m & Ht & Hr & Hcl & He & Ho)].
  assert (uuid_part a = uuid_part c) as Hup by (unfold uuid_part; by rewrite Hu, Hw1). rewrite Hup in Ht.
  destruct (directWrite c1) eqn:Hdir; injection Hw as <- <- <-.
  { split; [congruence|done|by rewrite Hdir|]. exists t, o, m. done. }
  split; [congruence|done|done|]. unfold expects in He. rewrite Hdir in He.
  exists (t ++ concat rest), (seen p), m. rewrite concat_app, Ht, <-app_assoc. split; [done|]. split; [|split; [|split]].
  - rewrite ref_run_app, Hr. destruct (isPadding c1) eqn:Hpad1.
    + destruct (Hrest eq_refl) as [Hnil _]. rewrite Hnil, ?app_nil_r in *. cbn [ref_run]. by rewrite ?app_nil_r, Ho.
    + rewrite He, ref_run_raw, Ho. done.
  - destruct (isPadding c1) eqn:Hpad1.
    + destruct (Hrest eq_refl) as [-> _]. by rewrite app_nil_r.
    + apply clean_app; [done|left]. rewrite Hr. exact He.
  - unfold expects. by rewrite Hdir.
  - cbn [concat]. by rewrite app_nil_r.
Qed.

Lemma Write_raw p randoms c tunnel raw c' :
  Write p randoms c = Ok (tunnel, raw, c') → directWrite c' = false → raw = [].
Proof.
  unfold Write. intros Hw. inv_bind Hw. destruct (isPadding a).
  - destruct (pad_buffers _ _ _) as [[outs rest] c1]. destruct (directWrite c1) eqn:Hd; injection Hw as <- <- <-; congruence.
  - destruct (directWrite a) eqn:Hd; injection Hw as <- <- <-; congruence.
Qed.

(** The writes of a connection in order: what went through the tunnel and what
    went below it. *)
Fixpoint write_all (ws : list (slice * list (Z * bytes))) (c : VisionConn) : result (bytes * bytes * VisionConn) :=
  match ws with
  | [] => Ok ([], [], c)
  | (p, randoms) :: ws =>
      let? (tunnel, raw, c) := Write p randoms c in
      let? (tunnel', raw', c) := write_all ws c in
      Ok (concat tunnel ++ tunnel', concat raw ++ raw', c)
  end.

Definition good_write (w : slice * list (Z * bytes)) : Prop :=
  (Z.of_nat (length (seen w.1)) < 65536)%Z ∧ Forall good_random w.2 ∧ 2 <= length w.2.

(** Once padding has stopped, the bytes go as they are. *)
Lemma write_all_plain ws c tunnel raw c' :
  isPadding c = false → write_all ws c = Ok (tunnel, raw, c') →
  (if directWrite c then tunnel = [] ∧ raw = concat (seen <$> ws.*1)
   else tunnel = concat (seen <$> ws.*1) ∧ raw = []).
Proof.
  revert c tunnel raw. induction ws as [|[p randoms] ws IH]; intros c tunnel raw Hp; cbn [write_all fmap list_fmap fst concat].
  { intros [= <- <- <-]. by destruct (directWrite c). }
  intros Hw. inv_bind Hw. destruct a as [[t r] c1]. inv_bind Hw. destruct a as [[t' r'] c2]. injection Hw as <- <- <-.
  unfold Write in E. inv_bind E. rename a into c0.
  assert (same_io c c0) as (_ & Hp0 & Hd0 & _).
  { destruct (decide _); [by eapply filterTLS_io|]. by simplify_eq. }
  rewrite Hp0, Hp, Hd0 in E. assert (isPadding c1 = false ∧ directWrite c1 = directWrite c) as [Hp1 Hd1].
  { destruct (directWrite c); injection E as <- <- <-; by rewrite Hp0, Hd0. }
  specialize (IH c1 t' r' Hp1 E0). rewrite Hd1 in IH.
  destruct (directWrite c); injection E as <- <- <-; destruct IH as [-> ->]; cbn [concat app]; by rewrite ?app_nil_r.
Qed.

Lemma write_all_sends ws c tunnel raw c' :
  isPadding c = true → directWrite c = false → Forall good_write ws → ws ≠ [] ∨ writeUUID c = false →
  write_all ws c = Ok (tunnel, raw, c') →
  ∃ t o m, tunnel = uuid_part c ++ t ∧ ref_run (MHeader 0 []) t = (m, o) ∧ clean (MHeader 0 []) t ∧
    (m ≠ MHeader 2 [] → raw = []) ∧ o ++ raw = concat (seen <$> ws.*1).
Proof.
  revert c tunnel raw. induction ws as [|[p randoms] ws IH]; intros c tunnel raw Hp Hd Hgood Hne; cbn [write_all fmap list_fmap fst concat].
  { destruct Hne as [?|Hw]; [done|]. intros [= <- <- <-]. exists [], [], (MHeader 0 []). unfold uuid_part. rewrite Hw.
    split_and!; try done. intros p q Hpq k. symmetry in Hpq. apply app_eq_nil in Hpq as [-> ->]. cbn. intros [= <-]. by left. }
  apply Forall_cons in Hgood as [(Hl & Hr & Hn) Hgood]. intros Hw. inv_bind Hw. destruct a as [[tn r] c1]. inv_bind Hw.
  destruct a as [[tn' r'] c2]. injection Hw as <- <- <-.
  destruct (Write_sends _ _ _ _ _ _ Hp Hd Hl Hr Hn E) as [_ Hwr Hrest (t & o & m & Ht & Hrun & Hcl & He & Ho)].
  rewrite Ht. destruct (isPadding c1) eqn:Hp1.
  - assert (directWrite c1 = false) as Hd1.
    { by apply Hrest. }
    destruct (Hrest eq_refl) as [Hr0 _]. rewrite Hr0, ?app_nil_r in *. cbn [app].
    destruct (IH c1 tn' r' Hp1 Hd1 Hgood (or_intror Hwr) E0) as (t2 & o2 & m2 & -> & Hrun2 & Hcl2 & Hm2 & Ho2).
    exists (t ++ t2), (o ++ o2), m2. unfold uuid_part at 2. rewrite Hwr. cbn [app].
    unfold expects in He. rewrite Hp1 in He. rewrite ref_run_app, Hrun, He, Hrun2. split; [by rewrite <-app_assoc|].
    split; [done|]. split; [apply clean_app; [done|right; rewrite Hrun; done]|]. split; [done|]. by rewrite <-app_assoc, Ho2, Ho.
  - pose proof (write_all_plain _ _ _ _ _ Hp1 E0) as Hplain. unfold expects in He. rewrite Hp1 in He.
    destruct (directWrite c1) eqn:Hdir; destruct Hplain as [-> ->].
    + exists t, o, m. rewrite app_nil_r. split; [done|]. split; [done|]. split; [done|]. split; [by rewrite He|]. by rewrite app_assoc, Ho.
    + exists (t ++ concat (seen <$> ws.*1)), (o ++ concat (seen <$> ws.*1)), MRaw.
      rewrite ref_run_app, Hrun, He, ref_run_raw. rewrite app_assoc. split; [done|]. split; [done|].
      split; [apply clean_app; [done|left; by rewrite Hrun]|]. rewrite (Write_raw _ _ _ _ _ _ E Hdir) in *. cbn [concat app] in *. rewrite app_nil_r in *.
      split; [done|]. by rewrite Ho.
Qed.


(** ** The reader *)

(** What happens at one end of a connection: bytes arrive through the tunnel,
    or it writes itself, which runs the filter the two directions share.  A
    direct command makes [Read] turn to the network below; [rawInput] is what
    the TLS layer had read of it already. *)
Inductive event :=
| Arrives (b : slice)
| Sends (p : slice) (randoms : list (Z * bytes)).

Fixpoint serve (own : bytes → slice) (rawInput : bytes) (events : list event) (c : VisionConn) : result (bytes * VisionConn) :=
  match events with
  | [] => Ok ([], c)
  | Arrives b :: events =>
      if directRead c then serve own rawInput events c
      else
        let? (buffers, c) := read_chunk own b [] rawInput c in
        let? (out, c) := serve own rawInput events c in
        Ok (concat buffers ++ out, c)
  | Sends p randoms :: events =>
      let? (_, _, c) := Write p randoms c in
      serve own rawInput events c
  end.

Definition arrivals (events : list event) : list slice :=
  omap (λ e, match e with Arrives b => Some b | Sends _ _ => None end) events.
Definition writes_of (events : list event) : list slice :=
  omap (λ e, match e with Arrives _ => None | Sends p _ => Some p end) events.

(** After the frame that ends the padding, no chunk begins like a connection:
    [unPadding] compares every chunk it gets with the identifier again. *)
Definition no_false_start (uuid : bytes) (m : mode) (chunks : list slice) : Prop :=
  ∀ k b, chunks !! k = Some b → (ref_run m (concat (seen <$> take k chunks))).1 = MRaw →
    21 <= length (seen b) → take 16 (seen b) ≠ uuid.

Lemma no_false_start_cons uuid m b chunks :
  no_false_start uuid m (b :: chunks) →
  (m = MRaw → 21 <= length (seen b) → take 16 (seen b) ≠ uuid) ∧ no_false_start uuid (ref_run m (seen b)).1 chunks.
Proof.
  intros Hn. split; [intros ->; by apply (Hn 0 b)|]. intros k b' Hb Hm. apply (Hn (S k) b' Hb).
  cbn [take fmap list_fmap concat]. rewrite ref_run_app. destruct (ref_run m (seen b)) as [m1 o1]. cbn [fst] in Hm.
  by destruct (ref_run m1 _).
Qed.

(** The fields of the reader. *)
Definition reading (c : VisionConn) : bytes * bool * bool * UnpadState :=
  (userUUID c, withinPaddingBuffers c, directRead c, mkUnpad (remainingContent c) (remainingPadding c) (currentCommand c)).

Definition direct (m : mode) : bool := match m with MHeader last [] => bool_decide (last = 2)%Z | _ => false end.

(** A reader that is where the reference decoder is. *)
Definition reader_ok (uuid : bytes) (m : mode) (c : VisionConn) : Prop :=
  let u := mkUnpad (remainingContent c) (remainingPadding c) (currentCommand c) in
  userUUID c = uuid ∧ directRead c = direct m ∧
  (direct m = false →
   match m with
   | MRaw => withinPaddingBuffers c = false ∧ us_content u = (-1)%Z ∧ us_padding u = (-1)%Z
   | _ => withinPaddingBuffers c = true ∧ unpad_ok u ∧ mode_of u = m
   end).

Lemma reader_ok_reading uuid m c c' : reading c' = reading c → reader_ok uuid m c → reader_ok uuid m c'.
Proof. unfold reading, reader_ok. by intros [= -> -> -> -> -> ->]. Qed.

Lemma filtered_reading c c' : filtered c c' → reading c' = reading c.
Proof. by intros (?&?&?&?&?&?&->). Qed.

Lemma pad_buffers_reading buffers randoms c outs rest c' :
  pad_buffers buffers randoms c = (outs, rest, c') → reading c' = reading c.
Proof.
  revert randoms c outs rest c'. induction buffers as [|b buffers IH]; intros randoms c outs rest c'; cbn [pad_buffers];
    [by intros [= <- <- <-]|].
  destruct (default _ _) as [random junk]. destruct (write_command b c) as [[command stop] c1] eqn:Hwc.
  assert (reading c1 = reading c) as <-.
  { revert Hwc. unfold write_command. destruct (_ && _ && _); [destruct (enableXTLS c); by intros [= <- <- <-]|].
    destruct (_ && _); by intros [= <- <- <-]. }
  unfold padding. destruct stop; [by intros [= <- <- <-]|].
  destruct (pad_buffers buffers (tail randoms) _) as [[outs' rest'] c2] eqn:Hrec. intros [= <- <- <-]. by rewrite (IH _ _ _ _ _ Hrec).
Qed.

(** An own write leaves the reader alone. *)
Lemma Write_reading p randoms c :
  match Write p randoms c with
  | Ok (_, _, c') => reading c' = reading c
  | Err e => e = EPanic "slice bounds out of range" ∧ ¬ roomy p
  end.
Proof.
  unfold Write. pose proof (filterTLS_spec [p] c) as Hf.
  assert (∀ c1, reading c1 = reading c →
    reading (if isPadding c1 then
        let '(outs, rest, c) := pad_buffers (reshapeBuffer (seen p)) randoms c1 in
        if directWrite c then (outs, rest, c) else (outs ++ rest, [], c)
      else if directWrite c1 then ([], [seen p], c1) else ([seen p], [], c1)).2 = reading c) as Hgo.
  { intros c1 <-. destruct (isPadding c1); [|by destruct (directWrite c1)].
    destruct (pad_buffers _ _ _) as [[outs rest] c2] eqn:Hp. apply pad_buffers_reading in Hp. by destruct (directWrite c2). }
  assert (∀ r : result VisionConn, match r with Ok c1 => reading c1 = reading c | Err e => e = EPanic "slice bounds out of range" ∧ ¬ roomy p end →
    match (let? c := r in
           Ok (if isPadding c then
        let '(outs, rest, c) := pad_buffers (reshapeBuffer (seen p)) randoms c in
        if directWrite c then (outs, rest, c) else (outs ++ rest, [], c)
      else if directWrite c then ([], [seen p], c) else ([seen p], [], c))) with
    | Ok (_, _, c') => reading c' = reading c | Err e => e = EPanic "slice bounds out of range" ∧ ¬ roomy p end) as Hbind.
  { intros [c1|e] Hr; cbn [result_bind]; [|done]. specialize (Hgo c1 Hr). by destruct (if isPadding c1 then _ else _) as [[? ?] ?]. }
  apply Hbind. destruct (decide _); [|done]. destruct (filterTLS [p] c) as [c1|e]; [by apply filtered_reading|].
  destruct Hf as [-> Hn]. split; [done|]. intros Hr. apply Hn. by constructor.
Qed.

(** The outcome of a read that leaves the reader in mode [m]. *)
Definition reads (own : bytes → slice) (uuid : bytes) (m : mode) (out : bytes) (r : result (list bytes * VisionConn)) : Prop :=
  match r with
  | Ok (buffers, c) => reader_ok uuid m c ∧ concat buffers = out
  | Err e => e = EPanic "slice bounds out of range" ∧ ¬ (∀ s, roomy (own s))
  end.

(** The filter at the end of [Read]. *)
Lemma reads_filter own uuid m c buffers :
  reader_ok uuid m c →
  reads own uuid m (concat buffers)
    (let? c := if decide (0 < numberOfPacketToFilter c)%Z then filterTLS (own <$> buffers) c else Ok c in Ok (buffers, c)).
Proof.
  intros Hr. destruct (decide _); [|done]. pose proof (filterTLS_spec (own <$> buffers) c) as Hf.
  destruct (filterTLS _ c) as [c2|e]; cbn [result_bind reads].
  - split; [|done]. eapply reader_ok_reading; [by apply filtered_reading|done].
  - destruct Hf as [-> Hn]. split; [done|]. intros Hroom. apply Hn. by apply Forall_fmap, Forall_true.
Qed.

(** The second half of [Read], after [unPadding] in a padded stream. *)
Lemma read_chunk_padded own uuid b rawInput c u buffers :
  withinPaddingBuffers c = true → userUUID c = uuid → directRead c = false →
  unPadding uuid b (mkUnpad (remainingContent c) (remainingPadding c) (currentCommand c)) = Ok (u, buffers) →
  unpad_ok u → (∀ k, mode_of u = MHeader k [] → k = 0%Z ∨ k = 2%Z) →
  reads own uuid (mode_of u) (concat buffers ++ if direct (mode_of u) then rawInput else []) (read_chunk own b [] rawInput c).
Proof.
  intros Hin <- Hdir Hun [Hc Hp] Hk. unfold read_chunk. rewrite Hin, Hun. cbn [orb result_bind].
  destruct (bool_decide_reflect (us_content u = 0 ∧ us_padding u = 0)%Z) as [[Hc0 Hp0]|Hne].
  - assert (mode_of u = if decide (us_command u = 1)%Z then MRaw else MHeader (us_command u) []) as Hm.
    { unfold mode_of, settle. rewrite bool_decide_true by lia. done. }
    unfold commandPaddingEnd, commandPaddingDirect, commandPaddingContinue.
    destruct (decide (us_command u = 1)%Z); [|destruct (decide (us_command u = 2)%Z) as [H2|]; [|destruct (decide (us_command u = 0)%Z) as [H0|]]];
      cbn [result_bind].
    + rewrite Hm. cbn [direct]. rewrite app_nil_r. by apply reads_filter.
    + rewrite Hm, H2. replace (concat buffers ++ _) with (concat (buffers ++ [[]; rawInput])) by (rewrite concat_app; cbn; by rewrite app_nil_r).
      by apply reads_filter.
    + rewrite Hm, H0. cbn [direct]. rewrite bool_decide_false, app_nil_r by done. apply reads_filter.
      split_and!; [done|done|]. intros _. split_and!; [done|by split|]. cbn. unfold mode_of. cbn. by rewrite Hc0, Hp0, H0.
    + destruct (Hk _ Hm); done.
  - rewrite bool_decide_true by lia. assert (mode_of u = MBody (us_command u) (us_content u) (us_padding u)) as Hm.
    { unfold mode_of. apply settle_body. lia. }
    rewrite Hm. cbn [direct result_bind]. rewrite app_nil_r. apply reads_filter.
    split_and!; [done|done|]. intros _. split_and!; [done|by split|]. done.
Qed.

(** After the padding, a chunk that does not begin like a connection. *)
Lemma read_chunk_raw own uuid b rawInput c :
  reader_ok uuid MRaw c → (21 <= length (seen b) → take 16 (seen b) ≠ uuid) →
  reads own uuid MRaw (seen b) (read_chunk own b [] rawInput c).
Proof.
  intros Hr Hne. pose proof Hr as (<- & Hd & Hin). destruct (Hin eq_refl) as (Hw & Hc & Hp). cbn in Hc, Hp.
  unfold read_chunk. rewrite Hw. cbn [orb]. destruct (bool_decide_reflect (0 < numberOfPacketToFilter c)%Z).
  2: { split; [done|]. cbn. by rewrite app_nil_r. }
  rewrite Hc, Hp.
  assert (unPadding (userUUID c) b (mkUnpad (-1) (-1) (currentCommand c)) = Ok (mkUnpad (-1) (-1) (currentCommand c), [seen b])) as ->.
  { unfold unPadding. cbn [us_content us_padding]. rewrite (bool_decide_true (-1 = -1 ∧ -1 = -1)%Z) by done. cbn [andb].
    destruct (bool_decide_reflect (21 <= length (seen b))); [|done]. rewrite bool_decide_false by auto. done. }
  cbn [result_bind us_content us_padding]. rewrite !bool_decide_false by lia. cbn [result_bind].
  replace (seen b) with (concat [seen b]) at 1 by (cbn; by rewrite app_nil_r). by apply reads_filter.
Qed.

Lemma read_chunk_step own uuid b rawInput c m :
  reader_ok uuid m c → direct m = false → in_header m = false → in_header (ref_run m (seen b)).1 = false →
  (∀ k, (ref_run m (seen b)).1 = MHeader k [] → k = 0%Z ∨ k = 2%Z) →
  (m = MRaw → 21 <= length (seen b) → take 16 (seen b) ≠ uuid) →
  reads own uuid (ref_run m (seen b)).1 ((ref_run m (seen b)).2 ++ if direct (ref_run m (seen b)).1 then rawInput else [])
    (read_chunk own b [] rawInput c).
Proof.
  intros Hr Hd Hih Hend Hk Hraw. destruct (decide (m = MRaw)) as [->|Hm].
  { rewrite ref_run_raw. cbn. rewrite app_nil_r. apply read_chunk_raw; auto. }
  pose proof Hr as (Hu & Hdr & Hin). specialize (Hin Hd).
  assert (withinPaddingBuffers c = true ∧ unpad_ok (mkUnpad (remainingContent c) (remainingPadding c) (currentCommand c)) ∧
    mode_of (mkUnpad (remainingContent c) (remainingPadding c) (currentCommand c)) = m) as (Hw & Hok & Hmo) by by destruct m.
  pose proof (unPadding_running uuid b _ Hok) as Hun. pose proof (unpad_loop_reference _ _ (spare b) _ (le_n (length (seen b))) Hok) as Href.
  rewrite Hmo, Hend in Href. destruct Href as (u' & out & Hloop & Hok' & Hrun). rewrite Hloop in Hun. rewrite Hrun in *. cbn [fst snd] in *.
  apply read_chunk_padded; try done. by rewrite Hdr.
Qed.

(** A cut of a clean stream between frames. *)
Lemma clean_here m b t k : clean m (b ++ t) → (ref_run m b).1 = MHeader k [] → k = 0%Z ∨ k = 2%Z.
Proof. intros Hc Hk. destruct (Hc b t eq_refl k Hk) as [?|[? _]]; auto. Qed.

Lemma clean_direct m t : clean m t → direct m = true → t = [].
Proof.
  intros Hc Hd. destruct m as [last [|]| |]; try done. cbn in Hd. apply bool_decide_eq_true in Hd as ->.
  by destruct (Hc [] t eq_refl 2%Z eq_refl) as [|[_ ->]].
Qed.

(** Whole connections, from a reader that is where the reference decoder is. *)
Definition serves (own : bytes → slice) (events : list event) (uuid : bytes) (m : mode) (out : bytes) (r : result (bytes * VisionConn)) : Prop :=
  match r with
  | Ok (o, c) => reader_ok uuid m c ∧ o = out
  | Err e => e = EPanic "slice bounds out of range" ∧ ¬ ((∀ s, roomy (own s)) ∧ Forall roomy (writes_of events))
  end.

Lemma serve_reads own uuid rawInput events m c :
  reader_ok uuid m c → in_header m = false → clean m (concat (seen <$> arrivals events)) →
  whole_headers m (arrivals events) → no_false_start uuid m (arrivals events) →
  let '(m', o) := ref_run m (concat (seen <$> arrivals events)) in
  serves own events uuid m' (o ++ if direct m' && negb (direct m) then rawInput else []) (serve own rawInput events c).
Proof.
  revert m c. induction events as [|[b|p randoms] events IH]; intros m c Hr Hih Hcl Hwh Hns; cbn [serve].
  { cbn. split; [done|]. by destruct (direct m). }
  - change (arrivals (Arrives b :: events)) with (b :: arrivals events) in *.
    unfold serves. change (writes_of (Arrives b :: events)) with (writes_of events). fold (serves own events uuid).
    cbn [fmap list_fmap concat] in *. pose proof Hr as (_ & Hdr & _).
    destruct (whole_headers_cons _ _ _ Hwh) as [Hend Hwh']. destruct (no_false_start_cons _ _ _ _ Hns) as [Hraw Hns'].
    pose proof (clean_drop _ _ _ Hcl) as Hcl'. rewrite Hdr. destruct (direct m) eqn:Hd.
    { pose proof (clean_direct _ _ Hcl Hd) as Hnil. apply app_eq_nil in Hnil as [Hb _]. rewrite Hb in *. cbn [ref_run fst app] in *.
      specialize (IH m c Hr Hih Hcl' Hwh' Hns'). rewrite Hd in IH. exact IH. }
    pose proof (read_chunk_step own uuid b rawInput c m Hr Hd Hih Hend (λ k, clean_here m _ _ k Hcl) Hraw) as Hstep.
    rewrite ref_run_app. destruct (ref_run m (seen b)) as [m1 o1]. cbn [fst snd] in *.
    destruct (read_chunk own b [] rawInput c) as [[buffers c1]|e]; cbn [reads result_bind] in *.
    2: { destruct (ref_run m1 _). destruct Hstep as [-> Hn]. split; [done|]. by intros [? _]. }
    destruct Hstep as [Hr1 ->]. specialize (IH m1 c1 Hr1 Hend Hcl' Hwh' Hns').
    destruct (ref_run m1 _) as [m2 o2] eqn:Hrun2.
    destruct (serve own rawInput events c1) as [[o3 c2]|e]; cbn [serves result_bind] in *.
    2: { destruct IH as [-> Hn]. done. }
    destruct IH as [Hr2 ->]. split; [done|]. destruct (direct m1) eqn:Hd1.
    + rewrite (clean_direct _ _ Hcl' Hd1) in Hrun2. injection Hrun2 as <- <-. rewrite Hd1. cbn. by rewrite !app_nil_r.
    + rewrite app_nil_r. by rewrite <-app_assoc.
  - change (arrivals (Sends p randoms :: events)) with (arrivals events) in *.
    unfold serves. change (writes_of (Sends p randoms :: events)) with (p :: writes_of events).
    pose proof (Write_reading p randoms c) as Hw. destruct (Write p randoms c) as [[[t r] c1]|e]; cbn [result_bind].
    + specialize (IH m c1 (reader_ok_reading _ _ _ _ Hw Hr) Hih Hcl Hwh Hns). destruct (ref_run m _) as [m' o].
      destruct (serve own rawInput events c1) as [[o3 c2]|e]; cbn [serves] in *; [done|]. destruct IH as [-> Hn]. split; [done|].
      intros [Ho Hf]. apply Hn. split; [done|]. by apply Forall_cons in Hf as [_ ?].
    + destruct (ref_run m _) as [m' o]. destruct Hw as [-> Hn]. split; [done|]. intros [_ Hf]. by apply Forall_cons in Hf as [? _].
Qed.

(** The first chunk begins with the identifier of the user; from there on the
    reader is where the reference decoder starts. *)
Lemma read_chunk_first own uuid s0 sp rawInput c :
  length uuid = 16 → 5 <= length s0 → reading c = reading (NewVisionConn uuid) →
  read_chunk own (mkSlice (uuid ++ s0) sp) [] rawInput c =
  read_chunk own (mkSlice s0 sp) [] rawInput (set_reading true false (mkUnpad 0 0 0) c).
Proof.
  intros Hu H5 [= Hid Hw Hd Hc Hp _].
  assert (unPadding uuid (mkSlice (uuid ++ s0) sp) (mkUnpad (-1) (-1) (currentCommand c)) =
          unPadding uuid (mkSlice s0 sp) (mkUnpad 0 0 0)) as Hun.
  { rewrite (unPadding_running _ _ (mkUnpad 0 0 0)) by (split; cbn; lia). unfold unPadding. cbn [us_content us_padding seen spare].
    rewrite (bool_decide_true (-1 = -1 ∧ -1 = -1)%Z) by done. rewrite (bool_decide_true (21 <= length (uuid ++ s0))) by (rewrite length_app; lia).
    rewrite take_app_length', bool_decide_true, drop_app_length' by done. done. }
  unfold read_chunk. cbn [set_reading withinPaddingBuffers userUUID remainingContent remainingPadding currentCommand us_content us_padding us_command
    numberOfPacketToFilter directRead]. rewrite Hw, Hid, Hc, Hp, Hun. cbn [orb]. destruct (unPadding uuid (mkSlice s0 sp) _) as [[u buffers]|e]; [|done].
  cbn [result_bind]. by rewrite Hd.
Qed.

Lemma serve_from_start own uuid s0 sp chunks rawInput events c m o :
  length uuid = 16 → 5 <= length s0 → reading c = reading (NewVisionConn uuid) →
  arrivals events = mkSlice (uuid ++ s0) sp :: chunks →
  clean (MHeader 0 []) (s0 ++ concat (seen <$> chunks)) → whole_headers (MHeader 0 []) (mkSlice s0 sp :: chunks) →
  no_false_start uuid (MHeader 0 []) (mkSlice s0 sp :: chunks) →
  ref_run (MHeader 0 []) (s0 ++ concat (seen <$> chunks)) = (m, o) →
  serves own events uuid m (o ++ if direct m then rawInput else []) (serve own rawInput events c).
Proof.
  intros Hu H5 Hstart Harr Hcl Hwh Hns Hrun. revert c Hstart Harr.
  induction events as [|[b|p randoms] events IH]; intros c Hstart Harr; [done| |].
  - change (arrivals (Arrives b :: events)) with (b :: arrivals events) in Harr. injection Harr as -> <-.
    set (c0 := set_reading true false (mkUnpad 0 0 0) c). pose proof Hstart as [= Hid Hw Hd Hc Hp _].
    assert (reader_ok uuid (MHeader 0 []) c0) as Hr by (split_and!; [exact Hid|done|]; by intros _).
    pose proof (serve_reads own uuid rawInput (Arrives (mkSlice s0 sp) :: events) _ c0 Hr eq_refl Hcl Hwh Hns) as Hs.
    change (arrivals (Arrives (mkSlice s0 sp) :: events)) with (mkSlice s0 sp :: arrivals events) in Hs.
    cbn [fmap list_fmap concat seen] in Hs. rewrite Hrun in Hs. cbn [serve direct negb] in *. rewrite Hd, (read_chunk_first own uuid) by done.
    change (directRead c0) with false in Hs. change (bool_decide (0 = 2)%Z) with false in Hs. cbn [negb] in Hs. by rewrite andb_true_r in Hs.
  - change (arrivals (Sends p randoms :: events)) with (arrivals events) in Harr. cbn [serve].
    unfold serves. change (writes_of (Sends p randoms :: events)) with (p :: writes_of events).
    pose proof (Write_reading p randoms c) as Hw. destruct (Write p randoms c) as [[[t r] c1]|e]; cbn [result_bind].
    + specialize (IH c1 ltac:(congruence) Harr). destruct (serve own rawInput events c1) as [[o3 c2]|e]; cbn [serves] in *; [done|].
      destruct IH as [-> Hn]. split; [done|]. intros [Ho Hf]. apply Hn. split; [done|]. by apply Forall_cons in Hf as [_ ?].
    + destruct Hw as [-> Hn]. split; [done|]. intros [_ Hf]. by apply Forall_cons in Hf as [? _].
Qed.

