(* ===== verification/VlessRun.v ===== *)
(** * Runs of the VLESS formats

    A request with the vision flow, a padded connection read in two chunks,
    and a server hello on which the vision filter panics. *)
From S2P Require Import Prelude Bytes VlessCodec Vision VisionProps.

Module VlessRun.

(** Addresses of two bytes. *)
#[export] Instance pair_serializer : AddrSerializer (Ascii.ascii * Ascii.ascii) := {|
  ReadAddrPort := let! a := read_byte in let! b := read_byte in rret (a, b);
  WriteAddrPort := λ p, Ok [p.1; p.2];
  AddrPortLen := λ _, 2;
|}.
#[export] Instance pair_laws : AddrSerializerLaws (Ascii.ascii * Ascii.ascii) (λ _, True).
Proof. split; [by intros [a b] l [= <-]|by intros [a b] l rest _ [= <-]]. Qed.

Definition UvarintLen (n : Z) : nat := length (PutUvarint n).
Definition uuid : bytes := bytes_of (seqZ 1 16).
Definition flow : bytes := String.list_ascii_of_string "xtls-rprx-vision".
Definition request : Request := mkRequest uuid (u8 CommandTCP) (u8 1, u8 80) flow.
Definition payload : bytes := String.list_ascii_of_string "hello".
Definition written : nat * result bytes := WriteRequest UvarintLen request payload.
Definition written_bytes : bytes := match written.2 with Ok b => b | Err _ => [] end.

(** Two writes; the random numbers are zero. *)
Definition zeros : list (Z * bytes) := let z := (0%Z, replicate 1400 (u8 0)) in [z; z].
Definition writes : list (slice * list (Z * bytes)) :=
  [(mkSlice payload [], zeros); (mkSlice (bytes_of [1; 2; 3]%Z) [], zeros)].
Definition sent : bytes * bytes * VisionConn :=
  match write_all writes (NewVisionConn uuid) with Ok x => x | Err _ => ([], [], NewVisionConn uuid) end.
Definition chunk1 : bytes := take 7 (drop 16 sent.1.1).
Definition chunk2 : slice := mkSlice (drop 7 (drop 16 sent.1.1)) [].

Lemma sent_run : write_all writes (NewVisionConn uuid) = Ok sent.
Proof. vm_compute. reflexivity. Qed.

Lemma chunks_whole : whole_headers (MHeader 0 []) [mkSlice chunk1 []; chunk2].
Proof. intros [|[|k]]; [vm_compute; reflexivity..|]. rewrite take_ge by (cbn; lia). vm_compute. reflexivity. Qed.

Lemma chunks_start : no_false_start uuid (MHeader 0 []) [mkSlice chunk1 []; chunk2].
Proof. intros [|[|k]] b Hb; [vm_compute; discriminate..|discriminate Hb]. Qed.

(** Buffers with room, and what the reading end goes through. *)
Definition own (s : bytes) : slice := mkSlice s (replicate 301 (u8 0)).
Definition events : list event :=
  [Sends (own payload) zeros; Arrives (mkSlice (uuid ++ chunk1) []); Sends (own payload) zeros; Arrives chunk2].

Lemma own_roomy s : roomy (own s).
Proof. intros _. cbn [own seen spare]. rewrite length_replicate. lia. Qed.

Lemma zeros_good : Forall good_random zeros ∧ 2 <= length zeros.
Proof. split; [|simpl; lia]. repeat constructor; cbn; lia. Qed.
End VlessRun.
Import VlessRun.

Lemma vless_request_roundtrip_witness :
  ReadRequest (u8 0, u8 0) written_bytes = Ok (request, payload) ∧ length written_bytes = 44.
Proof.
  assert (written = (44, Ok written_bytes)) as Hw by (vm_compute; reflexivity).
  destruct (vless_request_roundtrip (plain:=λ _, True) UvarintLen (u8 0, u8 0) (λ _ _, eq_refl) request payload 44 written_bytes)
    as (Hr & Hl & _); [done|vm_compute; lia|done|exact Hw|]. split; [exact Hr|exact Hl].
Defined.

Lemma vless_header_can_panic_witness :
  ReadRequest (u8 0, u8 0) (u8 0 :: uuid ++ u8 11 :: u8 10 :: PutUvarint (2 ^ 63) ++ []) =
    Err (EPanic "makeslice: len out of range").
Proof. apply vless_header_can_panic. reflexivity. Defined.

(** A chunk that ends after three bytes of a header. *)
Lemma unPadding_agrees_with_reference_witness :
  unPadding uuid (mkSlice (bytes_of [0; 0; 5]%Z) []) (mkUnpad 0 0 0) = Err (EPanic "slice bounds out of range").
Proof.
  exact (unPadding_agrees_with_reference uuid (mkSlice (bytes_of [0; 0; 5]%Z) []) (mkUnpad 0 0 0)
    (conj (Z.le_refl 0) (Z.le_refl 0)) eq_refl).
Defined.


(** The condition on chunks after the padding is needed.  Of seven writes of
    one byte the seventh ends the padding and leaves one packet to count, at
    both ends; an eighth that begins with the identifier and looks like a frame
    is unpadded: one byte is delivered of the twenty-two that were written. *)
Definition marked : bytes := uuid ++ bytes_of [1; 0; 1; 0; 0; 66]%Z.
Definition marked_writes : list (slice * list (Z * bytes)) :=
  (λ x, (own [u8 x], zeros)) <$> seqZ 1 7.
Definition marked_chunks : list bytes :=
  match write_all marked_writes (NewVisionConn uuid) with
  | Ok (tunnel, _, _) => [tunnel; marked]
  | Err _ => []
  end.
Example identifier_in_payload_is_misread :
  write_all (marked_writes ++ [(own marked, zeros)]) (NewVisionConn uuid)
    = match write_all marked_writes (NewVisionConn uuid) with
      | Ok (tunnel, _, c) => match Write (own marked) zeros c with Ok (_, _, c) => Ok (tunnel ++ marked, [], c) | Err e => Err e end
      | Err e => Err e
      end ∧
  match serve own [] (Arrives <$> (own <$> marked_chunks)) (NewVisionConn uuid) with
  | Ok (out, _) => out = bytes_of (seqZ 1 7) ++ bytes_of [66]%Z
  | Err _ => False
  end.
Proof. split; vm_compute; reflexivity. Qed.

(** The filter takes the session identifier's length from the packet: a server
    hello of 79 bytes that fills its buffer can make it panic. *)
Definition bad_hello : slice :=
  mkSlice (bytes_of ([22; 3; 3; 0; 74; 2] ++ replicate 37 0 ++ [255] ++ replicate 35 0)%Z) [].
Lemma filter_can_panic : filterTLS [bad_hello] (NewVisionConn uuid) = Err (EPanic "slice bounds out of range").
Proof. vm_compute. reflexivity. Qed.
