(* ===== verification/VmessStream.v ===== *)
(** * VMess body streams

    Model of src/runtime/sing-box/local-modules/sing-vmess: chunk_length_stream.go,
    chunk_length_aead.go, chunk_aead.go, chunk_stream.go, chunk_stream_checksum.go,
    kdf.go, and [CreateReader] and [CreateWriter] of protocol.go: the layers that
    cut a stream into chunks, hide and authenticate their lengths, pad, encrypt and
    check them; and that the reader of one side reads what the writer of the other
    side wrote.  The primitives are the fields of [VmessCrypto]. *)
From S2P Require Import Prelude Bytes.
Open Scope Z_scope.

(** An AEAD: AES-128-GCM, or ChaCha20-Poly1305, with its key. *)
Inductive aead := AesGcm (key : bytes) | Chacha20Poly1305 (key : bytes).

Class VmessCrypto := {
  md5_Sum : bytes → bytes;
  sha256_Sum : bytes → bytes;
  (** [hmac.New] over a hash with a key, applied to a message. *)
  hmac_New : (bytes → bytes) → bytes → bytes → bytes;
  (** One block of AES. *)
  block_Encrypt : bytes → bytes → bytes;
  block_Decrypt : bytes → bytes → bytes;
  (** The AEAD with nonce, text and additional data. *)
  aead_Seal : aead → bytes → bytes → bytes → bytes;
  aead_Open : aead → bytes → bytes → bytes → result bytes;
  (** AES in CFB mode: a stream with a state. *)
  CfbStream : Type;
  NewCFB : bytes → bytes → CfbStream;
  cfb_Encrypt : CfbStream → bytes → bytes * CfbStream;
  cfb_Decrypt : CfbStream → bytes → bytes * CfbStream;
  (** The [i]th two bytes of SHAKE128 of the input, as a number. *)
  shake : bytes → nat → Z;
}.
Class VmessCryptoLaws `{VmessCrypto} := {
  length_md5 m : length (md5_Sum m) = 16%nat;
  length_hmac h k m n : (∀ m, length (h m) = n) → length (hmac_New h k m) = n;
  length_block k m : length (block_Encrypt k m) = 16%nat;
  block_Decrypt_Encrypt k m : length m = 16%nat → block_Decrypt k (block_Encrypt k m) = m;
  length_aead_Seal a n t ad : length (aead_Seal a n t ad) = (length t + 16)%nat;
  aead_Open_Seal a n t ad : aead_Open a n (aead_Seal a n t ad) ad = Ok t;
  length_cfb st m : length (cfb_Decrypt st m).1 = length m;
  cfb_Decrypt_Encrypt st m : cfb_Decrypt st (cfb_Encrypt st m).1 = (m, (cfb_Encrypt st m).2);
  cfb_Decrypt_app st a b :
    cfb_Decrypt st (a ++ b) = let '(x, st) := cfb_Decrypt st a in let '(y, st) := cfb_Decrypt st b in (x ++ y, st);
  shake_range m i : 0 <= shake m i < 65536;
}.

(** ** Constants and keys *)

Definition CipherOverhead : nat := 16.
Definition WriteChunkSize : Z := 15000.
Definition ReadChunkSize : Z := 16384.
Definition MaxPaddingSize : Z := 64.
Definition SecurityTypeLegacy : Z := 1.
Definition SecurityTypeAes128Gcm : Z := 3.
Definition SecurityTypeChacha20Poly1305 : Z := 4.
Definition SecurityTypeNone : Z := 5.
(** The options of a request. *)
Definition RequestOptionChunkStream : Z := 1.
Definition RequestOptionChunkMasking : Z := 4.
Definition RequestOptionGlobalPadding : Z := 8.
Definition RequestOptionAuthenticatedLength : Z := 16.
Definition has_option (option flag : Z) : bool := negb (bool_decide (Z.land option flag = 0)).

Definition ErrBadLengthChunk : error := ENew "bad length chunk".
Definition ErrInvalidChecksum : error := ENew "vmess: invalid chunk checksum".
Definition ErrShortBuffer : error := ENew "short buffer".

(** hash/fnv, [New32a], and its sum as bytes. *)
Definition fnv32a (b : bytes) : Z := foldl (λ h x, Z.lxor h (val x) * 16777619 mod 2 ^ 32) 2166136261 b.
Definition be32 (z : Z) : bytes := [u8 (Z.shiftr z 24); u8 (Z.shiftr z 16); u8 (Z.shiftr z 8); u8 z].
Definition string_bytes (s : string) : bytes := String.list_ascii_of_string s.

Section streams.
Context `{VmessCrypto}.

(** kdf.go: each part of the path is the key of an HMAC over the one before. *)
Definition hMac_Create (h : bytes → bytes) (value : bytes) : bytes → bytes := hmac_New h value.
Definition KDF (key : bytes) (salt : string) (path : list bytes) : bytes :=
  foldl hMac_Create (hMac_Create sha256_Sum (string_bytes "VMess AEAD KDF")) (string_bytes salt :: path) key.

Definition GenerateChacha20Poly1305Key (b : bytes) : bytes :=
  let checksum := md5_Sum b in checksum ++ md5_Sum checksum.

(** ** Lengths of chunks *)

(** The shake hashes of a reader or writer: whether lengths are padded and masked,
    and the position in the one stream both are taken from. *)
Record Masks := mkMasks { globalPadding : bool; chunkMasking : bool; mk_nonce : bytes; mk_pos : nat }.
Definition next_hash (m : Masks) : Z * Masks :=
  (shake (mk_nonce m) (mk_pos m), mkMasks (globalPadding m) (chunkMasking m) (mk_nonce m) (S (mk_pos m))).
(** The padding of the next chunk, and the mask of its length. *)
Definition next_padding (m : Masks) : Z * Masks :=
  if globalPadding m then let '(h, m) := next_hash m in (h mod MaxPaddingSize, m) else (0, m).
Definition next_mask (m : Masks) : Z * Masks := if chunkMasking m then next_hash m else (0, m).

(** The nonce of the [count]th message, a [uint16]. *)
Definition nonce_at (nonce : bytes) (count : Z) : bytes := be16 count ++ drop 2 (take 12 nonce).

(** The length is written plainly or sealed. *)
Inductive length_codec := PlainLength | SealedLength (a : aead) (nonce : bytes) (nonceCount : Z).
Record ChunkState := mkChunkState { cs_masks : Masks; cs_length : length_codec }.

(** ** Readers *)

(** What both chunk readers do with the length of the data: a buffer of [cap]
    bytes is filled, and the padding is skipped. *)
Definition read_chunk_data (cap : nat) (dataLen paddingLen : Z) (st : ChunkState) : reader (bytes * ChunkState) :=
  if decide (dataLen < 0) then rfail ErrBadLengthChunk
  else if decide (dataLen = 0) then rfail EOF
  else if decide (Z.of_nat cap < dataLen) then rfail ErrShortBuffer
  else
    let! data := read_full (Z.to_nat dataLen) in
    λ s, if decide (paddingLen <= Z.of_nat (length s)) then Ok ((data, st), drop (Z.to_nat paddingLen) s) else Err EOF.

Definition StreamChunkReader_Read (cap : nat) (m : Masks) : reader (bytes * ChunkState) :=
  let! length_ := read_be16 in
  let '(paddingLen, m) := next_padding m in
  let '(mask, m) := next_mask m in
  read_chunk_data cap (Z.lxor length_ mask - paddingLen) paddingLen (mkChunkState m PlainLength).

Definition AEADChunkReader_Read (cap : nat) (m : Masks) (a : aead) (nonce : bytes) (count : Z) : reader (bytes * ChunkState) :=
  if decide (cap < 2 + CipherOverhead)%nat then rfail ErrShortBuffer
  else
    let! sealed := read_full (2 + CipherOverhead) in
    match aead_Open a (nonce_at nonce count) sealed [] with
    | Err e => rfail e
    | Ok plain =>
        match plain with
        | x :: y :: _ =>
            let length_ := (of_be16 x y + Z.of_nat CipherOverhead) mod 65536 in
            let '(paddingLen, m) := next_padding m in
            read_chunk_data cap (length_ - paddingLen) paddingLen (mkChunkState m (SealedLength a nonce ((count + 1) mod 65536)))
        | _ => rfail (EPanic "index out of range")
        end
    end.

Definition ChunkReader_Read (cap : nat) (st : ChunkState) : reader (bytes * ChunkState) :=
  match cs_length st with
  | PlainLength => StreamChunkReader_Read cap (cs_masks st)
  | SealedLength a nonce count => AEADChunkReader_Read cap (cs_masks st) a nonce count
  end.

(** [StreamChecksumReader.Read]. *)
Definition be32_of (b : bytes) : option Z :=
  match b with
  | w :: x :: y :: z :: _ => Some (Z.lor (Z.shiftl (of_be16 w x) 16) (of_be16 y z))
  | _ => None
  end.
Definition check_sum (chunk : bytes) : result bytes :=
  match be32_of chunk with
  | None => Err (EPanic "slice bounds out of range")
  | Some sum => if decide (fnv32a (drop 4 chunk) ≠ sum) then Err ErrInvalidChecksum else Ok (drop 4 chunk)
  end.

(** The reader of a body: as it is, in chunks, in chunks with checksums under a
    stream cipher, or in sealed chunks. *)
Inductive Body :=
| Raw
| Chunked (c : ChunkState)
| Legacy (st : CfbStream) (c : option ChunkState)
| Sealed (a : aead) (nonce : bytes) (nonceCount : Z) (c : ChunkState).

(** A reader under the stream cipher, which decrypts as many bytes as are read. *)
Definition under_cfb {A} (st : CfbStream) (r : reader A) : reader (A * CfbStream) := λ s,
  match r (cfb_Decrypt st s).1 with
  | Err e => Err e
  | Ok (a, rest) => let n := (length s - length rest)%nat in Ok ((a, (cfb_Decrypt st (take n s)).2), drop n s)
  end.
Definition read_some (cap : nat) : reader bytes := λ s, match s with [] => Err EOF | _ => Ok (take cap s, drop cap s) end.

Definition Body_Read (cap : nat) (b : Body) : reader (bytes * Body) :=
  match b with
  | Raw => let! p := read_some cap in rret (p, Raw)
  | Chunked c => let! (p, c) := ChunkReader_Read cap c in rret (p, Chunked c)
  | Legacy st None => let! (p, st) := under_cfb st (read_some cap) in rret (p, Legacy st None)
  | Legacy st (Some c) =>
      let! (p, c, st) := under_cfb st (ChunkReader_Read cap c) in
      match check_sum p with Err e => rfail e | Ok p => rret (p, Legacy st (Some c)) end
  | Sealed a nonce count c =>
      let! (p, c) := ChunkReader_Read cap c in
      match aead_Open a (nonce_at nonce count) p [] with
      | Err e => rfail e
      | Ok p => rret (p, Sealed a nonce ((count + 1) mod 65536) c)
      end
  end.

(** ** Writers *)

(** [rand.Reader]: so many bytes. *)
Context (random : nat → bytes).

Definition StreamChunkWriter_Write (p : bytes) (m : Masks) : bytes * ChunkState :=
  let dataLen := Z.of_nat (length p) mod 65536 in
  let '(paddingLen, m) := next_padding m in
  let dataLen := (dataLen + paddingLen) mod 65536 in
  let '(mask, m) := next_mask m in
  (be16 (Z.lxor dataLen mask) ++ p ++ random (Z.to_nat paddingLen), mkChunkState m PlainLength).
Definition AEADChunkWriter_Write (p : bytes) (m : Masks) (a : aead) (nonce : bytes) (count : Z) : bytes * ChunkState :=
  let dataLength := Z.of_nat (length p) mod 65536 in
  let '(paddingLen, m) := next_padding m in
  let dataLength := (dataLength + paddingLen - Z.of_nat CipherOverhead) mod 65536 in
  (aead_Seal a (nonce_at nonce count) (be16 dataLength) [] ++ p ++ random (Z.to_nat paddingLen),
   mkChunkState m (SealedLength a nonce ((count + 1) mod 65536))).
Definition ChunkWriter_Write (p : bytes) (st : ChunkState) : bytes * ChunkState :=
  match cs_length st with
  | PlainLength => StreamChunkWriter_Write p (cs_masks st)
  | SealedLength a nonce count => AEADChunkWriter_Write p (cs_masks st) a nonce count
  end.

(** One write of at most [WriteChunkSize] bytes, which is what the chunk writer of
    the library passes on. *)
Definition Body_Write (p : bytes) (b : Body) : bytes * Body :=
  match b with
  | Raw => (p, Raw)
  | Chunked c => let '(out, c) := ChunkWriter_Write p c in (out, Chunked c)
  | Legacy st None => let '(out, st) := cfb_Encrypt st p in (out, Legacy st None)
  | Legacy st (Some c) =>
      let '(out, c) := ChunkWriter_Write (be32 (fnv32a p) ++ p) c in
      let '(out, st) := cfb_Encrypt st out in (out, Legacy st (Some c))
  | Sealed a nonce count c =>
      let '(out, c) := ChunkWriter_Write (aead_Seal a (nonce_at nonce count) p []) c in
      (out, Sealed a nonce ((count + 1) mod 65536) c)
  end.

(** ** Creating them *)

Definition plain_chunks (nonce : bytes) (option : Z) : ChunkState :=
  mkChunkState (mkMasks (has_option option RequestOptionGlobalPadding) (has_option option RequestOptionChunkMasking) nonce 0) PlainLength.
Definition sealed_chunks (a : aead) (requestNonce nonce : bytes) (option : Z) : ChunkState :=
  mkChunkState (mkMasks (has_option option RequestOptionGlobalPadding) false nonce 0) (SealedLength a requestNonce 0).
Definition aes_length_key (requestKey : bytes) : aead := AesGcm (take 16 (KDF requestKey "auth_len" [])).
Definition chacha_length_key (requestKey : bytes) : aead :=
  Chacha20Poly1305 (GenerateChacha20Poly1305Key (take 16 (KDF requestKey "auth_len" []))).
Definition chunks_of (length_key : aead) (requestNonce nonce : bytes) (option : Z) : ChunkState :=
  if has_option option RequestOptionAuthenticatedLength then sealed_chunks length_key requestNonce nonce option
  else plain_chunks nonce option.

(** [CreateReader], with the stream that decrypted a header before it, if any. *)
Definition CreateReader (streamReader : option CfbStream) (requestKey requestNonce key nonce : bytes) (security option : Z) : result Body :=
  if decide (security = SecurityTypeNone) then
    Ok (if has_option option RequestOptionChunkStream then Chunked (chunks_of (aes_length_key requestKey) requestNonce nonce option) else Raw)
  else if decide (security = SecurityTypeLegacy) then
    let st := default (NewCFB key nonce) streamReader in
    Ok (Legacy st (if has_option option RequestOptionChunkStream then Some (plain_chunks nonce option) else None))
  else if decide (security = SecurityTypeAes128Gcm) then
    Ok (Sealed (AesGcm key) nonce 0 (chunks_of (aes_length_key requestKey) requestNonce nonce option))
  else if decide (security = SecurityTypeChacha20Poly1305) then
    Ok (Sealed (Chacha20Poly1305 (GenerateChacha20Poly1305Key key)) nonce 0 (chunks_of (chacha_length_key requestKey) requestNonce nonce option))
  else Err (EPanic "unexpected security type").

(** [CreateWriter]: without chunks, the stream of the header is not continued. *)
Definition CreateWriter (streamWriter : option CfbStream) (requestKey requestNonce key nonce : bytes) (security option : Z) : result Body :=
  if decide (security = SecurityTypeNone) then
    Ok (if has_option option RequestOptionChunkStream then Chunked (chunks_of (aes_length_key requestKey) requestNonce nonce option) else Raw)
  else if decide (security = SecurityTypeLegacy) then
    Ok (if has_option option RequestOptionChunkStream
        then Legacy (default (NewCFB key nonce) streamWriter) (Some (plain_chunks nonce option))
        else Legacy (NewCFB key nonce) None)
  else if decide (security = SecurityTypeAes128Gcm) then
    Ok (Sealed (AesGcm key) nonce 0 (chunks_of (aes_length_key requestKey) requestNonce nonce option))
  else if decide (security = SecurityTypeChacha20Poly1305) then
    Ok (Sealed (Chacha20Poly1305 (GenerateChacha20Poly1305Key key)) nonce 0 (chunks_of (chacha_length_key requestKey) requestNonce nonce option))
  else Err (EPanic "unexpected security type").

(** ** Copying a whole stream *)

(** Write pieces one after the other, as the chunk writer of the library does. *)
Fixpoint Body_WriteAll (ps : list bytes) (b : Body) : bytes :=
  match ps with
  | [] => []
  | p :: ps => let '(out, b) := Body_Write p b in out ++ Body_WriteAll ps b
  end.
(** Read into a buffer of [cap] bytes until the end. *)
Fixpoint Body_ReadAll (fuel cap : nat) (b : Body) (s : bytes) : result bytes :=
  match fuel with
  | 0%nat => Err (EPanic "fuel")
  | S fuel =>
      match Body_Read cap b s with
      | Err e => if decide (e = EOF) then Ok [] else Err e
      | Ok ((p, b), s) => let? rest := Body_ReadAll fuel cap b s in Ok (p ++ rest)
      end
  end.
End streams.

(** ** What is written is read *)

Section roundtrip.
Context `{VmessCrypto} {HL : VmessCryptoLaws} (random : nat → bytes) (random_length : ∀ n, length (random n) = n).

Lemma lxor_bound n a b : 0 <= n → 0 <= a < 2 ^ n → 0 <= b < 2 ^ n → 0 <= Z.lxor a b < 2 ^ n.
Proof.
  intros Hn Ha Hb. split; [apply Z.lxor_nonneg; lia|]. destruct (decide (Z.lxor a b = 0)) as [->|Hne]; [lia|].
  assert (0 <= Z.lxor a b) by (apply Z.lxor_nonneg; lia). apply Z.log2_lt_pow2; [lia|].
  eapply Z.le_lt_trans; [apply Z.log2_lxor; lia|].
  assert (0 < n) as Hpos.
  { destruct (decide (n = 0)) as [->|]; [|lia]. change (2 ^ 0) with 1 in *. replace a with 0 in Hne by lia. by replace b with 0 in Hne by lia. }
  assert (∀ x, 0 <= x < 2 ^ n → Z.log2 x < n) as Hlog.
  { intros x Hx. destruct (decide (x = 0)) as [->|]; [done|]. apply Z.log2_lt_pow2; lia. }
  apply Z.max_lub_lt; auto.
Qed.

Lemma next_padding_range m : 0 <= (next_padding m).1 < 64.
Proof using HL. unfold next_padding. destruct (globalPadding m); cbn; [|lia]. apply Z.mod_pos_bound. unfold MaxPaddingSize. lia. Qed.
Lemma next_mask_range m : 0 <= (next_mask m).1 < 65536.
Proof using HL. unfold next_mask. destruct (chunkMasking m); cbn; [apply shake_range|lia]. Qed.

Lemma read_chunk_data_ok cap p pad n rest st :
  (0 < length p)%nat → (length p <= cap)%nat → 0 <= pad → length n = Z.to_nat pad →
  read_chunk_data cap (Z.of_nat (length p)) pad st (p ++ n ++ rest) = Ok ((p, st), rest).
Proof.
  intros Hp Hcap Hpad Hn. unfold read_chunk_data. rewrite !decide_False by lia. rewrite Nat2Z.id.
  rewrite (rbind_step _ _ _ _ _ (read_full_app p (n ++ rest))). rewrite decide_True by (rewrite length_app; lia).
  by rewrite <-Hn, drop_app_length.
Qed.

(** A payload that fits into a chunk with its padding. *)
Definition fits (cap : nat) (p : bytes) : Prop := (0 < length p <= cap)%nat ∧ Z.of_nat (length p) < 65472.

Lemma stream_chunk_read cap p m rest : fits cap p →
  StreamChunkReader_Read cap m ((StreamChunkWriter_Write random p m).1 ++ rest)
  = Ok ((p, (StreamChunkWriter_Write random p m).2), rest).
Proof using HL random_length.
  intros [Hp Hlen]. unfold StreamChunkReader_Read, StreamChunkWriter_Write. pose proof (next_padding_range m) as Hpad.
  destruct (next_padding m) as [pad m1]. cbn [fst] in Hpad. pose proof (next_mask_range m1) as Hmask.
  destruct (next_mask m1) as [mask m2]. cbn [fst snd] in *. rewrite <-!app_assoc.
  rewrite (Z.mod_small (Z.of_nat (length p))), (Z.mod_small (_ + pad)) by lia.
  assert (0 <= Z.lxor (Z.of_nat (length p) + pad) mask < 65536) as Hx by (apply (lxor_bound 16); lia).
  rewrite (rbind_step _ _ _ _ _ (read_be16_app _ _ Hx)). rewrite Z.lxor_assoc, Z.lxor_nilpotent, Z.lxor_0_r.
  replace (Z.of_nat (length p) + pad - pad) with (Z.of_nat (length p)) by lia.
  apply read_chunk_data_ok; [lia|lia|lia|apply random_length].
Qed.

Lemma aead_chunk_read cap p m a nonce count rest : fits cap p → (18 <= cap)%nat →
  AEADChunkReader_Read cap m a nonce count ((AEADChunkWriter_Write random p m a nonce count).1 ++ rest)
  = Ok ((p, (AEADChunkWriter_Write random p m a nonce count).2), rest).
Proof using HL random_length.
  intros [Hp Hlen] Hcap. unfold AEADChunkReader_Read, AEADChunkWriter_Write. pose proof (next_padding_range m) as Hpad.
  destruct (next_padding m) as [pad m1]. cbn [fst snd] in *. rewrite decide_False by (unfold CipherOverhead; lia).
  rewrite <-!app_assoc. set (sealed := aead_Seal _ _ _ _).
  assert (length sealed = 2 + CipherOverhead)%nat as Hs by apply length_aead_Seal. rewrite <-Hs.
  rewrite (rbind_step _ _ _ _ _ (read_full_app sealed _)). unfold sealed. rewrite aead_Open_Seal.
  cbn [be16]. rewrite of_be16_be16. unfold CipherOverhead.
  replace (((Z.of_nat (length p) mod 65536 + pad - Z.of_nat 16) mod 65536) mod 65536 + Z.of_nat 16) with
          (((Z.of_nat (length p) + pad - 16) mod 65536) + 16) by (rewrite Z.mod_mod, (Z.mod_small (Z.of_nat _)) by lia; lia).
  replace ((((Z.of_nat (length p) + pad - 16) mod 65536) + 16) mod 65536) with (Z.of_nat (length p) + pad)
    by (rewrite Z.add_mod_idemp_l by lia; rewrite Z.mod_small; lia).
  replace (Z.of_nat (length p) + pad - pad) with (Z.of_nat (length p)) by lia.
  apply read_chunk_data_ok; [lia|lia|lia|apply random_length].
Qed.

Lemma chunk_read cap p c rest : fits cap p → (18 <= cap)%nat →
  ChunkReader_Read cap c ((ChunkWriter_Write random p c).1 ++ rest) = Ok ((p, (ChunkWriter_Write random p c).2), rest).
Proof using HL random_length.
  intros Hp Hcap. unfold ChunkReader_Read, ChunkWriter_Write.
  destruct (cs_length c); [by apply stream_chunk_read|by apply aead_chunk_read].
Qed.

(** Under the stream cipher. *)
Lemma under_cfb_read {A} st (r : reader A) p rest a :
  (∀ rest, r (p ++ rest) = Ok (a, rest)) →
  under_cfb st r ((cfb_Encrypt st p).1 ++ rest) = Ok ((a, (cfb_Encrypt st p).2), rest).
Proof using HL.
  intros Hr. unfold under_cfb. set (c := (cfb_Encrypt st p).1).
  assert (cfb_Decrypt st c = (p, (cfb_Encrypt st p).2)) as Hc by apply cfb_Decrypt_Encrypt.
  assert (length c = length p) as Hl by (rewrite <-(length_cfb st c), Hc; done).
  rewrite cfb_Decrypt_app, Hc. destruct (cfb_Decrypt _ rest) as [q st'] eqn:Eq. cbn [fst]. rewrite Hr.
  assert (length q = length rest) as Hq by (rewrite <-(length_cfb (cfb_Encrypt st p).2 rest), Eq; done).
  rewrite length_app, Hq, Nat.add_sub, take_app_length, drop_app_length, Hc. done.
Qed.

Lemma digits32 z : 0 <= z < 4294967296 →
  (z / 16777216 mod 256 * 256 + z / 65536 mod 256) * 65536 + (z / 256 mod 256 * 256 + z mod 256) = z.
Proof.
  intros Hz. transitivity (z mod (256 * 256 * 256 * 256)); [|rewrite Z.mod_small; lia].
  rewrite !Z.rem_mul_r by lia. change (256 * 256 * 256) with 16777216. change (256 * 256) with 65536. lia.
Qed.
Lemma check_sum_ok p : check_sum (be32 (fnv32a p) ++ p) = Ok p.
Proof.
  assert (0 <= fnv32a p < 2 ^ 32) as Hr.
  { unfold fnv32a. induction p as [|x p IH] using rev_ind; [cbn; lia|]. rewrite foldl_snoc. apply Z.mod_pos_bound. lia. }
  unfold check_sum, be32. cbn [app be32_of]. rewrite !of_be16_val, !val_u8, !Z.shiftr_div_pow2 by lia.
  change (2 ^ 8) with 256. change (2 ^ 16) with 65536. change (2 ^ 24) with 16777216. change (2 ^ 32) with 4294967296 in Hr.
  rewrite lor_shiftl_add; [|lia|]; change (2 ^ 16) with 65536; [|Z.to_euclidean_division_equations; lia].
  rewrite digits32 by done. change (drop 4 (?a :: ?b :: ?c :: ?d :: ?q)) with q. rewrite decide_False by auto. done.
Qed.

(** ** Bodies *)

(** Bodies that are cut into chunks, and what can be written to them at once. *)
Definition framed (b : Body) : Prop := match b with Raw | Legacy _ None => False | _ => True end.
Definition payload (p : bytes) : Prop := (0 < length p)%nat ∧ Z.of_nat (length p) <= WriteChunkSize.
Definition roomy (cap : nat) : Prop := ReadChunkSize <= Z.of_nat cap.

Lemma payload_fits cap p q : payload p → roomy cap → (length q <= 16)%nat → fits cap (q ++ p).
Proof. unfold payload, roomy, fits, WriteChunkSize, ReadChunkSize. rewrite length_app. lia. Qed.

Lemma Body_Read_Write cap p b rest : framed b → payload p → roomy cap →
  Body_Read cap b ((Body_Write random p b).1 ++ rest) = Ok ((p, (Body_Write random p b).2), rest).
Proof using HL random_length.
  intros Hb Hp Hcap. assert (18 <= cap)%nat as H18 by (unfold roomy, ReadChunkSize in Hcap; lia).
  destruct b as [|c|st [c|]|a nonce count c]; try done; cbn [Body_Read Body_Write].
  - pose proof (chunk_read cap p c rest (payload_fits cap p [] Hp Hcap ltac:(simpl; lia)) H18) as Hr.
    destruct (ChunkWriter_Write random p c) as [out c']. cbn [fst snd] in *. by rewrite (rbind_step _ _ _ _ _ Hr).
  - pose proof (λ rest, chunk_read cap (be32 (fnv32a p) ++ p) c rest (payload_fits cap p (be32 (fnv32a p)) Hp Hcap ltac:(simpl; lia)) H18) as Hr.
    destruct (ChunkWriter_Write random _ c) as [out c']. cbn [fst snd] in *.
    pose proof (under_cfb_read st (ChunkReader_Read cap c) out rest _ Hr) as Hu.
    destruct (cfb_Encrypt st out) as [out' st']. cbn [fst snd] in *. rewrite (rbind_step _ _ _ _ _ Hu).
    by rewrite check_sum_ok.
  - set (sealed := aead_Seal a (nonce_at nonce count) p []).
    assert (fits cap sealed) as Hf.
    { unfold fits, sealed. rewrite length_aead_Seal. unfold payload, roomy, WriteChunkSize, ReadChunkSize in *. lia. }
    pose proof (chunk_read cap sealed c rest Hf H18) as Hr. destruct (ChunkWriter_Write random sealed c) as [out c'].
    cbn [fst snd] in *. rewrite (rbind_step _ _ _ _ _ Hr). unfold sealed. by rewrite aead_Open_Seal.
Qed.

Lemma Body_Read_end cap b : roomy cap → Body_Read cap b [] = Err EOF.
Proof using HL.
  intros Hcap. assert (¬ (cap < 2 + CipherOverhead)%nat) as H18 by (unfold roomy, ReadChunkSize, CipherOverhead in *; lia).
  assert (∀ c, ChunkReader_Read cap c [] = Err EOF) as Hc.
  { intros c. unfold ChunkReader_Read. destruct (cs_length c); [done|]. unfold AEADChunkReader_Read. by rewrite decide_False. }
  assert (∀ st, (cfb_Decrypt st []).1 = []) as Hd by (intros st; apply length_zero_iff_nil; by rewrite length_cfb).
  destruct b as [|c|st [c|]|a nonce count c]; cbn [Body_Read]; unfold rbind, under_cfb; rewrite ?Hc, ?Hd; cbn; try done.
  by rewrite Hc.
Qed.

Lemma written_nonempty p b : payload p → (0 < length (Body_Write random p b).1)%nat.
Proof using HL.
  intros [Hp _]. assert (∀ q c, 0 < length q → 0 < length (ChunkWriter_Write random q c).1)%nat as Hc.
  { intros q c Hq. unfold ChunkWriter_Write, StreamChunkWriter_Write, AEADChunkWriter_Write.
    destruct (cs_length c); destruct (next_padding _); [destruct (next_mask _)|]; cbn; rewrite ?length_app; lia. }
  assert (∀ st q, 0 < length q → 0 < length (cfb_Encrypt st q).1)%nat as He.
  { intros st q Hq. pose proof (length_cfb st (cfb_Encrypt st q).1) as Hl. rewrite cfb_Decrypt_Encrypt in Hl. cbn in Hl. lia. }
  destruct b as [|c|st [c|]|a nonce count c]; cbn [Body_Write].
  - done.
  - specialize (Hc p c Hp). by destruct (ChunkWriter_Write _ _ _).
  - specialize (Hc (be32 (fnv32a p) ++ p) c ltac:(simpl; lia)). destruct (ChunkWriter_Write _ _ _) as [out c'].
    specialize (He st out Hc). by destruct (cfb_Encrypt st out).
  - specialize (He st p Hp). by destruct (cfb_Encrypt st p).
  - specialize (Hc (aead_Seal a (nonce_at nonce count) p []) c ltac:(rewrite length_aead_Seal; lia)). by destruct (ChunkWriter_Write _ _ _).
Qed.

Lemma framed_Write p b : framed b → framed (Body_Write random p b).2.
Proof. destruct b as [|c|st [c|]|a nonce count c]; try done; cbn; by repeat case_match. Qed.

Lemma ReadAll_framed ps b fuel cap : framed b → Forall payload ps → roomy cap → (length (Body_WriteAll random ps b) < fuel)%nat →
  Body_ReadAll fuel cap b (Body_WriteAll random ps b) = Ok (concat ps).
Proof using HL random_length.
  intros Hb Hps Hcap. revert b fuel Hb. induction Hps as [|p ps Hp _ IH]; intros b fuel Hb Hf; (destruct fuel as [|fuel]; [lia|]).
  - cbn. by rewrite Body_Read_end.
  - pose proof (written_nonempty p b Hp) as Hne. pose proof (framed_Write p b Hb) as Hb'.
    pose proof (Body_Read_Write cap p b (Body_WriteAll random ps (Body_Write random p b).2) Hb Hp Hcap) as Hr.
    cbn [Body_WriteAll Body_ReadAll concat] in *. destruct (Body_Write random p b) as [out b']. cbn [fst snd] in *.
    rewrite Hr, IH; [done|done|]. rewrite length_app in Hf. lia.
Qed.

Lemma ReadAll_raw s fuel cap : (0 < cap)%nat → (length s < fuel)%nat → Body_ReadAll fuel cap Raw s = Ok s.
Proof.
  revert s. induction fuel as [|fuel IH]; intros s Hcap Hf; [lia|]. destruct s as [|x s]; [done|].
  cbn [Body_ReadAll Body_Read]. unfold rbind, read_some, rret. rewrite IH; [|done|rewrite length_drop; simpl in *; lia].
  cbn [result_bind]. by rewrite take_drop.
Qed.
Lemma ReadAll_stream st s fuel cap : (0 < cap)%nat → (length s < fuel)%nat →
  Body_ReadAll fuel cap (Legacy st None) s = Ok (cfb_Decrypt st s).1.
Proof using HL.
  revert st s. induction fuel as [|fuel IH]; intros st s Hcap Hf; [lia|]. cbn [Body_ReadAll Body_Read].
  unfold rbind, under_cfb, read_some, rret. pose proof (length_cfb st s) as Hl.
  destruct (cfb_Decrypt st s).1 as [|x p] eqn:Ed; [done|]. rewrite length_drop.
  assert (length s - (length (x :: p) - cap) = cap `min` length s)%nat as -> by (cbn [length] in *; lia).
  set (n := (cap `min` length s)%nat). rewrite IH; [|done|rewrite length_drop; cbn [length] in *; lia]. cbn [result_bind].
  rewrite <-(take_drop n s), cfb_Decrypt_app in Ed. pose proof (length_cfb st (take n s)) as Ht.
  destruct (cfb_Decrypt st (take n s)) as [a st']. cbn [fst snd] in *. destruct (cfb_Decrypt st' (drop n s)) as [c st''].
  cbn [fst] in *. rewrite <-Ed. f_equal. f_equal. rewrite length_take in Ht.
  destruct (decide (cap <= length s)%nat).
  - replace cap with (length a) by lia. by rewrite take_app_length.
  - rewrite take_ge; [|rewrite Ed; cbn [length] in *; lia].
    assert (length c = 0%nat) as ->%nil_length_inv by (apply (f_equal length) in Ed; rewrite length_app in Ed; cbn [length] in *; lia).
    by rewrite app_nil_r.
Qed.
Lemma WriteAll_raw ps : Body_WriteAll random ps Raw = concat ps.
Proof. induction ps as [|p ps IH]; [done|]. cbn. by rewrite IH. Qed.
Lemma WriteAll_stream st ps : (cfb_Decrypt st (Body_WriteAll random ps (Legacy st None))).1 = concat ps.
Proof using HL.
  revert st. induction ps as [|p ps IH]; intros st; cbn.
  - apply length_zero_iff_nil. by rewrite length_cfb.
  - pose proof (cfb_Decrypt_Encrypt st p) as Hd. destruct (cfb_Encrypt st p) as [out st'] eqn:E. cbn [fst snd] in Hd.
    rewrite cfb_Decrypt_app, Hd. specialize (IH st'). destruct (cfb_Decrypt st' _). cbn in *. by rewrite IH.
Qed.

(** Whatever the layers, the reader in the state of the writer reads what was
    written, and ends. *)
Lemma body_delivers b ps fuel cap : Forall payload ps → roomy cap → (length (Body_WriteAll random ps b) < fuel)%nat →
  Body_ReadAll fuel cap b (Body_WriteAll random ps b) = Ok (concat ps).
Proof using HL random_length.
  intros Hps Hcap Hf. assert (0 < cap)%nat by (unfold roomy, ReadChunkSize in Hcap; lia).
  destruct b as [|c|st [c|]|a nonce count c]; try (by apply ReadAll_framed).
  - rewrite WriteAll_raw in *. by apply ReadAll_raw.
  - rewrite ReadAll_stream by done. by rewrite WriteAll_stream.
Qed.
End roundtrip.
