(* ===== verification/Vmess.v ===== *)
(** * VMess requests

    Model of src/runtime/sing-box/local-modules/sing-vmess/service.go and client.go,
    and of the identifiers of protocol.go: how a client announces itself and its
    destination, how the service finds the user, refuses replays and old requests
    and decodes the header, in the AEAD and in the legacy form, and how it answers.
    The address serializer, the replay filter and the parsing of UUIDs are
    libraries. *)
From S2P Require Import Prelude Bytes VlessCodec VmessStream.
Open Scope Z_scope.

Definition BufferSize : Z := 32768.
Definition CacheDurationSeconds : Z := 120.
Definition ErrBadHeader : error := ENew "bad header".
Definition ErrBadTimestamp : error := ENew "bad timestamp".
Definition ErrReplay : error := ENew "replayed request".
Definition ErrBadRequest : error := ENew "bad request".
Definition ErrBadVersion : error := ENew "bad version".

(** [time.Time.Unix] and a [uint64] as bytes, and back as an [int64]. *)
Definition be64 (z : Z) : bytes := be32 (Z.shiftr z 32) ++ be32 z.
Definition of_be64 (b : bytes) : Z :=
  match be32_of b, be32_of (drop 4 b) with Some hi, Some lo => hi * 2 ^ 32 + lo | _, _ => 0 end.
Definition int64 (z : Z) : Z := if decide (2 ^ 63 <= z) then z - 2 ^ 64 else z.

(** hash/crc32, [ChecksumIEEE]. *)
Fixpoint crc_bits (n : nat) (c : Z) : Z :=
  match n with
  | 0%nat => c
  | S n => crc_bits n (if Z.odd c then Z.lxor (Z.shiftr c 1) 3988292384 else Z.shiftr c 1)
  end.
Definition crc32 (b : bytes) : Z := Z.lxor (foldl (λ c x, crc_bits 8 (Z.lxor c (val x))) 4294967295 b) 4294967295.

(** replay.Filter: whether the identifier is new at a time, in whole seconds. *)
Class ReplayFilter := {
  Filter : Type;
  Check : Filter → Z → bytes → bool * Filter;
}.
(** The time [NewService] has the filter keep identifiers for. *)
Definition replayTimeout : Z := 120.
(** What replay.NewSimple promises: an identifier that was new is refused until
    the timeout has passed.  Afterwards it may be new again. *)
Class ReplayFilterLaws `{ReplayFilter} := {
  remembers : Filter → bytes → Z → Prop;
  check_remembers f now id f' : Check f now id = (true, f') → remembers f' id (now + replayTimeout);
  remembers_stays f now id id' until : remembers f id until → now < until → remembers (Check f now id').2 id until;
  remembers_refused f now id until : remembers f id until → now < until → (Check f now id).1 = false;
}.

Section vmess.
Context `{VmessCrypto} `{ReplayFilter} {Addr : Type} `{AddrSerializer Addr} (no_addr : Addr).
Context {U : Type} `{Countable U}.
Context (random : nat → bytes).

(** ** Identifiers (protocol.go) *)

Definition Key (user : bytes) : bytes := md5_Sum (user ++ string_bytes "c48619fe-8f02-49e0-b9e9-edf763e17e21").
(** [AlterId]: the hash of more and more input, until it differs; no result when
    it does not within the fuel. *)
Fixpoint alter_loop (fuel : nat) (written user : bytes) : option bytes :=
  match fuel with
  | 0%nat => None
  | S fuel =>
      let newUser := md5_Sum written in
      if decide (user ≠ newUser) then Some newUser
      else alter_loop fuel (written ++ string_bytes "533eff8a-4113-4b10-b5ce-0f5d76b98cd2") user
  end.
Definition AlterId (fuel : nat) (user : bytes) : option bytes :=
  alter_loop fuel (user ++ string_bytes "16167dc8-16b6-4e6d-b8bb-65dd68113a81") user.

Definition id_key (key : bytes) : bytes := take 16 (KDF key "AES Auth ID Encryption" []).
(** [AuthID] at a time, with four random bytes. *)
Definition AuthID (key : bytes) (time : Z) (nonce4 : bytes) : bytes :=
  let plain := be64 time ++ nonce4 in block_Encrypt (id_key key) (plain ++ be32 (crc32 plain)).

(** The keys of a header. *)
Definition length_key (key authId connectionNonce : bytes) : aead :=
  AesGcm (take 16 (KDF key "VMess Header AEAD Key_Length" [authId; connectionNonce])).
Definition length_nonce (key authId connectionNonce : bytes) : bytes :=
  take 12 (KDF key "VMess Header AEAD Nonce_Length" [authId; connectionNonce]).
Definition header_key (key authId connectionNonce : bytes) : aead :=
  AesGcm (take 16 (KDF key "VMess Header AEAD Key" [authId; connectionNonce])).
Definition header_nonce (key authId connectionNonce : bytes) : bytes :=
  take 12 (KDF key "VMess Header AEAD Nonce" [authId; connectionNonce]).
(** The identifier of a legacy user at a time, and the IV of his header. *)
Definition legacy_id (alterId : bytes) (time : Z) : bytes := hmac_New md5_Sum alterId (be64 time).
Definition legacy_iv (time : Z) : bytes := md5_Sum (be64 time ++ be64 time ++ be64 time ++ be64 time).

(** ** The service *)

Record legacyUserEntry := mkLegacyUserEntry { le_User : U; le_Time : Z; le_Index : nat }.
Record Service := mkService {
  userKey : gmap U bytes;
  replayFilter : Filter;
  disableHeaderProtect : bool;
  alterIds : gmap U (list bytes);
  alterIdUpdateTime : gmap U Z;
  alterIdMap : gmap bytes legacyUserEntry;
}.

(** The identifiers of one user from [beginSec] on. *)
Definition user_entries (user : U) (ids : list bytes) (beginSec endSec : Z) : list (bytes * legacyUserEntry) :=
  concat (imap (λ i id, (λ ts, (legacy_id id ts, mkLegacyUserEntry user ts i)) <$> seqZ beginSec (endSec - beginSec + 1)) ids).
Definition generateLegacyKeysLocked (nowSec : Z) (s : Service) : Service :=
  let endSec := nowSec + CacheDurationSeconds in
  let entries := map_to_list (alterIds s) ≫= λ '(user, ids),
    user_entries user ids (Z.max (default 0 (alterIdUpdateTime s !! user)) (nowSec - CacheDurationSeconds)) endSec in
  mkService (userKey s) (replayFilter s) (disableHeaderProtect s) (alterIds s) ((λ _, nowSec) <$> alterIds s)
    (foldl (λ m '(id, e), <[id := e]> m) ∅ entries).

(** [PrepareUsers], over the users with their UUIDs and numbers of alternative
    identifiers: the tables, then what the closure does with them. *)
Fixpoint alter_ids (fuel n : nat) (current : bytes) : option (list bytes) :=
  match n with
  | 0%nat => Some []
  | S n =>
      match AlterId fuel current with
      | None => None
      | Some next => (next ::.) <$> alter_ids fuel n next
      end
  end.
Definition prepare_user (fuel : nat) (t : gmap U bytes * gmap U (list bytes)) (e : U * bytes * Z)
    : option (gmap U bytes * gmap U (list bytes)) :=
  let '(user, uuid, alterId) := e in
  if decide (0 < alterId) then
    match alter_ids fuel (Z.to_nat alterId) uuid with
    | Some ids => Some (<[user := Key uuid]> (t.1), <[user := ids]> (t.2))
    | None => None
    end
  else Some (<[user := Key uuid]> (t.1), t.2).
Fixpoint prepare_users (fuel : nat) (users : list (U * bytes * Z)) (t : gmap U bytes * gmap U (list bytes))
    : option (gmap U bytes * gmap U (list bytes)) :=
  match users with
  | [] => Some t
  | e :: users => match prepare_user fuel t e with Some t => prepare_users fuel users t | None => None end
  end.
Definition commit_users (t : gmap U bytes * gmap U (list bytes)) (nowSec : Z) (s : Service) : Service :=
  generateLegacyKeysLocked nowSec (mkService (t.1) (replayFilter s) (disableHeaderProtect s) (t.2) ∅ ∅).

(** ** Reading a request *)

(** What [ReadOnceFrom] gets of a connection, in pieces as they arrive. *)
Definition read_once (reads : list bytes) : result (bytes * list bytes) :=
  match reads with
  | [] => Err EOF
  | piece :: reads =>
      let n := Z.to_nat BufferSize in
      if decide (length piece <= n)%nat then Ok (piece, reads) else Ok (take n piece, drop n piece :: reads)
  end.
(** [ReadAtLeastFrom], for less than the buffer holds. *)
Fixpoint read_at_least (n : nat) (buffer : bytes) (reads : list bytes) : result (bytes * list bytes) :=
  if decide (n <= length buffer)%nat then Ok (buffer, reads)
  else
    match reads with
    | [] => Err (if decide (buffer = []) then EOF else ErrUnexpectedEOF)
    | piece :: reads =>
        let room := (Z.to_nat BufferSize - length buffer)%nat in
        if decide (length piece <= room)%nat then read_at_least n (buffer ++ piece) reads
        else Ok (buffer ++ take room piece, drop room piece :: reads)
    end.
Definition read_request (s : Service) (reads : list bytes) : result (bytes * list bytes) :=
  let minHeaderLen := if decide (alterIds s ≠ ∅) then (16 + 38)%nat else 100%nat in
  if negb (disableHeaderProtect s) then
    let? (buffer, reads) := read_once reads in
    if decide (length buffer < minHeaderLen)%nat then Err ErrBadHeader else Ok (buffer, reads)
  else read_at_least minHeaderLen [] reads.

(** The loop over the users, whose order is that of the map: [None] when nobody
    is found. *)
Fixpoint find_user (now : Z) (authId : bytes) (order : list (U * bytes)) (f : Filter) : result (option U) * Filter :=
  match order with
  | [] => (Ok None, f)
  | (user, key) :: order =>
      let decodedId := block_Decrypt (id_key key) authId in
      let timestamp := int64 (of_be64 decodedId) in
      if decide (Some (crc32 (take 12 decodedId)) ≠ be32_of (drop 12 decodedId)) then find_user now authId order f
      else if decide (120 < Z.abs (Z.abs timestamp - now)) then (Err ErrBadTimestamp, f)
      else
        match Check f now decodedId with
        | (false, f) => (Err ErrReplay, f)
        | (true, f) => (Ok (Some user), f)
        end
  end.

Record Request := mkVmessRequest {
  vr_User : U;
  vr_Legacy : bool;
  vr_Command : Z;
  vr_Destination : Addr;
  vr_Key : bytes;
  vr_Nonce : bytes;
  vr_ResponseHeader : byte;
  vr_Security : Z;
  vr_Option : Z;
  (** The reader of the body, and what is left for it. *)
  vr_Body : Body;
  vr_Rest : bytes;
}.

(** The address, the padding and the checksum, which is not compared. *)
Definition discard_n (n : Z) (e : error) : reader () := λ s,
  if decide (n <= Z.of_nat (length s)) then Ok ((), drop (Z.to_nat n) s) else Err e.
Definition header_rest (command paddingLen : Z) : reader Addr :=
  let! destination := if decide (command ≠ CommandMux) then ReadAddrPort else rret no_addr in
  let! _ := discard_n paddingLen (ECause ErrBadHeader "bad padding") in
  let! _ := discard_n 4 EOF in
  rret destination.

(** The fields of the header, with [rest] reading what follows its 38 bytes: the
    destination and what is left for the body. *)
Definition parse_header (user : U) (legacy : bool) (h : bytes) (rest : Z → Z → result (Addr * bytes)) : result Request :=
  let byte_at i := default (u8 0) (h !! i) in
  let version := val (byte_at 0%nat) in
  let requestBodyKey := take 16 (drop 17 h) in
  let requestBodyNonce := take 16 (drop 1 h) in
  let option := val (byte_at 34%nat) in
  let paddingLen := Z.shiftr (val (byte_at 35%nat)) 4 in
  let security := Z.land (val (byte_at 35%nat)) 15 in
  let command := val (byte_at 37%nat) in
  if decide (version ≠ 1) then Err ErrBadVersion
  else if decide (command ≠ CommandTCP ∧ command ≠ CommandUDP ∧ command ≠ CommandMux) then Err (ENew "unknown command")
  else if decide (command = CommandUDP ∧ option = 0) then Err (ENew "bad packet connection")
  else
    let? (destination, left_) := rest command paddingLen in
    let? body := CreateReader None requestBodyKey requestBodyNonce requestBodyKey requestBodyNonce security option in
    Ok (mkVmessRequest user legacy command destination requestBodyKey requestBodyNonce (byte_at 33%nat) security option body left_).

(** The AEAD form. *)
Definition decode_aead (authenticated : U → option error) (user : U) (key buffer : bytes) (reads : list bytes) : result Request :=
  let authId := take 16 buffer in
  if decide (length buffer < 100)%nat then Err ErrBadHeader
  else
    let connectionNonce := take 8 (drop 34 buffer) in
    let? lengthBuffer := aead_Open (length_key key authId connectionNonce) (length_nonce key authId connectionNonce)
                           (take 18 (drop 16 buffer)) authId in
    match lengthBuffer with
    | x :: y :: _ =>
        let headerEnd := (42 + Z.to_nat (of_be16 x y) + 16)%nat in
        let? (buffer, left_) :=
          if decide (length buffer < headerEnd)%nat then
            if decide (BufferSize < Z.of_nat headerEnd) then Err ErrShortBuffer
            else let? (more, left_) := read_full (headerEnd - length buffer) (concat reads) in Ok (buffer ++ more, left_)
          else Ok (buffer, concat reads) in
        let? h := aead_Open (header_key key authId connectionNonce) (header_nonce key authId connectionNonce)
                    (take (headerEnd - 42) (drop 42 buffer)) authId in
        if decide (length h <= 38)%nat then Err (ECause ErrBadHeader "short buffer")
        else
          match authenticated user with
          | Some e => Err e
          | None =>
              parse_header user false h (λ command paddingLen,
                let? (destination, _) := header_rest command paddingLen (drop 38 h) in
                Ok (destination, drop headerEnd buffer ++ left_))
          end
    | _ => Err (EPanic "index out of range")
    end.

(** The legacy form: the header under the stream cipher. *)
Definition decode_legacy (authenticated : U → option error) (e : legacyUserEntry) (key : bytes) (data : bytes) : result Request :=
  match under_cfb (NewCFB key (legacy_iv (le_Time e))) (read_full 38) data with
  | Err _ => Err (ECause ErrBadHeader "short buffer")
  | Ok ((h, st), data) =>
      match authenticated (le_User e) with
      | Some e => Err e
      | None =>
          parse_header (le_User e) true h (λ command paddingLen,
            let? ((destination, _), data) := under_cfb st (header_rest command paddingLen) data in
            Ok (destination, data))
      end
  end.

(** The zero value of a key. *)
Definition zero_key : bytes := replicate 16 (u8 0).

(** [NewConnection] up to the call of the handler: the request, and the replay
    filter afterwards. *)
Definition NewConnection (authenticated : U → option error) (now : Z) (order : list (U * bytes)) (reads : list bytes) (s : Service)
    : result Request * Filter :=
  match read_request s reads with
  | Err e => (Err e, replayFilter s)
  | Ok (buffer, reads) =>
      let authId := take 16 buffer in
      match find_user now authId order (replayFilter s) with
      | (Err e, f) => (Err e, f)
      | (Ok (Some user), f) => (decode_aead authenticated user (default zero_key (userKey s !! user)) buffer reads, f)
      | (Ok None, f) =>
          match alterIdMap s !! authId with
          | None => (Err ErrBadRequest, f)
          | Some e => (decode_legacy authenticated e (default zero_key (userKey s !! le_User e)) (drop 16 buffer ++ concat reads), f)
          end
      end
  end.

(** Connections one after the other, over the same users and one filter. *)
Record Arrival := mkArrival { a_now : Z; a_order : list (U * bytes); a_reads : list bytes }.
Definition with_filter (f : Filter) (s : Service) : Service :=
  mkService (userKey s) f (disableHeaderProtect s) (alterIds s) (alterIdUpdateTime s) (alterIdMap s).
Fixpoint serve (authenticated : U → option error) (arrivals : list Arrival) (s : Service) : list (result Request) :=
  match arrivals with
  | [] => []
  | a :: arrivals =>
      let '(r, f) := NewConnection authenticated (a_now a) (a_order a) (a_reads a) s in
      r :: serve authenticated arrivals (with_filter f s)
  end.

(** ** The answer *)

Definition response_key (legacy : bool) (key : bytes) : bytes := if legacy then md5_Sum key else take 16 (sha256_Sum key).
(** [writeResponse]: the header, and the writer of the body. *)
Definition writeResponse (r : Request) : result (bytes * Body) :=
  let responseKey := response_key (vr_Legacy r) (vr_Key r) in
  let responseNonce := response_key (vr_Legacy r) (vr_Nonce r) in
  let header := [vr_ResponseHeader r; u8 (vr_Option r); u8 0; u8 0] in
  if vr_Legacy r then
    let '(out, st) := cfb_Encrypt (NewCFB responseKey responseNonce) header in
    let? body := CreateWriter (Some st) (vr_Key r) (vr_Nonce r) responseKey responseNonce (vr_Security r) (vr_Option r) in
    Ok (out, body)
  else
    let out :=
      aead_Seal (AesGcm (take 16 (KDF responseKey "AEAD Resp Header Len Key" []))) (take 12 (KDF responseNonce "AEAD Resp Header Len IV" [])) (be16 4) []
      ++ aead_Seal (AesGcm (take 16 (KDF responseKey "AEAD Resp Header Key" []))) (take 12 (KDF responseNonce "AEAD Resp Header IV" [])) header [] in
    let? body := CreateWriter None (vr_Key r) (vr_Nonce r) responseKey responseNonce (vr_Security r) (vr_Option r) in
    Ok (out, body).

(** ** The client *)

Record Client := mkClient {
  cl_key : bytes;
  cl_security : Z;
  cl_globalPadding : bool;
  cl_authenticatedLength : bool;
  (** The first alternative identifier of a legacy user. *)
  cl_alterKey : option bytes;
}.
(** [AutoSecurityType] on an architecture, and [NewClient] with a UUID. *)
Definition AutoSecurityType (GOARCH : string) : Z :=
  if decide (GOARCH = "amd64" ∨ GOARCH = "s390x" ∨ GOARCH = "arm64")%string then SecurityTypeAes128Gcm else SecurityTypeChacha20Poly1305.
Definition ErrUnsupportedSecurityType : error := ENew "vmess: unsupported security type".
Definition security_of (GOARCH security : string) : result Z :=
  if decide (security = "auto")%string then Ok (AutoSecurityType GOARCH)
  else if decide (security = "none" ∨ security = "zero")%string then Ok SecurityTypeNone
  else if decide (security = "aes-128-cfb")%string then Ok SecurityTypeLegacy
  else if decide (security = "aes-128-gcm")%string then Ok SecurityTypeAes128Gcm
  else if decide (security = "chacha20-poly1305")%string then Ok SecurityTypeChacha20Poly1305
  else Err (ECause ErrUnsupportedSecurityType security).
Definition NewClient (fuel : nat) (GOARCH : string) (user : bytes) (security : string) (alterId : Z) (padding authenticatedLength : bool) : option (result Client) :=
  match security_of GOARCH security with
  | Err e => Some (Err e)
  | Ok rawSecurity =>
      if decide (0 < alterId) then
        match AlterId fuel user with
        | Some alterKey => Some (Ok (mkClient (Key user) rawSecurity padding authenticatedLength (Some alterKey)))
        | None => None
        end
      else Some (Ok (mkClient (Key user) rawSecurity padding authenticatedLength None))
  end.
Record clientConn := mkClientConn {
  cc_client : Client;
  cc_command : Z;
  cc_option : Z;
  cc_destination : Addr;
  cc_requestKey : bytes;
  cc_requestNonce : bytes;
}.
Definition dial_option (c : Client) (command : Z) : Z :=
  if decide (cl_security c = SecurityTypeNone) then if decide (command = CommandUDP) then RequestOptionChunkStream else 0
  else if decide (cl_security c = SecurityTypeLegacy) then RequestOptionChunkStream
  else if decide (cl_security c = SecurityTypeAes128Gcm ∨ cl_security c = SecurityTypeChacha20Poly1305) then
    Z.lor (Z.lor RequestOptionChunkStream RequestOptionChunkMasking)
      (Z.lor (if cl_globalPadding c then RequestOptionGlobalPadding else 0)
             (if cl_authenticatedLength c then RequestOptionAuthenticatedLength else 0))
  else 0.
Definition dialRaw (c : Client) (command : Z) (destination : Addr) (requestKey requestNonce : bytes) : clientConn :=
  mkClientConn c command (dial_option c command) destination requestKey requestNonce.

(** [encodeHeader], with the response header and the padding; an address that can
    not be written ends it early. *)
Definition header_start (c : clientConn) (paddingLen : Z) (responseHeader : byte) : bytes :=
  [u8 1] ++ cc_requestNonce c ++ cc_requestKey c
  ++ [responseHeader; u8 (cc_option c); u8 (Z.lor (Z.shiftl paddingLen 4) (cl_security (cc_client c))); u8 0; u8 (cc_command c)].
Definition encodeHeader (c : clientConn) (paddingLen : Z) (responseHeader : byte) (padding : bytes) : bytes * option error :=
  let start := header_start c paddingLen responseHeader in
  match (if decide (cc_command c ≠ CommandMux) then WriteAddrPort (cc_destination c) else Ok []) with
  | Err e => (start, Some e)
  | Ok addr => let b := start ++ addr ++ padding in (b ++ be32 (fnv32a b), None)
  end.
Definition header_len (c : clientConn) (paddingLen : Z) : nat :=
  38 + (if decide (cc_command c ≠ CommandMux) then AddrPortLen (cc_destination c) else 0) + Z.to_nat paddingLen + 4.

(** What a handshake draws: the length of the padding, the response header, the
    padding, four and eight random bytes. *)
Record Draw := mkDraw { d_paddingLen : Z; d_responseHeader : byte; d_padding : bytes; d_nonce4 : bytes; d_nonce8 : bytes }.

(** [writeHandshake]: the request and the writer of the body.  Bytes of a buffer
    that nothing was written to are arbitrary. *)
Definition writeHandshake (c : clientConn) (time : Z) (d : Draw) : result (bytes * Body) :=
  let client := cc_client c in
  let '(header, err) := encodeHeader c (d_paddingLen d) (d_responseHeader d) (d_padding d) in
  let create := CreateWriter None (cc_requestKey c) (cc_requestNonce c) (cc_requestKey c) (cc_requestNonce c) (cl_security client) (cc_option c) in
  match cl_alterKey client with
  | Some alterKey =>
      match err with
      | Some e => Err e
      | None =>
          let? body := create in
          Ok (legacy_id alterKey time ++ (cfb_Encrypt (NewCFB (cl_key client) (legacy_iv time)) header).1, body)
      end
  | None =>
      let key := cl_key client in
      let authId := AuthID key time (d_nonce4 d) in
      let nonce := d_nonce8 d in
      let headerLen := header_len c (d_paddingLen d) in
      let sealed := aead_Seal (header_key key authId nonce) (header_nonce key authId nonce) header authId in
      let? body := create in
      Ok (authId ++ aead_Seal (length_key key authId nonce) (length_nonce key authId nonce) (be16 (Z.of_nat headerLen)) authId
            ++ nonce ++ sealed ++ random (headerLen + 16 - length sealed), body)
  end.

(** [readResponse]: the reader of the body and what is left for it.  The AEAD form
    does not compare the response header. *)
Definition readResponse (c : clientConn) (responseHeader : byte) (s : bytes) : result (Body * bytes) :=
  let client := cc_client c in
  let legacy := bool_decide (is_Some (cl_alterKey client)) in
  let responseKey := response_key legacy (cc_requestKey c) in
  let responseNonce := response_key legacy (cc_requestNonce c) in
  let create st := CreateReader st (cc_requestKey c) (cc_requestNonce c) responseKey responseNonce (cl_security client) (cc_option c) in
  if legacy then
    let? ((response, st), s) := under_cfb (NewCFB responseKey responseNonce) (read_full 4) s in
    match response with
    | [b0; _; _; cmdLen] =>
        if decide (b0 ≠ responseHeader) then Err (ENew "bad response header")
        else
          let? (_, s) := discard_n (val cmdLen) EOF s in
          let? body := create (Some st) in
          Ok (body, s)
    | _ => Err (EPanic "index out of range")
    end
  else
    let? (sealedLen, s) := read_full 18 s in
    let? lengthBuffer := aead_Open (AesGcm (take 16 (KDF responseKey "AEAD Resp Header Len Key" []))) (take 12 (KDF responseNonce "AEAD Resp Header Len IV" [])) sealedLen [] in
    let? (headerLen, _) := read_be16 lengthBuffer in
    let? (sealed, s) := read_full (Z.to_nat headerLen + 16) s in
    let? _ := aead_Open (AesGcm (take 16 (KDF responseKey "AEAD Resp Header Key" []))) (take 12 (KDF responseNonce "AEAD Resp Header IV" [])) sealed [] in
    let? body := create None in
    Ok (body, s).
End vmess.
