(* ===== verification/VmessProps.v ===== *)
(** * What VMess sessions deliver

    A client of the service is recognised, its request is decoded, and what the
    two sides write is what the other side reads; a request that is sent again is
    refused. *)
From S2P Require Import Prelude Bytes VlessCodec VmessStream Vmess.
Open Scope Z_scope.

(** ** Numbers *)

Lemma be32_of_written z rest : be32_of (be32 z ++ rest) = Some (z mod 4294967296).
Proof.
  unfold be32. cbn [app be32_of]. f_equal. rewrite !of_be16_val, !val_u8, !Z.shiftr_div_pow2 by lia.
  change (2 ^ 8) with 256. change (2 ^ 16) with 65536. change (2 ^ 24) with 16777216.
  rewrite lor_shiftl_add; [|lia|]; change (2 ^ 16) with 65536; [|Z.to_euclidean_division_equations; lia].
  rewrite <-(digits32 (z mod 4294967296)) by (apply Z.mod_pos_bound; lia).
  assert (∀ k n, 0 < k → 4294967296 = k * 256 * n → 0 < n → (z mod 4294967296) / k mod 256 = z / k mod 256) as Hd.
  { intros k n Hk -> Hpos. pose proof (Z.div_mod z (k * 256 * n)) as Hz. set (q := z / (k * 256 * n)) in *.
    set (r := z mod (k * 256 * n)) in *. replace z with (r + n * q * 256 * k) by nia.
    rewrite Z.div_add, Z.mod_add by lia. done. }
  rewrite (Hd 16777216 1), (Hd 65536 256), (Hd 256 65536) by lia.
  specialize (Hd 1 16777216). rewrite !Z.div_1_r in Hd. by rewrite Hd by lia.
Qed.
Lemma of_be64_be64 t rest : 0 <= t < 2 ^ 63 → int64 (of_be64 (be64 t ++ rest)) = t.
Proof.
  intros Ht. unfold of_be64, be64. rewrite <-app_assoc, be32_of_written. change (drop 4 (be32 ?a ++ ?r)) with r. rewrite be32_of_written.
  rewrite Z.shiftr_div_pow2 by lia. change (2 ^ 32) with 4294967296. change (2 ^ 63) with 9223372036854775808 in Ht.
  rewrite (Z.mod_small (t / _)) by (Z.to_euclidean_division_equations; lia).
  assert (t / 4294967296 * 4294967296 + t mod 4294967296 = t) as -> by (pose proof (Z.div_mod t 4294967296); lia).
  unfold int64. rewrite decide_False by lia. done.
Qed.
Lemma crc32_range b : 0 <= crc32 b < 4294967296.
Proof.
  change 4294967296 with (2 ^ 32). assert (∀ n c, 0 <= c < 2 ^ 32 → 0 <= crc_bits n c < 2 ^ 32) as Hbits.
  { induction n as [|n IH]; intros c Hc; [done|]. cbn [crc_bits]. apply IH.
    assert (0 <= Z.shiftr c 1 < 2 ^ 32) by (rewrite Z.shiftr_div_pow2 by lia; change (2 ^ 1) with 2; Z.to_euclidean_division_equations; lia).
    destruct (Z.odd c); [apply lxor_bound; lia|done]. }
  unfold crc32. apply lxor_bound; [lia| |lia]. induction b as [|x b IH] using rev_ind; [cbn; lia|].
  rewrite foldl_snoc. apply Hbits, lxor_bound; [lia|done|]. pose proof (val_range x). lia.
Qed.

(** ** Headers *)

Definition known_security (z : Z) : Prop :=
  z = SecurityTypeLegacy ∨ z = SecurityTypeAes128Gcm ∨ z = SecurityTypeChacha20Poly1305 ∨ z = SecurityTypeNone.

Section session.
Context `{VmessCrypto} {HL : VmessCryptoLaws} `{ReplayFilter} {HF : ReplayFilterLaws}.
Context {Addr : Type} `{AddrSerializer Addr} (plain : Addr → Prop) {HA : AddrSerializerLaws Addr plain} (no_addr : Addr).
Context {U : Type} `{Countable U}.
Context (random : nat → bytes) (random_length : ∀ n, length (random n) = n).

(** Both sides build the same layers, but for a legacy stream without chunks. *)
Lemma create_agree st rk rn key nonce security option :
  known_security security → (security = SecurityTypeLegacy → has_option option RequestOptionChunkStream = true) →
  ∃ b, CreateReader st rk rn key nonce security option = Ok b ∧ CreateWriter st rk rn key nonce security option = Ok b.
Proof.
  intros Hk Hl. unfold CreateReader, CreateWriter. destruct Hk as [-> | [-> | [-> | ->]]]; cbn; [|by eexists..].
  rewrite Hl by done. by eexists.
Qed.
Lemma dial_option_ok c command : known_security (cl_security c) →
  0 <= dial_option c command < 256 ∧ (cl_security c = SecurityTypeLegacy → has_option (dial_option c command) RequestOptionChunkStream = true) ∧
  (command = CommandUDP → dial_option c command ≠ 0).
Proof.
  unfold dial_option. destruct c as [key sec gp al ak]. cbn.
  intros [-> | [-> | [-> | ->]]]; cbn -[decide]; repeat (case_decide; try done); destruct gp, al; cbn; repeat split; try lia; try done.
Qed.

Definition conn_ok (c : clientConn (Addr := Addr)) : Prop := length (cc_requestKey c) = 16%nat ∧ length (cc_requestNonce c) = 16%nat.

Lemma security_byte pad sec : 0 <= pad < 16 → known_security sec →
  let b := val (u8 (Z.lor (Z.shiftl pad 4) sec)) in Z.shiftr b 4 = pad ∧ Z.land b 15 = sec.
Proof.
  intros Hpad Hsec. assert (0 <= sec < 16) as Hs.
  { destruct Hsec as [-> | [-> | [-> | ->]]]; unfold SecurityTypeLegacy, SecurityTypeAes128Gcm, SecurityTypeChacha20Poly1305, SecurityTypeNone; lia. }
  rewrite lor_shiftl_add by lia. change (2 ^ 4) with 16. cbv zeta. rewrite val_u8_small by lia.
  rewrite Z.shiftr_div_pow2 by lia. change 15 with (Z.ones 4). rewrite Z.land_ones by lia. change (2 ^ 4) with 16.
  Z.to_euclidean_division_equations; lia.
Qed.

(** What the fields of an encoded header are. *)
Lemma parse_encoded (user : U) legacy (c : clientConn (Addr := Addr)) pad resp tail (rest : Z → Z → result (Addr * bytes)) destination left_ body :
  conn_ok c → 0 <= pad < 16 → known_security (cl_security (cc_client c)) → 0 <= cc_option c < 256 →
  cc_command c = CommandTCP ∨ cc_command c = CommandUDP ∨ cc_command c = CommandMux →
  (cc_command c = CommandUDP → cc_option c ≠ 0) →
  rest (cc_command c) pad = Ok (destination, left_) →
  CreateReader None (cc_requestKey c) (cc_requestNonce c) (cc_requestKey c) (cc_requestNonce c) (cl_security (cc_client c)) (cc_option c) = Ok body →
  parse_header user legacy (header_start c pad resp ++ tail) rest
  = Ok (mkVmessRequest user legacy (cc_command c) destination (cc_requestKey c) (cc_requestNonce c) resp
          (cl_security (cc_client c)) (cc_option c) body left_).
Proof.
  intros [Hk Hn] Hpad Hsec Hopt Hcmd Hudp Hrest Hbody. pose proof (security_byte pad _ Hpad Hsec) as [Hp Hs].
  assert (0 <= cc_command c < 256) as Hc by (destruct Hcmd as [-> | [-> | ->]]; unfold CommandTCP, CommandUDP, CommandMux; lia).
  destruct c as [client command option dest key nonce]. cbn [cc_client cc_command cc_option cc_requestKey cc_requestNonce] in *.
  do 16 (destruct key as [|? key]; [done|]). destruct key; [|done].
  do 16 (destruct nonce as [|? nonce]; [done|]). destruct nonce; [|done].
  unfold parse_header, header_start. cbn [cc_client cc_command cc_option cc_requestKey cc_requestNonce app].
  cbn [lookup list_lookup take drop default id]. rewrite !val_u8_small, Hp, Hs by lia.
  rewrite decide_False by (intros Hne; by apply Hne). rewrite decide_False by tauto. rewrite decide_False by (intros [??]; by apply Hudp).
  rewrite Hrest. cbn [result_bind]. by rewrite Hbody.
Qed.
Lemma length_header_start (c : clientConn (Addr := Addr)) pad resp : conn_ok c → length (header_start c pad resp) = 38%nat.
Proof. intros [Hk Hn]. unfold header_start. rewrite !length_app, Hk, Hn. done. Qed.

(** The destination behind the fixed part. *)
Lemma header_rest_encoded (c : clientConn (Addr := Addr)) pad addr padding sum rest :
  0 <= pad → length padding = Z.to_nat pad → length sum = 4%nat →
  (cc_command c ≠ CommandMux → plain (cc_destination c) ∧ WriteAddrPort (cc_destination c) = Ok addr) →
  (cc_command c = CommandMux → addr = []) →
  header_rest no_addr (cc_command c) pad (addr ++ padding ++ sum ++ rest)
  = Ok (if decide (cc_command c = CommandMux) then no_addr else cc_destination c, rest).
Proof using HA.
  intros Hpad Hp Hs Haddr Hmux. unfold header_rest.
  assert ((if decide (cc_command c ≠ CommandMux) then ReadAddrPort else rret no_addr) (addr ++ padding ++ sum ++ rest)
          = Ok (if decide (cc_command c = CommandMux) then no_addr else cc_destination c, padding ++ sum ++ rest)) as Hr.
  { destruct (decide (cc_command c = CommandMux)) as [Hm|Hm].
    - rewrite decide_False by auto. by rewrite (Hmux Hm).
    - rewrite decide_True by done. destruct (Haddr Hm) as [Hpl Hw]. by apply read_written. }
  rewrite (rbind_step _ _ _ _ _ Hr). clear Hr.
  assert (∀ n e x y, length x = Z.to_nat n → 0 <= n → discard_n n e (x ++ y) = Ok ((), y)) as Hd.
  { intros n e x y Hx Hn. unfold discard_n. rewrite decide_True by (rewrite length_app; lia). by rewrite <-Hx, drop_app_length. }
  rewrite (rbind_step _ _ _ _ _ (Hd pad _ padding (sum ++ rest) Hp Hpad)).
  by rewrite (rbind_step _ _ _ _ _ (Hd 4 EOF sum rest ltac:(by rewrite Hs) ltac:(lia))).
Qed.

(** A client that was created has a security type that both sides know. *)
Lemma NewClient_known fuel GOARCH user security alterId padding authenticatedLength c :
  NewClient fuel GOARCH user security alterId padding authenticatedLength = Some (Ok c) → known_security (cl_security c) ∧ cl_key c = Key user.
Proof.
  unfold NewClient, security_of, AutoSecurityType, known_security. intros Hc.
  repeat (case_decide || destruct (AlterId _ _)); simplify_eq; cbn; tauto.
Qed.

(** ** Decoding *)

Lemma slice_prefix m n (a b : bytes) : (m + n <= length a)%nat → take n (drop m a) = take n (drop m (a ++ b)).
Proof. intros Hn. rewrite drop_app_le by lia. rewrite take_app_le; [done|rewrite length_drop; lia]. Qed.

(** Filling the buffer up to [n] bytes keeps what was read in front of the rest. *)
Definition filled (n : nat) (buffer : bytes) (reads : list bytes) : result (bytes * bytes) :=
  if decide (length buffer < n)%nat then
    if decide (BufferSize < Z.of_nat n) then Err ErrShortBuffer
    else let? (more, left_) := read_full (n - length buffer) (concat reads) in Ok (buffer ++ more, left_)
  else Ok (buffer, concat reads).
Lemma filled_ok n buffer reads : (n <= length (buffer ++ concat reads))%nat → Z.of_nat n <= BufferSize →
  ∃ b' left_, filled n buffer reads = Ok (b', left_) ∧ b' ++ left_ = buffer ++ concat reads ∧ (n <= length b')%nat.
Proof.
  intros Hn Hb. rewrite length_app in Hn. unfold filled. case_decide; [|exists buffer, (concat reads); split_and!; [done|done|lia]].
  rewrite decide_False by lia. unfold read_full. rewrite decide_True by lia. cbn [result_bind].
  eexists _, _. split_and!; [done|by rewrite <-app_assoc, take_drop|]. rewrite length_app, length_take. lia.
Qed.

Lemma decode_aead_wire authenticated (user : U) key buffer reads authId nonce header rest :
  let sealed_len := aead_Seal (length_key key authId nonce) (length_nonce key authId nonce) (be16 (Z.of_nat (length header))) authId in
  let sealed := aead_Seal (header_key key authId nonce) (header_nonce key authId nonce) header authId in
  buffer ++ concat reads = authId ++ sealed_len ++ nonce ++ sealed ++ rest →
  length authId = 16%nat → length nonce = 8%nat → (100 <= length buffer)%nat →
  (38 < length header)%nat → Z.of_nat (length header) + 58 <= BufferSize → authenticated user = None →
  decode_aead no_addr authenticated user key buffer reads
  = parse_header user false header (λ command paddingLen,
      let? (destination, _) := header_rest no_addr command paddingLen (drop 38 header) in Ok (destination, rest)).
Proof using HL.
  intros sealed_len sealed Hwire Hid Hnonce H100 H38 Hbuf Hauth.
  assert (length sealed_len = 18%nat) as Hsl by apply length_aead_Seal.
  assert (length sealed = length header + 16)%nat as Hs by apply length_aead_Seal.
  set (full := buffer ++ concat reads) in *. set (tail1 := nonce ++ sealed ++ rest) in *.
  assert (take 16 buffer = authId) as E1.
  { rewrite <-(drop_0 buffer), (slice_prefix 0 16 buffer (concat reads)), drop_0 by lia. fold full. rewrite Hwire. by apply take_app_length'. }
  assert (take 18 (drop 16 buffer) = sealed_len) as E2.
  { rewrite (slice_prefix 16 18 buffer (concat reads)) by lia. fold full. rewrite Hwire, drop_app_length' by done. by apply take_app_length'. }
  assert (take 8 (drop 34 buffer) = nonce) as E3.
  { rewrite (slice_prefix 34 8 buffer (concat reads)) by lia. fold full. rewrite Hwire, app_assoc.
    rewrite drop_app_length' by (rewrite length_app; lia). by apply take_app_length'. }
  unfold decode_aead. rewrite E1, E2, E3. rewrite decide_False by lia. unfold sealed_len. rewrite aead_Open_Seal. cbn [result_bind be16].
  rewrite of_be16_be16. unfold BufferSize in Hbuf. rewrite Z.mod_small by lia. rewrite Nat2Z.id.
  set (headerEnd := (42 + length header + 16)%nat). fold (filled headerEnd buffer reads).
  destruct (filled_ok headerEnd buffer reads) as (b' & left_ & -> & Hfull & Hlen).
  { fold full. rewrite Hwire. unfold tail1. rewrite !length_app. lia. }
  { unfold BufferSize. lia. }
  cbn [result_bind]. fold full in Hfull.
  assert (take (headerEnd - 42) (drop 42 b') = sealed ∧ drop headerEnd b' ++ left_ = rest) as [E4 E5].
  { assert (full = (authId ++ sealed_len ++ nonce) ++ sealed ++ rest) as Hsplit by (rewrite Hwire; unfold tail1; by rewrite <-!app_assoc).
    assert (length (authId ++ sealed_len ++ nonce) = 42%nat) as H42 by (rewrite !length_app; lia). split.
    - rewrite (slice_prefix 42 _ b' left_), Hfull, Hsplit by lia. rewrite drop_app_length' by done.
      apply take_app_length'. lia.
    - rewrite <-drop_app_le by lia. rewrite Hfull, Hsplit, app_assoc.
      apply drop_app_length'. rewrite length_app. lia. }
  rewrite E4, E5. unfold sealed. rewrite aead_Open_Seal. cbn [result_bind]. rewrite decide_False by lia. by rewrite Hauth.
Qed.

Lemma under_cfb_step {A} st w p q (r : reader A) a :
  (cfb_Decrypt st w).1 = p ++ q → r (p ++ q) = Ok (a, q) →
  ∃ st', under_cfb st r w = Ok ((a, st'), drop (length p) w) ∧ (cfb_Decrypt st' (drop (length p) w)).1 = q.
Proof using HL.
  intros Hd Hr. pose proof (length_cfb st w) as Hl. rewrite Hd, length_app in Hl. unfold under_cfb. rewrite Hd, Hr.
  replace (length w - length q)%nat with (length p) by lia. eexists. split; [done|].
  rewrite <-(take_drop (length p) w), cfb_Decrypt_app in Hd. pose proof (length_cfb st (take (length p) w)) as Ht.
  rewrite length_take in Ht. destruct (cfb_Decrypt st (take (length p) w)) as [x st']. cbn [fst snd] in *.
  destruct (cfb_Decrypt st' (drop (length p) w)) as [y st'']. cbn [fst] in *. apply app_inj_1 in Hd; [naive_solver|lia].
Qed.

Lemma length_encrypt st m : length (cfb_Encrypt st m).1 = length m.
Proof using HL. by rewrite <-(length_cfb st), cfb_Decrypt_Encrypt. Qed.

Lemma parse_header_ext (user : U) legacy h (f g : Z → Z → result (Addr * bytes)) :
  (∀ command pad, f command pad = g command pad) → parse_header user legacy h f = parse_header user legacy h g.
Proof. intros Hfg. unfold parse_header. repeat case_decide; try done. by rewrite Hfg. Qed.

Lemma decode_legacy_wire authenticated (e : legacyUserEntry (U := U)) key start tail_ rest command pad destination :
  length start = 38%nat → authenticated (le_User e) = None →
  (∀ rest, header_rest no_addr command pad (tail_ ++ rest) = Ok (destination, rest)) →
  ∃ f, decode_legacy no_addr authenticated e key ((cfb_Encrypt (NewCFB key (legacy_iv (le_Time e))) (start ++ tail_)).1 ++ rest)
       = parse_header (le_User e) true start f ∧ f command pad = Ok (destination, rest).
Proof using HL.
  intros Hstart Hauth Hrest. unfold decode_legacy. set (st := NewCFB _ _). set (w := (cfb_Encrypt st (start ++ tail_)).1 ++ rest).
  assert (∃ q, (cfb_Decrypt st w).1 = start ++ tail_ ++ q) as [q Hq].
  { unfold w. rewrite cfb_Decrypt_app, cfb_Decrypt_Encrypt. destruct (cfb_Decrypt _ rest) as [q st']. exists q. cbn. by rewrite <-app_assoc. }
  destruct (under_cfb_step st w start (tail_ ++ q) (read_full 38) start Hq) as (st1 & -> & Hq1).
  { rewrite <-Hstart. apply read_full_app. }
  rewrite Hauth. eexists. split; [done|]. cbv beta.
  destruct (under_cfb_step st1 (drop (length start) w) tail_ q (header_rest no_addr command pad) destination Hq1 (Hrest q))
    as (st2 & -> & _). cbn [result_bind]. do 2 f_equal. rewrite drop_drop. unfold w.
  apply drop_app_length'. by rewrite length_encrypt, length_app.
Qed.

(** ** Recognising the client *)

Definition auth_plain (time : Z) (nonce4 : bytes) : bytes := (be64 time ++ nonce4) ++ be32 (crc32 (be64 time ++ nonce4)).
Definition checksum_ok (decodedId : bytes) : Prop := Some (crc32 (take 12 decodedId)) = be32_of (drop 12 decodedId).

Lemma AuthID_decodes key time nonce4 : length nonce4 = 4%nat → block_Decrypt (id_key key) (AuthID key time nonce4) = auth_plain time nonce4.
Proof using HL. intros Hn. apply block_Decrypt_Encrypt. unfold auth_plain. rewrite !length_app, Hn. done. Qed.
Lemma auth_plain_ok time nonce4 : length nonce4 = 4%nat → 0 <= time < 2 ^ 63 →
  checksum_ok (auth_plain time nonce4) ∧ int64 (of_be64 (auth_plain time nonce4)) = time.
Proof.
  intros Hn Ht. unfold checksum_ok, auth_plain. assert (length (be64 time ++ nonce4) = 12%nat) as Hl by (rewrite length_app, Hn; done). split.
  - rewrite take_app_length', drop_app_length' by done. rewrite <-(app_nil_r (be32 _)), be32_of_written.
    by rewrite Z.mod_small by apply crc32_range.
  - rewrite <-app_assoc. by apply of_be64_be64.
Qed.

Lemma find_user_skip now authId (pre order : list (U * bytes)) f :
  Forall (λ e, ¬ checksum_ok (block_Decrypt (id_key e.2) authId)) pre →
  find_user now authId (pre ++ order) f = find_user now authId order f.
Proof. induction 1 as [|[u k] pre Hu _ IH]; [done|]. cbn. by rewrite decide_True. Qed.
Lemma find_user_found now (u : U) key time nonce4 post f f' :
  length nonce4 = 4%nat → 0 <= time < 2 ^ 63 → Z.abs (time - now) <= 120 →
  Check f now (auth_plain time nonce4) = (true, f') →
  find_user now (AuthID key time nonce4) ((u, key) :: post) f = (Ok (Some u), f').
Proof using HL.
  intros Hn Ht Hnow Hc. destruct (auth_plain_ok time nonce4 Hn Ht) as [Hsum Htime]. unfold find_user. rewrite AuthID_decodes by done.
  rewrite decide_False by (intros Hne; by apply Hne). rewrite Htime, (Z.abs_eq time), decide_False by lia. by rewrite Hc.
Qed.
(** ** Answering *)

Lemma response_is_read (c : clientConn (Addr := Addr)) resp (r : Request (Addr := Addr) (U := U)) s :
  known_security (cl_security (cc_client c)) → 
  (cl_security (cc_client c) = SecurityTypeLegacy → has_option (cc_option c) RequestOptionChunkStream = true) →
  vr_Legacy r = bool_decide (is_Some (cl_alterKey (cc_client c))) → vr_Key r = cc_requestKey c → vr_Nonce r = cc_requestNonce c →
  vr_ResponseHeader r = resp → vr_Security r = cl_security (cc_client c) → vr_Option r = cc_option c →
  ∃ out body, writeResponse r = Ok (out, body) ∧ readResponse c resp (out ++ s) = Ok (body, s).
Proof using HL.
  intros Hsec Hchunk Hleg Hk Hn Hresp Hs Ho. unfold writeResponse, readResponse. rewrite Hleg, Hk, Hn, Hs, Ho, Hresp.
  destruct (bool_decide _).
  - set (st := NewCFB _ _). set (h := [resp; _; _; _]).
    pose proof (under_cfb_read st (read_full 4) h s h (λ rest, read_full_app h rest)) as Hread.
    destruct (cfb_Encrypt st h) as [out st']. cbn [fst snd] in *.
    destruct (create_agree (Some st') (cc_requestKey c) (cc_requestNonce c) (response_key true (cc_requestKey c))
                (response_key true (cc_requestNonce c)) _ _ Hsec Hchunk) as (b & Hr & Hw).
    rewrite Hw. cbn [result_bind]. eexists _, _. split; [done|]. rewrite Hread. cbn [result_bind h].
    rewrite decide_False by auto. unfold discard_n. rewrite decide_True by (change (val (u8 0)) with 0; lia).
    change (val (u8 0)) with 0. cbn [result_bind Z.to_nat drop]. by rewrite Hr.
  - destruct (create_agree None (cc_requestKey c) (cc_requestNonce c) (response_key false (cc_requestKey c))
                (response_key false (cc_requestNonce c)) _ _ Hsec Hchunk) as (b & Hr & Hw).
    rewrite Hw. cbn [result_bind]. eexists _, _. split; [done|]. rewrite <-app_assoc.
    set (l := aead_Seal _ _ (be16 4) []). assert (length l = 18%nat) as Hl by apply length_aead_Seal.
    assert (∀ rest, read_full 18 (l ++ rest) = Ok (l, rest)) as -> by (intros rest; rewrite <-Hl; apply read_full_app).
    cbn [result_bind]. unfold l. rewrite aead_Open_Seal. cbn [result_bind]. rewrite <-(app_nil_r (be16 4)), read_be16_app by lia.
    cbn [result_bind]. set (h := aead_Seal _ _ [resp; _; _; _] []).
    assert (length h = (Z.to_nat 4 + 16)%nat) as Hh by apply length_aead_Seal.
    assert (∀ rest, read_full (Z.to_nat 4 + 16) (h ++ rest) = Ok (h, rest)) as -> by (intros rest; rewrite <-Hh; apply read_full_app).
    cbn [result_bind]. unfold h. rewrite aead_Open_Seal. cbn [result_bind]. by rewrite Hr.
Qed.

(** ** A session *)

(** What a handshake draws has the lengths it asks for. *)
Definition draw_ok (d : Draw) : Prop :=
  0 <= d_paddingLen d < 16 ∧ length (d_padding d) = Z.to_nat (d_paddingLen d) ∧ length (d_nonce4 d) = 4%nat ∧ length (d_nonce8 d) = 8%nat.
(** The destination can be written, and the header fits the buffer of the service. *)
Definition destination_ok (c : clientConn (Addr := Addr)) (addr : bytes) : Prop :=
  (cc_command c ≠ CommandMux → plain (cc_destination c) ∧ WriteAddrPort (cc_destination c) = Ok addr) ∧
  (cc_command c = CommandMux → addr = []).
Definition is_legacy (c : clientConn (Addr := Addr)) : bool := bool_decide (is_Some (cl_alterKey (cc_client c))).

(** The service knows the client as [u]: by his key, no user that is tried before
    having an identifier that decodes to the same checksum, the clocks agreeing
    and the filter not having seen the identifier; or by a legacy identifier. *)
Definition recognised (s : Service (U := U)) (now : Z) (order : list (U * bytes)) (c : Client) (time : Z) (nonce4 : bytes) (u : U) (f' : Filter) : Prop :=
  match cl_alterKey c with
  | None =>
      ∃ pre post, order = pre ++ (u, cl_key c) :: post ∧
        Forall (λ e, ¬ checksum_ok (block_Decrypt (id_key e.2) (AuthID (cl_key c) time nonce4))) pre ∧
        0 <= time < 2 ^ 63 ∧ Z.abs (time - now) <= CacheDurationSeconds ∧
        Check (replayFilter s) now (auth_plain time nonce4) = (true, f')
  | Some alterKey =>
      Forall (λ e, ¬ checksum_ok (block_Decrypt (id_key e.2) (legacy_id alterKey time))) order ∧ alterIds s ≠ ∅ ∧
      (∃ i, alterIdMap s !! legacy_id alterKey time = Some (mkLegacyUserEntry u time i)) ∧ f' = replayFilter s
  end ∧ userKey s !! u = Some (cl_key c).

(** The bytes of a request that have to be there at once: the first read brings
    them, or the service goes on reading until it has them, which it does when
    header protection is off, for as many as its users of the shorter form need. *)
Definition needed (c : clientConn (Addr := Addr)) : nat := if is_legacy c then 54%nat else 100%nat.
Definition arrives_ok (s : Service (U := U)) (c : clientConn (Addr := Addr)) (reads : list bytes) : Prop :=
  (∃ first more, reads = first :: more ∧ (needed c <= length first)%nat) ∨
  (disableHeaderProtect s = true ∧ (is_legacy c = true ∨ alterIds s = ∅)).

Definition encoded (c : clientConn (Addr := Addr)) (d : Draw) (addr : bytes) : bytes :=
  let b := header_start c (d_paddingLen d) (d_responseHeader d) ++ addr ++ d_padding d in b ++ be32 (fnv32a b).
Lemma encodeHeader_ok c d addr : destination_ok c addr →
  encodeHeader c (d_paddingLen d) (d_responseHeader d) (d_padding d) = (encoded c d addr, None).
Proof.
  intros [Hw Hm]. unfold encodeHeader, encoded. destruct (decide (cc_command c = CommandMux)) as [E|E].
  - rewrite decide_False by auto. by rewrite Hm.
  - rewrite decide_True by done. by rewrite (proj2 (Hw E)).
Qed.
Lemma length_encoded c d addr : conn_ok c → draw_ok d → destination_ok c addr → length (encoded c d addr) = header_len c (d_paddingLen d).
Proof using HA.
  intros Hc (Hpad & Hp & _) [Hw Hm]. unfold encoded, header_len. cbv zeta. rewrite !length_app, length_header_start, Hp by done.
  change (length (be32 _)) with 4%nat. destruct (decide (cc_command c = CommandMux)) as [E|E].
  - rewrite decide_False by auto. rewrite Hm by done. cbn [length]. lia.
  - rewrite decide_True by done. destruct (Hw E) as [_ Ha]. rewrite (write_length _ _ Ha). lia.
Qed.

(** Reading on until there is enough. *)
Lemma read_at_least_ok n reads buffer : (n <= length (buffer ++ concat reads))%nat → Z.of_nat n <= BufferSize →
  ∃ b' left_, read_at_least n buffer reads = Ok (b', left_) ∧ b' ++ concat left_ = buffer ++ concat reads ∧ (n <= length b')%nat.
Proof.
  intros Htotal Hn. revert buffer Htotal. induction reads as [|piece reads IH]; intros buffer Htotal; cbn [read_at_least concat].
  - rewrite app_nil_r in Htotal. rewrite decide_True by done. by exists buffer, [].
  - case_decide; [by exists buffer, (piece :: reads)|]. case_decide.
    + destruct (IH (buffer ++ piece)) as (b' & left_ & -> & Hcat & Hlen); [by rewrite <-app_assoc|]. exists b', left_. by rewrite Hcat, <-app_assoc.
    + eexists _, _. split; [done|]. cbn [concat]. split; [by rewrite <-app_assoc, (app_assoc (take _ _)), take_drop|].
      rewrite length_app, length_take. lia.
Qed.

Section one_session.
Context (cl : Client) (command : Z) (dest : Addr) (key nonce : bytes) (d : Draw) (addr : bytes) (time : Z).
Let c : clientConn := dialRaw cl command dest key nonce.
Context (Hsec : known_security (cl_security cl)) (Hcmd : command = CommandTCP ∨ command = CommandUDP ∨ command = CommandMux).
Context (Hc : conn_ok c) (Hd : draw_ok d) (Haddr : destination_ok c addr).
Context (Hlen : Z.of_nat (header_len c (d_paddingLen d)) + 58 <= BufferSize).

(** The request as the service decodes it. *)
Definition decoded (u : U) (body : Body) (rest : bytes) : Request :=
  mkVmessRequest u (is_legacy c) command (if decide (command = CommandMux) then no_addr else dest) key nonce
    (d_responseHeader d) (cl_security cl) (dial_option cl command) body rest.

Lemma parse_own (u : U) tail_ rest f body :
  CreateReader None key nonce key nonce (cl_security cl) (dial_option cl command) = Ok body →
  f command (d_paddingLen d) = Ok (if decide (command = CommandMux) then no_addr else dest, rest) →
  parse_header u (is_legacy c) (header_start c (d_paddingLen d) (d_responseHeader d) ++ tail_) f = Ok (decoded u body rest).
Proof using Hsec Hcmd Hc Hd.
  intros Hb Hf. destruct Hd as (Hpad & _). destruct (dial_option_ok cl command Hsec) as (Ho & _ & Hudp). by apply parse_encoded.
Qed.
Lemma rest_own rest : header_rest no_addr command (d_paddingLen d)
    (addr ++ d_padding d ++ be32 (fnv32a (header_start c (d_paddingLen d) (d_responseHeader d) ++ addr ++ d_padding d)) ++ rest)
  = Ok (if decide (command = CommandMux) then no_addr else dest, rest).
Proof using HA Hd Haddr.
  destruct Hd as (Hpad & Hp & _), Haddr as [Hw Hm]. apply (header_rest_encoded c); [lia|done|done|done|done].
Qed.
Lemma own_body : ∃ body, CreateReader None key nonce key nonce (cl_security cl) (dial_option cl command) = Ok body ∧
  CreateWriter None key nonce key nonce (cl_security cl) (dial_option cl command) = Ok body.
Proof using Hsec. destruct (dial_option_ok cl command Hsec) as (_ & Hl & _). by apply create_agree. Qed.

(** The shape of the encoded header behind its fixed part. *)
Lemma encoded_split : encoded c d addr = header_start c (d_paddingLen d) (d_responseHeader d) ++
  (addr ++ d_padding d ++ be32 (fnv32a (header_start c (d_paddingLen d) (d_responseHeader d) ++ addr ++ d_padding d))).
Proof. unfold encoded. by rewrite <-!app_assoc. Qed.

Lemma read_request_arrived (s : Service (U := U)) reads :
  arrives_ok s c reads → (needed c <= length (concat reads))%nat → (is_legacy c = true → alterIds s ≠ ∅) →
  ∃ buffer left_, read_request s reads = Ok (buffer, left_) ∧ buffer ++ concat left_ = concat reads ∧ (needed c <= length buffer)%nat.
Proof.
  intros Harr Htotal Hleg. unfold read_request. set (least := if decide _ then _ else _).
  assert (least <= 100)%nat as H100 by (unfold least; case_decide; lia).
  assert (least <= needed c)%nat as Hle.
  { unfold needed, least. destruct (is_legacy c); [by rewrite decide_True by auto|]. case_decide; lia. }
  destruct Harr as [(first & more & -> & Hfirst)|[-> Hshort]].
  - assert (∃ buffer left_, read_once (first :: more) = Ok (buffer, left_) ∧ read_at_least least [] (first :: more) = Ok (buffer, left_) ∧
      buffer ++ concat left_ = concat (first :: more) ∧ (needed c <= length buffer)%nat) as (buffer & left_ & Hone & Hmany & Hcat & Hgot).
    { assert (needed c <= 100)%nat by (unfold needed; destruct (is_legacy c); lia).
      assert (0 < least)%nat by (unfold least; case_decide; lia). change (Z.to_nat BufferSize) with (Z.to_nat 32768) in *.
      assert (100 < Z.to_nat 32768)%nat by lia. cbn [read_once read_at_least length]. rewrite (decide_False (P := (least <= 0)%nat)) by lia.
      change (Z.to_nat BufferSize) with (Z.to_nat 32768). rewrite Nat.sub_0_r. case_decide.
      - exists first, more. split_and!; [done| |done|done]. destruct more; cbn [read_at_least app]; by rewrite decide_True by lia.
      - eexists _, _. split_and!; [done..| |rewrite length_take; lia]. cbn [concat]. by rewrite app_assoc, take_drop. }
    rewrite Hone, Hmany. cbn [result_bind]. exists buffer, left_. destruct (disableHeaderProtect s); cbn [negb]; [done|].
    rewrite decide_False by lia. done.
  - cbn [negb]. assert (needed c = least) as Heq.
    { unfold needed, least in *. destruct Hshort as [Hl|He].
      - rewrite Hl. by rewrite decide_True by auto.
      - rewrite decide_False by (intros Hn; by apply Hn). destruct (is_legacy c); [|done]. by destruct (Hleg eq_refl). }
    rewrite Heq in *. destruct (read_at_least_ok least reads []) as (buffer & left_ & -> & Hcat & Hgot); [done|unfold BufferSize; lia|].
    by exists buffer, left_.
Qed.

Lemma request_is_accepted (s : Service (U := U)) authenticated now order u f' :
  recognised s now order cl time (d_nonce4 d) u f' → authenticated u = None →
  ∃ request body, writeHandshake random c time d = Ok (request, body) ∧
    ∀ reads rest, arrives_ok s c reads → concat reads = request ++ rest →
      NewConnection no_addr authenticated now order reads s = (Ok (decoded u body rest), f').
Proof using HL HA Hsec Hcmd Hc Hd Haddr Hlen random_length.
  intros [Hrec Hkey] Hauth. destruct own_body as (body & Hr & Hw).
  pose proof (length_encoded c d addr Hc Hd Haddr) as Hhl. pose proof Hd as (_ & _ & Hn4 & Hn8).
  unfold writeHandshake. rewrite (encodeHeader_ok c d addr Haddr). change (cc_client c) with cl. cbn [cc_requestKey cc_requestNonce cc_option c dialRaw].
  rewrite Hw. destruct (cl_alterKey cl) as [alterKey|] eqn:Ealter; cbn [result_bind].
  - eexists _, body. split; [done|]. intros reads rest Harr Hall.
    assert (is_legacy c = true) as Hleg by (apply bool_decide_eq_true; change (cc_client c) with cl; rewrite Ealter; by eexists).
    destruct Hrec as (Hsums & Halter & [i Hentry] & ->).
    assert (length (legacy_id alterKey time) = 16%nat) as Hid by (apply length_hmac, length_md5).
    destruct (read_request_arrived s reads Harr) as (first & more & Hread & Hwire & Hmin); [|done|].
    { rewrite Hall. unfold needed. rewrite Hleg, !length_app, length_encrypt, Hhl. unfold header_len. lia. }
    unfold NewConnection. rewrite Hread. rewrite Hall in Hwire. unfold needed in Hmin. rewrite Hleg in Hmin.
    assert (take 16 first = legacy_id alterKey time ∧
            drop 16 first ++ concat more = (cfb_Encrypt (NewCFB (cl_key cl) (legacy_iv time)) (encoded c d addr)).1 ++ rest) as [-> ->].
    { rewrite <-(take_app_le first (concat more)), <-drop_app_le, Hwire, <-app_assoc by lia.
      split; [by apply take_app_length'|by apply drop_app_length']. }
    rewrite <-(app_nil_r order), find_user_skip by done. cbn [find_user]. rewrite Hentry. cbn [le_User]. rewrite Hkey. cbn [default id].
    rewrite encoded_split.
    destruct (decode_legacy_wire authenticated (mkLegacyUserEntry u time i) (cl_key cl) (header_start c (d_paddingLen d) (d_responseHeader d))
        (addr ++ d_padding d ++ be32 (fnv32a (header_start c (d_paddingLen d) (d_responseHeader d) ++ addr ++ d_padding d)))
        rest command (d_paddingLen d) (if decide (command = CommandMux) then no_addr else dest)) as (f & Hdec & Hf);
      [by apply length_header_start|done|intros; rewrite <-!app_assoc; apply rest_own|].
    cbn [le_Time] in Hdec. rewrite Hdec. f_equal. rewrite <-(app_nil_r (header_start _ _ _)), <-Hleg. by apply parse_own.
  - eexists _, body. split; [done|]. intros reads rest Harr Hall.
    assert (is_legacy c = false) as Hleg by (apply bool_decide_eq_false; change (cc_client c) with cl; rewrite Ealter; by intros [??]).
    destruct Hrec as (pre & post & -> & Hpre & Htime & Hnow & Hcheck).
    set (authId := AuthID (cl_key cl) time (d_nonce4 d)) in *.
    assert (length authId = 16%nat) as Hid by apply length_block.
    rewrite length_aead_Seal, Hhl, Nat.sub_diag, <-Hhl in Hall.
    assert (random 0 = []) as E0 by (apply length_zero_iff_nil, random_length). rewrite E0, app_nil_r, <-!app_assoc in Hall.
    destruct (read_request_arrived s reads Harr) as (first & more & Hread & Hwire & Hmin); [|congruence|].
    { rewrite Hall. unfold needed. rewrite Hleg, !length_app, !length_aead_Seal, Hhl, Hid, Hn8. unfold header_len. cbn [be16 length]. lia. }
    unfold NewConnection. rewrite Hread. rewrite Hall in Hwire. unfold needed in Hmin. rewrite Hleg in Hmin.
    assert (take 16 first = authId) as ->.
    { rewrite <-(take_app_le first (concat more)), Hwire by lia. by apply take_app_length'. }
    rewrite find_user_skip by done. unfold authId at 1. rewrite (find_user_found now u (cl_key cl) time (d_nonce4 d) post _ f') by done.
    rewrite Hkey. cbn [default id].
    rewrite (decode_aead_wire authenticated u (cl_key cl) first more authId (d_nonce8 d) (encoded c d addr) rest) by (done || lia || (unfold header_len in Hhl; lia)).
    f_equal. rewrite encoded_split. rewrite drop_app_length' by (symmetry; by apply length_header_start).
    rewrite <-Hleg. apply parse_own; [done|]. rewrite <-(app_nil_r (addr ++ _)), <-!app_assoc, rest_own. done.
Qed.
End one_session.

(** C27: A VMess client the service knows gets through, in the AEAD and in the legacy
    form, for each security type, command and option: its handshake succeeds, and
    the service decodes the user, the command and the destination and reads what
    was written behind the request, in chunks of 1 to 15000 bytes; its answer is
    accepted and what it writes behind it is read by the client.  Known is an AEAD client whose clock agrees
    to 120 seconds and whose identifier is new to the replay filter and decodes
    to a right checksum for no user that is tried before, or a legacy one whose
    identifier is in the table.  The bytes may arrive in any pieces, but the first
    read has to bring 100, or 54 of a legacy request: a shorter one is refused.
    With header protection off the service reads on instead, and any pieces will
    do, but for an AEAD client of a service that also has legacy users. *)
Theorem vmess_session_delivers (cl : Client) (command : Z) (dest : Addr) (key nonce : bytes) (d : Draw) (addr : bytes) (time : Z)
    (s : Service (U := U)) authenticated now order u f' :
  let c := dialRaw cl command dest key nonce in
  known_security (cl_security cl) → command = CommandTCP ∨ command = CommandUDP ∨ command = CommandMux →
  conn_ok c → draw_ok d → destination_ok c addr → Z.of_nat (header_len c (d_paddingLen d)) + 58 <= BufferSize →
  recognised s now order cl time (d_nonce4 d) u f' → authenticated u = None →
  ∃ request body, writeHandshake random c time d = Ok (request, body) ∧
    ∀ ps reads, Forall payload ps → arrives_ok s c reads → concat reads = request ++ Body_WriteAll random ps body →
      ∃ r out answer, NewConnection no_addr authenticated now order reads s = (Ok r, f') ∧
        vr_User r = u ∧ vr_Command r = command ∧ vr_Destination r = (if decide (command = CommandMux) then no_addr else dest) ∧
        (∀ fuel cap, roomy cap → (length (vr_Rest r) < fuel)%nat → Body_ReadAll fuel cap (vr_Body r) (vr_Rest r) = Ok (concat ps)) ∧
        writeResponse r = Ok (out, answer) ∧
        ∀ qs fuel cap, Forall payload qs → roomy cap → (length (Body_WriteAll random qs answer) < fuel)%nat →
          (let? (b, rest) := readResponse c (d_responseHeader d) (out ++ Body_WriteAll random qs answer) in Body_ReadAll fuel cap b rest)
          = Ok (concat qs).
Proof using HL HA random_length.
  intros c Hsec Hcmd Hc Hd Haddr Hlen Hrec Hauth.
  destruct (request_is_accepted cl command dest key nonce d addr time Hsec Hcmd Hc Hd Haddr Hlen s authenticated now order u f' Hrec Hauth)
    as (request & body & Hw & Haccept).
  exists request, body. split; [done|]. intros ps reads Hps Hfirst Hwire.
  pose proof (Haccept reads _ Hfirst Hwire) as Hconn.
  set (r := decoded _ _ _ _ _ _ _ _ _) in Hconn. destruct (dial_option_ok cl command Hsec) as (_ & Hl & _).
  assert (∃ out answer, writeResponse r = Ok (out, answer) ∧ ∀ rest, readResponse c (d_responseHeader d) (out ++ rest) = Ok (answer, rest))
    as (out & answer & Hout & Hread).
  { destruct (response_is_read c (d_responseHeader d) r [] Hsec Hl) as (out & answer & Ho & _); [done..|].
    exists out, answer. split; [done|]. intros rest.
    destruct (response_is_read c (d_responseHeader d) r rest Hsec Hl) as (out' & answer' & Ho' & Hr); [done..|].
    rewrite Ho in Ho'. by injection Ho' as <- <-. }
  exists r, out, answer. split_and!; [done..| |done|].
  - intros fuel cap Hcap Hf. by apply body_delivers.
  - intros qs fuel cap Hqs Hcap Hf. rewrite Hread. cbn [result_bind]. by apply body_delivers.
Qed.

(** ** Requests sent again *)

(** The identifier a connection starts with. *)
Definition identifier (s : Service (U := U)) (reads : list bytes) : option bytes :=
  match read_request s reads with Ok (buffer, _) => Some (take 16 buffer) | Err _ => None end.

(** What finding a user does to the filter, and what it says of him. *)
Lemma find_user_filter now authId (order : list (U * bytes)) f r f' id until :
  find_user now authId order f = (r, f') → remembers f id until → now < until → remembers f' id until.
Proof.
  intros Hf Hs Hnow. induction order as [|[u k] order IH]; cbn in Hf; [naive_solver|]. case_decide; [auto|]. case_decide; [naive_solver|].
  pose proof (remembers_stays f now id (block_Decrypt (id_key k) authId) until Hs Hnow) as Hst. destruct (Check f _ _) as [[] g]; naive_solver.
Qed.
(** The clock of the identifier, as the service reads it. *)
Definition clock (decodedId : bytes) : Z := Z.abs (int64 (of_be64 decodedId)).
Lemma find_user_inv now authId (order : list (U * bytes)) f u f' : find_user now authId order f = (Ok (Some u), f') →
  ∃ k, (u, k) ∈ order ∧ Check f now (block_Decrypt (id_key k) authId) = (true, f') ∧
    Z.abs (clock (block_Decrypt (id_key k) authId) - now) <= 120.
Proof.
  intros Hf. induction order as [|[v k] order IH]; cbn [find_user] in Hf; [done|].
  case_decide; [destruct (IH Hf) as (k' & ? & ?); exists k'; split; [by constructor|done]|]. case_decide; [done|].
  destruct (Check f _ _) as [[] g] eqn:E; simplify_eq. exists k. split; [by left|]. split; [done|]. unfold clock. lia.
Qed.

Lemma parse_header_user (u : U) legacy h f r : parse_header (Addr := Addr) u legacy h f = Ok r → vr_User r = u ∧ vr_Legacy r = legacy.
Proof.
  unfold parse_header. repeat case_decide; try done. destruct (f _ _) as [[]|]; cbn [result_bind]; [|done].
  destruct (CreateReader _ _ _ _ _ _ _); cbn [result_bind]; naive_solver.
Qed.
Lemma decode_aead_user authenticated (u : U) key buffer reads r :
  decode_aead no_addr authenticated u key buffer reads = Ok r → vr_User r = u.
Proof.
  unfold decode_aead. case_decide; [done|]. destruct (aead_Open _ _ _ _) as [[|x [|y l]]|]; cbn [result_bind]; try done.
  fold (filled (42 + Z.to_nat (of_be16 x y) + 16) buffer reads). destruct (filled _ _ _) as [[]|]; cbn [result_bind]; [|done].
  destruct (aead_Open _ _ _ _); cbn [result_bind]; [|done]. case_decide; [done|]. destruct (authenticated u); [done|].
  intros Hp. apply parse_header_user in Hp. tauto.
Qed.
Lemma decode_legacy_legacy authenticated (e : legacyUserEntry (U := U)) key data r :
  decode_legacy no_addr authenticated e key data = Ok r → vr_Legacy r = true.
Proof.
  unfold decode_legacy. destruct (under_cfb _ _ _) as [[[h st] rest]|]; [|done]. destruct (authenticated _); [done|].
  intros Hp. apply parse_header_user in Hp. tauto.
Qed.

Definition keyed (s : Service (U := U)) (order : list (U * bytes)) : Prop := Forall (λ e, userKey s !! e.1 = Some e.2) order.

Lemma NewConnection_accepts (s : Service (U := U)) authenticated now order reads r f' :
  NewConnection no_addr authenticated now order reads s = (Ok r, f') → vr_Legacy r = false → keyed s order →
  ∃ authId k, identifier s reads = Some authId ∧ userKey s !! vr_User r = Some k ∧
    Check (replayFilter s) now (block_Decrypt (id_key k) authId) = (true, f') ∧
    Z.abs (clock (block_Decrypt (id_key k) authId) - now) <= 120.
Proof.
  unfold NewConnection, identifier. intros Hn Hleg Hord. destruct (read_request s reads) as [[buffer left_]|]; [|done].
  destruct (find_user now (take 16 buffer) order (replayFilter s)) as [[[u|]|] f] eqn:E; [| |done].
  - injection Hn as Hdec <-. rewrite (decode_aead_user _ _ _ _ _ _ Hdec). apply find_user_inv in E as (k & Hin & Hc & Ht).
    exists (take 16 buffer), k. split_and!; [done| |done|done]. unfold keyed in Hord. rewrite Forall_forall in Hord. by apply (Hord (u, k)).
  - destruct (alterIdMap s !! _); [|done]. injection Hn as Hdec <-. apply decode_legacy_legacy in Hdec. congruence.
Qed.
Lemma NewConnection_filter (s : Service (U := U)) authenticated now order reads r f' id until :
  NewConnection no_addr authenticated now order reads s = (r, f') → remembers (replayFilter s) id until → now < until → remembers f' id until.
Proof.
  unfold NewConnection. intros Hn Hs Hnow. destruct (read_request s reads) as [[buffer left_]|]; [|naive_solver].
  destruct (find_user now (take 16 buffer) order (replayFilter s)) as [[[u|]|] f] eqn:E; try destruct (alterIdMap s !! _);
    simplify_eq; by eapply find_user_filter.
Qed.

(** Connections arrive one after the other. *)
Definition in_order (arrivals : list (Arrival (U := U))) : Prop := StronglySorted Z.le (a_now <$> arrivals).

(** An identifier that is remembered is not accepted before its time is over. *)
Lemma remembered_not_served authenticated arrivals (s : Service (U := U)) j a r authId k until :
  remembers (replayFilter s) (block_Decrypt (id_key k) authId) until → Forall (λ a, keyed s (a_order a)) arrivals → in_order arrivals →
  arrivals !! j = Some a → serve no_addr authenticated arrivals s !! j = Some (Ok r) → vr_Legacy r = false →
  userKey s !! vr_User r = Some k → identifier s (a_reads a) = Some authId → until <= a_now a.
Proof.
  intros Hseen Hkeyed Hord Ha Hj Hleg Hk Hid. revert s j Hseen Hkeyed Hord Ha Hj Hk Hid.
  induction arrivals as [|b arrivals IH]; intros s j Hseen Hkeyed Hord Ha Hj Hk Hid; [done|]. apply Forall_cons in Hkeyed as [Hb Hkeyed].
  unfold in_order in Hord. rewrite fmap_cons in Hord. apply StronglySorted_inv in Hord as [Hord Hlater].
  cbn in Hj. destruct (NewConnection _ _ _ _ _ s) as [r1 f'] eqn:E. destruct j as [|j]; cbn in Ha, Hj.
  - simplify_eq. apply NewConnection_accepts in E as (authId' & k' & Hid' & Hk' & Hc & _); [|done..]. simplify_eq.
    destruct (decide (until <= a_now a)) as [|Hlt]; [done|]. pose proof (remembers_refused _ (a_now a) _ _ Hseen ltac:(lia)) as Hr.
    by rewrite Hc in Hr.
  - destruct (decide (until <= a_now b)) as [Hle|Hlt].
    + rewrite Forall_lookup in Hlater. specialize (Hlater j (a_now a)). assert ((a_now <$> arrivals) !! j = Some (a_now a)) as Hja by (rewrite list_lookup_fmap; exact (f_equal (fmap a_now) Ha)). specialize (Hlater Hja). lia.
    + apply (IH (with_filter f' s) j); try done. cbn. eapply NewConnection_filter; [done..|lia].
Qed.

(** What is accepted is in the window of the clock. *)
Lemma served_in_window authenticated arrivals (s : Service (U := U)) j a r :
  Forall (λ a, keyed s (a_order a)) arrivals → arrivals !! j = Some a → serve no_addr authenticated arrivals s !! j = Some (Ok r) →
  vr_Legacy r = false → ∃ authId k, identifier s (a_reads a) = Some authId ∧ userKey s !! vr_User r = Some k ∧
    Z.abs (clock (block_Decrypt (id_key k) authId) - a_now a) <= 120.
Proof.
  intros Hkeyed Ha Hj Hleg. revert s j Hkeyed Ha Hj.
  induction arrivals as [|b arrivals IH]; intros s j Hkeyed Ha Hj; [done|]. apply Forall_cons in Hkeyed as [Hb Hkeyed].
  cbn in Hj. destruct (NewConnection _ _ _ _ _ s) as [r1 f'] eqn:E. destruct j as [|j]; cbn in Ha, Hj.
  - simplify_eq. apply NewConnection_accepts in E as (authId & k & Hid & Hk & _ & Ht); [|done..]. by exists authId, k.
  - by apply (IH (with_filter f' s) j).
Qed.

Lemma replay_waits authenticated arrivals (s : Service (U := U)) i j a b r r' :
  Forall (λ a, keyed s (a_order a)) arrivals → in_order arrivals → (i < j)%nat → arrivals !! i = Some a → arrivals !! j = Some b →
  serve no_addr authenticated arrivals s !! i = Some (Ok r) → serve no_addr authenticated arrivals s !! j = Some (Ok r') →
  vr_Legacy r = false → vr_Legacy r' = false → vr_User r = vr_User r' → identifier s (a_reads a) = identifier s (a_reads b) →
  a_now a + replayTimeout <= a_now b.
Proof using HF.
  intros Hkeyed Hord Hij Ha Hb Hi Hj Hl Hl' Hu Hsame. revert s i j Hkeyed Hord Hij Ha Hb Hi Hj Hsame.
  induction arrivals as [|e arrivals IH]; intros s i j Hkeyed Hord Hij Ha Hb Hi Hj Hsame; [done|]. apply Forall_cons in Hkeyed as [He Hkeyed].
  unfold in_order in Hord. rewrite fmap_cons in Hord. apply StronglySorted_inv in Hord as [Hord _].
  cbn in Hi, Hj. destruct (NewConnection _ _ _ _ _ s) as [r1 f'] eqn:E. destruct j as [|j]; [lia|]. destruct i as [|i]; cbn in Ha, Hb, Hi, Hj.
  - simplify_eq. apply NewConnection_accepts in E as (authId & k & Hid & Hk & Hc & _); [|done..]. rewrite Hid in Hsame.
    eapply (remembered_not_served authenticated arrivals (with_filter f' s) j b r' authId k); try done; [|by rewrite <-Hu].
    cbn. by eapply check_remembers.
  - apply (IH (with_filter f' s) i j); try done. lia.
Qed.

(** C28: A recorded VMess request is not served again while the replay filter
    keeps its identifier: of the connections a service accepts over the same
    users, by a clock that does not go back and in whichever order it tries its
    users, two AEAD requests of one user with the same identifier are at least
    120 and at most 240 seconds apart.  The upper bound is the window of the
    timestamp; the filter may forget after 120 seconds, and in between a recorded
    request is served again. *)
Theorem vmess_no_replay authenticated arrivals (s : Service (U := U)) i j a b r r' :
  Forall (λ a, keyed s (a_order a)) arrivals → in_order arrivals → (i < j)%nat → arrivals !! i = Some a → arrivals !! j = Some b →
  serve no_addr authenticated arrivals s !! i = Some (Ok r) → serve no_addr authenticated arrivals s !! j = Some (Ok r') →
  vr_Legacy r = false → vr_Legacy r' = false → vr_User r = vr_User r' → identifier s (a_reads a) = identifier s (a_reads b) →
  a_now a + 120 <= a_now b <= a_now a + 240.
Proof using HF.
  intros Hkeyed Hord Hij Ha Hb Hi Hj Hl Hl' Hu Hsame.
  split; [by apply (replay_waits authenticated arrivals s i j a b r r')|].
  destruct (served_in_window _ _ _ _ _ _ Hkeyed Ha Hi Hl) as (id1 & k1 & Hid1 & Hk1 & Ht1).
  destruct (served_in_window _ _ _ _ _ _ Hkeyed Hb Hj Hl') as (id2 & k2 & Hid2 & Hk2 & Ht2).
  rewrite Hu in Hk1. simplify_eq. rewrite Hid1, Hid2 in Hsame. simplify_eq. lia.
Qed.

(** ** The identifiers of legacy users *)

Lemma foldl_insert_lookup {A} (l : list (bytes * A)) (m : gmap bytes A) id e :
  foldl (λ m '(id, e), <[id := e]> m) m l !! id = Some e → (id, e) ∈ l ∨ m !! id = Some e.
Proof.
  revert m. induction l as [|[id' e'] l IH]; intros m Hl; [by right|]. cbn in Hl. destruct (IH _ Hl) as [Hin|Hm]; [left; by right|].
  apply lookup_insert_Some in Hm as [[-> ->]|[_ Hm]]; [left; by left|by right].
Qed.

(** After the second of two runs the identifiers are those of the users' alternative
    keys at the seconds from the first run, or two minutes ago, to two minutes
    ahead. *)
Lemma legacy_window (s : Service (U := U)) t1 t2 id e :
  alterIdMap (generateLegacyKeysLocked t2 (generateLegacyKeysLocked t1 s)) !! id = Some e →
  Z.max t1 (t2 - CacheDurationSeconds) <= le_Time e <= t2 + CacheDurationSeconds ∧
  ∃ ids k, alterIds s !! le_User e = Some ids ∧ ids !! le_Index e = Some k ∧ id = legacy_id k (le_Time e).
Proof.
  intros Hl. apply foldl_insert_lookup in Hl as [Hin|Hm]; [|by rewrite lookup_empty in Hm].
  apply list_elem_of_bind in Hin as ([u ids] & Hin & Hu). apply elem_of_map_to_list in Hu. cbn in Hu, Hin.
  rewrite lookup_fmap, Hu in Hin. cbn in Hin. unfold user_entries in Hin.
  apply list_elem_of_In, in_concat in Hin as (l & Hl & Hin). apply list_elem_of_In in Hl, Hin.
  apply elem_of_lookup_imap in Hl as (i & k & -> & Hk). apply list_elem_of_fmap in Hin as (ts & [= -> ->] & Hts).
  apply elem_of_seqZ in Hts. cbn. split; [lia|]. by exists ids, k.
Qed.
End session.
