(* ===== verification/VmessRun.v ===== *)
(** * Runs of VMess sessions

    An AEAD session and its replay, a request with an unknown security type, the
    identifiers a legacy user keeps after the first tick, and a legacy stream
    without chunks, over small ciphers. *)
From S2P Require Import Prelude Bytes VlessCodec Vision VlessRun VmessStream Vmess VmessProps.
Open Scope Z_scope.

Module VmessRun.
Import VlessRun.

(** ** Small ciphers *)

Definition shift (k : Z) (m : bytes) : bytes := (λ x, u8 (val x + k)) <$> m.
Lemma shift_back k m : shift (- k) (shift k m) = m.
Proof.
  unfold shift. rewrite <-list_fmap_compose. rewrite <-(list_fmap_id m) at 2. apply list_fmap_ext. intros i x _. cbn.
  rewrite <-(u8_val x) at 2. unfold u8 at 1 3. f_equal. rewrite val_u8. f_equal.
  rewrite Zplus_mod_idemp_l. f_equal. lia.
Qed.
Definition total (m : bytes) : Z := foldl (λ h x, (h * 31 + val x) mod 65521) 7 m.
Definition mix (n : Z) (m : bytes) : bytes := (λ i, u8 (total m + i)) <$> seqZ 0 n.
Lemma length_mix n m : 0 <= n → length (mix n m) = Z.to_nat n.
Proof. intros. unfold mix. by rewrite length_fmap, length_seqZ. Qed.
Definition aead_key (a : aead) : bytes := match a with AesGcm k => k | Chacha20Poly1305 k => k end.
Definition tag (a : aead) (n t ad : bytes) : bytes := mix 16 (aead_key a ++ n ++ ad ++ t).
Definition block16 (m : bytes) : bytes := take 16 (m ++ replicate 16 (u8 0)).
Definition seal (a : aead) (n t ad : bytes) : bytes := shift (total (aead_key a ++ n)) t ++ tag a n t ad.
Definition open (a : aead) (n s ad : bytes) : result bytes :=
  let t := shift (- total (aead_key a ++ n)) (take (length s - 16) s) in
  if decide (drop (length s - 16) s = tag a n t ad) then Ok t else Err (ENew "cipher: message authentication failed").
Fixpoint cfb_enc (st : byte) (m : bytes) : bytes * byte :=
  match m with
  | [] => ([], st)
  | x :: m => let c := u8 (val x + val st) in let '(cs, st) := cfb_enc c m in (c :: cs, st)
  end.
Fixpoint cfb_dec (st : byte) (m : bytes) : bytes * byte :=
  match m with
  | [] => ([], st)
  | c :: m => let '(xs, st') := cfb_dec c m in (u8 (val c - val st) :: xs, st')
  end.

#[export] Instance small_crypto : VmessCrypto := {|
  md5_Sum := mix 16;
  sha256_Sum := mix 32;
  hmac_New := λ h k m, shift (total k) (h m);
  block_Encrypt := λ k m, shift (total k) (block16 m);
  block_Decrypt := λ k m, shift (- total k) m;
  aead_Seal := seal;
  aead_Open := open;
  CfbStream := byte;
  NewCFB := λ k iv, u8 (total (k ++ iv));
  cfb_Encrypt := cfb_enc;
  cfb_Decrypt := cfb_dec;
  shake := λ m i, (total m + Z.of_nat i * 977) mod 65536;
|}.

Lemma length_shift k m : length (shift k m) = length m.
Proof. apply length_fmap. Qed.
Lemma length_block16 m : length (block16 m) = 16%nat.
Proof. unfold block16. rewrite length_take, length_app, length_replicate. lia. Qed.
Lemma open_seal a n t ad : open a n (seal a n t ad) ad = Ok t.
Proof.
  unfold open, seal. assert (length (tag a n t ad) = 16%nat) as Ht by (by apply length_mix).
  assert (length (shift (total (aead_key a ++ n)) t ++ tag a n t ad) - 16 = length (shift (total (aead_key a ++ n)) t))%nat as ->
    by (rewrite length_app, Ht; lia).
  rewrite take_app_length, drop_app_length, shift_back. by rewrite decide_True.
Qed.
Lemma cfb_back st m : cfb_dec st (cfb_enc st m).1 = (m, (cfb_enc st m).2).
Proof.
  revert st. induction m as [|x m IH]; intros st; [done|]. cbn. specialize (IH (u8 (val x + val st))).
  destruct (cfb_enc _ m) as [cs st']. cbn in *. rewrite IH. do 2 f_equal. rewrite <-(u8_val x) at 2. unfold u8 at 1 3. do 2 f_equal.
  rewrite val_u8, Zminus_mod_idemp_l. f_equal. lia.
Qed.
#[export] Instance small_laws : VmessCryptoLaws.
Proof.
  split; cbn [md5_Sum hmac_New block_Encrypt block_Decrypt aead_Seal aead_Open cfb_Encrypt cfb_Decrypt shake small_crypto CfbStream].
  - intros m. by apply length_mix.
  - intros h k m n Hn. by rewrite length_shift.
  - intros k m. by rewrite length_shift, length_block16.
  - intros k m Hm. rewrite shift_back. unfold block16. by rewrite take_app_length' by done.
  - intros a n t ad. unfold seal, tag. by rewrite length_app, length_shift, length_mix.
  - apply open_seal.
  - intros st m. revert st. induction m as [|c m IH]; intros st; [done|]. cbn. specialize (IH c). destruct (cfb_dec c m). cbn in *. lia.
  - apply cfb_back.
  - intros st a b. revert st. induction a as [|c a IH]; intros st; cbn; [by destruct (cfb_dec st b)|].
    rewrite IH. destruct (cfb_dec c a) as [x s1]. by destruct (cfb_dec s1 b).
  - intros m i. apply Z.mod_pos_bound. lia.
Qed.

(** A filter that forgets: identifiers with the time they came, cleaned once the
    timeout has passed since the last time. *)
Definition Pool : Type := Z * list (bytes * Z).
Definition cleaned (now : Z) (p : Pool) : Pool :=
  if decide (replayTimeout < now - p.1) then (now, base.filter (λ e, now - e.2 <= replayTimeout) p.2) else p.
#[export] Instance simple_filter : ReplayFilter := {|
  Filter := Pool;
  Check := λ f now id,
    let f := cleaned now f in
    if decide (id ∈ f.2.*1) then (false, f) else (true, (f.1, (id, now) :: f.2));
|}.
Definition kept (f : Pool) (id : bytes) (until : Z) : Prop := ∃ added, (id, added) ∈ f.2 ∧ until <= added + replayTimeout.
Lemma cleaned_kept now f id until : kept f id until → now < until → kept (cleaned now f) id until.
Proof.
  intros (added & Hin & Hu) Hnow. exists added. split; [|done]. unfold cleaned. case_decide; [|done]. cbn.
  apply list_elem_of_filter. split; [cbn; lia|done].
Qed.
Lemma kept_in f id until : kept f id until → id ∈ f.2.*1.
Proof. intros (added & Hin & _). apply list_elem_of_fmap. by exists (id, added). Qed.
#[export] Instance simple_filter_laws : ReplayFilterLaws.
Proof.
  refine {| remembers := kept |}; cbn [Check Filter simple_filter].
  - intros f now id f'. case_decide; [done|]. intros [= <-]. exists now. split; [left|lia].
  - intros f now id id' until Hk Hnow. pose proof (cleaned_kept now f id until Hk Hnow) as (added & Hin & Hu).
    case_decide; [by exists added|]. exists added. split; [by right|done].
  - intros f now id until Hk Hnow. rewrite decide_True; [done|]. eapply kept_in. by apply cleaned_kept.
Qed.

(** ** A session *)

Definition random (n : nat) : bytes := replicate n (u8 0).
Lemma length_random n : length (random n) = n.
Proof. apply length_replicate. Qed.
Definition no_addr : Ascii.ascii * Ascii.ascii := (u8 0, u8 0).
Definition trusted (u : nat) : option error := None.

Definition user_key : bytes := Key uuid.
Definition other_key : bytes := Key (bytes_of ((λ i, i * i) <$> seqZ 2 16)).
Definition client : Client := mkClient user_key SecurityTypeAes128Gcm true true None.
Definition conn : clientConn := dialRaw client CommandTCP (u8 1, u8 80) (bytes_of (seqZ 20 16)) (bytes_of (seqZ 40 16)).
Definition draw : Draw := mkDraw 3 (u8 9) (bytes_of [7; 7; 7]) (bytes_of [1; 2; 3; 4]) (bytes_of (seqZ 60 8)).
Definition service : Service := mkService (U := nat) {[ 1%nat := user_key; 7%nat := other_key ]} ((1000, []) : Pool) false ∅ ∅ ∅.
Definition order : list (nat * bytes) := [(7%nat, other_key); (1%nat, user_key)].
Definition handshake : bytes * Body := match writeHandshake random conn 1000 draw with Ok x => x | Err _ => ([], Raw) end.
Definition wire : bytes := handshake.1 ++ Body_WriteAll random [payload] (handshake.2).
Definition remembered : Pool := (1000, [(auth_plain 1000 (d_nonce4 draw), 1010)]).

Definition holds {A} (P : A → bool) (r : result A) : bool := match r with Ok a => P a | Err _ => false end.
Lemma handshake_run : writeHandshake random conn 1000 draw = Ok handshake.
Proof.
  assert (holds (λ _, true) (writeHandshake random conn 1000 draw) = true) as Hok by (vm_compute; reflexivity).
  unfold handshake. by destruct (writeHandshake _ _ _ _).
Qed.
Lemma payload_ok : Forall VmessStream.payload [payload].
Proof. constructor; [|done]. split; vm_compute; [lia|discriminate]. Qed.
Lemma conn_is_ok : conn_ok conn.
Proof. done. Qed.
Lemma draw_is_ok : draw_ok draw.
Proof. split_and!; vm_compute; done. Qed.
Lemma client_recognised : recognised service 1010 order client 1000 (d_nonce4 draw) 1%nat remembered.
Proof.
  split; [|reflexivity]. exists [(7%nat, other_key)], []. split_and!; [done| |lia|lia|unfold CacheDurationSeconds; lia|reflexivity].
  constructor; [|done]. unfold checksum_ok. vm_compute. discriminate.
Qed.
Lemma wire_ok : arrives_ok service conn [wire].
Proof. left. exists wire, []. split; [reflexivity|]. vm_compute. lia. Qed.

(** The theorem at a client that is tried second, with padded and sealed lengths. *)
Lemma vmess_session_delivers_witness : ∃ r out answer,
  NewConnection no_addr trusted 1010 order [wire] service = (Ok r, remembered) ∧ vr_User r = 1%nat ∧ vr_Destination r = (u8 1, u8 80) ∧
  Body_ReadAll (S (length (vr_Rest r))) (Z.to_nat ReadChunkSize) (vr_Body r) (vr_Rest r) = Ok payload ∧ writeResponse r = Ok (out, answer).
Proof.
  destruct (vmess_session_delivers (λ _, True) no_addr random length_random client CommandTCP (u8 1, u8 80) (bytes_of (seqZ 20 16)) (bytes_of (seqZ 40 16)) draw
              (bytes_of [1; 80]) 1000 service trusted 1010 order 1%nat remembered) as (request & body & Hw & Hall).
  - right. by left.
  - by left.
  - apply conn_is_ok.
  - apply draw_is_ok.
  - by split.
  - vm_compute. discriminate.
  - apply client_recognised.
  - done.
  - fold conn in Hw, Hall. rewrite handshake_run in Hw. assert (request = handshake.1 ∧ body = handshake.2) as [-> ->] by (by destruct handshake; simplify_eq).
    destruct (Hall [payload] [wire] payload_ok wire_ok) as (r & out & answer & Hn & Hu & _ & Hd & Hread & Ho & _);
      [cbn [concat]; by rewrite app_nil_r|].
    exists r, out, answer. split_and!; [done|done|done| |done]. apply Hread; [|lia]. unfold roomy, ReadChunkSize. lia.
Defined.

(** The same bytes again after ten seconds, which is refused, and after 130: the
    filter has forgotten them and the timestamp is still in its window. *)
Definition arrivals : list Arrival := [mkArrival 960 order [wire]; mkArrival 970 order [wire]; mkArrival 1090 order [wire]].
Definition watched : Service := mkService (U := nat) (userKey service) ((900, []) : Pool) false ∅ ∅ ∅.
Definition served (i : nat) : result Request :=
  match serve no_addr trusted arrivals watched !! i with Some r => r | None => Err EOF end.
Definition failure {A} (r : result A) : option error := match r with Ok _ => None | Err e => Some e end.
Example replay_refused : failure (served 1) = Some ErrReplay.
Proof. vm_compute. reflexivity. Qed.

Definition own (r : Request (Addr := Ascii.ascii * Ascii.ascii) (U := nat)) : bool := negb (vr_Legacy r) && bool_decide (vr_User r = 1%nat).
Lemma own_user (x : result Request) : holds own x = true → ∃ r, x = Ok r ∧ vr_Legacy r = false ∧ vr_User r = 1%nat.
Proof. destruct x as [r|]; [|done]. cbn. unfold own. intros [Hl Hu]%andb_prop. apply bool_decide_eq_true in Hu. apply negb_true_iff in Hl. by exists r. Qed.
Lemma served_lookup i r : served i = Ok r → serve no_addr trusted arrivals watched !! i = Some (Ok r).
Proof. unfold served. destruct (serve _ _ _ _ !! i); [by intros ->|done]. Qed.

(** The theorem at the first and the third of them. *)
Lemma vmess_no_replay_witness : holds own (served 0) = true ∧ holds own (served 2) = true ∧ 960 + 120 <= 1090 <= 960 + 240.
Proof.
  assert (holds own (served 0) = true) as H0 by (vm_compute; reflexivity).
  assert (holds own (served 2) = true) as H2 by (vm_compute; reflexivity).
  split; [exact H0|]. split; [exact H2|].
  destruct (own_user _ H0) as (r & Hr & Hl & Hu), (own_user _ H2) as (r' & Hr' & Hl' & Hu').
  apply (vmess_no_replay no_addr trusted arrivals watched 0 2 (mkArrival 960 order [wire]) (mkArrival 1090 order [wire]) r r').
  - repeat constructor.
  - repeat constructor; cbn; lia.
  - lia.
  - done.
  - done.
  - by apply served_lookup.
  - by apply served_lookup.
  - done.
  - done.
  - congruence.
  - done.
Defined.

(** ** What an authenticated client can do *)

(** A header sealed with the user's key whose security type is 6. *)
Definition odd_header : bytes :=
  (encodeHeader (dialRaw (mkClient user_key 6 false false None) CommandTCP (u8 1, u8 80) (bytes_of (seqZ 20 16)) (bytes_of (seqZ 40 16)))
     3 (u8 9) (bytes_of [7; 7; 7])).1.
Definition odd_request : bytes :=
  let authId := AuthID user_key 1000 (d_nonce4 draw) in
  let nonce := d_nonce8 draw in
  authId ++ aead_Seal (length_key user_key authId nonce) (length_nonce user_key authId nonce) (be16 (Z.of_nat (length odd_header))) authId
  ++ nonce ++ aead_Seal (header_key user_key authId nonce) (header_nonce user_key authId nonce) odd_header authId.
Example unknown_security_panics :
  failure (NewConnection no_addr trusted 1010 order [odd_request] service).1 = Some (EPanic "unexpected security type").
Proof. vm_compute. reflexivity. Qed.

(** A legacy user whose clock is 20 s behind: known when the users are set, not
    after the tick ten seconds later. *)
Definition legacy_user : bytes := bytes_of [1; 2; 3].
Definition at_start : Service := generateLegacyKeysLocked 1000 (mkService (U := nat) {[ 1%nat := user_key ]} ((1000, []) : Pool) false {[ 1%nat := [legacy_user] ]} ∅ ∅).
Example behind_at_start : le_Time <$> alterIdMap at_start !! legacy_id legacy_user 980 = Some 980.
Proof. vm_compute. reflexivity. Qed.
Example behind_after_tick : le_Time <$> alterIdMap (generateLegacyKeysLocked 1010 at_start) !! legacy_id legacy_user 990 = None.
Proof. vm_compute. reflexivity. Qed.

(** A legacy stream without chunks: the service restarts the key stream behind the
    header of its answer, and the client continues it. *)
Definition plain_conn : clientConn :=
  mkClientConn (mkClient user_key SecurityTypeLegacy false false (Some legacy_user)) CommandTCP 0 (u8 1, u8 80) (bytes_of (seqZ 20 16)) (bytes_of (seqZ 40 16)).
Definition plain_request : Request :=
  mkVmessRequest 1%nat true CommandTCP (u8 1, u8 80) (bytes_of (seqZ 20 16)) (bytes_of (seqZ 40 16)) (u8 9) SecurityTypeLegacy 0 Raw [].
Definition answer_read : result bytes :=
  let? (out, answer) := writeResponse plain_request in
  let? (b, rest) := readResponse plain_conn (u8 9) (out ++ Body_WriteAll random [payload] answer) in Body_ReadAll 20 20 b rest.
Example unchunked_answer_garbled : holds (λ b, bool_decide (b = payload)) answer_read = false ∧ holds (λ b, bool_decide (length b = 5%nat)) answer_read = true.
Proof. vm_compute. done. Qed.
End VmessRun.
