(* ===== verification/VmessMux.v ===== *)
(** * Multiplexed VMess connections

    Model of src/runtime/sing-box/local-modules/sing-vmess/mux.go, mux_wrapper.go
    and xudp.go: the server takes the frames of one connection apart into streams,
    each the writing end of a pipe its handler reads; the clients put one stream
    or the packets of one session into frames. *)
From S2P Require Import Prelude Bytes VlessCodec Vision VlessRun VmessStream.
Open Scope Z_scope.

Definition StatusNew : Z := 1.
Definition StatusKeep : Z := 2.
Definition StatusEnd : Z := 3.
Definition StatusKeepAlive : Z := 4.
Definition OptionData : Z := 1.
Definition OptionError : Z := 2.
Definition NetworkTCP : Z := 1.
Definition NetworkUDP : Z := 2.
Definition ErrClosedPipe : error := ENew "io: read/write on closed pipe".
Definition Canceled : error := ENew "context canceled".
Definition ErrNetClosed : error := ENew "use of closed network connection".

Section mux.
Context {Addr : Type} `{AddrSerializer Addr} (IsValid : Addr → bool) (Unwrap : Addr → Addr) (no_addr : Addr).

(** ** The server *)

Record serverStream := mkStream { st_network : Z; st_destination : Addr; st_pipe : nat }.
(** What was written to a pipe, and the error it was closed with, if it was.  An
    [io.Pipe] makes a write wait until the other end has read it or is closed; the
    handler is taken to read on and not to close its end, so that what was written
    is what it reads. *)
Record Pipe := mkPipe { p_written : bytes; p_closed : option (option error) }.
(** A session with its pipes, the streams given to the handler and the frames
    that were sent. *)
Record serverSession := mkSession {
  streams : gmap Z serverStream;
  pipes : list Pipe;
  ss_handled : list (Z * serverStream);
  ss_sent : list bytes;
}.
Definition NewSession : serverSession := mkSession ∅ [] [] [].

Definition set_pipes (p : list Pipe) (s : serverSession) : serverSession := mkSession (streams s) p (ss_handled s) (ss_sent s).
Definition pipe_write (i : nat) (b : bytes) (s : serverSession) : serverSession * option error :=
  match pipes s !! i with
  | None => (s, Some (EPanic "nil pointer dereference"))
  | Some p =>
      match p_closed p with
      | Some _ => (s, Some ErrClosedPipe)
      | None => (set_pipes (<[i := mkPipe (p_written p ++ b) None]> (pipes s)) s, None)
      end
  end.
(** [CloseWithError]; the first error stays. *)
Definition pipe_close (i : nat) (err : option error) (s : serverSession) : serverSession :=
  match pipes s !! i with
  | Some p => match p_closed p with None => set_pipes (<[i := mkPipe (p_written p) (Some err)]> (pipes s)) s | Some _ => s end
  | None => s
  end.

Definition frame_start (sessionID status option : Z) (address : bytes) : bytes :=
  be16 (4 + Z.of_nat (length address)) ++ be16 sessionID ++ [u8 status; u8 option] ++ address.
Definition frame_data (data : bytes) : bytes := be16 (Z.of_nat (length data)) ++ data.

(** [writeFrame] and [writeCloseFrame]. *)
Definition writeFrame (sessionID : Z) (data : bytes) : bytes :=
  frame_start sessionID StatusKeep OptionData [] ++ frame_data data.
Definition writeCloseFrame (sessionID : Z) (hasError : bool) : bytes :=
  frame_start sessionID StatusEnd (if hasError then OptionError else 0) [].
(** [writePacketFrame]: the length counts an address that may not be written. *)
Definition writePacketFrame (sessionID : Z) (data : bytes) (destination : Addr) : bytes * option error :=
  let start := be16 (5 + Z.of_nat (AddrPortLen destination)) ++ be16 sessionID ++ [u8 StatusKeep; u8 OptionData] in
  if IsValid destination then
    match WriteAddrPort destination with
    | Err e => (start ++ [u8 NetworkUDP], Some e)
    | Ok addr => (start ++ [u8 NetworkUDP] ++ addr ++ frame_data data, None)
    end
  else (start ++ frame_data data, None).

Definition send (frame : bytes) (s : serverSession) : serverSession := mkSession (streams s) (pipes s) (ss_handled s) (ss_sent s ++ [frame]).
Definition localClose (sessionID : Z) (err : option error) (s : serverSession) : serverSession * bool :=
  match streams s !! sessionID with
  | Some stream =>
      let s := mkSession (delete sessionID (streams s)) (pipes s) (ss_handled s) (ss_sent s) in
      (pipe_close (st_pipe stream) err s, true)
  | None => (s, false)
  end.
Definition syncClose (sessionID : Z) (hasError : bool) (s : serverSession) : serverSession := send (writeCloseFrame sessionID hasError) s.
Definition session_close (sessionID : Z) (err : option error) (s : serverSession) : serverSession :=
  let '(s, closed) := localClose sessionID err s in
  if closed then syncClose sessionID (bool_decide (is_Some err)) s else s.

(** [recvTo]. *)
Definition recvTo (stream : serverStream) (data : bytes) (destination : Addr) (s : serverSession) : serverSession * option error :=
  if decide (st_network stream = NetworkTCP) then pipe_write (st_pipe stream) data s
  else
    match pipe_write (st_pipe stream) (be16 (Z.of_nat (length data))) s with
    | (s, Some e) => (s, Some e)
    | (s, None) =>
        match pipe_write (st_pipe stream) data s with
        | (s, Some e) => (s, Some e)
        | (s, None) =>
            match WriteAddrPort destination with
            | Err e => (s, Some e)
            | Ok addr => pipe_write (st_pipe stream) addr s
            end
        end
    end.

(** A reader behind [io.LimitReader], whose rest is then skipped. *)
Definition limited {A} (n : nat) (r : reader A) : reader A := λ s,
  match r (take n s) with Ok (a, _) => Ok (a, drop n s) | Err e => Err e end.
Definition read_header : reader (Z * Z * Z * Z * Addr) := λ s,
  match read_be16 s with
  | Err e => Err (ECause e "read frame header")
  | Ok (length_, s) =>
      (let! sessionID := read_be16 in
       let! status := read_byte in
       let! option := read_byte in
       let! (network, destination) :=
         if decide (4 < length_) then
           limited (Z.to_nat (length_ - 4)) (let! network := read_byte in let! destination := ReadAddrPort in rret (val network, destination))
         else rret (0, no_addr) in
       rret (sessionID, val status, val option, network, destination)) s
  end.

(** The data of a frame: skipped without a stream. *)
Definition recv_data (stream : option serverStream) (sessionID : Z) (destination : Addr) (s : serverSession) (input : bytes) : serverSession * result bytes :=
  match read_be16 input with
  | Err e => (s, Err e)
  | Ok (length_, input) =>
      if decide (length_ = 0) then (s, Ok input)
      else
        match stream with
        | None => (s, if decide (length_ <= Z.of_nat (length input)) then Ok (drop (Z.to_nat length_) input) else Err EOF)
        | Some stream =>
            match read_full (Z.to_nat length_) input with
            | Err e => (s, Err e)
            | Ok (data, input) =>
                let destination := if IsValid destination then destination else st_destination stream in
                match recvTo stream data destination s with
                | (s, None) => (s, Ok input)
                | (s, Some e) => (session_close sessionID (Some e) s, Ok input)
                end
            end
        end
  end.

Definition open_stream (sessionID network : Z) (destination : Addr) (s : serverSession) : serverSession * serverStream :=
  let stream := mkStream network destination (length (pipes s)) in
  (mkSession (<[sessionID := stream]> (streams s)) (pipes s ++ [mkPipe [] None]) (ss_handled s) (ss_sent s), stream).
Definition handle (sessionID : Z) (stream : serverStream) (s : serverSession) : serverSession :=
  mkSession (streams s) (pipes s) (ss_handled s ++ [(sessionID, stream)]) (ss_sent s).

(** [recv]: the session, and what is left to read.  The frame that refuses an
    unknown session is sent at once, where the code starts a goroutine. *)
Definition recv (s : serverSession) (input : bytes) : serverSession * result bytes :=
  match read_header input with
  | Err e => (s, Err e)
  | Ok ((sessionID, status, option, network, destination), input) =>
      let data stream s := if decide (Z.land option OptionData ≠ OptionData) then (s, Ok input) else recv_data stream sessionID destination s input in
      if decide (status = StatusNew) then
        let '(s, stream) := open_stream sessionID network destination s in
        if decide (network ≠ NetworkTCP ∧ network ≠ NetworkUDP) then (s, Err (ENew "bad network"))
        else data (Some stream) (handle sessionID stream s)
      else if decide (status = StatusKeep) then
        match streams s !! sessionID with
        | Some stream => data (Some stream) s
        | None => data None (syncClose sessionID true s)
        end
      else if decide (status = StatusEnd) then
        let err := if decide (Z.land option OptionError = OptionError) then Some (ENew "remote closed wth error") else None in
        data None (localClose sessionID err s).1
      else if decide (status = StatusKeepAlive) then data None s
      else (s, Err (ENew "bad session status"))
  end.

(** [cleanup], and [recvLoop]: a frame takes at least six bytes. *)
Definition cleanup (err : option error) (s : serverSession) : serverSession :=
  foldr (λ e s, pipe_close (st_pipe e.2) err s) s (map_to_list (streams s)).
Fixpoint recv_loop (fuel : nat) (s : serverSession) (input : bytes) : serverSession * error :=
  match fuel with
  | 0%nat => (s, EPanic "fuel")
  | S fuel =>
      match recv s input with
      | (s, Ok input) => recv_loop fuel s input
      | (s, Err e) => (s, e)
      end
  end.
Definition HandleMuxConnection (input : bytes) : serverSession * error :=
  let '(s, e) := recv_loop (S (length input)) NewSession input in
  (cleanup (Some Canceled) s, ECause e "mux connection closed").

(** [serverMuxPacketConn.ReadPacket] from the pipe, with room for [cap] bytes. *)
Definition server_ReadPacket (cap : nat) : reader (bytes * Addr) :=
  let! length_ := read_be16 in
  if decide (Z.of_nat cap < length_) then rfail ErrShortBuffer
  else
    let! data := read_full (Z.to_nat length_) in
    let! destination := ReadAddrPort in
    rret (data, Unwrap destination).

(** All packets of a stream. *)
Fixpoint server_ReadAll (fuel cap : nat) (s : bytes) : result (list (bytes * Addr)) :=
  match fuel with
  | 0%nat => Err (EPanic "fuel")
  | S fuel =>
      match server_ReadPacket cap s with
      | Err e => if decide (e = EOF) then Ok [] else Err e
      | Ok (packet, s) => let? packets := server_ReadAll fuel cap s in Ok (packet :: packets)
      end
  end.

(** ** The clients *)

(** The length of an address under the other serializer. *)
Context (socksaddr_len : Addr → nat).

(** [MuxConnWrapper.WriteBuffer]: the frame and whether the request is written. *)
Definition Mux_WriteBuffer (requestWritten : bool) (destination : Addr) (data : bytes) : result bytes :=
  if requestWritten then Ok (frame_start 0 StatusKeep OptionData [] ++ frame_data data)
  else
    let? addr := WriteAddrPort destination in
    Ok (be16 (5 + Z.of_nat (socksaddr_len destination)) ++ be16 0 ++ [u8 StatusNew; u8 OptionData; u8 NetworkTCP] ++ addr ++ frame_data data).
(** [XUDPConn.WritePacket]. *)
Definition XUDP_WritePacket (requestWritten : bool) (data : bytes) (destination : Addr) : result bytes :=
  let? addr := WriteAddrPort destination in
  Ok (be16 (5 + Z.of_nat (socksaddr_len destination)) ++ be16 0
      ++ [u8 (if requestWritten then StatusKeep else StatusNew); u8 OptionData; u8 NetworkUDP] ++ addr ++ frame_data data).

(** All packets of a connection, the first of which carries the request. *)
Fixpoint XUDP_WriteAll (requestWritten : bool) (packets : list (bytes * Addr)) : result bytes :=
  match packets with
  | [] => Ok []
  | (data, destination) :: packets =>
      let? frame := XUDP_WritePacket requestWritten data destination in
      let? frames := XUDP_WriteAll true packets in
      Ok (frame ++ frames)
  end.

(** What [XUDPConn.ReadPacket] and [MuxConnWrapper.ReadBuffer] do with the options
    of a frame. *)
Definition after_header {A} (option : Z) (again data : reader A) : reader A :=
  if decide (Z.land option OptionError = OptionError) then rfail (ECause ErrNetClosed "remote closed")
  else if decide (Z.land option OptionData ≠ OptionData) then again else data.

(** The six bytes a client reads first: length, status and options. *)
Definition read_six : reader (Z * Z * Z) :=
  let! h := read_full 6 in
  match h with
  | a :: b :: _ :: _ :: status :: option :: _ => rret (of_be16 a b, val status, val option)
  | _ => rfail (EPanic "index out of range")
  end.

(** [XUDPConn.ReadPacket] into a buffer of [cap] bytes, the destination of the
    connection being [own].  The length of the data is read from the buffer that
    took the address. *)
Fixpoint XUDP_ReadPacket (fuel cap : nat) (own : Addr) : reader (bytes * Addr) :=
  match fuel with
  | 0%nat => rfail (EPanic "fuel")
  | S fuel =>
      if decide (cap < 6)%nat then rfail ErrShortBuffer
      else
        let! (length_, status, option) := read_six in
        let again := XUDP_ReadPacket fuel cap own in
        let finish (destination : Addr) (buffer : bytes) : reader (bytes * Addr) :=
          after_header option again
            (match read_be16 buffer with
             | Err e => rfail e
             | Ok (n, _) =>
                 if decide (Z.of_nat cap < n) then rfail ErrShortBuffer
                 else let! data := read_full (Z.to_nat n) in rret (data, destination)
             end) in
        if decide (status = StatusNew) then rfail (ENew "unexpected frame new")
        else if decide (status = StatusKeep) then
          if decide (length_ = 4) then
            if decide (cap < 8)%nat then rfail ErrShortBuffer else let! buffer := read_full 2 in finish own buffer
          else if decide (length_ < 2) then rfail (EPanic "slice bounds out of range")
          else if decide (Z.of_nat cap < 6 + (length_ - 2)) then rfail ErrShortBuffer
          else
            let! buffer := read_full (Z.to_nat (length_ - 2)) in
            match buffer with
            | [] => rfail (EPanic "slice bounds out of range")
            | _ :: buffer => match ReadAddrPort buffer with Err e => rfail e | Ok (destination, buffer) => finish (Unwrap destination) buffer end
            end
        else if decide (status = StatusEnd) then rfail EOF
        else if decide (status = StatusKeepAlive) then finish no_addr []
        else rfail (ENew "unexpected frame")
  end.

(** [MuxConnWrapper.ReadBuffer] with [remaining] bytes left of a frame: what was
    read and what remains. *)
Fixpoint Mux_ReadBuffer (fuel cap : nat) (remaining : Z) : reader (bytes * Z) :=
  match fuel with
  | 0%nat => rfail (EPanic "fuel")
  | S fuel =>
      if decide (0 < remaining) then
        let! p := read_some (Z.to_nat (Z.min (Z.of_nat cap) remaining)) in
        rret (p, remaining - Z.of_nat (length p))
      else if decide (cap < 6)%nat then rfail ErrShortBuffer
      else
        let! (length_, status, option) := read_six in
        let finish : reader (bytes * Z) :=
          after_header option (Mux_ReadBuffer fuel cap 0) (let! n := read_be16 in Mux_ReadBuffer fuel cap n) in
        if decide (status = StatusNew) then rfail (ENew "unexpected frame new")
        else if decide (status = StatusKeep) then
          if decide (4 < length_) then
            λ s, if decide (length_ - 4 <= Z.of_nat (length s)) then finish (drop (Z.to_nat (length_ - 4)) s) else Err EOF
          else finish
        else if decide (status = StatusEnd) then rfail EOF
        else if decide (status = StatusKeepAlive) then finish
        else rfail (ENew "unexpected frame")
  end.
End mux.

(** ** Frames *)

Section theorems.
Context {Addr : Type} `{AddrSerializer Addr} (plain : Addr → Prop) {HA : AddrSerializerLaws Addr plain}.
Context (IsValid : Addr → bool) (Unwrap : Addr → Addr) (no_addr : Addr) (socksaddr_len : Addr → nat).
(** The zero address is not valid; both serializers take the same room; a plain
    address is not a mapped one. *)
Context (no_addr_invalid : IsValid no_addr = false) (len_agrees : ∀ a, socksaddr_len a = AddrPortLen a).
Context (unwrap_plain : ∀ a, plain a → Unwrap a = a).

(** What the two sides exchange. *)
Inductive Frame :=
| New (sessionID network : Z) (destination : Addr) (data : bytes)
| Keep (sessionID : Z) (destination : option Addr) (data : bytes)
| End_ (sessionID : Z) (hasError : bool)
| KeepAlive (sessionID : Z).
Definition session_of (f : Frame) : Z := match f with New s _ _ _ | Keep s _ _ | End_ s _ | KeepAlive s => s end.

Definition addr_bytes (a : Addr) : bytes := match WriteAddrPort a with Ok b => b | Err _ => [] end.
Definition address (network : Z) (a : Addr) : bytes := u8 network :: addr_bytes a.
Definition encode (f : Frame) : bytes :=
  match f with
  | New sid network a data => frame_start sid StatusNew OptionData (address network a) ++ frame_data data
  | Keep sid (Some a) data => frame_start sid StatusKeep OptionData (address NetworkUDP a) ++ frame_data data
  | Keep sid None data => writeFrame sid data
  | End_ sid hasError => writeCloseFrame sid hasError
  | KeepAlive sid => frame_start sid StatusKeepAlive 0 []
  end.

(** An address that survives the wire. *)
Definition addr_ok (a : Addr) : Prop := plain a ∧ IsValid a = true ∧ WriteAddrPort a = Ok (addr_bytes a) ∧ Z.of_nat (length (addr_bytes a)) < 65531.
Definition data_ok (data : bytes) : Prop := Z.of_nat (length data) < 65536.
Definition frame_ok (f : Frame) : Prop :=
  0 <= session_of f < 65536 ∧
  match f with
  | New _ network a data => (network = NetworkTCP ∨ network = NetworkUDP) ∧ addr_ok a ∧ data_ok data
  | Keep _ (Some a) data => addr_ok a ∧ data_ok data
  | Keep _ None data => data_ok data
  | _ => True
  end.

Definition header_of (f : Frame) : Z * Z * Z * Z * Addr :=
  match f with
  | New sid network a _ => (sid, StatusNew, OptionData, network, a)
  | Keep sid (Some a) _ => (sid, StatusKeep, OptionData, NetworkUDP, a)
  | Keep sid None _ => (sid, StatusKeep, OptionData, 0, no_addr)
  | End_ sid hasError => (sid, StatusEnd, if hasError then OptionError else 0, 0, no_addr)
  | KeepAlive sid => (sid, StatusKeepAlive, 0, 0, no_addr)
  end.
Definition data_of (f : Frame) : bytes := match f with New _ _ _ data | Keep _ _ data => frame_data data | _ => [] end.

Lemma read_header_plain sid status option rest : 0 <= sid < 65536 → 0 <= status < 256 → 0 <= option < 256 →
  read_header no_addr (frame_start sid status option [] ++ rest) = Ok ((sid, status, option, 0, no_addr), rest).
Proof.
  intros Hs Hst Ho. unfold read_header, frame_start. rewrite <-!app_assoc, read_be16_app by (cbn; lia).
  rewrite (rbind_step _ _ _ _ _ (read_be16_app sid _ Hs)). cbn. by rewrite !val_u8_small by lia.
Qed.
Lemma read_header_address sid status option network a rest :
  0 <= sid < 65536 → 0 <= status < 256 → 0 <= option < 256 → 0 <= network < 256 → addr_ok a →
  read_header no_addr (frame_start sid status option (address network a) ++ rest) = Ok ((sid, status, option, network, a), rest).
Proof using HA.
  intros Hs Hst Ho Hn (Hp & _ & Hw & Hl). unfold read_header, frame_start. rewrite <-!app_assoc.
  assert (length (address network a) = S (length (addr_bytes a))) as Hlen by done.
  rewrite read_be16_app by lia. rewrite (rbind_step _ _ _ _ _ (read_be16_app sid _ Hs)).
  cbn [app]. unfold rbind at 1 2. cbn [read_byte]. rewrite decide_True by lia.
  assert (limited (Z.to_nat (4 + Z.of_nat (length (address network a)) - 4))
            (let! network := read_byte in let! destination := ReadAddrPort in rret (val network, destination)) (address network a ++ rest)
          = Ok ((network, a), rest)) as Hlim.
  { unfold limited. replace (Z.to_nat _) with (length (address network a)) by lia. rewrite take_app_length, drop_app_length.
    unfold address. cbn. unfold rbind. rewrite <-(app_nil_r (addr_bytes a)), (read_written a _ [] Hp Hw). cbn. by rewrite val_u8_small by lia. }
  rewrite (rbind_step _ _ _ _ _ Hlim). cbn. by rewrite !val_u8_small by lia.
Qed.
Lemma read_header_encode f rest : frame_ok f → read_header no_addr (encode f ++ rest) = Ok (header_of f, data_of f ++ rest).
Proof using HA.
  intros [Hs Hf]. unfold StatusNew, StatusKeep, StatusEnd, StatusKeepAlive, OptionData, OptionError in *.
  destruct f as [sid network a data|sid [a|] data|sid []|sid]; cbn [encode session_of header_of data_of] in *.
  - destruct Hf as (Hn & Ha & _). rewrite <-app_assoc. apply read_header_address; try done.
    destruct Hn as [-> | ->]; unfold NetworkTCP, NetworkUDP; lia.
  - destruct Hf as [Ha _]. rewrite <-app_assoc. by apply read_header_address.
  - unfold writeFrame. rewrite <-app_assoc. by apply read_header_plain.
  - by apply read_header_plain.
  - by apply read_header_plain.
  - by apply read_header_plain.
Qed.

(** ** What the streams of a session are *)

(** What the pipe of a stream gets of a frame: the code skips data of length
    zero, for packets as well. *)
Definition content (network : Z) (a : Addr) (data : bytes) : bytes :=
  if decide (data = []) then [] else if decide (network = NetworkTCP) then data else frame_data data ++ addr_bytes a.

(** A stream from the frame that opens it on: the session, the network and the
    destination it was opened with, the bytes its handler reads, and what became
    of it. *)
Inductive Fate := Live | Ended (err : option error) | Replaced.
Record Life := mkLife { l_session : Z; l_network : Z; l_destination : Addr; l_bytes : bytes; l_fate : Fate }.

(** A frame concerns the live stream of its session and no other. *)
Definition live_step (f : Frame) (l : Life) : Life :=
  let with_ b fate := mkLife (l_session l) (l_network l) (l_destination l) b fate in
  match f with
  | New _ _ _ _ => with_ (l_bytes l) Replaced
  | Keep _ d data => with_ (l_bytes l ++ content (l_network l) (default (l_destination l) d) data) Live
  | End_ _ hasError => with_ (l_bytes l) (Ended (if hasError then Some (ENew "remote closed wth error") else None))
  | KeepAlive _ => l
  end.
Definition life_step (f : Frame) (l : Life) : Life :=
  match l_fate l with
  | Live => if decide (l_session l = session_of f) then live_step f l else l
  | _ => l
  end.
Definition born (f : Frame) : list Life :=
  match f with New sid network a data => [mkLife sid network a (content network a data) Live] | _ => [] end.
Definition lives_step (ls : list Life) (f : Frame) : list Life := (life_step f <$> ls) ++ born f.
Definition lives (fs : list Frame) : list Life := foldl lives_step [] fs.

(** How the pipe of a stream is closed, when the connection has ended with [err]:
    a stream that was replaced is not. *)
Definition closed_with (err : option error) (fate : Fate) : option (option error) :=
  match fate with Live => Some err | Ended e => Some e | Replaced => None end.
Definition outcome (err : option error) (l : Life) : Z * Z * Addr * option Pipe :=
  (l_session l, l_network l, l_destination l, Some (mkPipe (l_bytes l) (closed_with err (l_fate l)))).
(** The streams a session gave to the handler, with their pipes. *)
Definition delivered (s : serverSession (Addr := Addr)) : list (Z * Z * Addr * option Pipe) :=
  (λ e, (e.1, st_network e.2, st_destination e.2, pipes s !! st_pipe e.2)) <$> ss_handled s.

(** A session whose streams are where their lives are: the pipe of each is at the
    place it was opened, and the map has the live ones. *)
Definition pipe_of (l : Life) : Pipe := mkPipe (l_bytes l) (match l_fate l with Ended e => Some e | _ => None end).
Definition given (i : nat) (l : Life) : Z * serverStream (Addr := Addr) := (l_session l, mkStream (l_network l) (l_destination l) i).
Record Tracks (s : serverSession (Addr := Addr)) (ls : list Life) : Prop := {
  tr_handled : ss_handled s = imap given ls;
  tr_pipes : pipes s = pipe_of <$> ls;
  tr_streams sid st : streams s !! sid = Some st ↔
    ∃ l, ls !! st_pipe st = Some l ∧ l_session l = sid ∧ l_fate l = Live ∧ st = mkStream (l_network l) (l_destination l) (st_pipe st);
  tr_addr : Forall (λ l, addr_ok (l_destination l)) ls;
}.
Lemma Tracks_new : Tracks NewSession [].
Proof. split; [done..| |constructor]. intros sid st. cbn. rewrite lookup_empty. split; [done|]. by intros (l & Hl & _). Qed.

(** The live stream of a session, and the change of one life. *)
Lemma tracks_live s ls sid st : Tracks s ls → streams s !! sid = Some st →
  ∃ l, ls !! st_pipe st = Some l ∧ l_session l = sid ∧ l_fate l = Live ∧ st_network st = l_network l ∧ st_destination st = l_destination l ∧
    pipes s !! st_pipe st = Some (mkPipe (l_bytes l) None) ∧ addr_ok (l_destination l).
Proof.
  intros Ht Hst. pose proof Hst as (l & Hl & Hs & Hf & Heq)%(tr_streams s ls Ht). exists l. split_and!; try done.
  - by rewrite Heq.
  - by rewrite Heq.
  - rewrite (tr_pipes s ls Ht), list_lookup_fmap, Hl. unfold pipe_of. cbn. by rewrite Hf.
  - pose proof (tr_addr s ls Ht) as Ha. rewrite Forall_lookup in Ha. by eapply Ha.
Qed.
Lemma tracks_unique s ls i l st : Tracks s ls → ls !! i = Some l → l_fate l = Live → streams s !! l_session l = Some st → i = st_pipe st.
Proof.
  intros Ht Hl Hf Hst. assert (streams s !! l_session l = Some (mkStream (l_network l) (l_destination l) i)) as Hi.
  { apply (tr_streams s ls Ht). by exists l. }
  rewrite Hst in Hi. by injection Hi as ->.
Qed.
Lemma lives_change f s ls st l : Tracks s ls → streams s !! session_of f = Some st → ls !! st_pipe st = Some l → l_fate l = Live →
  l_session l = session_of f → life_step f <$> ls = <[st_pipe st := live_step f l]> ls.
Proof.
  intros Ht Hst Hl Hf Hs. apply list_eq. intros i. rewrite list_lookup_fmap. destruct (decide (i = st_pipe st)) as [->|Hne].
  - rewrite list_lookup_insert_eq by (by eapply lookup_lt_Some). rewrite Hl. cbn. unfold life_step. by rewrite Hf, decide_True.
  - rewrite list_lookup_insert_ne by done. destruct (ls !! i) as [k|] eqn:Hk; [|done]. cbn. f_equal. unfold life_step.
    destruct (l_fate k) eqn:Hfk; [|done..]. case_decide as Hsk; [|done]. destruct Hne. apply (tracks_unique s ls i k st Ht Hk Hfk). by rewrite Hsk.
Qed.
Lemma lives_same f s ls : Tracks s ls → streams s !! session_of f = None → life_step f <$> ls = ls.
Proof.
  intros Ht Hst. rewrite <-(list_fmap_id ls) at 2. apply list_fmap_ext. intros i l Hl. cbn. unfold life_step.
  destruct (l_fate l) eqn:Hf; [|done..]. case_decide as Hs; [|done]. exfalso.
  assert (streams s !! l_session l = Some (mkStream (l_network l) (l_destination l) i)) as Hi by (apply (tr_streams s ls Ht); by exists l). congruence.
Qed.

Definition append_pipe (i : nat) (w b : bytes) (s : serverSession (Addr := Addr)) : serverSession := set_pipes (<[i := mkPipe (w ++ b) None]> (pipes s)) s.
Lemma pipe_write_open i w b s : pipes s !! i = Some (mkPipe w None) → pipe_write i b s = (append_pipe i w b s, None).
Proof. intros Hp. unfold pipe_write. by rewrite Hp. Qed.
Lemma append_append i w b b' s : append_pipe i (w ++ b) b' (append_pipe i w b s) = append_pipe i w (b ++ b') s.
Proof. unfold append_pipe, set_pipes. cbn. by rewrite list_insert_insert_eq, app_assoc. Qed.
Lemma append_lookup i w b s : pipes s !! i = Some (mkPipe w None) → pipes (append_pipe i w b s) !! i = Some (mkPipe (w ++ b) None).
Proof. intros Hp. cbn. apply list_lookup_insert_eq. by eapply lookup_lt_Some. Qed.
Lemma append_nil i w s : pipes s !! i = Some (mkPipe w None) → append_pipe i w [] s = s.
Proof. intros Hp. unfold append_pipe, set_pipes. rewrite app_nil_r, list_insert_id by done. by destruct s. Qed.

Lemma recvTo_open st w data a s : pipes s !! st_pipe st = Some (mkPipe w None) → WriteAddrPort a = Ok (addr_bytes a) → data ≠ [] →
  recvTo st data a s = (append_pipe (st_pipe st) w (content (st_network st) a data) s, None).
Proof.
  intros Hp Ha Hd. unfold recvTo, content. rewrite (decide_False (P := data = [])) by done. case_decide; [by apply pipe_write_open|].
  rewrite (pipe_write_open _ _ _ _ Hp). rewrite (pipe_write_open _ _ _ _ (append_lookup _ _ _ _ Hp)), append_append, Ha.
  rewrite (pipe_write_open _ _ _ _ (append_lookup _ _ _ _ Hp)), append_append. unfold frame_data. by rewrite <-app_assoc.
Qed.
Lemma recv_data_stream st sid w data d s rest : data_ok data → pipes s !! st_pipe st = Some (mkPipe w None) → addr_ok (st_destination st) →
  (IsValid d = true → addr_ok d) →
  recv_data IsValid (Some st) sid d s (frame_data data ++ rest)
  = (append_pipe (st_pipe st) w (content (st_network st) (if IsValid d then d else st_destination st) data) s, Ok rest).
Proof.
  intros Hdata Hp Hst Hd. unfold recv_data, frame_data. rewrite <-app_assoc, read_be16_app by (unfold data_ok in Hdata; lia).
  destruct (decide (data = [])) as [->|Hne].
  - rewrite decide_True by done. unfold content. rewrite decide_True, append_nil by done. done.
  - rewrite decide_False by (destruct data; [done|cbn; lia]). rewrite Nat2Z.id, read_full_app. cbv zeta.
    rewrite (recvTo_open st w) ; [done|done| |done]. destruct (IsValid d) eqn:E; [by apply Hd|by apply Hst].
Qed.
Lemma recv_data_none sid data d s rest : data_ok data → recv_data IsValid None sid d s (frame_data data ++ rest) = (s, Ok rest).
Proof.
  intros Hdata. unfold recv_data, frame_data. rewrite <-app_assoc, read_be16_app by (unfold data_ok in Hdata; lia).
  case_decide as E; [by destruct data|]. rewrite decide_True by (rewrite length_app; lia). by rewrite Nat2Z.id, drop_app_length.
Qed.

(** One life changes, and stays live or leaves the map. *)
Lemma handled_insert (ls : list Life) i l l' : ls !! i = Some l →
  l_session l' = l_session l → l_network l' = l_network l → l_destination l' = l_destination l →
  imap given (<[i := l']> ls)
  = imap given ls.
Proof.
  intros Hl Hs Hn Hd. apply list_eq. intros k. rewrite !list_lookup_imap. destruct (decide (k = i)) as [->|Hne].
  - rewrite list_lookup_insert_eq, Hl by (by eapply lookup_lt_Some). cbn. unfold given. by rewrite Hs, Hn, Hd.
  - by rewrite list_lookup_insert_ne.
Qed.
Lemma Tracks_change s ls i l l' str sent : Tracks s ls → ls !! i = Some l → l_fate l = Live →
  l_session l' = l_session l → l_network l' = l_network l → l_destination l' = l_destination l →
  (l_fate l' = Live ∧ str = streams s) ∨ (l_fate l' ≠ Live ∧ str = delete (l_session l) (streams s)) →
  Tracks (mkSession str (<[i := pipe_of l']> (pipes s)) (ss_handled s) sent) (<[i := l']> ls).
Proof.
  intros Ht Hl Hf Hs Hn Hd Hstr. pose proof (lookup_lt_Some _ _ _ Hl) as Hlt.
  assert (streams s !! l_session l = Some (mkStream (l_network l) (l_destination l) i)) as Hi by (apply (tr_streams s ls Ht); by exists l).
  split; cbn [ss_handled pipes streams].
  - rewrite (handled_insert ls i l l' Hl Hs Hn Hd). apply (tr_handled s ls Ht).
  - by rewrite (tr_pipes s ls Ht), list_fmap_insert.
  - intros sid st. destruct (decide (st_pipe st = i)) as [Hp|Hp].
    + rewrite Hp, list_lookup_insert_eq by done. destruct Hstr as [[Hf' ->]|[Hf' ->]].
      * rewrite (tr_streams s ls Ht), Hp, Hl. split; intros (k & [= <-] & H1 & H2 & H3); eexists; (split; [done|]); split_and!; congruence.
      * split; [|intros (k & [= <-] & _ & ? & _); done]. intros [Hne Hst]%lookup_delete_Some.
        pose proof Hst as (k & Hk & Hsk & _)%(tr_streams s ls Ht). rewrite Hp, Hl in Hk. injection Hk as <-. done.
    + rewrite list_lookup_insert_ne by done. destruct Hstr as [[_ ->]|[_ ->]]; [apply (tr_streams s ls Ht)|].
      rewrite lookup_delete_Some, (tr_streams s ls Ht). split; [by intros [_ ?]|]. intros Hk. split; [|done]. intros <-.
      apply (tr_streams s ls Ht) in Hk. rewrite Hi in Hk. by injection Hk as <-.
  - apply Forall_insert; [apply (tr_addr s ls Ht)|]. rewrite Hd. pose proof (tr_addr s ls Ht) as Ha. rewrite Forall_lookup in Ha. by eapply Ha.
Qed.

Lemma Tracks_append s ls i l b : Tracks s ls → ls !! i = Some l → l_fate l = Live →
  Tracks (append_pipe i (l_bytes l) b s) (<[i := mkLife (l_session l) (l_network l) (l_destination l) (l_bytes l ++ b) Live]> ls).
Proof. intros Ht Hl Hf. by apply (Tracks_change s ls i l (mkLife _ _ _ _ Live) (streams s) (ss_sent s) Ht Hl Hf); auto. Qed.

(** A frame for the stream of its session, or for none. *)
Lemma Tracks_sent s ls sent : Tracks s ls → Tracks (mkSession (streams s) (pipes s) (ss_handled s) sent) ls.
Proof. intros [? ? ? ?]. by split. Qed.
Lemma Tracks_end sid (hasError : bool) s ls : Tracks s ls →
  Tracks (localClose sid (if hasError then Some (ENew "remote closed wth error") else None) s).1 (life_step (End_ sid hasError) <$> ls).
Proof.
  intros Ht. unfold localClose. destruct (streams s !! sid) as [st|] eqn:Hst; cbn [fst].
  - destruct (tracks_live s ls sid st Ht Hst) as (l & Hl & Hs & Hf & _ & _ & Hp & _).
    rewrite (lives_change (End_ sid hasError) s ls st l Ht Hst Hl Hf Hs). unfold pipe_close. cbn. rewrite Hp. cbn.
    apply (Tracks_change s ls (st_pipe st) l (live_step (End_ sid hasError) l) (delete sid (streams s)) (ss_sent s) Ht Hl Hf); try done.
    right. split; [done|]. by rewrite Hs.
  - by rewrite (lives_same (End_ sid hasError) s ls Ht Hst).
Qed.

(** Opening: the stream of the session leaves the map, its pipe as it is, and the
    new one comes last. *)
Lemma Tracks_replace sid network a data s ls : Tracks s ls →
  Tracks (mkSession (delete sid (streams s)) (pipes s) (ss_handled s) (ss_sent s)) (life_step (New sid network a data) <$> ls).
Proof.
  intros Ht. destruct (streams s !! sid) as [st|] eqn:Hst.
  - destruct (tracks_live s ls sid st Ht Hst) as (l & Hl & Hs & Hf & _ & _ & Hp & _).
    rewrite (lives_change (New sid network a data) s ls st l Ht Hst Hl Hf Hs).
    rewrite <-(list_insert_id (pipes s) (st_pipe st) _ Hp).
    apply (Tracks_change s ls (st_pipe st) l (live_step (New sid network a data) l) (delete sid (streams s)) (ss_sent s) Ht Hl Hf); try done.
    right. split; [done|]. by rewrite Hs.
  - rewrite (lives_same (New sid network a data) s ls Ht Hst), delete_id by done. by apply Tracks_sent.
Qed.
Lemma Tracks_push sid network a s ls : Tracks s ls → streams s !! sid = None → addr_ok a →
  Tracks (mkSession (<[sid := mkStream network a (length (pipes s))]> (streams s)) (pipes s ++ [mkPipe [] None])
            (ss_handled s ++ [(sid, mkStream network a (length (pipes s)))]) (ss_sent s)) (ls ++ [mkLife sid network a [] Live]).
Proof.
  intros Ht Hnone Ha. assert (length (pipes s) = length ls) as Hlen by (rewrite (tr_pipes s ls Ht); apply length_fmap).
  split; cbn [ss_handled pipes streams].
  - rewrite imap_app, <-(tr_handled s ls Ht), Hlen. cbn. by rewrite Nat.add_0_r.
  - rewrite fmap_app, (tr_pipes s ls Ht). done.
  - intros sid' st. rewrite Hlen. destruct (decide (st_pipe st = length ls)) as [Hp|Hp].
    + rewrite Hp, list_lookup_middle by done. split.
      * intros [[<- <-]|[Hne Hst]]%lookup_insert_Some; [by eexists|]. pose proof Hst as (l & Hl & _)%(tr_streams s ls Ht).
        rewrite Hp, lookup_ge_None_2 in Hl by lia. done.
      * intros (l & [= <-] & <- & _ & ->). cbn. by rewrite lookup_insert_eq.
    + destruct (decide (sid' = sid)) as [->|Hne].
      * rewrite lookup_insert_eq. split; [by intros [= <-]|]. intros (l & Hl & Hs & Hf & Hst). exfalso.
        assert (ls !! st_pipe st = Some l) as Hl'. { apply lookup_app_Some in Hl as [|[Hge Hl]]; [done|]. apply list_lookup_singleton_Some in Hl as [? _]. lia. }
        assert (streams s !! sid = Some st) by (apply (tr_streams s ls Ht); by exists l). congruence.
      * rewrite lookup_insert_ne by done. rewrite (tr_streams s ls Ht). split; intros (l & Hl & Hrest); exists l; (split; [|done]).
        -- by apply lookup_app_l_Some.
        -- apply lookup_app_Some in Hl as [|[Hge Hl]]; [done|]. apply list_lookup_singleton_Some in Hl as [? _]. lia.
  - apply Forall_app. split; [apply (tr_addr s ls Ht)|]. constructor; [done|constructor].
Qed.
Lemma Tracks_open sid network a data s ls : Tracks s ls → addr_ok a →
  let '(s', st) := open_stream sid network a s in
  Tracks (handle sid st s') ((life_step (New sid network a data) <$> ls) ++ [mkLife sid network a [] Live]) ∧ st_pipe st = length ls ∧
  st_network st = network ∧ st_destination st = a.
Proof.
  intros Ht Ha. cbn. split; [|by rewrite (tr_pipes s ls Ht), length_fmap].
  pose proof (Tracks_push sid network a _ _ (Tracks_replace sid network a data s ls Ht) (lookup_delete_eq _ _) Ha) as Hp. cbn in Hp.
  by rewrite insert_delete_eq in Hp.
Qed.

(** One frame. *)
Lemma recv_frame f s ls rest : frame_ok f → Tracks s ls →
  ∃ s', recv IsValid no_addr s (encode f ++ rest) = (s', Ok rest) ∧ Tracks s' (lives_step ls f).
Proof using HA no_addr_invalid.
  intros Hf Hs. unfold recv. rewrite read_header_encode by done. destruct Hf as [Hrange Hf]. unfold lives_step.
  destruct f as [sid network a data|sid d data|sid hasError|sid]; cbn [header_of data_of session_of born] in *.
  - destruct Hf as (Hnet & Ha & Hdata). cbv beta iota zeta. rewrite (decide_True (P := StatusNew = StatusNew)) by done.
    pose proof (Tracks_open sid network a data s ls Hs Ha) as Hopen.
    destruct (open_stream sid network a s) as [s1 st]. destruct Hopen as (H1 & Hpipe & Hn & Hd).
    rewrite (decide_False (P := network ≠ NetworkTCP ∧ _)) by tauto. rewrite (decide_False (P := Z.land OptionData OptionData ≠ OptionData)) by auto.
    set (ls' := life_step _ <$> ls) in *. assert ((ls' ++ [mkLife sid network a [] Live]) !! st_pipe st = Some (mkLife sid network a [] Live)) as Hlast.
    { rewrite Hpipe. apply list_lookup_middle. unfold ls'. by rewrite length_fmap. }
    assert (pipes (handle sid st s1) !! st_pipe st = Some (mkPipe [] None)) as Hp.
    { rewrite (tr_pipes _ _ H1), list_lookup_fmap, Hlast. done. }
    rewrite (recv_data_stream st sid [] data a (handle sid st s1) rest) by (done || by rewrite Hd).
    eexists. split; [done|]. pose proof (Tracks_append _ _ _ _ (content (st_network st) (if IsValid a then a else st_destination st) data) H1 Hlast eq_refl) as H2.
    cbn [l_bytes l_session l_network l_destination app] in H2. destruct Ha as (_ & Hv & _). rewrite Hv, Hn in *.
    rewrite insert_app_r_alt in H2 by (unfold ls'; rewrite length_fmap; lia).
    replace (st_pipe st - length ls')%nat with 0%nat in H2 by (unfold ls'; rewrite length_fmap; lia). exact H2.
  - assert (data_ok data ∧ match d with Some a => addr_ok a | None => True end) as [Hdata Hd] by (destruct d; tauto).
    assert (∃ n dest, header_of (Keep sid d data) = (sid, StatusKeep, OptionData, n, dest) ∧ (IsValid dest = true → addr_ok dest) ∧
              ∀ a, (if IsValid dest then dest else a) = default a d) as (n & dest & Hh & Hdest & Hdef).
    { destruct d as [a|]; eexists _, _; (split; [done|]).
      - split; [done|]. intros a'. by destruct Hd as (_ & -> & _).
      - rewrite no_addr_invalid. by split. }
    cbn [header_of] in Hh. rewrite Hh. cbv beta iota zeta. rewrite (decide_False (P := StatusKeep = StatusNew)), (decide_True (P := StatusKeep = StatusKeep)) by done.
    rewrite (decide_False (P := Z.land OptionData OptionData ≠ OptionData)) by auto. rewrite app_nil_r. destruct (streams s !! sid) as [st|] eqn:Hst.
    + destruct (tracks_live s ls sid st Hs Hst) as (l & Hl & Hsid & Hfate & Hn & Hde & Hp & Ha).
      rewrite (recv_data_stream st sid (l_bytes l) data dest s rest) by (done || by rewrite Hde). rewrite Hdef.
      eexists. split; [done|]. rewrite (lives_change (Keep sid d data) s ls st l Hs Hst Hl Hfate Hsid), Hn, Hde. by apply Tracks_append.
    + rewrite recv_data_none by done. eexists. split; [done|]. rewrite (lives_same (Keep sid d data) s ls Hs Hst). by apply Tracks_sent.
  - rewrite app_nil_l, app_nil_r. cbv beta iota zeta.
    rewrite (decide_False (P := StatusEnd = StatusNew)), (decide_False (P := StatusEnd = StatusKeep)), (decide_True (P := StatusEnd = StatusEnd)) by done.
    pose proof (Tracks_end sid hasError s ls Hs) as Hend. destruct hasError; (eexists; split; [done|exact Hend]).
  - cbn. exists s. split; [done|]. rewrite app_nil_r. replace (life_step (KeepAlive sid) <$> ls) with ls; [done|].
    rewrite <-(list_fmap_id ls) at 1. apply list_fmap_ext. intros i l _. cbn. unfold life_step. destruct (l_fate l); [by case_decide|done..].
Qed.

(** A whole connection. *)
Lemma recv_frames fs : ∀ fuel s ls, Forall frame_ok fs → Tracks s ls → (length fs < fuel)%nat →
  ∃ s', recv_loop IsValid no_addr fuel s (concat (encode <$> fs)) = (s', ECause EOF "read frame header") ∧ Tracks s' (foldl lives_step ls fs).
Proof using HA no_addr_invalid.
  induction fs as [|f fs IH]; intros [|fuel] s ls Hfs Hs Hfuel; cbn in Hfuel; try lia.
  - by exists s.
  - apply Forall_cons in Hfs as [Hf Hfs]. destruct (recv_frame f s ls (concat (encode <$> fs)) Hf Hs) as (s1 & Hr & H1).
    destruct (IH fuel s1 _ Hfs H1) as (s2 & Hl & H2); [lia|]. exists s2. cbn [recv_loop fmap list_fmap concat foldl]. by rewrite Hr.
Qed.
Lemma encode_nonempty f : (0 < length (encode f))%nat.
Proof. destruct f as [|? []| |]; cbn; lia. Qed.
Lemma frames_bound fs : (length fs <= length (concat (encode <$> fs)))%nat.
Proof. induction fs as [|f fs IH]; [done|]. cbn. rewrite length_app. pose proof (encode_nonempty f). lia. Qed.

(** Cleaning up closes the pipes of the streams that are left, and keeps what they
    got. *)
Definition shut (err : option error) (p : Pipe) : Pipe := match p_closed p with None => mkPipe (p_written p) (Some err) | Some _ => p end.
Lemma pipe_close_lookup i err s j : pipes (pipe_close (Addr := Addr) i err s) !! j = (if decide (i = j) then shut err else id) <$> pipes s !! j.
Proof.
  unfold pipe_close. destruct (pipes s !! i) as [p|] eqn:Hp.
  - case_decide as E; [subst j; rewrite Hp; cbn; unfold shut|rewrite option_fmap_id]; destruct (p_closed p); cbn; try done.
    + rewrite list_lookup_insert_eq; [done|by eapply lookup_lt_Some].
    + by rewrite list_lookup_insert_ne.
  - case_decide; [subst; by rewrite Hp|by rewrite option_fmap_id].
Qed.
Lemma cleanup_pipes err (s : serverSession (Addr := Addr)) (l : list (Z * serverStream (Addr := Addr))) j : let s' := foldr (λ e s, pipe_close (st_pipe e.2) err s) s l in
  ss_handled s' = ss_handled s ∧ pipes s' !! j = (if decide (j ∈ (λ e, st_pipe e.2) <$> l) then shut err else id) <$> pipes s !! j.
Proof.
  induction l as [|[sid st] l [IH1 IH2]]; cbn [foldr fmap list_fmap].
  { rewrite decide_False by apply not_elem_of_nil. by rewrite option_fmap_id. }
  set (s1 := foldr _ s l) in *. split; [unfold pipe_close; by repeat case_match|]. rewrite pipe_close_lookup, IH2, <-option_fmap_compose. cbn [snd].
  apply option_fmap_ext. intros p. cbn. assert (shut err (shut err p) = shut err p) as Hidem by (unfold shut at 2 3; destruct (p_closed p) eqn:E; unfold shut; by rewrite ?E).
  destruct (decide (st_pipe st = j)) as [->|Hne].
  - rewrite (decide_True (P := j ∈ j :: _)) by constructor. by case_decide.
  - destruct (decide (j ∈ _ <$> l)) as [Hin|Hout].
    + by rewrite decide_True by (by constructor).
    + rewrite decide_False; [done|]. by intros [?|?]%elem_of_cons.
Qed.
Lemma cleanup_delivered err s ls : Tracks s ls → delivered (cleanup (Addr := Addr) err s) = outcome err <$> ls.
Proof.
  intros Ht. unfold delivered, cleanup. destruct (cleanup_pipes err s (map_to_list (streams s)) 0) as [Hh _].
  rewrite Hh, (tr_handled s ls Ht). apply list_eq. intros i. rewrite !list_lookup_fmap, list_lookup_imap.
  destruct (ls !! i) as [l|] eqn:Hl; [|done]. cbn. unfold outcome. do 2 f_equal.
  destruct (cleanup_pipes err s (map_to_list (streams s)) i) as [_ ->]. rewrite (tr_pipes s ls Ht), list_lookup_fmap, Hl. cbn. f_equal.
  assert (i ∈ (λ e : Z * serverStream, st_pipe e.2) <$> map_to_list (streams s) ↔ l_fate l = Live) as Hin.
  { rewrite list_elem_of_fmap. split.
    - intros ([sid st] & -> & Hst%elem_of_map_to_list). cbn in *. pose proof Hst as (k & Hk & _ & Hf & _)%(tr_streams s ls Ht). by simplify_eq.
    - intros Hf. exists (l_session l, mkStream (l_network l) (l_destination l) i). split; [done|]. apply elem_of_map_to_list, (tr_streams s ls Ht). by exists l. }
  unfold pipe_of. destruct (l_fate l) eqn:Hf; case_decide as E; try (by apply Hin in E); try done. by destruct E; apply Hin.
Qed.

(** C29: A multiplexed connection keeps its streams apart.  Whatever well-formed
    frames arrive, interleaved in any way, the handler gets the streams in the order they were
    opened, each with the network and destination it was opened with, and its
    pipe holds what the frames of its own session carry, in their order, the
    packets with their addresses, until the session ends or is opened again; what
    it holds is kept when the stream ends.  It is closed by the end of its
    session, with an error if the frame says so, or by the end of the connection;
    a stream whose session is opened again is not closed.  Frames without data
    give it nothing, so that empty packets are lost.  Handlers are taken to read
    their pipes and not to close them. *)
Theorem mux_keeps_streams_apart fs : Forall frame_ok fs →
  ∃ s, HandleMuxConnection IsValid no_addr (concat (encode <$> fs)) = (s, ECause (ECause EOF "read frame header") "mux connection closed") ∧
    delivered s = outcome (Some Canceled) <$> lives fs.
Proof using HA no_addr_invalid.
  intros Hfs. unfold HandleMuxConnection. pose proof (frames_bound fs) as Hb.
  destruct (recv_frames fs (S (length (concat (encode <$> fs)))) NewSession [] Hfs Tracks_new ltac:(lia)) as (s & -> & Hs).
  eexists. split; [done|]. by apply cleanup_delivered.
Qed.

(** ** Packets *)

(** A packet that fits the buffer it is read into, on either side. *)
Definition packet_ok (cap : nat) (p : bytes * Addr) : Prop :=
  data_ok p.1 ∧ (length p.1 <= cap)%nat ∧ addr_ok p.2 ∧ (9 + length (addr_bytes p.2) <= cap)%nat.
Definition frame_of (requestWritten : bool) (p : bytes * Addr) : Frame :=
  if requestWritten then Keep 0 (Some p.2) p.1 else New 0 NetworkUDP p.2 p.1.

Lemma address_length network a : addr_ok a → 5 + Z.of_nat (AddrPortLen a) = 4 + Z.of_nat (length (address network a)).
Proof using HA. intros (_ & _ & Hw & _). rewrite <-(write_length a _ Hw). unfold address. cbn [length]. lia. Qed.
Lemma XUDP_WritePacket_encode b cap p : packet_ok cap p → XUDP_WritePacket socksaddr_len b p.1 p.2 = Ok (encode (frame_of b p)).
Proof using HA len_agrees.
  destruct p as [data a]. intros (_ & _ & Ha & _). cbn in *. unfold XUDP_WritePacket. pose proof Ha as (_ & _ & Hw & _). rewrite Hw. cbn [result_bind].
  rewrite len_agrees, (address_length NetworkUDP a Ha). f_equal. unfold frame_of.
  destruct b; cbn [encode fst snd]; unfold frame_start, address; rewrite <-!app_assoc; done.
Qed.
Definition frames_of (packets : list (bytes * Addr)) : list Frame :=
  match packets with [] => [] | p :: packets => frame_of false p :: (frame_of true <$> packets) end.
Lemma XUDP_WriteAll_encode cap ps : Forall (packet_ok cap) ps → XUDP_WriteAll socksaddr_len false ps = Ok (concat (encode <$> frames_of ps)).
Proof using HA len_agrees.
  assert (∀ ps, Forall (packet_ok cap) ps → XUDP_WriteAll socksaddr_len true ps = Ok (concat (encode <$> (frame_of true <$> ps)))) as Htrue.
  { induction 1 as [|[data a] qs Hp _ IH]; [done|]. pose proof (XUDP_WritePacket_encode true cap (data, a) Hp) as Hw. cbn [XUDP_WriteAll fst snd] in *. rewrite Hw. cbn [result_bind].
    rewrite IH. done. }
  destruct 1 as [|[data a] qs Hp Hqs]; [done|]. pose proof (XUDP_WritePacket_encode false cap (data, a) Hp) as Hw. cbn [XUDP_WriteAll fst snd] in *. rewrite Hw. cbn [result_bind].
  by rewrite Htrue.
Qed.
Lemma frames_ok cap ps : Forall (packet_ok cap) ps → Forall frame_ok (frames_of ps).
Proof.
  intros Hps. destruct Hps as [|p qs Hp Hqs]; [constructor|]. constructor.
  - destruct Hp as (Hd & _ & Ha & _). split; [done|]. split; [by right|done].
  - apply Forall_fmap. eapply Forall_impl; [exact Hqs|]. intros q (Hd & _ & Ha & _). by split.
Qed.

Definition packet_bytes (p : bytes * Addr) : bytes := frame_data p.1 ++ addr_bytes p.2.
(** The packets that are handed on. *)
Definition filled (p : bytes * Addr) : Prop := p.1 ≠ [].
#[local] Instance filled_dec p : Decision (filled p) := _.
Definition handed_on (ps : list (bytes * Addr)) : list (bytes * Addr) := base.filter filled ps.
Definition packets_content (ps : list (bytes * Addr)) : bytes := concat ((λ p, content NetworkUDP p.2 p.1) <$> ps).
Lemma packets_content_spec ps : packets_content ps = concat (packet_bytes <$> handed_on ps).
Proof.
  unfold packets_content, handed_on. induction ps as [|[data a] ps IH]; [done|]. cbn [fmap list_fmap concat fst snd]. rewrite IH, filter_cons. unfold content.
  destruct (decide (data = [])) as [->|Hne].
  - rewrite (decide_False (P := filled ([], a))) by (intros Hf; by apply Hf). done.
  - rewrite (decide_True (P := filled (data, a))) by done. done.
Qed.
Lemma lives_packets p ps : lives (frames_of (p :: ps)) = [mkLife 0 NetworkUDP p.2 (packets_content (p :: ps)) Live].
Proof.
  unfold lives, packets_content. cbn [frames_of foldl fmap list_fmap concat]. unfold lives_step at 2. cbn [frame_of born app fmap list_fmap].
  generalize (content NetworkUDP p.2 p.1) as w. induction ps as [|q ps IH]; intros w; [by rewrite app_nil_r|].
  cbn [fmap list_fmap foldl concat]. unfold lives_step at 2. cbn [frame_of born fmap list_fmap]. unfold life_step. cbn [l_fate l_session session_of].
  rewrite decide_True by done. cbn. rewrite IH, <-app_assoc. done.
Qed.

Lemma server_ReadPacket_written cap p rest : packet_ok cap p → server_ReadPacket Unwrap cap (packet_bytes p ++ rest) = Ok (p, rest).
Proof using HA unwrap_plain.
  destruct p as [data a]. intros (Hd & Hcap & (Hpl & _ & Hw & _) & _). cbn [fst snd] in *. unfold server_ReadPacket, packet_bytes, frame_data. cbn [fst snd].
  rewrite <-!app_assoc. rewrite (rbind_step _ _ _ _ _ (read_be16_app (Z.of_nat (length data)) _ ltac:(unfold data_ok in Hd; lia))).
  rewrite decide_False by lia. rewrite Nat2Z.id. rewrite (rbind_step _ _ _ _ _ (read_full_app data _)).
  rewrite (rbind_step _ _ _ _ _ (read_written a _ rest Hpl Hw)). unfold rret. by rewrite unwrap_plain.
Qed.
Lemma server_ReadAll_written cap ps : ∀ fuel, Forall (packet_ok cap) ps → (length ps < fuel)%nat →
  server_ReadAll Unwrap fuel cap (concat (packet_bytes <$> ps)) = Ok ps.
Proof using HA unwrap_plain.
  induction ps as [|p ps IH]; intros [|fuel] Hps Hf; cbn in Hf; try lia; [done|]. apply Forall_cons in Hps as [Hp Hps].
  cbn [server_ReadAll fmap list_fmap concat]. rewrite server_ReadPacket_written by done. rewrite IH by (done || lia). done.
Qed.

(** An answer of the server. *)
Lemma XUDP_ReadPacket_written fuel cap own p rest : packet_ok cap p →
  ∃ frame, writePacketFrame IsValid 0 p.1 p.2 = (frame, None) ∧
    XUDP_ReadPacket Unwrap no_addr (S fuel) cap own (frame ++ rest) = Ok (p, rest).
Proof using HA unwrap_plain.
  destruct p as [data a]. intros (Hd & Hcap & Ha & Hroom). cbn in Hd, Hcap, Ha, Hroom. pose proof Ha as (Hpl & Hv & Hw & Hl).
  unfold writePacketFrame. cbn [fst snd]. rewrite Hv, Hw, (address_length NetworkUDP a Ha). eexists. split; [done|].
  cbn [XUDP_ReadPacket]. rewrite decide_False by lia. set (n := 4 + Z.of_nat (length (address NetworkUDP a))).
  assert (0 <= n < 65536) as Hn by (unfold n, address; cbn [length]; lia).
  assert (∀ s, read_six (be16 n ++ be16 0 ++ [u8 StatusKeep; u8 OptionData] ++ s) = Ok ((n, StatusKeep, OptionData), s)) as Hsix.
  { intros s. unfold read_six, be16. unfold rbind, read_full. rewrite decide_True by (cbn; lia). cbn. by rewrite of_be16_be16, Z.mod_small by done. }
  rewrite <-!app_assoc. rewrite (rbind_step _ _ _ _ _ (Hsix _)). cbv beta iota zeta.
  rewrite (decide_False (P := StatusKeep = StatusNew)), (decide_True (P := StatusKeep = StatusKeep)) by done.
  assert (n = 5 + Z.of_nat (length (addr_bytes a))) as En by (unfold n, address; cbn [length]; lia).
  rewrite (decide_False (P := n = 4)), (decide_False (P := n < 2)), (decide_False (P := Z.of_nat cap < _)) by lia.
  assert (read_full (Z.to_nat (n - 2)) ([u8 NetworkUDP] ++ addr_bytes a ++ frame_data data ++ rest)
          = Ok (u8 NetworkUDP :: addr_bytes a ++ be16 (Z.of_nat (length data)), data ++ rest)) as Hbuf.
  { replace (Z.to_nat (n - 2)) with (length ([u8 NetworkUDP] ++ addr_bytes a ++ be16 (Z.of_nat (length data)))) by (rewrite !length_app; cbn; lia).
    unfold frame_data. rewrite <-!app_assoc. rewrite !(app_assoc [_]), (app_assoc _ (be16 _)). rewrite <-(app_assoc [_]). apply read_full_app. }
  rewrite (rbind_step _ _ _ _ _ Hbuf). rewrite (read_written a _ _ Hpl Hw). unfold after_header.
  rewrite (decide_False (P := Z.land OptionData OptionError = OptionError)), (decide_False (P := Z.land OptionData OptionData ≠ OptionData)) by auto.
  rewrite <-(app_nil_r (be16 _)), read_be16_app by (unfold data_ok in Hd; lia). rewrite decide_False by lia. rewrite Nat2Z.id.
  rewrite (rbind_step _ _ _ _ _ (read_full_app data rest)). unfold rret. by rewrite unwrap_plain.
Qed.

(** C30: UDP over a multiplexed VMess connection (XUDP): of the packets a client
    writes, each to a destination of its own, the handler of the server reads all
    that are not empty, one by one with their destinations; empty ones are lost.
    A packet the server answers with, empty or not, is what the client reads,
    with the address it is from.  The packets have to fit the buffers they are
    read into, at the client with the header of the frame and the address. *)
Theorem xudp_roundtrip cap own p ps : Forall (packet_ok cap) (p :: ps) →
  ∃ wire s err w closed, XUDP_WriteAll socksaddr_len false (p :: ps) = Ok wire ∧ HandleMuxConnection IsValid no_addr wire = (s, err) ∧
    delivered s = [(0, NetworkUDP, p.2, Some (mkPipe w closed))] ∧
    server_ReadAll Unwrap (S (S (length ps))) cap w = Ok (handed_on (p :: ps)) ∧
    ∀ q fuel rest, packet_ok cap q → ∃ frame, writePacketFrame IsValid 0 q.1 q.2 = (frame, None) ∧
      XUDP_ReadPacket Unwrap no_addr (S fuel) cap own (frame ++ rest) = Ok (q, rest).
Proof using HA len_agrees no_addr_invalid unwrap_plain.
  intros Hps. unfold HandleMuxConnection. pose proof (frames_bound (frames_of (p :: ps))) as Hb.
  destruct (recv_frames (frames_of (p :: ps)) (S (length (concat (encode <$> frames_of (p :: ps))))) NewSession [] (frames_ok cap _ Hps) Tracks_new ltac:(lia))
    as (s & Hloop & Ht). fold (lives (frames_of (p :: ps))) in Ht. rewrite lives_packets in Ht.
  pose proof (cleanup_delivered (Some Canceled) s _ Ht) as Hd.
  eexists _, _, _, (packets_content (p :: ps)), _. split; [by apply (XUDP_WriteAll_encode cap)|]. rewrite Hloop. split; [done|]. split; [exact Hd|]. split.
  - rewrite packets_content_spec. apply server_ReadAll_written.
    + unfold handed_on. rewrite Forall_forall in *. intros q [_ Hq]%list_elem_of_filter. by apply Hps.
    + pose proof (length_filter filled (p :: ps)) as Hl. unfold handed_on. cbn [length] in *. lia.
  - intros q fuel rest. apply XUDP_ReadPacket_written.
Qed.
End theorems.

(** ** Runs *)

Module MuxRun.
Import VlessRun.
Notation address_ := (Ascii.ascii * Ascii.ascii)%type.
Definition no_addr : address_ := (u8 0, u8 0).
Definition IsValid (a : address_) : bool := negb (bool_decide (a = no_addr)).
Definition Unwrap (a : address_) : address_ := a.
Definition anything (_ : address_) : Prop := True.
Definition room (a : address_) : nat := AddrPortLen a.
Lemma room_agrees a : room a = AddrPortLen a.
Proof. done. Qed.
Lemma unwrap_same a : anything a → Unwrap a = a.
Proof. done. Qed.

Definition web : address_ := (u8 1, u8 80).
Definition dns : address_ := (u8 8, u8 53).
(** Two streams, a packet to a third address, a session nobody opened; the first
    stream ends and its session is opened again. *)
Definition frames : list (Frame (Addr := address_)) :=
  [New 5 NetworkTCP web (bytes_of [104; 101]); New 9 NetworkUDP dns (bytes_of [1]); Keep 5 None (bytes_of [108; 108; 111]);
   Keep 9 (Some web) (bytes_of [2; 3]); Keep 7 None (bytes_of [9]); KeepAlive 5; End_ 5 true; Keep 5 None (bytes_of [7]);
   New 5 NetworkTCP dns (bytes_of [8])].
Lemma addresses_ok : addr_ok anything IsValid web ∧ addr_ok anything IsValid dns.
Proof. split; split_and!; done. Qed.
Lemma frames_are_ok : Forall (frame_ok anything IsValid) frames.
Proof. destruct addresses_ok. repeat constructor; cbn; (lia || by left || by right || done). Qed.

(** The theorem at these frames. *)
Lemma mux_keeps_streams_apart_witness : ∃ s,
  HandleMuxConnection IsValid no_addr (concat (encode <$> frames)) = (s, ECause (ECause EOF "read frame header") "mux connection closed") ∧
  delivered s =
    [(5, NetworkTCP, web, Some (mkPipe payload (Some (Some (ENew "remote closed wth error")))));
     (9, NetworkUDP, dns, Some (mkPipe (bytes_of [0; 1; 1; 8; 53; 0; 2; 2; 3; 1; 80]) (Some (Some Canceled))));
     (5, NetworkTCP, dns, Some (mkPipe (bytes_of [8]) (Some (Some Canceled))))].
Proof.
  destruct (mux_keeps_streams_apart anything IsValid no_addr eq_refl frames frames_are_ok) as (s & Hs & Hd).
  exists s. split; [exact Hs|]. rewrite Hd. vm_compute. reflexivity.
Defined.

Definition packets : list (bytes * address_) := [(bytes_of [1; 2], dns); ([], dns); (bytes_of [3], web)].
Lemma packets_ok : Forall (packet_ok anything IsValid 100) packets.
Proof. destruct addresses_ok. repeat constructor; cbn; (lia || done). Qed.
Lemma xudp_roundtrip_witness : ∃ wire s err w closed, XUDP_WriteAll room false packets = Ok wire ∧ HandleMuxConnection IsValid no_addr wire = (s, err) ∧
  delivered s = [(0, NetworkUDP, dns, Some (mkPipe w closed))] ∧ server_ReadAll Unwrap 4 100 w = Ok [(bytes_of [1; 2], dns); (bytes_of [3], web)].
Proof.
  destruct (xudp_roundtrip anything IsValid Unwrap no_addr room eq_refl room_agrees unwrap_same 100 dns (bytes_of [1; 2], dns) [([], dns); (bytes_of [3], web)] packets_ok)
    as (wire & s & err & w & closed & H1 & H2 & H3 & H4 & _).
  exists wire, s, err, w, closed. split_and!; [exact H1|exact H2|exact H3|exact H4].
Defined.

(** A session that is opened again: the pipe of the first stream gets no more and
    is never closed. *)
Example reopened_stream_hangs :
  let '(s, _) := HandleMuxConnection IsValid no_addr (concat (encode <$> [New 5 NetworkTCP web (bytes_of [1]); New 5 NetworkTCP web (bytes_of [2])])) in
  pipes s !! 0%nat = Some (mkPipe (bytes_of [1]) None).
Proof. vm_compute. reflexivity. Qed.
(** An empty packet is lost. *)
Example empty_packet_is_lost :
  let '(s, _) := HandleMuxConnection IsValid no_addr (concat (encode <$> [New 0 NetworkUDP dns []; Keep 0 (Some web) (bytes_of [7])])) in
  (λ p, server_ReadAll Unwrap 3 100 (p_written p)) <$> pipes s !! 0%nat = Some (Ok [(bytes_of [7], web)]).
Proof. vm_compute. reflexivity. Qed.
(** A frame that says less than two bytes follow crashes the client. *)
Example short_frame_panics :
  XUDP_ReadPacket Unwrap no_addr 1 100 dns (bytes_of [0; 1; 0; 0; 2; 1; 0; 0]) = Err (EPanic "slice bounds out of range").
Proof. vm_compute. reflexivity. Qed.
(** A packet without an address announces one. *)
Example packet_without_address :
  (writePacketFrame IsValid 0 (bytes_of [7]) no_addr).1 = bytes_of [0; 7; 0; 0; 2; 1; 0; 1; 7].
Proof. vm_compute. reflexivity. Qed.
End MuxRun.
