(* ===== verification/Trojan.v ===== *)
(** * The Trojan protocol

    Model of src/runtime/sing-box/transport/trojan/protocol.go and service.go:
    the request of a client, the table of users and the decision of the service
    between its handler and the fallback, and the packets of a UDP session.  The
    hash, the address serializer and the multiplexer are libraries. *)
From S2P Require Import Prelude Bytes VlessCodec Vision VlessRun VmessStream.
Open Scope Z_scope.

Definition KeyLength : nat := 56.
Definition Trojan_CommandTCP : Z := 1.
Definition Trojan_CommandUDP : Z := 3.
Definition Trojan_CommandMux : Z := 127.
Definition CRLF : bytes := [u8 13; u8 10].
Definition ErrUserExists : error := ENew "user already exists".

Section trojan.
(** [sha256.New224], of 28 bytes. *)
Context (sha224 : bytes → bytes).
Context {Addr : Type} `{AddrSerializer Addr}.
Context {K : Type} `{Countable K}.

(** ** Keys and users *)

(** [hex.Encode]. *)
Definition hex_digit (n : Z) : byte := u8 (if decide (n < 10) then 48 + n else 87 + n).
Definition hex_Encode (b : bytes) : bytes := b ≫= λ x, [hex_digit (Z.shiftr (val x) 4); hex_digit (Z.land (val x) 15)].
Definition Trojan_Key (password : bytes) : bytes := hex_Encode (sha224 password).

Record TrojanService := mkTrojanService {
  users : gmap K bytes;
  keys : gmap bytes K;
  has_fallback : bool;
}.
(** The loop of [UpdateUsers]; more users than passwords are a panic. *)
Fixpoint update_users (userList : list K) (passwordList : list bytes) (t : gmap K bytes * gmap bytes K) : result (gmap K bytes * gmap bytes K) :=
  match userList with
  | [] => Ok t
  | user :: userList =>
      if decide (is_Some (t.1 !! user)) then Err ErrUserExists
      else
        match passwordList with
        | [] => Err (EPanic "index out of range")
        | password :: passwordList =>
            let key := Trojan_Key password in
            match t.2 !! key with
            | Some _ => Err (ECause ErrUserExists "password used")
            | None => update_users userList passwordList (<[user := key]> (t.1), <[key := user]> (t.2))
            end
        end
  end.
Definition Trojan_UpdateUsers (userList : list K) (passwordList : list bytes) (s : TrojanService) : TrojanService * option error :=
  match update_users userList passwordList (∅, ∅) with
  | Err e => (s, Some e)
  | Ok (users, keys) => (mkTrojanService users keys (has_fallback s), None)
  end.

(** ** The service *)

(** Where a connection goes: to the handler with its user, or to the fallback with
    all its bytes. *)
Inductive Outcome :=
| Handled (user : K) (command : Z) (destination : Addr) (rest : bytes)
| FellBack (stream : bytes)
| Refused (e : error).

Definition skip_crlf : reader () := λ s, match read_full 2 s with Ok (_, s) => Ok ((), s) | Err e => Err (ECause e "skip crlf") end.
Definition with_cause {A} (r : reader A) (cause : string) : reader A := λ s, match r s with Ok x => Ok x | Err e => Err (ECause e cause) end.

(** What follows the key. *)
Definition read_request : reader (Z * Addr) :=
  let! _ := skip_crlf in
  let! command := with_cause read_byte "read command" in
  if decide (val command ≠ Trojan_CommandTCP ∧ val command ≠ Trojan_CommandUDP ∧ val command ≠ Trojan_CommandMux) then rfail (ENew "unknown command")
  else
    let! destination := with_cause ReadAddrPort "read destination" in
    let! _ := skip_crlf in
    rret (val command, destination).

Definition fallback (s : TrojanService) (header rest : bytes) (e : string) : Outcome :=
  if has_fallback s then FellBack (header ++ rest) else Refused (ECause (ENew e) "fallback disabled").

(** [NewConnection] on a connection whose bytes arrive in pieces: the key is what
    one read gives. *)
Definition Trojan_NewConnection (s : TrojanService) (reads : list bytes) : Outcome :=
  match reads with
  | [] => Refused EOF
  | piece :: reads =>
      let key := take KeyLength piece in
      let rest := drop KeyLength piece ++ concat reads in
      if decide (length key ≠ KeyLength) then fallback s key rest "bad request size"
      else
        match keys s !! key with
        | None => fallback s key rest "bad request"
        | Some user =>
            match read_request rest with
            | Err e => Refused e
            | Ok ((command, destination), rest) => Handled user command destination rest
            end
        end
  end.

(** ** The client *)

(** [ClientHandshakeRaw] and [ClientHandshake], the bytes they write. *)
Definition ClientHandshakeRaw (key : bytes) (command : Z) (destination : Addr) (payload : bytes) : result bytes :=
  let? addr := WriteAddrPort destination in
  Ok (key ++ CRLF ++ [u8 command] ++ addr ++ CRLF ++ payload).
Definition ClientHandshake (key : bytes) : Addr → bytes → result bytes := ClientHandshakeRaw key Trojan_CommandTCP.

(** [WritePacket] and [ReadPacket] into a buffer with room for [cap] bytes. *)
Definition Trojan_WritePacket (data : bytes) (destination : Addr) : result bytes :=
  let? addr := WriteAddrPort destination in
  Ok (addr ++ be16 (Z.of_nat (length data)) ++ CRLF ++ data).
Definition Trojan_ReadPacket (cap : nat) : reader (bytes * Addr) :=
  let! destination := with_cause ReadAddrPort "read destination" in
  let! length_ := with_cause read_be16 "read chunk length" in
  let! _ := skip_crlf in
  if decide (Z.of_nat cap < length_) then rfail ErrShortBuffer
  else let! data := read_full (Z.to_nat length_) in rret (data, destination).

(** [ClientHandshakePacket], and [ClientPacketConn.WritePacket]: the bytes and
    whether the request is written, which it counts as after an error too. *)
Definition ClientHandshakePacket (key : bytes) (destination : Addr) (data : bytes) : result bytes :=
  let? addr := WriteAddrPort destination in
  Ok (key ++ CRLF ++ [u8 Trojan_CommandUDP] ++ addr ++ CRLF ++ addr ++ be16 (Z.of_nat (length data)) ++ CRLF ++ data).
Definition Client_WritePacket (key : bytes) (headerWritten : bool) (data : bytes) (destination : Addr) : result bytes * bool :=
  if headerWritten then (Trojan_WritePacket data destination, true) else (ClientHandshakePacket key destination data, true).

Fixpoint Client_WriteAll (key : bytes) (headerWritten : bool) (packets : list (bytes * Addr)) : result bytes :=
  match packets with
  | [] => Ok []
  | (data, destination) :: packets =>
      let '(r, headerWritten) := Client_WritePacket key headerWritten data destination in
      let? out := r in
      let? more := Client_WriteAll key headerWritten packets in
      Ok (out ++ more)
  end.
(** All packets until the end; [e] is what reading an address at the end gives. *)
Fixpoint Trojan_ReadAll (fuel cap : nat) (s : bytes) : list (bytes * Addr) * error :=
  match fuel with
  | 0%nat => ([], EPanic "fuel")
  | S fuel =>
      match Trojan_ReadPacket cap s with
      | Err e => ([], e)
      | Ok (packet, s) => let '(packets, e) := Trojan_ReadAll fuel cap s in (packet :: packets, e)
      end
  end.
End trojan.

(** ** Sessions *)

Section theorems.
Context (sha224 : bytes → bytes) (length_sha224 : ∀ m, length (sha224 m) = 28%nat).
Context {Addr : Type} `{AddrSerializer Addr} (plain : Addr → Prop) {HA : AddrSerializerLaws Addr plain}.
Context {K : Type} `{Countable K}.

Lemma length_Key password : length (Trojan_Key sha224 password) = KeyLength.
Proof using length_sha224.
  unfold Trojan_Key. assert (∀ b, length (hex_Encode b) = (2 * length b)%nat) as ->.
  { induction b as [|x b IH]; [done|]. cbn. unfold hex_Encode in IH. rewrite IH. lia. }
  by rewrite length_sha224.
Qed.

(** Who is listed with which password. *)
Definition listed (us : list K) (ps : list bytes) (u : K) (password : bytes) : Prop := ∃ i : nat, us !! i = Some u ∧ ps !! i = Some password.
Lemma listed_cons u us p ps v q : listed (u :: us) (p :: ps) v q ↔ (v = u ∧ q = p) ∨ listed us ps v q.
Proof.
  split.
  - intros ([|i] & Hv & Hq); cbn in *; [left; by simplify_eq|right; by exists i].
  - intros [[-> ->]|(i & Hv & Hq)]; [by exists 0%nat|by exists (S i)].
Qed.
Lemma update_users_keys us : ∀ ps t t', update_users sha224 us ps t = Ok t' →
  ∀ key u, t'.2 !! key = Some u ↔ t.2 !! key = Some u ∨ ∃ p, listed us ps u p ∧ key = Trojan_Key sha224 p.
Proof.
  induction us as [|v us IH]; intros ps t t' Hup key u; cbn in Hup.
  { injection Hup as <-. split; [by left|]. intros [?|(p & (i & Hi & _) & _)]; [done|]. by rewrite lookup_nil in Hi. }
  case_decide; [done|]. destruct ps as [|p ps]; [done|]. destruct (t.2 !! Trojan_Key sha224 p) as [o|] eqn:Hk; [done|].
  rewrite (IH _ _ _ Hup key u). cbn. rewrite lookup_insert_Some. split.
  - intros [[[<- <-]|[_ Ht]]|(q & Hl & ->)]; [right|by left|right].
    + exists p. split; [|done]. apply listed_cons. by left.
    + exists q. split; [|done]. apply listed_cons. by right.
  - intros [Ht|(q & [[-> ->]|Hl]%listed_cons & ->)]; [left; right|left; by left|right; by exists q].
    split; [|done]. intros <-. congruence.
Qed.
Lemma UpdateUsers_keys us ps s s' : Trojan_UpdateUsers sha224 us ps s = (s', None) →
  ∀ key u, keys s' !! key = Some u ↔ ∃ p, listed us ps u p ∧ key = Trojan_Key sha224 p.
Proof.
  unfold Trojan_UpdateUsers. destruct (update_users sha224 us ps (∅, ∅)) as [[us' ks']|] eqn:E; [|done]. intros [= <-] key u. cbn.
  rewrite (update_users_keys us ps _ _ E key u). cbn. rewrite lookup_empty. naive_solver.
Qed.

(** ** Requests *)

Lemma skip_crlf_app s : skip_crlf (CRLF ++ s) = Ok ((), s).
Proof. unfold skip_crlf. rewrite (read_full_app CRLF s : read_full 2 _ = _). done. Qed.
Lemma caused_ok {A} (r : reader A) cause s x : r s = Ok x → with_cause r cause s = Ok x.
Proof. unfold with_cause. by intros ->. Qed.
Definition command_ok (command : Z) : Prop := command = Trojan_CommandTCP ∨ command = Trojan_CommandUDP ∨ command = Trojan_CommandMux.
Lemma read_request_written command dest addr rest : command_ok command → plain dest → WriteAddrPort dest = Ok addr →
  read_request (CRLF ++ [u8 command] ++ addr ++ CRLF ++ rest) = Ok ((command, dest), rest).
Proof using HA.
  intros Hc Hp Hw. assert (0 <= command < 256) as Hr by (destruct Hc as [-> | [-> | ->]]; vm_compute; by split).
  unfold read_request. rewrite (rbind_step _ _ _ _ _ (skip_crlf_app _)). cbn [app].
  rewrite (rbind_step _ _ _ _ _ (caused_ok read_byte _ (u8 command :: _) _ eq_refl)). rewrite val_u8_small by done.
  rewrite decide_False by (intros (? & ? & ?); destruct Hc as [|[|]]; done).
  rewrite (rbind_step _ _ _ _ _ (caused_ok ReadAddrPort _ _ _ (read_written dest addr _ Hp Hw))).
  by rewrite (rbind_step _ _ _ _ _ (skip_crlf_app _)).
Qed.

Lemma key_split (first : bytes) (more : list bytes) key rest : length key = KeyLength → (KeyLength <= length first)%nat → first ++ concat more = key ++ rest →
  take KeyLength first = key ∧ drop KeyLength first ++ concat more = rest.
Proof.
  intros Hk Hf Hw. split.
  - rewrite <-(take_app_le first (concat more)) by done. rewrite Hw. by apply take_app_length'.
  - rewrite <-drop_app_le by done. rewrite Hw. by apply drop_app_length'.
Qed.
Lemma NewConnection_listed (s : TrojanService (K := K)) first more key u rest command dest payload :
  length key = KeyLength → keys s !! key = Some u → (KeyLength <= length first)%nat → first ++ concat more = key ++ rest →
  read_request rest = Ok ((command, dest), payload) → Trojan_NewConnection s (first :: more) = Handled u command dest payload.
Proof.
  intros Hk Hu Hf Hw Hr. unfold Trojan_NewConnection. destruct (key_split first more key rest Hk Hf Hw) as [-> ->].
  rewrite decide_False by auto. by rewrite Hu, Hr.
Qed.

(** ** Packets *)

Definition trojan_packet_ok (cap : nat) (p : bytes * Addr) : Prop :=
  plain p.2 ∧ is_ok (WriteAddrPort p.2) ∧ Z.of_nat (length p.1) < 65536 ∧ (length p.1 <= cap)%nat.
Lemma ReadPacket_written cap p rest : trojan_packet_ok cap p →
  ∃ frame, Trojan_WritePacket p.1 p.2 = Ok frame ∧ Trojan_ReadPacket cap (frame ++ rest) = Ok (p, rest).
Proof using HA.
  destruct p as [data a]. intros (Hp & Hw & Hd & Hcap). cbn [fst snd] in *. unfold Trojan_WritePacket.
  destruct (WriteAddrPort a) as [addr|] eqn:Ea; [|done]. cbn [result_bind]. eexists. split; [done|]. unfold Trojan_ReadPacket. rewrite <-!app_assoc.
  rewrite (rbind_step _ _ _ _ _ (caused_ok ReadAddrPort _ _ _ (read_written a addr _ Hp Ea))).
  rewrite (rbind_step _ _ _ _ _ (caused_ok read_be16 _ _ _ (read_be16_app (Z.of_nat (length data)) _ ltac:(lia)))).
  rewrite (rbind_step _ _ _ _ _ (skip_crlf_app _)). rewrite decide_False by lia. rewrite Nat2Z.id.
  by rewrite (rbind_step _ _ _ _ _ (read_full_app data rest)).
Qed.
Lemma ReadAll_step fuel cap s p s' : Trojan_ReadPacket cap s = Ok (p, s') →
  (Trojan_ReadAll (Addr := Addr) (S fuel) cap s).1 = p :: (Trojan_ReadAll fuel cap s').1.
Proof. intros Hp. cbn. rewrite Hp. by destruct (Trojan_ReadAll fuel cap s'). Qed.
(** The packets behind a request, and what the reader says at the end. *)
Lemma ReadAll_written key cap ps : ∀ fuel, Forall (trojan_packet_ok cap) ps → (length ps < fuel)%nat →
  ∃ wire, Client_WriteAll key true ps = Ok wire ∧ (Trojan_ReadAll (Addr := Addr) fuel cap wire).1 = ps ++ (Trojan_ReadAll (fuel - length ps) cap []).1.
Proof using HA.
  induction ps as [|p ps IH]; intros fuel Hps Hf.
  { exists []. split; [done|]. cbn. by rewrite Nat.sub_0_r. }
  apply Forall_cons in Hps as [Hp Hps]. destruct fuel as [|fuel]; [cbn in Hf; lia|]. cbn in Hf.
  destruct (IH fuel Hps ltac:(lia)) as (wire & Hw & Hr). destruct (ReadPacket_written cap p wire Hp) as (frame & Hf1 & Hf2).
  exists (frame ++ wire). destruct p as [data a]. cbn [fst snd] in Hf1. cbn [Client_WriteAll Client_WritePacket]. rewrite Hf1. cbn [result_bind]. rewrite Hw.
  split; [done|]. by rewrite (ReadAll_step _ _ _ _ _ Hf2), Hr.
Qed.

(** An address can not be read from nothing. *)
Definition needs_bytes : Prop := ∃ e, ReadAddrPort (Addr := Addr) [] = Err e.

(** C31: The Trojan service serves exactly the users it was given.  After an update
    that succeeded: the request of a listed user reaches the handler under his
    name, with its command, its destination and what follows it, however it
    arrives behind the key; the packets a client sends over a UDP session are read
    one by one with their destinations; a connection reaches the handler only with
    the key of a listed user; and one that starts with anything else is handed to
    the fallback with all its bytes, or refused when there is none.  An update
    that fails changes nothing. *)
Theorem trojan_serves_listed_users us ps (s s' : TrojanService (K := K)) err :
  Trojan_UpdateUsers sha224 us ps s = (s', err) →
  (err ≠ None → s' = s) ∧
  (err = None →
   (∀ u password command dest addr payload first more, listed us ps u password → command_ok command → plain dest → WriteAddrPort dest = Ok addr →
      ∃ wire, ClientHandshakeRaw (Trojan_Key sha224 password) command dest payload = Ok wire ∧
        ((KeyLength <= length first)%nat → first ++ concat more = wire → Trojan_NewConnection s' (first :: more) = Handled u command dest payload)) ∧
   (∀ u password cap p packets first more, listed us ps u password → needs_bytes → Forall (trojan_packet_ok cap) (p :: packets) →
      ∃ wire rest, Client_WriteAll (Trojan_Key sha224 password) false (p :: packets) = Ok wire ∧
        ((KeyLength <= length first)%nat → first ++ concat more = wire →
           Trojan_NewConnection s' (first :: more) = Handled u Trojan_CommandUDP p.2 rest ∧
           (Trojan_ReadAll (S (S (length packets))) cap rest).1 = p :: packets)) ∧
   (∀ reads u command (dest : Addr) rest, Trojan_NewConnection s' reads = Handled u command dest rest →
      ∃ password first more, reads = first :: more ∧ listed us ps u password ∧ take KeyLength first = Trojan_Key sha224 password) ∧
   (∀ first more, (∀ u password, listed us ps u password → take KeyLength first ≠ Trojan_Key sha224 password) →
      if has_fallback s' then Trojan_NewConnection (Addr := Addr) s' (first :: more) = FellBack (first ++ concat more)
      else ∃ e, Trojan_NewConnection (Addr := Addr) s' (first :: more) = Refused e)).
Proof using HA length_sha224.
  intros Hup. split.
  { unfold Trojan_UpdateUsers in Hup. destruct (update_users _ _ _ _) as [[]|]; by simplify_eq. }
  intros ->. pose proof (UpdateUsers_keys us ps s s' Hup) as Hkeys. split_and!.
  - intros u password command dest addr payload first more Hl Hc Hp Hw. unfold ClientHandshakeRaw. rewrite Hw. eexists. split; [done|].
    intros Hf Hwire. eapply NewConnection_listed; [apply (length_Key password)|apply Hkeys; by exists password|done|done|].
    by apply read_request_written.
  - intros u password cap p packets first more Hl [e He] [Hp Hps]%Forall_cons.
    destruct (ReadAll_written (Trojan_Key sha224 password) cap packets (S (length packets)) Hps ltac:(lia)) as (wire & Hw & Hr).
    destruct (ReadPacket_written cap p wire Hp) as (frame & Hf1 & Hf2). pose proof Hp as (Hpl & Haddr & _). destruct p as [data a]. cbn [fst snd] in *.
    cbn [Client_WriteAll Client_WritePacket]. unfold ClientHandshakePacket, Trojan_WritePacket in *.
    destruct (WriteAddrPort a) as [addr|] eqn:Ea; [|done]. cbn [result_bind] in *. rewrite Hw. cbn [result_bind].
    assert (frame = addr ++ be16 (Z.of_nat (length data)) ++ CRLF ++ data) as -> by congruence.
    eexists _, ((addr ++ be16 (Z.of_nat (length data)) ++ CRLF ++ data) ++ wire). split; [done|]. intros Hf Hwire. split.
    + eapply NewConnection_listed; [apply (length_Key password)|apply Hkeys; by exists password|done| |].
      * rewrite Hwire, <-!app_assoc. done.
      * rewrite <-!app_assoc. apply read_request_written; [by right; left|done|done].
    + rewrite (ReadAll_step _ _ _ _ _ Hf2), Hr. f_equal. replace (S (length packets) - length packets)%nat with 1%nat by lia.
      cbn. unfold Trojan_ReadPacket, with_cause, rbind. rewrite He. cbn. by rewrite app_nil_r.
  - intros reads u command dest rest Hn. destruct reads as [|first more]; [done|]. unfold Trojan_NewConnection in Hn.
    case_decide; [unfold fallback in Hn; by destruct (has_fallback s')|].
    destruct (keys s' !! take KeyLength first) as [v|] eqn:Hk; [|unfold fallback in Hn; by destruct (has_fallback s')].
    destruct (read_request _) as [[[c a] r]|]; [|done]. injection Hn as -> _ _ _. apply Hkeys in Hk as (p & Hl & Hkey). by exists p, first, more.
  - intros first more Hno. unfold Trojan_NewConnection.
    assert (∀ e, if has_fallback s' then fallback (Addr := Addr) s' (take KeyLength first) (drop KeyLength first ++ concat more) e = FellBack (first ++ concat more)
                 else ∃ e', fallback (Addr := Addr) s' (take KeyLength first) (drop KeyLength first ++ concat more) e = Refused e') as Hfb.
    { intros e. unfold fallback. destruct (has_fallback s'); [by rewrite app_assoc, take_drop|by eexists]. }
    case_decide; [apply Hfb|]. destruct (keys s' !! take KeyLength first) as [v|] eqn:Hk; [|apply Hfb].
    apply Hkeys in Hk as (p & Hl & Hkey). by destruct (Hno v p Hl).
Qed.
End theorems.

(** ** A run *)

Module TrojanRun.
Import VlessRun.
Notation address_ := (Ascii.ascii * Ascii.ascii)%type.
Definition hash (m : bytes) : bytes := take 28 (m ++ replicate 28 (u8 0)).
Lemma length_hash m : length (hash m) = 28%nat.
Proof. unfold hash. rewrite length_take, length_app, length_replicate. lia. Qed.
Definition anything (_ : address_) : Prop := True.

Definition empty : TrojanService (K := nat) := mkTrojanService (K := nat) ∅ ∅ true.
Definition names : list nat := [1%nat; 2%nat].
Definition passwords : list bytes := [bytes_of [97]; bytes_of [98]].
Definition service : TrojanService (K := nat) := (Trojan_UpdateUsers hash names passwords empty).1.
Definition web : address_ := (u8 1, u8 80).
Definition request : bytes := Trojan_Key hash (bytes_of [98]) ++ CRLF ++ bytes_of [1; 1; 80] ++ CRLF ++ payload.

Lemma updated : Trojan_UpdateUsers hash names passwords empty = (service, None).
Proof. vm_compute. reflexivity. Qed.

(** The theorem at the second of two users, whose request arrives in two pieces,
    and at a connection that starts with something else. *)
Lemma trojan_serves_listed_users_witness :
  Trojan_NewConnection service [take 57 request; drop 57 request] = Handled 2%nat Trojan_CommandTCP web payload ∧
  Trojan_NewConnection (Addr := address_) service [bytes_of [71; 69; 84]; bytes_of [32]] = FellBack (bytes_of [71; 69; 84; 32]).
Proof.
  destruct (proj2 (trojan_serves_listed_users hash length_hash anything names passwords empty service None updated) eq_refl) as (Hreq & _ & _ & Hfb). split.
  - destruct (Hreq 2%nat (bytes_of [98]) Trojan_CommandTCP web (bytes_of [1; 80]) payload (take 57 request) [drop 57 request]) as (wire & Hw & Hn).
    + exists 1%nat. by split.
    + by left.
    + done.
    + done.
    + apply Hn; [vm_compute; lia|]. assert (wire = request) as -> by (symmetry; vm_compute in Hw; injection Hw as <-; vm_compute; reflexivity).
      vm_compute. reflexivity.
  - apply (Hfb (bytes_of [71; 69; 84]) [bytes_of [32]]). intros u password _ Heq.
    apply (f_equal length) in Heq. rewrite (length_Key hash length_hash) in Heq. vm_compute in Heq. discriminate.
Defined.

(** A key that arrives in two pieces is not recognised. *)
Example split_key_falls_back : Trojan_NewConnection (Addr := address_) service [take 20 request; drop 20 request] = FellBack request.
Proof. vm_compute. reflexivity. Qed.
End TrojanRun.
