(* ===== verification/DnsRule.v ===== *)
(** * DNS rules

    Model of src/runtime/sing-box/route/rule/rule_dns.go: building DNS rules
    from their options (option/rule_dns.go), whether a rule limits the addresses
    of a response, and the two ways it is matched: before the query, with the
    address conditions ignored, and on a response. *)
From S2P Require Import Prelude MatchState RuleItems Rules RuleAction RuleBuild.

(** The flag [IgnoreDestinationIPCIDRMatch]. *)
Definition set_ignore (b : bool) (c : InboundContext) : InboundContext :=
  mkInboundContext (Inbound c) (IPVersion c) (Network c) (Source c) (Destination c) (User c) (RuleItems.Outbound c)
    (Protocol c) (Domain c) (Client c) (DestinationAddresses c) (ProcessInfo c) (QueryType c) (IPCIDRMatchSource c)
    (IPCIDRAcceptEmpty c) (SourceAddressMatch c) (SourcePortMatch c) (DestinationAddressMatch c)
    (DestinationPortMatch c) (DidMatch c) b.

Section dns_rules.
Context `{RuleEnv} `{ActionEnv}.
Notation D := (abstractDefaultRule RuleAction (Rule RuleAction)).

(** option/rule_dns.go, [DefaultDNSRule]. *)
Record DNSRuleOptions := mkDNSRuleOptions {
  q_Inbound : list string;
  q_IPVersion : Z;
  q_QueryType : list Z;
  q_Network : list string;
  q_AuthUser : list string;
  q_Protocol : list string;
  q_Domain : list string;
  q_DomainSuffix : list string;
  q_DomainKeyword : list string;
  q_DomainRegex : list string;
  q_Geosite : list string;
  q_SourceGeoIP : list string;
  q_GeoIP : list string;
  q_IPCIDR : list string;
  q_IPIsPrivate : bool;
  q_IPAcceptAny : bool;
  q_SourceIPCIDR : list string;
  q_SourceIPIsPrivate : bool;
  q_SourcePort : list Z;
  q_SourcePortRange : list string;
  q_Port : list Z;
  q_PortRange : list string;
  q_ProcessName : list string;
  q_ProcessPath : list string;
  q_ProcessPathRegex : list string;
  q_PackageName : list string;
  q_User : list string;
  q_UserID : list Z;
  q_Outbound : list string;
  q_ClashMode : string;
  q_NetworkType : list InterfaceType;
  q_NetworkIsExpensive : bool;
  q_NetworkIsConstrained : bool;
  q_WIFISSID : list string;
  q_WIFIBSSID : list string;
  q_InterfaceAddress : list (string * list Prefixable);
  q_NetworkInterfaceAddress : list (InterfaceType * list Prefixable);
  q_DefaultInterfaceAddress : list Prefixable;
  q_RuleSet : list string;
  q_RuleSetIPCIDRMatchSource : bool;
  q_RuleSetIPCIDRAcceptEmpty : bool;
  q_Invert : bool;
  q_Deprecated_RulesetIPCIDRMatchSource : bool;
  q_DNSRuleAction : DNSRuleActionOptions;
}.

(** [NewDefaultDNSRule], the items up to [protocol]. *)
Definition dns_plain (o : DNSRuleOptions) (d : D) : result D :=
  let d := when_some (q_Inbound o) add_item NewInboundRule d in
  let? d :=
    if (0 <? q_IPVersion o)%Z then
      if (q_IPVersion o =? 4)%Z || (q_IPVersion o =? 6)%Z
      then Ok (add_item (NewIPVersionItem (q_IPVersion o =? 6)%Z) d)
      else Err (ENew ("invalid ip version: " +:+ pretty (q_IPVersion o)))
    else Ok d in
  let d := when_some (q_QueryType o) add_item NewQueryTypeItem d in
  let d := when_some (q_Network o) add_item NewNetworkItem d in
  let d := when_some (q_AuthUser o) add_item NewAuthUserItem d in
  Ok (when_some (q_Protocol o) add_item NewProtocolItem d).

(** The domain items, and the databases that were removed. *)
Definition dns_domain (o : DNSRuleOptions) (d : D) : result D :=
  let? d :=
    if bool_decide (0 < length (q_Domain o)) || bool_decide (0 < length (q_DomainSuffix o)) then
      let? i := NewDomainItem (q_Domain o) (q_DomainSuffix o) in Ok (add_destinationAddress i d)
    else Ok d in
  let d := when_some (q_DomainKeyword o) add_destinationAddress NewDomainKeywordItem d in
  let? d := when_some_err (q_DomainRegex o) add_destinationAddress NewDomainRegexItem (cause "domain_regex") d in
  if bool_decide (0 < length (q_Geosite o)) then
    Err (ENew "geosite database is deprecated in sing-box 1.8.0 and removed in sing-box 1.12.0")
  else if bool_decide (0 < length (q_SourceGeoIP o)) || bool_decide (0 < length (q_GeoIP o)) then
    Err (ENew "geoip database is deprecated in sing-box 1.8.0 and removed in sing-box 1.12.0")
  else Ok d.

(** The IP address items. *)
Definition dns_address (o : DNSRuleOptions) (d : D) : result D :=
  let? d := when_some_err (q_SourceIPCIDR o) add_sourceAddress (NewIPCIDRItem true) (cause "source_ip_cidr") d in
  let? d := when_some_err (q_IPCIDR o) add_destinationIPCIDR (NewIPCIDRItem false) (cause "ip_cidr") d in
  let d := when (q_SourceIPIsPrivate o) add_sourceAddress (NewIPIsPrivateItem true) d in
  let d := when (q_IPIsPrivate o) add_destinationIPCIDR (NewIPIsPrivateItem false) d in
  Ok (when (q_IPAcceptAny o) add_destinationIPCIDR NewIPAcceptAnyItem d).

(** The port items. *)
Definition dns_ports (o : DNSRuleOptions) (d : D) : result D :=
  let d := when_some (q_SourcePort o) add_sourcePort (NewPortItem true) d in
  let? d := when_some_err (q_SourcePortRange o) add_sourcePort (NewPortRangeItem true) (cause "source_port_range") d in
  let d := when_some (q_Port o) add_destinationPort (NewPortItem false) d in
  when_some_err (q_PortRange o) add_destinationPort (NewPortRangeItem false) (cause "port_range") d.

(** The process items and the outbound that asks. *)
Definition dns_process (o : DNSRuleOptions) (d : D) : result D :=
  let d := when_some (q_ProcessName o) add_item NewProcessItem d in
  let d := when_some (q_ProcessPath o) add_item NewProcessPathItem d in
  let? d := when_some_err (q_ProcessPathRegex o) add_item NewProcessPathRegexItem (cause "process_path_regex") d in
  let d := when_some (q_PackageName o) add_item NewPackageNameItem d in
  let d := when_some (q_User o) add_item NewUserItem d in
  let d := when_some (q_UserID o) add_item NewUserIDItem d in
  Ok (when_some (q_Outbound o) add_item NewOutboundRule d).

(** The items on the state of the network. *)
Definition dns_network (o : DNSRuleOptions) (d : D) : D :=
  let d := when (negb (bool_decide (q_ClashMode o = ""))) add_item (NewClashModeItem (q_ClashMode o)) d in
  let d := when_some (q_NetworkType o) add_item NewNetworkTypeItem d in
  let d := when (q_NetworkIsExpensive o) add_item NewNetworkIsExpensiveItem d in
  let d := when (q_NetworkIsConstrained o) add_item NewNetworkIsConstrainedItem d in
  let d := when_some (q_WIFISSID o) add_item NewWIFISSIDItem d in
  let d := when_some (q_WIFIBSSID o) add_item NewWIFIBSSIDItem d in
  let d := when_some (q_InterfaceAddress o) add_item NewInterfaceAddressItem d in
  let d := when_some (q_NetworkInterfaceAddress o) add_item NewNetworkInterfaceAddressItem d in
  when_some (q_DefaultInterfaceAddress o) add_item NewDefaultInterfaceAddressItem d.

Definition dns_ruleset (o : DNSRuleOptions) (d : D) : result D :=
  match q_RuleSet o with
  | [] => Ok d
  | tags =>
      if q_Deprecated_RulesetIPCIDRMatchSource o then
        Err (ENew "rule_set_ipcidr_match_source is deprecated in sing-box 1.10.0 and removed in sing-box 1.11.0")
      else Ok (set_ruleSet (NewRuleSetItem tags (q_RuleSetIPCIDRMatchSource o) (q_RuleSetIPCIDRAcceptEmpty o)) d)
  end.

(** [NewDefaultDNSRule]; the action is built first, and panics on an unknown name. *)
Definition NewDefaultDNSRule (o : DNSRuleOptions) : result D :=
  let? act := NewDNSRuleAction (q_DNSRuleAction o) in
  let? d := dns_plain o (empty_rule (q_Invert o) act) in
  let? d := dns_domain o d in
  let? d := dns_address o d in
  let? d := dns_ports o d in
  let? d := dns_process o d in
  dns_ruleset o (dns_network o d).

(** option/rule_dns.go, [DNSRule] and [LogicalDNSRule]. *)
Inductive DNSOptions :=
| mkDNSOptions (Type_ : string) (DefaultOptions : DNSRuleOptions)
    (Mode : string) (Rules : list DNSOptions) (Invert : bool) (Action : DNSRuleActionOptions).

(** [DefaultDNSRule.IsValid] compares the options with their zero value by
    reflection. *)
Context (DefaultDNSRule_IsValid : DNSRuleOptions → bool).

(** [common.All] of a check that may panic. *)
Definition all_ok {X} (f : X → result bool) : list X → result bool :=
  fix all xs := match xs with [] => Ok true | x :: xs => let? b := f x in if b then all xs else Ok false end.

(** [DNSRule.IsValid] and [LogicalDNSRule.IsValid]. *)
Fixpoint DNSRule_IsValid (r : DNSOptions) : result bool :=
  match r with
  | mkDNSOptions type o _ rules _ _ =>
      if decide (type = "default") then Ok (DefaultDNSRule_IsValid o)
      else if decide (type = "logical") then
        if bool_decide (0 < length rules) then all_ok DNSRule_IsValid rules else Ok false
      else Err (EPanic ("unknown DNS rule type: " +:+ type))
  end.
Definition LogicalDNSRule_IsValid (rules : list DNSOptions) : result bool :=
  if bool_decide (0 < length rules) then all_ok DNSRule_IsValid rules else Ok false.

(** The check that a route action names its server. *)
Definition missing_server (checkServer : bool) (a : DNSRuleActionOptions) : bool :=
  (bool_decide (da_Action a = "") || bool_decide (da_Action a = RuleActionTypeRoute))
  && bool_decide (da_RouteServer a = "") && checkServer.

(** [NewLogicalDNSRule]. *)
Definition NewLogicalDNSRule (new : DNSOptions → result (Rule RuleAction)) (mode : string) (rules : list DNSOptions)
    (inv : bool) (a : DNSRuleActionOptions) : result (Rule RuleAction) :=
  let? act := NewDNSRuleAction a in
  if bool_decide (mode = LogicalTypeAnd) || bool_decide (mode = LogicalTypeOr) then
    let? rules := build_all new 0 rules in
    Ok (LogicalRule rules mode inv act)
  else Err (ENew ("unknown logical mode: " +:+ mode)).

(** [NewDNSRule]. *)
Fixpoint NewDNSRule (checkServer : bool) (r : DNSOptions) : result (Rule RuleAction) :=
  match r with
  | mkDNSOptions type o mode rules inv a =>
      if bool_decide (type = "") || bool_decide (type = "default") then
        if negb (DefaultDNSRule_IsValid o) then Err (ENew "missing conditions")
        else if missing_server checkServer (q_DNSRuleAction o) then Err (ENew "missing server field")
        else let? d := NewDefaultDNSRule o in Ok (DefaultRule d)
      else if decide (type = "logical") then
        let? valid := LogicalDNSRule_IsValid rules in
        if negb valid then Err (ENew "missing conditions")
        else if missing_server checkServer a then Err (ENew "missing server field")
        else NewLogicalDNSRule (NewDNSRule false) mode rules inv a
      else Err (ENew ("unknown rule type: " +:+ type))
  end.

(** ** Matching *)

Context (rt : Runtime) (metadata : RuleSet RuleAction → RuleSetMetadata).

(** [WithAddressLimit] of a default and of a logical rule. *)
Fixpoint WithAddressLimit (r : Rule RuleAction) : bool :=
  match r with
  | DefaultRule d =>
      bool_decide (0 < length (destinationIPCIDRItems d))
      || match ruleSetItem d with Some i => ContainsDestinationIPCIDRRule metadata i | None => false end
  | LogicalRule rules _ _ _ => existsb WithAddressLimit rules
  end.

(** [Match] ignores the address conditions and clears the flag again; the
    context is written to. *)
Definition dns_Match (r : Rule RuleAction) (md : InboundContext) : InboundContext * bool :=
  let '(md, states) := matchStates rt r (set_ignore true md) in
  (set_ignore false md, negb (StateSet.isEmpty states)).

(** [MatchAddressLimit], on a copy of the context. *)
Definition MatchAddressLimit (r : Rule RuleAction) (md : InboundContext) : bool := Match rt r md.
End dns_rules.
