(* ===== verification/DnsClient.v ===== *)
(** * The DNS client

    Model of src/runtime/sing-box/dns/client.go, extension_edns0_subnet.go and
    rcode.go: one exchange with a server, with the response cache, the store of
    rejected responses, the check of a response, the rewriting of time-to-live
    fields and of the EDNS record; look-ups by address family.  Resource records
    and their parts belong to miekg/dns and are reached through the accessors of
    [DnsEnv]; servers are a parameter.  The per-question locks serialise queries
    for the same question and are left out. *)
From S2P Require Import Prelude RuleItems RuleAction.

(** ** Messages *)

Record Question := mkQuestion { Name : string; Qtype : Z; Qclass : Z }.
#[export] Instance Question_eq_dec : EqDecision Question.
Proof. solve_decision. Defined.
#[export] Instance Question_countable : Countable Question.
Proof.
  refine (inj_countable' (λ q, (Name q, Qtype q, Qclass q)) (λ x, mkQuestion x.1.1 x.1.2 x.2) _). by intros [].
Defined.

(** Types of records and response codes. *)
Definition TypeA : Z := 1.
Definition TypeAAAA : Z := 28.
Definition TypeOPT : Z := 41.
Definition TypeHTTPS : Z := 65.
Definition ClassINET : Z := 1.
Definition RcodeSuccess : Z := 0.
Definition RcodeFormatError : Z := 1.
Definition RcodeNameError : Z := 3.
Definition RcodeRefused : Z := 5.
Definition EDNS0PADDING : Z := 12.
Definition SVCB_IPV4HINT : Z := 4.
Definition SVCB_IPV6HINT : Z := 6.

(** What a record holds: EDNS options are client subnets or others by code, the
    values of an HTTPS record a key with the addresses it lists. *)
Inductive edns0 :=
| EDNS0_SUBNET (Family SourceNetmask : Z) (Address : Addr)
| EDNS0_Other (code : Z).
Inductive rdata :=
| DataA (a : Addr)
| DataAAAA (a : Addr)
| DataSOA (Minttl : Z)
| DataOPT (Option : list edns0)
| DataHTTPS (Value : list (Z * list Addr))
| DataOther.

(** The accessors of miekg/dns.  [NewOPT] is an OPT record with the root as its
    name, [IsEdns0] the OPT record of the additional section, [EdnsVersion] its
    version and [SetEdns0] a new one with the payload size and flag of another.
    Lifetimes are 32-bit fields that can be read back.  [lru_alive] tells whether
    an entry of the LRU cache, by the times it was added and is looked up at and
    its lifetime, is still there. *)
Class DnsEnv `{ActionEnv} := {
  RR_Rrtype : RR → Z;
  RR_Class : RR → Z;
  RR_Ttl : RR → Z;
  RR_data : RR → rdata;
  RR_with_Ttl : Z → RR → RR;
  OPT_with_Option : list edns0 → RR → RR;
  HTTPS_with_Value : list (Z * list Addr) → RR → RR;
  NewOPT : RR;
  IsEdns0 : list RR → option RR;
  EdnsVersion : RR → Z;
  SetEdns0 : RR → RR;
  lru_alive : Z → Z → Z → bool;
  IsFqdn : string → bool;
  Fqdn : string → string;
  Ttl_uint32 r : (0 <= RR_Ttl r < 2 ^ 32)%Z;
  Minttl_uint32 r minttl : RR_data r = DataSOA minttl → (0 <= minttl < 2 ^ 32)%Z;
  with_Ttl_Ttl t r : (0 <= t < 2 ^ 32)%Z → RR_Ttl (RR_with_Ttl t r) = t;
  with_Ttl_Rrtype t r : RR_Rrtype (RR_with_Ttl t r) = RR_Rrtype r;
  with_Ttl_data t r : RR_data (RR_with_Ttl t r) = RR_data r;
  with_Value_Ttl v r : RR_Ttl (HTTPS_with_Value v r) = RR_Ttl r;
  with_Value_Rrtype v r : RR_Rrtype (HTTPS_with_Value v r) = RR_Rrtype r;
}.

Section client.
Context `{DnsEnv}.

Record Msg := mkMsg {
  Id : Z;
  Response_ : bool;
  Authoritative : bool;
  RecursionDesired : bool;
  RecursionAvailable : bool;
  Rcode : Z;
  Questions : list Question;
  Answer : list RR;
  Ns : list RR;
  Extra : list RR;
}.
Definition set_sections (answer ns extra : list RR) (m : Msg) : Msg :=
  mkMsg (Id m) (Response_ m) (Authoritative m) (RecursionDesired m) (RecursionAvailable m) (Rcode m) (Questions m) answer ns extra.
Definition set_Id (id : Z) (m : Msg) : Msg :=
  mkMsg id (Response_ m) (Authoritative m) (RecursionDesired m) (RecursionAvailable m) (Rcode m) (Questions m)
    (Answer m) (Ns m) (Extra m).

(** Every record but the OPT records, in the three sections. *)
Definition is_opt (r : RR) : bool := (RR_Rrtype r =? TypeOPT)%Z.
Definition records (m : Msg) : list RR := filter (λ r, is_opt r = false) (Answer m ++ Ns m ++ Extra m).
Definition map_records (f : RR → RR) (m : Msg) : Msg :=
  let on := fmap (λ r, if is_opt r then r else f r) in set_sections (on (Answer m)) (on (Ns m)) (on (Extra m)) m.

(** client_log.go, [FqdnToDomain]. *)
Definition FqdnToDomain (fqdn : string) : string :=
  if IsFqdn fqdn then String.substring 0 (String.length fqdn - 1) fqdn else fqdn.

(** [FixedResponseStatus]. *)
Definition FixedResponseStatus (m : Msg) (rcode : Z) : Msg :=
  mkMsg (Id m) true true true true rcode (Questions m) [] [] [].

(** [MessageToAddresses]. *)
Definition answer_addresses (r : RR) : list Addr :=
  match RR_data r with
  | DataA a | DataAAAA a => [a]
  | DataHTTPS values =>
      values ≫= λ v, if bool_decide (v.1 = SVCB_IPV4HINT) || bool_decide (v.1 = SVCB_IPV6HINT) then v.2 else []
  | _ => []
  end.
Definition MessageToAddresses (m : Msg) : list Addr :=
  if decide (Rcode m = RcodeSuccess) then Answer m ≫= answer_addresses else [].

(** [extractNegativeTTL]. *)
Fixpoint extractNegativeTTL (ns : list RR) : option Z :=
  match ns with
  | [] => None
  | r :: ns =>
      match RR_data r with
      | DataSOA minttl => Some (if (RR_Ttl r <? minttl)%Z then RR_Ttl r else minttl)
      | _ => extractNegativeTTL ns
      end
  end.

(** [stripDNSPadding]. *)
Definition edns0_code (o : edns0) : Z := match o with EDNS0_SUBNET _ _ _ => 8 | EDNS0_Other c => c end.
Definition stripDNSPadding (m : Msg) : Msg :=
  set_sections (Answer m) (Ns m)
    ((λ r, match RR_data r with
           | DataOPT opts => OPT_with_Option (filter (λ o, edns0_code o ≠ EDNS0PADDING) opts) r
           | _ => r
           end) <$> Extra m) m.

(** The loop over minimal lifetimes, of a response and of a cached one. *)
Definition min_ttl (start : Z) (rs : list RR) : Z :=
  foldl (λ t r, if (t =? 0)%Z || ((0 <? RR_Ttl r)%Z && (RR_Ttl r <? t)%Z) then RR_Ttl r else t) start rs.

(** ** Client subnet *)

(** The loop labelled [findExists]: the variables it leaves, the index of the
    OPT record and whether a subnet option was found in it.  A record that is
    no OPT record resets the variable. *)
Fixpoint find_opt (i : nat) (extra : list RR) (current : option nat) : option nat * bool :=
  match extra with
  | [] => (current, false)
  | r :: extra =>
      match RR_data r with
      | DataOPT opts =>
          if existsb (λ o, match o with EDNS0_SUBNET _ _ _ => true | _ => false end) opts then (Some i, true)
          else find_opt (S i) extra (Some i)
      | _ => find_opt (S i) extra None
      end
  end.

Definition subnet_option (p : Prefix) : edns0 :=
  EDNS0_SUBNET (if Addr_Is4 (p_ip p) then 1 else 2)%Z ((p_bits p) `mod` 256)%Z (p_ip p).

(** The first subnet option is overwritten, or a new one is appended. *)
Fixpoint write_subnet (p : Prefix) (opts : list edns0) : list edns0 :=
  match opts with
  | [] => [subnet_option p]
  | EDNS0_SUBNET _ _ _ :: opts => subnet_option p :: opts
  | o :: opts => o :: write_subnet p opts
  end.

(** [SetClientSubnet], on a copy of the message. *)
Definition SetClientSubnet (m : Msg) (p : Prefix) : Msg :=
  let write r := match RR_data r with DataOPT opts => OPT_with_Option (write_subnet p opts) r | _ => r end in
  match find_opt 0 (Extra m) None with
  | (None, _) => set_sections (Answer m) (Ns m) (Extra m ++ [OPT_with_Option [subnet_option p] NewOPT]) m
  | (Some i, _) => set_sections (Answer m) (Ns m) (alter write i (Extra m)) m
  end.

(** ** The client *)

(** A cached response with the time it expires at, in nanoseconds.  An evicted
    entry is one that is no longer in the map. *)
Record Client := mkClient {
  disableCache : bool;
  disableExpire : bool;
  independentCache : bool;
  clientSubnet : Prefix;
  cache : gmap Question (Msg * Z);
  transportCache : gmap (Question * string) (Msg * Z);
  rdrc : option (gset (string * string * Z));
}.
Definition set_cache_maps (shared : gmap Question (Msg * Z)) (own : gmap (Question * string) (Msg * Z)) (c : Client) : Client :=
  mkClient (disableCache c) (disableExpire c) (independentCache c) (clientSubnet c) shared own (rdrc c).
Definition set_rdrc (store : option (gset (string * string * Z))) (c : Client) : Client :=
  mkClient (disableCache c) (disableExpire c) (independentCache c) (clientSubnet c) (cache c) (transportCache c) store.

(** Errors of an exchange; a response code other than success is one of a look-up. *)
Inductive dns_error :=
| ResponseRejected
| ResponseRejectedCached
| Loopback (tag : string)
| ExchangeFailed (e : error)
| RcodeError (rcode : Z).
#[export] Instance dns_error_eq_dec : EqDecision dns_error.
Proof. solve_decision. Defined.
(** [errors.Is] with [ErrResponseRejected], which the cached variant extends. *)
Definition is_rejected (e : dns_error) : bool :=
  match e with ResponseRejected | ResponseRejectedCached => true | _ => false end.

(** The DNS transports: type, tag, and the legacy strategy and client subnet. *)
Record DNSTransport := mkDNSTransport { t_Type : string; t_Tag : string; t_Legacy : option (Z * Prefix) }.

(** What a server answers: a message, a response code as an error, or a failure. *)
Inductive answered := Answered (m : Msg) | AnsweredRcode (rcode : Z) | Unanswered (e : error).

(** [adapter.DNSQueryOptions]. *)
Record QueryOptions := mkQueryOptions {
  o_Transport : option DNSTransport;
  o_Strategy : Z;
  o_LookupStrategy : Z;
  o_DisableCache : bool;
  o_RewriteTTL : option Z;
  o_ClientSubnet : Prefix;
}.

Definition second : Z := 1000000000.

(** The cache the client has, by key. *)
Definition cache_get (q : Question) (t : DNSTransport) (c : Client) : option (Msg * Z) :=
  if independentCache c then transportCache c !! (q, t_Tag t) else cache c !! q.
Definition cache_put (q : Question) (t : DNSTransport) (e : Msg * Z) (c : Client) : Client :=
  if independentCache c then set_cache_maps (cache c) (<[(q, t_Tag t) := e]> (transportCache c)) c
  else set_cache_maps (<[q := e]> (cache c)) (transportCache c) c.
Definition cache_remove (q : Question) (t : DNSTransport) (c : Client) : Client :=
  if independentCache c then set_cache_maps (cache c) (delete (q, t_Tag t) (transportCache c)) c
  else set_cache_maps (delete q (cache c)) (transportCache c) c.

(** [ClearCache]. *)
Definition ClearCache (c : Client) : Client :=
  if disableCache c then c else if independentCache c then set_cache_maps (cache c) ∅ c else set_cache_maps ∅ (transportCache c) c.

(** [storeCache] at a time. *)
Definition storeCache (now : Z) (t : DNSTransport) (q : Question) (m : Msg) (timeToLive : Z) (c : Client) : Client :=
  if decide (timeToLive = 0)%Z then c else cache_put q t (m, now + timeToLive * second)%Z c.

(** [loadResponse] at a time: the response with its remaining lifetime.  An
    entry without lifetime never expires. *)
Definition uint32 (z : Z) : Z := z `mod` 2 ^ 32.
Definition loadResponse (now : Z) (q : Question) (t : DNSTransport) (c : Client) : Client * option (Msg * Z) :=
  match cache_get q t c with
  | None => (c, None)
  | Some (m, expireAt) =>
      if disableExpire c then (c, Some (m, 0%Z))
      else if (expireAt <? now)%Z then (cache_remove q t c, None)
      else
        let originTTL := min_ttl 0 (records m) in
        let nowTTL := Z.max ((expireAt - now) `div` second) 0 in
        (c, Some (map_records (λ r, RR_with_Ttl (if (0 <? originTTL)%Z
                                                 then uint32 (RR_Ttl r - uint32 (originTTL - nowTTL))
                                                 else uint32 nowTTL) r) m, nowTTL))
  end.

(** [isSimpleRequest]. *)
Definition isSimpleRequest (m : Msg) (o : QueryOptions) : bool :=
  bool_decide (length (Questions m) = 1) && bool_decide (length (Ns m) = 0)
  && match Extra m with
     | [] => true
     | [r] => is_opt r && (0 <? RR_Class r)%Z && (RR_Ttl r =? 0)%Z && match RR_data r with DataOPT [] => true | _ => false end
     | _ => false
     end
  && negb (Prefix_IsValid (o_ClientSubnet o)).

(** The strategy that excludes a query, and the filter of HTTPS hints. *)
Definition IPv4Only : Z := 3.
Definition IPv6Only : Z := 4.
Definition strategy_rejects (qtype strategy : Z) : bool :=
  bool_decide (qtype = TypeA) && bool_decide (strategy = IPv6Only)
  || bool_decide (qtype = TypeAAAA) && bool_decide (strategy = IPv4Only).
Definition filter_hints (strategy : Z) (r : RR) : RR :=
  match RR_data r with
  | DataHTTPS values =>
      HTTPS_with_Value (filter (λ v, v.1 ≠ (if decide (strategy = IPv4Only) then SVCB_IPV6HINT else SVCB_IPV4HINT)) values) r
  | _ => r
  end.

(** The check of a response by the rule that asked for it. *)
Definition rejects (checker : option (list Addr → bool)) (m : Msg) : bool :=
  match checker with
  | None => false
  | Some check =>
      if bool_decide (Rcode m ≠ RcodeSuccess) && bool_decide (Rcode m ≠ RcodeNameError) then true
      else negb (check (match Answer m with [] => [] | _ => MessageToAddresses m end))
  end.

(** The lifetime of a response. *)
Definition response_ttl (o : QueryOptions) (m : Msg) : Z :=
  let soa := match Answer m with [] => default 0%Z (extractNegativeTTL (Ns m)) | _ => 0%Z end in
  let ttl := if decide (soa = 0)%Z then min_ttl 0 (records m) else soa in
  default ttl (o_RewriteTTL o).

(** The EDNS record the querier can understand. *)
Definition fix_edns (request m : Msg) : Msg :=
  match IsEdns0 (Extra m), IsEdns0 (Extra request) with
  | Some theirs, Some ours =>
      if (EdnsVersion ours <? EdnsVersion theirs)%Z
      then set_sections (Answer m) (Ns m) (filter (λ r, is_opt r = false) (Extra m) ++ [SetEdns0 theirs]) m
      else m
  | Some _, None => set_sections (Answer m) (Ns m) (filter (λ r, is_opt r = false) (Extra m)) m
  | None, _ => m
  end.

(** The end of [Exchange], once a server answered: the check, the lifetimes,
    the cache and the EDNS record. *)
Definition finish_exchange (now : Z) (noCache : bool) (t : DNSTransport) (q : Question) (request response : Msg)
    (o : QueryOptions) (checker : option (list Addr → bool)) (c : Client) : Client * option Msg * option dns_error :=
  let noCache := noCache || (bool_decide (Rcode response ≠ RcodeSuccess) && bool_decide (Rcode response ≠ RcodeNameError)) in
  if rejects checker response then
    (match rdrc c with
     | Some store => if noCache then c else set_rdrc (Some ({[ (t_Tag t, Name q, Qtype q) ]} ∪ store)) c
     | None => c
     end, Some response, Some ResponseRejected)
  else
    let response :=
      if bool_decide (Qtype q = TypeHTTPS) && (bool_decide (o_Strategy o = IPv4Only) || bool_decide (o_Strategy o = IPv6Only))
      then set_sections (filter_hints (o_Strategy o) <$> Answer response) (Ns response) (Extra response) response
      else response in
    let timeToLive := response_ttl o response in
    let response := map_records (RR_with_Ttl timeToLive) response in
    let c := if noCache then c else storeCache now t q response timeToLive c in
    (c, Some (fix_edns request (set_Id (Id request) response)), None).

(** [Exchange]: [sent] is what the server answers to a message, [inTransport]
    the transport whose own query this is, and the times those of the cache
    look-up and of the answer. *)
Definition Exchange (before after : Z) (inTransport : option string) (sent : DNSTransport → Msg → answered)
    (t : DNSTransport) (m : Msg) (o : QueryOptions) (checker : option (list Addr → bool)) (c : Client)
    : Client * option Msg * option dns_error :=
  match Questions m with
  | [] => (c, Some (FixedResponseStatus m RcodeFormatError), None)
  | q :: _ =>
      if strategy_rejects (Qtype q) (o_Strategy o) then (c, Some (FixedResponseStatus m RcodeSuccess), None)
      else
        let subnet := if Prefix_IsValid (o_ClientSubnet o) then o_ClientSubnet o else clientSubnet c in
        let m := if Prefix_IsValid subnet then SetClientSubnet m subnet else m in
        let noCache := negb (isSimpleRequest m o) || disableCache c || o_DisableCache o in
        let '(c, cached) := if noCache then (c, None) else loadResponse before q t c in
        match cached with
        | Some (response, _) => (c, Some (set_Id (Id m) response), None)
        | None =>
            if bool_decide (inTransport = Some (t_Tag t)) then (c, None, Some (Loopback (t_Tag t)))
            else if negb noCache && bool_decide (is_Some checker)
                    && match rdrc c with Some store => bool_decide ((t_Tag t, Name q, Qtype q) ∈ store) | None => false end
            then (c, None, Some ResponseRejectedCached)
            else
              match sent t m with
              | Unanswered e => (c, None, Some (ExchangeFailed e))
              | Answered response => finish_exchange after noCache t q m (stripDNSPadding response) o checker c
              | AnsweredRcode rcode => finish_exchange after noCache t q m (FixedResponseStatus m rcode) o checker c
              end
        end
  end.

(** ** Look-ups *)

(** [questionCache] and [lookupToExchange]. *)
Definition message_result (m : Msg) : list Addr * option dns_error :=
  if decide (Rcode m = RcodeSuccess) then (MessageToAddresses m, None) else ([], Some (RcodeError (Rcode m))).

Definition lookupToExchange (before after : Z) (inTransport : option string) (sent : DNSTransport → Msg → answered)
    (t : DNSTransport) (name : string) (qType : Z) (o : QueryOptions) (checker : option (list Addr → bool)) (c : Client)
    : Client * (list Addr * option dns_error) :=
  let q := mkQuestion name qType ClassINET in
  let '(c, cached) := if disableCache c || o_DisableCache o then (c, None) else loadResponse before q t c in
  match cached with
  | Some (m, _) => (c, message_result m)
  | None =>
      match Exchange before after inTransport sent t (mkMsg 0 false false true false 0 [q] [] [] []) o checker c with
      | (c, _, Some e) => (c, ([], Some e))
      | (c, Some m, None) => (c, message_result m)
      | (c, None, None) => (c, ([], None))
      end
  end.

(** [sortAddresses]. *)
Definition PreferIPv6 : Z := 2.
Definition sortAddresses (response4 response6 : list Addr) (strategy : Z) : list Addr :=
  if decide (strategy = PreferIPv6) then response6 ++ response4 else response4 ++ response6.

(** [Lookup]: both families are asked, the first error is reported when neither
    has an address. *)
Definition Lookup (before after : Z) (inTransport : option string) (sent : DNSTransport → Msg → answered)
    (t : DNSTransport) (domain : string) (o : QueryOptions) (checker : option (list Addr → bool)) (c : Client)
    : Client * (list Addr * list dns_error) :=
  let name := Fqdn (FqdnToDomain domain) in
  let strategy := if decide (o_LookupStrategy o ≠ 0)%Z then o_LookupStrategy o else o_Strategy o in
  let o := mkQueryOptions (o_Transport o) (if decide (o_LookupStrategy o ≠ 0)%Z then strategy else o_Strategy o)
             (o_LookupStrategy o) (o_DisableCache o) (o_RewriteTTL o) (o_ClientSubnet o) in
  let ask qType := lookupToExchange before after inTransport sent t name qType o checker in
  let one (x : Client * (list Addr * option dns_error)) := (x.1, (x.2.1, option_list x.2.2)) in
  if decide (strategy = IPv4Only) then one (ask TypeA c)
  else if decide (strategy = IPv6Only) then one (ask TypeAAAA c)
  else
    let '(c, (response4, e4)) := ask TypeA c in
    let '(c, (response6, e6)) := ask TypeAAAA c in
    if bool_decide (length response4 = 0) && bool_decide (length response6 = 0)
    then (c, ([], option_list e4 ++ option_list e6))
    else (c, (sortAddresses response4 response6 strategy, [])).
End client.

(** ** Lifetimes in the DNS cache

    A cached response is served with the time it still has to live, and no
    longer. *)

Section cache.
Context `{DnsEnv}.

(** What the server of a transport replies to a query, with the client subnet
    of the options or of the client added to it. *)
Definition asked (m : Msg) (o : QueryOptions) (c : Client) : Msg :=
  let subnet := if Prefix_IsValid (o_ClientSubnet o) then o_ClientSubnet o else clientSubnet c in
  if Prefix_IsValid subnet then SetClientSubnet m subnet else m.
Definition reply_of (sent : DNSTransport → Msg → answered) (t : DNSTransport) (req : Msg) : option Msg :=
  match sent t req with
  | Answered response => Some (stripDNSPadding response)
  | AnsweredRcode rcode => Some (FixedResponseStatus req rcode)
  | Unanswered _ => None
  end.

(** The lifetime and the minimum of the first SOA record. *)
Definition soa_of (ns : list RR) : option (Z * Z) :=
  head (omap (λ r, match RR_data r with DataSOA minttl => Some (RR_Ttl r, minttl) | _ => None end) ns).

(** The lifetime [ttl] a reply may be cached for: that of the query, if it
    sets one; for an empty answer with an SOA record the smaller of its
    lifetime and its minimum, if that is not zero; otherwise one of the
    lifetimes of the records, and none of them is positive and smaller. *)
Definition allowed (rewrite : option Z) (reply : Msg) (ttl : Z) : Prop :=
  match rewrite with
  | Some t => ttl = t
  | None =>
      (∃ life minttl, Answer reply = [] ∧ soa_of (Ns reply) = Some (life, minttl) ∧ ttl = Z.min life minttl) ∨
      (Answer reply = [] → ∀ life minttl, soa_of (Ns reply) = Some (life, minttl) → Z.min life minttl = 0%Z) ∧
      (∃ r, r ∈ records reply ∧ RR_Ttl r = ttl) ∧
      (∀ r, r ∈ records reply → (0 < RR_Ttl r)%Z → (ttl <= RR_Ttl r)%Z)
  end.

(** What is cached of a reply: the reply, or the reply without the address
    hints of one family. *)
Definition derived (reply x : Msg) : Prop :=
  x = reply ∨ ∃ strategy, x = set_sections (filter_hints strategy <$> Answer reply) (Ns reply) (Extra reply) reply.

(** The replies of servers so far: [heard q at rewrite reply] is a reply to the
    question [q] that came at the time [at], to a query that sets the lifetime
    [rewrite]. *)
Notation Heard := (Question → Z → option Z → Msg → Prop).

(** An entry for [q] that was added by [now]: it is made of a reply to [q], all
    its records have the lifetime allowed for it, and it expires when that is
    over. *)
Definition lives (heard : Heard) (now : Z) (q : Question) (e : Msg * Z) : Prop :=
  ∃ added rewrite reply x ttl, heard q added rewrite reply ∧ derived reply x ∧ allowed rewrite reply ttl ∧
    (added <= now)%Z ∧ (0 < ttl < 2 ^ 32)%Z ∧ e = (map_records (RR_with_Ttl ttl) x, added + ttl * second)%Z.

Record CacheInv (heard : Heard) (now : Z) (c : Client) : Prop := {
  ci_shared : map_Forall (λ q, lives heard now q) (cache c);
  ci_own : map_Forall (λ k, lives heard now k.1) (transportCache c);
}.

Lemma lives_later (heard heard' : Heard) now now' q e :
  (now <= now')%Z → (∀ q a rw x, heard q a rw x → heard' q a rw x) → lives heard now q e → lives heard' now' q e.
Proof.
  intros Hle Hsub (added & rw & reply & x & ttl & Hh & Hx & Hok & Ha & Hrest). exists added, rw, reply, x, ttl.
  split; [by apply Hsub|]. do 2 (split; [done|]). split; [lia|done].
Qed.

Lemma CacheInv_later (heard heard' : Heard) now now' c :
  (now <= now')%Z → (∀ q a rw x, heard q a rw x → heard' q a rw x) → CacheInv heard now c → CacheInv heard' now' c.
Proof. intros Hle Hsub [Hs Ho]. split; (eapply map_Forall_impl; [done|]; intros; by eapply lives_later). Qed.

Lemma cache_get_lives heard now q t c e : CacheInv heard now c → cache_get q t c = Some e → lives heard now q e.
Proof. intros [Hs Ho]. unfold cache_get. destruct (independentCache c); [apply (Ho (q, t_Tag t))|apply Hs]. Qed.

Lemma cache_put_inv heard now q t e c : CacheInv heard now c → lives heard now q e → CacheInv heard now (cache_put q t e c).
Proof.
  intros [Hs Ho] He. unfold cache_put. destruct (independentCache c); split; try done; by apply map_Forall_insert_2.
Qed.

Lemma cache_remove_inv heard now q t c : CacheInv heard now c → CacheInv heard now (cache_remove q t c).
Proof.
  intros [Hs Ho]. unfold cache_remove. destruct (independentCache c); split; try done; by apply map_Forall_delete.
Qed.

(** *** Records *)

Lemma map_records_ext f g m : (∀ r, r ∈ records m → f r = g r) → map_records f m = map_records g m.
Proof.
  intros Hfg. unfold map_records. unfold records in Hfg.
  assert (∀ l, l ⊆ Answer m ++ Ns m ++ Extra m →
    (λ r, if is_opt r then r else f r) <$> l = (λ r, if is_opt r then r else g r) <$> l) as Hext.
  { intros l Hl. apply list_fmap_ext. intros i r Hi. destruct (is_opt r) eqn:Ho; [done|]. apply Hfg.
    apply list_elem_of_filter. split; [done|]. apply Hl. by eapply list_elem_of_lookup_2. }
  unfold set_sections. f_equal; apply Hext; set_solver.
Qed.

Lemma records_map f m : (∀ r, is_opt (f r) = is_opt r) → records (map_records f m) = f <$> records m.
Proof.
  intros Hf. unfold records, map_records, set_sections. cbn [Answer Ns Extra]. rewrite <-!fmap_app.
  induction (Answer m ++ Ns m ++ Extra m) as [|r rs IH]; [done|].
  rewrite fmap_cons, !filter_cons. destruct (is_opt r) eqn:Ho.
  - by rewrite !decide_False by congruence.
  - rewrite !decide_True by (rewrite ?Hf; done). rewrite fmap_cons. by f_equal.
Qed.

Lemma with_Ttl_opt t r : is_opt (RR_with_Ttl t r) = is_opt r.
Proof. unfold is_opt. by rewrite with_Ttl_Rrtype. Qed.

(** The smallest lifetime of records that all have the same. *)
Lemma min_ttl_same ttl rs : (0 < ttl)%Z → (∀ r, r ∈ rs → RR_Ttl r = ttl) → rs ≠ [] → min_ttl 0 rs = ttl.
Proof.
  intros Hpos Hall Hne. destruct rs as [|r rs]; [done|]. unfold min_ttl. cbn [foldl]. rewrite (Hall r) by (by left). cbn [Z.eqb orb].
  assert (∀ r, r ∈ rs → RR_Ttl r = ttl) as Hrs by (intros; apply Hall; by right). clear Hall Hne.
  induction rs as [|r' rs IH]; [done|]. cbn [foldl]. rewrite (Hrs r') by (by left).
  rewrite Z.ltb_irrefl, andb_false_r. destruct (Z.eqb_spec ttl 0); [lia|]. cbn [orb]. apply IH. intros. apply Hrs. by right.
Qed.

Lemma min_ttl_range start rs : (0 <= start < 2 ^ 32)%Z → (0 <= min_ttl start rs < 2 ^ 32)%Z.
Proof.
  revert start. induction rs as [|r rs IH]; intros start Hs; [done|]. unfold min_ttl. cbn [foldl]. apply IH.
  destruct (_ || _); [apply Ttl_uint32|done].
Qed.

Lemma response_ttl_range o m :
  (∀ t, o_RewriteTTL o = Some t → (0 <= t < 2 ^ 32)%Z) → (0 <= response_ttl o m < 2 ^ 32)%Z.
Proof.
  intros Hr. unfold response_ttl. destruct (o_RewriteTTL o) as [t|]; [by apply Hr|]. cbn [default].
  assert (0 <= match Answer m with [] => default 0%Z (extractNegativeTTL (Ns m)) | _ => 0%Z end < 2 ^ 32)%Z as Hsoa.
  { destruct (Answer m); [|lia]. induction (Ns m) as [|r ns IH]; [cbn; lia|]. cbn [extractNegativeTTL].
    destruct (RR_data r) eqn:Hd; try exact IH. cbn [default]. destruct (_ <? _)%Z; [apply Ttl_uint32|].
    by eapply Minttl_uint32. }
  case_decide; [|done]. apply min_ttl_range. lia.
Qed.

(** The loop over lifetimes finds the smallest positive one. *)
Lemma min_ttl_spec rs : ∀ start, (0 <= start)%Z →
  (min_ttl start rs = start ∨ ∃ r, r ∈ rs ∧ RR_Ttl r = min_ttl start rs) ∧
  ((0 < start)%Z → (0 < min_ttl start rs <= start)%Z) ∧
  ∀ r, r ∈ rs → (0 < RR_Ttl r)%Z → (0 < min_ttl start rs <= RR_Ttl r)%Z.
Proof.
  induction rs as [|r rs IH]; intros start Hs.
  { split_and!; [by left|unfold min_ttl; simpl; lia|by intros ? ?%not_elem_of_nil]. }
  set (s' := if (start =? 0)%Z || ((0 <? RR_Ttl r)%Z && (RR_Ttl r <? start)%Z) then RR_Ttl r else start).
  change (min_ttl start (r :: rs)) with (min_ttl s' rs). pose proof (Ttl_uint32 r) as Hr.
  assert ((s' = start ∨ s' = RR_Ttl r) ∧ (0 <= s')%Z ∧ ((0 < start)%Z → (0 < s' <= start)%Z) ∧
    ((0 < RR_Ttl r)%Z → (0 < s' <= RR_Ttl r)%Z)) as (Hcase & Hs' & Hlt & Hle).
  { unfold s'. destruct (Z.eqb_spec start 0), (Z.ltb_spec 0 (RR_Ttl r)), (Z.ltb_spec (RR_Ttl r) start); cbn [orb andb]; lia. }
  destruct (IH s' Hs') as (Hin & Hpos & Hall). split_and!.
  - destruct Hin as [Hin|(r' & Hr' & Heq)]; [|right; exists r'; split; [by right|done]]. rewrite Hin.
    destruct Hcase as [->| ->]; [by left|right]. exists r. split; [by left|done].
  - intros Hst. specialize (Hlt Hst). specialize (Hpos ltac:(lia)). lia.
  - intros r' [->|Hr']%elem_of_cons Hp; [|by apply Hall]. specialize (Hle Hp). specialize (Hpos ltac:(lia)). lia.
Qed.

Lemma min_ttl_ext start rs rs' : RR_Ttl <$> rs = RR_Ttl <$> rs' → min_ttl start rs = min_ttl start rs'.
Proof.
  revert start rs'. induction rs as [|r rs IH]; intros start [|r' rs']; try done. rewrite !fmap_cons. intros [= Hr Hrs].
  unfold min_ttl. cbn [foldl]. rewrite Hr. by apply IH.
Qed.

Lemma extractNegativeTTL_spec ns : extractNegativeTTL ns = (λ p, Z.min p.1 p.2) <$> soa_of ns.
Proof.
  induction ns as [|r ns IH]; [done|]. cbn [extractNegativeTTL]. unfold soa_of. cbn [omap list_omap].
  destruct (RR_data r); try exact IH. cbn. f_equal. destruct (Z.ltb_spec (RR_Ttl r) Minttl); lia.
Qed.

Lemma filter_hints_header strategy r : RR_Ttl (filter_hints strategy r) = RR_Ttl r ∧ is_opt (filter_hints strategy r) = is_opt r.
Proof. unfold filter_hints, is_opt. destruct (RR_data r); try done. by rewrite with_Value_Ttl, with_Value_Rrtype. Qed.

(** Leaving hints out changes no lifetime. *)
Lemma derived_ttl o reply x : derived reply x → response_ttl o x = response_ttl o reply.
Proof.
  intros [->|[strategy ->]]; [done|]. unfold response_ttl. cbn [Answer Ns set_sections].
  assert (min_ttl 0 (records (set_sections (filter_hints strategy <$> Answer reply) (Ns reply) (Extra reply) reply)) =
          min_ttl 0 (records reply)) as ->; [|by destruct (Answer reply)].
  apply min_ttl_ext. unfold records. cbn [Answer Ns Extra set_sections]. rewrite !(filter_app _ (_ <$> _)), !(filter_app _ (Answer reply)), !fmap_app.
  f_equal. induction (Answer reply) as [|r rs IH]; [done|]. rewrite fmap_cons, !filter_cons.
  destruct (filter_hints_header strategy r) as [Ht Ho]. rewrite Ho. case_decide; [|done]. rewrite !fmap_cons. by f_equal.
Qed.

(** The lifetime of a response is one its server allowed. *)
Lemma response_ttl_allowed o reply : response_ttl o reply ≠ 0%Z → allowed (o_RewriteTTL o) reply (response_ttl o reply).
Proof.
  unfold response_ttl, allowed. destruct (o_RewriteTTL o) as [t|]; [done|]. cbn [default]. intros Hne.
  rewrite extractNegativeTTL_spec in *.
  set (soa := match Answer reply with [] => default 0%Z ((λ p : Z * Z, Z.min p.1 p.2) <$> soa_of (Ns reply)) | _ => 0%Z end) in *.
  destruct (decide (soa = 0)%Z) as [Hz|Hnz].
  - right. split.
    { intros Ha life minttl Hs. unfold soa in Hz. by rewrite Ha, Hs in Hz. }
    destruct (min_ttl_spec (records reply) 0 ltac:(lia)) as ([?|Hin] & _ & Hall); [done|]. split; [done|].
    intros r Hr Hp. by apply Hall.
  - left. unfold soa in *. destruct (Answer reply); [|done]. destruct (soa_of (Ns reply)) as [[life minttl]|]; [|done].
    by exists life, minttl.
Qed.

(** What [loadResponse] makes of an entry. *)
Lemma load_lives heard now now' q t c c' m' n :
  CacheInv heard now c → (now <= now')%Z → disableExpire c = false → loadResponse now' q t c = (c', Some (m', n)) →
  ∃ added rewrite reply x ttl, heard q added rewrite reply ∧ derived reply x ∧ allowed rewrite reply ttl ∧
    (added <= now')%Z ∧ (0 <= n <= ttl)%Z ∧ (ttl < 2 ^ 32)%Z ∧ (now' + n * second <= added + ttl * second)%Z ∧
    m' = map_records (RR_with_Ttl n) (map_records (RR_with_Ttl ttl) x).
Proof.
  intros HI Hle Hd. unfold loadResponse. destruct (cache_get q t c) as [[m e]|] eqn:Hg; [|done].
  rewrite Hd. destruct (cache_get_lives _ _ _ _ _ _ HI Hg) as (added & rw & reply & x & ttl & Hh & Hx & Hok & Hadd & Httl & [= -> ->]).
  destruct (Z.ltb_spec (added + ttl * second) now') as [|Hlive]; [done|]. intros [= <- <- <-].
  exists added, rw, reply, x, ttl. assert (0 < second)%Z as Hsec by (unfold second; lia).
  set (n := ((added + ttl * second - now') `div` second)%Z).
  assert (0 <= n <= ttl)%Z as Hn.
  { split; [apply Z.div_pos; lia|]. unfold n. apply Z.div_le_upper_bound; [lia|]. nia. }
  rewrite (Z.max_l n 0) by lia. do 3 (split; [done|]). split; [lia|]. split; [done|]. split; [lia|].
  split; [pose proof (Z.mul_div_le (added + ttl * second - now') second Hsec); unfold n; nia|].
  apply map_records_ext. intros r Hin. f_equal.
  set (stored := map_records (RR_with_Ttl ttl) x) in *.
  assert (∀ r, r ∈ records stored → RR_Ttl r = ttl) as Hr.
  { intros r0. unfold stored. rewrite records_map by (intros; apply with_Ttl_opt). intros (r1 & -> & _)%list_elem_of_fmap.
    apply with_Ttl_Ttl. lia. }
  rewrite (Hr r Hin).
  assert (records stored ≠ []) as Hne by (intros Hnil; rewrite Hnil in Hin; by apply not_elem_of_nil in Hin).
  rewrite (min_ttl_same ttl _ ltac:(lia) Hr Hne).
  destruct (Z.ltb_spec 0 ttl); [|lia]. unfold uint32. rewrite (Z.mod_small (ttl - n)) by lia.
  replace (ttl - (ttl - n))%Z with n by lia. apply Z.mod_small. lia.
Qed.

Lemma finish_inv (heard : Heard) now noCache t q req m o checker c :
  (∀ x, o_RewriteTTL o = Some x → (0 <= x < 2 ^ 32)%Z) → heard q now (o_RewriteTTL o) m → CacheInv heard now c →
  CacheInv heard now (finish_exchange now noCache t q req m o checker c).1.1.
Proof.
  intros Hr Hh HI. unfold finish_exchange. destruct (rejects checker m).
  { cbn. destruct (rdrc c); [|done]. destruct (_ || _); [done|]. destruct HI. by split. }
  cbn. destruct (_ || _); [done|]. unfold storeCache. case_decide as Hz; [done|]. apply cache_put_inv; [done|].
  match goal with |- lives _ _ _ (map_records (RR_with_Ttl (response_ttl o ?x)) ?x, _) =>
    pose proof (response_ttl_range o x Hr) as Hrange; assert (derived m x) as Hx;
      [destruct (_ && _); [right; by eexists|by left]|set (resp := x) in *] end.
  rewrite (derived_ttl o m resp Hx) in *.
  exists now, (o_RewriteTTL o), m, resp, (response_ttl o m). split; [done|]. split; [done|].
  split; [by apply response_ttl_allowed|]. split; [lia|]. split; [lia|]. done.
Qed.

End cache.
