(* ===== verification/Sniff.v ===== *)
(** * Peeking at connections

    Model of common/sniff/sniff.go and of [Router.actionSniff] in
    route/route.go: reading ahead on a connection to find its protocol.  The
    protocol detectors themselves are parameters: each reads the bytes so far
    and either sets fields of the metadata or fails; a detector may also leave
    a value of its own in the metadata, the sniff context, for the next packet. *)
From S2P Require Import Prelude Bytes RuleItems RuleAction.

(** [E.Errors] joins errors; [errors.Is] looks into them and their causes. *)
Definition ErrNeedMoreData : error := ENew "need more data".
Fixpoint errors_Is (e target : error) : bool :=
  bool_decide (e = target) || match e with ECause c _ => errors_Is c target | _ => false end.
Definition errors : Type := list error.
Definition needs_more (e : option errors) : bool :=
  match e with Some es => existsb (λ e, errors_Is e ErrNeedMoreData) es | None => false end.

Class SniffEnv := {
  SniffContext : Type;
  sniff_stream : StreamSniffer → bytes → InboundContext * option SniffContext →
                 InboundContext * option SniffContext * option error;
  sniff_packet : PacketSniffer → bytes → InboundContext * option SniffContext →
                 InboundContext * option SniffContext * option error;
}.

(** [Skip]: protocols in which the server speaks first. *)
Definition Skip (md : InboundContext) : bool :=
  bool_decide (sa_Port (Destination md) ∈ [25; 465; 587; 143; 993; 110; 995]%Z).

Section sniff.
Context `{SniffEnv}.

(** The part of the metadata a detector writes to. *)
Definition Peek : Type := InboundContext * option SniffContext.

(** Try the sniffers in order until one succeeds. *)
Fixpoint try_sniffers {S} (run : S → bytes → Peek → Peek * option error) (sniffers : list S)
    (data : bytes) (md : Peek) (errs : errors) : Peek * option errors :=
  match sniffers with
  | [] => (md, match errs with [] => None | _ => Some errs end)
  | s :: sniffers =>
      match run s data md with
      | (md, None) => (md, None)
      | (md, Some e) => try_sniffers run sniffers data md (errs ++ [e])
      end
  end.

(** [PeekPacket]. *)
Definition PeekPacket (packet : bytes) (sniffers : list PacketSniffer) (md : Peek) : Peek * option errors :=
  try_sniffers sniff_packet sniffers packet md [].

(** [PeekStream]: what the reads return, in order; when there is nothing more
    the deadline passes.  The result is the metadata, the error, the bytes
    read and the reads left. *)
Definition ErrTimeout : error := ENew "i/o timeout".
Fixpoint peek_stream (i : nat) (sniffError : errors) (reads : list (result bytes)) (buffers : list bytes) (buffer : bytes)
    (sniffers : list StreamSniffer) (md : Peek) : Peek * option errors * bytes * list (result bytes) :=
  let failed e reads :=
    (md, (if decide (0 < i) then match sniffError with [] => None | es => Some es end
          else Some [ECause e "read payload"]), buffer, reads) in
  match reads with
  | [] => failed ErrTimeout []
  | Err e :: reads => failed e reads
  | Ok data :: reads =>
      let buffer := buffer ++ data in
      match try_sniffers sniff_stream sniffers (concat buffers ++ buffer) md [] with
      | (md, None) => (md, None, buffer, reads)
      | (md, Some es) =>
          if needs_more (Some es) then peek_stream (S i) es reads buffers buffer sniffers md
          else (md, Some es, buffer, reads)
      end
  end.
Definition PeekStream (reads : list (result bytes)) (buffers : list bytes) (sniffers : list StreamSniffer)
    (md : Peek) : Peek * option errors * bytes * list (result bytes) :=
  peek_stream 0 [] reads buffers [] sniffers md.

(** ** The sniff action *)

(** What the action remembers in the metadata of a connection. *)
Record SniffMemory := mkMemory {
  mem_SnifferNames : list string;
  mem_SniffError : option errors;
  mem_SniffContext : option SniffContext;
}.

Definition default_stream : list StreamSniffer := [TLSClientHello; HTTPHost; StreamDomainNameQuery; BitTorrent; SSH; RDP].
Definition default_packet : list PacketSniffer := [DomainNameQuery; QUICClientHello; STUNMessage; UTP; UDPTracker; DTLSRecord; NTP].

(** The checks at the beginning, with [same] the kind of sniffers the input can
    use and [other] the other kind. *)
Definition skips {S O} (md : InboundContext) (mem : SniffMemory) (names : list string) (same : list S) (other : list O) : bool :=
  Skip md || bool_decide (Protocol md ≠ "")
  || (bool_decide (length same = 0) && bool_decide (0 < length other))
  || (bool_decide (mem_SnifferNames mem = names) && bool_decide (mem_SniffError mem ≠ None) && negb (needs_more (mem_SniffError mem))).

(** [actionSniff] on a stream: the new buffer, if anything was read.  The
    deprecated [OverrideDestination] is never set by the constructors. *)
Definition actionSniff_stream (a : RuleActionSniff) (reads : list (result bytes)) (buffers : list bytes)
    (md : InboundContext) (mem : SniffMemory) : InboundContext * SniffMemory * option bytes * list (result bytes) :=
  if skips md mem (SnifferNames a) (StreamSniffers a) (PacketSniffers a) then (md, mem, None, reads)
  else
    let sniffers := if decide (0 < length (StreamSniffers a)) then StreamSniffers a else default_stream in
    let '(md, c, err, buffer, reads) := PeekStream reads buffers sniffers (md, mem_SniffContext mem) in
    (md, mkMemory (SnifferNames a) err c, (match buffer with [] => None | _ => Some buffer end), reads).

(** Packets are pairs of their bytes and destination; a read returns one, times
    out, fails, or is cancelled with the context. *)
Record PacketBuffer := mkPacketBuffer { pb_data : bytes; pb_dest : Socksaddr }.
Inductive packet_read := RPacket (p : PacketBuffer) | RTimeout | RError (e : error) | RCancelled (e : error).

(** The sniffers for the next packet: once more data is needed, only QUIC. *)
Definition peek_next (a : RuleActionSniff) (data : bytes) (md : InboundContext) (mem : SniffMemory)
    : InboundContext * SniffMemory * option errors :=
  let quicMoreData := bool_decide (mem_SnifferNames mem = SnifferNames a) && needs_more (mem_SniffError mem) in
  let '(md, c, err) :=
    PeekPacket data (if quicMoreData then [QUICClientHello]
                     else if decide (0 < length (PacketSniffers a)) then PacketSniffers a else default_packet)
               (md, mem_SniffContext mem) in
  (md, mkMemory (SnifferNames a) err c, err).

(** The loop over the packets that were already read: true when one of them
    settles the matter. *)
Fixpoint sniff_known (a : RuleActionSniff) (known : list PacketBuffer) (md : InboundContext) (mem : SniffMemory)
    : InboundContext * SniffMemory * bool :=
  match known with
  | [] => (md, mem, false)
  | p :: known =>
      let '(md, mem, err) := peek_next a (pb_data p) md mem in
      if needs_more err then sniff_known a known md mem else (md, mem, true)
  end.

(** The loop that reads more packets. *)
Fixpoint sniff_more (a : RuleActionSniff) (reads : list packet_read) (got : list PacketBuffer) (md : InboundContext)
    (mem : SniffMemory) : InboundContext * SniffMemory * list PacketBuffer * list packet_read * option error :=
  match reads with
  | [] => (md, mem, got, [], None)
  | RTimeout :: reads => (md, mem, got, reads, None)
  | RError e :: reads | RCancelled e :: reads => (md, mem, got, reads, Some e)
  | RPacket p :: reads =>
      let '(md, mem, err) := peek_next a (pb_data p) md mem in
      let got := got ++ [p] in
      if needs_more err then sniff_more a reads got md mem else (md, mem, got, reads, None)
  end.

(** [actionSniff] on packets: the packets it returns. *)
Definition actionSniff_packet (a : RuleActionSniff) (reads : list packet_read) (inputPacketBuffers : list PacketBuffer)
    (md : InboundContext) (mem : SniffMemory)
    : InboundContext * SniffMemory * list PacketBuffer * list packet_read * option error :=
  if skips md mem (SnifferNames a) (PacketSniffers a) (StreamSniffers a) then (md, mem, [], reads, None)
  else
    match sniff_known a inputPacketBuffers md mem with
    | (md, mem, true) => (md, mem, [], reads, None)
    | (md, mem, false) => sniff_more a reads inputPacketBuffers md mem
    end.
End sniff.
