(* ===== verification/Detectors.v ===== *)
(** * Client hellos and protocol detectors

    First a model of src/runtime/sing-box/common/ja3/parser.go: the parser of TLS
    client hellos that the QUIC sniffer runs on what a client sends.  Indexing and
    slicing check their bounds as the language does, and panic outside.  Then the
    detectors of src/runtime/sing-box/common/sniff but for that of QUIC. *)
From S2P Require Import Prelude Bytes RuleItems RuleAction Sniff.

(** ** Indexing and slicing *)

Definition at_ (b : bytes) (i : nat) : result byte :=
  match b !! i with Some x => Ok x | None => Err (EPanic "index out of range") end.
Definition from_ (i : nat) (b : bytes) : result bytes :=
  if decide (i <= length b) then Ok (drop i b) else Err (EPanic "slice bounds out of range").
Definition slice (lo hi : nat) (b : bytes) : result bytes :=
  if decide (lo <= hi <= length b) then Ok (take (hi - lo) (drop lo b)) else Err (EPanic "slice bounds out of range").
(** [uint16(b[i])<<8 | uint16(b[i+1])], and [binary.BigEndian.Uint16]. *)
Definition u16_at (b : bytes) (i : nat) : result Z := let? x := at_ b i in let? y := at_ b (S i) in Ok (of_be16 x y).
Definition Uint16 (b : bytes) : result Z := let? y := at_ b 1 in let? x := at_ b 0 in Ok (of_be16 x y).

(** error.go. *)
Definition LengthErr (check : nat) : error := ENew ("length check " +:+ pretty check +:+ " failed").
Definition VersionErr (check : nat) : error := ENew ("version check " +:+ pretty check +:+ " failed").
Definition ContentTypeErr : error := ENew "content type not matching".
Definition HandshakeTypeErr : error := ENew "handshake type not matching".
Definition SNITypeErr : error := ENew "SNI type not supported".

Record ClientHello := mkClientHello {
  ch_Version : Z;
  ch_CipherSuites : list Z;
  ch_Extensions : list Z;
  ch_EllipticCurves : list Z;
  ch_EllipticCurvePF : list Z;
  ch_Versions : list Z;
  ch_SignatureAlgorithms : list Z;
  ch_ServerName : string;
}.

(** ** Extensions *)

(** The variables of [parseExtensions]. *)
Record Found := mkFound {
  f_sni : bytes;
  f_extensions : list Z;
  f_curves : list Z;
  f_formats : list Z;
  f_versions : list Z;
  f_signatures : list Z;
}.
Definition nothing_found : Found := mkFound [] [] [] [] [] [].

(** [for i := range n { v := uint16(b[i*2])<<8 | uint16(b[1+i*2]) }] *)
Fixpoint u16s (b : bytes) (i n : nat) : result (list Z) :=
  match n with
  | 0 => Ok []
  | S n => let? v := u16_at b (2 * i) in let? l := u16s b (S i) n in Ok (v :: l)
  end.
(** [for i := 0; i < n; i += 2 { v := binary.BigEndian.Uint16(b[i:]) }] *)
Fixpoint u16s_step (fuel : nat) (b : bytes) (i n : nat) : result (list Z) :=
  match fuel with
  | 0 => Ok []
  | S fuel =>
      if decide (i < n) then
        let? rest := from_ i b in
        let? v := Uint16 rest in
        let? l := u16s_step fuel b (i + 2) n in
        Ok (v :: l)
      else Ok []
  end.
Definition nat_of (z : Z) : nat := Z.to_nat z.

(** The switch over the type of an extension with the body [sex]. *)
Definition parse_sni (sex : bytes) (f : Found) : result Found :=
  if decide (length sex < 5) then Err (LengthErr 13)
  else
    let? sniType := at_ sex 2 in
    let? sniLen := u16_at sex 3 in
    let? sex := from_ 5 sex in
    if decide (length sex ≠ nat_of sniLen) then Err (LengthErr 14)
    else if decide (val sniType = 0)%Z
    then Ok (mkFound sex (f_extensions f) (f_curves f) (f_formats f) (f_versions f) (f_signatures f))
    else Err SNITypeErr.
Definition parse_curves (sex : bytes) (f : Found) : result Found :=
  if decide (length sex < 2) then Err (LengthErr 15)
  else
    let? ecsLen := u16_at sex 0 in
    let? sex := from_ 2 sex in
    if decide (length sex ≠ nat_of ecsLen) then Err (LengthErr 16)
    else
      let? l := u16s sex 0 (nat_of (ecsLen / 2)) in
      Ok (mkFound (f_sni f) (f_extensions f) l (f_formats f) (f_versions f) (f_signatures f)).
Definition parse_formats (sex : bytes) (f : Found) : result Found :=
  if decide (length sex < 1) then Err (LengthErr 17)
  else
    let? numPF := at_ sex 0 in
    let? sex := from_ 1 sex in
    if decide (length sex ≠ nat_of (val numPF)) then Err (LengthErr 18)
    else Ok (mkFound (f_sni f) (f_extensions f) (f_curves f) (val <$> sex) (f_versions f) (f_signatures f)).
Definition parse_versions (sex : bytes) (f : Found) : result Found :=
  if decide (length sex < 1) then Err (LengthErr 19)
  else
    let? versionsLen := at_ sex 0 in
    let? body := from_ 1 sex in
    let? l := u16s_step (nat_of (val versionsLen)) body 0 (nat_of (val versionsLen)) in
    Ok (mkFound (f_sni f) (f_extensions f) (f_curves f) (f_formats f) (f_versions f ++ l) (f_signatures f)).
Definition parse_signatures (sex : bytes) (f : Found) : result Found :=
  if decide (length sex < 2) then Err (LengthErr 20)
  else
    let? ssaLen := Uint16 sex in
    let? body := from_ 2 sex in
    let? l := u16s_step (nat_of ssaLen) body 0 (nat_of ssaLen) in
    Ok (mkFound (f_sni f) (f_extensions f) (f_curves f) (f_formats f) (f_versions f) (f_signatures f ++ l)).
Definition parse_extension (exType : Z) (sex : bytes) (f : Found) : result Found :=
  if decide (exType = 0)%Z then parse_sni sex f
  else if decide (exType = 10)%Z then parse_curves sex f
  else if decide (exType = 11)%Z then parse_formats sex f
  else if decide (exType = 43)%Z then parse_versions sex f
  else if decide (exType = 13)%Z then parse_signatures sex f
  else Ok f.
Definition add_extension (exType : Z) (f : Found) : Found :=
  mkFound (f_sni f) (f_extensions f ++ [exType]) (f_curves f) (f_formats f) (f_versions f) (f_signatures f).

(** The loop; every extension takes four bytes at least.  The index of the next
    one is computed in [uint16]. *)
Fixpoint extensions_loop (fuel : nat) (exs : bytes) (f : Found) : result Found :=
  match exs, fuel with
  | [], _ => Ok f
  | _, 0 => Err (EPanic "fuel")
  | _, S fuel =>
      if decide (length exs < 4) then Err (LengthErr 11)
      else
        let? exType := u16_at exs 0 in
        let? exLen := u16_at exs 2 in
        if decide (length exs < 4 + nat_of exLen) then Err (LengthErr 12)
        else
          let? sex := slice 4 (4 + nat_of exLen) exs in
          let? f := parse_extension exType sex (add_extension exType f) in
          let? exs := from_ (nat_of ((4 + exLen) mod 65536)) exs in
          extensions_loop fuel exs f
  end.
Definition parseExtensions (exs : bytes) (j : ClientHello) : result ClientHello :=
  if decide (length exs = 0) then Ok j
  else if decide (length exs < 2) then Err (LengthErr 9)
  else
    let? exsLen := u16_at exs 0 in
    let? exs := from_ 2 exs in
    if decide (length exs < nat_of exsLen) then Err (LengthErr 10)
    else
      let? f := extensions_loop (length exs) exs nothing_found in
      Ok (mkClientHello (ch_Version j) (ch_CipherSuites j) (f_extensions f) (f_curves f) (f_formats f) (f_versions f)
            (f_signatures f) (String.string_of_list_ascii (f_sni f))).

(** ** The hello *)

Definition supported_version (v : Z) : bool :=
  bool_decide (Z.land v 65532 = 768)%Z || bool_decide (v = 772)%Z.

Definition parseHandshake (hs : bytes) : result ClientHello :=
  if decide (length hs < 39) then Err (LengthErr 3)
  else
    let? handshType := at_ hs 0 in
    if decide (val handshType ≠ 1)%Z then Err HandshakeTypeErr
    else
      let? b1 := at_ hs 1 in
      let? b2 := at_ hs 2 in
      let? b3 := at_ hs 3 in
      let handshakeLen := Z.lor (Z.lor (Z.shiftl (val b1) 16) (Z.shiftl (val b2) 8)) (val b3) in
      if decide (Z.of_nat (length hs - 4) ≠ handshakeLen) then Err (LengthErr 4)
      else
        let? tlsVersion := u16_at hs 4 in
        if negb (supported_version tlsVersion) then Err (VersionErr 2)
        else
          let? sessionIDLen := at_ hs 38 in
          if decide (length hs < 39 + nat_of (val sessionIDLen)) then Err (LengthErr 5)
          else
            let? cs := from_ (39 + nat_of (val sessionIDLen)) hs in
            if decide (length cs < 2) then Err (LengthErr 6)
            else
              let? csLen := u16_at cs 0 in
              if decide (length cs < 2 + nat_of csLen + 1) then Err (LengthErr 7)
              else
                let? body := from_ 2 cs in
                let? cipherSuites := u16s body 0 (nat_of (csLen / 2)) in
                let? compressMethodLen := at_ cs (2 + nat_of csLen) in
                if decide (length cs < 2 + nat_of csLen + 1 + nat_of (val compressMethodLen)) then Err (LengthErr 8)
                else
                  let? exs := from_ (2 + nat_of csLen + 1 + nat_of (val compressMethodLen)) cs in
                  parseExtensions exs (mkClientHello tlsVersion cipherSuites [] [] [] [] [] "").

Definition parseSegment (segment : bytes) : result ClientHello :=
  if decide (length segment < 5) then Err (LengthErr 1)
  else
    let? contType := at_ segment 0 in
    if decide (val contType ≠ 22)%Z then Err ContentTypeErr
    else
      let? tlsRecordVersion := u16_at segment 1 in
      if negb (supported_version tlsRecordVersion) then Err (VersionErr 1)
      else
        let? segmentLen := u16_at segment 3 in
        if decide (length segment - 5 < nat_of segmentLen) then Err (LengthErr 2)
        else
          let? hs := slice 5 (5 + nat_of segmentLen) segment in
          parseHandshake hs.

(** ja3.go, [Compute]. *)
Definition Compute_ (payload : bytes) : result ClientHello := parseSegment payload.

(** ** The fingerprint *)

(** The string of decimal numbers; a value is skipped unless it is a GREASE one. *)
Definition replace_last (c s : string) : string := String.substring 0 (String.length s - 1) s +:+ c.
Definition append_values (l : list Z) (s : string) : string := fold_left (λ s v, s +:+ pretty v +:+ "-") l s.
Definition append_list (l : list Z) (s : string) : string :=
  match l with
  | [] => s +:+ ","
  | _ => replace_last "," (append_values (filter (λ v, Z.land v 3855 = 2570%Z) l) s)
  end.
Definition marshalJA3 (j : ClientHello) : string :=
  let s := pretty (ch_Version j) +:+ "," in
  let s := append_list (ch_CipherSuites j) s in
  let s := append_list (ch_Extensions j) s in
  let s := append_list (ch_EllipticCurves j) s in
  match ch_EllipticCurvePF j with
  | [] => s
  | l => replace_last "" (append_values l s)
  end.

(** ** Where the client hello parser panics

    The parser checks every length but two: it panics only on an extension that
    lists supported versions or signature algorithms and declares a longer list
    than it has. *)

Lemma safe_at b i : i < length b → safe (at_ b i).
Proof. intros Hi. unfold at_. destruct (lookup_lt_is_Some_2 b i Hi) as [x ->]. done. Qed.
Lemma safe_from i b : i <= length b → safe (from_ i b).
Proof. intros Hi. unfold from_. by rewrite decide_True. Qed.
Lemma safe_slice lo hi b : lo <= hi <= length b → safe (slice lo hi b).
Proof. intros Hi. unfold slice. by rewrite decide_True. Qed.
Lemma safe_u16_at b i : S i < length b → safe (u16_at b i).
Proof. intros Hi. unfold u16_at. repeat safe_step; apply safe_at; lia. Qed.
Lemma safe_Uint16 b : 2 <= length b → safe (Uint16 b).
Proof. intros Hi. unfold Uint16. repeat safe_step; apply safe_at; lia. Qed.

Lemma from_ok i b b' : from_ i b = Ok b' → length b' = length b - i ∧ b' = drop i b.
Proof. unfold from_. case_decide; [|done]. intros [= <-]. by rewrite length_drop. Qed.
Lemma u16_at_range b i z : u16_at b i = Ok z → (0 <= z < 65536)%Z.
Proof. unfold u16_at, at_. repeat case_match; cbn; try done. intros [= <-]. apply of_be16_range. Qed.

Lemma safe_u16s b i n : 2 * (i + n) <= length b → safe (u16s b i n).
Proof.
  revert i. induction n as [|n IH]; intros i Hb; [done|]. cbn [u16s]. repeat safe_step; [apply safe_u16_at|apply IH]; lia.
Qed.
(** The other loop makes [k] steps of two bytes up to [n], which it does not
    compare with what there is. *)
Lemma safe_u16s_step fuel b i n k : n <= i + 2 * k → i + 2 * k <= length b → safe (u16s_step fuel b i n).
Proof.
  revert i k. induction fuel as [|fuel IH]; intros i k Hn Hb; [done|]. cbn [u16s_step]. case_decide; [|done].
  destruct k as [|k]; [lia|]. apply safe_bind; [apply safe_from; lia|]. intros rest [Hrest _]%from_ok.
  apply safe_bind; [apply safe_Uint16; lia|]. intros v _. apply safe_bind; [|done]. apply (IH _ k); lia.
Qed.

(** ** Extensions *)

(** The lists that are read without a check: behind a length [n], [n] bytes
    rounded up to even. *)
Definition short_list (exType : Z) (sex : bytes) : Prop :=
  (exType = 43%Z ∧ ∃ n body, sex = n :: body ∧ length body < 2 * ((nat_of (val n) + 1) / 2)) ∨
  (exType = 13%Z ∧ ∃ a b body, sex = a :: b :: body ∧ length body < 2 * ((nat_of (of_be16 a b) + 1) / 2)).

Lemma half_up n : n <= 2 * ((n + 1) / 2).
Proof. pose proof (Nat.div_mod (n + 1) 2). pose proof (Nat.mod_upper_bound (n + 1) 2). lia. Qed.

Lemma safe_versions sex f : ¬ short_list 43 sex → safe (parse_versions sex f).
Proof.
  intros Hs. unfold parse_versions. destruct sex as [|n body]; [done|]. rewrite decide_False by (simpl; lia).
  unfold from_. rewrite decide_True by (simpl; lia). cbn [at_ lookup list_lookup result_bind drop].
  apply safe_bind; [|done]. apply (safe_u16s_step _ _ _ _ ((nat_of (val n) + 1) / 2)); [apply half_up|].
  apply Nat.nlt_ge. intros Hlt. apply Hs. left. eauto 6.
Qed.
Lemma safe_signatures sex f : ¬ short_list 13 sex → safe (parse_signatures sex f).
Proof.
  intros Hs. unfold parse_signatures. destruct sex as [|a [|b body]]; [done..|]. rewrite decide_False by (simpl; lia).
  unfold from_. rewrite decide_True by (simpl; lia). cbn [Uint16 at_ lookup list_lookup result_bind drop].
  apply safe_bind; [|done]. apply (safe_u16s_step _ _ _ _ ((nat_of (of_be16 a b) + 1) / 2)); [apply half_up|].
  apply Nat.nlt_ge. intros Hlt. apply Hs. right. eauto 8.
Qed.

Lemma safe_sni sex f : safe (parse_sni sex f).
Proof.
  unfold parse_sni. case_decide; [done|]. repeat safe_step; first [apply safe_at|apply safe_u16_at|apply safe_from]; lia.
Qed.
Lemma safe_curves sex f : safe (parse_curves sex f).
Proof.
  unfold parse_curves. case_decide; [done|]. apply safe_bind; [apply safe_u16_at; lia|]. intros n Hn%u16_at_range.
  apply safe_bind; [apply safe_from; lia|]. intros body [Hb _]%from_ok. case_decide as Hlen; [done|].
  apply safe_bind; [|done]. apply safe_u16s. unfold nat_of in *. rewrite Z2Nat.inj_div by lia.
  change (Z.to_nat 2) with 2. rewrite Hlen. pose proof (Nat.div_mod (Z.to_nat n) 2). lia.
Qed.
Lemma safe_formats sex f : safe (parse_formats sex f).
Proof. unfold parse_formats. case_decide; [done|]. repeat safe_step; first [apply safe_at|apply safe_from]; lia. Qed.

#[export] Instance short_list_dec exType sex : Decision (short_list exType sex).
Proof.
  unfold short_list. destruct (decide (exType = 43%Z)) as [->|]; [|destruct (decide (exType = 13%Z)) as [->|]].
  - destruct sex as [|n body]; [right; intros [(_ & ? & ? & ? & _)|[? _]]; done|].
    destruct (decide (length body < 2 * ((nat_of (val n) + 1) / 2))) as [Hl|Hl]; [left; left; eauto|].
    right. intros [(_ & ? & ? & [= <- <-] & ?)|[? _]]; done.
  - destruct sex as [|a [|b body]]; [right; intros [[? _]|(_ & ? & ? & ? & ? & _)]; done..|].
    destruct (decide (length body < 2 * ((nat_of (of_be16 a b) + 1) / 2))) as [Hl|Hl]; [left; right; eauto 6|].
    right. intros [[? _]|(_ & ? & ? & ? & [= <- <- <-] & ?)]; done.
  - right. by intros [[? _]|[? _]].
Qed.

(** A panic has this reason. *)
Definition panics_only {A} (P : Prop) (r : result A) : Prop := match r with Err (EPanic _) => P | _ => True end.
Lemma panics_safe {A} P (r : result A) : safe r → panics_only P r.
Proof. by destruct r as [|[]]. Qed.
Lemma panics_impl {A} (P Q : Prop) (r : result A) : (P → Q) → panics_only P r → panics_only Q r.
Proof. intros Hpq. destruct r as [|[]]; auto. Qed.
Lemma panics_bind {A B} P (r : result A) (k : A → result B) :
  panics_only P r → (∀ a, r = Ok a → panics_only P (k a)) → panics_only P (let? a := r in k a).
Proof. intros Hr Hk. destruct r as [a|e]; [by apply Hk|by destruct e]. Qed.
Lemma panics_step {A B} P (r : result A) (k : A → result B) :
  safe r → (∀ a, r = Ok a → panics_only P (k a)) → panics_only P (let? a := r in k a).
Proof. intros Hr. apply panics_bind. by apply panics_safe. Qed.

Lemma extension_panics exType sex f : panics_only (short_list exType sex) (parse_extension exType sex f).
Proof.
  destruct (decide (short_list exType sex)) as [Hs|Hs]; [by destruct (parse_extension _ _ _) as [|[]]|].
  apply panics_safe. unfold parse_extension.
  repeat case_decide; subst; auto using safe_sni, safe_curves, safe_formats, safe_versions, safe_signatures. done.
Qed.

(** An extension of the type with this body is somewhere in the bytes. *)
Definition has_short_list (b : bytes) : Prop :=
  ∃ pre exType sex post, b = pre ++ be16 exType ++ be16 (Z.of_nat (length sex)) ++ sex ++ post ∧ short_list exType sex.

Lemma has_short_list_app a b : has_short_list b → has_short_list (a ++ b).
Proof. intros (pre & t & sex & post & -> & Hs). exists (a ++ pre), t, sex, post. by rewrite <-!app_assoc. Qed.
Lemma has_short_list_drop n b : has_short_list (drop n b) → has_short_list b.
Proof. intros Hb. rewrite <-(take_drop n b). by apply has_short_list_app. Qed.
Lemma has_short_list_take n b : has_short_list (take n b) → has_short_list b.
Proof.
  intros (pre & t & sex & post & E & Hs). exists pre, t, sex, (post ++ drop n b). split; [|done].
  rewrite <-(take_drop n b) at 1. rewrite E. by rewrite <-!app_assoc.
Qed.

Lemma be16_of_be16 a b : be16 (of_be16 a b) = [a; b].
Proof.
  rewrite of_be16_val. unfold be16. pose proof (val_range a). pose proof (val_range b). f_equal; [|f_equal].
  - rewrite Z.shiftr_div_pow2 by lia. rewrite <-(u8_val a) at 2. f_equal. Z.to_euclidean_division_equations; lia.
  - rewrite <-(u8_val b) at 2. unfold u8. do 2 f_equal. Z.to_euclidean_division_equations; lia.
Qed.

Lemma extensions_panics fuel exs f : length exs <= fuel → (Z.of_nat (length exs) < 65536)%Z →
  panics_only (has_short_list exs) (extensions_loop fuel exs f).
Proof.
  revert exs f. induction fuel as [|fuel IH]; intros exs f Hf Hlen; [by destruct exs; [|simpl in Hf; lia]|].
  destruct exs as [|a [|b [|c [|d body]]]]; [done..|]. cbn [extensions_loop]. rewrite decide_False by (simpl; lia).
  cbn [u16_at at_ lookup list_lookup result_bind]. pose proof (of_be16_range c d) as Hr. set (n := of_be16 c d) in *.
  case_decide as Hn; [done|]. unfold slice. rewrite decide_True by lia. cbn [result_bind drop].
  replace (4 + nat_of n - 4) with (nat_of n) by lia. simpl in Hn, Hlen.
  assert (length (take (nat_of n) body) = nat_of n) as Hl by (rewrite length_take; lia).
  apply panics_bind.
  - eapply panics_impl; [|apply extension_panics]. intros Hshort. exists [], (of_be16 a b), (take (nat_of n) body), (drop (nat_of n) body).
    split; [|done]. rewrite Hl. unfold nat_of. rewrite Z2Nat.id by lia. subst n. rewrite !be16_of_be16, take_drop. done.
  - intros f' _. rewrite Z.mod_small by (unfold nat_of in *; lia).
    replace (nat_of (4 + n)) with (4 + nat_of n) by (unfold nat_of; lia).
    apply panics_step; [apply safe_from; simpl; lia|]. intros exs' [Hl' ->]%from_ok.
    eapply panics_impl; [apply has_short_list_drop|]. apply IH; [simpl in *; lia|rewrite length_drop; simpl; lia].
Qed.

Lemma parseExtensions_panics exs j : (Z.of_nat (length exs) < 65536)%Z → panics_only (has_short_list exs) (parseExtensions exs j).
Proof.
  intros Hlen. unfold parseExtensions. case_decide; [done|]. case_decide; [done|].
  apply panics_step; [apply safe_u16_at; lia|]. intros n _. apply panics_step; [apply safe_from; lia|].
  intros body [Hb ->]%from_ok. case_decide; [done|]. apply panics_bind; [|done].
  eapply panics_impl; [apply has_short_list_drop|]. apply extensions_panics; [done|lia].
Qed.

Lemma parseHandshake_panics hs : (Z.of_nat (length hs) < 65536)%Z → panics_only (has_short_list hs) (parseHandshake hs).
Proof.
  intros Hlen. unfold parseHandshake. case_decide; [done|].
  apply panics_step; [apply safe_at; lia|]. intros t _. case_decide; [done|].
  do 3 (apply panics_step; [apply safe_at; lia|]; intros ? _). case_decide; [done|].
  apply panics_step; [apply safe_u16_at; lia|]. intros version _. destruct (negb _); [done|].
  apply panics_step; [apply safe_at; lia|]. intros idLen _. case_decide; [done|].
  apply panics_step; [apply safe_from; lia|]. intros cs [Hcs ->]%from_ok. case_decide; [done|].
  apply panics_step; [apply safe_u16_at; lia|]. intros csLen Hr%u16_at_range. case_decide; [done|].
  apply panics_step; [apply safe_from; lia|]. intros body [Hb _]%from_ok. apply panics_step.
  { apply safe_u16s. unfold nat_of in *. rewrite Z2Nat.inj_div by lia. change (Z.to_nat 2) with 2.
    pose proof (Nat.div_mod (Z.to_nat csLen) 2). lia. }
  intros suites _. apply panics_step; [apply safe_at; lia|]. intros compress _. case_decide; [done|].
  apply panics_step; [apply safe_from; lia|]. intros exs [He ->]%from_ok.
  eapply panics_impl; [intros Hs; by do 2 apply has_short_list_drop in Hs|]. apply parseExtensions_panics. lia.
Qed.

(** The parser panics only on a list that is shorter than it says. *)
Lemma Compute_panics payload : panics_only (has_short_list payload) (Compute_ payload).
Proof.
  unfold Compute_, parseSegment. case_decide; [done|].
  apply panics_step; [apply safe_at; lia|]. intros t _. case_decide; [done|].
  apply panics_step; [apply safe_u16_at; lia|]. intros version _. destruct (negb _); [done|].
  apply panics_step; [apply safe_u16_at; lia|]. intros n Hn%u16_at_range. case_decide; [done|].
  apply panics_step; [apply safe_slice; lia|]. unfold slice. case_decide; [|done]. intros hs [= <-].
  eapply panics_impl; [intros Hs%has_short_list_take%has_short_list_drop; exact Hs|].
  apply parseHandshake_panics. rewrite length_take. unfold nat_of in *. lia.
Qed.

(** ** Protocol detectors

    Model of the sniffers of src/runtime/sing-box/common/sniff, but for QUIC: each
    looks at the first bytes of a stream or at a packet and sets the protocol, and
    sometimes the domain and the client, of the connection.  DNS messages, HTTP
    requests and TLS handshakes are parsed by other packages, the fields of
    [ParserEnv].  The reader of a stream sniffer is the list of buffers that were
    read so far. *)

(** The counts of a DNS message that was unpacked. *)
Record DnsCounts := mkDnsCounts { dm_Response : bool; dm_Question : nat; dm_Answer : nat; dm_Ns : nat }.

Class ParserEnv := {
  mDNS_Unpack : bytes → result DnsCounts;
  (** The host of the request; [ErrUnexpectedEOF] when it is not complete. *)
  http_ReadRequest : bytes → result string;
  (** [M.ParseSocksaddr] and [AddrString]. *)
  host_address : string → string;
  (** The server name of the hello, if one was read, and the error. *)
  tls_Handshake : bytes → option string * error;
}.

Definition set_sniffed (protocol domain client : string) (c : InboundContext) : InboundContext :=
  mkInboundContext (Inbound c) (IPVersion c) (Network c) (Source c) (Destination c) (User c) (Outbound c)
    protocol domain client (DestinationAddresses c) (ProcessInfo c) (QueryType c) (IPCIDRMatchSource c) (IPCIDRAcceptEmpty c)
    (SourceAddressMatch c) (SourcePortMatch c) (DestinationAddressMatch c) (DestinationPortMatch c) (DidMatch c)
    (IgnoreDestinationIPCIDRMatch c).
Definition set_Protocol (protocol : string) (c : InboundContext) : InboundContext := set_sniffed protocol (Domain c) (Client c) c.

(** A detector: the fields it sets, or an error. *)
Definition detector : Type := InboundContext → InboundContext * option error.
Definition invalid : detector := λ md, (md, Some ErrInvalid).
Definition detected (protocol : string) : detector := λ md, (set_Protocol protocol md, None).
(** [E.Cause1(ErrNeedMoreData, err)]. *)
Definition need_more : detector := λ md, (md, Some (ECause ErrNeedMoreData "EOF")).

Definition byte_at (b : bytes) (i : nat) : Z := default 0%Z (val <$> b !! i).
Definition u16_of (b : bytes) (i : nat) : Z := of_be16 (default (u8 0) (b !! i)) (default (u8 0) (b !! S i)).
Definition u32_of (b : bytes) (i : nat) : Z := Z.lor (Z.shiftl (u16_of b i) 16) (u16_of b (i + 2)).

Section detectors.
Context `{ParserEnv}.

(** ** Packets *)

Definition STUNMessage (packet : bytes) : detector :=
  if decide (length packet < 20) then invalid
  else if decide (u32_of packet 4 ≠ 554869826)%Z then invalid
  else if decide (Z.of_nat (length packet) < 20 + u16_of packet 2)%Z then invalid
  else detected "stun".

Definition UDPTracker (packet : bytes) : detector :=
  if decide (length packet < 16) then invalid
  else if decide (Z.lor (Z.shiftl (u32_of packet 0) 32) (u32_of packet 4) ≠ 4497486125440)%Z then invalid
  else if decide (u32_of packet 8 ≠ 0)%Z then invalid
  else detected "bittorrent".

Definition DTLSRecord (packet : bytes) : detector :=
  if decide (length packet < 13) then invalid
  else if decide (byte_at packet 0 ∉ [20; 21; 22; 23; 25]%Z) then invalid
  else if decide (byte_at packet 1 ≠ 254)%Z then invalid
  else if decide (byte_at packet 2 ≠ 255 ∧ byte_at packet 2 ≠ 253)%Z then invalid
  else detected "dtls".

(** A [uint32] over 65536 is above 16.0 as a float exactly when the integer is
    above [16 * 65536]: both are exact. *)
Definition NTP (packet : bytes) : detector :=
  let firstByte := byte_at packet 0 in
  let li := Z.land (Z.shiftr firstByte 6) 3 in
  let vn := Z.land (Z.shiftr firstByte 3) 7 in
  let mode := Z.land firstByte 7 in
  if decide (length packet < 48) then invalid
  else if decide (li > 3)%Z then invalid
  else if decide (vn ≠ 3 ∧ vn ≠ 4)%Z then invalid
  else if decide (mode ≠ 3)%Z then invalid
  else if decide (u32_of packet 4 > 16 * 65536)%Z then invalid
  else if decide (u32_of packet 8 > 16 * 65536)%Z then invalid
  else detected "ntp".

(** The extensions of a uTP packet: every turn reads two bytes.  Seeking behind
    the end succeeds; the next read then fails. *)
Fixpoint utp_extensions (fuel : nat) (extension : Z) (rest : bytes) : option error :=
  if decide (extension = 0)%Z then None
  else
    match fuel, rest with
    | 0, _ => Some (EPanic "fuel")
    | _, [] => Some EOF
    | S fuel, e :: rest =>
        if decide (val e > 4)%Z then Some ErrInvalid
        else match rest with [] => Some EOF | l :: rest => utp_extensions fuel (val e) (drop (Z.to_nat (val l)) rest) end
    end.
Definition UTP (packet : bytes) : detector :=
  let version := Z.land (byte_at packet 0) 15 in
  let ty := Z.shiftr (byte_at packet 0) 4 in
  if decide (length packet < 20) then invalid
  else if decide (version ≠ 1 ∨ ty > 4)%Z then invalid
  else
    match utp_extensions (S (length packet)) (byte_at packet 1) (drop 20 packet) with
    | Some e => λ md, (md, Some e)
    | None => detected "bittorrent"
    end.

(** A message that is no query is no error either. *)
Definition DomainNameQuery (packet : bytes) : detector := λ md,
  match mDNS_Unpack packet with
  | Err e => (md, Some e)
  | Ok msg =>
      if dm_Response msg || bool_decide (dm_Question msg = 0) || bool_decide (0 < dm_Answer msg) || bool_decide (0 < dm_Ns msg)
      then (md, None)
      else (set_Protocol "dns" md, None)
  end.

(** ** Streams *)

(** [binary.Read] of bytes that must follow. *)
Definition expect (b : bytes) (i : nat) (value : Z) (k : detector) : detector :=
  match b !! i with
  | None => need_more
  | Some x => if decide (val x ≠ value) then invalid else k
  end.

Definition RDP (buffers : list bytes) : detector :=
  let b := concat buffers in
  expect b 0 3 (expect b 1 0
    (if decide (length b < 4) then need_more
     else if decide (u16_of b 2 ≠ 19)%Z then invalid
     else expect b 4 14 (expect b 5 224
       (if decide (length b < 11) then need_more
        else expect b 11 1
          (if decide (length b < 13) then need_more else expect b 13 8 (detected "rdp")))))).

Definition string_bytes (s : string) : bytes := String.list_ascii_of_string s.

(** The header is read at once: from the buffer the first byte was in, or the
    next one that has something. *)
Fixpoint next_read (buffers : list bytes) : bytes :=
  match buffers with [] => [] | [] :: buffers => next_read buffers | b :: _ => b end.
Fixpoint skip_byte (buffers : list bytes) : option (byte * list bytes) :=
  match buffers with
  | [] => None
  | [] :: buffers => skip_byte buffers
  | (x :: b) :: buffers => Some (x, b :: buffers)
  end.
Definition BitTorrent (buffers : list bytes) : detector :=
  match skip_byte buffers with
  | None => need_more
  | Some (first, rest) =>
      if decide (val first ≠ 19)%Z then invalid
      else
        let protocol := take 19 (next_read rest) in
        if decide (protocol ≠ take (length protocol) (string_bytes "BitTorrent protocol")) then invalid
        else if decide (length protocol = 0) then need_more
        else if decide (length protocol < 19) then λ md, (md, Some ErrNeedMoreData)
        else detected "bittorrent"
  end.

(** [ReadLine]: up to the end of the line, or of what was read. *)
Definition newline : byte := u8 10.
Definition carriage_return : byte := u8 13.
Fixpoint until_newline (b : bytes) : bytes * bool :=
  match b with
  | [] => ([], false)
  | x :: b => if decide (x = newline) then ([], true) else let '(l, ended) := until_newline b in (x :: l, ended)
  end.
Definition strip_return (l : bytes) : bytes :=
  match last l with Some x => if decide (x = carriage_return) then removelast l else l | None => l end.
Definition read_line (b : bytes) : bytes := let '(l, ended) := until_newline b in if ended then strip_return l else l.
Definition SSH (buffers : list bytes) : detector := λ md,
  let b := concat buffers in
  let prefix := take 8 b in
  if decide (prefix ≠ take (length prefix) (string_bytes "SSH-2.0-")) then invalid md
  else if decide (length prefix < 8) then need_more md
  else (set_sniffed "ssh" (Domain md) (String.string_of_list_ascii (drop 8 (read_line b))) md, None).

Definition StreamDomainNameQuery (buffers : list bytes) : detector :=
  let b := concat buffers in
  if decide (length b < 2) then need_more
  else if decide (u16_of b 0 < 12)%Z then invalid
  else
    let packet := take (Z.to_nat (u16_of b 0)) (drop 2 b) in
    let n := length packet in
    if decide (2 < n ∧ Z.land (byte_at packet 2) 128 ≠ 0%Z) then invalid
    else if decide (5 < n ∧ byte_at packet 4 = 0%Z ∧ byte_at packet 5 = 0%Z) then invalid
    else if existsb (λ i, bool_decide (i < n) && negb (bool_decide (byte_at packet i = 0%Z))) [6; 7; 8; 9] then invalid
    else if decide (n < Z.to_nat (u16_of b 0)) then need_more
    else DomainNameQuery packet.

Definition HTTPHost (buffers : list bytes) : detector := λ md,
  match http_ReadRequest (concat buffers) with
  | Err e => (md, Some (if errors_Is e ErrUnexpectedEOF then ECause ErrNeedMoreData "unexpected EOF" else e))
  | Ok host => (set_sniffed "http" (host_address host) (Client md) md, None)
  end.
Definition TLSClientHello (buffers : list bytes) : detector := λ md,
  match tls_Handshake (concat buffers) with
  | (Some name, _) => (set_sniffed "tls" name (Client md) md, None)
  | (None, e) => (md, Some (if errors_Is e ErrUnexpectedEOF then ECause ErrNeedMoreData "unexpected EOF" else e))
  end.
End detectors.
