(* ===== verification/Quic.v ===== *)
(** * The QUIC detector

    Model of src/runtime/sing-box/common/sniff/quic.go, quic_blacklist.go and
    internal/qtls: the sniffer removes the protection of the initial packet of a
    QUIC client, collects the pieces of its TLS client hello, over several packets
    when it has to, and reads the server name.  The primitives of the packages
    crypto and hkdf are the fields of [QuicCrypto]. *)
From S2P Require Import Prelude Bytes RuleItems Sniff Detectors.
Open Scope Z_scope.

Class QuicCrypto := {
  (** HKDF with SHA-256: [hkdf_Extract secret salt], [hkdf_Expand secret info length]. *)
  hkdf_Extract : bytes → bytes → bytes;
  hkdf_Expand : bytes → bytes → nat → bytes;
  (** One block of AES under a key of 16 bytes. *)
  aes_Encrypt : bytes → bytes → bytes;
  (** AES-GCM with 16 bytes of tag: key, nonce, text, additional data. *)
  gcm_Seal : bytes → bytes → bytes → bytes → bytes;
  gcm_Open : bytes → bytes → bytes → bytes → result bytes;
}.
Class QuicCryptoLaws `{QuicCrypto} := {
  length_Expand secret info n : length (hkdf_Expand secret info n) = n;
  length_Encrypt key block : length (aes_Encrypt key block) = 16%nat;
  length_Seal key nonce text ad : length (gcm_Seal key nonce text ad) = (length text + 16)%nat;
  Open_Seal key nonce text ad : gcm_Open key nonce (gcm_Seal key nonce text ad) ad = Ok text;
  length_Open key nonce data ad text : gcm_Open key nonce data ad = Ok text → length data = (length text + 16)%nat;
  Open_error key nonce data ad e : gcm_Open key nonce data ad = Err e → ∃ code, e = EEnv code;
}.

(** ** internal/qtls *)

Definition VersionDraft29 : Z := 4278190109.
Definition Version1 : Z := 1.
Definition Version2 : Z := 1798521807.

Definition hex (l : list Z) : bytes := u8 <$> l.
Definition SaltOld : bytes :=
  hex [175; 191; 236; 40; 153; 147; 210; 76; 158; 151; 134; 241; 156; 97; 17; 224; 67; 144; 168; 153].
Definition SaltV1 : bytes :=
  hex [56; 118; 44; 247; 245; 89; 52; 179; 77; 23; 154; 230; 164; 200; 12; 173; 204; 187; 127; 10].
Definition SaltV2 : bytes :=
  hex [13; 237; 227; 222; 247; 0; 166; 219; 129; 147; 129; 190; 110; 38; 157; 203; 249; 189; 46; 217].

Definition ReadUvarint : reader Z :=
  let! firstByte := read_byte in
  let len := Z.shiftl 1 (Z.shiftr (Z.land (val firstByte) 192) 6) in
  let b1 := Z.land (val firstByte) 63 in
  if decide (len = 1) then rret b1
  else
    let! b2 := read_byte in
    if decide (len = 2) then rret (val b2 + Z.shiftl b1 8)
    else
      let! b3 := read_byte in
      let! b4 := read_byte in
      if decide (len = 4) then rret (val b4 + Z.shiftl (val b3) 8 + Z.shiftl (val b2) 16 + Z.shiftl b1 24)
      else
        let! b5 := read_byte in
        let! b6 := read_byte in
        let! b7 := read_byte in
        let! b8 := read_byte in
        rret (val b8 + Z.shiftl (val b7) 8 + Z.shiftl (val b6) 16 + Z.shiftl (val b5) 24 + Z.shiftl (val b4) 32
              + Z.shiftl (val b3) 40 + Z.shiftl (val b2) 48 + Z.shiftl b1 56).

Definition xor_byte (a b : byte) : byte := u8 (Z.lxor (val a) (val b)).
(** [for i, b := range mask { data[at+i] ^= b }] *)
Definition xor_at (i : nat) (mask data : bytes) : bytes :=
  take i data ++ zip_with xor_byte (take (length mask) (drop i data)) mask ++ drop (i + length mask) data.

Section qtls.
Context `{QuicCrypto}.

(** The expansion of a label of an empty context. *)
Definition HKDFExpandLabel (secret : bytes) (label : string) (n : nat) : bytes :=
  hkdf_Expand secret
    (be16 (Z.of_nat n) ++ [u8 (6 + Z.of_nat (String.length label))] ++ string_bytes "tls13 " ++ string_bytes label ++ [u8 0]) n.

(** [xorNonceAEAD]: the sequence number is mixed into the last eight bytes of the
    nonce. *)
Definition xorNonce_Open (key nonceMask nonce data ad : bytes) : result bytes :=
  gcm_Open key (xor_at 4 nonce nonceMask) data ad.
Definition xorNonce_Seal (key nonceMask nonce text ad : bytes) : bytes :=
  gcm_Seal key (xor_at 4 nonce nonceMask) text ad.
End qtls.

(** ** The header of the packet *)

(** [io.CopyN(io.Discard, reader, n)]. *)
Definition discard (n : Z) : reader () := λ s,
  if decide (n <= Z.of_nat (length s)) then Ok ((), drop (Z.to_nat n) s) else Err EOF.
Definition guard_ (b : bool) (e : error) : reader () := if b then rfail e else rret ().
Definition be32_of (b : bytes) : Z := u32_of b 0.

Record Header := mkHeader { h_version : Z; h_destConnID : bytes; h_packetLen : Z }.

Definition bad_packet_type (packetType versionNumber : Z) : bool :=
  bool_decide (packetType = 0 ∧ versionNumber = Version2) || bool_decide (packetType = 2 ∧ versionNumber ≠ Version2)
  || bool_decide (packetType > 2).

Definition read_header : reader Header :=
  let! typeByte := read_byte in
  let! _ := guard_ (bool_decide (Z.land (val typeByte) 64 = 0)) (ENew "bad type byte") in
  let! version := read_full 4 in
  let versionNumber := be32_of version in
  let! _ := guard_ (bool_decide (versionNumber ≠ VersionDraft29 ∧ versionNumber ≠ Version1 ∧ versionNumber ≠ Version2)) (ENew "bad version") in
  let packetType := Z.shiftr (Z.land (val typeByte) 48) 4 in
  let! _ := guard_ (bad_packet_type packetType versionNumber) (ENew "bad packet type") in
  let! destConnIDLen := read_byte in
  let! _ := guard_ (bool_decide (val destConnIDLen = 0) || bool_decide (val destConnIDLen > 20)) (ENew "bad destination connection id length") in
  let! destConnID := read_full (nat_of (val destConnIDLen)) in
  let! srcConnIDLen := read_byte in
  let! _ := discard (val srcConnIDLen) in
  let! tokenLen := ReadUvarint in
  let! _ := discard tokenLen in
  let! packetLen := ReadUvarint in
  rret (mkHeader versionNumber destConnID packetLen).

(** ** Removing the protection *)

Section unprotect.
Context `{QuicCrypto}.

Definition salt_of (version : Z) : bytes :=
  if decide (version = Version1) then SaltV1 else if decide (version = Version2) then SaltV2 else SaltOld.
Definition label_hp (version : Z) : string := if decide (version = Version2) then "quicv2 hp" else "quic hp".
Definition label_key (version : Z) : string := if decide (version = Version2) then "quicv2 key" else "quic key".
Definition label_iv (version : Z) : string := if decide (version = Version2) then "quicv2 iv" else "quic iv".

Definition client_secret (h : Header) : bytes :=
  HKDFExpandLabel (hkdf_Extract (h_destConnID h) (salt_of (h_version h))) "client in" 32.
Definition hp_key (h : Header) : bytes := HKDFExpandLabel (client_secret h) (label_hp (h_version h)) 16.
Definition packet_key (h : Header) : bytes := HKDFExpandLabel (client_secret h) (label_key (h_version h)) 16.
Definition packet_iv (h : Header) : bytes := HKDFExpandLabel (client_secret h) (label_iv (h_version h)) 12.

(** The mask over the low bits of the first byte and the four bytes behind the
    header. *)
Definition mask_header (hdrLen : nat) (mask packet : bytes) : bytes :=
  xor_at hdrLen (take 4 (drop 1 mask)) (xor_at 0 [u8 (Z.land (byte_at mask 0) 15)] packet).

(** [uint64(packetNumber)] as eight bytes. *)
Definition packet_number (n : nat) (b : bytes) : bytes := replicate (8 - n) (u8 0) ++ take n b.

(** The payload of the packet, and what the memory behind the slice holds: the
    packet is decrypted in place, so the slice has the rest of the packet as its
    capacity. *)
Definition open_packet (packet : bytes) : result (bytes * bytes) :=
  let? (h, rest) := read_header packet in
  let hdrLen := (length packet - length rest)%nat in
  let packetEnd := (hdrLen + nat_of (h_packetLen h))%nat in
  if decide (length packet < packetEnd)%nat then Err ErrInvalid
  else
    let? (_, rest) := discard 4 rest in
    let? (pnBytes, _) := read_full 16 rest in
    let mask := aes_Encrypt (hp_key h) pnBytes in
    let newPacket := mask_header hdrLen mask packet in
    let packetNumberLength := nat_of (Z.land (byte_at newPacket 0) 3 + 1) in
    if decide (packetEnd < hdrLen + packetNumberLength)%nat then Err ErrInvalid
    else
      let packetNumber := packet_number packetNumberLength (drop hdrLen newPacket) in
      let extHdrLen := (hdrLen + packetNumberLength)%nat in
      let newPacket := take extHdrLen newPacket ++ drop extHdrLen packet in
      let? data := slice extHdrLen packetEnd newPacket in
      let? decrypted := xorNonce_Open (packet_key h) (packet_iv h) packetNumber data (take extHdrLen newPacket) in
      Ok (decrypted, decrypted ++ drop (extHdrLen + length decrypted) newPacket).
End unprotect.

(** ** Frames *)

Record qCryptoFragment := mkFragment { q_offset : Z; q_length : Z; q_payload : bytes }.

(** [n] integers whose values are not used. *)
Fixpoint skip_uvarints (n : nat) : reader () :=
  match n with 0%nat => rret () | S n => let! _ := ReadUvarint in skip_uvarints n end.
(** [for i := 0; i < int(ackRangeCount); i++]: every turn reads two bytes at least. *)
Fixpoint ack_ranges (fuel : nat) (ackRangeCount : Z) : reader () :=
  if decide (ackRangeCount <= 0) then rret ()
  else match fuel with
       | 0%nat => rfail (EPanic "fuel")
       | S fuel => let! _ := skip_uvarints 2 in ack_ranges fuel (ackRangeCount - 1)
       end.
Definition read_ack (frameType : Z) : reader () := λ rest,
  (let! _ := skip_uvarints 2 in
   let! ackRangeCount := ReadUvarint in
   let! _ := skip_uvarints 1 in
   let! _ := ack_ranges (length rest) ackRangeCount in
   if decide (frameType = 3) then skip_uvarints 3 else rret ()) rest.

(** [Seek] succeeds behind the end. *)
Definition seek (n : Z) : reader () := λ rest, Ok ((), drop (Z.to_nat n) rest).

(** A CRYPTO frame: its payload is sliced out of the packet before its length is
    compared with what there is. *)
Definition read_crypto (decrypted backing : bytes) : reader qCryptoFragment :=
  let! offset := ReadUvarint in
  let! length_ := ReadUvarint in
  λ rest,
    let index := (length decrypted - length rest)%nat in
    let? payload := slice index (index + nat_of length_) backing in
    let? (_, rest) := seek length_ rest in
    Ok (mkFragment offset length_ payload, rest).
Definition read_close : reader () := let! _ := skip_uvarints 2 in let! length_ := ReadUvarint in seek length_.

(** One frame: its fragment, if it carries one. *)
Definition read_frame (decrypted backing : bytes) (frameType : Z) : reader (option qCryptoFragment) :=
  if decide (frameType = 0 ∨ frameType = 1) then rret None
  else if decide (frameType = 2 ∨ frameType = 3) then let! _ := read_ack frameType in rret None
  else if decide (frameType = 6) then let! f := read_crypto decrypted backing in rret (Some f)
  else if decide (frameType = 28) then let! _ := read_close in rret None
  else rfail ErrInvalid.

(** The loop: [frameTypeList] and [fragments].  Every turn reads a byte. *)
Fixpoint frames_loop (fuel : nat) (decrypted backing rest : bytes) : result (list Z * list qCryptoFragment) :=
  match rest, fuel with
  | [], _ => Ok ([], [])
  | _, 0%nat => Err (EPanic "fuel")
  | t :: rest, S fuel =>
      let? (f, rest) := read_frame decrypted backing (val t) rest in
      let? (types, fragments) := frames_loop fuel decrypted backing rest in
      Ok (val t :: types, option_list f ++ fragments)
  end.
Definition read_frames (payload : bytes * bytes) : result (list Z * list qCryptoFragment) :=
  frames_loop (length (payload.1)) (payload.1) (payload.2) (payload.1).

(** ** The hello *)

Fixpoint next_fragment (index : Z) (fragments : list qCryptoFragment) : option qCryptoFragment :=
  match fragments with
  | [] => None
  | f :: fragments => if decide (q_offset f = index) then Some f else next_fragment index fragments
  end.
(** The loop [find]: no result when it does not end with this fuel. *)
Fixpoint find_loop (fuel : nat) (fragments : list qCryptoFragment) (index : Z) : option bytes :=
  match fuel with
  | 0%nat => None
  | S fuel =>
      match next_fragment index fragments with
      | Some f => (q_payload f ++.) <$> find_loop fuel fragments (q_offset f + q_length f)
      | None => Some []
      end
  end.
Definition frame_len (fragments : list qCryptoFragment) : Z := foldr (λ f n, q_length f + n) 0 fragments.
Definition hello_record (fragments : list qCryptoFragment) (hello : bytes) : bytes :=
  u8 22 :: be16 771 ++ be16 (frame_len fragments) ++ hello.

(** quic_blacklist.go. *)
Definition isQUICGo (fingerprint : ClientHello) : bool :=
  bool_decide (4588 ∈ ch_EllipticCurves fingerprint) || bool_decide (65281 ∈ ch_Extensions fingerprint).
Definition isZero (l : list Z) : bool := forallb (λ t, bool_decide (t = 0)) l.
Definition count (l : list Z) (value : Z) : nat := length (filter (λ t, t = value) l).
Definition grease (l : list Z) : bool :=
  match l with v :: _ => bool_decide (Z.land v 3855 = 2570) | [] => false end.

(** The body of the loop over [metadata.Client]. *)
Definition looks_like_safari (fingerprint : ClientHello) : bool :=
  bool_decide (length (ch_Versions fingerprint) = 2%nat) && grease (ch_Versions fingerprint)
  && bool_decide (length (ch_EllipticCurves fingerprint) = 5%nat) && grease (ch_EllipticCurves fingerprint)
  || bool_decide (ch_CipherSuites fingerprint = [4866]) && bool_decide (ch_EllipticCurves fingerprint = [29])
     && bool_decide (ch_SignatureAlgorithms fingerprint = [1027]).
Definition client_of (frameTypeList : list Z) (fingerprint : ClientHello) : result string :=
  match frameTypeList with
  | [] => Err (EPanic "index out of range")
  | [_] => Ok "firefox"
  | first :: others =>
      if bool_decide (first = 6) && isZero others && looks_like_safari fingerprint then Ok "safari"
      else if bool_decide (List.last frameTypeList 0 = 6) && isZero (removelast frameTypeList) then Ok "quic-go"
      else if bool_decide (1 < count frameTypeList 6)%nat || bool_decide (0 < count frameTypeList 1)%nat
      then Ok (if isQUICGo fingerprint then "quic-go" else "chromium")
      else Ok "unknown"
  end.

(** What a call does with the metadata, or that it never returns. *)
Definition QuicPeek : Type := InboundContext * option (list qCryptoFragment).
Inductive ending := Returns (md : QuicPeek) (err : option error) | Panics (msg : string) | NeverReturns.

Definition ending_of (md : QuicPeek) (e : error) : ending :=
  match e with EPanic m => Panics m | e => Returns md (Some e) end.

(** What follows the frames. *)
Definition assemble (frameTypeList : list Z) (fragments : list qCryptoFragment) (peek : QuicPeek) : ending :=
  let fragments := fragments ++ default [] (peek.2) in
  match find_loop (S (length fragments)) fragments 0 with
  | None => NeverReturns
  | Some hello =>
      let md := set_Protocol "quic" (peek.1) in
      match Compute_ (hello_record fragments hello) with
      | Err (EPanic m) => Panics m
      | Err e => Returns (md, Some fragments) (Some (ECause ErrNeedMoreData "client hello"))
      | Ok fingerprint =>
          if decide (Client md = "")
          then match client_of frameTypeList fingerprint with
               | Ok client => Returns (set_sniffed "quic" (ch_ServerName fingerprint) client md, None) None
               | Err e => ending_of (md, None) e
               end
          else Returns (set_sniffed "quic" (ch_ServerName fingerprint) (Client md) md, None) None
      end
  end.

Section sniffer.
Context `{QuicCrypto}.

Definition QUICClientHello (packet : bytes) (peek : QuicPeek) : ending :=
  match open_packet packet with
  | Err e => ending_of peek e
  | Ok payload =>
      match read_frames payload with
      | Err e => ending_of peek e
      | Ok (frameTypeList, fragments) => assemble frameTypeList fragments peek
      end
  end.
End sniffer.
