(* ===== verification/QuicFrames.v ===== *)
(** * QUIC frames and their pieces of the hello

    The encoding of variable-length integers and frames (RFC 9000, 16 and 19) as
    a client writes it, and that the detector reads it back; and that pieces of a
    client hello that arrive in any order are put together again. *)
From S2P Require Import Prelude Bytes RuleItems Sniff Detectors Quic.
Open Scope Z_scope.

(** ** Integers *)

(** An integer and the exponent of the number of bytes that hold it. *)
Record varint := mkVarint { v_exp : nat; v_value : Z }.
Definition varint_ok (v : varint) : Prop := (v_exp v < 4)%nat ∧ 0 <= v_value v < 2 ^ (8 * 2 ^ Z.of_nat (v_exp v) - 2).
Fixpoint be_bytes (n : nat) (x : Z) : bytes :=
  match n with 0%nat => [] | S n => u8 (x / 2 ^ (8 * Z.of_nat n)) :: be_bytes n x end.
Definition put_varint (v : varint) : bytes :=
  let n := (2 ^ v_exp v)%nat in
  be_bytes n (Z.of_nat (v_exp v) * 2 ^ (8 * Z.of_nat n - 2) + v_value v).

Lemma first_bits b : Z.land (val b) 63 = val b mod 64 ∧ Z.shiftr (Z.land (val b) 192) 6 = val b / 64.
Proof. destruct b as [[] [] [] [] [] [] [] []]; vm_compute; done. Qed.

(** The four branches, by the first two bits. *)
Lemma read_varint_1 a s : val a / 64 = 0 → ReadUvarint (a :: s) = Ok (val a mod 64, s).
Proof. unfold ReadUvarint, rbind, rret. cbn -[decide val]. by rewrite (proj1 (first_bits a)), (proj2 (first_bits a)) => ->. Qed.
Lemma read_varint_2 a b s : val a / 64 = 1 → ReadUvarint (a :: b :: s) = Ok (val b + val a mod 64 * 2 ^ 8, s).
Proof.
  unfold ReadUvarint, rbind, rret. cbn -[decide val Z.shiftl Z.mul Z.add].
  rewrite (proj1 (first_bits a)), (proj2 (first_bits a)) => ->. by rewrite <-!Z.shiftl_mul_pow2 by lia.
Qed.
Lemma read_varint_4 a b c d s :
  val a / 64 = 2 →
  ReadUvarint (a :: b :: c :: d :: s) = Ok (val d + val c * 2 ^ 8 + val b * 2 ^ 16 + val a mod 64 * 2 ^ 24, s).
Proof.
  unfold ReadUvarint, rbind, rret. cbn -[decide val Z.shiftl Z.mul Z.add].
  rewrite (proj1 (first_bits a)), (proj2 (first_bits a)) => ->. by rewrite <-!Z.shiftl_mul_pow2 by lia.
Qed.
Lemma read_varint_8 a b c d e f g h s :
  val a / 64 = 3 →
  ReadUvarint (a :: b :: c :: d :: e :: f :: g :: h :: s)
  = Ok (val h + val g * 2 ^ 8 + val f * 2 ^ 16 + val e * 2 ^ 24 + val d * 2 ^ 32 + val c * 2 ^ 40 + val b * 2 ^ 48
        + val a mod 64 * 2 ^ 56, s).
Proof.
  unfold ReadUvarint, rbind, rret. cbn -[decide val Z.shiftl Z.mul Z.add].
  rewrite (proj1 (first_bits a)), (proj2 (first_bits a)) => ->. by rewrite <-!Z.shiftl_mul_pow2 by lia.
Qed.

(** The digits of a number in base 256. *)
Lemma digit_step y n m : 0 <= n → m = n + 8 → y mod 2 ^ m = y mod 2 ^ n + y / 2 ^ n mod 256 * 2 ^ n.
Proof.
  intros Hn ->. rewrite Z.pow_add_r by lia. change (2 ^ 8) with 256.
  rewrite Z.rem_mul_r by lia. lia.
Qed.
(** The first byte: the exponent and the top bits of the value. *)
Lemma first_byte k x n : 0 <= n → 0 <= k < 4 → 0 <= x < 2 ^ (n + 6) →
  let b := u8 ((k * 2 ^ (n + 6) + x) / 2 ^ n) in val b / 64 = k ∧ val b mod 64 = x / 2 ^ n.
Proof.
  intros Hn Hk Hx b. rewrite Z.pow_add_r in Hx by lia. change (2 ^ 6) with 64 in Hx.
  assert (0 < 2 ^ n) as Hp by (apply Z.pow_pos_nonneg; lia).
  assert (0 <= x / 2 ^ n < 64) as Hq.
  { split; [apply Z.div_pos; lia|]. apply Z.div_lt_upper_bound; lia. }
  assert (val b = k * 64 + x / 2 ^ n) as ->.
  { unfold b. rewrite Z.pow_add_r by lia. change (2 ^ 6) with 64.
    replace (k * (2 ^ n * 64) + x) with (k * 64 * 2 ^ n + x) by lia. rewrite Z.div_add_l by lia.
    rewrite val_u8, Z.mod_small; lia. }
  Z.to_euclidean_division_equations; lia.
Qed.
(** A byte below the first does not see the exponent. *)
Lemma low_byte k x n m : 0 <= n → n + 8 <= m → val (u8 ((k * 2 ^ m + x) / 2 ^ n)) = x / 2 ^ n mod 256.
Proof.
  intros Hn Hm. rewrite val_u8. replace m with (m - n - 8 + 8 + n) by lia. rewrite !Z.pow_add_r by lia.
  change (2 ^ 8) with 256. replace (k * (2 ^ (m - n - 8) * 256 * 2 ^ n) + x) with (k * 2 ^ (m - n - 8) * 256 * 2 ^ n + x) by lia.
  assert (0 < 2 ^ n) by (apply Z.pow_pos_nonneg; lia).
  rewrite Z.div_add_l by lia. rewrite Z.add_comm, Z.mod_add; lia.
Qed.

Lemma top_digits x n m : 0 <= n <= m → 0 <= x < 2 ^ m → x mod 2 ^ n + x / 2 ^ n * 2 ^ n = x.
Proof. intros Hn Hx. pose proof (Z.div_mod x (2 ^ n)). assert (0 < 2 ^ n) by (apply Z.pow_pos_nonneg; lia). lia. Qed.

Ltac digits x :=
  pose proof (digit_step x 0 8 ltac:(lia) ltac:(lia)); pose proof (digit_step x 8 16 ltac:(lia) ltac:(lia));
  pose proof (digit_step x 16 24 ltac:(lia) ltac:(lia)); pose proof (digit_step x 24 32 ltac:(lia) ltac:(lia));
  pose proof (digit_step x 32 40 ltac:(lia) ltac:(lia)); pose proof (digit_step x 40 48 ltac:(lia) ltac:(lia));
  pose proof (digit_step x 48 56 ltac:(lia) ltac:(lia)).
(** The bytes of an integer, the first of them at bit [n]. *)
Ltac by_digits k x n lemma :=
  let Hexp := fresh in let Htop := fresh in
  destruct (first_byte k x n ltac:(lia) ltac:(lia) ltac:(assumption)) as [Hexp Htop];
  rewrite lemma by exact Hexp; rewrite Htop, ?(low_byte k x _ (n + 6)) by lia;
  pose proof (top_digits x n (n + 6)); do 2 f_equal; lia.

Lemma read_put_varint v s : varint_ok v → ReadUvarint (put_varint v ++ s) = Ok (v_value v, s).
Proof.
  destruct v as [k x]. intros [Hk Hx]. cbn [v_exp v_value] in *.
  assert (x mod 2 ^ 0 = 0) by (simpl; apply Z.mod_1_r). digits x.
  assert (k = 0 ∨ k = 1 ∨ k = 2 ∨ k = 3)%nat as [-> | [-> | [-> | ->]]] by lia.
  - change (0 <= x < 2 ^ (0 + 6)) in Hx. set (y := 0 * 2 ^ (0 + 6) + x).
    change (ReadUvarint ([u8 (y / 2 ^ 0)] ++ s) = Ok (x, s)). subst y. cbn [app].
    by_digits 0 x 0 read_varint_1.
  - change (0 <= x < 2 ^ (8 + 6)) in Hx. set (y := 1 * 2 ^ (8 + 6) + x).
    change (ReadUvarint ([u8 (y / 2 ^ 8); u8 (y / 2 ^ 0)] ++ s) = Ok (x, s)). subst y. cbn [app].
    by_digits 1 x 8 read_varint_2.
  - change (0 <= x < 2 ^ (24 + 6)) in Hx. set (y := 2 * 2 ^ (24 + 6) + x).
    change (ReadUvarint ([u8 (y / 2 ^ 24); u8 (y / 2 ^ 16); u8 (y / 2 ^ 8); u8 (y / 2 ^ 0)] ++ s) = Ok (x, s)).
    subst y. cbn [app]. by_digits 2 x 24 read_varint_4.
  - change (0 <= x < 2 ^ (56 + 6)) in Hx. set (y := 3 * 2 ^ (56 + 6) + x).
    change (ReadUvarint ([u8 (y / 2 ^ 56); u8 (y / 2 ^ 48); u8 (y / 2 ^ 40); u8 (y / 2 ^ 32);
                          u8 (y / 2 ^ 24); u8 (y / 2 ^ 16); u8 (y / 2 ^ 8); u8 (y / 2 ^ 0)] ++ s) = Ok (x, s)).
    subst y. cbn [app]. by_digits 3 x 56 read_varint_8.
Qed.

(** ** Frames *)

Inductive frame :=
| FPadding
| FPing
| FAck (largest delay : varint) (count : nat) (first : varint) (ranges : list (varint * varint)) (ecn : option (varint * varint * varint))
| FCrypto (offset : varint) (len_exp : nat) (data : bytes)
| FClose (code type : varint) (len_exp : nat) (reason : bytes).

Definition varint_length (e n : nat) : varint := mkVarint e (Z.of_nat n).
Definition ecn_counts (ecn : option (varint * varint * varint)) : list varint :=
  match ecn with Some (a, b, c) => [a; b; c] | None => [] end.
Definition put_varints (l : list varint) : bytes := concat (put_varint <$> l).
Definition ranges_of (ranges : list (varint * varint)) : list varint := concat ((λ r, [r.1; r.2]) <$> ranges).

Definition frame_type (f : frame) : Z :=
  match f with
  | FPadding => 0
  | FPing => 1
  | FAck _ _ _ _ _ ecn => match ecn with Some _ => 3 | None => 2 end
  | FCrypto _ _ _ => 6
  | FClose _ _ _ _ => 28
  end.
Definition frame_body (f : frame) : bytes :=
  match f with
  | FPadding | FPing => []
  | FAck largest delay count first ranges ecn =>
      put_varints [largest; delay] ++ put_varint (varint_length count (length ranges)) ++ put_varints [first]
      ++ put_varints (ranges_of ranges) ++ put_varints (ecn_counts ecn)
  | FCrypto offset e data => put_varint offset ++ put_varint (varint_length e (length data)) ++ data
  | FClose code type e reason => put_varints [code; type] ++ put_varint (varint_length e (length reason)) ++ reason
  end.
Definition put_frame (f : frame) : bytes := u8 (frame_type f) :: frame_body f.
Definition put_frames (fs : list frame) : bytes := concat (put_frame <$> fs).

Definition frame_ok (f : frame) : Prop :=
  match f with
  | FPadding | FPing => True
  | FAck largest delay count first ranges ecn =>
      Forall varint_ok (varint_length count (length ranges) :: largest :: delay :: first :: ranges_of ranges ++ ecn_counts ecn)
  | FCrypto offset e data => Forall varint_ok [offset; varint_length e (length data)]
  | FClose code type e reason => Forall varint_ok [code; type; varint_length e (length reason)]
  end.
Definition frame_fragment (f : frame) : option qCryptoFragment :=
  match f with
  | FCrypto offset _ data => Some (mkFragment (v_value offset) (Z.of_nat (length data)) data)
  | _ => None
  end.

Lemma put_varint_nonempty v : (1 <= length (put_varint v))%nat.
Proof.
  assert (∀ n x, length (be_bytes n x) = n) as H by (induction n; simpl; auto).
  unfold put_varint. rewrite H. pose proof (Nat.pow_nonzero 2 (v_exp v)). lia.
Qed.

Lemma read_varints l s : Forall varint_ok l → skip_uvarints (length l) (put_varints l ++ s) = Ok ((), s).
Proof.
  induction 1 as [|v l Hv _ IH]; [done|]. cbn [skip_uvarints length put_varints concat fmap list_fmap].
  rewrite <-app_assoc. rewrite (rbind_step _ _ _ _ _ (read_put_varint _ _ Hv)). exact IH.
Qed.

Lemma read_ranges ranges fuel s : (length ranges <= fuel)%nat → Forall varint_ok (ranges_of ranges) →
  ack_ranges fuel (Z.of_nat (length ranges)) (put_varints (ranges_of ranges) ++ s) = Ok ((), s).
Proof.
  revert fuel. induction ranges as [|[a b] l IH]; intros fuel Hf Hok; [by destruct fuel|].
  destruct fuel as [|fuel]; [simpl in Hf; lia|].
  change (ranges_of ((a, b) :: l)) with ([a; b] ++ ranges_of l) in *.
  apply Forall_app in Hok as [Hab Hok]. cbn [ack_ranges]. rewrite decide_False by (simpl; lia).
  unfold put_varints. rewrite fmap_app, concat_app, <-app_assoc.
  rewrite (rbind_step _ _ _ _ _ (read_varints [a; b] _ Hab)).
  replace (Z.of_nat (length ((a, b) :: l)) - 1) with (Z.of_nat (length l)) by (simpl; lia).
  apply IH; [simpl in Hf; lia|done].
Qed.
Lemma length_put_varints l : (length l <= length (put_varints l))%nat.
Proof.
  induction l as [|v l IH]; [done|]. unfold put_varints in *. cbn [fmap list_fmap concat].
  rewrite length_app. pose proof (put_varint_nonempty v). simpl. lia.
Qed.
Lemma length_ranges_of l : length (ranges_of l) = (2 * length l)%nat.
Proof. induction l as [|r l IH]; [done|]. change (ranges_of (r :: l)) with (r.1 :: r.2 :: ranges_of l). cbn [length]. rewrite IH. lia. Qed.

Lemma read_ack_body largest delay count first ranges ecn s :
  let f := FAck largest delay count first ranges ecn in
  frame_ok f → read_ack (frame_type f) (frame_body f ++ s) = Ok ((), s).
Proof.
  intros f. cbn [f frame_ok frame_body]. rewrite !Forall_cons, Forall_app. intros (Hn & Hl & Hd & H1 & Hr & He).
  unfold read_ack. set (fuel := length (_ ++ s)).
  assert (length ranges <= fuel)%nat as Hfuel.
  { pose proof (length_put_varints (ranges_of ranges)) as Hlen. rewrite length_ranges_of in Hlen.
    subst fuel. rewrite !length_app. lia. }
  rewrite <-!app_assoc. rewrite (rbind_step _ _ _ _ _ (read_varints [largest; delay] _ ltac:(auto using Forall_nil_2, Forall_cons_2))).
  rewrite (rbind_step _ _ _ _ _ (read_put_varint _ _ Hn)).
  rewrite (rbind_step _ _ _ _ _ (read_varints [first] _ ltac:(auto using Forall_nil_2, Forall_cons_2))).
  rewrite (rbind_step _ _ _ _ _ (read_ranges _ _ _ Hfuel Hr)).
  destruct ecn as [[[a b] c]|]; [|done]. exact (read_varints [a; b; c] s He).
Qed.

Lemma read_crypto_body pre offset e data s tail :
  let f := FCrypto offset e data in
  frame_ok f →
  read_crypto (pre ++ frame_body f ++ s) (pre ++ frame_body f ++ s ++ tail) (frame_body f ++ s)
  = Ok (mkFragment (v_value offset) (Z.of_nat (length data)) data, s).
Proof.
  intros f. cbn [f frame_ok frame_body]. rewrite !Forall_cons. intros (Ho & Hn & _).
  unfold read_crypto. set (n := put_varint (varint_length e (length data))) in *.
  set (whole := pre ++ _ ++ s). set (backing := pre ++ _).
  assert (backing = (pre ++ put_varint offset ++ n) ++ data ++ s ++ tail) as Eb by (subst backing; by rewrite <-!app_assoc).
  assert (length whole - length (data ++ s) = length (pre ++ put_varint offset ++ n))%nat as Ei.
  { subst whole. rewrite !length_app. lia. }
  rewrite <-!app_assoc. rewrite (rbind_step _ _ _ _ _ (read_put_varint _ _ Ho)).
  rewrite (rbind_step _ _ _ _ _ (read_put_varint _ _ Hn)). cbn [varint_length v_value].
  unfold nat_of. rewrite Nat2Z.id, Ei, Eb. unfold slice.
  rewrite decide_True by (rewrite !length_app; lia). rewrite Nat.add_sub', drop_app_length, take_app_length.
  unfold seek, result_bind. by rewrite Nat2Z.id, drop_app_length.
Qed.

Lemma read_close_body code type e reason s :
  let f := FClose code type e reason in frame_ok f → read_close (frame_body f ++ s) = Ok ((), s).
Proof.
  intros f. cbn [f frame_ok frame_body]. rewrite !Forall_cons. intros (Hc & Ht & Hn & _).
  unfold read_close. rewrite <-!app_assoc. rewrite (rbind_step _ _ _ _ _ (read_varints [code; type] _ ltac:(auto using Forall_nil_2, Forall_cons_2))).
  rewrite (rbind_step _ _ _ _ _ (read_put_varint _ _ Hn)). unfold seek. cbn. by rewrite Nat2Z.id, drop_app_length.
Qed.

Lemma read_put_frame pre f s tail :
  frame_ok f →
  read_frame (pre ++ frame_body f ++ s) (pre ++ frame_body f ++ s ++ tail) (frame_type f) (frame_body f ++ s)
  = Ok (frame_fragment f, s).
Proof.
  intros Hok. destruct f as [| |? ? ? ? ? ecn| |]; try done.
  - unfold read_frame. rewrite (decide_False (P := frame_type _ = 0 ∨ _)), decide_True by (destruct ecn; naive_solver).
    by rewrite (rbind_step _ _ _ _ _ (read_ack_body _ _ _ _ _ _ _ Hok)).
  - pose proof (read_crypto_body pre _ _ _ s tail Hok) as Hread.
    unfold read_frame. rewrite !decide_False by (simpl; lia). rewrite decide_True by done.
    by rewrite (rbind_step _ _ _ _ _ Hread).
  - pose proof (read_close_body _ _ _ _ s Hok) as Hread.
    unfold read_frame. rewrite !decide_False by (simpl; lia). rewrite decide_True by done.
    by rewrite (rbind_step _ _ _ _ _ Hread).
Qed.

Lemma frames_loop_put fs pre tail fuel :
  (length fs <= fuel)%nat → Forall frame_ok fs →
  frames_loop fuel (pre ++ put_frames fs) (pre ++ put_frames fs ++ tail) (put_frames fs)
  = Ok (frame_type <$> fs, omap frame_fragment fs).
Proof.
  revert pre fuel. induction fs as [|f fs IH]; intros pre fuel Hfuel Hok; [by destruct fuel|].
  apply Forall_cons in Hok as [Hf Hok]. destruct fuel as [|fuel]; [simpl in Hfuel; lia|].
  change (put_frames (f :: fs)) with (u8 (frame_type f) :: frame_body f ++ put_frames fs).
  cbn [frames_loop]. rewrite val_u8_small by (destruct f as [| |? ? ? ? ? []| |]; simpl; lia).
  pose proof (read_put_frame (pre ++ [u8 (frame_type f)]) f (put_frames fs) tail Hf) as Hread.
  specialize (IH (pre ++ u8 (frame_type f) :: frame_body f) fuel ltac:(simpl in Hfuel; lia) Hok).
  rewrite <-!app_assoc in Hread, IH. cbn [app] in *. rewrite <-!app_assoc. rewrite Hread. cbn [result_bind].
  rewrite IH. cbn. by destruct (frame_fragment f).
Qed.

Lemma length_put_frames fs : (length fs <= length (put_frames fs))%nat.
Proof. induction fs as [|f fs IH]; [done|]. change (put_frames (f :: fs)) with (put_frame f ++ put_frames fs). rewrite length_app. simpl. lia. Qed.

(** What a client writes is what the detector reads. *)
Lemma read_put_frames fs tail :
  Forall frame_ok fs → read_frames (put_frames fs, put_frames fs ++ tail) = Ok (frame_type <$> fs, omap frame_fragment fs).
Proof. intros Hok. apply (frames_loop_put fs [] tail); [apply length_put_frames|done]. Qed.
