(* ===== verification/QuicHello.v ===== *)
(** * Putting the client hello together

    The loop [find] of the QUIC detector puts the pieces of a client hello into
    their order, ends unless a piece is empty, and what it returns before all
    pieces are there is no hello yet. *)
From S2P Require Import Prelude Bytes RuleItems Sniff Detectors Quic QuicFrames.
Open Scope Z_scope.

(** ** The loop *)

Lemma next_fragment_Some index l f : next_fragment index l = Some f → f ∈ l ∧ q_offset f = index.
Proof. induction l as [|g l IH]; [done|]. cbn. case_decide; [intros [= <-]; split; [by left|done]|]. intros [??]%IH. split; [by right|done]. Qed.
Lemma next_fragment_None index l f : next_fragment index l = None → f ∈ l → q_offset f ≠ index.
Proof. induction l as [|g l IH]; [set_solver|]. cbn. case_decide; [done|]. intros ? [->|]%elem_of_cons; auto. Qed.

Lemma find_loop_more fuel fuel' l index out : (fuel <= fuel')%nat → find_loop fuel l index = Some out → find_loop fuel' l index = Some out.
Proof.
  revert fuel' index out. induction fuel as [|fuel IH]; intros fuel' index out Hf; [done|].
  destruct fuel' as [|fuel']; [lia|]. cbn. destruct (next_fragment index l) as [f|]; [|done].
  rewrite !fmap_Some. intros (b & Hb & ->). exists b. split; [|done]. eapply IH; [lia|done].
Qed.

(** The fragments at an index or behind it. *)
Definition ahead (index : Z) (l : list qCryptoFragment) : nat := length (filter (λ f, index <= q_offset f) l).
Lemma ahead_le index l : (ahead index l <= length l)%nat.
Proof. apply length_filter. Qed.
Lemma ahead_weaken i j l : i <= j → (ahead j l <= ahead i l)%nat.
Proof.
  intros Hij. unfold ahead. induction l as [|f l IH]; [done|]. rewrite !filter_cons.
  repeat case_decide; simpl; lia.
Qed.
Lemma ahead_lt index f l : f ∈ l → q_offset f = index → 0 < q_length f → (ahead (index + q_length f) l < ahead index l)%nat.
Proof.
  intros Hin Ho Hlen. induction l as [|g l IH]; [set_solver|].
  unfold ahead in *. rewrite !filter_cons. pose proof (ahead_weaken index (index + q_length f) l ltac:(lia)) as Hw. unfold ahead in Hw.
  apply elem_of_cons in Hin as [<-|Hin].
  - rewrite decide_False, decide_True by lia. simpl. lia.
  - specialize (IH Hin). repeat case_decide; simpl; lia.
Qed.
Lemma find_loop_ends fuel l index : Forall (λ f, 0 < q_length f) l → (ahead index l < fuel)%nat → is_Some (find_loop fuel l index).
Proof.
  intros Hl. revert index. induction fuel as [|fuel IH]; intros index Hf; [lia|]. cbn.
  destruct (next_fragment index l) as [f|] eqn:En; [|done]. apply next_fragment_Some in En as [Hin Ho].
  rewrite Forall_forall in Hl. pose proof (Hl f Hin) as Hpos. pose proof (ahead_lt _ _ _ Hin Ho Hpos). rewrite Ho.
  destruct (IH (index + q_length f)) as [b ->]; [lia|]. done.
Qed.

(** An empty fragment that is reached is reached for ever. *)
Lemma find_loop_empty l index f fuel : next_fragment index l = Some f → q_length f = 0 → find_loop fuel l index = None.
Proof.
  intros Hn Hf. pose proof (next_fragment_Some _ _ _ Hn) as [_ Ho].
  induction fuel as [|fuel IH]; [done|]. cbn. by rewrite Hn, Ho, Hf, Z.add_0_r, IH.
Qed.
(** The fuel of the model is enough: when it runs out, the loop never ends. *)
Lemma find_loop_fuel l index fuel : Forall (λ f, 0 <= q_length f) l →
  find_loop (S (length l)) l index = None → find_loop fuel l index = None.
Proof.
  intros Hl Hnone. apply eq_None_not_Some. intros [out Hout].
  assert (find_loop (S (ahead index l)) l index = Some out) as Hahead; last first.
  { apply (find_loop_more _ (S (length l))) in Hahead; [by rewrite Hahead in Hnone|]. pose proof (ahead_le index l). lia. }
  clear Hnone. revert index out Hout. induction fuel as [|fuel IH]; intros index out; [done|]. cbn.
  destruct (next_fragment index l) as [f|] eqn:En; [|done]. rewrite !fmap_Some. intros (b & Hb & ->).
  pose proof (next_fragment_Some _ _ _ En) as [Hin Ho]. rewrite Forall_forall in Hl.
  destruct (decide (q_length f = 0)) as [E|]; [by rewrite Ho, E, Z.add_0_r, (find_loop_empty _ _ _ _ En E) in Hb|].
  assert (ahead (q_offset f + q_length f) l < ahead index l)%nat.
  { rewrite Ho. apply ahead_lt; [done..|]. specialize (Hl f Hin). lia. }
  exists b. split; [|done]. eapply find_loop_more; [|by apply IH]. lia.
Qed.

(** ** The pieces of a hello *)

Fixpoint pieces_at (o : Z) (ps : list bytes) : list qCryptoFragment :=
  match ps with
  | [] => []
  | p :: ps => mkFragment o (Z.of_nat (length p)) p :: pieces_at (o + Z.of_nat (length p)) ps
  end.

Lemma pieces_at_app o ps qs : pieces_at o (ps ++ qs) = pieces_at o ps ++ pieces_at (o + Z.of_nat (length (concat ps))) qs.
Proof.
  revert o. induction ps as [|p ps IH]; intros o; cbn; [by rewrite Z.add_0_r|].
  rewrite IH, length_app. do 3 f_equal. lia.
Qed.
Lemma pieces_at_length o ps : length (pieces_at o ps) = length ps.
Proof. revert o. induction ps as [|p ps IH]; intros o; [done|]. cbn. by rewrite IH. Qed.
Lemma pieces_at_offset o ps f : f ∈ pieces_at o ps → o <= q_offset f.
Proof. revert o. induction ps as [|p ps IH]; intros o; cbn; [set_solver|]. intros [->|Hf]%elem_of_cons; [done|]. apply IH in Hf. lia. Qed.

Definition nonempty (p : bytes) : Prop := (0 < length p)%nat.

Lemma pieces_before o ps f : Forall nonempty ps → f ∈ pieces_at o ps →
  q_offset f < o + Z.of_nat (length (concat ps)) ∧ 0 < q_length f.
Proof.
  intros Hps. revert o. induction Hps as [|p ps Hp _ IH]; intros o; cbn; [set_solver|].
  unfold nonempty in Hp. rewrite length_app.
  intros [->|Hf]%elem_of_cons; cbn; [lia|]. apply IH in Hf. lia.
Qed.
Lemma pieces_unique o ps p qs f : Forall nonempty ps → nonempty p →
  f ∈ pieces_at o (ps ++ p :: qs) → q_offset f = o + Z.of_nat (length (concat ps)) →
  f = mkFragment (o + Z.of_nat (length (concat ps))) (Z.of_nat (length p)) p.
Proof.
  intros Hps Hp. unfold nonempty in Hp. rewrite pieces_at_app. cbn. rewrite elem_of_app, elem_of_cons. intros [Hf|[->|Hf]] Ho; [|done|].
  - apply pieces_before in Hf; [lia|done].
  - apply pieces_at_offset in Hf. lia.
Qed.
Lemma pieces_nodup o ps : Forall nonempty ps → NoDup (pieces_at o ps).
Proof.
  intros Hps. revert o. induction Hps as [|p ps Hp _ IH]; intros o; cbn; constructor; [|apply IH].
  intros Hf%pieces_at_offset. cbn in Hf. unfold nonempty in Hp. lia.
Qed.

(** What the loop returns: the pieces up to the first that is not there. *)
Lemma find_loop_pieces fuel frags out rest : ∀ before,
  Forall nonempty (before ++ rest) → (∀ f, f ∈ frags → f ∈ pieces_at 0 (before ++ rest)) →
  find_loop fuel frags (Z.of_nat (length (concat before))) = Some out →
  ∃ k, (k <= length rest)%nat ∧ out = concat (take k rest) ∧
       (∀ f, f ∈ take k (pieces_at (Z.of_nat (length (concat before))) rest) → f ∈ frags) ∧
       ((k < length rest)%nat → ∃ f, f ∈ pieces_at 0 (before ++ rest) ∧ f ∉ frags).
Proof.
  revert out rest. induction fuel as [|fuel IH]; intros out rest before Hne Hin; [done|]. cbn [find_loop].
  destruct (next_fragment _ frags) as [f|] eqn:En.
  - apply next_fragment_Some in En as [Hf Ho]. destruct rest as [|p rest].
    { rewrite app_nil_r in *. apply Hin, pieces_before in Hf; [lia|done]. }
    pose proof Hne as [Hb [Hp _]%Forall_cons]%Forall_app.
    pose proof (pieces_unique 0 before p rest f Hb Hp (Hin f Hf) Ho) as ->. clear Ho.
    cbn [q_offset q_length q_payload] in *. rewrite fmap_Some. intros (out' & Hloop & ->).
    rewrite (cons_middle p before rest), app_assoc in Hne, Hin.
    destruct (IH out' rest (before ++ [p])) as (k & Hk & -> & Htake & Hmiss); [done..| |].
    { rewrite concat_app, length_app. cbn. rewrite app_nil_r, Nat2Z.inj_add, Z.add_0_l in *. done. }
    exists (S k). rewrite <-app_assoc in Hmiss. split_and!; [simpl; lia|done| |intros ?; apply Hmiss; simpl in *; lia].
    cbn. intros g [->|Hg]%elem_of_cons; [done|]. apply Htake.
    rewrite concat_app, length_app. cbn. by rewrite app_nil_r, Nat2Z.inj_add.
  - intros [= <-]. exists 0%nat. split_and!; [lia|done|set_solver|]. destruct rest as [|p rest]; [simpl; lia|]. intros _.
    eexists. split; [rewrite pieces_at_app; apply elem_of_app; right; left|]. intros Hf.
    eapply next_fragment_None; [exact En|exact Hf|]. cbn. lia.
Qed.

Lemma pieces_present ps frags : Forall nonempty ps → (∀ f, f ∈ frags → f ∈ pieces_at 0 ps) →
  ∃ k, (k <= length ps)%nat ∧ find_loop (S (length frags)) frags 0 = Some (concat (take k ps)) ∧
       (∀ f, f ∈ take k (pieces_at 0 ps) → f ∈ frags) ∧ ((k < length ps)%nat → ∃ f, f ∈ pieces_at 0 ps ∧ f ∉ frags).
Proof.
  intros Hne Hin. destruct (find_loop_ends (S (length frags)) frags 0) as [out Hout].
  - apply Forall_forall. intros f Hf. by apply Hin, pieces_before in Hf as [_ ?].
  - pose proof (ahead_le 0 frags). lia.
  - destruct (find_loop_pieces _ _ _ ps [] Hne Hin Hout) as (k & Hk & -> & Htake & Hmiss). by exists k.
Qed.

(** All pieces, in any order. *)
Lemma pieces_complete ps frags : Forall nonempty ps → frags ≡ₚ pieces_at 0 ps →
  find_loop (S (length frags)) frags 0 = Some (concat ps).
Proof.
  intros Hne Hp. destruct (pieces_present ps frags Hne) as (k & Hk & Hout & _ & Hmiss); [intros f; by rewrite Hp|].
  destruct (decide (k < length ps)%nat) as [Hlt|]; [|by rewrite take_ge in Hout by lia].
  destruct (Hmiss Hlt) as (f & Hf & []). by rewrite Hp.
Qed.

(** Some are missing: a part of the hello, that misses its end. *)
Lemma pieces_missing ps frags missing : Forall nonempty ps → frags ++ missing ≡ₚ pieces_at 0 ps → missing ≠ [] →
  ∃ out rest, find_loop (S (length frags)) frags 0 = Some out ∧ concat ps = out ++ rest ∧ rest ≠ [].
Proof.
  intros Hne Hp Hmissing. destruct (pieces_present ps frags Hne) as (k & Hk & Hout & Htake & Hmiss).
  { intros f Hf. rewrite <-Hp. apply elem_of_app. by left. }
  exists (concat (take k ps)), (concat (drop k ps)). split_and!; [done|by rewrite <-concat_app, take_drop|].
  destruct (decide (k = length ps)) as [->|].
  - exfalso. rewrite take_ge in Htake by (rewrite pieces_at_length; lia).
    assert (length (pieces_at 0 ps) <= length frags)%nat as Hle.
    { apply submseteq_length, NoDup_submseteq; [by apply pieces_nodup|done]. }
    apply Permutation_length in Hp. rewrite length_app in Hp. destruct missing; [done|simpl in Hp; lia].
  - destruct (drop k ps) as [|p l] eqn:Ed.
    + apply (f_equal length) in Ed. rewrite length_drop in Ed. simpl in Ed. lia.
    + rewrite <-(take_drop k ps), Ed, Forall_app, Forall_cons in Hne. destruct Hne as (_ & Hp' & _).
      unfold nonempty in Hp'. destruct p; simpl in *; [lia|done].
Qed.

Lemma frame_len_perm l l' : l ≡ₚ l' → frame_len l = frame_len l'.
Proof. unfold frame_len. induction 1; simpl; lia. Qed.
Lemma frame_len_pieces o ps : frame_len (pieces_at o ps) = Z.of_nat (length (concat ps)).
Proof. revert o. induction ps as [|p ps IH]; intros o; [done|]. cbn. unfold frame_len in IH. rewrite IH, length_app. lia. Qed.

(** ** Parsing what there is *)

(** [h] is no panic. *)
Definition fails {A} (r : result A) : Prop := ∃ e, r = Err e ∧ ∀ m, e ≠ EPanic m.

(** The declared length of a hello is checked, so that nothing shorter parses. *)
Lemma short_hello_fails h q r hello : parseHandshake h = Ok hello → h = q ++ r → r ≠ [] → fails (parseHandshake q).
Proof.
  intros Hh -> Hr. unfold parseHandshake in *. destruct (decide (length (q ++ r) < 39)%nat); [done|].
  destruct (decide (length q < 39)%nat) as [|Hq]; [by eexists|].
  do 4 (destruct q as [|? q]; [simpl in Hq; lia|]). unfold at_ in *. cbn [app lookup list_lookup result_bind] in *.
  destruct (decide (val _ ≠ 1)); [done|]. rewrite decide_True; [by eexists|].
  destruct (decide (Z.of_nat (length (_ :: _) - 4) ≠ _)) as [|Hlen%dec_stable] in Hh; [done|]. rewrite <-Hlen.
  cbn [length]. rewrite length_app. destruct r; [done|simpl; lia].
Qed.

(** A record of a version the parser knows, with the length [n] of its content. *)
Lemma Compute_hello frags q : Compute_ (hello_record frags q) =
  if decide (length q < nat_of (frame_len frags mod 65536))%nat then Err (LengthErr 2)
  else parseHandshake (take (nat_of (frame_len frags mod 65536)) q).
Proof.
  unfold Compute_, parseSegment, hello_record. cbn -[decide slice of_be16 nat_of u8 parseHandshake].
  rewrite !of_be16_be16. set (n := nat_of (frame_len frags mod 65536)). unfold slice.
  rewrite (decide_False (P := (_ < 5)%nat)), (decide_False (P := val _ ≠ _)) by (try lia; vm_compute; tauto).
  change (negb _) with false. cbn [negb]. rewrite Nat.sub_0_r. case_decide; [done|].
  rewrite decide_True by (cbn [length]; lia). cbn [result_bind]. by replace (S _ - 5)%nat with n by lia.
Qed.

(** While a piece is missing, the sniffer asks for more. *)
Lemma assemble_incomplete h hello ps types frags missing peek :
  parseHandshake h = Ok hello → concat ps = h → Forall nonempty ps →
  (frags ++ default [] (peek.2)) ++ missing ≡ₚ pieces_at 0 ps → missing ≠ [] →
  assemble types frags peek
  = Returns (set_Protocol "quic" (peek.1), Some (frags ++ default [] (peek.2))) (Some (ECause ErrNeedMoreData "client hello")).
Proof.
  intros Hh Hps Hne Hp Hmissing. destruct (pieces_missing _ _ _ Hne Hp Hmissing) as (out & rest & Hout & Hsplit & Hrest).
  unfold assemble. rewrite Hout, Compute_hello. case_decide; [done|]. set (n := nat_of _).
  destruct (short_hello_fails h (take n out) (drop n out ++ rest) hello Hh) as (e & -> & He).
  - by rewrite <-Hps, Hsplit, app_assoc, take_drop.
  - intros [_ ?]%app_nil. done.
  - destruct e; try done. by destruct (He msg).
Qed.

(** When all are there, it reads the server name. *)
Lemma assemble_complete h hello ps types frags peek :
  parseHandshake h = Ok hello → concat ps = h → Forall nonempty ps → Z.of_nat (length h) < 65536 →
  frags ++ default [] (peek.2) ≡ₚ pieces_at 0 ps → types ≠ [] →
  ∃ client, assemble types frags peek = Returns (set_sniffed "quic" (ch_ServerName hello) client (peek.1), None) None ∧
    (if decide (Client (peek.1) = "") then client_of types hello = Ok client else client = Client (peek.1)).
Proof.
  intros Hh Hps Hne Hlen Hp Htypes. pose proof (pieces_complete _ _ Hne Hp) as Hout.
  unfold assemble. rewrite Hout, Compute_hello, (frame_len_perm _ _ Hp), frame_len_pieces, Hps.
  rewrite Z.mod_small by lia. unfold nat_of. rewrite Nat2Z.id, decide_False by lia. rewrite take_ge, Hh by lia.
  cbn [set_Protocol set_sniffed Client]. destruct (decide (Client (peek.1) = "")) as [|]; [|by eexists].
  assert (∃ c, client_of types hello = Ok c) as [c Hc]; [|rewrite Hc; by eexists].
  destruct types as [|t [|t' l]]; [done|by eexists|]. unfold client_of. repeat case_match; by eexists.
Qed.

(** ** A hello over several packets *)

Section sniffing.
Context `{QuicCrypto}.

(** The loop of the sniff action: it reads packets while more data is needed. *)
Fixpoint sniff_all (packets : list bytes) (peek : QuicPeek) : option ending :=
  match packets with
  | [] => None
  | packet :: packets =>
      match QUICClientHello packet peek with
      | Returns peek' (Some e) =>
          if errors_Is e ErrNeedMoreData && bool_decide (packets ≠ []) then sniff_all packets peek'
          else Some (Returns peek' (Some e))
      | r => Some r
      end
  end.

(** A packet carries the frames. *)
Definition carries (packet : bytes) (fs : list frame) : Prop :=
  Forall frame_ok fs ∧ ∃ tail, open_packet packet = Ok (put_frames fs, put_frames fs ++ tail).

Lemma QUICClientHello_carries packet fs peek :
  carries packet fs → QUICClientHello packet peek = assemble (frame_type <$> fs) (omap frame_fragment fs) peek.
Proof. intros (Hok & tail & Hopen). unfold QUICClientHello. by rewrite Hopen, read_put_frames. Qed.

Lemma sniff_all_found h hello ps packets packet flights final peek :
  parseHandshake h = Ok hello → concat ps = h → Forall nonempty ps → Z.of_nat (length h) < 65536 →
  Forall2 carries packets flights → carries packet final → omap frame_fragment final ≠ [] →
  omap frame_fragment (concat flights ++ final) ++ default [] (peek.2) ≡ₚ pieces_at 0 ps →
  ∃ client, sniff_all (packets ++ [packet]) peek = Some (Returns (set_sniffed "quic" (ch_ServerName hello) client (peek.1), None) None) ∧
    (if decide (Client (peek.1) = "") then client_of (frame_type <$> final) hello = Ok client else client = Client (peek.1)).
Proof.
  intros Hh Hps Hne Hlen Hflights Hfinal Hlast. revert peek.
  induction Hflights as [|p fs packets flights Hp _ IH]; intros peek Hperm.
  - cbn [app concat] in *. cbn [sniff_all]. rewrite (QUICClientHello_carries _ _ _ Hfinal).
    destruct (assemble_complete h hello ps (frame_type <$> final) (omap frame_fragment final) peek) as (c & -> & Hc); try done.
    + by destruct final.
    + by exists c.
  - cbn [app sniff_all]. rewrite (QUICClientHello_carries _ _ _ Hp). cbn [concat] in Hperm.
    rewrite <-app_assoc, omap_app in Hperm.
    rewrite (assemble_incomplete h hello ps _ _ (omap frame_fragment (concat flights ++ final))); try done.
    + rewrite bool_decide_true by (by destruct packets). cbn [errors_Is andb].
      destruct (IH (set_Protocol "quic" (peek.1), Some (omap frame_fragment fs ++ default [] (peek.2)))) as (c & Hc & Hclient).
      { cbn [snd default]. rewrite <-Hperm. solve_Permutation. }
      exists c. by rewrite Hc.
    + rewrite <-Hperm. solve_Permutation.
    + rewrite omap_app. intros [_ ?]%app_nil. done.
Qed.
End sniffing.
