(* ===== verification/QuicProps.v ===== *)
(** * The QUIC detector reads what a client sends

    The protection of an initial packet as RFC 9001, 5, and RFC 9369 describe it,
    that [open_packet] removes it, and the theorem over all layers: packets,
    frames, pieces of the hello and the hello itself. *)
From S2P Require Import Prelude Bytes RuleItems Sniff Detectors Quic QuicFrames QuicHello.
Open Scope Z_scope.

(** ** Masks *)

Lemma xor_byte_twice a b : xor_byte (xor_byte a b) b = a.
Proof.
  unfold xor_byte. rewrite val_u8. rewrite <-(u8_val a) at 2. unfold u8. do 2 f_equal.
  change 256 with (2 ^ 8). rewrite <-!Z.land_ones by lia. apply Z.bits_inj'. intros i Hi.
  rewrite !Z.land_spec, !Z.lxor_spec, !Z.land_spec, Z.lxor_spec. destruct (Z.testbit (Z.ones 8) i); [|by rewrite !andb_false_r].
  rewrite !andb_true_r. by destruct (Z.testbit (val a) i), (Z.testbit (val b) i).
Qed.
Lemma zip_xor_twice a m : zip_with xor_byte (zip_with xor_byte a m) m = take (length m) a.
Proof. revert m. induction a as [|x a IH]; intros [|y m]; cbn; [done..|]. by rewrite xor_byte_twice, IH. Qed.

Lemma xor_at_app i a b mask : i = length a →
  xor_at i mask (a ++ b) = a ++ zip_with xor_byte (take (length mask) b) mask ++ drop (length mask) b.
Proof.
  intros ->. unfold xor_at. rewrite take_app_length, drop_app_length.
  by rewrite <-drop_drop, drop_app_length.
Qed.

(** The mask over the first byte leaves the bits that the header is parsed by. *)
Definition first_byte_of (packetType : Z) (n : nat) : byte := u8 (192 + 16 * packetType + (Z.of_nat n - 1)).
Lemma masked_first t n m : t = 0 ∨ t = 1 → (1 <= n <= 4)%nat →
  let x := xor_byte (first_byte_of t n) (u8 (Z.land (val m) 15)) in
  Z.land (val x) 64 ≠ 0 ∧ Z.shiftr (Z.land (val x) 48) 4 = t ∧ Z.land (val (first_byte_of t n)) 3 + 1 = Z.of_nat n.
Proof.
  intros Ht Hn. assert (Z.of_nat n = 1 ∨ Z.of_nat n = 2 ∨ Z.of_nat n = 3 ∨ Z.of_nat n = 4) as Hn' by lia.
  unfold first_byte_of. assert (0 <= Z.land (val m) 15 < 16) as Hm.
  { change 15 with (Z.ones 4). rewrite Z.land_ones by lia. apply Z.mod_pos_bound. lia. }
  generalize dependent (Z.land (val m) 15). intros z Hz.
  assert (z ∈ seqZ 0 16) as Hin by (apply elem_of_seqZ; lia). vm_compute in Hin.
  destruct Ht as [-> | ->], Hn' as [-> | [-> | [-> | ->]]];
    repeat (apply elem_of_cons in Hin as [-> | Hin]; [vm_compute; repeat split; done|]); by apply not_elem_of_nil in Hin.
Qed.

(** ** Protecting a packet *)

Record ClientPacket := mkClientPacket {
  cp_version : Z;
  cp_dest : bytes;
  cp_src : bytes;
  cp_token_exp : nat;
  cp_token : bytes;
  cp_len_exp : nat;
  cp_number : bytes;
}.

Section client.
Context `{QuicCrypto} {HL : QuicCryptoLaws}.

Definition cp_type (p : ClientPacket) : Z := if decide (cp_version p = Version2) then 1 else 0.
Definition be32 (z : Z) : bytes := be_bytes 4 z.
Definition cp_length (p : ClientPacket) (text : bytes) : varint :=
  varint_length (cp_len_exp p) (length (cp_number p) + length text + 16).
(** The header behind its first byte, up to the packet number. *)
Definition cp_tail (p : ClientPacket) (text : bytes) : bytes :=
  be32 (cp_version p) ++ [u8 (Z.of_nat (length (cp_dest p)))] ++ cp_dest p ++ [u8 (Z.of_nat (length (cp_src p)))] ++ cp_src p
  ++ put_varint (varint_length (cp_token_exp p) (length (cp_token p))) ++ cp_token p ++ put_varint (cp_length p text).
Definition cp_header (p : ClientPacket) (text : bytes) : Header := mkHeader (cp_version p) (cp_dest p) (v_value (cp_length p text)).
Definition cp_first (p : ClientPacket) : byte := first_byte_of (cp_type p) (length (cp_number p)).

Definition cp_sealed (p : ClientPacket) (text : bytes) : bytes :=
  let h := cp_header p text in
  xorNonce_Seal (packet_key h) (packet_iv h) (packet_number (length (cp_number p)) (cp_number p)) text
    (cp_first p :: cp_tail p text ++ cp_number p).
Definition cp_mask (p : ClientPacket) (text : bytes) : bytes :=
  aes_Encrypt (hp_key (cp_header p text)) (take 16 (drop (4 - length (cp_number p)) (cp_sealed p text))).
Definition protect (p : ClientPacket) (text : bytes) : bytes :=
  let mask := cp_mask p text in
  xor_byte (cp_first p) (u8 (Z.land (byte_at mask 0) 15))
  :: cp_tail p text ++ zip_with xor_byte (cp_number p) (take 4 (drop 1 mask)) ++ cp_sealed p text.

(** What the RFCs demand of the parts; the sample must be there. *)
Definition cp_ok (p : ClientPacket) (text : bytes) : Prop :=
  (cp_version p = VersionDraft29 ∨ cp_version p = Version1 ∨ cp_version p = Version2) ∧
  (1 <= length (cp_dest p) <= 20)%nat ∧ (length (cp_src p) <= 255)%nat ∧
  varint_ok (varint_length (cp_token_exp p) (length (cp_token p))) ∧ varint_ok (cp_length p text) ∧
  (1 <= length (cp_number p) <= 4)%nat ∧ (4 <= length (cp_number p) + length text)%nat.

Lemma be32_of_be32 v : v = VersionDraft29 ∨ v = Version1 ∨ v = Version2 → be32_of (be32 v) = v.
Proof. by intros [-> | [-> | ->]]. Qed.

Lemma discard_app b s n : n = Z.of_nat (length b) → discard n (b ++ s) = Ok ((), s).
Proof. intros ->. unfold discard. rewrite decide_True by (rewrite length_app; lia). by rewrite Nat2Z.id, drop_app_length. Qed.
Lemma rbind_read_byte {A} (k : byte → reader A) b s : rbind read_byte k (b :: s) = k b s.
Proof. done. Qed.
Lemma rbind_guard {A} b e (k : () → reader A) s : b = false → rbind (guard_ b e) k s = k () s.
Proof. by intros ->. Qed.
Lemma read_full_step b s n : n = length b → read_full n (b ++ s) = Ok (b, s).
Proof. intros ->. apply read_full_app. Qed.

Lemma read_header_protect p text first rest : cp_ok p text →
  Z.land (val first) 64 ≠ 0 → Z.shiftr (Z.land (val first) 48) 4 = cp_type p →
  read_header (first :: cp_tail p text ++ rest) = Ok (cp_header p text, rest).
Proof.
  intros (Hv & Hd & Hs & Ht & Hl & Hn & Hsample) H64 H48. unfold read_header, cp_tail.
  rewrite rbind_read_byte, rbind_guard by (by apply bool_decide_false). rewrite <-!app_assoc.
  rewrite (rbind_step _ _ _ _ _ (read_full_step (be32 (cp_version p)) _ 4 eq_refl)), be32_of_be32 by done.
  rewrite rbind_guard by (apply bool_decide_false; tauto). rewrite H48, rbind_guard; last first.
  { unfold bad_packet_type, cp_type. case_decide as E; [by rewrite E|]. rewrite !bool_decide_false by (try lia; tauto). done. }
  cbn [app]. rewrite rbind_read_byte, val_u8_small by lia.
  rewrite rbind_guard by (by rewrite !bool_decide_false by lia).
  unfold nat_of. rewrite Nat2Z.id, (rbind_step _ _ _ _ _ (read_full_app _ _)), rbind_read_byte, val_u8_small by lia.
  rewrite (rbind_step _ _ _ _ _ (discard_app _ _ _ eq_refl)), (rbind_step _ _ _ _ _ (read_put_varint _ _ Ht)).
  cbn [varint_length v_value]. by rewrite (rbind_step _ _ _ _ _ (discard_app _ _ _ eq_refl)), (rbind_step _ _ _ _ _ (read_put_varint _ _ Hl)).
Qed.

Lemma length_sealed p text : length (cp_sealed p text) = (length text + 16)%nat.
Proof using HL. apply length_Seal. Qed.
Lemma length_mask p text : length (cp_mask p text) = 16%nat.
Proof using HL. apply length_Encrypt. Qed.

(** The mask removed again: the first byte, the header, the number, and bytes that
    are put back afterwards. *)
Lemma unmask_protect p text trailing : (1 <= length (cp_number p) <= 4)%nat →
  ∃ junk, mask_header (S (length (cp_tail p text))) (cp_mask p text) (protect p text ++ trailing)
          = (cp_first p :: cp_tail p text ++ cp_number p) ++ junk.
Proof using HL.
  intros Hn. unfold protect, mask_header. set (mask := cp_mask p text). set (m := u8 _). set (m4 := take 4 (drop 1 mask)).
  assert (length m4 = 4%nat) as Hm4.
  { subst m4 mask. rewrite length_take, length_drop, length_mask. done. }
  cbn [app]. change (xor_at 0 [m] (?x :: ?l)) with (xor_byte x m :: l). rewrite xor_byte_twice.
  rewrite <-!app_assoc, app_comm_cons. rewrite xor_at_app by done. rewrite Hm4. clearbody m4.
  set (number := zip_with xor_byte (cp_number p) m4).
  assert (length number = length (cp_number p)) as En by (subst number; rewrite length_zip_with, Hm4; lia).
  rewrite (take_app_ge number) by lia. rewrite zip_with_app_l.
  assert (zip_with xor_byte number (take (length number) m4) = cp_number p) as ->.
  { rewrite zip_with_take_r by done. subst number. rewrite zip_xor_twice, take_ge by lia. done. }
  eexists. cbn [app]. by rewrite <-!app_assoc.
Qed.

Lemma open_packet_protect p text trailing : cp_ok p text →
  ∃ tail, open_packet (protect p text ++ trailing) = Ok (text, text ++ tail).
Proof using HL.
  intros Hok. pose proof Hok as (Hv & Hd & Hs & Ht & Hl & Hn & Hsample).
  set (hdr := S (length (cp_tail p text))). set (n := length (cp_number p)) in *.
  destruct (unmask_protect p text trailing Hn) as [junk Hmask].
  set (mask := cp_mask p text) in *. set (number := zip_with xor_byte (cp_number p) (take 4 (drop 1 mask))).
  assert (length number = n) as En.
  { subst number mask. rewrite length_zip_with, length_take, length_drop, length_mask. lia. }
  destruct (masked_first (cp_type p) n (default (u8 0) (mask !! 0%nat))) as (H64 & H48 & Hlow).
  { unfold cp_type. case_decide; auto. }
  { done. }
  set (packet := protect p text ++ trailing) in *. set (rest := number ++ cp_sealed p text ++ trailing).
  assert (packet = xor_byte (cp_first p) (u8 (Z.land (byte_at mask 0) 15)) :: cp_tail p text ++ rest) as Epacket.
  { subst packet. unfold protect. cbn [app]. by rewrite <-!app_assoc. }
  assert (read_header packet = Ok (cp_header p text, rest)) as Hread.
  { rewrite Epacket. apply read_header_protect; [done| |]; by destruct mask. }
  assert (length packet = hdr + length rest)%nat as Elen by (rewrite Epacket; simpl; rewrite length_app; lia).
  assert (length rest = n + (length text + 16) + length trailing)%nat as Erest.
  { subst rest. rewrite !length_app, length_sealed. lia. }
  assert (take 16 (drop 4 rest) = take 16 (drop (4 - n) (cp_sealed p text))) as Esample.
  { subst rest. rewrite drop_app_ge by lia. rewrite En, drop_app_le by (rewrite length_sealed; lia).
    rewrite take_app_le by (rewrite length_drop, length_sealed; lia). done. }
  assert (drop (hdr + n) packet = cp_sealed p text ++ trailing) as Edrop.
  { rewrite Epacket. subst hdr. cbn [Nat.add drop]. rewrite <-drop_drop, drop_app_length. subst rest.
    by rewrite drop_app_ge, En, Nat.sub_diag by lia. }
  assert (hdr + n = length (cp_first p :: cp_tail p text ++ cp_number p))%nat as Ehdr.
  { unfold hdr, n. cbn [length]. rewrite length_app. lia. }
  clearbody packet rest. clear Epacket number En.
  fold hdr in Hmask. unfold cp_mask in mask. fold n in mask.
  unfold open_packet. rewrite Hread. cbn [result_bind cp_header h_packetLen cp_length varint_length v_value].
  replace (length packet - length rest)%nat with hdr by lia. unfold nat_of. rewrite Nat2Z.id.
  rewrite decide_False by lia. unfold discard, read_full. rewrite decide_True by lia. cbn [result_bind].
  change (Z.to_nat 4) with 4%nat. rewrite decide_True by (rewrite length_drop; lia). cbn [result_bind]. rewrite Esample. fold mask.
  set (ad := cp_first p :: cp_tail p text ++ cp_number p) in *.
  assert (Z.to_nat (Z.land (byte_at (ad ++ junk) 0) 3 + 1) = n) as Elow.
  { change (byte_at (ad ++ junk) 0) with (val (cp_first p)). unfold cp_first. fold n. by rewrite Hlow, Nat2Z.id. }
  assert (∀ x, take (hdr + n) (ad ++ x) = ad) as Etake by (intros x; by rewrite Ehdr, take_app_length).
  assert (packet_number n (drop hdr (ad ++ junk)) = packet_number n (cp_number p)) as Enumber.
  { unfold packet_number. f_equal. unfold ad, hdr. cbn [app drop]. rewrite <-!app_assoc, drop_app_length.
    unfold n. by rewrite take_app_length, take_ge. }
  rewrite Hmask, !Elow, decide_False by lia. rewrite Enumber, !Etake, Edrop. unfold slice.
  rewrite decide_True by (rewrite !length_app, <-Ehdr, length_sealed; lia). cbn [result_bind].
  rewrite (drop_app_length' ad) by done.
  fold n. replace (hdr + (n + length text + 16) - (hdr + n))%nat with (length (cp_sealed p text)) by (rewrite length_sealed; lia).
  rewrite take_app_length. unfold xorNonce_Open, cp_sealed at 1, xorNonce_Seal. fold n ad.
  rewrite Open_Seal. cbn [result_bind]. by eexists.
Qed.

(** A packet of the client: its frames under the protection, and what else is in
    the datagram. *)
Definition sends (packet : bytes) (fs : list frame) : Prop :=
  Forall frame_ok fs ∧
  ∃ p trailing, cp_ok p (put_frames fs) ∧ packet = protect p (put_frames fs) ++ trailing.
Lemma sends_carries packet fs : sends packet fs → carries packet fs.
Proof using HL. intros (Hfs & p & trailing & Hok & ->). split; [done|]. by apply open_packet_protect. Qed.

(** C39: the QUIC sniffer finds the server name of every client that follows the
    RFCs.  Let a client cut its hello [h] into pieces that are not empty, put them
    into CRYPTO frames in any order, with padding, pings, acknowledgements and
    other frames between them, and protect the frames in any number of initial
    packets of one of the three versions, for any connection ids, token and packet
    numbers, possibly with more behind them in the datagram.  If the hello parses,
    then each packet but the last makes the sniffer ask for more, and the last one
    sets the protocol and the name in the hello, and the client by the frames of
    that last packet. *)
Theorem quic_hello_is_found h hello ps packets packet flights final md :
  parseHandshake h = Ok hello → Z.of_nat (length h) < 65536 →
  concat ps = h → Forall nonempty ps →
  Forall2 sends packets flights → sends packet final → omap frame_fragment final ≠ [] →
  omap frame_fragment (concat flights ++ final) ≡ₚ pieces_at 0 ps →
  ∃ client,
    sniff_all (packets ++ [packet]) (md, None)
    = Some (Returns (set_sniffed "quic" (ch_ServerName hello) client md, None) None) ∧
    (if decide (Client md = "") then client_of (frame_type <$> final) hello = Ok client else client = Client md).
Proof using HL.
  intros Hh Hlen Hps Hne Hpackets Hpacket Hlast Hperm.
  apply (sniff_all_found h hello ps packets packet flights final (md, None)); try done.
  - by eapply Forall2_impl; [|apply sends_carries].
  - by apply sends_carries.
  - by rewrite app_nil_r.
Qed.
End client.
