(* ===== verification/QuicSafety.v ===== *)
(** * How the QUIC detector can fail

    What an arbitrary packet can do to the detector: every path returns but for
    three, which the theorem names. *)
From S2P Require Import Prelude Bytes RuleItems Sniff Detectors Quic QuicFrames QuicHello.
Open Scope Z_scope.

(** ** Readers that consume their input *)

Definition consumes {A} (n : nat) (r : reader A) : Prop :=
  ∀ s a s', r s = Ok (a, s') → ∃ b, s = b ++ s' ∧ (n <= length b)%nat.
Definition rsafe {A} (r : reader A) : Prop := ∀ s, safe (r s).

Lemma consumes_ret {A} (a : A) : consumes 0 (rret a).
Proof. intros s ?? [= <- <-]. by exists []. Qed.
Lemma consumes_fail {A} e n : consumes (A := A) n (rfail e).
Proof. done. Qed.
Lemma consumes_bind {A B} n m (r : reader A) (k : A → reader B) :
  consumes n r → (∀ a, consumes m (k a)) → consumes (n + m) (rbind r k).
Proof.
  intros Hr Hk s b s' (a & s1 & H1 & H2)%rbind_ok. apply Hr in H1 as (b1 & -> & ?). apply Hk in H2 as (b2 & -> & ?).
  exists (b1 ++ b2). rewrite app_assoc, length_app. split; [done|lia].
Qed.
Lemma consumes_bind0 {A B} n m (r : reader A) (k : A → reader B) :
  consumes n r → (∀ a, consumes m (k a)) → consumes n (rbind r k).
Proof. intros Hr Hk s b s' H. destruct (consumes_bind n m r k Hr Hk s b s' H) as (l & -> & ?). exists l. split; [done|lia]. Qed.
Lemma consumes_weaken {A} n (r : reader A) : consumes n r → consumes 0 r.
Proof. intros Hr s a s' H. destruct (Hr _ _ _ H) as (b & -> & _). exists b. split; [done|lia]. Qed.
Lemma consumes_if {A} {P} `{Decision P} n (r r' : reader A) : consumes n r → consumes n r' → consumes n (if decide P then r else r').
Proof. by case_decide. Qed.

Lemma rsafe_bind {A B} (r : reader A) (k : A → reader B) : rsafe r → (∀ a, rsafe (k a)) → rsafe (rbind r k).
Proof. intros Hr Hk s. unfold rbind. specialize (Hr s). destruct (r s) as [[a s']|e]; [apply Hk|by destruct e]. Qed.
Lemma rsafe_if {A} {P} `{Decision P} (r r' : reader A) : rsafe r → rsafe r' → rsafe (if decide P then r else r').
Proof. by case_decide. Qed.

Lemma consumes_byte : consumes 1 read_byte.
Proof. intros [|x s] ?? [= <- <-]. by exists [x]. Qed.
Lemma rsafe_byte : rsafe read_byte.
Proof. by intros []. Qed.
Lemma consumes_full n : consumes n (read_full n).
Proof. intros s b s'. unfold read_full. repeat case_decide; try done. intros [= <- <-]. exists (take n s). rewrite take_drop, length_take. split; [done|lia]. Qed.
Lemma rsafe_full n : rsafe (read_full n).
Proof. intros s. unfold read_full. by repeat case_decide. Qed.
Lemma consumes_discard n : consumes (Z.to_nat n) (discard n).
Proof. intros s b s'. unfold discard. case_decide; [|done]. intros [= <- <-]. exists (take (Z.to_nat n) s). rewrite take_drop, length_take. split; [done|lia]. Qed.
Lemma rsafe_discard n : rsafe (discard n).
Proof. intros s. unfold discard. by case_decide. Qed.
Lemma consumes_guard b e : consumes 0 (guard_ b e).
Proof. destruct b; [apply consumes_fail|apply consumes_ret]. Qed.
Lemma rsafe_guard b s : rsafe (guard_ b (ENew s)).
Proof. by destruct b. Qed.

Create HintDb readers discriminated.
#[export] Hint Resolve consumes_ret consumes_fail consumes_byte consumes_full consumes_guard consumes_if rsafe_if rsafe_byte
  rsafe_full rsafe_discard rsafe_guard : readers.
#[export] Hint Resolve consumes_bind0 rsafe_bind : readers.
Ltac reader_step :=
  match goal with
  | |- consumes 0 (rbind _ _) => apply (consumes_bind0 0 0); [|intros ?]
  | |- consumes _ (rbind _ _) => eapply (consumes_bind0 _ 0); [|intros ?]
  | |- consumes _ (if decide _ then _ else _) => apply consumes_if
  | |- consumes 0 read_byte => apply (consumes_weaken 1)
  | |- consumes 0 (read_full _) => eapply consumes_weaken
  | |- consumes 0 (discard _) => eapply consumes_weaken, consumes_discard
  | |- rsafe (rbind _ _) => apply rsafe_bind; [|intros ?]
  | |- rsafe (if decide _ then _ else _) => apply rsafe_if
  | |- rsafe (rret _) => done
  | |- rsafe (rfail _) => done
  | |- _ => solve [eauto with readers]
  end.

Lemma consumes_uvarint : consumes 1 ReadUvarint.
Proof. unfold ReadUvarint. repeat reader_step. Qed.
Lemma rsafe_uvarint : rsafe ReadUvarint.
Proof. unfold ReadUvarint. repeat reader_step. Qed.
#[export] Hint Resolve consumes_uvarint rsafe_uvarint : readers.
#[export] Hint Extern 1 (consumes 0 ReadUvarint) => apply (consumes_weaken 1) : readers.

(** The values are not negative. *)
Lemma uvarint_nonneg s z s' : ReadUvarint s = Ok (z, s') → 0 <= z.
Proof.
  assert (∀ b : byte, 0 <= val b) as Hv by (intros b; apply val_range).
  assert (∀ a b : Z, 0 <= a → 0 <= b → 0 <= Z.shiftl a b) as Hsh by (intros; by apply Z.shiftl_nonneg).
  assert (∀ b : byte, 0 <= Z.land (val b) 63) as Hl by (intros b; apply Z.land_nonneg; lia).
  unfold ReadUvarint. intros (b1 & s1 & H1 & H)%rbind_ok. revert H. case_decide as Hd; clear Hd; [intros [= <- <-]; auto|].
  intros (b2 & s2 & H2 & H)%rbind_ok. revert H. case_decide as Hd; clear Hd; [intros [= <- <-]; auto with zarith|].
  intros (b3 & s3 & H3 & (b4 & s4 & H4 & H)%rbind_ok)%rbind_ok. revert H. case_decide as Hd; clear Hd; [intros [= <- <-]; auto 10 with zarith|].
  intros (b5 & s5 & H5 & (b6 & s6 & H6 & (b7 & s7 & H7 & (b8 & s8 & H8 & [= <- <-])%rbind_ok)%rbind_ok)%rbind_ok)%rbind_ok.
  repeat apply Z.add_nonneg_nonneg; auto with zarith.
Qed.

Lemma consumes_skip n : consumes n (skip_uvarints n).
Proof. induction n as [|n IH]; [apply consumes_ret|]. apply (consumes_bind 1 n); [apply consumes_uvarint|done]. Qed.
Lemma rsafe_skip n : rsafe (skip_uvarints n).
Proof. induction n as [|n IH]; cbn [skip_uvarints]; repeat reader_step. Qed.
#[export] Hint Resolve consumes_skip rsafe_skip : readers.
#[export] Hint Extern 1 (consumes 0 (skip_uvarints _)) => eapply consumes_weaken, consumes_skip : readers.

(** The loop over the ranges has enough fuel. *)
Lemma ack_ranges_safe fuel count s : (length s < fuel)%nat → safe (ack_ranges fuel count s).
Proof.
  revert count s. induction fuel as [|fuel IH]; intros count s Hs; [lia|]. cbn [ack_ranges]. case_decide; [done|].
  unfold rbind. pose proof (rsafe_skip 2 s) as Hsafe. destruct (skip_uvarints 2 s) as [[u s']|e] eqn:E; [|by destruct e].
  apply consumes_skip in E as (b & -> & Hb). rewrite length_app in Hs. apply IH. lia.
Qed.
Lemma consumes_ranges fuel count : consumes 0 (ack_ranges fuel count).
Proof.
  revert count. induction fuel as [|fuel IH]; intros count; cbn [ack_ranges]; case_decide; auto using consumes_ret, consumes_fail.
  repeat reader_step.
Qed.
#[export] Hint Resolve consumes_ranges : readers.

Lemma read_ack_safe t : rsafe (read_ack t).
Proof.
  intros s. unfold read_ack, rbind.
  pose proof (rsafe_skip 2 s) as H1. destruct (skip_uvarints 2 s) as [[u1 s1]|e] eqn:E1; [|by destruct e].
  pose proof (rsafe_uvarint s1) as H2. destruct (ReadUvarint s1) as [[count s2]|e] eqn:E2; [|by destruct e].
  pose proof (rsafe_skip 1 s2) as H3. destruct (skip_uvarints 1 s2) as [[u3 s3]|e] eqn:E3; [|by destruct e].
  apply consumes_skip in E1 as (b1 & -> & L1). apply consumes_uvarint in E2 as (b2 & -> & L2).
  apply consumes_skip in E3 as (b3 & -> & L3).
  assert (safe (ack_ranges (length (b1 ++ b2 ++ b3 ++ s3)) count s3)) as Hr.
  { apply ack_ranges_safe. rewrite !length_app. lia. }
  destruct (ack_ranges _ count s3) as [[u4 s4]|e]; [|by destruct e]. case_decide; [apply rsafe_skip|done].
Qed.
Lemma consumes_ack t : consumes 0 (read_ack t).
Proof.
  intros s a s' H. unfold read_ack in H. generalize dependent (length s). intros fuel. revert s a s'.
  change (consumes 0 (let! _ := skip_uvarints 2 in let! count := ReadUvarint in let! _ := skip_uvarints 1 in
                      let! _ := ack_ranges fuel count in if decide (t = 3) then skip_uvarints 3 else rret ())).
  repeat reader_step.
Qed.
Lemma consumes_seek n : 0 <= n → consumes 0 (seek n).
Proof. intros Hn s a s' [= <- <-]. exists (take (Z.to_nat n) s). split; [by rewrite take_drop|lia]. Qed.
Lemma consumes_close : consumes 0 read_close.
Proof.
  intros s a s' (u & s1 & H1 & (n & s2 & H2 & H3)%rbind_ok)%rbind_ok. pose proof (uvarint_nonneg _ _ _ H2).
  apply consumes_skip in H1 as (b1 & -> & _). apply consumes_uvarint in H2 as (b2 & -> & _).
  apply consumes_seek in H3 as (b3 & -> & _); [|done]. exists (b1 ++ b2 ++ b3). rewrite <-!app_assoc. split; [done|lia].
Qed.
Lemma rsafe_close : rsafe read_close.
Proof. unfold read_close. repeat reader_step. done. Qed.

(** ** Frames *)

(** A CRYPTO frame that declares more bytes than the packet has. *)
Definition oversized (payload : bytes * bytes) : Prop :=
  ∃ pre body offset r1 n rest,
    payload.1 = pre ++ u8 6 :: body ∧ ReadUvarint body = Ok (offset, r1) ∧ ReadUvarint r1 = Ok (n, rest) ∧
    (length (payload.2) < length (payload.1) - length rest + nat_of n)%nat.

Definition well_cut (f : qCryptoFragment) : Prop := 0 <= q_length f.

(** One frame: it panics only on such a frame, and what follows it is what is left. *)
Lemma read_frame_cases pre decrypted backing t rest : decrypted = pre ++ t :: rest → (length decrypted <= length backing)%nat →
  match read_frame decrypted backing (val t) rest with
  | Ok (f, rest') => (∃ b, rest = b ++ rest') ∧ Forall well_cut (option_list f)
  | Err (EPanic _) => oversized (decrypted, backing)
  | Err _ => True
  end.
Proof.
  intros Hd Hlen. unfold read_frame. case_decide; [cbn; split; [by exists []|constructor]|]. case_decide.
  { pose proof (read_ack_safe (val t) rest) as Hsafe. unfold rbind.
    destruct (read_ack (val t) rest) as [[u s]|e] eqn:E; [|by destruct e].
    apply consumes_ack in E as (b & -> & _). cbn. split; [by exists b|constructor]. }
  case_decide as H6.
  - unfold read_crypto, rbind.
    pose proof (rsafe_uvarint rest) as H1. destruct (ReadUvarint rest) as [[offset r1]|e] eqn:E1; [|by destruct e].
    pose proof (rsafe_uvarint r1) as H2. destruct (ReadUvarint r1) as [[n r2]|e] eqn:E2; [|by destruct e].
    pose proof (uvarint_nonneg _ _ _ E2) as Hn. unfold slice. case_decide as Hs; cbn [result_bind].
    + apply consumes_uvarint in E1 as (b1 & -> & _). apply consumes_uvarint in E2 as (b2 & -> & _). cbn.
      split; [|by repeat constructor]. exists (b1 ++ b2 ++ take (Z.to_nat n) r2). by rewrite <-!app_assoc, take_drop.
    + exists pre, rest, offset, r1, n, r2. cbn. rewrite <-H6, u8_val. split_and!; [done..|].
      apply consumes_uvarint in E1 as (b1 & -> & _). apply consumes_uvarint in E2 as (b2 & -> & _). lia.
  - case_decide; [|done]. pose proof (rsafe_close rest) as Hsafe. unfold rbind.
    destruct (read_close rest) as [[u s]|e] eqn:E; [|by destruct e].
    apply consumes_close in E as (b & -> & _). cbn. split; [by exists b|constructor].
Qed.

Lemma frames_loop_cases fuel pre decrypted backing rest :
  decrypted = pre ++ rest → (length decrypted <= length backing)%nat → (length rest <= fuel)%nat →
  match frames_loop fuel decrypted backing rest with
  | Ok (types, frags) => Forall well_cut frags ∧ (types = [] → frags = [])
  | Err (EPanic _) => oversized (decrypted, backing)
  | Err _ => True
  end.
Proof.
  intros Hd Hb. revert pre rest Hd. induction fuel as [|fuel IH]; intros pre rest Hd Hf.
  - destruct rest; [done|simpl in Hf; lia].
  - destruct rest as [|t rest]; [done|]. cbn [frames_loop]. pose proof (read_frame_cases _ _ _ _ _ Hd Hb) as Hframe.
    destruct (read_frame decrypted backing (val t) rest) as [[f rest']|e]; [|by destruct e]. cbn [result_bind].
    destruct Hframe as [[b ->] Hcut].
    specialize (IH (pre ++ t :: b) rest'). rewrite <-app_assoc in IH. specialize (IH Hd).
    simpl in Hf. rewrite length_app in Hf. specialize (IH ltac:(lia)).
    destruct (frames_loop fuel decrypted backing rest') as [[types frags]|e]; [|by destruct e]. cbn.
    destruct IH as [Hw _]. split; [by apply Forall_app|done].
Qed.

(** ** The packet *)

Lemma rsafe_header : rsafe read_header.
Proof. unfold read_header. repeat reader_step. Qed.
Lemma consumes_header : consumes 1 read_header.
Proof. unfold read_header. repeat reader_step. Qed.

Lemma length_xor_at i mask data : (i + length mask <= length data)%nat → length (xor_at i mask data) = length data.
Proof. intros Hi. unfold xor_at. rewrite !length_app, length_take, length_zip_with, length_take, !length_drop. lia. Qed.

Section safety.
Context `{QuicCrypto} {HL : QuicCryptoLaws}.

Lemma length_mask_header n mask packet : (n + 4 <= length packet)%nat → length mask = 16%nat →
  length (mask_header n mask packet) = length packet.
Proof.
  intros Hn Hm. unfold mask_header.
  assert (length (xor_at 0 [u8 (Z.land (byte_at mask 0) 15)] packet) = length packet) as E by (apply length_xor_at; simpl; lia).
  rewrite length_xor_at; [done|]. rewrite E, length_take, length_drop, Hm. simpl. lia.
Qed.

(** Removing the protection does not panic, and the memory behind the payload
    begins with it. *)
Lemma open_packet_cases packet :
  match open_packet packet with
  | Ok payload => ∃ tail, payload.2 = payload.1 ++ tail
  | Err (EPanic _) => False
  | Err _ => True
  end.
Proof using HL.
  unfold open_packet. pose proof (rsafe_header packet) as H1.
  destruct (read_header packet) as [[h rest]|e] eqn:E1; [|by destruct e]. cbn [result_bind].
  apply consumes_header in E1 as (hdr & -> & Hhdr). rewrite length_app, Nat.add_sub. set (packet := hdr ++ rest).
  case_decide as Hend; [done|]. set (packetEnd := (length hdr + _)%nat) in *.
  pose proof (rsafe_discard 4 rest) as H2. destruct (discard 4 rest) as [[u rest1]|e] eqn:E2; [|by destruct e]. cbn [result_bind].
  apply consumes_discard in E2 as (b4 & -> & Hb4). change (Z.to_nat 4) with 4%nat in Hb4.
  pose proof (rsafe_full 16 rest1) as H3. destruct (read_full 16 rest1) as [[pn rest2]|e] eqn:E3; [|by destruct e]. cbn [result_bind].
  set (newPacket := mask_header _ _ packet).
  assert (length newPacket = length packet) as El.
  { apply length_mask_header; [unfold packet; rewrite !length_app; lia|apply length_Encrypt]. }
  set (n := nat_of (_ + 1)). case_decide as Hn; [done|]. set (ext := (length hdr + n)%nat) in *.
  assert (length (take ext newPacket ++ drop ext packet) = length packet) as El'.
  { rewrite length_app, length_take, length_drop, El. unfold packet in *. rewrite length_app in *. lia. }
  unfold slice. rewrite decide_True by (rewrite El'; unfold packet; rewrite length_app; lia). cbn [result_bind].
  unfold xorNonce_Open. destruct (gcm_Open _ _ _ _) as [text|e] eqn:E; cbn [result_bind]; [by eexists|].
  apply Open_error in E as [code ->]. done.
Qed.

(** ** The detector *)

(** What the detector leaves for the next packet: pieces that are no hello yet. *)
Definition pending (peek : QuicPeek) : Prop :=
  match peek.2 with
  | None => True
  | Some l => Forall well_cut l ∧ ∃ hello, find_loop (S (length l)) l 0 = Some hello ∧ fails (Compute_ (hello_record l hello))
  end.

Lemma client_of_ok types hello : types ≠ [] → ∃ client, client_of types hello = Ok client.
Proof. intros Ht. destruct types as [|t [|t' l]]; [done|by eexists|]. unfold client_of. repeat case_match; by eexists. Qed.

(** What follows the frames. *)
Lemma assemble_cases types frags peek : pending peek → Forall well_cut frags → (types = [] → frags = []) →
  let all := frags ++ default [] (peek.2) in
  match assemble types frags peek with
  | Returns peek' _ => pending peek'
  | Panics _ => ∃ hello, find_loop (S (length all)) all 0 = Some hello ∧ has_short_list (hello_record all hello)
  | NeverReturns => (∃ f, f ∈ all ∧ q_length f = 0) ∧ ∀ fuel, find_loop fuel all 0 = None
  end.
Proof.
  intros Hpending Hcut Htypes all. unfold assemble. fold all.
  assert (Forall well_cut all) as Hall.
  { apply Forall_app. split; [done|]. unfold pending in Hpending. by destruct (peek.2) as [l|]; [apply Hpending|constructor]. }
  destruct (find_loop (S (length all)) all 0) as [hello|] eqn:Eloop.
  - pose proof (Compute_panics (hello_record all hello)) as Hp.
    destruct (Compute_ (hello_record all hello)) as [fingerprint|e] eqn:Ec.
    + case_decide; [|done]. destruct (decide (types = [])) as [E|Hne].
      * exfalso. subst all. rewrite (Htypes E) in *. cbn [app] in *. unfold pending in Hpending.
        destruct (peek.2) as [l|]; cbn [default id] in *; [|by injection Eloop as <-; vm_compute in Ec].
        destruct Hpending as (_ & h & Hh & e & He & _). rewrite Eloop in Hh. injection Hh as <-. by rewrite Ec in He.
      * by destruct (client_of_ok types fingerprint Hne) as [client ->].
    + assert ((∀ m, e ≠ EPanic m) → pending (set_Protocol "quic" (peek.1), Some all)) as Hnext.
      { intros He. split; [done|]. exists hello. split; [done|]. by exists e. }
      destruct e; try (by apply Hnext). by exists hello.
  - split; [|intros fuel; by apply find_loop_fuel].
    destruct (decide (Forall (λ f, 0 < q_length f) all)) as [Hpos|Hzero].
    { destruct (find_loop_ends (S (length all)) all 0 Hpos) as [b Hb]; [pose proof (ahead_le 0 all); lia|]. by rewrite Hb in Eloop. }
    apply not_Forall_Exists in Hzero; [|apply _]. apply Exists_exists in Hzero as (f & Hf & Hz). exists f. split; [done|].
    rewrite Forall_forall in Hall. specialize (Hall f Hf). unfold well_cut in Hall. cbn in Hz. lia.
Qed.

(** C40: what a stranger's packet can do to the QUIC sniffer.  Whatever the bytes of
    the packet, and whatever pieces of a hello earlier packets left, the call
    returns, and leaves only well-formed pieces for the next packet, unless the
    packet is authentic and either a CRYPTO frame in it declares more bytes than
    the packet has behind it, which panics; or the hello put together has a
    supported-versions or signature-algorithms extension that declares a longer
    list than it has, which panics; or one of the pieces is empty, in which case
    the loop that looks for the next piece never ends. *)
Theorem quic_sniffer_crashes_only packet peek : pending peek →
  match QUICClientHello packet peek with
  | Returns peek' _ => pending peek'
  | Panics _ =>
      ∃ payload, open_packet packet = Ok payload ∧
        (oversized payload ∨
         ∃ types frags hello, read_frames payload = Ok (types, frags) ∧
           let all := frags ++ default [] (peek.2) in
           find_loop (S (length all)) all 0 = Some hello ∧ has_short_list (hello_record all hello))
  | NeverReturns =>
      ∃ payload types frags, open_packet packet = Ok payload ∧ read_frames payload = Ok (types, frags) ∧
        let all := frags ++ default [] (peek.2) in
        (∃ f, f ∈ all ∧ q_length f = 0) ∧ ∀ fuel, find_loop fuel all 0 = None
  end.
Proof using HL.
  intros Hpending. unfold QUICClientHello. pose proof (open_packet_cases packet) as Hopen.
  destruct (open_packet packet) as [payload|e] eqn:Eo; [|by destruct e]. destruct Hopen as [tail Htail].
  pose proof (frames_loop_cases (length (payload.1)) [] (payload.1) (payload.2) (payload.1) eq_refl) as Hframes.
  rewrite Htail, length_app in Hframes. specialize (Hframes ltac:(lia) ltac:(lia)). rewrite <-Htail in Hframes.
  destruct (read_frames payload) as [[types frags]|e] eqn:Ef; unfold read_frames in Ef; rewrite Ef in Hframes.
  - destruct Hframes as [Hcut Htypes]. pose proof (assemble_cases types frags peek Hpending Hcut Htypes) as Hcases.
    destruct (assemble types frags peek); [done| |naive_solver].
    destruct Hcases as (hello & ? & ?). exists payload. split; [done|]. right. by exists types, frags, hello.
  - destruct e; try done. exists payload. split; [done|]. left. by destruct payload.
Qed.
End safety.
