(* ===== verification/QuicRun.v ===== *)
(** * The QUIC detector on packets

    Witnesses of the theorems about the QUIC detector, and packets on which it
    panics, does not return or never finds the name.  The cipher here leaves the
    text as it is and appends sixteen bytes. *)
From S2P Require Import Prelude Bytes RuleItems Sniff Detectors Quic QuicFrames QuicHello QuicProps QuicSafety.
Open Scope Z_scope.

Module QuicRun.
Definition tag : bytes := replicate 16 (u8 7).
#[export] Instance toy_crypto : QuicCrypto := {|
  hkdf_Extract secret salt := secret;
  hkdf_Expand secret info n := take n (secret ++ info ++ replicate n (u8 0));
  aes_Encrypt key block := take 16 (block ++ replicate 16 (u8 0));
  gcm_Seal key nonce text ad := text ++ tag;
  gcm_Open key nonce data ad := if decide (length data < 16)%nat then Err (EEnv 0) else Ok (take (length data - 16) data);
|}.
#[export] Instance toy_laws : QuicCryptoLaws.
Proof.
  split; cbn [hkdf_Extract hkdf_Expand aes_Encrypt gcm_Seal gcm_Open toy_crypto].
  - intros. rewrite length_take, !length_app, length_replicate. lia.
  - intros. rewrite length_take, length_app, length_replicate. lia.
  - intros. by rewrite length_app.
  - intros. rewrite length_app, decide_False by (simpl; lia). f_equal. replace (length text + length tag - 16)%nat with (length text) by (simpl; lia). by rewrite take_app_length.
  - intros key nonce data ad text. case_decide; [done|]. intros [= <-]. rewrite length_take. lia.
  - intros key nonce data ad e. case_decide; [|done]. intros [= <-]. by exists 0%nat.
Qed.

(** A client hello with the given extensions. *)
Definition extension (ty : Z) (body : bytes) : bytes := be16 ty ++ be16 (Z.of_nat (length body)) ++ body.
Definition sni (name : string) : bytes :=
  let n := string_bytes name in extension 0 (be16 (Z.of_nat (length n) + 3) ++ [u8 0] ++ be16 (Z.of_nat (length n)) ++ n).
Definition client_hello (exts : bytes) : bytes :=
  let body := be16 771 ++ replicate 32 (u8 0) ++ [u8 0] ++ be16 2 ++ be16 4865 ++ [u8 1; u8 0] ++ be16 (Z.of_nat (length exts)) ++ exts in
  [u8 1; u8 0] ++ be16 (Z.of_nat (length body)) ++ body.
Definition h : bytes := client_hello (sni "a.io").
Definition hello : ClientHello := mkClientHello 771 [4865] [0] [] [] [] [] "a.io".
Definition hello_parses : parseHandshake h = Ok hello := eq_refl.

(** Two packets, the end of the hello in the first of them. *)
Definition crypto_frame (offset : nat) (data : bytes) : frame := FCrypto (mkVarint 1 (Z.of_nat offset)) 1 data.
Definition first_frames : list frame := [FPing; crypto_frame 20 (drop 20 h); FPadding; FPadding].
Definition last_frames : list frame := [crypto_frame 0 (take 20 h); FPadding].
Definition packet_with (version : Z) (number : bytes) : ClientPacket :=
  mkClientPacket version (string_bytes "destconn") (string_bytes "src") 0 [] 1 number.
Definition send (version : Z) (number : bytes) (fs : list frame) : bytes := protect (packet_with version number) (put_frames fs).
Definition packet1 : bytes := send Version1 [u8 0] first_frames.
Definition packet2 : bytes := send Version2 [u8 0; u8 1] last_frames ++ string_bytes "more".

Definition md0 : InboundContext :=
  mkInboundContext "" 0 "udp" (mkSocksaddr AddrInvalid 0 "") (mkSocksaddr AddrInvalid 443 "") "" "" "" "" "" [] None 0
    false false false false false false false false.

Lemma sends_send version number fs trailing : Forall frame_ok fs →
  (version = VersionDraft29 ∨ version = Version1 ∨ version = Version2) → (1 <= length number <= 4)%nat →
  (4 <= length number + length (put_frames fs))%nat → Z.of_nat (length (put_frames fs)) < 16000 →
  sends (send version number fs ++ trailing) fs.
Proof.
  intros Hok Hv Hn Hs Hlen. split; [done|]. exists (packet_with version number), trailing. split; [|done].
  repeat split; cbn [packet_with cp_version cp_dest cp_src cp_token cp_token_exp cp_len_exp cp_number cp_length v_exp v_value varint_length];
    try done; try lia; cbn -[put_frames]; lia.
Qed.

Definition frames_okb (fs : list frame) : bool :=
  forallb (λ f, match f with
                | FPadding | FPing => true
                | FCrypto o e data => bool_decide (v_exp o = 1%nat) && bool_decide (0 <= v_value o < 16384)
                                      && bool_decide (e = 1%nat) && bool_decide (Z.of_nat (length data) < 16384)
                | _ => false
                end) fs.
Lemma frames_okb_ok fs : frames_okb fs = true → Forall frame_ok fs.
Proof.
  unfold frames_okb. induction fs as [|f fs IH]; [constructor|]. cbn [forallb]. rewrite andb_true_iff. intros [Hf Hfs].
  constructor; [|by apply IH]. destruct f as [| | |o e data|]; try done. destruct o as [oe ov].
  rewrite !andb_true_iff, !bool_decide_eq_true in Hf. destruct Hf as (((H1 & H2) & H3) & H4). cbn in H1, H2. subst.
  repeat constructor; cbn -[length]; lia.
Qed.

Lemma packet1_sends : sends packet1 first_frames.
Proof.
  rewrite <-(app_nil_r packet1). apply sends_send; [by apply frames_okb_ok|by right; left|cbn; lia| |];
    [apply (bool_decide_unpack _); vm_compute; exact I|by apply Z.ltb_lt].
Qed.
Lemma packet2_sends : sends packet2 last_frames.
Proof.
  apply sends_send; [by apply frames_okb_ok|by right; right|cbn; lia| |];
    [apply (bool_decide_unpack _); vm_compute; exact I|by apply Z.ltb_lt].
Qed.
End QuicRun.
Import QuicRun.

Lemma quic_hello_is_found_witness :
  ∃ client, sniff_all ([packet1] ++ [packet2]) (md0, None)
            = Some (Returns (set_sniffed "quic" "a.io" client md0, None) None) ∧ client_of [6; 0] hello = Ok client.
Proof.
  apply (quic_hello_is_found h hello [take 20 h; drop 20 h] [packet1] packet2 [first_frames] last_frames md0).
  - exact hello_parses.
  - by apply Z.ltb_lt.
  - cbn [concat]. by rewrite app_nil_r, take_drop.
  - repeat constructor; apply (bool_decide_unpack _); vm_compute; exact I.
  - constructor; [apply packet1_sends|constructor].
  - apply packet2_sends.
  - done.
  - apply Permutation_swap.
Defined.

Lemma quic_sniffer_crashes_only_witness :
  pending (md0, None) ∧ match QUICClientHello packet1 (md0, None) with Returns peek' _ => pending peek' | _ => False end.
Proof.
  split; [exact I|].
  pose proof (quic_sniffer_crashes_only packet1 (md0, None) I) as Hcases.
  destruct (QUICClientHello packet1 (md0, None)) eqn:E; [exact Hcases|exfalso; vm_compute in E; discriminate..].
Defined.

(** ** Packets the detector does not survive *)

Definition outcome (fs : list frame) : ending := QUICClientHello (send Version1 [u8 0] fs) (md0, None).

(** An empty CRYPTO frame at the beginning of the hello: the call never returns. *)
Example empty_frame_hangs : outcome [crypto_frame 0 []; FPadding; FPadding] = NeverReturns.
Proof. vm_compute. reflexivity. Qed.

(** A CRYPTO frame that says it has 4096 bytes. *)
Example long_frame_panics :
  QUICClientHello (protect (packet_with Version1 [u8 0]) ([u8 6] ++ put_varint (mkVarint 0 0) ++ put_varint (mkVarint 1 4096))) (md0, None)
  = Panics "slice bounds out of range".
Proof. vm_compute. reflexivity. Qed.

(** A hello with a list of supported versions that says it has two bytes, of none. *)
Example short_list_panics : ∃ m, outcome [crypto_frame 0 (client_hello (extension 43 [u8 2]))] = Panics m.
Proof. eexists. vm_compute. reflexivity. Qed.

(** A piece that is sent again counts twice: the whole hello is there, and the
    sniffer goes on waiting. *)
Example repeated_piece_is_not_found :
  match sniff_all [packet1; packet1; packet2] (md0, None) with
  | Some (Returns (md, _) (Some e)) => errors_Is e ErrNeedMoreData && bool_decide (Domain md = "")
  | _ => false
  end = true.
Proof. vm_compute. reflexivity. Qed.

(** The fingerprint keeps the GREASE values and drops the others: two hellos with
    different ciphers, extensions and curves have the same one. *)
Example fingerprint_ignores_real_values :
  marshalJA3 (mkClientHello 771 [4865] [0; 10] [29] [0] [] [] "")
  = marshalJA3 (mkClientHello 771 [4866; 4867] [43] [23; 24] [0] [] [] "").
Proof. vm_compute. reflexivity. Qed.
