(* ===== verification/Route.v ===== *)
(** * The rule loop of the router

    Model of [matchRule] in route/route.go: the rule loop with the effects of
    its actions on the metadata.  The DNS lookups, the fake-IP store and the
    process searcher of the system are parameters; the rules are those of the
    snapshot the router hands out. *)
From S2P Require Import Prelude Bytes MatchState RuleItems Rules RuleAction HotRules Registry OutboundManager Sniff.

(** Fields of the inner context. *)
Definition with_inbound (tag : string) (c : InboundContext) : InboundContext :=
  mkInboundContext tag (IPVersion c) (Network c) (Source c) (Destination c) (User c) (RuleItems.Outbound c)
    (Protocol c) (Domain c) (Client c) (DestinationAddresses c) (ProcessInfo c) (QueryType c) (IPCIDRMatchSource c)
    (IPCIDRAcceptEmpty c) (SourceAddressMatch c) (SourcePortMatch c) (DestinationAddressMatch c)
    (DestinationPortMatch c) (DidMatch c) (IgnoreDestinationIPCIDRMatch c).
Definition with_network (version : Z) (network : string) (c : InboundContext) : InboundContext :=
  mkInboundContext (Inbound c) version network (Source c) (Destination c) (User c) (RuleItems.Outbound c)
    (Protocol c) (Domain c) (Client c) (DestinationAddresses c) (ProcessInfo c) (QueryType c) (IPCIDRMatchSource c)
    (IPCIDRAcceptEmpty c) (SourceAddressMatch c) (SourcePortMatch c) (DestinationAddressMatch c)
    (DestinationPortMatch c) (DidMatch c) (IgnoreDestinationIPCIDRMatch c).
Definition with_destination (d : Socksaddr) (addresses : list Addr) (domain : string) (process : option ConnectionOwner)
    (c : InboundContext) : InboundContext :=
  mkInboundContext (Inbound c) (IPVersion c) (Network c) (Source c) d (User c) (RuleItems.Outbound c)
    (Protocol c) domain (Client c) addresses process (QueryType c) (IPCIDRMatchSource c)
    (IPCIDRAcceptEmpty c) (SourceAddressMatch c) (SourcePortMatch c) (DestinationAddressMatch c)
    (DestinationPortMatch c) (DidMatch c) (IgnoreDestinationIPCIDRMatch c).

(** The connection behind the metadata: its reads, or none in a pre-match. *)
Inductive Input :=
| StreamInput (reads : list (result bytes))
| PacketInput (reads : list packet_read)
| NoInput.

Section metadata.
Context `{SniffEnv}.

(** The metadata of a connection: the part rules read, and the rest. *)
Record Metadata := mkMetadata {
  ctx : InboundContext;
  memory : SniffMemory;
  InboundDetour : string;
  LastInbound : string;
  OriginDestination : Socksaddr;
  RouteOriginalDestination : Socksaddr;
  FakeIP : bool;
  dial : RuleActionRouteOptions;
}.

Definition set_ctx (c : InboundContext) (m : Metadata) : Metadata :=
  mkMetadata c (memory m) (InboundDetour m) (LastInbound m) (OriginDestination m) (RouteOriginalDestination m) (FakeIP m) (dial m).
Definition set_sniffed (c : InboundContext) (mem : SniffMemory) (m : Metadata) : Metadata :=
  mkMetadata c mem (InboundDetour m) (LastInbound m) (OriginDestination m) (RouteOriginalDestination m) (FakeIP m) (dial m).
Definition set_original (a : Socksaddr) (m : Metadata) : Metadata :=
  mkMetadata (ctx m) (memory m) (InboundDetour m) (LastInbound m) (OriginDestination m) a (FakeIP m) (dial m).
Definition set_dial (d : RuleActionRouteOptions) (m : Metadata) : Metadata :=
  mkMetadata (ctx m) (memory m) (InboundDetour m) (LastInbound m) (OriginDestination m) (RouteOriginalDestination m) (FakeIP m) d.
Definition set_fake (origin : Socksaddr) (c : InboundContext) (m : Metadata) : Metadata :=
  mkMetadata c (memory m) (InboundDetour m) (LastInbound m) origin (RouteOriginalDestination m) true (dial m).
Definition set_detour (c : InboundContext) (last : string) (m : Metadata) : Metadata :=
  mkMetadata c (memory m) "" last (OriginDestination m) (RouteOriginalDestination m) (FakeIP m) (dial m).

End metadata.

(** The code the dispatch calls: the process searcher of the system, if any,
    and the addresses of its interfaces, the fake-IP store (whose lookup may
    miss), the reverse DNS mapping, DNS lookups, the existence of a DNS server,
    and predicates of addresses. *)
Class RouteEnv := {
  processSearcher : option (string → Socksaddr → option Socksaddr → result ConnectionOwner);
  IsLoopback : Addr → bool;
  MyInterfaceAddress : option (list Addr);
  Interfaces : list (list Prefix);
  fakeip : option ((Addr → bool) * (Addr → option string));
  LookupReverseMapping : Addr → option string;
  dns_Lookup : string → string → RuleActionDNSRouteOptions → result (list Addr);
  has_transport : string → bool;
  IsIPv4 : Socksaddr → bool;
  IsDomain : Socksaddr → bool;
}.

Section route.
Context `{RuleEnv} `{ActionEnv} `{SniffEnv} `{RouteEnv} (rt : Runtime).

(** ** Effects of actions *)

(** The block on [routeOptions]. *)
Definition apply_dial (o d : RuleActionRouteOptions) : RuleActionRouteOptions :=
  let nonempty (l old : option (list InterfaceType)) := match l with Some (_ :: _) => l | _ => old end in
  mkRouteOptions (OverrideAddress d) (OverridePort d)
    (match NetworkStrategy o with Some s => Some s | None => NetworkStrategy d end)
    (nonempty (NetworkType o) (NetworkType d)) (nonempty (FallbackNetworkType o) (FallbackNetworkType d))
    (if decide (FallbackDelay o ≠ 0)%Z then FallbackDelay o else FallbackDelay d)
    (UDPDisableDomainUnmapping o || UDPDisableDomainUnmapping d) (UDPConnect o || UDPConnect d)
    (if decide (0 < UDPTimeout o)%Z then UDPTimeout o else UDPTimeout d)
    (TLSFragment o || TLSFragment d)
    (if TLSFragment o then TLSFragmentFallbackDelay o else TLSFragmentFallbackDelay d)
    (TLSRecordFragment o || TLSRecordFragment d).

Definition apply_route_options (o : RuleActionRouteOptions) (m : Metadata) : Metadata :=
  let address := Socksaddr_IsValid (OverrideAddress o) in
  let port := bool_decide (0 < OverridePort o)%Z in
  let c := ctx m in
  let m := if (address || port) && negb (Socksaddr_IsValid (RouteOriginalDestination m))
           then set_original (Destination c) m else m in
  let c := if address
           then with_destination (mkSocksaddr (sa_Addr (OverrideAddress o)) (sa_Port (Destination c)) (sa_Fqdn (OverrideAddress o)))
                                 [] (Domain c) (ProcessInfo c) c
           else c in
  let c := if port
           then with_destination (mkSocksaddr (sa_Addr (Destination c)) (OverridePort o) (sa_Fqdn (Destination c)))
                                 (DestinationAddresses c) (Domain c) (ProcessInfo c) c
           else c in
  set_dial (apply_dial o (dial m)) (set_ctx c m).

(** The route options an action carries into the metadata. *)
Definition route_options (a : RuleAction) : option RuleActionRouteOptions :=
  match a with
  | ActionRoute _ o => Some o
  | ActionRouteOptions o => Some o
  | _ => None
  end.

(** [actionResolve]. *)
Definition actionResolve (server : string) (o : RuleActionDNSRouteOptions) (m : Metadata) : Metadata * option error :=
  let c := ctx m in
  if IsDomain (Destination c) then
    if bool_decide (server ≠ "") && negb (has_transport server) then (m, Some (ENew ("DNS server not found: " +:+ server)))
    else
      match dns_Lookup server (sa_Fqdn (Destination c)) o with
      | Err e => (m, Some e)
      | Ok addresses => (set_ctx (with_destination (Destination c) addresses (Domain c) (ProcessInfo c) c) m, None)
      end
  else (m, None).

(** ** The rule loop *)

Record LoopState := mkLoop {
  meta : Metadata;
  input : Input;
  buffers : list bytes;
  packetBuffers : list PacketBuffer;
}.
Definition set_meta (m : Metadata) (st : LoopState) : LoopState := mkLoop m (input st) (buffers st) (packetBuffers st).

(** [Rule.Action]. *)
Definition rule_action (r : Rule RuleAction) : option RuleAction :=
  match r with DefaultRule d => action d | LogicalRule _ _ _ a => a end.

(** [ResetRuleCache] and [Match], which writes to the metadata. *)
Definition try_match (r : Rule RuleAction) (st : LoopState) : LoopState * bool :=
  let '(c, states) := matchStates rt r (ResetRuleCache (ctx (meta st))) in
  (set_meta (set_ctx c (meta st)) st, negb (StateSet.isEmpty states)).

(** The sniff action outside of a pre-match. *)
Definition run_sniff (a : RuleActionSniff) (st : LoopState) : LoopState * option error :=
  let m := meta st in
  match input st with
  | StreamInput reads =>
      let '(c, mem, buffer, reads) := actionSniff_stream a reads (buffers st) (ctx m) (memory m) in
      (mkLoop (set_sniffed c mem m) (StreamInput reads)
         (match buffer with Some b => buffers st ++ [b] | None => buffers st end) (packetBuffers st), None)
  | PacketInput reads =>
      let '(c, mem, packets, reads, err) := actionSniff_packet a reads (packetBuffers st) (ctx m) (memory m) in
      (mkLoop (set_sniffed c mem m) (PacketInput reads) (buffers st) (packetBuffers st ++ packets), err)
  | NoInput => (st, None)
  end.

(** A matched rule: its effects, and whether it is selected. *)
Definition is_final (supportBypass : bool) (a : RuleAction) : bool :=
  let t := RuleAction_Type a in
  bool_decide (t = RuleActionTypeRoute) || bool_decide (t = RuleActionTypeReject) || bool_decide (t = RuleActionTypeHijackDNS)
  || match a with ActionBypass outbound _ => supportBypass || bool_decide (outbound ≠ "") | _ => false end.

Definition run_action (preMatch supportBypass : bool) (a : RuleAction) (st : LoopState) : LoopState * result bool :=
  let st := match route_options a with Some o => set_meta (apply_route_options o (meta st)) st | None => st end in
  match a with
  | ActionSniff s =>
      if preMatch then (st, Ok (bool_decide (Network (ctx (meta st)) ≠ "icmp")))
      else match run_sniff s st with
           | (st, Some e) => (st, Err e)
           | (st, None) => (st, Ok (is_final supportBypass a))
           end
  | ActionResolve server o =>
      match actionResolve server o (meta st) with
      | (m, Some e) => (set_meta m st, Err e)
      | (m, None) => (set_meta m st, Ok (is_final supportBypass a))
      end
  | _ => (st, Ok (is_final supportBypass a))
  end.

(** One iteration: the state after it, and whether the rule is selected. *)
Definition run_rule (preMatch supportBypass : bool) (r : Rule RuleAction) (st : LoopState) : LoopState * result bool :=
  match try_match r st with
  | (st, false) => (st, Ok false)
  | (st, true) =>
      match rule_action r with
      | None => (st, Err (EPanic "nil pointer dereference"))
      | Some a => run_action preMatch supportBypass a st
      end
  end.

Fixpoint match_loop (preMatch supportBypass : bool) (rules : list (Rule RuleAction)) (i : nat) (st : LoopState)
    : LoopState * result (option (nat * Rule RuleAction)) :=
  match rules with
  | [] => (st, Ok None)
  | r :: rules =>
      match run_rule preMatch supportBypass r st with
      | (st, Err e) => (st, Err e)
      | (st, Ok true) => (st, Ok (Some (i, r)))
      | (st, Ok false) => match_loop preMatch supportBypass rules (S i) st
      end
  end.

(** process_cache.go, [isLocalSource]. *)
Definition isLocalSource (source : Addr) : bool :=
  IsLoopback source
  || match MyInterfaceAddress with Some addresses => bool_decide (source ∈ addresses) | None => false end
  || existsb (existsb (λ prefix, bool_decide (p_ip prefix = source))) Interfaces.

(** [searchProcessInfo]: the process the metadata has afterwards. *)
Definition searchProcessInfo (m : Metadata) : option ConnectionOwner :=
  let c := ctx m in
  match processSearcher, ProcessInfo c with
  | Some find, None =>
      if negb (isLocalSource (sa_Addr (Source c))) then None
      else
        let originDestination :=
          if Socksaddr_IsValid (OriginDestination m) then Some (OriginDestination m)
          else if IsIP (Destination c) then Some (Destination c) else None in
        match find (Network c) (Source c) originDestination with
        | Ok info => Some info
        | Err _ => None
        end
  | _, known => known
  end.

(** The part of [matchRule] before the loop. *)
Definition prepare_metadata (m : Metadata) : result Metadata :=
  let c := ctx m in
  let process := searchProcessInfo m in
  let c := with_destination (Destination c) (DestinationAddresses c) (Domain c) process c in
  let d := Destination c in
  let? m :=
    match (if Addr_IsValid (sa_Addr d) then fakeip else None) with
    | Some (Contains, Lookup) =>
        if Contains (sa_Addr d) then
          match Lookup (sa_Addr d) with
          | None => Err (ENew "missing fakeip record, try enable `experimental.cache_file`")
          | Some domain =>
              Ok (if decide (domain = "") then set_ctx c m
                  else set_fake d (with_destination (mkSocksaddr AddrInvalid (sa_Port d) domain)
                                     (DestinationAddresses c) (Domain c) process c) m)
          end
        else Ok (set_ctx (if decide (Domain c = "") then
                            match LookupReverseMapping (sa_Addr d) with
                            | Some domain => with_destination d (DestinationAddresses c) domain process c
                            | None => c
                            end else c) m)
    | None => Ok (set_ctx (if decide (Domain c = "") then
                             match LookupReverseMapping (sa_Addr d) with
                             | Some domain => with_destination d (DestinationAddresses c) domain process c
                             | None => c
                             end else c) m)
    end in
  let c := ctx m in
  let version := if IsIPv4 (Destination c) then 4%Z else if IsIPv6 (Destination c) then 6%Z else IPVersion c in
  Ok (set_ctx (with_network version (Network c) c) m).

(** [matchRule]: the rules are the objects of the acquired snapshot, which is
    released on every return. *)
Definition matchRule (objects : nat → Rule RuleAction) (preMatch supportBypass : bool) (inp : Input) (m : Metadata)
    (r : Router) : Router * LoopState * result (option (nat * Rule RuleAction)) :=
  match prepare_metadata m with
  | Err e => (r, mkLoop m inp [] [], Err e)
  | Ok m =>
      let '(r, ids, snapshot) := acquireRules r in
      let '(st, selected) := match_loop preMatch supportBypass (objects <$> ids) 0 (mkLoop m inp [] []) in
      (releaseRules snapshot r, st, selected)
  end.
End route.
