(* ===== verification/RouteDispatch.v ===== *)
(** * Route dispatch

    Model of [routeConnection], [routePacketConnection] and [PreMatch] in
    route/route.go: what happens to a connection once its rule is selected.  A
    connection is what its reads will return; the wrappers that put the bytes
    or packets that were read ahead in front of it belong to another library
    and are parameters. *)
From S2P Require Import Prelude Bytes MatchState RuleItems Rules RuleAction HotRules Registry OutboundManager Sniff Route.

Section trackers.
Context `{RuleEnv} `{ActionEnv} `{SniffEnv}.

(** [adapter.ConnectionTracker]: the wrapper it puts around a connection of a
    rule (if any) to an outbound. *)
Definition Tracker (conn : Type) : Type := conn → Metadata → option (Rule RuleAction) → Adapter → conn.

(** [for _, tracker := range r.trackers { conn = tracker.Routed...(...) }] *)
Definition track {conn} (trackers : list (Tracker conn)) (c : conn) (m : Metadata) (rule : option (Rule RuleAction))
    (x : Adapter) : conn :=
  foldl (λ c tracker, tracker c m rule x) c trackers.
End trackers.

(** [bufio.NewCachedConn], [bufio.NewCachedPacketConn] and
    [bufio.NewNATPacketConn], the addresses of retired protocols, and what
    inbounds and outbounds support. *)
Class DispatchEnv := {
  NewCachedConn : list (result bytes) → bytes → list (result bytes);
  NewCachedPacketConn : list packet_read → bytes → Socksaddr → list packet_read;
  NewNATPacketConn : list packet_read → Socksaddr → Socksaddr → list packet_read;
  mux_Destination : string;
  uot_MagicAddress : string;
  uot_LegacyMagicAddress : string;
  networks : Adapter → list string;
  TCPInjectable : Adapter → bool;
  UDPInjectable : Adapter → bool;
  IsDirectRoute : Adapter → bool;
}.

(** sing-vmess/protocol.go, [MuxDestination]. *)
Definition vmess_MuxDestination : string := "v1.mux.cool".

Section dispatch.
Context `{RuleEnv} `{ActionEnv} `{SniffEnv} `{RouteEnv} `{DispatchEnv} (rt : Runtime).
Context {E : Type} `{EndpointManager E} (endpoint : E) (inbounds : Registry) (inbound_endpoints : Registry).
Context (objects : nat → Rule RuleAction).
Context (trackers : list (Tracker (list (result bytes)))) (packet_trackers : list (Tracker (list packet_read))).

(** What becomes of a connection.  A rejection carries the action after it,
    which counts rejections. *)
Inductive Outcome (conn : Type) :=
| Injected (inbound : Adapter) (m : Metadata) (c : conn)
| Routed (outbound : Adapter) (m : Metadata) (c : conn)
| Hijacked (m : Metadata) (c : conn)
| Rejected (action : RuleActionReject) (answer : result rejection)
| Failed (e : error).
Arguments Injected {_}.
Arguments Routed {_}.
Arguments Hijacked {_}.
Arguments Rejected {_}.
Arguments Failed {_}.

(** The branch on [InboundDetour]. *)
Definition inject {conn} (kind : string) (injectable : Adapter → bool) (m : Metadata) (c : conn) : Outcome conn :=
  if decide (LastInbound m = InboundDetour m) then Failed (ENew ("routing loop on detour: " +:+ InboundDetour m))
  else
    match Inbound_Get inbound_endpoints (InboundDetour m) inbounds with
    | None => Failed (ENew ("inbound detour not found: " +:+ InboundDetour m))
    | Some detour =>
        if injectable detour
        then Injected detour (set_detour (with_inbound (InboundDetour m) (ctx m)) (Inbound (ctx m)) m) c
        else Failed (ENew ("inbound detour is not " +:+ kind +:+ " injectable: " +:+ InboundDetour m))
    end.

(** [metadata.Network = ...]. *)
Definition on_network (network : string) (m : Metadata) : Metadata :=
  set_ctx (with_network (IPVersion (ctx m)) network (ctx m)) m.

(** An outbound by tag, and the default one, for a network. *)
Definition find_outbound (network complaint tag : string) (om : OManager) : result Adapter :=
  match Outbound endpoint tag om with
  | None => Err (ENew ("outbound not found: " +:+ tag))
  | Some x => if decide (network ∈ networks x) then Ok x else Err (ENew (complaint +:+ a_Tag x))
  end.
Definition find_default (network complaint : string) (om : OManager) : result Adapter :=
  match Default om with
  | None => Err (EPanic "nil pointer dereference")
  | Some x => if decide (network ∈ networks x) then Ok x else Err (ENew (complaint +:+ a_Tag x))
  end.

(** The switch on the selected action and the default, shared by streams and
    packets: [hijack] and [route] are what is done with the connection.  An
    action with no case leaves the outbound nil. *)
Definition select_outcome {conn} (network name complaint default_complaint : string) (om : OManager) (now : Z)
    (selected : option (nat * Rule RuleAction)) (m : Metadata) (hijack : conn)
    (route : option (Rule RuleAction) → Adapter → conn) : Outcome conn :=
  let go (x : result Adapter) := match x with Ok x => Routed x m (route (snd <$> selected) x) | Err e => Failed e end in
  match selected with
  | None => go (find_default network default_complaint om)
  | Some (_, rule) =>
      match rule_action rule with
      | Some (ActionRoute tag _) => go (find_outbound network complaint tag om)
      | Some (ActionBypass tag _) =>
          if decide (tag = "") then Failed (EPanic "nil pointer dereference")
          else go (find_outbound network complaint tag om)
      | Some (ActionReject a) =>
          if decide (Method a = "reply")
          then Failed (ENew ("reject method `reply` is not supported for " +:+ name +:+ " connections"))
          else let '(a, answer) := Reject_Error now a in Rejected a answer
      | Some ActionHijackDNS => Hijacked m hijack
      | _ => Failed (EPanic "nil pointer dereference")
      end
  end.

(** ** Streams *)

(** What remains to be read of a stream. *)
Definition stream_left (inp : Input) : list (result bytes) := match inp with StreamInput reads => reads | _ => [] end.
Definition packets_left (inp : Input) : list packet_read := match inp with PacketInput reads => reads | _ => [] end.

(** The addresses of protocols that are refused. *)
Definition retired_destination (fqdn : string) : option error :=
  if decide (fqdn = mux_Destination) then
    Some (ENew "global multiplex is deprecated since sing-box v1.7.0, enable multiplex in Inbound fields instead.")
  else if decide (fqdn = vmess_MuxDestination) then
    Some (ENew "global multiplex (v2ray legacy) not supported since sing-box v1.7.0.")
  else if decide (fqdn = uot_MagicAddress) then Some (ENew "global UoT not supported since sing-box v1.7.0.")
  else if decide (fqdn = uot_LegacyMagicAddress) then
    Some (ENew "global UoT (legacy) not supported since sing-box v1.7.0.")
  else None.

(** [for _, buffer := range buffers { conn = bufio.NewCachedConn(conn, buffer) }] *)
Definition cache_buffers (reads : list (result bytes)) (buffers : list bytes) : list (result bytes) :=
  foldl NewCachedConn reads buffers.

(** [routeConnection]; [now] is the time a rejection is counted at. *)
Definition routeConnection (om : OManager) (now : Z) (reads : list (result bytes)) (m : Metadata) (r : Router)
    : Router * Outcome (list (result bytes)) :=
  if decide (InboundDetour m ≠ "") then (r, inject "TCP" TCPInjectable m reads)
  else
    let m := on_network "tcp" m in
    match retired_destination (sa_Fqdn (Destination (ctx m))) with
    | Some e => (r, Failed e)
    | None =>
        match matchRule rt objects false false (StreamInput reads) m r with
        | (r, _, Err e) => (r, Failed e)
        | (r, st, Ok selected) =>
            let conn := cache_buffers (stream_left (input st)) (buffers st) in
            (r, select_outcome "tcp" "TCP" "TCP is not supported by outbound: " "TCP is not supported by default outbound: "
                  om now selected (meta st) conn (track trackers conn (meta st)))
        end
    end.

(** ** Packets *)

Definition cache_packets (reads : list packet_read) (packets : list PacketBuffer) : list packet_read :=
  foldl (λ conn p, NewCachedPacketConn conn (pb_data p) (pb_dest p)) reads packets.

(** What the outbound reads: the cached packets, then the connection, tracked,
    with the destination translated back when it was a fake address. *)
Definition packet_conn (st : LoopState) (rule : option (Rule RuleAction)) (x : Adapter) : list packet_read :=
  let conn := track packet_trackers (cache_packets (packets_left (input st)) (packetBuffers st)) (meta st) rule x in
  if FakeIP (meta st) then NewNATPacketConn conn (OriginDestination (meta st)) (Destination (ctx (meta st))) else conn.

(** [routePacketConnection].  A hijacked connection gets its cached packets in
    a list of their own, in the order they were read. *)
Definition routePacketConnection (om : OManager) (now : Z) (reads : list packet_read) (m : Metadata) (r : Router)
    : Router * Outcome (list PacketBuffer * list packet_read) :=
  if decide (InboundDetour m ≠ "") then (r, inject "UDP" UDPInjectable m ([], reads))
  else
    match matchRule rt objects false false (PacketInput reads) (on_network "udp" m) r with
    | (r, _, Err e) => (r, Failed e)
    | (r, st, Ok selected) =>
        (r, select_outcome "udp" "UDP" "UDP is not supported by outbound: " "UDP is not supported by outbound: "
              om now selected (meta st) (packetBuffers st, packets_left (input st))
              (λ rule x, ([], packet_conn st rule x)))
    end.

(** ** Pre-match *)

(** What a pre-match answers: nothing, a connection the outbound opens itself
    (with the address its answers are rewritten from), a rejection, a bypass at
    the kernel level, or an error. *)
Inductive PreOutcome :=
| PreNothing
| PreDirect (outbound : Adapter) (m : Metadata) (newDestination : option Addr)
| PreRejected (action : RuleActionReject) (answer : result rejection)
| PreBypassed
| PreFailed (e : error).

(** [netip.Addr.Is6]. *)
Definition Addr_Is6 (a : Addr) : bool := match a with Addr6 _ _ => true | _ => false end.

Definition DomainStrategyIPv4Only : Z := 3.
Definition DomainStrategyIPv6Only : Z := 4.

(** The end of [PreMatch]: [outbound.(adapter.DirectRouteOutbound)], and an
    address of the family of the source for a domain. *)
Definition direct_route (outbound : Adapter) (m : Metadata) : PreOutcome :=
  if negb (IsDirectRoute outbound) then PreFailed (EPanic "interface conversion")
  else if negb (IsDomain (Destination (ctx m))) then PreDirect outbound m None
  else
    let v4 := IsIPv4 (Source (ctx m)) in
    let '(m, err) :=
      match DestinationAddresses (ctx m) with
      | [] => actionResolve "" (mkDNSRouteOptions (if v4 then DomainStrategyIPv4Only else DomainStrategyIPv6Only)
                                  false None (prefix_or_zero None)) m
      | _ => (m, None)
      end in
    match err with
    | Some e => PreFailed e
    | None =>
        match List.find (if v4 then Addr_Is4 else Addr_Is6) (DestinationAddresses (ctx m)) with
        | None =>
            PreFailed (ENew ((if v4 then "no IPv4 address found for domain: " else "no IPv6 address found for domain: ")
                             +:+ sa_Fqdn (Destination (ctx m))))
        | Some a =>
            PreDirect outbound (set_ctx (with_destination (mkSocksaddr a 0 "") (DestinationAddresses (ctx m))
                                           (Domain (ctx m)) (ProcessInfo (ctx m)) (ctx m)) m) (Some a)
        end
    end.

(** [PreMatch]; [hasContext] tells whether a route context is given. *)
Definition PreMatch (om : OManager) (now : Z) (hasContext supportBypass : bool) (m : Metadata) (r : Router)
    : Router * PreOutcome :=
  match matchRule rt objects true supportBypass NoInput m r with
  | (r, _, Err e) => (r, PreFailed e)
  | (r, st, Ok selected) =>
      let m := meta st in
      let network := Network (ctx m) in
      let by_tag (tag : string) :=
        if negb hasContext then PreNothing
        else match Outbound endpoint tag om with
             | None => PreFailed (ENew ("outbound not found: " +:+ tag))
             | Some x => if decide (network ∈ networks x) then direct_route x m
                         else PreFailed (ENew (network +:+ " is not supported by outbound: " +:+ tag))
             end in
      (r, match selected with
          | None =>
              if decide (network ≠ "icmp") then PreNothing
              else match find_default network (network +:+ " is not supported by default outbound: ") om with
                   | Err e => PreFailed e
                   | Ok x => direct_route x m
                   end
          | Some (_, rule) =>
              match rule_action rule with
              | Some (ActionReject a) =>
                  if bool_decide (network = "tcp") && bool_decide (Method a = "reply")
                  then PreFailed (ENew "reject method `reply` is not supported for TCP connections")
                  else if bool_decide (network = "udp") && bool_decide (Method a = "reply")
                  then PreFailed (ENew "reject method `reply` is not supported for UDP connections")
                  else let '(a, answer) := Reject_Error now a in PreRejected a answer
              | Some (ActionBypass tag _) => if supportBypass then PreBypassed else by_tag tag
              | Some (ActionRoute tag _) => by_tag tag
              | _ => PreNothing
              end
          end)
  end.
End dispatch.
Arguments Injected {_ _}.
Arguments Routed {_ _}.
Arguments Hijacked {_ _}.
Arguments Rejected {_ _}.
Arguments Failed {_ _}.
