(* ===== verification/RouteProps.v ===== *)
(** * Theorems about route dispatch

    Which outbound a connection reaches, what the outbound reads, and that the
    lease on the rules is returned. *)
From S2P Require Import Prelude Bytes MatchState RuleItems Rules RulesSpec RulesProps RuleAction RuleBuild RuleBuildProps.
From S2P Require Import HotRules Registry OutboundManager Sniff Route RouteDispatch.

(** ** The loop *)

Section loop.
Context `{RuleEnv} `{ActionEnv} `{SniffEnv} `{RouteEnv} (rt : Runtime).

(** Matching writes one flag of the metadata, which the next rule resets. *)
Lemma matchStates_ctx (r : Rule RuleAction) md : ∃ b, (matchStates rt r md).1 = set_DidMatch b md.
Proof.
  unfold matchStates. destruct r as [d|rules mode inv act].
  - destruct (decide (allItems d = [])) as [He|He].
    + exists (DidMatch md). cbn. unfold default_matchStatesWithBase. rewrite He. cbn. by rewrite set_DidMatch_self.
    + rewrite default_rule_result by done. by eexists.
  - exists (DidMatch md). rewrite set_DidMatch_self. cbn. unfold logical_matchStatesWithBase.
    case_decide; [by destruct (logical_and _ _ _ _ _)|by destruct (StateSet.isEmpty _)].
Qed.

Lemma try_match_spec r st : ∃ b,
  try_match rt r st =
    (set_meta (set_ctx (set_DidMatch b (ResetRuleCache (ctx (meta st)))) (meta st)) st,
     Match rt r (ResetRuleCache (ctx (meta st)))).
Proof.
  destruct (matchStates_ctx r (ResetRuleCache (ctx (meta st)))) as [b Hb]. exists b.
  unfold try_match, Match. rewrite <-Hb. by destruct (matchStates _ _ _).
Qed.

Lemma reset_after_match b c : ResetRuleCache (set_DidMatch b (ResetRuleCache c)) = ResetRuleCache c.
Proof. done. Qed.

(** Only sniffing touches the connection. *)
Definition sniffs (r : Rule RuleAction) : bool :=
  match rule_action r with Some (ActionSniff _) => true | _ => false end.

Definition same_io (st st' : LoopState) : Prop :=
  input st' = input st ∧ buffers st' = buffers st ∧ packetBuffers st' = packetBuffers st.

Lemma run_rule_io pre sup r st st' res :
  run_rule rt pre sup r st = (st', res) →
  same_io st st' ∨ (∃ s st1, rule_action r = Some (ActionSniff s) ∧ same_io st st1 ∧ (run_sniff s st1).1 = st').
Proof.
  unfold run_rule. destruct (try_match_spec r st) as [b ->]. destruct (Match _ _ _); [|by intros [= <- _]; left].
  destruct (rule_action r) as [a|] eqn:Ha; [|by intros [= <- _]; left].
  unfold run_action. destruct a; cbn [route_options]; try by (intros [= <- _]; left).
  - destruct pre; [by intros [= <- _]; left|]. destruct (run_sniff s _) as [st2 [e|]] eqn:Hs; intros [= <- _];
      right; eexists s, _; (split; [done|]; split; [|by rewrite Hs]); done.
  - destruct (actionResolve _ _ _) as [m [e|]]; intros [= <- _]; by left.
Qed.

(** *** Streams *)

(** The bytes that reads return; errors, such as an expired deadline, carry none. *)
Definition payload (reads : list (result bytes)) : bytes :=
  concat (omap (λ x, match x with Ok b => Some b | Err _ => None end) reads).

Lemma peek_stream_payload sniffers bufs reads : ∀ i se buf md,
  match peek_stream i se reads bufs buf sniffers md with
  | (_, _, buf', reads') => buf' ++ payload reads' = buf ++ payload reads
  end.
Proof.
  induction reads as [|[data|e] reads IH]; intros i se buf md; cbn [peek_stream]; [done| |done].
  destruct (try_sniffers _ _ _ _ _) as [md' [es|]].
  - destruct (needs_more (Some es)); [|by rewrite <-app_assoc]. specialize (IH (S i) es (buf ++ data) md').
    destruct (peek_stream _ _ _ _ _ _ _) as [[[??]?]?]. by rewrite IH, <-app_assoc.
  - by rewrite <-app_assoc.
Qed.

(** What was read ahead and what is left are what the client sent. *)
Definition conserves (n : nat) (st st' : LoopState) : Prop :=
  ∀ reads, input st = StreamInput reads → ∃ reads', input st' = StreamInput reads' ∧
    concat (buffers st') ++ payload reads' = concat (buffers st) ++ payload reads ∧
    length (buffers st') ≤ n + length (buffers st).

Lemma conserves_io st st' : same_io st st' → conserves 0 st st'.
Proof. intros (Hi & Hb & _) reads Hr. exists reads. by rewrite Hi, Hb. Qed.

Lemma conserves_trans n n' st1 st2 st3 :
  conserves n st1 st2 → conserves n' st2 st3 → conserves (n + n') st1 st3.
Proof.
  intros H12 H23 reads (reads2 & Hi2 & Hp2 & Hl2)%H12. destruct (H23 _ Hi2) as (reads3 & ? & Hp3 & Hl3).
  exists reads3. rewrite Hp3, Hp2. split_and!; [done|done|lia].
Qed.

Lemma run_sniff_conserves s st : conserves 1 st (run_sniff s st).1.
Proof.
  intros reads Hi. unfold run_sniff. rewrite Hi. unfold actionSniff_stream.
  destruct (skips _ _ _ _ _); [exists reads; split_and!; simpl; auto; lia|].
  unfold PeekStream.
  pose proof (peek_stream_payload (if decide (0 < length (StreamSniffers s)) then StreamSniffers s else default_stream)
    (buffers st) reads 0 [] [] (ctx (meta st), mem_SniffContext (memory (meta st)))) as Hp.
  destruct (peek_stream _ _ _ _ _ _ _) as [[[[c x] err] buf] reads'] eqn:Hpk. cbn [fst].
  rewrite app_nil_l in Hp. exists reads'. split; [done|]. destruct buf; cbn [buffers].
  - simpl in Hp. rewrite Hp. split; [done|lia].
  - rewrite concat_app, <-app_assoc, length_app. simpl concat. rewrite app_nil_r, Hp. split; [done|simpl; lia].
Qed.

Lemma match_loop_conserves pre sup rules : ∀ i st,
  conserves (length (filter (λ r, sniffs r = true) rules)) st (match_loop rt pre sup rules i st).1.
Proof.
  induction rules as [|r rules IH]; intros i st; [by apply conserves_io|]. cbn [match_loop]. rewrite filter_cons.
  destruct (run_rule rt pre sup r st) as [st' res] eqn:Hrun.
  assert (conserves (if sniffs r then 1 else 0) st st') as Hc.
  { destruct (run_rule_io _ _ _ _ _ _ Hrun) as [Hio|(s & st1 & Ha & Hio & <-)].
    - intros reads (reads' & ? & ? & ?)%(conserves_io _ _ Hio). exists reads'. destruct (sniffs r); split_and!; auto; lia.
    - unfold sniffs. rewrite Ha. apply (conserves_trans 0 1 _ st1); [by apply conserves_io|apply run_sniff_conserves]. }
  assert (conserves (length (if decide (sniffs r = true) then r :: filter (λ r, sniffs r = true) rules
                             else filter (λ r, sniffs r = true) rules)) st st') as Hmore.
  { intros reads (reads' & ? & ? & ?)%Hc. exists reads'. split_and!; auto.
    case_decide; destruct (sniffs r); simpl in *; try done; lia. }
  destruct res as [[]|e]; [exact Hmore| |exact Hmore]. specialize (IH (S i) st').
  pose proof (conserves_trans _ _ _ _ _ Hc IH) as Hall. case_decide; by destruct (sniffs r).
Qed.

(** *** Packets *)

Definition packets (reads : list packet_read) : list PacketBuffer :=
  omap (λ x, match x with RPacket p => Some p | _ => None end) reads.

Lemma sniff_more_packets a reads : ∀ got md mem,
  match sniff_more a reads got md mem with
  | (_, _, got', reads', _) => got' ++ packets reads' = got ++ packets reads
  end.
Proof.
  induction reads as [|[p| |e|e] reads IH]; intros got md mem; cbn [sniff_more]; try done.
  destruct (peek_next _ _ _ _) as [[md' mem'] err]. destruct (needs_more err); [|by rewrite <-app_assoc].
  specialize (IH (got ++ [p]) md' mem'). destruct (sniff_more _ _ _ _ _) as [[[[??]?]?]?]. by rewrite IH, <-app_assoc.
Qed.

(** Before the first sniff action no packet was read; after it, the packets
    read and those left are the ones the client sent. *)
Lemma first_sniff_packets s st reads :
  input st = PacketInput reads → packetBuffers st = [] →
  ∃ reads', input (run_sniff s st).1 = PacketInput reads' ∧
    packetBuffers (run_sniff s st).1 ++ packets reads' = packets reads.
Proof.
  intros Hi Hb. unfold run_sniff. rewrite Hi, Hb. unfold actionSniff_packet.
  destruct (skips _ _ _ _ _); [by exists reads|]. cbn [sniff_known].
  pose proof (sniff_more_packets s reads [] (ctx (meta st)) (memory (meta st))) as Hp.
  destruct (sniff_more _ _ _ _ _) as [[[[??]?]?]?]. by eexists.
Qed.

Lemma match_loop_no_sniff pre sup rules : ∀ i st,
  filter (λ r, sniffs r = true) rules = [] → same_io st (match_loop rt pre sup rules i st).1.
Proof.
  induction rules as [|r rules IH]; intros i st; [done|]. cbn [match_loop]. rewrite filter_cons.
  case_decide as Hs; [done|]. intros Hf. destruct (run_rule rt pre sup r st) as [st' res] eqn:Hrun.
  destruct (run_rule_io _ _ _ _ _ _ Hrun) as [Hio|(s & st1 & Ha & _)]; [|unfold sniffs in Hs; by rewrite Ha in Hs].
  destruct res as [[]|e]; [exact Hio| |exact Hio].
  destruct (IH (S i) st' Hf) as (Hi & Hb & Hp). destruct Hio as (Hi' & Hb' & Hp').
  split_and!; by etrans.
Qed.

Lemma match_loop_packets pre sup rules : ∀ i st reads,
  length (filter (λ r, sniffs r = true) rules) ≤ 1 → input st = PacketInput reads → packetBuffers st = [] →
  ∃ reads', input (match_loop rt pre sup rules i st).1 = PacketInput reads' ∧
    packetBuffers (match_loop rt pre sup rules i st).1 ++ packets reads' = packets reads.
Proof.
  induction rules as [|r rules IH]; intros i st reads Hn Hi Hb.
  { exists reads. split; [exact Hi|]. cbn. by rewrite Hb. }
  cbn [match_loop]. destruct (run_rule rt pre sup r st) as [st' res] eqn:Hrun.
  destruct (run_rule_io _ _ _ _ _ _ Hrun) as [(Hi' & _ & Hp')|(s & st1 & Ha & (Hi1 & _ & Hp1) & Hs)].
  - rewrite Hi in Hi'. rewrite Hb in Hp'. rewrite filter_cons in Hn.
    destruct res as [[]|e]; [|eapply IH; [|done|done]; case_decide; simpl in Hn; lia|];
      exists reads; cbn [fst]; by rewrite Hi', Hp'.
  - destruct (first_sniff_packets s st1 reads) as (reads' & Hr' & Hp'); [congruence|congruence|]. rewrite Hs in Hr', Hp'.
    destruct res as [[]|e]; [by exists reads'| |by exists reads'].
    rewrite filter_cons, decide_True in Hn by (unfold sniffs; by rewrite Ha).
    destruct (match_loop_no_sniff pre sup rules (S i) st') as (Hi2 & _ & Hp2).
    { apply length_zero_iff_nil. simpl in Hn. lia. }
    exists reads'. by rewrite Hi2, Hp2.
Qed.
End loop.

(** ** What the outbound reads *)

Section dispatch.
Context `{RuleEnv} `{ActionEnv} `{SniffEnv} `{RouteEnv} `{DispatchEnv} (rt : Runtime).
Context {E : Type} `{EndpointManager E} (endpoint : E) (inbounds inbound_endpoints : Registry).
Context (objects : nat → Rule RuleAction).
Context (trackers : list (Tracker (list (result bytes)))) (packet_trackers : list (Tracker (list packet_read))).

(** The rules in force that sniff. *)
Definition sniffing (r : Router) : nat := length (filter (λ x, sniffs x = true) (objects <$> currentRules r)).

Lemma acquired_rules r ls pr : RInv r ls pr → (acquireRules r).1.2 = currentRules r.
Proof.
  intros HI. rewrite (acquire_ensure _ _ _ HI). destruct (ensure_snapshot _ _ _ HI) as (q & sn & Ha & Hsn & _ & Hr & _).
  unfold acquireRules. rewrite Ha. simpl. by rewrite Hsn.
Qed.

(** A match either fails before the rules are acquired, or is the loop over
    the rules in force; the lease is returned. *)
Lemma matchRule_spec pre sup inp m r ls pr :
  RInv r ls pr →
  (∃ e, prepare_metadata m = Err e ∧ matchRule rt objects pre sup inp m r = (r, mkLoop m inp [] [], Err e)) ∨
  (∃ m' r', prepare_metadata m = Ok m' ∧ RInv r' ls pr ∧ matchRule rt objects pre sup inp m r =
    (r', (match_loop rt pre sup (objects <$> currentRules r) 0 (mkLoop m' inp [] [])).1,
         (match_loop rt pre sup (objects <$> currentRules r) 0 (mkLoop m' inp [] [])).2)).
Proof.
  intros HI. unfold matchRule. destruct (prepare_metadata m) as [m'|e]; [right|left; by exists e].
  pose proof (acquired_rules r ls pr HI) as Hcur. pose proof (acquire_inv r ls pr HI) as Hacq.
  destruct (acquireRules r) as [[r1 ids] q]. cbn in Hcur, Hacq. subst ids.
  exists m', (releaseRules q r1). split; [done|]. split; [by apply (release_inv r1 [] q ls pr)|].
  by destruct (match_loop _ _ _ _ _ _).
Qed.

Lemma track_keeps {conn B} (f : conn → B) (ts : list (Tracker conn)) :
  (∀ t c m rule x, t ∈ ts → f (t c m rule x) = f c) → ∀ c m rule x, f (track ts c m rule x) = f c.
Proof.
  unfold track. induction ts as [|t ts IH]; intros Hts c m rule x; [done|]. cbn [foldl].
  rewrite IH by (intros; apply Hts; by right). apply Hts. by left.
Qed.

Lemma cache_buffers_payload :
  (∀ conn b, payload (NewCachedConn conn b) = b ++ payload conn) →
  ∀ bs reads, payload (cache_buffers reads bs) = concat (reverse bs) ++ payload reads.
Proof.
  intros Hlaw bs. unfold cache_buffers. induction bs as [|b bs IH]; intros reads; [done|].
  cbn [foldl]. rewrite IH, Hlaw, reverse_cons, concat_app, <-app_assoc. simpl. by rewrite app_nil_r.
Qed.

Lemma select_routed {conn} network name c1 c2 om now selected m (h : conn) t x m' c :
  select_outcome endpoint network name c1 c2 om now selected m h t = Routed x m' c →
  m' = m ∧ c = t (snd <$> selected) x ∧ network ∈ networks x ∧
  match selected with
  | None => Default om = Some x
  | Some (_, rule) => ∃ tag o, Outbound endpoint tag om = Some x ∧
      (rule_action rule = Some (ActionRoute tag o) ∨ rule_action rule = Some (ActionBypass tag o) ∧ tag ≠ "")
  end.
Proof.
  assert (∀ tag, match find_outbound endpoint network c1 tag om with
                 | Ok y => network ∈ networks y ∧ Outbound endpoint tag om = Some y
                 | Err _ => True end) as Hf.
  { intros tag. unfold find_outbound. destruct (Outbound _ _ _) as [y|]; [|done]. by case_decide. }
  unfold select_outcome. destruct selected as [[i rule]|].
  - destruct (rule_action rule) as [[tag o|tag o| | | | |a| | | |]|]; try done.
    + specialize (Hf tag). destruct (find_outbound _ _ _ _ _); [|done]. intros [= <- <- <-]. naive_solver.
    + case_decide; [done|]. specialize (Hf tag). destruct (find_outbound _ _ _ _ _); [|done].
      intros [= <- <- <-]. naive_solver.
    + case_decide; [done|]. by destruct (Reject_Error _ _).
  - unfold find_default. destruct (Default om) as [y|]; [|done]. case_decide; [|done]. by intros [= <- <- <-].
Qed.

Lemma inject_not_routed {conn} kind ok m (c c' : conn) x m' :
  inject inbounds inbound_endpoints kind ok m c ≠ Routed x m' c'.
Proof. unfold inject. case_decide; [done|]. destruct (Inbound_Get _ _ _) as [y|]; [|done]. by destruct (ok y). Qed.

(** A routed stream went through the loop. *)
Lemma routed_stream om now reads m r ls pr r' x m' conn :
  RInv r ls pr →
  routeConnection rt endpoint inbounds inbound_endpoints objects trackers om now reads m r = (r', Routed x m' conn) →
  ∃ m0 st selected, match_loop rt false false (objects <$> currentRules r) 0 (mkLoop m0 (StreamInput reads) [] []) = (st, Ok selected)
    ∧ let cached := cache_buffers (stream_left (input st)) (buffers st) in
      conn = track trackers cached (meta st) (snd <$> selected) x
    ∧ select_outcome endpoint "tcp" "TCP" "TCP is not supported by outbound: " "TCP is not supported by default outbound: "
        om now selected (meta st) cached (track trackers cached (meta st)) = Routed x m' conn.
Proof.
  intros HI. unfold routeConnection. case_decide; [intros [= _ Hr]; by destruct (inject_not_routed _ _ _ _ _ _ _ Hr)|].
  destruct (retired_destination _); [done|].
  destruct (matchRule_spec false false (StreamInput reads) (on_network "tcp" m) r ls pr HI)
    as [(e & _ & ->)|(m0 & r0 & Hm & _ & ->)]; [done|].
  destruct (match_loop _ _ _ _ _ _) as [st [selected|e]] eqn:Hl; cbn [fst snd]; [|done]. intros [= _ Hsel].
  exists m0, st, selected. destruct (select_routed _ _ _ _ _ _ _ _ _ _ _ _ _ Hsel) as (_ & Hc & _). done.
Qed.

(** C7: a routed stream loses nothing.  Whatever the rules in force read ahead
    of a stream, the outbound reads the bytes the client sent: all of them,
    each once, the parts that sniff actions read ahead last-read-first.  With
    at most one sniff action among the rules in force, and in particular with
    none, the outbound reads exactly what the client sent. *)
Theorem routed_stream_is_intact om now reads m r ls pr r' x m' conn :
  (∀ c b, payload (NewCachedConn c b) = b ++ payload c) →
  (∀ t c m rule x, t ∈ trackers → payload (t c m rule x) = payload c) →
  RInv r ls pr →
  routeConnection rt endpoint inbounds inbound_endpoints objects trackers om now reads m r = (r', Routed x m' conn) →
  (∃ parts rest, length parts ≤ sniffing r ∧
     payload reads = concat parts ++ rest ∧ payload conn = concat (reverse parts) ++ rest) ∧
  (sniffing r ≤ 1 → payload conn = payload reads).
Proof.
  intros Hlaw Htr HI Hr. destruct (routed_stream _ _ _ _ _ _ _ _ _ _ _ HI Hr) as (m0 & st & sel & Hl & -> & _).
  rewrite (track_keeps payload) by done.
  pose proof (match_loop_conserves rt false false (objects <$> currentRules r) 0 (mkLoop m0 (StreamInput reads) [] []))
    as Hc. rewrite Hl in Hc. destruct (Hc reads eq_refl) as (left & Hi & Hp & Hn). cbn in Hi, Hp, Hn.
  rewrite Hi, (cache_buffers_payload Hlaw). cbn [stream_left]. rewrite Nat.add_0_r in Hn.
  split; [by exists (buffers st), (payload left)|]. intros Hone. rewrite <-Hp. f_equal.
  destruct (buffers st) as [|b [|b' bs]]; [done|done|]. unfold sniffing in Hone. simpl in Hn. lia.
Qed.

(** A routed packet connection went through the loop. *)
Lemma routed_packets om now reads m r ls pr r' x m' conn :
  RInv r ls pr →
  routePacketConnection rt endpoint inbounds inbound_endpoints objects packet_trackers om now reads m r = (r', Routed x m' conn) →
  ∃ m0 st selected, match_loop rt false false (objects <$> currentRules r) 0 (mkLoop m0 (PacketInput reads) [] []) = (st, Ok selected)
    ∧ m' = meta st ∧ conn = ([], packet_conn packet_trackers st (snd <$> selected) x).
Proof.
  intros HI. unfold routePacketConnection.
  case_decide; [intros [= _ Hr]; by destruct (inject_not_routed _ _ _ _ _ _ _ Hr)|].
  destruct (matchRule_spec false false (PacketInput reads) (on_network "udp" m) r ls pr HI)
    as [(e & _ & ->)|(m0 & r0 & Hm & _ & ->)]; [done|].
  destruct (match_loop _ _ _ _ _ _) as [st [selected|e]] eqn:Hl; cbn [fst snd]; [|done]. intros [= _ Hsel].
  exists m0, st, selected. destruct (select_routed _ _ _ _ _ _ _ _ _ _ _ _ _ Hsel) as (-> & -> & _). done.
Qed.

Lemma cache_packets_spec :
  (∀ c b d, packets (NewCachedPacketConn c b d) = mkPacketBuffer b d :: packets c) →
  ∀ ps reads, packets (cache_packets reads ps) = reverse ps ++ packets reads.
Proof.
  intros Hlaw ps. unfold cache_packets. induction ps as [|[b d] ps IH]; intros reads; [done|].
  cbn [foldl]. rewrite IH, Hlaw, reverse_cons, <-app_assoc. done.
Qed.

(** routed packets.  With at most one sniff action among the rules in
    force, the outbound of a packet connection whose destination was no fake
    address reads the packets the client sent, each once: first those that were
    read ahead, last-read-first, then the others in order. *)
Lemma routed_packets_are_kept om now reads m r ls pr r' x m' cached conn :
  (∀ c b d, packets (NewCachedPacketConn c b d) = mkPacketBuffer b d :: packets c) →
  (∀ t c m rule x, t ∈ packet_trackers → packets (t c m rule x) = packets c) →
  RInv r ls pr → sniffing r ≤ 1 →
  routePacketConnection rt endpoint inbounds inbound_endpoints objects packet_trackers om now reads m r = (r', Routed x m' (cached, conn)) →
  FakeIP m' = false →
  cached = [] ∧ ∃ ahead rest, packets reads = ahead ++ rest ∧ packets conn = reverse ahead ++ rest.
Proof.
  intros Hlaw Htr HI Hn Hr Hfake. destruct (routed_packets _ _ _ _ _ _ _ _ _ _ _ HI Hr) as (m0 & st & sel & Hl & -> & [= -> ->]).
  split; [done|]. unfold packet_conn. rewrite Hfake, (track_keeps packets), (cache_packets_spec Hlaw) by done.
  destruct (match_loop_packets rt false false (objects <$> currentRules r) 0 (mkLoop m0 (PacketInput reads) [] []) reads)
    as (left & Hi & Hp); [exact Hn|done|done|]. rewrite Hl in Hi, Hp. cbn in Hi, Hp.
  exists (packetBuffers st), (packets left). by rewrite Hi.
Qed.

(** ** Which outbound a user reaches *)

(** The rule of a user route: inbounds, users and the options of the action. *)
Definition user_rule (s : list string * list string * RuleActionOptions) (rule : Rule RuleAction) : Prop :=
  ao_Action s.2 = "route" ∧ ∃ d, NewDefaultRule (user_route s.1.1 s.1.2 false s.2) = Ok d ∧ rule = DefaultRule d.
Definition admitted (inbound user : string) (s : list string * list string * RuleActionOptions) : Prop :=
  admits s.1.1 inbound && admits s.1.2 user = true.
#[local] Instance admitted_dec inbound user s : Decision (admitted inbound user s).
Proof. unfold admitted. apply _. Defined.

(** The connection keeps its inbound and user, and nothing is read. *)
Definition keeps (st st' : LoopState) : Prop :=
  same_io st st' ∧ Inbound (ctx (meta st')) = Inbound (ctx (meta st)) ∧ User (ctx (meta st')) = User (ctx (meta st)).

Lemma user_rule_run s rule st :
  user_rule s rule → ∃ o st', keeps st st' ∧ rule_action rule = Some (ActionRoute (ao_RouteOutbound s.2) o) ∧
    run_rule rt false false rule st =
      (st', Ok (admits s.1.1 (Inbound (ctx (meta st))) && admits s.1.2 (User (ctx (meta st))))).
Proof.
  intros (Hact & d & Hd & ->). unfold run_rule. destruct (try_match_spec rt (DefaultRule d) st) as [b Hb]. rewrite Hb.
  destruct (user_route_matches rt s.1.1 s.1.2 false s.2 _ (ResetRuleCache (ctx (meta st))) Hact eq_refl)
    as (d' & o & Hd' & Ha & Hm). rewrite Hd in Hd'. injection Hd' as <-. rewrite Hm. cbn [xorb andb negb rule_action].
  exists o. change (Inbound (ResetRuleCache _)) with (Inbound (ctx (meta st))).
  change (User (ResetRuleCache _)) with (User (ctx (meta st))). rewrite Ha.
  destruct (admits _ _ && admits _ _); cbn [xorb];
    eexists; (split; [|split; reflexivity]); repeat split; cbn;
    unfold apply_route_options; by repeat (destruct (Socksaddr_IsValid _) || case_bool_decide).
Qed.

Lemma user_loop specs rules : Forall2 user_rule specs rules → ∀ i st,
  ∃ st', keeps st st' ∧
    match list_find (admitted (Inbound (ctx (meta st))) (User (ctx (meta st)))) specs with
    | Some (k, s) => ∃ rule o, match_loop rt false false rules i st = (st', Ok (Some (i + k, rule))) ∧
        rule_action rule = Some (ActionRoute (ao_RouteOutbound s.2) o)
    | None => match_loop rt false false rules i st = (st', Ok None)
    end.
Proof.
  induction 1 as [|s rule specs rules Hs _ IH]; intros i st; [by exists st|].
  cbn [match_loop list_find].
  destruct (user_rule_run s rule st Hs) as (o & st' & Hk & Ha & ->). case_decide as Hd.
  - unfold admitted in Hd. rewrite Hd. exists st'. split; [done|]. exists rule, o. by rewrite Nat.add_0_r.
  - apply not_true_is_false in Hd. rewrite Hd. destruct (IH (S i) st') as (st2 & Hk2 & Hl).
    destruct Hk as ((Hi1 & Hb1 & Hp1) & Hin & Hus), Hk2 as ((Hi2 & Hb2 & Hp2) & Hin2 & Hus2).
    exists st2. split; [split_and!; repeat split; congruence|]. rewrite Hin, Hus in Hl.
    destruct (list_find _ specs) as [[k s']|]; [|done]. cbn. by rewrite Nat.add_succ_r.
Qed.

Lemma prepare_keeps m m' : prepare_metadata m = Ok m' →
  Inbound (ctx m') = Inbound (ctx m) ∧ User (ctx m') = User (ctx m).
Proof.
  unfold prepare_metadata. intros Hp. inv_bind Hp. injection Hp as <-. cbn. revert E0.
  destruct (if Addr_IsValid _ then _ else _) as [[f g]|]; repeat case_match; intros [= <-]; done.
Qed.

(** C6: users reach their outbound.  When the rules in force are user routes
    and a stream needs no detour and its destination resolves, it goes to the
    outbound of the first route that admits its inbound and user, or to the
    default outbound when no route does: with that inbound and user, the
    connection itself behind the trackers, and only if the outbound exists and supports TCP.
    The lease on the rules is returned. *)
Theorem users_reach_their_outbound om now reads m r ls pr specs m0 :
  RInv r ls pr → Forall2 user_rule specs (objects <$> currentRules r) →
  InboundDetour m = "" → retired_destination (sa_Fqdn (Destination (ctx m))) = None →
  prepare_metadata (on_network "tcp" m) = Ok m0 →
  ∃ r' m' rule, RInv r' ls pr ∧ Inbound (ctx m') = Inbound (ctx m) ∧ User (ctx m') = User (ctx m) ∧
    routeConnection rt endpoint inbounds inbound_endpoints objects trackers om now reads m r =
    (r', match (match list_find (admitted (Inbound (ctx m)) (User (ctx m))) specs with
                | Some (_, s) => find_outbound endpoint "tcp" "TCP is not supported by outbound: " (ao_RouteOutbound s.2) om
                | None => find_default "tcp" "TCP is not supported by default outbound: " om
                end) with
         | Ok x => Routed x m' (track trackers reads m' rule x)
         | Err e => Failed e
         end).
Proof.
  intros HI Hrules Hdet Hret Hprep. unfold routeConnection. rewrite decide_False by (intros Hne; by destruct Hne).
  change (sa_Fqdn (Destination (ctx (on_network "tcp" m)))) with (sa_Fqdn (Destination (ctx m))). rewrite Hret.
  destruct (matchRule_spec false false (StreamInput reads) (on_network "tcp" m) r ls pr HI)
    as [(e & He & _)|(m1 & r' & Hm1 & HI' & ->)]; [by rewrite Hprep in He|].
  destruct (prepare_keeps _ _ Hm1) as [Hin Hus]. cbn in Hin, Hus.
  destruct (user_loop specs _ Hrules 0 (mkLoop m1 (StreamInput reads) [] [])) as (st & ((Hi & Hb & _) & Hin2 & Hus2) & Hl).
  cbn in Hi, Hb, Hin2, Hus2, Hl. rewrite Hin, Hus in Hl. exists r', (meta st).
  destruct (list_find _ specs) as [[k s]|];
    [destruct Hl as (rule & o & Hl & Ha); exists (Some rule)|exists None];
    (split; [done|]; split; [congruence|]; split; [congruence|]); rewrite Hl; cbn [fst snd];
    unfold select_outcome; rewrite ?Ha, Hi, Hb; done.
Qed.

(** A selected rule is one of the list and its action is final. *)
Lemma match_loop_selected pre sup rules : ∀ i st st' k rule,
  match_loop rt pre sup rules i st = (st', Ok (Some (k, rule))) → rule ∈ rules.
Proof.
  induction rules as [|r rules IH]; intros i st st' k rule; [done|]. cbn [match_loop].
  destruct (run_rule _ _ _ _ _) as [st1 [[]|e]]; [intros [= _ _ <-]; left| |done].
  intros Hl. right. by eapply IH.
Qed.

(** A connection goes only where a rule in force sends it.  A routed
    stream reaches either the default outbound or the outbound registered under
    the tag of a route (or bypass) action of a rule that is in force and not
    closed; that outbound supports TCP.  A stream is never routed by a rule
    that rejects it or answers its DNS queries. *)
Lemma routed_to_selected_outbound om now reads m r ls pr r' x m' conn :
  RInv r ls pr →
  routeConnection rt endpoint inbounds inbound_endpoints objects trackers om now reads m r = (r', Routed x m' conn) →
  "tcp" ∈ networks x ∧
  (Default om = Some x ∨
   ∃ id tag o, id ∈ currentRules r ∧ id ∉ r_closed r ∧ Outbound endpoint tag om = Some x ∧
     (rule_action (objects id) = Some (ActionRoute tag o) ∨ rule_action (objects id) = Some (ActionBypass tag o))).
Proof.
  intros HI Hr. destruct (routed_stream _ _ _ _ _ _ _ _ _ _ _ HI Hr) as (m0 & st & sel & Hl & _ & Hsel).
  destruct (select_routed _ _ _ _ _ _ _ _ _ _ _ _ _ Hsel) as (_ & _ & Hnet & Hx). split; [done|].
  destruct sel as [[k rule]|]; [|by left]. right. destruct Hx as (tag & o & Ho & Ha).
  apply match_loop_selected in Hl. apply list_elem_of_fmap in Hl as (id & -> & Hid).
  exists id, tag, o. split; [done|]. split; [by apply (ri_disj _ _ _ HI)|]. split; [done|].
  destruct Ha as [?|[? _]]; [by left|by right].
Qed.
End dispatch.
