(* ===== verification/RouteRun.v ===== *)
(** * Concrete runs of route dispatch

    Connections of a user through a router with concrete rules. *)
From S2P Require Import Prelude Bytes MatchState RuleItems Rules RulesSpec RulesProps RuleAction RuleBuild RuleBuildProps.
From S2P Require Import HotRules Registry OutboundManager Sniff Route RouteDispatch RouteProps.

Module RouteRun.
#[export] Existing Instance EnvRun.env.
#[export] Existing Instance BuildRun.act_env.

(** Detectors that want four bytes: TLS then fails, QUIC succeeds. *)
#[export] Instance sniff_env : SniffEnv := {
  SniffContext := unit;
  sniff_stream s data md :=
    match s with
    | TLSClientHello => if decide (length data < 4) then (md, Some ErrNeedMoreData) else (md, Some (ENew "not TLS"))
    | _ => (md, Some (ENew "unknown"))
    end;
  sniff_packet s data md :=
    match s with
    | QUICClientHello => if decide (length data < 4) then (md, Some ErrNeedMoreData) else (md, None)
    | _ => (md, Some (ENew "unknown"))
    end;
}.
#[export] Instance route_env : RouteEnv := {
  processSearcher := None;
  IsLoopback _ := false;
  MyInterfaceAddress := None;
  Interfaces := [];
  fakeip := None;
  LookupReverseMapping _ := None;
  dns_Lookup _ _ _ := Err (ENew "no such host");
  has_transport _ := false;
  IsIPv4 a := Addr_Is4 (sa_Addr a);
  IsDomain a := negb (bool_decide (sa_Fqdn a = ""));
}.
#[export] Instance dispatch_env : DispatchEnv := {
  NewCachedConn conn b := Ok b :: conn;
  NewCachedPacketConn conn b d := RPacket (mkPacketBuffer b d) :: conn;
  NewNATPacketConn conn _ _ := conn;
  mux_Destination := "sp.mux.sing-box.arpa";
  uot_MagicAddress := "sp.v2.udp-over-tcp.arpa";
  uot_LegacyMagicAddress := "sp.udp-over-tcp.arpa";
  networks _ := ["tcp"; "udp"];
  TCPInjectable _ := true;
  UDPInjectable _ := true;
  IsDirectRoute _ := false;
}.

(** A route of alice to the outbound proxy, and unconditional sniff actions. *)
Definition spec : list string * list string * RuleActionOptions := ((["in"], ["alice"]), BuildRun.route).
Definition no_rule (a : RuleAction) : Rule RuleAction := DefaultRule (mkDefaultRule [] [] [] [] [] [] [] None false (Some a)).
Definition alice_rule : Rule RuleAction :=
  match NewDefaultRule (user_route spec.1.1 spec.1.2 false spec.2) with
  | Ok d => DefaultRule d
  | Err _ => no_rule ActionHijackDNS
  end.
Definition sniff_rule (names : list string) (s : list StreamSniffer) (p : list PacketSniffer) : Rule RuleAction :=
  no_rule (ActionSniff (mkSniff names s p 0)).
(** Rule 1 is the route, rules 2 and 3 sniff streams, rules 4 and 5 packets. *)
Definition objects (id : nat) : Rule RuleAction :=
  match id with
  | 1 => alice_rule
  | 2 => sniff_rule ["tls"] [TLSClientHello] []
  | 3 => sniff_rule ["http"] [HTTPHost] []
  | 4 => sniff_rule ["quic"] [] [QUICClientHello]
  | _ => sniff_rule ["dns"] [] [DomainNameQuery; QUICClientHello]
  end.
Definition router (rules : list nat) : Router := rc_router (initial rules).

Definition outbound (i : nat) (tag : string) : Adapter := mkAdapter i "direct" tag [] Lifecycle true.
Definition om : OManager :=
  mkOManager "" true StartStateStarted [outbound 1 "direct"; outbound 2 "proxy"]
    (list_to_map [("direct", outbound 1 "direct"); ("proxy", outbound 2 "proxy")]) ∅ (Some (outbound 1 "direct")) [].
Definition nowhere : Socksaddr := mkSocksaddr AddrInvalid 0 "".
Definition no_dial : RuleActionRouteOptions := mkRouteOptions nowhere 0 None None None 0 false false 0 false 0 false.
Definition meta0 : Metadata := mkMetadata EnvRun.ip_conn (mkMemory [] None None) "" "" nowhere nowhere false no_dial.
Definition reads : list (result bytes) := [Ok [u8 22]; Ok [u8 3; u8 1; u8 2]; Ok [u8 5]; Ok [u8 6]].
Definition packet (b : Z) : PacketBuffer := mkPacketBuffer [u8 b] nowhere.
Definition preads : list packet_read := [RPacket (packet 1); RPacket (packet 2); RTimeout; RPacket (packet 3)].

Notation stream rules :=
  (routeConnection EnvRun.rt NewManager NewManager NewManager objects [] om 0 reads meta0 (router rules)).
Notation datagrams rules :=
  (routePacketConnection EnvRun.rt NewManager NewManager NewManager objects [] om 0 preads meta0 (router rules)).
Definition routed {c} (o : Outcome c) : option (string * c) :=
  match o with Routed x _ c => Some (a_Tag x, c) | _ => None end.
End RouteRun.
Import (hints) RouteRun.

Lemma router_inv rules : NoDup rules → RInv (RouteRun.router rules) [] None.
Proof. apply initial_inv. Qed.

(** A run that routes, with the number of reads the outbound sees. *)
Lemma stream_runs rules n :
  match RouteRun.routed (RouteRun.stream rules).2 with Some (_, c) => bool_decide (length c = n) | None => false end = true →
  ∃ r' x m' conn, RouteRun.stream rules = (r', Routed x m' conn) ∧ length conn = n.
Proof.
  destruct (RouteRun.stream rules) as [r' [| x m' conn | | |]]; cbn; try discriminate.
  intros Hn%bool_decide_eq_true. by exists r', x, m', conn.
Qed.
Lemma datagrams_run rules :
  match (RouteRun.datagrams rules).2 with Routed _ m _ => negb (FakeIP m) | _ => false end = true →
  ∃ r' x m' cached conn, RouteRun.datagrams rules = (r', Routed x m' (cached, conn)) ∧ FakeIP m' = false.
Proof.
  destruct (RouteRun.datagrams rules) as [r' [| x m' [cached conn] | | |]]; cbn; try discriminate.
  intros Hn%negb_true_iff. by exists r', x, m', cached, conn.
Qed.

Lemma users_reach_their_outbound_witness :
  ∃ r' m', RInv r' [] None ∧ User (ctx m') = "alice" ∧
    RouteRun.stream [1] = (r', Routed (RouteRun.outbound 2 "proxy") m' RouteRun.reads).
Proof.
  destruct (users_reach_their_outbound EnvRun.rt NewManager NewManager NewManager RouteRun.objects [] RouteRun.om 0
    RouteRun.reads RouteRun.meta0 (RouteRun.router [1]) [] None [RouteRun.spec] (on_network "tcp" RouteRun.meta0))
    as (r' & m' & rule & HI & _ & Hu & Hr).
  - apply router_inv. repeat constructor. apply not_elem_of_nil.
  - repeat constructor. eexists. split; reflexivity.
  - reflexivity.
  - reflexivity.
  - reflexivity.
  - exists r', m'. split; [exact HI|]. split; [exact Hu|]. rewrite Hr. f_equal.
Defined.

Lemma routed_stream_is_intact_witness :
  ∃ x m' conn, (RouteRun.stream [2; 1]).2 = Routed x m' conn ∧ length conn = 3 ∧ payload conn = payload RouteRun.reads.
Proof.
  destruct (stream_runs [2; 1] 3 ltac:(vm_compute; reflexivity)) as (r' & x & m' & conn & Hs & Hc).
  exists x, m', conn. split; [exact (f_equal snd Hs)|]. split; [exact Hc|].
  refine (proj2 (routed_stream_is_intact EnvRun.rt NewManager NewManager NewManager RouteRun.objects [] RouteRun.om 0
    RouteRun.reads RouteRun.meta0 (RouteRun.router [2; 1]) [] None r' x m' conn _ _ _ Hs) _).
  - intros c b. reflexivity.
  - intros t c m rule y Ht. inversion Ht.
  - apply router_inv. apply (bool_decide_unpack _). vm_compute. exact I.
  - apply (bool_decide_unpack _). vm_compute. exact I.
Defined.

Lemma routed_packets_are_kept_witness :
  ∃ x m' conn, (RouteRun.datagrams [4; 1]).2 = Routed x m' ([], conn) ∧
    ∃ ahead rest, packets RouteRun.preads = ahead ++ rest ∧ packets conn = reverse ahead ++ rest.
Proof.
  destruct (datagrams_run [4; 1] ltac:(vm_compute; reflexivity)) as (r' & x & m' & cached & conn & Hs & Hc).
  exists x, m', conn.
  destruct (routed_packets_are_kept EnvRun.rt NewManager NewManager NewManager RouteRun.objects [] RouteRun.om 0
    RouteRun.preads RouteRun.meta0 (RouteRun.router [4; 1]) [] None r' x m' cached conn) as [-> Hk].
  - intros c b d. reflexivity.
  - intros t c m rule y Ht. inversion Ht.
  - apply router_inv. apply (bool_decide_unpack _). vm_compute. exact I.
  - apply (bool_decide_unpack _). vm_compute. exact I.
  - exact Hs.
  - exact Hc.
  - split; [exact (f_equal snd Hs)|exact Hk].
Defined.

Lemma routed_to_selected_outbound_witness :
  ∃ x m' conn, (RouteRun.stream [2; 1]).2 = Routed x m' conn ∧ "tcp" ∈ networks x.
Proof.
  destruct (stream_runs [2; 1] 3 ltac:(vm_compute; reflexivity)) as (r' & x & m' & conn & Hs & _).
  exists x, m', conn. split; [exact (f_equal snd Hs)|].
  apply (routed_to_selected_outbound EnvRun.rt NewManager NewManager NewManager RouteRun.objects [] RouteRun.om 0
    RouteRun.reads RouteRun.meta0 (RouteRun.router [2; 1]) [] None r' x m' conn); [|exact Hs].
  apply router_inv. apply (bool_decide_unpack _). vm_compute. exact I.
Defined.

(** ** Several sniff actions *)

(** Bytes that two sniff actions read ahead reach the outbound in the wrong order. *)
Lemma second_sniff_reorders_stream :
  match RouteRun.routed (RouteRun.stream [2; 3; 1]).2 with
  | Some (_, conn) => payload RouteRun.reads = [u8 22; u8 3; u8 1; u8 2; u8 5; u8 6] ∧
      payload conn = [u8 5; u8 22; u8 3; u8 1; u8 2; u8 6]
  | None => False
  end.
Proof. vm_compute. split; reflexivity. Qed.

(** Packets the first sniff action read are returned by the second as well, and
    reach the outbound twice. *)
Lemma second_sniff_duplicates_packets :
  match RouteRun.routed (RouteRun.datagrams [4; 5; 1]).2 with
  | Some (_, (_, conn)) => packets RouteRun.preads = RouteRun.packet <$> [1; 2; 3]%Z ∧
      packets conn = RouteRun.packet <$> [3; 2; 1; 2; 1]%Z
  | None => False
  end.
Proof. vm_compute. split; reflexivity. Qed.

(** A bypass action with an outbound selects it, but its route options are not
    applied, unlike those of a route action. *)
Lemma bypass_ignores_route_options outbound o st :
  (run_action false false (ActionBypass outbound o) st).1 = st ∧
  (run_action false false (ActionRoute outbound o) st).1 = set_meta (apply_route_options o (meta st)) st.
Proof. split; reflexivity. Qed.
