(* ===== verification/FakeIP.v ===== *)
(** * Fake-IP store and transport

    Model of src/runtime/sing-box/dns/transport/fakeip (store.go, memory.go,
    fakeip.go) and adapter/fakeip.go: every domain a client asks for is given an
    address of a reserved range, and a connection to that address is later
    turned back into the domain.  A storage is any instance of the class
    [FakeIPStorage], the interface of that name; what the store relies on is
    [FakeIPStorageLaws].  The mutexes make each operation atomic; the check
    [Create] makes before it takes its lock is the step [Create_fast]. *)
From S2P Require Import Prelude Bytes RuleItems Netip RuleAction DnsClient.

(** ** Storage *)

(** adapter/fakeip_metadata.go. *)
Record FakeIPMetadata := mkFakeIPMetadata {
  Inet4Range : Prefix;
  Inet6Range : Prefix;
  Inet4Current : Addr;
  Inet6Current : Addr;
}.

(** adapter/fakeip.go, [FakeIPStorage].  Reading may change a storage: the
    cache file deletes the metadata it returns. *)
Class FakeIPStorage (S : Type) := {
  LoadMetadata : S → S * option FakeIPMetadata;
  FakeIPSaveMetadata : FakeIPMetadata → S → S * option error;
  FakeIPSaveMetadataAsync : FakeIPMetadata → S → S;
  FakeIPStore : Addr → string → S → S * option error;
  FakeIPLoad : Addr → S → S * option string;
  FakeIPLoadDomain : string → bool → S → S * option Addr;
  FakeIPReset : S → S * option error;
}.

(** What a storage promises: it represents a table from addresses to domains
    in which no domain has two addresses of one family, reads it by address and
    by domain, and enters a domain that has no address of the family yet. *)
Class FakeIPStorageLaws (S : Type) `{FakeIPStorage S} := {
  storable : Addr → string → Prop;
  represents : S → gmap Addr string → Prop;
  represents_inj s t a a' d :
    represents s t → t !! a = Some d → t !! a' = Some d → Addr_Is4 a = Addr_Is4 a' → a = a';
  represents_load s t a : 
    represents s t → wf_addr a → zone_of a = "" → Addr_IsValid a = true → FakeIPLoad a s = (s, t !! a);
  represents_load_domain s t d v6 :
    represents s t →
    ∃ r, FakeIPLoadDomain d v6 s = (s, r) ∧ ∀ a, r = Some a ↔ t !! a = Some d ∧ Addr_Is4 a = negb v6;
  represents_store s t a d :
    represents s t → storable a d → (∀ a', t !! a' = Some d → Addr_Is4 a' ≠ Addr_Is4 a) →
    ∃ s', FakeIPStore a d s = (s', None) ∧ represents s' (<[a := d]> t);
  represents_save_async s t md : represents s t → represents (FakeIPSaveMetadataAsync md s) t;
}.

(** memory.go. *)
Record MemoryStorage := mkMemoryStorage {
  addressCache : gmap Addr string;
  domainCache4 : gmap string Addr;
  domainCache6 : gmap string Addr;
}.
Definition NewMemoryStorage : MemoryStorage := mkMemoryStorage ∅ ∅ ∅.
Definition Memory_FakeIPStore (address : Addr) (domain : string) (s : MemoryStorage) : MemoryStorage * option error :=
  let s :=
    match addressCache s !! address with
    | Some oldDomain =>
        if Addr_Is4 address then mkMemoryStorage (addressCache s) (delete oldDomain (domainCache4 s)) (domainCache6 s)
        else mkMemoryStorage (addressCache s) (domainCache4 s) (delete oldDomain (domainCache6 s))
    | None => s
    end in
  let addresses := <[address := domain]> (addressCache s) in
  (if Addr_Is4 address then mkMemoryStorage addresses (<[domain := address]> (domainCache4 s)) (domainCache6 s)
   else mkMemoryStorage addresses (domainCache4 s) (<[domain := address]> (domainCache6 s)), None).
Definition Memory_FakeIPLoad (address : Addr) (s : MemoryStorage) : option string := addressCache s !! address.
Definition Memory_FakeIPLoadDomain (domain : string) (isIPv6 : bool) (s : MemoryStorage) : option Addr :=
  if negb isIPv6 then domainCache4 s !! domain else domainCache6 s !! domain.
Definition Memory_FakeIPReset (s : MemoryStorage) : MemoryStorage * option error := (NewMemoryStorage, None).

#[export] Instance Memory_storage : FakeIPStorage MemoryStorage := {
  LoadMetadata s := (s, None);
  FakeIPSaveMetadata _ s := (s, None);
  FakeIPSaveMetadataAsync _ s := s;
  FakeIPStore := Memory_FakeIPStore;
  FakeIPLoad a s := (s, Memory_FakeIPLoad a s);
  FakeIPLoadDomain d v6 s := (s, Memory_FakeIPLoadDomain d v6 s);
  FakeIPReset := Memory_FakeIPReset;
}.

(** A storage is in memory or in the cache file. *)
#[export] Instance sum_storage {A B} `{FakeIPStorage A, FakeIPStorage B} : FakeIPStorage (A + B) :=
  let on {X} (f : A → A * X) (g : B → B * X) (s : A + B) : (A + B) * X :=
    match s with inl a => let '(a, x) := f a in (inl a, x) | inr b => let '(b, x) := g b in (inr b, x) end in {|
  LoadMetadata := on LoadMetadata LoadMetadata;
  FakeIPSaveMetadata md := on (FakeIPSaveMetadata md) (FakeIPSaveMetadata md);
  FakeIPSaveMetadataAsync md s :=
    match s with inl a => inl (FakeIPSaveMetadataAsync md a) | inr b => inr (FakeIPSaveMetadataAsync md b) end;
  FakeIPStore a d := on (FakeIPStore a d) (FakeIPStore a d);
  FakeIPLoad a := on (FakeIPLoad a) (FakeIPLoad a);
  FakeIPLoadDomain d v6 := on (FakeIPLoadDomain d v6) (FakeIPLoadDomain d v6);
  FakeIPReset := on FakeIPReset FakeIPReset;
|}.

(** ** Store *)

(** [broadcastAddress]: the bits of the host part are set one by one. *)
Definition set_raw_bit (raw : bytes) (i : Z) : bytes :=
  alter (λ b, u8 (Z.lor (val b) (Z.shiftl 1 (7 - i mod 8)))) (Z.to_nat (i / 8)) raw.
Definition broadcastAddress (prefix : Prefix) : Addr :=
  let addr := p_ip prefix in
  let bits := if Addr_Is4 addr then (p_bits prefix + 96)%Z else p_bits prefix in
  let raw := fold_left set_raw_bit (seqZ bits (128 - bits)) (As16 addr) in
  if Addr_Is4 addr then AddrFrom4 (drop 12 raw) else AddrFrom16 raw.

(** The records [FixedResponse] makes. *)
Class FixedRR `{DnsEnv} := {
  NewA : string → Z → Z → Addr → RR;
  NewAAAA : string → Z → Z → Addr → RR;
  NewA_data name class ttl a : RR_data (NewA name class ttl a) = DataA a;
  NewAAAA_data name class ttl a : RR_data (NewAAAA name class ttl a) = DataAAAA a;
}.

Section store.
Context {S : Type} `{FakeIPStorage S}.

Record Store := mkStore {
  inet4Range : Prefix;
  inet6Range : Prefix;
  inet4Last : Addr;
  inet6Last : Addr;
  storage : option S;
  inet4Current : Addr;
  inet6Current : Addr;
}.

Definition NewStore (range4 range6 : Prefix) : Store :=
  mkStore range4 range6
    (if Prefix_IsValid range4 then broadcastAddress range4 else AddrInvalid)
    (if Prefix_IsValid range6 then broadcastAddress range6 else AddrInvalid)
    None AddrInvalid AddrInvalid.

Definition set_storage (s : S) (st : Store) : Store :=
  mkStore (inet4Range st) (inet6Range st) (inet4Last st) (inet6Last st) (Some s) (inet4Current st) (inet6Current st).
Definition set_current (c4 c6 : Addr) (st : Store) : Store :=
  mkStore (inet4Range st) (inet6Range st) (inet4Last st) (inet6Last st) (storage st) c4 c6.
Definition store_metadata (st : Store) : FakeIPMetadata :=
  mkFakeIPMetadata (inet4Range st) (inet6Range st) (inet4Current st) (inet6Current st).

(** [Start], with the storage the context gives or a new one in memory. *)
Definition Start (chosen : S) (st : Store) : Store :=
  let '(s, metadata) := LoadMetadata chosen in
  let first range current := if Prefix_IsValid range then Next (p_ip range) else current in
  let restart := set_storage (FakeIPReset s).1
    (set_current (first (inet4Range st) (inet4Current st)) (first (inet6Range st) (inet6Current st)) st) in
  match metadata with
  | Some md =>
      if decide (Inet4Range md = inet4Range st ∧ Inet6Range md = inet6Range st)
      then set_storage s (set_current (Inet4Current md) (Inet6Current md) st)
      else restart
  | None => restart
  end.

Definition Contains (st : Store) (address : Addr) : bool :=
  Prefix_Contains (inet4Range st) address || Prefix_Contains (inet6Range st) address.

Definition Close (st : Store) : Store * option error :=
  match storage st with
  | None => (st, None)
  | Some s => let '(s, err) := FakeIPSaveMetadata (store_metadata st) s in (set_storage s st, err)
  end.

(** The block of [Create] that advances the address of one family. *)
Definition next_address (range : Prefix) (last current : Addr) : Addr :=
  let nextAddress := Next current in
  if bool_decide (nextAddress = last) || negb (Prefix_Contains range nextAddress)
  then Next (Next (p_ip range)) else nextAddress.

Definition nil_storage : error := EPanic "nil pointer dereference".

(** The load before the lock. *)
Definition Create_fast (domain : string) (isIPv6 : bool) (st : Store) : Store * result (option Addr) :=
  match storage st with
  | None => (st, Err nil_storage)
  | Some s => let '(s, loaded) := FakeIPLoadDomain domain isIPv6 s in (set_storage s st, Ok loaded)
  end.

(** What is done under the lock, the second load first. *)
Definition Create_locked (domain : string) (isIPv6 : bool) (st : Store) : Store * result Addr :=
  match Create_fast domain isIPv6 st with
  | (st, Err e) => (st, Err e)
  | (st, Ok (Some address)) => (st, Ok address)
  | (st, Ok None) =>
      let allocate (st : Store) (address : Addr) : Store * result Addr :=
        match storage st with
        | None => (st, Err nil_storage)
        | Some s =>
            let '(s, err) := FakeIPStore address domain s in
            (set_storage (FakeIPSaveMetadataAsync (store_metadata st) s) st, Ok address)
        end in
      if negb isIPv6 then
        if negb (Addr_IsValid (inet4Current st)) then (st, Err (ENew "missing IPv4 fakeip address range"))
        else
          let address := next_address (inet4Range st) (inet4Last st) (inet4Current st) in
          allocate (set_current address (inet6Current st) st) address
      else
        if negb (Addr_IsValid (inet6Current st)) then (st, Err (ENew "missing IPv6 fakeip address range"))
        else
          let address := next_address (inet6Range st) (inet6Last st) (inet6Current st) in
          allocate (set_current (inet4Current st) address st) address
  end.

Definition Create (domain : string) (isIPv6 : bool) (st : Store) : Store * result Addr :=
  match Create_fast domain isIPv6 st with
  | (st, Err e) => (st, Err e)
  | (st, Ok (Some address)) => (st, Ok address)
  | (st, Ok None) => Create_locked domain isIPv6 st
  end.

Definition Lookup (address : Addr) (st : Store) : Store * result (option string) :=
  match storage st with
  | None => (st, Err nil_storage)
  | Some s => let '(s, domain) := FakeIPLoad address s in (set_storage s st, Ok domain)
  end.

Definition Reset (st : Store) : Store * option error :=
  match storage st with
  | None => (st, Some nil_storage)
  | Some s => let '(s, err) := FakeIPReset s in (set_storage s st, err)
  end.

(** ** Transport *)

Context `{FixedRR}.

Definition DefaultDNSTTL : Z := 600.

(** client.go, [FixedResponse]. *)
Definition FixedResponse (id : Z) (question : Question) (addresses : list Addr) (timeToLive : Z) : Msg :=
  mkMsg id true true true true RcodeSuccess [question]
    (omap (λ address,
       if Addr_Is4 address && bool_decide (Qtype question = TypeA)
       then Some (NewA (Name question) ClassINET timeToLive address)
       else if Addr_Is6 address && bool_decide (Qtype question = TypeAAAA)
       then Some (NewAAAA (Name question) ClassINET timeToLive address)
       else None) addresses) [] [].

Record Transport := mkTransport { store : Store; inet4Enabled : bool; inet6Enabled : bool }.

Definition NewTransport (range4 range6 : option Prefix) : result Transport :=
  let zero := mkPrefix AddrInvalid (-1) in
  let range4 := default zero range4 in
  let range6 := default zero range6 in
  if negb (Prefix_IsValid range4) && negb (Prefix_IsValid range6)
  then Err (ENew "at least one of inet4_range or inet6_range must be set")
  else Ok (mkTransport (NewStore range4 range6) (Prefix_IsValid range4) (Prefix_IsValid range6)).

(** [Transport.Start]; [stage] tells whether it is [StartStateStart]. *)
Definition Transport_Start (stage : bool) (chosen : S) (t : Transport) : Transport :=
  if negb stage then t else mkTransport (Start chosen (store t)) (inet4Enabled t) (inet6Enabled t).
Definition Transport_Close (t : Transport) : Transport * option error :=
  let '(st, err) := Close (store t) in (mkTransport st (inet4Enabled t) (inet6Enabled t), err).

Definition Exchange (message : Msg) (t : Transport) : Transport * result Msg :=
  match Questions message with
  | [] => (t, Err (EPanic "index out of range"))
  | question :: _ =>
      let asks q := bool_decide (Qtype question = q) in
      if negb (asks TypeA) && negb (asks TypeAAAA) then (t, Err (ENew "only IP queries are supported by fakeip"))
      else if asks TypeA && negb (inet4Enabled t) || asks TypeAAAA && negb (inet6Enabled t)
      then (t, Ok (FixedResponseStatus message RcodeSuccess))
      else
        let '(st, created) := Create (FqdnToDomain (Name question)) (asks TypeAAAA) (store t) in
        let t := mkTransport st (inet4Enabled t) (inet6Enabled t) in
        match created with
        | Err e => (t, Err e)
        | Ok address => (t, Ok (FixedResponse (Id message) question [address] DefaultDNSTTL))
        end
  end.
End store.
Arguments Store : clear implicits.
Arguments Transport : clear implicits.
