(* ===== verification/CacheFile.v ===== *)
(** * Cache file

    Model of src/runtime/sing-box/experimental/cachefile (cache.go, fakeip.go,
    rdrc.go) and of the records it stores (adapter/fakeip_metadata.go and
    [SavedBinary] of adapter/experimental.go).  The database is bbolt, reached
    through the class [Bolt]: a bucket is named by the path to it from the root,
    an operation works on the file as a transaction sees it, and a panic is how
    bbolt reports a corrupted file.  [BoltLaws] states what its documentation
    promises of a sound file. *)
From S2P Require Import Prelude Bytes RuleItems Netip FakeIP.

(** ** bbolt *)

Notation path := (list (list Ascii.ascii)) (only parsing).
Notation contents := (gmap (list (list Ascii.ascii)) (gmap (list Ascii.ascii) (list Ascii.ascii))) (only parsing).

Class Bolt := {
  DB : Type;
  Bucket : path → DB → result bool;
  CreateBucketIfNotExists : path → DB → result DB;
  DeleteBucket : path → DB → result DB;
  Get : path → bytes → DB → result (option bytes);
  Put : path → bytes → bytes → DB → result DB;
  Delete : path → bytes → DB → result DB;
  closed : DB → DB;
  reopen : option DB;
}.

Definition ErrBucketNotFound : error := ENew "bucket not found".
Definition MaxKeySize : Z := 32768.

(** [holds db m]: the file [db] is sound and has the buckets of [m], each with
    its keys and values. *)
Class BoltLaws `{Bolt} := {
  holds : DB → contents → Prop;
  bolt_Bucket db m p : holds db m → Bucket p db = Ok (bool_decide (is_Some (m !! p)));
  bolt_Get db m p kv k : holds db m → m !! p = Some kv → Get p k db = Ok (kv !! k);
  bolt_Create_old db m p kv : holds db m → m !! p = Some kv → CreateBucketIfNotExists p db = Ok db;
  bolt_Create_new db m q n :
    holds db m → m !! (q ++ [n]) = None → n ≠ [] → (q = [] ∨ ∃ kv, m !! q = Some kv ∧ kv !! n = None) →
    ∃ db', CreateBucketIfNotExists (q ++ [n]) db = Ok db' ∧ holds db' (<[q ++ [n] := ∅]> m);
  bolt_DeleteBucket_missing db m p : holds db m → m !! p = None → DeleteBucket p db = Err ErrBucketNotFound;
  bolt_DeleteBucket db m p kv :
    holds db m → m !! p = Some kv →
    ∃ db', DeleteBucket p db = Ok db' ∧ holds db' (filter (λ x, ¬ p `prefix_of` x.1) m);
  bolt_Put db m p kv k v :
    holds db m → m !! p = Some kv → k ≠ [] → (Z.of_nat (length k) <= MaxKeySize)%Z → (Z.of_nat (length v) < 2 ^ 31 - 1)%Z →
    m !! (p ++ [k]) = None →
    ∃ db', Put p k v db = Ok db' ∧ holds db' (<[p := <[k := v]> kv]> m);
  bolt_Delete db m p kv k :
    holds db m → m !! p = Some kv → m !! (p ++ [k]) = None →
    ∃ db', Delete p k db = Ok db' ∧ holds db' (<[p := delete k kv]> m);
}.

(** ** Records *)

Notation bytes_of := String.list_ascii_of_string (only parsing).
Notation string_of := String.string_of_list_ascii (only parsing).

(** adapter/fakeip_metadata.go: four fields, each after its length. *)
Definition FakeIPMetadata_MarshalBinary (m : FakeIPMetadata) : bytes :=
  [Prefix_MarshalBinary (Inet4Range m); Prefix_MarshalBinary (Inet6Range m);
   Addr_MarshalBinary (Inet4Current m); Addr_MarshalBinary (Inet6Current m)]
  ≫= λ data, be16 (Z.of_nat (length data)) ++ data.

(** [common.Must] of the read of the length, then the field. *)
Definition read_element {A} (unmarshal : bytes → result A) : reader A := λ s,
  match read_be16 s with
  | Err _ => Err (EPanic "EOF")
  | Ok (n, s) =>
      match read_full (Z.to_nat n) s with
      | Err e => Err e
      | Ok (element, s) => let? a := unmarshal element in Ok (a, s)
      end
  end.
Definition FakeIPMetadata_UnmarshalBinary (data : bytes) : result FakeIPMetadata :=
  let? r := (let! r4 := read_element Prefix_UnmarshalBinary in
             let! r6 := read_element Prefix_UnmarshalBinary in
             let! c4 := read_element Addr_UnmarshalBinary in
             let! c6 := read_element Addr_UnmarshalBinary in
             rret (mkFakeIPMetadata r4 r6 c4 c6)) data in
  Ok r.1.

(** adapter/experimental.go: a time is counted in nanoseconds, of which whole
    seconds are kept, in two's complement. *)
Record SavedBinary := mkSavedBinary { Content : bytes; LastUpdated : Z; LastEtag : string }.
Definition second : Z := 1000000000.
Definition of_int64 (z : Z) : Z := wrap_int64 z.
Definition SavedBinary_MarshalBinary (s : SavedBinary) : bytes :=
  [u8 1] ++ PutUvarint (Z.of_nat (length (Content s))) ++ Content s
  ++ be 8 (wrap_uint64 (LastUpdated s / second))
  ++ PutUvarint (Z.of_nat (String.length (LastEtag s))) ++ bytes_of (LastEtag s).
Definition SavedBinary_UnmarshalBinary (data : bytes) : result SavedBinary :=
  let? r := (let! version := read_byte in
             let! content := read_field in
             let! lastUpdated := read_full 8 in
             let! etag := read_field in
             rret (mkSavedBinary content (of_int64 (of_be lastUpdated) * second) (string_of etag))) data in
  Ok r.1.

(** ** The file *)

Section file.
Context `{Bolt} `{SingAddr}.

(** [saveMetadataTimer] holds the metadata its function was made with. *)
Record CacheFile := mkCacheFile {
  cacheID : option bytes;
  storeFakeIP : bool;
  storeRDRC : bool;
  rdrcTimeout : Z;
  db : DB;
  saveMetadataTimer : option FakeIPMetadata;
  saveDomain : gmap Addr string;
  saveAddress4 : gmap string Addr;
  saveAddress6 : gmap string Addr;
  saveRDRC : gmap (string * string * Z) bool;
}.

(** [New] and the file [Start] opens. *)
Definition New (id : string) (fakeIP rdrc : bool) (timeout : Z) (d : DB) : CacheFile :=
  mkCacheFile (if decide (id = "") then None else Some (u8 0 :: bytes_of id)) fakeIP rdrc
    (if rdrc then if decide (0 < timeout)%Z then timeout else (7 * 24 * 3600 * second)%Z else 0%Z) d None ∅ ∅ ∅ ∅.

Definition set_db (d : DB) (c : CacheFile) : CacheFile :=
  mkCacheFile (cacheID c) (storeFakeIP c) (storeRDRC c) (rdrcTimeout c) d (saveMetadataTimer c)
    (saveDomain c) (saveAddress4 c) (saveAddress6 c) (saveRDRC c).
Definition set_timer (t : option FakeIPMetadata) (c : CacheFile) : CacheFile :=
  mkCacheFile (cacheID c) (storeFakeIP c) (storeRDRC c) (rdrcTimeout c) (db c) t
    (saveDomain c) (saveAddress4 c) (saveAddress6 c) (saveRDRC c).
Definition set_pending (ds : gmap Addr string) (a4 a6 : gmap string Addr) (c : CacheFile) : CacheFile :=
  mkCacheFile (cacheID c) (storeFakeIP c) (storeRDRC c) (rdrcTimeout c) (db c) (saveMetadataTimer c) ds a4 a6 (saveRDRC c).
Definition set_saveRDRC (r : gmap (string * string * Z) bool) (c : CacheFile) : CacheFile :=
  mkCacheFile (cacheID c) (storeFakeIP c) (storeRDRC c) (rdrcTimeout c) (db c) (saveMetadataTimer c)
    (saveDomain c) (saveAddress4 c) (saveAddress6 c) r.

(** [resetDB]: the file is removed and opened anew. *)
Definition resetDB (c : CacheFile) : CacheFile :=
  match reopen with Some d => set_db d c | None => set_db (closed (db c)) c end.

(** [view] and [batch]: a panic resets the file, an error rolls the transaction
    back. *)
Definition corrupted (r : string) : error := ENew ("database corrupted: " +:+ r).
Definition view {A} (fn : DB → result A) (c : CacheFile) : CacheFile * result A :=
  match fn (db c) with
  | Err (EPanic r) => (resetDB c, Err (corrupted r))
  | res => (c, res)
  end.
Definition batch {A} (fn : DB → result (DB * A)) (c : CacheFile) : CacheFile * result A :=
  match fn (db c) with
  | Ok (d, a) => (set_db d c, Ok a)
  | Err (EPanic r) => (resetDB c, Err (corrupted r))
  | Err e => (c, Err e)
  end.
Definition failure {A} (r : CacheFile * result A) : CacheFile * option error :=
  (r.1, match r.2 with Ok _ => None | Err e => Some e end).
Definition done_with (d : result DB) : result (DB * unit) := let? d := d in Ok (d, tt).

(** ** Fake-IP records (fakeip.go) *)

Definition bucketFakeIP : bytes := bytes_of "fakeip_address".
Definition bucketFakeIPDomain4 : bytes := bytes_of "fakeip_domain4".
Definition bucketFakeIPDomain6 : bytes := bytes_of "fakeip_domain6".
Definition keyMetadata : bytes := bytes_of "fakeip_metadata".
Definition ErrNotExist : error := ENew "file does not exist".
Definition domain_bucket (is4 : bool) : bytes := if is4 then bucketFakeIPDomain4 else bucketFakeIPDomain6.

Definition File_FakeIPMetadata (c : CacheFile) : CacheFile * option FakeIPMetadata :=
  let '(c, r) := batch (λ tx,
    let? exists_ := Bucket [bucketFakeIP] tx in
    if negb exists_ then Err ErrNotExist
    else
      let? metadataBinary := Get [bucketFakeIP] keyMetadata tx in
      if decide (length (default [] metadataBinary) = 0) then Err ErrInvalid
      else
        let? tx := Delete [bucketFakeIP] keyMetadata tx in
        let? metadata := FakeIPMetadata_UnmarshalBinary (default [] metadataBinary) in
        Ok (tx, metadata)) c in
  (c, match r with Ok metadata => Some metadata | Err _ => None end).

Definition File_FakeIPSaveMetadata (metadata : FakeIPMetadata) (c : CacheFile) : CacheFile * option error :=
  failure (batch (λ tx,
    let? tx := CreateBucketIfNotExists [bucketFakeIP] tx in
    done_with (Put [bucketFakeIP] keyMetadata (FakeIPMetadata_MarshalBinary metadata) tx)) c).

(** The timer is made once, with a function over the metadata of that call;
    later calls only start it again. *)
Definition File_FakeIPSaveMetadataAsync (metadata : FakeIPMetadata) (c : CacheFile) : CacheFile :=
  match saveMetadataTimer c with
  | None => set_timer (Some metadata) c
  | Some _ => c
  end.
Definition fire_timer (c : CacheFile) : CacheFile :=
  match saveMetadataTimer c with
  | None => c
  | Some metadata => (File_FakeIPSaveMetadata metadata c).1
  end.

Definition File_FakeIPStore (address : Addr) (domain : string) (c : CacheFile) : CacheFile * option error :=
  failure (batch (λ tx,
    let? tx := CreateBucketIfNotExists [bucketFakeIP] tx in
    let? oldDomain := Get [bucketFakeIP] (AsSlice address) tx in
    let? tx := Put [bucketFakeIP] (AsSlice address) (bytes_of domain) tx in
    let bucket := [domain_bucket (Addr_Is4 address)] in
    let? tx := CreateBucketIfNotExists bucket tx in
    let? tx := match oldDomain with None => Ok tx | Some old => Delete bucket old tx end in
    done_with (Put bucket (bytes_of domain) (AsSlice address) tx)) c).

(** [FakeIPStoreAsync]: what it does at once, and what its goroutine does after
    the store. *)
Definition File_FakeIPStoreAsync (address : Addr) (domain : string) (c : CacheFile) : CacheFile :=
  let is4 := Addr_Is4 address in
  let '(a4, a6) :=
    match saveDomain c !! address with
    | Some oldDomain =>
        if is4 then (delete oldDomain (saveAddress4 c), saveAddress6 c) else (saveAddress4 c, delete oldDomain (saveAddress6 c))
    | None => (saveAddress4 c, saveAddress6 c)
    end in
  set_pending (<[address := domain]> (saveDomain c))
    (if is4 then <[domain := address]> a4 else a4) (if is4 then a6 else <[domain := address]> a6) c.
Definition FakeIPStoreAsync_done (address : Addr) (domain : string) (c : CacheFile) : CacheFile :=
  let c := (File_FakeIPStore address domain c).1 in
  let is4 := Addr_Is4 address in
  set_pending (delete address (saveDomain c))
    (if is4 then delete domain (saveAddress4 c) else saveAddress4 c)
    (if is4 then saveAddress6 c else delete domain (saveAddress6 c)) c.

Definition File_FakeIPLoad (address : Addr) (c : CacheFile) : CacheFile * option string :=
  match saveDomain c !! address with
  | Some domain => (c, Some domain)
  | None =>
      let '(c, r) := view (λ tx,
        let? exists_ := Bucket [bucketFakeIP] tx in
        if negb exists_ then Ok "" else
        let? domain := Get [bucketFakeIP] (AsSlice address) tx in
        Ok (string_of (default [] domain))) c in
      let domain := match r with Ok domain => domain | Err _ => "" end in
      (c, if decide (domain = "") then None else Some domain)
  end.

Definition File_FakeIPLoadDomain (domain : string) (isIPv6 : bool) (c : CacheFile) : CacheFile * option Addr :=
  match (if negb isIPv6 then saveAddress4 c else saveAddress6 c) !! domain with
  | Some address => (c, Some address)
  | None =>
      let bucket := [domain_bucket (negb isIPv6)] in
      let '(c, r) := view (λ tx,
        let? exists_ := Bucket bucket tx in
        if negb exists_ then Ok AddrInvalid else
        let? address := Get bucket (bytes_of domain) tx in
        Ok (AddrFromIP (default [] address))) c in
      let address := match r with Ok address => address | Err _ => AddrInvalid end in
      (c, if Addr_IsValid address then Some address else None)
  end.

Definition File_FakeIPReset (c : CacheFile) : CacheFile * option error :=
  failure (batch (λ tx,
    let? tx := DeleteBucket [bucketFakeIP] tx in
    let? tx := DeleteBucket [bucketFakeIPDomain4] tx in
    done_with (DeleteBucket [bucketFakeIPDomain6] tx)) c).

#[export] Instance File_storage : FakeIPStorage CacheFile := {
  LoadMetadata := File_FakeIPMetadata;
  FakeIPSaveMetadata := File_FakeIPSaveMetadata;
  FakeIPSaveMetadataAsync := File_FakeIPSaveMetadataAsync;
  FakeIPStore := File_FakeIPStore;
  FakeIPLoad := File_FakeIPLoad;
  FakeIPLoadDomain := File_FakeIPLoadDomain;
  FakeIPReset := File_FakeIPReset;
}.

(** ** Modes, selections, rule sets (cache.go) *)

Definition bucketSelected : bytes := bytes_of "selected".
Definition bucketExpand : bytes := bytes_of "group_expand".
Definition bucketMode : bytes := bytes_of "clash_mode".
Definition bucketRuleSet : bytes := bytes_of "rule_set".
Definition bucketRDRC : bytes := bytes_of "rdrc2".
Definition cacheIDDefault : bytes := bytes_of "default".

(** The key a mode is stored under. *)
Definition mode_key (c : CacheFile) : bytes :=
  match cacheID c with Some (b :: id) => b :: id | _ => cacheIDDefault end.
Definition LoadMode (c : CacheFile) : CacheFile * string :=
  let '(c', r) := view (λ tx,
    let? exists_ := Bucket [bucketMode] tx in
    if negb exists_ then Ok "" else
    let? modeBytes := Get [bucketMode] (mode_key c) tx in
    Ok (string_of (default [] modeBytes))) c in
  (c', match r with Ok mode => mode | Err _ => "" end).
Definition StoreMode (mode : string) (c : CacheFile) : CacheFile * option error :=
  failure (batch (λ tx,
    let? tx := CreateBucketIfNotExists [bucketMode] tx in
    done_with (Put [bucketMode] (mode_key c) (bytes_of mode) tx)) c).

(** [bucket] and [createBucket]: under the bucket of the cache ID, if any. *)
Definition bucket_path (c : CacheFile) (key : bytes) : path :=
  match cacheID c with None => [key] | Some id => [id; key] end.
Definition bucket (c : CacheFile) (key : bytes) (tx : DB) : result bool :=
  match cacheID c with
  | None => Bucket [key] tx
  | Some id => let? exists_ := Bucket [id] tx in if negb exists_ then Ok false else Bucket [id; key] tx
  end.
Definition createBucket (c : CacheFile) (key : bytes) (tx : DB) : result DB :=
  match cacheID c with
  | None => CreateBucketIfNotExists [key] tx
  | Some id => let? tx := CreateBucketIfNotExists [id] tx in CreateBucketIfNotExists [id; key] tx
  end.

(** The common part of the loads and stores below. *)
Definition load_value (c : CacheFile) (name key : bytes) (tx : DB) : result (option bytes) :=
  let? exists_ := bucket c name tx in
  if negb exists_ then Ok None else Get (bucket_path c name) key tx.
Definition store_value (c : CacheFile) (name key value : bytes) (tx : DB) : result (DB * unit) :=
  let? tx := createBucket c name tx in
  done_with (Put (bucket_path c name) key value tx).

Definition LoadSelected (group : string) (c : CacheFile) : CacheFile * string :=
  let '(c', r) := view (load_value c bucketSelected (bytes_of group)) c in
  (c', match r with Ok (Some selected) => string_of selected | _ => "" end).
Definition StoreSelected (group selected : string) (c : CacheFile) : CacheFile * option error :=
  failure (batch (store_value c bucketSelected (bytes_of group) (bytes_of selected)) c).

Definition LoadGroupExpand (group : string) (c : CacheFile) : CacheFile * (bool * bool) :=
  let '(c', r) := view (load_value c bucketExpand (bytes_of group)) c in
  (c', match r with Ok (Some [b]) => (bool_decide (val b = 1)%Z, true) | _ => (false, false) end).
Definition StoreGroupExpand (group : string) (isExpand : bool) (c : CacheFile) : CacheFile * option error :=
  failure (batch (store_value c bucketExpand (bytes_of group) [u8 (if isExpand then 1 else 0)]) c).

Definition LoadRuleSet (tag : string) (c : CacheFile) : CacheFile * option SavedBinary :=
  let '(c', r) := view (λ tx,
    let? setBinary := load_value c bucketRuleSet (bytes_of tag) tx in
    if decide (length (default [] setBinary) = 0) then Err ErrInvalid
    else SavedBinary_UnmarshalBinary (default [] setBinary)) c in
  (c', match r with Ok saved => Some saved | Err _ => None end).
Definition SaveRuleSet (tag : string) (set : SavedBinary) (c : CacheFile) : CacheFile * option error :=
  failure (batch (store_value c bucketRuleSet (bytes_of tag) (SavedBinary_MarshalBinary set)) c).

(** ** Rejected DNS responses (rdrc.go) *)

Definition rdrc_key (qName : string) (qType : Z) : bytes := be16 qType ++ bytes_of qName.

(** [LoadRDRC] at the time [now] in nanoseconds. *)
Definition LoadRDRC (now : Z) (transportName qName : string) (qType : Z) (c : CacheFile) : CacheFile * bool :=
  match saveRDRC c !! (transportName, qName, qType) with
  | Some rejected => (c, rejected)
  | None =>
      let key := rdrc_key qName qType in
      let transport := bucket_path c bucketRDRC ++ [bytes_of transportName] in
      let find tx :=
        let? exists_ := bucket c bucketRDRC tx in
        if negb exists_ then Ok false else Bucket transport tx in
      let '(c, r) := view (λ tx,
        let? exists_ := find tx in
        if negb exists_ then Ok (false, false) else
        let? content := Get transport key tx in
        match content with
        | None => Ok (false, false)
        | Some content =>
            if decide (length content < 8) then Err (EPanic "index out of range")
            else
              let expiresAt := (of_int64 (of_be (take 8 content)) * second)%Z in
              if decide (expiresAt < now)%Z then Ok (false, true) else Ok (true, false)
        end) c in
      match r with
      | Err _ => (c, false)
      | Ok (rejected, deleteCache) =>
          if deleteCache then
            ((batch (λ tx,
               let? exists_ := find tx in
               if negb exists_ then Ok (tx, tt) else done_with (Delete transport key tx)) c).1, rejected)
          else (c, rejected)
      end
  end.

Definition SaveRDRC (now : Z) (transportName qName : string) (qType : Z) (c : CacheFile) : CacheFile * option error :=
  let expiresAt := be 8 (wrap_uint64 ((now + rdrcTimeout c) / second)) in
  failure (batch (λ tx,
    let? tx := createBucket c bucketRDRC tx in
    let transport := bucket_path c bucketRDRC ++ [bytes_of transportName] in
    let? tx := CreateBucketIfNotExists transport tx in
    done_with (Put transport (rdrc_key qName qType) expiresAt tx)) c).

(** [SaveRDRCAsync]: at once, and what its goroutine does. *)
Definition SaveRDRCAsync (transportName qName : string) (qType : Z) (c : CacheFile) : CacheFile :=
  set_saveRDRC (<[(transportName, qName, qType) := true]> (saveRDRC c)) c.
Definition SaveRDRCAsync_done (now : Z) (transportName qName : string) (qType : Z) (c : CacheFile) : CacheFile :=
  let c := (SaveRDRC now transportName qName qType c).1 in
  set_saveRDRC (delete (transportName, qName, qType) (saveRDRC c)) c.
End file.
