(* ===== verification/FakeIPRange.v ===== *)
(** * Address ranges of the fake-IP store

    A valid prefix is an interval of numbers; the broadcast address is its last
    one and [next_address] walks the usable ones in a circle. *)
From S2P Require Import Prelude Bytes RuleItems Netip FakeIP.

(** The size of the host part of a prefix, the first and the last number in it,
    and the address of its family with a number. *)
Definition host_bits (p : Prefix) : Z := (BitLen (p_ip p) - p_bits p)%Z.
Definition first_num (p : Prefix) : Z := (addr_num (p_ip p) / 2 ^ host_bits p * 2 ^ host_bits p)%Z.
Definition last_num (p : Prefix) : Z := (first_num p + 2 ^ host_bits p - 1)%Z.
Definition addr_of (p : Prefix) (x : Z) : Addr :=
  match p_ip p with AddrInvalid => AddrInvalid | Addr4 _ => Addr4 x | Addr6 _ _ => Addr6 x "" end.

(** ** Bits *)

Lemma lor_ones_low b k : (0 <= k)%Z → Z.lor b (Z.ones k) = (b / 2 ^ k * 2 ^ k + (2 ^ k - 1))%Z.
Proof.
  intros Hk. rewrite <-Z.shiftr_div_pow2 by done.
  assert (Z.lor b (Z.ones k) = Z.lor (Z.shiftl (Z.shiftr b k) k) (Z.ones k)) as ->.
  { apply Z.bits_inj'. intros i Hi. rewrite !Z.lor_spec, Z.shiftl_spec by done.
    destruct (decide (i < k)%Z).
    - by rewrite Z.ones_spec_low, !orb_true_r by lia.
    - rewrite Z.ones_spec_high, Z.shiftr_spec by lia. do 2 f_equal. lia. }
  rewrite lor_shiftl_add; [|done|].
  - rewrite Z.ones_equiv. lia.
  - rewrite Z.ones_equiv. assert (0 < 2 ^ k)%Z by (apply Z.pow_pos_nonneg; lia). lia.
Qed.

Lemma testbit_of_be_lookup l i :
  (0 <= i < 8 * Z.of_nat (length l))%Z →
  Z.testbit (of_be l) i
  = match l !! (length l - S (Z.to_nat (i / 8))) with Some b => Z.testbit (val b) (i mod 8) | None => false end.
Proof.
  intros Hi. rewrite testbit_of_be by lia. rewrite <-reverse_lookup; [by rewrite rev_alt|].
  assert (i / 8 < Z.of_nat (length l))%Z by (apply Z.div_lt_upper_bound; lia). lia.
Qed.

Lemma length_set_raw_bit raw i : length (set_raw_bit raw i) = length raw.
Proof. unfold set_raw_bit. apply length_alter. Qed.

Lemma val_lor_bit b m : (0 <= m < 8)%Z → val (u8 (Z.lor (val b) (Z.shiftl 1 m))) = Z.lor (val b) (Z.shiftl 1 m).
Proof.
  intros Hm. rewrite val_u8. change 256%Z with (2 ^ 8)%Z. rewrite <-Z.land_ones by lia.
  apply Z.bits_inj'. intros i Hi. rewrite Z.land_spec, Z.lor_spec. destruct (decide (i < 8)%Z).
  - by rewrite Z.ones_spec_low, andb_true_r by lia.
  - rewrite Z.ones_spec_high, andb_false_r, testbit_byte_high, Z.shiftl_spec by lia. symmetry.
    rewrite orb_false_l. change 1%Z with (2 ^ 0)%Z. apply Z.pow2_bits_false. lia.
Qed.

(** One step of the loop sets one bit of the number. *)
Lemma testbit_set_raw_bit raw i j :
  length raw = 16 → (0 <= i < 128)%Z → (0 <= j < 128)%Z →
  Z.testbit (of_be (set_raw_bit raw i)) j = Z.testbit (of_be raw) j || (j =? 127 - i)%Z.
Proof.
  intros Hl Hi Hj. rewrite !testbit_of_be_lookup by (rewrite ?length_set_raw_bit; lia).
  rewrite length_set_raw_bit, Hl. unfold set_raw_bit. rewrite list_lookup_alter.
  assert (0 <= j / 8 < 16)%Z by (split; [apply Z.div_pos; lia|apply Z.div_lt_upper_bound; lia]).
  assert (0 <= i / 8 < 16)%Z by (split; [apply Z.div_pos; lia|apply Z.div_lt_upper_bound; lia]).
  pose proof (Z.mod_pos_bound i 8 ltac:(lia)). pose proof (Z.mod_pos_bound j 8 ltac:(lia)).
  destruct (lookup_lt_is_Some_2 raw (16 - S (Z.to_nat (j / 8)))) as [b Hb]; [lia|]. rewrite Hb.
  case_decide as Hsame.
  - rewrite Hsame, Hb. cbn [fmap option_fmap option_map]. rewrite val_lor_bit by lia. rewrite Z.lor_spec. f_equal. rewrite Z.shiftl_spec by lia.
    assert (15 - j / 8 = i / 8)%Z by lia. pose proof (Z.div_mod i 8 ltac:(lia)). pose proof (Z.div_mod j 8 ltac:(lia)).
    destruct (Z.eqb_spec j (127 - i)) as [->|Hne].
    + replace ((127 - i) mod 8 - (7 - i mod 8))%Z with 0%Z by lia. done.
    + change 1%Z with (2 ^ 0)%Z. apply Z.pow2_bits_false. lia.
  - destruct (Z.eqb_spec j (127 - i)) as [->|Hne]; [|by rewrite orb_false_r]. exfalso. apply Hsame.
    pose proof (Z.div_mod i 8 ltac:(lia)). pose proof (Z.div_mod (127 - i) 8 ltac:(lia)).
    assert (15 - (127 - i) / 8 = i / 8)%Z; [|lia]. lia.
Qed.

Lemma testbit_set_raw_bits idx raw j :
  length raw = 16 → (∀ i, i ∈ idx → 0 <= i < 128)%Z → (0 <= j < 128)%Z →
  Z.testbit (of_be (fold_left set_raw_bit idx raw)) j
  = Z.testbit (of_be raw) j || bool_decide ((127 - j)%Z ∈ idx).
Proof.
  revert raw. induction idx as [|i idx IH]; intros raw Hl His Hj; cbn [fold_left].
  { rewrite bool_decide_false; [by rewrite orb_false_r|]. by apply not_elem_of_nil. }
  rewrite IH; [| by rewrite length_set_raw_bit | intros; apply His; by right | done].
  rewrite testbit_set_raw_bit; [|done|apply His; by left|done]. rewrite <-orb_assoc. f_equal.
  destruct (Z.eqb_spec j (127 - i)); cbn [orb].
  - symmetry. apply bool_decide_true. apply elem_of_cons. lia.
  - apply bool_decide_ext. rewrite elem_of_cons. naive_solver lia.
Qed.

Lemma length_set_raw_bits idx raw : length (fold_left set_raw_bit idx raw) = length raw.
Proof. revert raw. induction idx; intros; cbn; [done|]. by rewrite IHidx, length_set_raw_bit. Qed.

Lemma testbit_high x n i : (0 <= x < 2 ^ n)%Z → (n <= i)%Z → Z.testbit x i = false.
Proof.
  intros Hx Hi. destruct (decide (0 <= n)%Z); [|rewrite Z.pow_neg_r in Hx by lia; lia].
  destruct (decide (x = 0)%Z) as [->|]; [apply Z.bits_0|].
  apply Z.bits_above_log2; [lia|]. assert (Z.log2 x < n)%Z; [|lia]. apply Z.log2_lt_pow2; lia.
Qed.

(** The loop sets the whole host part. *)
Lemma of_be_host_bits raw k :
  length raw = 16 → (0 <= k <= 128)%Z →
  of_be (fold_left set_raw_bit (seqZ (128 - k) k) raw) = Z.lor (of_be raw) (Z.ones k).
Proof.
  intros Hl Hk. apply Z.bits_inj'. intros j Hj. rewrite Z.lor_spec.
  destruct (decide (j < 128)%Z).
  - rewrite testbit_set_raw_bits; [|done| |lia].
    + f_equal. case_bool_decide as Hin; rewrite elem_of_seqZ in Hin.
      * rewrite Z.ones_spec_low; [done|lia].
      * rewrite Z.ones_spec_high; [done|lia].
    + intros i Hi%elem_of_seqZ. lia.
  - rewrite Z.ones_spec_high, !(testbit_high (of_be _) 128); [done|..]; try lia.
    + pose proof (of_be_range raw) as Hr. by rewrite Hl in Hr.
    + pose proof (of_be_range (fold_left set_raw_bit (seqZ (128 - k) k) raw)) as Hr.
      by rewrite length_set_raw_bits, Hl in Hr.
Qed.

Lemma of_be_drop n l : n <= length l → of_be (drop n l) = (of_be l mod 2 ^ (8 * Z.of_nat (length l - n)))%Z.
Proof.
  revert n. induction l as [|b l IH] using rev_ind; intros n Hn.
  { cbn in Hn. assert (n = 0) as -> by lia. done. }
  rewrite length_app in Hn |- *. cbn [length] in Hn |- *. destruct (decide (n = length l + 1)) as [->|].
  { rewrite Nat.sub_diag, drop_ge by (rewrite length_app; cbn; lia). by rewrite Z.mod_1_r. }
  rewrite drop_app_le, !of_be_snoc, IH by lia.
  replace (8 * Z.of_nat (length l + 1 - n))%Z with (8 * Z.of_nat (length l - n) + 8)%Z by lia.
  rewrite Z.pow_add_r by lia. change (2 ^ 8)%Z with 256%Z. set (P := (2 ^ (8 * Z.of_nat (length l - n)))%Z).
  assert (0 < P)%Z by (apply Z.pow_pos_nonneg; lia). pose proof (val_range b).
  pose proof (Z.div_mod (of_be l) P ltac:(lia)). pose proof (Z.mod_pos_bound (of_be l) P ltac:(lia)).
  apply (Z.mod_unique _ _ (of_be l / P)); [left; nia|nia].
Qed.

(** ** Prefixes as intervals *)

Section prefix.
Context (p : Prefix) (Hwf : wf_prefix p) (Hv : Prefix_IsValid p = true).

Lemma host_bits_range : (0 <= host_bits p <= BitLen (p_ip p))%Z.
Proof using Hwf Hv.
  destruct Hwf as (_ & _ & Hb). unfold Prefix_IsValid in Hv. unfold host_bits.
  destruct (Addr_IsValid (p_ip p)); [|done]. cbn in Hv. lia.
Qed.

Lemma host_size_pos : (0 < 2 ^ host_bits p)%Z.
Proof using Hwf Hv. pose proof host_bits_range. apply Z.pow_pos_nonneg; lia. Qed.

Lemma base_in_interval : (first_num p <= addr_num (p_ip p) <= last_num p)%Z.
Proof using Hwf Hv.
  unfold first_num, last_num, first_num. pose proof host_size_pos.
  pose proof (Z.div_mod (addr_num (p_ip p)) (2 ^ host_bits p) ltac:(lia)).
  pose proof (Z.mod_pos_bound (addr_num (p_ip p)) (2 ^ host_bits p) ltac:(lia)). lia.
Qed.

Lemma last_num_range : (0 <= last_num p < 2 ^ BitLen (p_ip p))%Z.
Proof using Hwf Hv.
  pose proof host_size_pos. pose proof host_bits_range. pose proof base_in_interval.
  assert (0 <= addr_num (p_ip p) < 2 ^ BitLen (p_ip p))%Z as Hr.
  { destruct Hwf as (Ha & _). destruct (p_ip p); cbn in *; lia. }
  split; [lia|]. unfold last_num, first_num. set (q := (addr_num (p_ip p) / 2 ^ host_bits p)%Z).
  assert (2 ^ BitLen (p_ip p) = 2 ^ (BitLen (p_ip p) - host_bits p) * 2 ^ host_bits p)%Z as Hsplit.
  { rewrite <-Z.pow_add_r by lia. f_equal. lia. }
  assert (q < 2 ^ (BitLen (p_ip p) - host_bits p))%Z by (apply Z.div_lt_upper_bound; lia).
  nia.
Qed.

Lemma Contains_addr_of x :
  Prefix_Contains p (addr_of p x) = true ↔ (first_num p <= x <= last_num p)%Z.
Proof using Hwf Hv.
  pose proof host_size_pos as Hpos. pose proof host_bits_range.
  assert (Prefix_Contains p (addr_of p x) = (Z.shiftr (Z.lxor x (addr_num (p_ip p))) (host_bits p) =? 0)%Z) as ->.
  { unfold Prefix_Contains, addr_of, host_bits. rewrite Hv. cbn [andb]. destruct (p_ip p) eqn:E; cbn; try done.
    unfold Prefix_IsValid in Hv. by rewrite E in Hv. }
  rewrite Z.eqb_eq, Z.shiftr_lxor, Z.lxor_eq_0_iff, !Z.shiftr_div_pow2 by lia.
  unfold last_num, first_num. set (P := (2 ^ host_bits p)%Z) in *. set (b := addr_num (p_ip p)).
  pose proof (Z.div_mod x P ltac:(lia)). pose proof (Z.mod_pos_bound x P ltac:(lia)). split; [intros; nia|].
  intros Hx. symmetry. apply (Z.div_unique _ _ _ (x - b / P * P)); lia.
Qed.

Lemma addr_of_base : addr_of p (addr_num (p_ip p)) = p_ip p.
Proof using Hwf. destruct Hwf as (_ & Hz & _). unfold addr_of. destruct (p_ip p); cbn in *; congruence. Qed.

Lemma addr_of_inj x y : addr_of p x = addr_of p y → x = y.
Proof using Hv. unfold addr_of, Prefix_IsValid in *. destruct (p_ip p); cbn in *; congruence. Qed.

Lemma addr_of_shape x :
  (0 <= x < 2 ^ BitLen (p_ip p))%Z →
  wf_addr (addr_of p x) ∧ zone_of (addr_of p x) = "" ∧ Addr_IsValid (addr_of p x) = true ∧
  Addr_Is4 (addr_of p x) = Addr_Is4 (p_ip p) ∧ addr_num (addr_of p x) = x.
Proof using Hv. unfold addr_of, Prefix_IsValid in *. destruct (p_ip p); cbn in *; naive_solver. Qed.

Lemma Next_addr_of x : (x < last_num p)%Z → Next (addr_of p x) = addr_of p (x + 1).
Proof using Hwf Hv.
  intros Hx. pose proof last_num_range. unfold addr_of, Next, Prefix_IsValid in *.
  destruct (p_ip p); [done| |]; cbn in *; rewrite decide_True by lia; done.
Qed.

(** The last address is the one with all host bits set. *)
Lemma broadcastAddress_last : broadcastAddress p = addr_of p (last_num p).
Proof using Hwf Hv.
  pose proof host_bits_range as Hk. pose proof last_num_range as Hlast. destruct Hwf as (Ha & Hz & _).
  assert (last_num p = Z.lor (addr_num (p_ip p)) (Z.ones (host_bits p))) as Hlor.
  { rewrite lor_ones_low by lia. unfold last_num, first_num. lia. }
  unfold broadcastAddress, addr_of. rewrite Hlor. unfold host_bits in *. unfold Prefix_IsValid in Hv.
  destruct (p_ip p) as [|b|b z]; cbn [Addr_Is4 BitLen addr_num wf_addr As16] in *; [done| |].
  - set (k := (32 - p_bits p)%Z) in *. replace (p_bits p + 96)%Z with (128 - k)%Z by lia.
    replace (128 - (128 - k))%Z with k by lia. unfold AddrFrom4. f_equal.
    assert (0 <= Z.lor (Z.shiftl 65535 32) b < 2 ^ 128)%Z.
    { rewrite lor_shiftl_add by lia. lia. }
    rewrite of_be_drop by (rewrite length_set_raw_bits, length_be; lia).
    rewrite length_set_raw_bits, length_be, of_be_host_bits, of_be_be; [| done | by rewrite length_be | lia].
    change (8 * Z.of_nat (16 - 12))%Z with 32%Z. rewrite <-Z.land_ones, !Z.land_lor_distr_l by lia.
    rewrite !(Z.land_ones _ 32), Z.shiftl_mul_pow2, Z_mod_mult by lia. rewrite Z.lor_0_l, (Z.mod_small b) by lia.
    f_equal. apply Z.mod_small. rewrite Z.ones_equiv.
    assert (0 < 2 ^ k)%Z by (apply Z.pow_pos_nonneg; lia).
    assert (2 ^ k <= 2 ^ 32)%Z by (apply Z.pow_le_mono_r; lia). lia.
  - set (k := (128 - p_bits p)%Z) in *. replace (p_bits p) with (128 - k)%Z by lia.
    replace (128 - (128 - k))%Z with k by lia. unfold AddrFrom16. f_equal.
    rewrite of_be_host_bits, of_be_be; [done| done | by rewrite length_be | lia].
Qed.

(** [next_address] from an address after the base and before the last: the
    next one, or the second after the base in place of the last. *)
Lemma next_address_addr_of x :
  (addr_num (p_ip p) < x < last_num p)%Z →
  next_address p (broadcastAddress p) (addr_of p x)
  = addr_of p (if decide (x + 1 = last_num p)%Z then addr_num (p_ip p) + 2 else x + 1)%Z.
Proof using Hwf Hv.
  intros Hx. pose proof base_in_interval. unfold next_address. rewrite broadcastAddress_last, Next_addr_of by lia.
  rewrite (proj2 (Contains_addr_of (x + 1))) by lia. cbn [negb]. rewrite orb_false_r.
  case_decide as Hlast.
  - rewrite Hlast, bool_decide_true by done.
    rewrite <-addr_of_base at 1. rewrite !Next_addr_of by lia. f_equal. lia.
  - rewrite bool_decide_false; [done|]. by intros ?%addr_of_inj.
Qed.
End prefix.
