(* ===== verification/FakeIPProps.v ===== *)
(** * Properties of the fake-IP store

    The memory storage keeps its promises, every allocated address is usable
    and leads back to its domain, and a mapping is kept until the range has been
    walked once around. *)
From S2P Require Import Prelude Bytes RuleItems Netip RuleAction DnsClient FakeIP FakeIPRange.

(** ** Storages *)

(** The two directions of the memory storage agree. *)
Definition memory_represents (s : MemoryStorage) (t : gmap Addr string) : Prop :=
  addressCache s = t ∧
  ∀ v6 d a, Memory_FakeIPLoadDomain d v6 s = Some a ↔ t !! a = Some d ∧ Addr_Is4 a = negb v6.

(** Entering a domain in the map from domains to the addresses of one family,
    with the domain that had the address taken out. *)
Lemma reverse_insert (t : gmap Addr string) (is4 : bool) (f : string → option Addr) a d d' a' :
  (∀ d a, f d = Some a ↔ t !! a = Some d ∧ Addr_Is4 a = is4) → Addr_Is4 a = is4 →
  (∀ a', t !! a' = Some d → Addr_Is4 a' ≠ is4) →
  (if decide (d' = d) then Some a else if decide (t !! a = Some d') then None else f d') = Some a'
  ↔ <[a := d]> t !! a' = Some d' ∧ Addr_Is4 a' = is4.
Proof.
  intros Hf Ha Hnew. rewrite lookup_insert_Some. case_decide as Hd; [subst d'|case_decide as Hold].
  - split; [intros [= ->]; auto|]. intros [[[-> _]|[_ Ha']] Hfam]; [done|]. by destruct (Hnew a').
  - split; [done|]. intros [[[_ ->]|[Hne Ha']] Hfam]; [done|]. exfalso. apply Hne.
    assert (f d' = Some a ∧ f d' = Some a') as [H1 H2] by (split; by apply Hf). congruence.
  - rewrite Hf. split.
    + intros [Ha' Hfam]. split; [|done]. right. split; [by intros <-|done].
    + intros [[[_ ->]|[_ Ha']] Hfam]; done.
Qed.

Lemma reverse_other (t : gmap Addr string) (is4 : bool) (f : string → option Addr) a d d' a' :
  (∀ d a, f d = Some a ↔ t !! a = Some d ∧ Addr_Is4 a = is4) → Addr_Is4 a ≠ is4 →
  f d' = Some a' ↔ <[a := d]> t !! a' = Some d' ∧ Addr_Is4 a' = is4.
Proof. intros Hf Ha. rewrite Hf, lookup_insert_Some. naive_solver. Qed.

Lemma lookup_replace {A} (m : gmap string A) (old : option string) d (a : A) d' :
  <[d := a]> (match old with Some o => delete o m | None => m end) !! d'
  = if decide (d' = d) then Some a else if decide (old = Some d') then None else m !! d'.
Proof.
  rewrite lookup_insert. repeat case_decide; subst; try done.
  - apply lookup_delete_eq.
  - destruct old; [|done]. rewrite lookup_delete_ne; congruence.
Qed.

Lemma memory_store s t a d :
  memory_represents s t → (∀ a', t !! a' = Some d → Addr_Is4 a' ≠ Addr_Is4 a) →
  memory_represents (Memory_FakeIPStore a d s).1 (<[a := d]> t).
Proof.
  intros [<- Hdom] Hnew. split.
  { unfold Memory_FakeIPStore. destruct (addressCache s !! a), (Addr_Is4 a); done. }
  intros v6 d' a'. destruct (decide (Addr_Is4 a = negb v6)) as [Ha|Ha].
  - set (dc := if negb v6 then domainCache4 s else domainCache6 s).
    assert (∀ d a, dc !! d = Some a ↔ addressCache s !! a = Some d ∧ Addr_Is4 a = negb v6) as Hdc.
    { intros. rewrite <-Hdom. by destruct v6. }
    rewrite <-(reverse_insert _ _ (λ d, dc !! d)); [|done|done|by rewrite <-Ha]. cbv beta. rewrite <-lookup_replace.
    unfold Memory_FakeIPStore, Memory_FakeIPLoadDomain. rewrite !Ha. by destruct v6, (addressCache s !! a).
  - rewrite <-(reverse_other _ _ (λ d, Memory_FakeIPLoadDomain d v6 s)); [|apply Hdom|done].
    unfold Memory_FakeIPStore, Memory_FakeIPLoadDomain. by destruct v6, (Addr_Is4 a), (addressCache s !! a).
Qed.

#[export, refine] Instance Memory_laws : FakeIPStorageLaws MemoryStorage := {
  storable _ _ := True;
  represents := memory_represents;
}.
Proof.
  - intros s t a a' d [<- Hdom] Ha Ha' Hf.
    pose proof (proj2 (Hdom (negb (Addr_Is4 a)) d a)) as H1. pose proof (proj2 (Hdom (negb (Addr_Is4 a)) d a')) as H2.
    rewrite negb_involutive in *. specialize (H1 (conj Ha eq_refl)). specialize (H2 (conj Ha' (eq_sym Hf))). congruence.
  - intros s t a [<- _] _ _ _. done.
  - intros s t d v6 [<- Hdom]. eexists. split; [done|]. apply Hdom.
  - intros s t a d Hr _ Hnew. eexists. split; [|by apply memory_store]. done.
  - done.
Defined.

#[export, refine] Instance sum_laws {A B} `{FakeIPStorageLaws A, FakeIPStorageLaws B} : FakeIPStorageLaws (A + B) := {
  storable a d := storable (S := A) a d ∧ storable (S := B) a d;
  represents s t := match s with inl x => represents x t | inr y => represents y t end;
}.
Proof.
  - intros [x|y] t a a' d; apply represents_inj.
  - intros [x|y] t a Hr Hw Hz Hv; cbn; by rewrite (represents_load _ t).
  - intros [x|y] t d v6 Hr; destruct (represents_load_domain _ t d v6 Hr) as (r & Hl & Hs);
      exists r; split; try done; cbn; by rewrite Hl.
  - intros [x|y] t a d Hr [Hs Hs'] Hnew;
      [destruct (represents_store _ t a d Hr Hs Hnew) as (s' & Hst & Hr')
      |destruct (represents_store _ t a d Hr Hs' Hnew) as (s' & Hst & Hr')]; cbn; rewrite Hst; eauto.
  - intros [x|y] t md; cbn; apply represents_save_async.
Defined.

(** ** The invariant of a store *)

(** A range whose third address is not its last; its usable addresses are those
    from the third to the one before the last. *)
Definition wide (p : Prefix) : Prop :=
  wf_prefix p ∧ Prefix_IsValid p = true ∧ (addr_num (p_ip p) + 2 < last_num p)%Z.
Definition usable (p : Prefix) (a : Addr) : Prop :=
  ∃ x, a = addr_of p x ∧ (addr_num (p_ip p) + 2 <= x < last_num p)%Z.
Definition size (p : Prefix) : Z := (last_num p - addr_num (p_ip p) - 2)%Z.

Section store.
Context {S : Type} `{FakeIPStorageLaws S}.

Definition range_of (v6 : bool) (st : Store S) : Prefix := if v6 then inet6Range st else inet4Range st.
Definition last_of (v6 : bool) (st : Store S) : Addr := if v6 then inet6Last st else inet4Last st.
Definition current_of (v6 : bool) (st : Store S) : Addr := if v6 then inet6Current st else inet4Current st.

(** One family of a started store: no range, or a wide one and a current
    address after its base and before its last. *)
Definition family_ok (v6 : bool) (st : Store S) : Prop :=
  (range_of v6 st = mkPrefix AddrInvalid (-1) ∧ current_of v6 st = AddrInvalid) ∨
  (wide (range_of v6 st) ∧ Addr_Is4 (p_ip (range_of v6 st)) = negb v6 ∧
   last_of v6 st = broadcastAddress (range_of v6 st) ∧
   ∃ x, current_of v6 st = addr_of (range_of v6 st) x ∧
        (addr_num (p_ip (range_of v6 st)) < x < last_num (range_of v6 st))%Z).

Definition all_usable (st : Store S) (t : gmap Addr string) : Prop :=
  ∀ a d, t !! a = Some d → usable (range_of (negb (Addr_Is4 a)) st) a.

Record StoreInv (st : Store S) (t : gmap Addr string) : Prop := {
  si_family v6 : family_ok v6 st;
  si_storage : ∃ s, storage st = Some s ∧ represents s t;
  si_usable : all_usable st t;
}.

(** ** Steps *)

Lemma usable_facts p a :
  wide p → usable p a →
  Prefix_Contains p a = true ∧ a ≠ broadcastAddress p ∧ wf_addr a ∧ zone_of a = "" ∧ Addr_IsValid a = true ∧
  Addr_Is4 a = Addr_Is4 (p_ip p).
Proof.
  intros (Hwf & Hv & Hwide) (x & -> & Hx). pose proof (base_in_interval p Hwf Hv). pose proof (last_num_range p Hwf Hv).
  assert (0 <= addr_num (p_ip p))%Z by (destruct Hwf as (Ha & _); destruct (p_ip p); cbn in *; lia).
  destruct (addr_of_shape p Hv x) as (Hwa & Hz & Hva & H4 & Hn); [lia|]. repeat split; try done.
  - apply (Contains_addr_of p Hwf Hv). lia.
  - rewrite (broadcastAddress_last p Hwf Hv). intros ->%(addr_of_inj p Hv). lia.
Qed.

Lemma set_storage_id (st : Store S) s : storage st = Some s → set_storage s st = st.
Proof. destruct st. cbn. by intros ->. Qed.

Lemma Create_fast_spec st t d v6 :
  StoreInv st t →
  ∃ r, Create_fast d v6 st = (st, Ok r) ∧ ∀ a, r = Some a ↔ t !! a = Some d ∧ Addr_Is4 a = negb v6.
Proof.
  intros [_ (s & Hs & Hr) _]. unfold Create_fast. rewrite Hs.
  destruct (represents_load_domain s t d v6 Hr) as (r & -> & Hl). exists r. by rewrite set_storage_id.
Qed.

Lemma Lookup_spec st t a :
  StoreInv st t → wf_addr a → zone_of a = "" → Addr_IsValid a = true → Lookup a st = (st, Ok (t !! a)).
Proof.
  intros [_ (s & Hs & Hr) _] Hw Hz Hv. unfold Lookup. rewrite Hs, (represents_load s t a Hr Hw Hz Hv).
  by rewrite set_storage_id.
Qed.

(** The next address of a family is usable, and follows the current one in the
    circle of usable addresses. *)
Definition succ_num (p : Prefix) (x : Z) : Z :=
  if decide (x + 1 = last_num p)%Z then (addr_num (p_ip p) + 2)%Z else (x + 1)%Z.

Lemma succ_num_usable p x :
  wide p → (addr_num (p_ip p) < x < last_num p)%Z →
  (addr_num (p_ip p) + 2 <= succ_num p x < last_num p)%Z ∧
  ∀ y, ((succ_num p x - y) mod size p = (x - y + 1) mod size p)%Z.
Proof.
  intros (Hwf & Hv & Hwide) Hx. unfold succ_num, size. case_decide as Hl; (split; [lia|]); intros y.
  - replace (x - y + 1)%Z with (addr_num (p_ip p) + 2 - y + 1 * (last_num p - addr_num (p_ip p) - 2))%Z by lia.
    by rewrite Z_mod_plus_full.
  - f_equal. lia.
Qed.

(** Ranges and last addresses never change. *)
Definition same_config (st st' : Store S) : Prop :=
  ∀ v6, range_of v6 st' = range_of v6 st ∧ last_of v6 st' = last_of v6 st.

(** The current address of one family is replaced. *)
Definition advance (v6 : bool) (a : Addr) (st : Store S) : Store S :=
  if v6 then set_current (inet4Current st) a st else set_current a (inet6Current st) st.

Lemma advance_family v6 y st v :
  (∀ v, family_ok v st) → Prefix_IsValid (range_of v6 st) = true →
  (addr_num (p_ip (range_of v6 st)) < y < last_num (range_of v6 st))%Z →
  family_ok v (advance v6 (addr_of (range_of v6 st) y) st).
Proof.
  intros Hfams Hv Hy. pose proof (Hfams v) as Hfam. destruct (decide (v = v6)) as [->|Hne].
  - destruct Hfam as [[Hbad _]|(Hw & H4 & Hl & _)]; [by rewrite Hbad in Hv|]. right.
    destruct v6; cbn in *; repeat (split; [done|]); eauto.
  - by destruct v, v6.
Qed.

(** What [Create] does when the domain has no address yet. *)
Lemma Create_new st t d v6 x :
  StoreInv st t → wide (range_of v6 st) → Addr_Is4 (p_ip (range_of v6 st)) = negb v6 →
  current_of v6 st = addr_of (range_of v6 st) x → (addr_num (p_ip (range_of v6 st)) < x < last_num (range_of v6 st))%Z →
  (∀ a, usable (range_of v6 st) a → storable a d) →
  (∀ a, t !! a = Some d → Addr_Is4 a ≠ negb v6) →
  let a := addr_of (range_of v6 st) (succ_num (range_of v6 st) x) in
  ∃ st', Create d v6 st = (st', Ok a) ∧ StoreInv st' (<[a := d]> t) ∧ same_config st st' ∧
         current_of v6 st' = a ∧ current_of (negb v6) st' = current_of (negb v6) st.
Proof.
  intros HI Hwide Hfam Hcur Hx Hst Hnew. pose proof Hwide as (Hwf & Hv & Hw). set (p := range_of v6 st) in *. intros a.
  destruct (Create_fast_spec st t d v6 HI) as (r & Hfast & Hr).
  assert (r = None) as ->.
  { destruct r as [a'|]; [|done]. destruct (proj1 (Hr a') eq_refl) as [Ha Hf]. by apply Hnew in Ha. }
  destruct (succ_num_usable p x Hwide Hx) as [Hsucc _].
  assert (usable p a) as Hua by (by exists (succ_num p x)).
  destruct (usable_facts p a Hwide Hua) as (Hc & Hb & Hwa & Hz & Hva & H4).
  assert (Addr_IsValid (current_of v6 st) = true) as Hvalid.
  { rewrite Hcur. unfold Prefix_IsValid, addr_of in *. by destruct (p_ip p). }
  destruct HI as [Hfams (s & Hs & Hrep) Hus].
  assert (next_address (range_of v6 st) (last_of v6 st) (current_of v6 st) = a) as Hnext.
  { destruct (Hfams v6) as [[Hbad _]|(_ & _ & -> & _)]; [unfold p in Hv; by rewrite Hbad in Hv|].
    rewrite Hcur. by apply next_address_addr_of. }
  destruct (represents_store s t a d Hrep (Hst a Hua)) as (s' & Hstore & Hrep').
  { intros a' Ha'. rewrite H4, Hfam. by apply Hnew. }
  exists (set_storage (FakeIPSaveMetadataAsync (store_metadata (advance v6 a st)) s') (advance v6 a st)).
  split.
  { unfold Create. rewrite Hfast. unfold Create_locked. rewrite Hfast. destruct v6; cbn in *;
      rewrite Hvalid, Hnext; cbn; rewrite Hs; cbn; rewrite Hstore; reflexivity. }
  split; [|by repeat split; destruct v6].
  split.
  - intros v. pose proof (advance_family v6 (succ_num p x) st v Hfams Hv ltac:(unfold p in *; lia)) as Hfo.
    destruct v, v6; exact Hfo.
  - eexists. split; [by destruct v6|]. by apply represents_save_async.
  - intros a' d'. rewrite lookup_insert_Some. intros [[<- <-]|[_ Ha']].
    + rewrite H4, Hfam, negb_involutive. by destruct v6.
    + specialize (Hus a' d' Ha'). by destruct v6, (Addr_Is4 a').
Qed.

Lemma Create_known st t d v6 a :
  StoreInv st t → t !! a = Some d → Addr_Is4 a = negb v6 → Create d v6 st = (st, Ok a).
Proof.
  intros HI Ha Hf. destruct (Create_fast_spec st t d v6 HI) as (r & Hfast & Hr).
  assert (r = Some a) as -> by by apply Hr. unfold Create. by rewrite Hfast.
Qed.

Lemma Create_no_range st t d v6 :
  StoreInv st t → range_of v6 st = mkPrefix AddrInvalid (-1) → ∃ e, Create d v6 st = (st, Err e).
Proof.
  intros HI Hrange. destruct (Create_fast_spec st t d v6 HI) as (r & Hfast & Hr).
  destruct HI as [Hfams _ Hus]. destruct (Hfams v6) as [[_ Hcur]|((_ & Hv & _) & _)]; [|by rewrite Hrange in Hv].
  destruct r as [a|].
  { destruct (proj1 (Hr a) eq_refl) as [Ha Hf]. destruct (Hus a d Ha) as (x & _ & Hx).
    exfalso. rewrite Hf, negb_involutive, Hrange in Hx.
    change (last_num (mkPrefix AddrInvalid (-1))) with 1%Z in Hx. cbn [addr_num p_ip] in Hx. lia. }
  unfold Create. rewrite Hfast. unfold Create_locked. rewrite Hfast.
  destruct v6; cbn in *; rewrite Hcur; cbn; eauto.
Qed.

(** One request, whatever its outcome. *)
Lemma Create_step st t d v6 :
  StoreInv st t → (∀ a, usable (range_of v6 st) a → storable a d) →
  (Create d v6 st).1 = st ∨
  ∃ x, let p := range_of v6 st in let a := addr_of p (succ_num p x) in
    wide p ∧ Addr_Is4 (p_ip p) = negb v6 ∧ current_of v6 st = addr_of p x ∧ (addr_num (p_ip p) < x < last_num p)%Z ∧
    StoreInv (Create d v6 st).1 (<[a := d]> t) ∧ same_config st (Create d v6 st).1 ∧
    current_of v6 (Create d v6 st).1 = a ∧ current_of (negb v6) (Create d v6 st).1 = current_of (negb v6) st.
Proof.
  intros HI Hst. destruct (Create_fast_spec st t d v6 HI) as (r & Hfast & Hr). destruct r as [a|].
  { left. unfold Create. by rewrite Hfast. }
  destruct (si_family st t HI v6) as [[Hrange _]|(Hwide & Hfam & _ & x & Hcur & Hx)].
  { left. by destruct (Create_no_range st t d v6 HI Hrange) as [e ->]. }
  right. exists x. destruct (Create_new st t d v6 x HI Hwide Hfam Hcur Hx Hst) as (st' & -> & ?); [|naive_solver].
  intros a Ha Hf. discriminate (proj2 (Hr a) (conj Ha Hf)).
Qed.

(** A run of requests. *)
Definition Creates (reqs : list (string * bool)) (st : Store S) : Store S :=
  foldl (λ st r, (Create r.1 r.2 st).1) st reqs.
(** The domains other than [d] that are asked for in a family. *)
Definition others_of (d : string) (v6 : bool) (reqs : list (string * bool)) : gset string :=
  list_to_set (filter (λ r, r.2 = v6) reqs).*1 ∖ {[d]}.

(** The domain [d] holds the address with number [x0]; since then the domains
    [D] were given the addresses that follow, up to the current one, and each
    still has its own. *)
Definition kept (st : Store S) (d : string) (v6 : bool) (x0 : Z) (D : gset string) : Prop :=
  ∃ t x, let p := range_of v6 st in let given := Z.of_nat (base.size D) in
    StoreInv st t ∧ wide p ∧ Addr_Is4 (p_ip p) = negb v6 ∧
    t !! addr_of p x0 = Some d ∧ (addr_num (p_ip p) + 2 <= x0 < last_num p)%Z ∧
    current_of v6 st = addr_of p x ∧ (addr_num (p_ip p) + 2 <= x < last_num p)%Z ∧
    ((x - x0) mod size p = given)%Z ∧ d ∉ D ∧
    ∀ e, e ∈ D → ∃ y, t !! addr_of p y = Some e ∧ (addr_num (p_ip p) + 2 <= y < last_num p)%Z ∧
      (0 < (y - x0) mod size p <= given)%Z.

(** Asking for a domain that has its address changes nothing. *)
Lemma kept_asked st d v6 x0 D e : kept st d v6 x0 D → e ∈ ({[d]} ∪ D : gset string) → (Create e v6 st).1 = st.
Proof.
  intros (t & x & HI & Hwide & Hfam & Ht & Hx0 & _ & _ & _ & _ & HD) He.
  assert (∃ y, t !! addr_of (range_of v6 st) y = Some e ∧ (addr_num (p_ip (range_of v6 st)) + 2 <= y < last_num (range_of v6 st))%Z) as (y & Hy & Hb).
  { apply elem_of_union in He as [->%elem_of_singleton|He]; [by exists x0|]. destruct (HD e He) as (y & ? & ? & _). by exists y. }
  assert (usable (range_of v6 st) (addr_of (range_of v6 st) y)) as Hu by by exists y.
  destruct (usable_facts _ _ Hwide Hu) as (_ & _ & _ & _ & _ & H4).
  by rewrite (Create_known st t e v6 _ HI Hy) by congruence.
Qed.

(** A request of the other family. *)
Lemma kept_elsewhere st d v6 x0 D r :
  kept st d v6 x0 D → r.2 ≠ v6 → (∀ a, usable (range_of r.2 st) a → storable a r.1) →
  same_config st (Create r.1 r.2 st).1 ∧ kept (Create r.1 r.2 st).1 d v6 x0 D.
Proof.
  intros Hk Hne Hst. pose proof Hk as (t & x & HI & Hwide & Hfam & Ht & Hx0 & Hcur & Hx & Hj & Hd & HD).
  destruct (Create_step st t r.1 r.2 HI Hst) as [->|(y & Hwy & Hfy & Hcy & Hy & HI' & Hcfg & Hc1 & Hc2)]; [done|].
  split; [done|]. destruct r as [d' v']; cbn [fst snd] in *. destruct (Hcfg v6) as [Hrange _]. unfold kept. rewrite Hrange.
  assert (v6 = negb v') as Hv6 by (by destruct v6, v').
  assert (∀ z, <[addr_of (range_of v' st) (succ_num (range_of v' st) y) := d']> t !! addr_of (range_of v6 st) z = t !! addr_of (range_of v6 st) z) as Hsame.
  { intros z. apply lookup_insert_ne. intros Heq. apply (f_equal Addr_Is4) in Heq. destruct Hwide as (_ & Hv & _), Hwy as (_ & Hvy & _).
    unfold addr_of, Prefix_IsValid in *. destruct (p_ip (range_of v' st)), (p_ip (range_of v6 st)), v', v6; cbn in *; done. }
  eexists _, x. split; [exact HI'|]. rewrite Hsame. split_and!; try done; [lia..|by rewrite Hv6, Hc2, <-Hv6|lia|lia|].
  intros e He. destruct (HD e He) as (z & Hz & Hrest). exists z. by rewrite Hsame.
Qed.

(** A request for another domain of the family takes at most the next address. *)
Lemma kept_given st d v6 x0 D e :
  kept st d v6 x0 D → e ∉ ({[d]} ∪ D : gset string) → (∀ a, usable (range_of v6 st) a → storable a e) →
  (Z.of_nat (base.size D) + 1 < size (range_of v6 st))%Z →
  same_config st (Create e v6 st).1 ∧ (kept (Create e v6 st).1 d v6 x0 D ∨ kept (Create e v6 st).1 d v6 x0 ({[e]} ∪ D)).
Proof.
  intros Hk He Hst Hsize. pose proof Hk as (t & x & HI & Hwide & Hfam & Ht & Hx0 & Hcur & Hx & Hj & Hd & HD).
  destruct (Create_step st t e v6 HI Hst) as [->|(y & _ & _ & Hcy & Hy & HI' & Hcfg & Hc1 & _)]; [by split; [|left]|].
  split; [done|right]. destruct (Hcfg v6) as [Hrange _]. unfold kept. rewrite Hrange. pose proof Hwide as (_ & Hv & _).
  rewrite Hcur in Hcy. apply (addr_of_inj _ Hv) in Hcy as <-. set (p := range_of v6 st) in *.
  destruct (succ_num_usable p x Hwide Hy) as [Hs Hmod].
  assert (base.size ({[e]} ∪ D) = Datatypes.S (base.size D)) as HeD.
  { rewrite size_union by set_solver. by rewrite size_singleton. }
  assert ((succ_num p x - x0) mod size p = Z.of_nat (base.size ({[e]} ∪ D)))%Z as Hj'.
  { rewrite Hmod, <-Zplus_mod_idemp_l, Hj, HeD. rewrite Z.mod_small; lia. }
  assert (∀ z, (z - x0) mod size p <= Z.of_nat (base.size D) → <[addr_of p (succ_num p x) := e]> t !! addr_of p z = t !! addr_of p z)%Z as Hsame.
  { intros z Hz. apply lookup_insert_ne. intros Heq%(addr_of_inj _ Hv). subst z. lia. }
  eexists _, (succ_num p x). split; [exact HI'|]. split_and!; try done; [|lia..|set_solver|].
  - rewrite Hsame; [done|]. rewrite Z.sub_diag, Z.mod_0_l by lia. lia.
  - intros e' [->%elem_of_singleton|He']%elem_of_union.
    + exists (succ_num p x). rewrite lookup_insert_eq. split; [done|]. split; [lia|]. rewrite Hj'. lia.
    + destruct (HD e' He') as (z & Hz & Hb & Hoff). exists z. rewrite Hsame by lia. split; [done|]. split; [done|]. lia.
Qed.

Lemma kept_run reqs st d v6 x0 D :
  kept st d v6 x0 D → (∀ r, r ∈ reqs → ∀ a, usable (range_of r.2 st) a → storable a r.1) →
  (Z.of_nat (base.size (D ∪ others_of d v6 reqs)) < size (range_of v6 st))%Z →
  same_config st (Creates reqs st) ∧ ∃ D', kept (Creates reqs st) d v6 x0 D'.
Proof.
  revert st D. induction reqs as [|[e v] reqs IH]; intros st D Hk Hst Hsize; cbn [Creates foldl].
  { split; [done|]. eauto. }
  assert (∀ D', kept (Create e v st).1 d v6 x0 D' → same_config st (Create e v st).1 →
    D' ∪ others_of d v6 reqs ⊆ D ∪ others_of d v6 ((e, v) :: reqs) →
    same_config st (Creates reqs (Create e v st).1) ∧ ∃ D', kept (Creates reqs (Create e v st).1) d v6 x0 D') as Hnext.
  { intros D' Hk' Hcfg Hsub. destruct (IH (Create e v st).1 D' Hk') as (Hcfg' & Hend).
    - intros r' Hr'. destruct (Hcfg r'.2) as [-> _]. apply Hst. by right.
    - destruct (Hcfg v6) as [-> _]. pose proof (subseteq_size _ _ Hsub). lia.
    - split; [|done]. intros v'. destruct (Hcfg v') as [<- <-]. apply Hcfg'. }
  pose proof (Hst (e, v) (list_elem_of_here _ _)) as Hse. cbn [fst snd] in Hse.
  assert (others_of d v6 reqs ⊆ others_of d v6 ((e, v) :: reqs)) as Hmono.
  { unfold others_of. rewrite filter_cons. case_decide; [set_solver|done]. }
  destruct (decide (v = v6)) as [->|Hne].
  2: { destruct (kept_elsewhere st d v6 x0 D (e, v) Hk Hne Hse) as [Hcfg Hk']. apply (Hnext D Hk' Hcfg). set_solver. }
  destruct (decide (e ∈ ({[d]} ∪ D : gset string))) as [He|He].
  { pose proof (kept_asked st d v6 x0 D e Hk He) as Heq. apply (Hnext D); [by rewrite Heq|rewrite Heq; done|set_solver]. }
  assert (e ∈ others_of d v6 ((e, v6) :: reqs)) as Hin.
  { unfold others_of. rewrite filter_cons, decide_True by done. set_solver. }
  destruct (kept_given st d v6 x0 D e Hk He Hse) as [Hcfg [Hk'|Hk']].
  - assert ({[e]} ∪ D ⊆ D ∪ others_of d v6 ((e, v6) :: reqs)) as Hsub by set_solver. pose proof (subseteq_size _ _ Hsub) as Hle.
    rewrite size_union, size_singleton in Hle by set_solver. lia.
  - apply (Hnext D Hk' Hcfg). set_solver.
  - apply (Hnext _ Hk' Hcfg). set_solver.
Qed.

(** A new domain is allocated. *)
Lemma kept_start st t d v6 :
  StoreInv st t → Prefix_IsValid (range_of v6 st) = true → (∀ a, usable (range_of v6 st) a → storable a d) →
  (Create_fast d v6 st).2 = Ok None →
  ∃ st1 x0, Create d v6 st = (st1, Ok (addr_of (range_of v6 st) x0)) ∧ same_config st st1 ∧ kept st1 d v6 x0 ∅.
Proof.
  intros HI Hv Hst Hnone. destruct (si_family st t HI v6) as [[Hbad _]|(Hwide & Hfam & _ & x & Hcur & Hx)]; [by rewrite Hbad in Hv|].
  destruct (Create_fast_spec st t d v6 HI) as (r & Hfast & Hr). rewrite Hfast in Hnone. cbn in Hnone. simplify_eq.
  destruct (Create_new st t d v6 x HI Hwide Hfam Hcur Hx Hst) as (st1 & Hcr & HI1 & Hcfg & Hc & _).
  { intros a Ha Hf. discriminate (proj2 (Hr a) (conj Ha Hf)). }
  destruct (succ_num_usable _ x Hwide Hx) as [Hs _].
  eexists _, _. split; [done|]. split; [done|]. unfold kept. destruct (Hcfg v6) as [-> _].
  eexists _, (succ_num (range_of v6 st) x). split; [done|]. split; [done|]. split; [done|].
  split; [apply lookup_insert_eq|]. split; [done|]. split; [done|]. split; [done|]. split; [by rewrite Z.sub_diag, size_empty|]. set_solver.
Qed.

(** What holds while a domain is kept. *)
Lemma kept_answers st d v6 x0 D :
  kept st d v6 x0 D → let a := addr_of (range_of v6 st) x0 in
  Lookup a st = (st, Ok (Some d)) ∧ Create d v6 st = (st, Ok a) ∧ Contains st a = true ∧ a ≠ last_of v6 st.
Proof.
  intros (t & x & HI & Hwide & Hfam & Ht & Hx0 & _) a.
  change (t !! a = Some d) in Ht. assert (usable (range_of v6 st) a) as Hu by by exists x0.
  destruct (usable_facts _ _ Hwide Hu) as (Hc & Hb & Hwa & Hz & Hva & H4).
  split; [by rewrite (Lookup_spec st t a HI Hwa Hz Hva), Ht|].
  split; [apply (Create_known st t d v6 a HI Ht); congruence|].
  split; [unfold Contains; destruct v6; cbn in *; rewrite Hc, ?orb_true_r; done|].
  destruct (si_family st t HI v6) as [[Hbad _]|(_ & _ & -> & _)]; [|done].
  destruct Hwide as (_ & Hv & _). by rewrite Hbad in Hv.
Qed.
End store.
