(* ===== verification/CacheFileProps.v ===== *)
(** * Properties of the cache file

    The cache file is a fake-IP storage like the one in memory, keeps what is
    stored in it, and survives a restart; what it does not do when its buckets
    are reset or when the timer fires is shown too. *)
From S2P Require Import Prelude Bytes RuleItems Netip FakeIP CacheFile FakeIPRange FakeIPProps.

(** ** Databases as functions *)

Section bolt.
Context `{BoltLaws} `{SingAddr}.

(** The value of a key of a bucket. *)
Definition value (m : contents) (p : path) (k : bytes) : option bytes := m !! p ≫= (.!! k).

(** The same buckets. *)
Definition same_buckets (m m' : contents) : Prop := ∀ p, m' !! p = None ↔ m !! p = None.

Lemma value_insert m p kv p' k :
  value (<[p := kv]> m) p' k = if decide (p' = p) then kv !! k else value m p' k.
Proof. unfold value. rewrite lookup_insert. repeat case_decide; by subst. Qed.

Lemma value_missing m p k : m !! p = None → value m p k = None.
Proof. unfold value. by intros ->. Qed.

Lemma bolt_get db m p k : holds db m → m !! p ≠ None → Get p k db = Ok (value m p k).
Proof. intros Hh Hp. destruct (m !! p) as [kv|] eqn:E; [|done]. unfold value. rewrite E. by apply (bolt_Get db m p kv k). Qed.

Lemma bolt_create db m q n :
  holds db m → n ≠ [] → (q = [] ∨ m !! q ≠ None ∧ value m q n = None) →
  ∃ db' m', CreateBucketIfNotExists (q ++ [n]) db = Ok db' ∧ holds db' m' ∧ m' !! (q ++ [n]) ≠ None ∧
    (∀ p k, value m' p k = value m p k) ∧ (∀ p, p ≠ q ++ [n] → m' !! p = m !! p).
Proof.
  intros Hh Hn Hq. destruct (m !! (q ++ [n])) as [kv|] eqn:E.
  - exists db, m. rewrite (bolt_Create_old db m _ kv Hh E). repeat split; try done. by rewrite E.
  - destruct (bolt_Create_new db m q n Hh E Hn) as (db' & Hc & Hh').
    { destruct Hq as [->|[Hq Hv]]; [by left|right]. unfold value in Hv. destruct (m !! q) as [kv|]; [|done]. eauto. }
    exists db', (<[q ++ [n] := ∅]> m). repeat split; try done.
    + by rewrite lookup_insert_eq.
    + intros p k. rewrite value_insert. case_decide; [subst|done]. by rewrite (value_missing m), lookup_empty.
    + intros p Hp. by rewrite lookup_insert_ne.
Qed.

Lemma bolt_create_top db m n :
  holds db m → n ≠ [] →
  ∃ db' m', CreateBucketIfNotExists [n] db = Ok db' ∧ holds db' m' ∧ m' !! [n] ≠ None ∧
    (∀ p k, value m' p k = value m p k) ∧ (∀ p, p ≠ [n] → m' !! p = m !! p).
Proof. intros Hh Hn. apply (bolt_create db m [] n Hh Hn). by left. Qed.

Lemma same_buckets_insert m p kv : m !! p ≠ None → same_buckets m (<[p := kv]> m).
Proof. intros Hp q. rewrite lookup_insert. case_decide; subst; [|done]. split; [done|]. by intros ?. Qed.

Lemma bolt_put db m p k v :
  holds db m → m !! p ≠ None → k ≠ [] → (Z.of_nat (length k) <= MaxKeySize)%Z → (Z.of_nat (length v) < 2 ^ 31 - 1)%Z →
  m !! (p ++ [k]) = None →
  ∃ db' m', Put p k v db = Ok db' ∧ holds db' m' ∧ same_buckets m m' ∧
    ∀ p' k', value m' p' k' = if decide (p' = p ∧ k' = k) then Some v else value m p' k'.
Proof.
  intros Hh Hp Hk Hlk Hlv Hsub. destruct (m !! p) as [kv|] eqn:E; [|done].
  destruct (bolt_Put db m p kv k v Hh E Hk Hlk Hlv Hsub) as (db' & Hput & Hh').
  exists db', (<[p := <[k := v]> kv]> m). repeat split; try done; [apply same_buckets_insert; congruence..|].
  intros p' k'. rewrite value_insert. unfold value. repeat case_decide; subst; try tauto.
  - destruct_and!; subst. by rewrite lookup_insert_eq.
  - rewrite lookup_insert_ne by naive_solver. by rewrite E.
Qed.

Lemma bolt_delete db m p k :
  holds db m → m !! p ≠ None → m !! (p ++ [k]) = None →
  ∃ db' m', Delete p k db = Ok db' ∧ holds db' m' ∧ same_buckets m m' ∧
    ∀ p' k', value m' p' k' = if decide (p' = p ∧ k' = k) then None else value m p' k'.
Proof.
  intros Hh Hp Hsub. destruct (m !! p) as [kv|] eqn:E; [|done].
  destruct (bolt_Delete db m p kv k Hh E Hsub) as (db' & Hdel & Hh').
  exists db', (<[p := delete k kv]> m). repeat split; try done; [apply same_buckets_insert; congruence..|].
  intros p' k'. rewrite value_insert. unfold value. repeat case_decide; subst; try tauto.
  - destruct_and!; subst. by rewrite lookup_delete_eq.
  - rewrite lookup_delete_ne by naive_solver. by rewrite E.
Qed.

Lemma same_buckets_None m m' p : same_buckets m m' → m !! p = None → m' !! p = None.
Proof. intros Hs Hp. by apply Hs. Qed.

Lemma same_buckets_Some m m' p : same_buckets m m' → m !! p ≠ None → m' !! p ≠ None.
Proof. intros Hs Hp Hp'. by apply Hp, Hs. Qed.

(** ** The fake-IP table of a file *)

Definition key_addr (a : Addr) : Prop := wf_addr a ∧ zone_of a = "" ∧ Addr_IsValid a = true.

Lemma AsSlice_inj a a' : key_addr a → key_addr a' → AsSlice a = AsSlice a' → a = a'.
Proof.
  intros (Hw & Hz & Hv) (Hw' & Hz' & Hv') Heq. apply (f_equal AddrFromSlice) in Heq.
  rewrite !AddrFromSlice_AsSlice in Heq by done. congruence.
Qed.

Lemma AsSlice_length a : key_addr a → length (AsSlice a) = 4 ∨ length (AsSlice a) = 16.
Proof. intros (_ & _ & Hv). destruct a; [done|left|right]; apply length_be. Qed.

Lemma AsSlice_nonempty a : key_addr a → AsSlice a ≠ [].
Proof. intros Ha HA. pose proof (AsSlice_length a Ha) as Hl. rewrite HA in Hl. cbn in Hl. lia. Qed.

Lemma bytes_of_inj s s' : bytes_of s = bytes_of s' → s = s'.
Proof. intros Heq. rewrite <-(string_of_list_of_string s), Heq. apply string_of_list_of_string. Qed.

Lemma bytes_of_nonempty s : s ≠ "" → bytes_of s ≠ [].
Proof. by destruct s. Qed.

Lemma length_bytes_of s : length (bytes_of s) = String.length s.
Proof. induction s; cbn; congruence. Qed.

(** No bucket in the three buckets. *)
Definition flat (m : contents) : Prop :=
  ∀ k, m !! [bucketFakeIP; k] = None ∧ ∀ is4, m !! [domain_bucket is4; k] = None.

Record file_table (m : contents) (t : gmap Addr string) : Prop := {
  ft_flat : flat m;
  ft_keys a d : t !! a = Some d → key_addr a ∧ d ≠ "";
  ft_addresses a : key_addr a → value m [bucketFakeIP] (AsSlice a) = bytes_of <$> t !! a;
  ft_domains is4 : ∃ f, (∀ d, value m [domain_bucket is4] (bytes_of d) = AsSlice <$> f d) ∧
                        ∀ d a, f d = Some a ↔ t !! a = Some d ∧ Addr_Is4 a = is4;
}.

Definition file_represents (c : CacheFile) (t : gmap Addr string) : Prop :=
  saveDomain c = ∅ ∧ saveAddress4 c = ∅ ∧ saveAddress6 c = ∅ ∧ ∃ m, holds (db c) m ∧ file_table m t.

(** A key the three buckets can hold without a clash. *)
Definition file_storable (a : Addr) (d : string) : Prop := key_addr a ∧ d ≠ "" ∧ (Z.of_nat (String.length d) <= MaxKeySize)%Z.

Lemma flat_create m m' n : (∀ p, p ≠ [n] → m' !! p = m !! p) → flat m → flat m'.
Proof. intros Hs Hf k. destruct (Hf k) as [E1 E2]. split; [|intros is4]; by rewrite Hs. Qed.

Lemma flat_same m m' : same_buckets m m' → flat m → flat m'.
Proof. intros Hs Hf k. destruct (Hf k) as [E1 E2]. split; [|intros is4]; by apply Hs. Qed.

Lemma domain_bucket_nonempty is4 : domain_bucket is4 ≠ [].
Proof. by destruct is4. Qed.

Lemma domain_bucket_inj is4 is4' : domain_bucket is4 = domain_bucket is4' → is4 = is4'.
Proof. by destruct is4, is4'. Qed.

Lemma domain_bucket_ne is4 : domain_bucket is4 ≠ bucketFakeIP.
Proof. by destruct is4. Qed.

(** The transaction of [FakeIPStore]. *)
Lemma store_transaction c m a d :
  holds (db c) m → flat m → file_storable a d →
  ∃ db' m', File_FakeIPStore a d c = (set_db db' c, None) ∧ holds db' m' ∧ flat m' ∧
    (∀ p, p ≠ [bucketFakeIP] → p ≠ [domain_bucket (Addr_Is4 a)] → m' !! p = None ↔ m !! p = None) ∧
    ∀ p k, value m' p k =
      if decide (p = [domain_bucket (Addr_Is4 a)] ∧ k = bytes_of d) then Some (AsSlice a)
      else if decide (p = [domain_bucket (Addr_Is4 a)] ∧ value m [bucketFakeIP] (AsSlice a) = Some k) then None
      else if decide (p = [bucketFakeIP] ∧ k = AsSlice a) then Some (bytes_of d)
      else value m p k.
Proof.
  intros Hh Hflat (Ha & Hd & Hlen). set (D := domain_bucket (Addr_Is4 a)).
  pose proof (AsSlice_length a Ha) as HlA. pose proof (bytes_of_nonempty d Hd) as HdB.
  pose proof (length_bytes_of d) as HlD. unfold MaxKeySize in *.
  destruct (bolt_create_top (db c) m bucketFakeIP Hh) as (db1 & m1 & Hc1 & Hh1 & Hs1 & Hv1 & Hp1); [done|].
  pose proof (flat_create _ _ _ Hp1 Hflat) as Hf1.
  destruct (bolt_put db1 m1 [bucketFakeIP] (AsSlice a) (bytes_of d) Hh1 Hs1) as (db2 & m2 & Hc2 & Hh2 & Hs2 & Hv2);
    [by apply AsSlice_nonempty|unfold MaxKeySize; lia|rewrite HlD; lia|exact (proj1 (Hf1 _))|].
  pose proof (flat_same _ _ Hs2 Hf1) as Hf2.
  destruct (bolt_create_top db2 m2 D Hh2) as (db3 & m3 & Hc3 & Hh3 & Hs3 & Hv3 & Hp3); [apply domain_bucket_nonempty|].
  pose proof (flat_create _ _ _ Hp3 Hf2) as Hf3.
  assert (∃ db4 m4, match value m [bucketFakeIP] (AsSlice a) with None => Ok db3 | Some old => Delete [D] old db3 end = Ok db4 ∧
    holds db4 m4 ∧ same_buckets m3 m4 ∧
    ∀ p k, value m4 p k = if decide (p = [D] ∧ value m [bucketFakeIP] (AsSlice a) = Some k) then None else value m3 p k)
    as (db4 & m4 & Hc4 & Hh4 & Hs4 & Hv4).
  { destruct (value m [bucketFakeIP] (AsSlice a)) as [old|].
    - destruct (bolt_delete db3 m3 [D] old Hh3 Hs3) as (db4 & m4 & Hc4 & Hh4 & Hs4 & Hv4); [exact (proj2 (Hf3 _) _)|].
      exists db4, m4. repeat split; try done; [apply Hs4..|]. intros p k. rewrite Hv4. apply decide_ext. naive_solver.
    - exists db3, m3. repeat split; try done. intros p k. case_decide; naive_solver. }
  pose proof (flat_same _ _ Hs4 Hf3) as Hf4.
  destruct (bolt_put db4 m4 [D] (bytes_of d) (AsSlice a) Hh4) as (db5 & m5 & Hc5 & Hh5 & Hs5 & Hv5);
    [by apply (same_buckets_Some m3)|done|unfold MaxKeySize; lia|lia|exact (proj2 (Hf4 _) _)|].
  exists db5, m5. split; [|split; [done|]; split; [by apply (flat_same m4)|]; split].
  - unfold File_FakeIPStore, failure, batch, done_with. rewrite Hc1. cbn [result_bind].
    rewrite (bolt_get db1 m1), Hv1 by done. cbn [result_bind]. rewrite Hc2. cbn [result_bind]. fold D. rewrite Hc3.
    cbn [result_bind]. rewrite Hc4. cbn [result_bind]. by rewrite Hc5.
  - intros p HpF HpD. rewrite (Hs5 p), (Hs4 p), Hp3, (Hs2 p), Hp1 by done. done.
  - intros p k. by rewrite Hv5, Hv4, Hv3, Hv2, Hv1.
Qed.

(** ** The file keeps the promises of a storage *)

(** A load of one key of one bucket, as [view] makes it. *)
Lemma view_value {A} (c : CacheFile) m p k (dflt : A) (f : option bytes → A) :
  holds (db c) m → f None = dflt →
  view (λ tx, let? exists_ := Bucket p tx in
              if negb exists_ then Ok dflt else let? v := Get p k tx in Ok (f v)) c = (c, Ok (f (value m p k))).
Proof.
  intros Hh Hf. unfold view. rewrite (bolt_Bucket (db c) m p Hh). cbn [result_bind].
  case_bool_decide as Hp; cbn [negb].
  - rewrite (bolt_get (db c) m p k Hh) by by apply not_eq_None_Some. done.
  - by rewrite value_missing, Hf by by apply eq_None_not_Some.
Qed.

Lemma file_load c t a : file_represents c t → key_addr a → File_FakeIPLoad a c = (c, t !! a).
Proof.
  intros (HsD & _ & _ & m & Hh & Ht) Ha. unfold File_FakeIPLoad. rewrite HsD, lookup_empty.
  rewrite (view_value c m _ _ "" (λ v, string_of (default [] v)) Hh eq_refl).
  rewrite (ft_addresses m t Ht a) by done. destruct (t !! a) as [d|] eqn:Hd; cbn; [|done].
  rewrite string_of_list_of_string, decide_False; [done|]. by eapply (ft_keys m t Ht).
Qed.

Lemma file_load_domain c t d v6 :
  file_represents c t →
  ∃ r, File_FakeIPLoadDomain d v6 c = (c, r) ∧ ∀ a, r = Some a ↔ t !! a = Some d ∧ Addr_Is4 a = negb v6.
Proof.
  intros (_ & Hs4 & Hs6 & m & Hh & Ht). unfold File_FakeIPLoadDomain. rewrite Hs4, Hs6.
  assert ((if negb v6 then ∅ else ∅ : gmap string Addr) !! d = None) as ->.
  { destruct v6; apply lookup_empty. }
  assert (AddrFromIP [] = AddrInvalid) as Hnil by (by apply (AddrFromIP_AsSlice AddrInvalid)).
  rewrite (view_value c m [domain_bucket (negb v6)] (bytes_of d) AddrInvalid (λ v, AddrFromIP (default [] v)) Hh Hnil).
  destruct (ft_domains m t Ht (negb v6)) as (f & Hf & Hspec). rewrite Hf. exists (f d). split; [|apply Hspec].
  destruct (f d) as [a|] eqn:E; cbn; [|by rewrite Hnil].
  destruct (proj1 (Hspec d a) E) as [Hta _]. destruct (ft_keys m t Ht a d Hta) as [(Hw & Hz & Hv) _].
  by rewrite AddrFromIP_AsSlice, Hv.
Qed.

Lemma file_store c t a d :
  file_represents c t → file_storable a d → (∀ a', t !! a' = Some d → Addr_Is4 a' ≠ Addr_Is4 a) →
  ∃ c', File_FakeIPStore a d c = (c', None) ∧ file_represents c' (<[a := d]> t).
Proof.
  intros (HsD & Hs4 & Hs6 & m & Hh & Ht) Hst Hnew.
  destruct (store_transaction c m a d Hh (ft_flat m t Ht) Hst) as (db' & m' & Hstore & Hh' & Hf' & _ & Hv).
  exists (set_db db' c). split; [done|]. repeat split; try done. exists m'. split; [done|].
  destruct Hst as (Ha & Hd & _). split; [done|..].
  - intros a' d' [[<- <-]|[_ Ha']]%lookup_insert_Some; [done|by apply (ft_keys m t Ht)].
  - intros a' Hk. rewrite Hv. rewrite !decide_False by (intros [[= Hb] _]; symmetry in Hb; by apply domain_bucket_ne in Hb).
    rewrite lookup_insert. destruct (decide (a' = a)) as [->|Hne].
    + rewrite !decide_True by done. done.
    + rewrite !decide_False; [by apply (ft_addresses m t Ht)|done|]. intros [_ Heq]. by apply Hne, AsSlice_inj.
  - intros is4. destruct (ft_domains m t Ht is4) as (f & Hf & Hspec). destruct (decide (Addr_Is4 a = is4)) as [H4|H4].
    + exists (λ d', if decide (d' = d) then Some a else if decide (t !! a = Some d') then None else f d'). split.
      * intros d'. rewrite Hv, Hf, (ft_addresses m t Ht a Ha), H4. destruct (decide (d' = d)) as [->|Hne].
        { by rewrite decide_True. }
        rewrite decide_False by (intros [_ Heq]; by apply Hne, bytes_of_inj).
        destruct (decide (t !! a = Some d')) as [Hold|Hold].
        { rewrite decide_True; [done|]. by rewrite Hold. }
        rewrite decide_False.
        2:{ intros [_ Heq]. apply Hold. destruct (t !! a); cbn in Heq; [|done]. simplify_eq. f_equal. by apply bytes_of_inj. }
        rewrite decide_False; [done|]. intros [[= Hb] _]. by apply domain_bucket_ne in Hb.
      * intros d' a'. apply reverse_insert; [done|done|]. by rewrite <-H4.
    + exists f. split.
      * intros d'. rewrite Hv, <-Hf. rewrite !decide_False; [done|..].
        -- intros [[= Hb] _]. by apply domain_bucket_ne in Hb.
        -- intros [[= Hb] _]. by apply domain_bucket_inj in Hb.
        -- intros [[= Hb] _]. by apply domain_bucket_inj in Hb.
      * intros d' a'. by apply reverse_other.
Qed.

#[export, refine] Instance File_laws : FakeIPStorageLaws CacheFile := {
  storable := file_storable;
  represents := file_represents;
}.
Proof.
  - intros c t a a' d (_ & _ & _ & m & _ & Ht) Ha Ha' Hf.
    destruct (ft_domains m t Ht (Addr_Is4 a)) as (f & _ & Hspec).
    assert (f d = Some a ∧ f d = Some a') as [E1 E2] by (split; apply Hspec; split; congruence). congruence.
  - intros c t a Hr Hw Hz Hv. by apply file_load.
  - intros c t d v6. apply file_load_domain.
  - intros c t a d. apply file_store.
  - intros c t md Hr. cbn. unfold File_FakeIPSaveMetadataAsync. by destruct (saveMetadataTimer c).
Defined.

(** ** Metadata *)

Definition wf_metadata (md : FakeIPMetadata) : Prop :=
  wf_prefix (Inet4Range md) ∧ wf_prefix (Inet6Range md) ∧
  (wf_addr (Inet4Current md) ∧ zone_of (Inet4Current md) = "") ∧
  (wf_addr (Inet6Current md) ∧ zone_of (Inet6Current md) = "").

Lemma AsSlice_short a : length (AsSlice a) <= 16.
Proof. destruct a; cbn [AsSlice]; rewrite ?length_be; cbn; lia. Qed.

Lemma read_element_app {A} (unmarshal : bytes → result A) data a rest :
  length data <= 17 → unmarshal data = Ok a →
  read_element unmarshal ((be16 (Z.of_nat (length data)) ++ data) ++ rest) = Ok (a, rest).
Proof.
  intros Hl Hu. unfold read_element. rewrite <-app_assoc, read_be16_app by lia.
  rewrite Nat2Z.id, read_full_app, Hu. done.
Qed.

Lemma metadata_roundtrip md :
  wf_metadata md → FakeIPMetadata_UnmarshalBinary (FakeIPMetadata_MarshalBinary md) = Ok md.
Proof.
  intros (H4 & H6 & [Hc4 Hz4] & [Hc6 Hz6]).
  unfold FakeIPMetadata_UnmarshalBinary, FakeIPMetadata_MarshalBinary. cbn [mbind list_bind].
  assert (∀ p, length (Prefix_MarshalBinary p) <= 17) as HlP.
  { intros p. unfold Prefix_MarshalBinary. rewrite length_app. cbn [length]. pose proof (AsSlice_short (p_ip p)). lia. }
  assert (∀ a, zone_of a = "" → length (Addr_MarshalBinary a) <= 17) as HlA.
  { intros a Hz. unfold Addr_MarshalBinary. rewrite Hz, length_app. cbn [length]. pose proof (AsSlice_short a). cbn. lia. }
  erewrite rbind_step by (apply read_element_app; [apply HlP|by apply Prefix_unmarshal_marshal]).
  erewrite rbind_step by (apply read_element_app; [apply HlP|by apply Prefix_unmarshal_marshal]).
  erewrite rbind_step by (apply read_element_app; [by apply HlA|by apply Addr_unmarshal_marshal]).
  erewrite rbind_step by (apply read_element_app; [by apply HlA|by apply Addr_unmarshal_marshal]).
  by destruct md.
Qed.

Lemma length_metadata md : wf_metadata md → 0 < length (FakeIPMetadata_MarshalBinary md) <= 200.
Proof.
  intros (_ & _ & [_ Hz4] & [_ Hz6]). unfold FakeIPMetadata_MarshalBinary. cbn [mbind list_bind].
  rewrite !length_app. unfold be16, Prefix_MarshalBinary, Addr_MarshalBinary. rewrite !length_app, Hz4, Hz6. cbn [length].
  pose proof (AsSlice_short (p_ip (Inet4Range md))). pose proof (AsSlice_short (p_ip (Inet6Range md))).
  pose proof (AsSlice_short (Inet4Current md)). pose proof (AsSlice_short (Inet6Current md)). cbn. lia.
Qed.

Lemma keyMetadata_not_address a : key_addr a → AsSlice a ≠ keyMetadata.
Proof. intros Ha Heq. pose proof (AsSlice_length a Ha) as Hl. rewrite Heq in Hl. cbn in Hl. lia. Qed.

(** Other keys of the buckets do not matter to the table. *)
Lemma table_ext m m' t :
  file_table m t → flat m' →
  (∀ p k, (p = [bucketFakeIP] ∧ k = keyMetadata) ∨ value m' p k = value m p k) → file_table m' t.
Proof.
  intros Ht Hf Hv. split; [done|apply (ft_keys m t Ht)|..].
  - intros a Ha. destruct (Hv [bucketFakeIP] (AsSlice a)) as [[_ Hk]| ->]; [|by apply (ft_addresses m t Ht)].
    by apply keyMetadata_not_address in Hk.
  - intros is4. destruct (ft_domains m t Ht is4) as (f & Hf' & Hspec). exists f. split; [|done].
    intros d. destruct (Hv [domain_bucket is4] (bytes_of d)) as [[Hb _]| ->]; [|done].
    injection Hb as Hb. by apply domain_bucket_ne in Hb.
Qed.

Lemma file_save_metadata c t md :
  file_represents c t → wf_metadata md →
  ∃ db' m', File_FakeIPSaveMetadata md c = (set_db db' c, None) ∧ holds db' m' ∧ file_table m' t ∧
            m' !! [bucketFakeIP] ≠ None ∧ value m' [bucketFakeIP] keyMetadata = Some (FakeIPMetadata_MarshalBinary md).
Proof.
  intros (_ & _ & _ & m & Hh & Ht) Hmd. pose proof (length_metadata md Hmd) as Hl.
  destruct (bolt_create_top (db c) m bucketFakeIP Hh) as (db1 & m1 & Hc1 & Hh1 & Hs1 & Hv1 & Hp1); [done|].
  pose proof (flat_create _ _ _ Hp1 (ft_flat m t Ht)) as Hf1.
  destruct (bolt_put db1 m1 [bucketFakeIP] keyMetadata (FakeIPMetadata_MarshalBinary md) Hh1 Hs1)
    as (db2 & m2 & Hc2 & Hh2 & Hs2 & Hv2); [done|unfold MaxKeySize; cbn; lia|lia|exact (proj1 (Hf1 _))|].
  exists db2, m2. split; [|split; [done|]; split; [|split]].
  - unfold File_FakeIPSaveMetadata, failure, batch, done_with. rewrite Hc1. cbn [result_bind]. by rewrite Hc2.
  - apply (table_ext m); [done|by apply (flat_same m1)|]. intros p k. rewrite Hv2, Hv1. case_decide; [by left|by right].
  - by apply (same_buckets_Some m1).
  - rewrite Hv2. by rewrite decide_True.
Qed.

Lemma file_load_metadata c m t md :
  holds (db c) m → file_table m t → m !! [bucketFakeIP] ≠ None →
  value m [bucketFakeIP] keyMetadata = Some (FakeIPMetadata_MarshalBinary md) → wf_metadata md →
  ∃ db' m', File_FakeIPMetadata c = (set_db db' c, Some md) ∧ holds db' m' ∧ file_table m' t ∧ same_buckets m m'.
Proof.
  intros Hh Ht Hs Hv Hmd. pose proof (length_metadata md Hmd) as Hl.
  destruct (bolt_delete (db c) m [bucketFakeIP] keyMetadata Hh Hs) as (db1 & m1 & Hc1 & Hh1 & Hs1 & Hv1);
    [exact (proj1 (ft_flat m t Ht _))|].
  exists db1, m1. split; [|split; [done|]; split; [|done]].
  - unfold File_FakeIPMetadata, batch. rewrite (bolt_Bucket (db c) m) by done. cbn [result_bind].
    rewrite bool_decide_true by by apply not_eq_None_Some. cbn [negb].
    rewrite (bolt_get (db c) m), Hv by done. cbn [result_bind default]. rewrite decide_False by (cbn; lia).
    rewrite Hc1. cbn [result_bind from_option id]. by rewrite metadata_roundtrip.
  - apply (table_ext m); [done|by apply (flat_same m), (ft_flat m t Ht)|].
    intros p k. rewrite Hv1. case_decide; [by left|by right].
Qed.

(** ** Restart *)

Lemma StoreInv_metadata (st : Store CacheFile) t : StoreInv st t → wf_metadata (store_metadata st).
Proof.
  intros [Hfam _ _].
  assert (∀ v6, wf_prefix (range_of v6 st) ∧ wf_addr (current_of v6 st) ∧ zone_of (current_of v6 st) = "") as Hw.
  { intros v6. destruct (Hfam v6) as [[-> ->]|((Hwf & Hv & _) & _ & _ & x & -> & Hx)]; [done|]. split; [done|].
    pose proof (last_num_range _ Hwf Hv). pose proof (base_in_interval _ Hwf Hv).
    assert (0 <= addr_num (p_ip (range_of v6 st)))%Z.
    { destruct Hwf as (Ha & _). destruct (p_ip (range_of v6 st)); cbn in *; lia. }
    destruct (addr_of_shape _ Hv x) as (? & ? & _); [lia|done]. }
  exact (conj (proj1 (Hw false)) (conj (proj1 (Hw true)) (conj (proj2 (Hw false)) (proj2 (Hw true))))).
Qed.

(** The next process: a new object over the file the last one left. *)
Definition reopened (c : CacheFile) : CacheFile :=
  mkCacheFile (cacheID c) (storeFakeIP c) (storeRDRC c) (rdrcTimeout c) (db c) None ∅ ∅ ∅ ∅.

(** C33: A store on a cache file that is closed can be started again with the
    same ranges, in the next process: it has the same table and goes on from the
    same addresses, so every address handed out still leads to its domain. *)
Theorem fakeip_restart_resumes (st : Store CacheFile) table :
  StoreInv st table →
  ∃ c, Close st = (set_storage c st, None) ∧
    let st' := Start (reopened c) (NewStore (inet4Range st) (inet6Range st)) in
    StoreInv st' table ∧ inet4Current st' = inet4Current st ∧ inet6Current st' = inet6Current st ∧
    ∀ a d, table !! a = Some d → Lookup a st' = (st', Ok (Some d)).
Proof.
  intros HI. pose proof (StoreInv_metadata st table HI) as Hmd. pose proof HI as [Hfam (c & Hs & Hr) Hus].
  destruct (file_save_metadata c table (store_metadata st) Hr Hmd) as (db1 & m1 & Hsave & Hh1 & Ht1 & Hb1 & Hv1).
  destruct (file_load_metadata (reopened (set_db db1 c)) m1 table (store_metadata st) Hh1 Ht1 Hb1 Hv1 Hmd)
    as (db2 & m2 & Hload & Hh2 & Ht2 & _).
  exists (set_db db1 c). split; [unfold Close; rewrite Hs; cbn [FakeIPSaveMetadata File_storage]; by rewrite Hsave|].
  set (st' := Start _ _).
  assert (st' = mkStore (inet4Range st) (inet6Range st) (inet4Last (NewStore (S := CacheFile) (inet4Range st) (inet6Range st)))
                  (inet6Last (NewStore (S := CacheFile) (inet4Range st) (inet6Range st)))
                  (Some (set_db db2 (reopened (set_db db1 c)))) (inet4Current st) (inet6Current st)) as Hst'.
  { unfold st', Start. cbn [LoadMetadata File_storage]. rewrite Hload. cbn [store_metadata Inet4Range Inet6Range].
    rewrite decide_True by done. done. }
  assert (StoreInv st' table) as HI'.
  { rewrite Hst'. split.
    - intros v6. destruct (Hfam v6) as [[Hr0 Hc0]|(Hw & H4 & Hl & x & Hc & Hx)].
      + left. destruct v6; cbn in *; rewrite Hr0; done.
      + right. pose proof Hw as (_ & Hv & _). destruct v6; cbn in *; rewrite Hv; eauto 10.
    - eexists. split; [done|]. repeat split. exists m2. done.
    - intros a d Ha. specialize (Hus a d Ha). by destruct (Addr_Is4 a). }
  split; [done|]. split; [by rewrite Hst'|]. split; [by rewrite Hst'|].
  intros a d Ha. destruct (ft_keys m2 table Ht2 a d Ha) as [(Hwa & Hza & Hva) _].
  by rewrite (Lookup_spec st' table a HI' Hwa Hza Hva), Ha.
Qed.

(** ** Reset *)

(** Nothing is deleted when one of the buckets is missing. *)
Lemma reset_rolls_back c m n :
  holds (db c) m → n ∈ [bucketFakeIP; bucketFakeIPDomain4; bucketFakeIPDomain6] → m !! [n] = None →
  File_FakeIPReset c = (c, Some ErrBucketNotFound).
Proof.
  intros Hh Hn Hm.
  assert (∀ dbf m0 p, holds dbf m0 → m0 !! [n] = None → p ≠ n →
    DeleteBucket [p] dbf = Err ErrBucketNotFound ∨
    ∃ db' m', DeleteBucket [p] dbf = Ok db' ∧ holds db' m' ∧ m' !! [n] = None) as Hstep.
  { intros dbf m0 p Hh0 Hm0 Hp. destruct (m0 !! [p]) as [kv|] eqn:E.
    - right. destruct (bolt_DeleteBucket dbf m0 [p] kv Hh0 E) as (db' & Hd & Hh').
      exists db', (filter (λ x, ¬ [p] `prefix_of` x.1) m0). split; [done|]. split; [done|].
      apply map_lookup_filter_None. by left.
    - left. by apply (bolt_DeleteBucket_missing dbf m0). }
  unfold File_FakeIPReset, failure, batch, done_with.
  assert (∀ dbf m0, holds dbf m0 → m0 !! [n] = None → DeleteBucket [n] dbf = Err ErrBucketNotFound) as Hmiss.
  { intros dbf m0. apply bolt_DeleteBucket_missing. }
  destruct (decide (bucketFakeIP = n)) as [->|E1]; [by rewrite (Hmiss _ m)|].
  destruct (Hstep (db c) m bucketFakeIP Hh Hm E1) as [->|(db1 & m1 & -> & Hh1 & Hm1)]; [done|]. cbn [result_bind].
  destruct (decide (bucketFakeIPDomain4 = n)) as [->|E2]; [by rewrite (Hmiss _ m1)|].
  destruct (Hstep db1 m1 bucketFakeIPDomain4 Hh1 Hm1 E2) as [->|(db2 & m2 & -> & Hh2 & Hm2)]; [done|]. cbn [result_bind].
  assert (n = bucketFakeIPDomain6) as -> by set_solver. by rewrite (Hmiss _ m2).
Qed.

(** A store with an IPv4 range only, whose cache file therefore has no
    bucket for IPv6 domains, is started with another range: the reset is rolled
    back, so every domain of the old table is still answered with its old
    address, in whatever range that was. *)
Lemma fakeip_range_change_keeps_stale_addresses (c : CacheFile) m table md r4 r6 a d :
  saveDomain c = ∅ → saveAddress4 c = ∅ → saveAddress6 c = ∅ → holds (db c) m → file_table m table →
  m !! [bucketFakeIPDomain6] = None → m !! [bucketFakeIP] ≠ None →
  value m [bucketFakeIP] keyMetadata = Some (FakeIPMetadata_MarshalBinary md) → wf_metadata md →
  Inet4Range md ≠ r4 → table !! a = Some d → Addr_Is4 a = true →
  let st := Start c (NewStore r4 r6) in Create d false st = (st, Ok a).
Proof.
  intros HsD Hs4 Hs6 Hh Ht H6 Hb Hv Hmd Hr4 Ha Hf.
  destruct (file_load_metadata c m table md Hh Ht Hb Hv Hmd) as (db1 & m1 & Hload & Hh1 & Ht1 & Hs1).
  assert (File_FakeIPReset (set_db db1 c) = (set_db db1 c, Some ErrBucketNotFound)) as Hreset.
  { apply (reset_rolls_back _ m1 bucketFakeIPDomain6); [done|set_solver|by apply Hs1]. }
  assert (file_represents (set_db db1 c) table) as Hrep by (repeat split; try done; by exists m1).
  destruct (file_load_domain (set_db db1 c) table d false Hrep) as (r & Hl & Hspec).
  assert (r = Some a) as -> by by apply Hspec.
  intros st. assert (storage st = Some (set_db db1 c)) as Hst.
  { unfold st, Start. cbn [LoadMetadata FakeIPReset File_storage]. rewrite Hload, Hreset.
    rewrite decide_False by naive_solver. done. }
  unfold Create, Create_fast. rewrite Hst. cbn [FakeIPLoadDomain File_storage]. rewrite Hl. by rewrite set_storage_id.
Qed.
End bolt.
