(* ===== verification/CacheFileSettings.v ===== *)
(** * What the cache file keeps of the rest of the program

    Selections, rule sets and rejected DNS responses come back as they were
    stored, under the cache ID of the file. *)
From S2P Require Import Prelude Bytes RuleItems Netip FakeIP CacheFile FakeIPRange FakeIPProps CacheFileProps.

(** ** Saved binaries *)

Lemma wrap_int64_uint64 z : (- 2 ^ 63 <= z < 2 ^ 63)%Z → wrap_int64 (wrap_uint64 z) = z.
Proof.
  intros Hz. unfold wrap_int64, wrap_uint64. rewrite Zplus_mod_idemp_l, Z.mod_small by lia. lia.
Qed.

Lemma of_be_time t : (- 2 ^ 63 <= t < 2 ^ 63)%Z → of_int64 (of_be (be 8 (wrap_uint64 t))) = t.
Proof.
  intros Ht. unfold of_int64. rewrite of_be_be; [by apply wrap_int64_uint64|].
  unfold wrap_uint64. apply Z.mod_pos_bound. lia.
Qed.

(** The binary comes back with the seconds of its time. *)
Definition whole_seconds (s : SavedBinary) : SavedBinary :=
  mkSavedBinary (Content s) (LastUpdated s / second * second) (LastEtag s).
Definition savable (s : SavedBinary) : Prop :=
  (Z.of_nat (length (Content s)) + Z.of_nat (String.length (LastEtag s)) <= 2 ^ 30)%Z ∧
  (- 2 ^ 63 <= LastUpdated s / second < 2 ^ 63)%Z.

Lemma SavedBinary_roundtrip s :
  savable s → SavedBinary_UnmarshalBinary (SavedBinary_MarshalBinary s) = Ok (whole_seconds s).
Proof.
  intros (Hc & Ht). unfold SavedBinary_UnmarshalBinary, SavedBinary_MarshalBinary. cbn [app].
  erewrite rbind_step; [|done]. rewrite <-length_bytes_of.
  erewrite rbind_step; [|apply read_field_app; unfold maxAlloc; lia].
  erewrite rbind_step.
  2:{ rewrite <-(length_be 8 (wrap_uint64 (LastUpdated s / second))) at 1. apply read_full_app. }
  rewrite <-(app_nil_r (bytes_of (LastEtag s))).
  erewrite rbind_step; [|rewrite app_nil_r at 1; apply read_field_app; unfold maxAlloc; rewrite length_bytes_of; lia].
  cbn [result_bind rret fst]. by rewrite of_be_time, string_of_list_of_string.
Qed.

Lemma length_put_uvarint fuel x : length (put_uvarint fuel x) <= fuel.
Proof. revert x. induction fuel as [|fuel IH]; intros x; cbn; [lia|]. case_decide; cbn; [|lia]. specialize (IH (Z.shiftr x 7)). lia. Qed.

Lemma length_saved s : savable s → 0 < length (SavedBinary_MarshalBinary s) ∧ (Z.of_nat (length (SavedBinary_MarshalBinary s)) < 2 ^ 31 - 1)%Z.
Proof.
  intros (Hc & _). unfold SavedBinary_MarshalBinary, PutUvarint. rewrite !length_app, length_be, length_bytes_of.
  pose proof (length_put_uvarint 10 (Z.of_nat (length (Content s)))).
  pose proof (length_put_uvarint 10 (Z.of_nat (String.length (LastEtag s)))). cbn [length]. lia.
Qed.

(** ** Buckets under the cache ID *)

Section settings.
Context `{BoltLaws} `{SingAddr}.

(** A file in which the bucket can be made: its name is not that of a value
    under the cache ID. *)
Record id_ok (c : CacheFile) (m : contents) (name : bytes) : Prop := {
  io_name : name ≠ [];
  io_id id : cacheID c = Some id → id ≠ [] ∧ value m [id] name = None ∧ (m !! [id] = None → m !! [id; name] = None);
}.

(** And one that holds values only. *)
Definition settings_ok (c : CacheFile) (m : contents) (name : bytes) : Prop :=
  id_ok c m name ∧ ∀ key, m !! (bucket_path c name ++ [key]) = None.

Lemma settings_ok_db c d m name : settings_ok c m name → settings_ok (set_db d c) m name.
Proof. intros [[E1 E2] E3]. by repeat split; [|naive_solver..|]. Qed.

Lemma bucket_spec c m name :
  holds (db c) m → id_ok c m name →
  bucket c name (db c) = Ok (bool_decide (is_Some (m !! bucket_path c name))).
Proof.
  intros Hh [_ Hid]. unfold bucket, bucket_path. destruct (cacheID c) as [id|]; [|by apply bolt_Bucket].
  destruct (Hid id eq_refl) as (_ & _ & Hparent). rewrite (bolt_Bucket (db c) m [id] Hh). cbn [result_bind].
  case_bool_decide as Hp; cbn [negb]; [by apply bolt_Bucket|].
  rewrite Hparent by by apply eq_None_not_Some. by rewrite bool_decide_false by apply is_Some_None.
Qed.

Lemma load_value_spec c m name key :
  holds (db c) m → settings_ok c m name → load_value c name key (db c) = Ok (value m (bucket_path c name) key).
Proof.
  intros Hh Hok. unfold load_value. rewrite (bucket_spec c m name Hh (proj1 Hok)). cbn [result_bind].
  case_bool_decide as Hp; cbn [negb].
  - apply bolt_get; [done|]. by apply not_eq_None_Some.
  - by rewrite value_missing by by apply eq_None_not_Some.
Qed.

Lemma createBucket_spec c m name :
  holds (db c) m → id_ok c m name →
  ∃ db' m', createBucket c name (db c) = Ok db' ∧ holds db' m' ∧ m' !! bucket_path c name ≠ None ∧
    (∀ p k, value m' p k = value m p k) ∧ (∀ p, p ≠ bucket_path c name → (∀ id, cacheID c = Some id → p ≠ [id]) → m' !! p = m !! p) ∧
    (∀ id, cacheID c = Some id → m' !! [id] ≠ None).
Proof.
  intros Hh [Hname Hid]. unfold createBucket, bucket_path in *. destruct (cacheID c) as [id|].
  - destruct (Hid id eq_refl) as (Hne & Hv & _).
    destruct (bolt_create_top (db c) m id Hh Hne) as (db1 & m1 & -> & Hh1 & Hs1 & Hv1 & Hp1). cbn [result_bind].
    destruct (bolt_create db1 m1 [id] name Hh1 Hname) as (db2 & m2 & Hc2 & Hh2 & Hs2 & Hv2 & Hp2).
    { right. split; [done|]. by rewrite Hv1. }
    cbn [app] in *. rewrite Hc2. exists db2, m2. repeat split; try done.
    + intros p k. by rewrite Hv2, Hv1.
    + intros p Hp Hpid. rewrite Hp2, Hp1; auto.
    + intros id' [= <-]. by rewrite Hp2.
  - destruct (bolt_create_top (db c) m name Hh Hname) as (db1 & m1 & -> & Hh1 & Hs1 & Hv1 & Hp1).
    exists db1, m1. by repeat split; auto.
Qed.

Lemma bucket_path_leaf c name key id : cacheID c = Some id → bucket_path c name ++ [key] ≠ [id].
Proof. unfold bucket_path. by intros ->. Qed.

Lemma bucket_path_ne c name name' key : bucket_path c name ++ [key] ≠ bucket_path c name'.
Proof. unfold bucket_path. by destruct (cacheID c). Qed.

Lemma store_value_spec c m name key v :
  holds (db c) m → settings_ok c m name → key ≠ [] → (Z.of_nat (length key) <= MaxKeySize)%Z →
  (Z.of_nat (length v) < 2 ^ 31 - 1)%Z →
  ∃ db' m', batch (store_value c name key v) c = (set_db db' c, Ok tt) ∧ holds db' m' ∧
    (∀ name', settings_ok c m name' → settings_ok (set_db db' c) m' name') ∧
    ∀ p k, value m' p k = if decide (p = bucket_path c name ∧ k = key) then Some v else value m p k.
Proof.
  intros Hh Hok Hk Hlk Hlv. pose proof Hok as [Hidok Hleaf].
  destruct (createBucket_spec c m name Hh Hidok) as (db1 & m1 & Hc1 & Hh1 & Hs1 & Hv1 & Hp1 & Hid1).
  assert (∀ n k, settings_ok c m n → m1 !! (bucket_path c n ++ [k]) = None) as Hleaf1.
  { intros n k Hn. rewrite Hp1; [apply Hn|apply bucket_path_ne|]. intros id. apply bucket_path_leaf. }
  destruct (bolt_put db1 m1 (bucket_path c name) key v Hh1 Hs1 Hk Hlk Hlv (Hleaf1 name key Hok)) as (db2 & m2 & Hc2 & Hh2 & Hs2 & Hv2).
  exists db2, m2. split; [|split; [done|]; split].
  - unfold batch, store_value, done_with. rewrite Hc1. cbn [result_bind]. by rewrite Hc2.
  - intros n Hn. apply settings_ok_db. split; [split; [apply Hn|]|].
    + intros id Hc. destruct (io_id c m n (proj1 Hn) id Hc) as (Hne & Hvn & _). split; [done|].
      rewrite Hv2, Hv1, decide_False; [split; [done|]|unfold bucket_path; rewrite Hc; by intros [? _]].
      intros Hnone. by destruct (same_buckets_Some m1 m2 [id] Hs2 (Hid1 id Hc)).
    + intros k. by apply (same_buckets_None m1), Hleaf1.
  - intros p k. by rewrite Hv2, Hv1.
Qed.

(** A load of a setting, as [view] makes it. *)
Lemma view_load c m name key :
  holds (db c) m → settings_ok c m name →
  view (load_value c name key) c = (c, Ok (value m (bucket_path c name) key)).
Proof. intros Hh Hok. unfold view. by rewrite (load_value_spec c m name key Hh Hok). Qed.

Lemma LoadRuleSet_spec c m tag :
  holds (db c) m → settings_ok c m bucketRuleSet →
  (∀ e, SavedBinary_UnmarshalBinary (default [] (value m (bucket_path c bucketRuleSet) (bytes_of tag))) ≠ Err (EPanic e)) →
  LoadRuleSet tag c =
    (c, match value m (bucket_path c bucketRuleSet) (bytes_of tag) with
        | Some (b :: bin) => match SavedBinary_UnmarshalBinary (b :: bin) with Ok s => Some s | Err _ => None end
        | _ => None
        end).
Proof.
  intros Hh Hok Hnp. unfold LoadRuleSet, view. rewrite (load_value_spec c m _ _ Hh Hok). cbn [result_bind].
  destruct (value m (bucket_path c bucketRuleSet) (bytes_of tag)) as [[|b bin]|]; try done. cbn [default] in *.
  rewrite decide_False by done. cbn [from_option id] in *.
  destruct (SavedBinary_UnmarshalBinary (b :: bin)) as [s|[]]; try done. by destruct (Hnp msg).
Qed.

(** A rule set saved in the cache file is loaded again as it was, its time
    cut to whole seconds; the set of every other tag is what it was before; and
    so are the selected outbound of every group and, when the file has a cache
    ID, everything under other IDs. *)
Lemma ruleset_saved_and_loaded c m tag set :
  holds (db c) m → settings_ok c m bucketRuleSet → settings_ok c m bucketSelected →
  tag ≠ "" → (Z.of_nat (String.length tag) <= MaxKeySize)%Z → savable set →
  (∀ tag' e, SavedBinary_UnmarshalBinary (default [] (value m (bucket_path c bucketRuleSet) (bytes_of tag'))) ≠ Err (EPanic e)) →
  ∃ c', SaveRuleSet tag set c = (c', None) ∧ LoadRuleSet tag c' = (c', Some (whole_seconds set)) ∧
    (∀ tag', tag' ≠ tag → (LoadRuleSet tag' c').2 = (LoadRuleSet tag' c).2) ∧
    (∀ group, (LoadSelected group c').2 = (LoadSelected group c).2).
Proof.
  intros Hh Hok HokS Htag Hlen Hsav Hnp. destruct (length_saved set Hsav) as [Hpos Hlen'].
  destruct (store_value_spec c m bucketRuleSet (bytes_of tag) (SavedBinary_MarshalBinary set) Hh Hok)
    as (db1 & m1 & Hst & Hh1 & Hok1 & Hv1); [by apply bytes_of_nonempty|by rewrite length_bytes_of|done|].
  assert (∀ name, bucket_path (set_db db1 c) name = bucket_path c name) as Hpath by done.
  exists (set_db db1 c). split; [|split; [|split]].
  - unfold SaveRuleSet, failure. by rewrite Hst.
  - assert (value m1 (bucket_path c bucketRuleSet) (bytes_of tag) = Some (SavedBinary_MarshalBinary set)) as Hvt.
    { by rewrite Hv1, decide_True. }
    rewrite (LoadRuleSet_spec (set_db db1 c) m1 tag Hh1 (Hok1 _ Hok)); rewrite !Hpath, Hvt; cbn [default from_option id].
    + pose proof (SavedBinary_roundtrip set Hsav) as Hrt. destruct (SavedBinary_MarshalBinary set); [cbn in Hpos; lia|].
      by rewrite Hrt.
    + by rewrite SavedBinary_roundtrip.
  - intros tag' Htag'.
    assert (value m1 (bucket_path c bucketRuleSet) (bytes_of tag') = value m (bucket_path c bucketRuleSet) (bytes_of tag')) as Hvt.
    { rewrite Hv1, decide_False; [done|]. intros [_ Heq]. by apply Htag', bytes_of_inj. }
    rewrite (LoadRuleSet_spec (set_db db1 c) m1), (LoadRuleSet_spec c m); rewrite ?Hpath, ?Hvt; try done; by apply (Hok1 bucketRuleSet).
  - intros group. unfold LoadSelected.
    rewrite (view_load c m), (view_load (set_db db1 c) m1), Hpath, Hv1 by (done || by apply (Hok1 bucketSelected)).
    rewrite decide_False; [done|]. unfold bucket_path. by destruct (cacheID c); intros [? _].
Qed.

(** ** Rejected responses *)

(** The bucket of a server under the bucket of rejected responses. *)
Definition rdrc_path (c : CacheFile) (transport : string) : path := bucket_path c bucketRDRC ++ [bytes_of transport].

Record rdrc_ok (c : CacheFile) (m : contents) (transport : string) : Prop := {
  ro_id : id_ok c m bucketRDRC;
  ro_name : transport ≠ "";
  ro_parent : m !! bucket_path c bucketRDRC = None → m !! rdrc_path c transport = None;
  ro_value : value m (bucket_path c bucketRDRC) (bytes_of transport) = None;
  ro_leaves key : m !! (rdrc_path c transport ++ [key]) = None;
}.

Lemma rdrc_paths c transport key id :
  rdrc_path c transport ++ [key] ≠ bucket_path c bucketRDRC ∧ rdrc_path c transport ++ [key] ≠ rdrc_path c transport ∧
  rdrc_path c transport ≠ bucket_path c bucketRDRC ∧
  (cacheID c = Some id → rdrc_path c transport ++ [key] ≠ [id] ∧ [id] ≠ rdrc_path c transport ∧ [id] ≠ bucket_path c bucketRDRC).
Proof. unfold rdrc_path, bucket_path. destruct (cacheID c); cbn; naive_solver. Qed.

Lemma SaveRDRC_spec now c m transport qName qType :
  holds (db c) m → rdrc_ok c m transport → (Z.of_nat (String.length qName) + 2 <= MaxKeySize)%Z →
  ∃ db' m', SaveRDRC now transport qName qType c = (set_db db' c, None) ∧ holds db' m' ∧ rdrc_ok (set_db db' c) m' transport ∧
    m' !! rdrc_path c transport ≠ None ∧ m' !! bucket_path c bucketRDRC ≠ None ∧
    value m' (rdrc_path c transport) (rdrc_key qName qType) = Some (be 8 (wrap_uint64 ((now + rdrcTimeout c) / second))).
Proof.
  intros Hh [Hid Hname Hparent Hvalue Hleaf] Hlen. set (T := rdrc_path c transport) in *. set (B := bucket_path c bucketRDRC) in *.
  destruct (createBucket_spec c m bucketRDRC Hh Hid) as (db1 & m1 & Hc1 & Hh1 & Hs1 & Hv1 & Hp1 & Hid1).
  destruct (bolt_create db1 m1 B (bytes_of transport) Hh1) as (db2 & m2 & Hc2 & Hh2 & Hs2 & Hv2 & Hp2);
    [by apply bytes_of_nonempty|right; by rewrite Hv1|]. change (B ++ [bytes_of transport]) with T in *.
  assert (∀ k, m2 !! (T ++ [k]) = None) as Hleaf2.
  { intros k. destruct (rdrc_paths c transport k []) as (E1 & E2 & _). rewrite Hp2, Hp1; [apply Hleaf|done| |done].
    intros id' Hc. by destruct (rdrc_paths c transport k id') as (_ & _ & _ & [? _]). }
  destruct (rdrc_paths c transport [] []) as (_ & _ & HTB & _).
  assert (length (rdrc_key qName qType) = 2 + String.length qName) as Hlk.
  { unfold rdrc_key. rewrite length_app, length_bytes_of. done. }
  destruct (bolt_put db2 m2 T (rdrc_key qName qType) (be 8 (wrap_uint64 ((now + rdrcTimeout c) / second))) Hh2 Hs2)
    as (db3 & m3 & Hc3 & Hh3 & Hs3 & Hv3); [done|lia|rewrite length_be; lia|apply Hleaf2|].
  exists db3, m3. split; [|split; [done|split; [split|split; [|split]]]].
  - unfold SaveRDRC, failure, batch, done_with. rewrite Hc1. cbn [result_bind]. fold B.
    change (B ++ [bytes_of transport]) with T. rewrite Hc2. cbn [result_bind]. by rewrite Hc3.
  - split; [apply Hid|]. intros id Hc. destruct (io_id c m _ Hid id Hc) as (Hne & Hvi & _). split; [done|].
    destruct (rdrc_paths c transport [] id) as (_ & _ & _ & (_ & HidT & HidB)); [done|]. split.
    + rewrite Hv3, Hv2, Hv1, decide_False by naive_solver. done.
    + intros Hnone. apply Hs3 in Hnone. rewrite Hp2 in Hnone by done. by destruct (Hid1 id Hc).
  - done.
  - intros Hnone. apply Hs3 in Hnone. rewrite Hp2 in Hnone by done. by destruct Hs1.
  - change (value m3 B (bytes_of transport) = None). rewrite Hv3, Hv2, Hv1, decide_False by naive_solver. done.
  - intros k. apply Hs3, Hleaf2.
  - by apply (same_buckets_Some m2).
  - apply (same_buckets_Some m2); [done|]. by rewrite Hp2.
  - rewrite Hv3. by rewrite decide_True.
Qed.

(** A response rejected at a time is remembered up to the end of the second
    its lifetime ends in, and forgotten after it. *)
Lemma rdrc_expires now later c m transport qName qType :
  holds (db c) m → rdrc_ok c m transport → saveRDRC c !! (transport, qName, qType) = None →
  (Z.of_nat (String.length qName) + 2 <= MaxKeySize)%Z → (- 2 ^ 63 <= (now + rdrcTimeout c) / second < 2 ^ 63)%Z →
  ∃ c', SaveRDRC now transport qName qType c = (c', None) ∧
    (LoadRDRC later transport qName qType c').2 = bool_decide (later <= (now + rdrcTimeout c) / second * second)%Z.
Proof.
  intros Hh Hok Hpend Hlen Ht.
  destruct (SaveRDRC_spec now c m transport qName qType Hh Hok Hlen) as (db1 & m1 & Hsave & Hh1 & Hok1 & HsT & HsB & Hv).
  exists (set_db db1 c). split; [done|]. unfold LoadRDRC. cbn [saveRDRC set_db]. rewrite Hpend.
  assert (bucket (set_db db1 c) bucketRDRC db1 = Ok true) as Hb.
  { change db1 with (db (set_db db1 c)) at 2. rewrite (bucket_spec (set_db db1 c) m1 bucketRDRC Hh1 (ro_id _ _ _ Hok1)).
    by rewrite bool_decide_true by by apply not_eq_None_Some. }
  unfold view at 1. cbn [db set_db]. rewrite Hb. cbn [result_bind negb].
  change (bucket_path (set_db db1 c) bucketRDRC ++ [bytes_of transport]) with (rdrc_path c transport).
  rewrite (bolt_Bucket db1 m1 _ Hh1), bool_decide_true by by apply not_eq_None_Some. cbn [result_bind negb].
  rewrite (bolt_get db1 m1 _ _ Hh1 HsT), Hv. cbn [result_bind]. rewrite decide_False by (rewrite length_be; lia).
  rewrite take_ge by (rewrite length_be; lia). rewrite of_be_time by done.
  case_decide as Hexp; [|by rewrite bool_decide_true by lia]. rewrite bool_decide_false by lia. done.
Qed.
End settings.
