(* ===== verification/RuleSets.v ===== *)
(** * Local and remote rule sets

    Model of src/runtime/sing-box/route/rule/rule_set_local.go and
    rule_set_remote.go: rule sets that are read from a file or downloaded, kept
    in the cache file and updated while the program runs.  Files, the server and
    the clock are arguments; decoding a rule set from JSON is another package
    and a field of [RuleSetEnv].  A callback is the number it was registered
    under; an operation returns the callbacks it calls, in order.  The rule set
    that is passed to them is the one it returns. *)
From S2P Require Import Prelude Bytes MatchState RuleItems Netip Rules RuleAction RuleBuild Srs Registry OutboundManager FakeIP CacheFile.

(** option/rule_set.go. *)
Class RuleSetEnv `{RuleEnv} := {
  UnmarshalExtended : bytes → result (Z * list HeadlessRuleOptions);
}.

(** Time is counted in nanoseconds since 1970; the zero time is in the year 1. *)
Definition zero_time : Z := (-62135596800) * second.
Definition IsZero (t : Z) : bool := bool_decide (t = zero_time).
Definition hour : Z := 3600 * second.

Section sets.
Context `{RuleEnv} `{ActionEnv} `{!SrsEnv} `{!RuleSetEnv} `{SingAddr} `{Bolt}.
Context {E : Type} `{EndpointManager E} (endpoint : E).
(** [DefaultHeadlessRule.IsValid], and whether there is a network manager. *)
Context (IsValid : HeadlessOptions → bool) (networkManager : bool).

(** option/rule_set.go, [RuleSet] with [LocalRuleSet] and [RemoteRuleSet]. *)
Record RuleSetOptions := mkRuleSetOptions {
  so_Type : string;
  so_Tag : string;
  so_Format : string;
  so_InlineRules : list HeadlessRuleOptions;
  so_Path : string;
  so_URL : string;
  so_DownloadDetour : string;
  so_UpdateInterval : Z;
}.

(** [PlainRuleSetCompat.Upgrade]. *)
Definition Upgrade (r : Z * list HeadlessRuleOptions) : result (list HeadlessRuleOptions) :=
  if decide (1 <= r.1 <= 4)%Z then Ok r.2
  else Err (ENew ("unknown rule-set version: " +:+ pretty r.1)).

(** The rules of a set with its metadata and callbacks; [SetCore] is what local
    and remote rule sets share. *)
Record SetCore := mkSetCore {
  core_set : RuleSet RuleAction * RuleSetMetadata;
  core_callbacks : list nat;
  core_next : nat;
}.
Definition no_metadata : RuleSetMetadata := mkMetadata false false false.
Definition NewCore (tag : string) : SetCore := mkSetCore (mkRuleSet tag [] 0, no_metadata) [] 0.
Definition core_rules (s : SetCore) : RuleSet RuleAction := (core_set s).1.
Definition on_rules (f : RuleSet RuleAction → RuleSet RuleAction) (s : SetCore) : SetCore :=
  mkSetCore (f (core_set s).1, (core_set s).2) (core_callbacks s) (core_next s).
Definition drop_rules (r : RuleSet RuleAction) : RuleSet RuleAction := mkRuleSet (rs_tag r) [] (rs_refs r).

(** [RegisterCallback] and [UnregisterCallback]. *)
Definition RegisterCallback (s : SetCore) : SetCore * nat :=
  (mkSetCore (core_set s) (core_callbacks s ++ [core_next s]) (S (core_next s)), core_next s).
Definition UnregisterCallback (element : nat) (s : SetCore) : SetCore :=
  mkSetCore (core_set s) (filter (.≠ element) (core_callbacks s)) (core_next s).

(** [LocalRuleSet.reloadRules] and the end of [RemoteRuleSet.loadBytes]: the
    rules are built before anything changes, then the callbacks are called. *)
Definition load_rules (rules : list HeadlessRuleOptions) (s : SetCore) : SetCore * list nat * option error :=
  let '(set, err) := reloadRules IsValid networkManager rules (core_set s) in
  match err with
  | Some e => (s, [], Some e)
  | None => (mkSetCore set (core_callbacks s) (core_next s), core_callbacks s, None)
  end.

(** [ExtractIPSet]. *)
Fixpoint extractIPSetFromRule (r : Rule RuleAction) : list IPSet :=
  match r with
  | DefaultRule d => omap (λ i, match i with IPCIDRItem set _ _ => Some set | _ => None end) (destinationIPCIDRItems d)
  | LogicalRule rules _ _ _ => flat_map extractIPSetFromRule rules
  end.
Definition ExtractIPSet (s : SetCore) : list IPSet := rs_rules (core_rules s) ≫= extractIPSetFromRule.

(** ** Local rule sets *)

(** A watcher is created and, in [StartContext], started. *)
Inductive Watcher := Created | Started | Stopped.
Record LocalRuleSet := mkLocalRuleSet {
  l_core : SetCore;
  l_fileFormat : string;
  l_watcher : option Watcher;
}.

(** [reloadFile]: [file] is what reading the path gives; a binary file is read
    while it is parsed. *)
Definition parse_file (fileFormat : string) (file : result bytes) : result (list HeadlessRuleOptions) :=
  let? ruleSet :=
    if decide (fileFormat = "source" ∨ fileFormat = "") then let? content := file in UnmarshalExtended content
    else if decide (fileFormat = "binary") then let? content := file in Read false content
    else Err (ENew ("unknown rule-set format: " +:+ fileFormat)) in
  Upgrade ruleSet.
Definition reloadFile (file : result bytes) (s : LocalRuleSet) : LocalRuleSet * list nat * option error :=
  match parse_file (l_fileFormat s) file with
  | Err e => (s, [], Some e)
  | Ok rules =>
      let '(core, calls, err) := load_rules rules (l_core s) in
      (mkLocalRuleSet core (l_fileFormat s) (l_watcher s), calls, err)
  end.

Definition NewLocalRuleSet (file : result bytes) (watch : option error) (o : RuleSetOptions) : result LocalRuleSet :=
  let s := mkLocalRuleSet (NewCore (so_Tag o)) (so_Format o) None in
  if decide (so_Type o = "inline") then
    if decide (length (so_InlineRules o) = 0) then Err (ENew "empty inline rule-set")
    else
      match load_rules (so_InlineRules o) (l_core s) with
      | (_, _, Some e) => Err e
      | (core, _, None) => Ok (mkLocalRuleSet core (so_Format o) None)
      end
  else
    match reloadFile file s with
    | (_, _, Some e) => Err e
    | (s, _, None) =>
        match watch with
        | Some e => Err e
        | None => Ok (mkLocalRuleSet (l_core s) (l_fileFormat s) (Some Created))
        end
    end.

(** A failure of the watcher is only logged. *)
Definition Local_StartContext (watch : option error) (s : LocalRuleSet) : LocalRuleSet :=
  match l_watcher s, watch with
  | Some _, None => mkLocalRuleSet (l_core s) (l_fileFormat s) (Some Started)
  | _, _ => s
  end.
Definition Local_Close (s : LocalRuleSet) : LocalRuleSet :=
  mkLocalRuleSet (on_rules drop_rules (l_core s)) (l_fileFormat s) ((λ _, Stopped) <$> l_watcher s).

(** ** Remote rule sets *)

Record RemoteRuleSet := mkRemoteRuleSet {
  r_options : RuleSetOptions;
  r_updateInterval : Z;
  r_dialer : option Adapter;
  r_core : SetCore;
  r_lastUpdated : Z;
  r_lastEtag : string;
  r_updateTicker : bool;
  r_cancelled : bool;
}.

Definition NewRemoteRuleSet (o : RuleSetOptions) : RemoteRuleSet :=
  mkRemoteRuleSet o (if decide (0 < so_UpdateInterval o)%Z then so_UpdateInterval o else 24 * hour) None
    (NewCore (so_Tag o)) zero_time "" false false.

Definition set_core (core : SetCore) (s : RemoteRuleSet) : RemoteRuleSet :=
  mkRemoteRuleSet (r_options s) (r_updateInterval s) (r_dialer s) core (r_lastUpdated s) (r_lastEtag s)
    (r_updateTicker s) (r_cancelled s).
Definition set_updated (t : Z) (etag : string) (s : RemoteRuleSet) : RemoteRuleSet :=
  mkRemoteRuleSet (r_options s) (r_updateInterval s) (r_dialer s) (r_core s) t etag (r_updateTicker s) (r_cancelled s).

Definition parse_content (format : string) (content : bytes) : result (list HeadlessRuleOptions) :=
  let? ruleSet :=
    if decide (format = "source") then UnmarshalExtended content
    else if decide (format = "binary") then Read false content
    else Err (ENew ("unknown rule-set format: " +:+ format)) in
  Upgrade ruleSet.
Definition loadBytes (content : bytes) (s : RemoteRuleSet) : RemoteRuleSet * list nat * option error :=
  match parse_content (so_Format (r_options s)) content with
  | Err e => (s, [], Some e)
  | Ok rules =>
      let '(core, calls, err) := load_rules rules (r_core s) in
      (set_core core s, calls, err)
  end.

(** A request, through the client of a detour, and its response. *)
Record Request := mkRequest { req_URL : string; req_Dialer : option Adapter; req_IfNoneMatch : option string }.
Record Response := mkResponse { StatusCode : Z; Status : string; Body : result bytes; Etag : string }.

(** [fetch]: [newRequest] is the failure of [http.NewRequest], [do] what the
    client answers; [c] is the cache file of the rule set. *)
Definition not_modified (now : Z) (c : option CacheFile) (s : RemoteRuleSet) : option CacheFile * RemoteRuleSet :=
  let s := set_updated now (r_lastEtag s) s in
  match c with
  | None => (None, s)
  | Some c =>
      match LoadRuleSet (so_Tag (r_options s)) c with
      | (c, None) => (Some c, s)
      | (c, Some saved) =>
          (Some (SaveRuleSet (so_Tag (r_options s)) (mkSavedBinary (Content saved) now (LastEtag saved)) c).1, s)
      end
  end.

Definition fetched (now : Z) (content : bytes) (etag : string) (c : option CacheFile) (s : RemoteRuleSet)
    : option CacheFile * RemoteRuleSet :=
  let s := set_updated now (if decide (etag = "") then r_lastEtag s else etag) s in
  (match c with
   | None => None
   | Some c => Some (SaveRuleSet (so_Tag (r_options s)) (mkSavedBinary content now (r_lastEtag s)) c).1
   end, s).

Definition request_of (s : RemoteRuleSet) : Request :=
  mkRequest (so_URL (r_options s)) (r_dialer s) (if decide (r_lastEtag s = "") then None else Some (r_lastEtag s)).

Definition fetch (now : Z) (newRequest : option error) (do : Request → result Response) (c : option CacheFile)
    (s : RemoteRuleSet) : option CacheFile * RemoteRuleSet * list nat * option error :=
  match newRequest with
  | Some e => (c, s, [], Some e)
  | None =>
      match do (request_of s) with
      | Err e => (c, s, [], Some e)
      | Ok response =>
          if decide (StatusCode response = 200)%Z then
            match Body response with
            | Err e => (c, s, [], Some e)
            | Ok content =>
                match loadBytes content s with
                | (s', calls, Some e) => (c, s', calls, Some e)
                | (s', calls, None) =>
                    let '(c', s'') := fetched now content (Etag response) c s' in
                    (c', s'', calls, None)
                end
            end
          else if decide (StatusCode response = 304)%Z then
            let '(c', s') := not_modified now c s in (c', s', [], None)
          else (c, s, [], Some (ENew ("unexpected status: " +:+ Status response)))
      end
  end.

(** [StartContext]: the cache file first, then the server if there was nothing
    in it that could be used.  A panic is not an error that is logged. *)
Definition restore (c : option CacheFile) (s : RemoteRuleSet) : option CacheFile * RemoteRuleSet * list nat * option error :=
  match c with
  | None => (None, s, [], None)
  | Some c =>
      match LoadRuleSet (so_Tag (r_options s)) c with
      | (c, None) => (Some c, s, [], None)
      | (c, Some saved) =>
          match loadBytes (Content saved) s with
          | (s, calls, Some (EPanic m)) => (Some c, s, calls, Some (EPanic m))
          | (s, calls, Some _) => (Some c, s, calls, None)
          | (s, calls, None) => (Some c, set_updated (LastUpdated saved) (LastEtag saved) s, calls, None)
          end
      end
  end.
Definition with_dialer (dialer : option Adapter) (s : RemoteRuleSet) : RemoteRuleSet :=
  mkRemoteRuleSet (r_options s) (r_updateInterval s) dialer (r_core s) (r_lastUpdated s) (r_lastEtag s)
    (r_updateTicker s) (r_cancelled s).
Definition with_ticker (s : RemoteRuleSet) : RemoteRuleSet :=
  mkRemoteRuleSet (r_options s) (r_updateInterval s) (r_dialer s) (r_core s) (r_lastUpdated s) (r_lastEtag s)
    true (r_cancelled s).

Definition Remote_StartContext (now : Z) (newRequest : option error) (do : Request → result Response) (om : OManager)
    (c : option CacheFile) (s : RemoteRuleSet) : option CacheFile * RemoteRuleSet * list nat * option error :=
  let detour := so_DownloadDetour (r_options s) in
  match (if decide (detour = "") then Ok (Default om)
         else match Outbound endpoint detour om with
              | None => Err (ENew ("download detour not found: " +:+ detour))
              | Some x => Ok (Some x)
              end) with
  | Err e => (c, s, [], Some e)
  | Ok dialer =>
      let '(c, s, calls, err) := restore c (with_dialer dialer s) in
      match err with
      | Some e => (c, s, calls, Some e)
      | None =>
          if IsZero (r_lastUpdated s) then
            match fetch now newRequest do c s with
            | (c, s, calls', Some e) => (c, s, calls ++ calls', Some (cause ("initial rule-set: " +:+ so_Tag (r_options s)) e))
            | (c, s, calls', None) => (c, with_ticker s, calls ++ calls', None)
            end
          else (c, with_ticker s, calls, None)
      end
  end.

(** [updateOnce], and the first check of [loopUpdate]; an error is logged.  The
    rules of a set nobody refers to are dropped again. *)
Definition Remote_Cleanup (s : RemoteRuleSet) : RemoteRuleSet := set_core (on_rules Cleanup (r_core s)) s.
Definition updateOnce (now : Z) (newRequest : option error) (do : Request → result Response) (c : option CacheFile)
    (s : RemoteRuleSet) : option CacheFile * RemoteRuleSet * list nat * option error :=
  match fetch now newRequest do c s with
  | (c, s, calls, Some e) => (c, s, calls, Some e)
  | (c, s, calls, None) => (c, Remote_Cleanup s, calls, None)
  end.
Definition loopUpdate_first (now : Z) (newRequest : option error) (do : Request → result Response) (c : option CacheFile)
    (s : RemoteRuleSet) : option CacheFile * RemoteRuleSet * list nat * option error :=
  if decide (now - r_lastUpdated s > r_updateInterval s)%Z then updateOnce now newRequest do c s else (c, s, [], None).

Definition Remote_Close (s : RemoteRuleSet) : RemoteRuleSet :=
  mkRemoteRuleSet (r_options s) (r_updateInterval s) (r_dialer s) (on_rules drop_rules (r_core s)) (r_lastUpdated s)
    (r_lastEtag s) false true.

(** ** Either kind *)

Inductive AnyRuleSet := Local (s : LocalRuleSet) | Remote (s : RemoteRuleSet).
Definition NewRuleSet (file : result bytes) (watch : option error) (o : RuleSetOptions) : result AnyRuleSet :=
  if decide (so_Type o = "inline" ∨ so_Type o = "local" ∨ so_Type o = "") then
    let? s := NewLocalRuleSet file watch o in Ok (Local s)
  else if decide (so_Type o = "remote") then Ok (Remote (NewRemoteRuleSet o))
  else Err (ENew ("unknown rule-set type: " +:+ so_Type o)).
Definition any_core (s : AnyRuleSet) : SetCore := match s with Local s => l_core s | Remote s => r_core s end.
End sets.
