(* ===== verification/RuleSetsProps.v ===== *)
(** * Rule sets stay what they were or become what the server has

    A failed update changes nothing; after a successful one the rules in memory
    are those of the content the server had, also across restarts that start
    from the cache file. *)
From S2P Require Import Prelude Bytes MatchState RuleItems Netip Rules RuleAction RuleBuild Srs Registry OutboundManager FakeIP CacheFile FakeIPRange FakeIPProps CacheFileProps CacheFileSettings RuleSets.

Section props.
Context `{RuleEnv} `{ActionEnv} `{!SrsEnv} `{!RuleSetEnv} `{HB : BoltLaws} `{SingAddr}.
Context {E : Type} `{EndpointManager E} (endpoint : E).
Context (IsValid : HeadlessOptions → bool) (nm : bool).

(** ** Failures *)

Lemma load_rules_error rules s s' calls e : load_rules IsValid nm rules s = (s', calls, Some e) → s' = s ∧ calls = [].
Proof. unfold load_rules. destruct (reloadRules _ _ _ _) as [set [e'|]]; naive_solver. Qed.

Lemma loadBytes_error content s s' calls e : loadBytes IsValid nm content s = (s', calls, Some e) → s' = s ∧ calls = [].
Proof.
  unfold loadBytes. destruct (parse_content _ _) as [rules|]; [|naive_solver].
  destruct (load_rules IsValid nm rules (r_core s)) as [[core cs] err] eqn:Hl. intros Heq. simplify_eq.
  apply load_rules_error in Hl as [-> ->]. by destruct s.
Qed.

Lemma fetch_error now new do c s c' s' calls e :
  fetch IsValid nm now new do c s = (c', s', calls, Some e) → c' = c ∧ s' = s ∧ calls = [].
Proof.
  unfold fetch. destruct new; [naive_solver|]. destruct (do (request_of s)) as [resp|]; [|naive_solver].
  case_decide; [|case_decide; [by destruct (not_modified now c s)|naive_solver]].
  destruct (Body resp) as [content|]; [|naive_solver].
  destruct (loadBytes IsValid nm content s) as [[s1 cs] [e1|]] eqn:Hl; [|by destruct (fetched _ _ _ _ _)].
  intros Heq. simplify_eq. by apply loadBytes_error in Hl.
Qed.

(** An update that fails changes nothing.  A file that can not be read, a
    server that can not be reached, a status that is not expected, content that
    is not a rule set or holds a rule that can not be built: the rules and the
    metadata of the rule set, its ETag and time, and the cache file are what they
    were, and nobody is told. *)
Lemma failed_ruleset_update_changes_nothing :
  (∀ file l l' calls e, reloadFile IsValid nm file l = (l', calls, Some e) → l' = l ∧ calls = []) ∧
  (∀ now new do c s c' s' calls e,
     updateOnce IsValid nm now new do c s = (c', s', calls, Some e) → c' = c ∧ s' = s ∧ calls = []).
Proof.
  split.
  - intros file l l' calls e. unfold reloadFile. destruct (parse_file _ _) as [rules|]; [|naive_solver].
    destruct (load_rules IsValid nm rules (l_core l)) as [[core cs] err] eqn:Hl. intros Heq. simplify_eq.
    apply load_rules_error in Hl as [-> ->]. by destruct l.
  - intros now new do c s c' s' calls e. unfold updateOnce.
    destruct (fetch IsValid nm now new do c s) as [[[c1 s1] cs] [e1|]] eqn:Hf; [|done].
    intros Heq. simplify_eq. by eapply fetch_error.
Qed.

(** ** Success *)

(** What a rule set of these options holds once it has loaded some content. *)
Definition holds_rules (content : bytes) (s : RemoteRuleSet) : Prop :=
  ∃ rules Rs, parse_content (so_Format (r_options s)) content = Ok rules ∧
    build_ruleset IsValid nm 0 rules = Ok Rs ∧ rs_rules (core_rules (r_core s)) = Rs ∧
    (core_set (r_core s)).2 =
      mkMetadata (HasHeadlessRules rules isProcessHeadlessRule) (HasHeadlessRules rules isWIFIHeadlessRule)
        (HasHeadlessRules rules isIPCIDRHeadlessRule).

(** The fields loading content keeps. *)
Definition same_frame (s s' : RemoteRuleSet) : Prop :=
  r_options s' = r_options s ∧ rs_refs (core_rules (r_core s')) = rs_refs (core_rules (r_core s)).

Lemma loadBytes_ok content s s' calls :
  loadBytes IsValid nm content s = (s', calls, None) →
  holds_rules content s' ∧ same_frame s s' ∧ r_lastEtag s' = r_lastEtag s ∧ r_lastUpdated s' = r_lastUpdated s.
Proof.
  unfold loadBytes, holds_rules, same_frame. destruct (parse_content _ _) as [rules|] eqn:Hp; [|done].
  unfold load_rules, reloadRules. destruct (build_ruleset IsValid nm 0 rules) as [Rs|] eqn:Hb; [|done].
  intros Heq. simplify_eq. cbn. eauto 10.
Qed.

(** ** Two ways to be out of date *)

(** A response without ETag leaves the ETag of older content in place. *)
Lemma etag_outlives_content now do c s c' s' calls resp :
  do (request_of s) = Ok resp → StatusCode resp = 200%Z → Etag resp = "" →
  fetch IsValid nm now None do c s = (c', s', calls, None) →
  r_lastEtag s' = r_lastEtag s ∧ ∃ content, Body resp = Ok content ∧ holds_rules content s'.
Proof.
  intros Hdo H200 Het. unfold fetch. rewrite Hdo, decide_True by done. destruct (Body resp) as [b|]; [|done].
  destruct (loadBytes IsValid nm b s) as [[s1 cs] [|]] eqn:Hl; [done|]. apply loadBytes_ok in Hl as (Hh & _ & Hl & _).
  unfold fetched. rewrite decide_True by done. intros Heq. simplify_eq. eauto.
Qed.

(** A rule set that is not referred to when the router has started matches
    nothing for a rule that is added afterwards. *)
Lemma unreferred_set_stays_empty rt s k md :
  rs_refs s = 0%Z → RuleSet_Match rt (Nat.iter k IncRef (Cleanup s)) md = false.
Proof.
  intros Hr. unfold RuleSet_Match, RuleSet_matchStatesWithBase. unfold Cleanup. rewrite Hr. cbn [Z.eqb].
  assert (∀ r : RuleSet RuleAction, rs_rules (Nat.iter k IncRef r) = rs_rules r) as Hi.
  { intros r. induction k as [|k IH]; [done|]. by rewrite Nat.iter_succ. }
  by rewrite Hi.
Qed.

Section server.
(** The content of every ETag; the server names its content by one. *)
Context (o : RuleSetOptions) (content_of : string → bytes).
Notation tag := (so_Tag o).
Context (tag_ok : tag ≠ "" ∧ (Z.of_nat (String.length tag) <= MaxKeySize)%Z).

(** An ETag of the server, with content that the cache file can take. *)
Definition known (e : string) : Prop :=
  e ≠ "" ∧ (Z.of_nat (length (content_of e)) + Z.of_nat (String.length e) <= 2 ^ 30)%Z.

(** A server that has the content of [e] may fail in any way; when it answers,
    it sends that content and its ETag, or says that the content of the
    request's ETag is the one it has. *)
Definition answers (e : string) (do : Request → result Response) : Prop :=
  ∀ req resp, do req = Ok resp →
  (StatusCode resp = 200%Z → Etag resp = e ∧ ∀ b, Body resp = Ok b → b = content_of e) ∧
  (StatusCode resp = 304%Z → req_IfNoneMatch req = Some e).

Definition valid_time (t : Z) : Prop := (- 2 ^ 63 <= t / second < 2 ^ 63)%Z.

(** A cache file whose entry for the rule set, if any, is content of its ETag. *)
Definition cached_ok (c : CacheFile) : Prop :=
  ∃ m, holds (db c) m ∧ settings_ok c m bucketRuleSet ∧
    match value m (bucket_path c bucketRuleSet) (bytes_of tag) with
    | None => True
    | Some b => ∃ saved, b = SavedBinary_MarshalBinary saved ∧ savable saved ∧
        Content saved = content_of (LastEtag saved) ∧ known (LastEtag saved)
    end.

Lemma LoadRuleSet_cached c :
  cached_ok c → ∃ r, LoadRuleSet tag c = (c, r) ∧
    ∀ saved, r = Some saved → Content saved = content_of (LastEtag saved) ∧ known (LastEtag saved) ∧ valid_time (LastUpdated saved).
Proof.
  intros (m & Hh & Hok & Hv).
  destruct (value m (bucket_path c bucketRuleSet) (bytes_of tag)) as [b|] eqn:Hb.
  - destruct Hv as (saved & -> & Hsav & Hc & He). destruct (length_saved saved Hsav) as [Hpos _].
    eexists. split.
    + rewrite (LoadRuleSet_spec c m tag Hh Hok); [done|]. rewrite Hb. cbn [default from_option id]. by rewrite SavedBinary_roundtrip.
    + rewrite Hb. pose proof (SavedBinary_roundtrip saved Hsav) as Hrt.
      destruct (SavedBinary_MarshalBinary saved); [cbn in Hpos; lia|]. rewrite Hrt. intros ? [= <-]. cbn.
      split; [done|]. split; [done|]. unfold valid_time. rewrite Z.div_mul by done. apply Hsav.
  - eexists. split; [by rewrite (LoadRuleSet_spec c m tag Hh Hok); rewrite Hb|done].
Qed.

Lemma SaveRuleSet_cached c t e :
  cached_ok c → valid_time t → known e → cached_ok (SaveRuleSet tag (mkSavedBinary (content_of e) t e) c).1.
Proof.
  intros (m & Hh & Hok & _) Ht He. set (saved := mkSavedBinary (content_of e) t e).
  assert (savable saved) as Hsav by (split; [apply He|done]). destruct (length_saved saved Hsav) as [_ Hlen].
  destruct tag_ok as [Hne Hlt].
  destruct (store_value_spec c m bucketRuleSet (bytes_of tag) (SavedBinary_MarshalBinary saved) Hh Hok)
    as (db1 & m1 & Hst & Hh1 & Hok1 & Hv1); [by apply bytes_of_nonempty|by rewrite length_bytes_of|done|].
  unfold SaveRuleSet, failure. rewrite Hst. cbn [fst]. exists m1. split; [done|]. split; [by apply Hok1|].
  change (bucket_path (set_db db1 c) bucketRuleSet) with (bucket_path c bucketRuleSet).
  rewrite Hv1, decide_True by done. by exists saved.
Qed.
(** A rule set without ETag, or with the rules of its ETag's content. *)
Definition current (s : RemoteRuleSet) : Prop := r_lastEtag s = "" ∨ holds_rules (content_of (r_lastEtag s)) s.

Lemma fetch_current now do e c s c' s' calls :
  cached_ok c → r_options s = o → current s → valid_time now → known e → answers e do →
  fetch IsValid nm now None do (Some c) s = (c', s', calls, None) →
  ∃ c1, c' = Some c1 ∧ cached_ok c1 ∧ same_frame s s' ∧ r_lastEtag s' = e ∧ holds_rules (content_of e) s'.
Proof using tag_ok HB.
  intros Hc Ho Hcur Ht He Hans. unfold fetch. destruct (do (request_of s)) as [resp|] eqn:Hdo; [|done].
  destruct (Hans _ _ Hdo) as [H200 H304]. case_decide as Hs2; [|case_decide as Hs3; [|done]].
  - destruct (H200 Hs2) as [Hetag Hbody]. destruct (Body resp) as [b|]; [|done]. rewrite (Hbody b eq_refl), Hetag.
    destruct (loadBytes IsValid nm (content_of e) s) as [[s1 cs] [|]] eqn:Hl; [done|].
    apply loadBytes_ok in Hl as (Hh & [Ho1 Hr1] & _ & _). unfold fetched. rewrite decide_False by apply He. cbn [set_updated r_options r_lastEtag].
    rewrite Ho1, Ho. intros Heq. simplify_eq. eexists. split; [done|]. split; [by apply SaveRuleSet_cached|]. done.
  - specialize (H304 Hs3). unfold request_of in H304. cbn [req_IfNoneMatch] in H304. case_decide; [done|]. simplify_eq.
    destruct Hcur as [|Hcur]; [done|]. unfold not_modified. cbn [set_updated r_options]. rewrite Ho.
    destruct (LoadRuleSet_cached c Hc) as (r & -> & Hr). destruct r as [saved|]; intros Heq; simplify_eq; eexists; split; try done.
    + destruct (Hr saved eq_refl) as (Hcont & Hne & _). rewrite Hcont. split; [by apply SaveRuleSet_cached|]. done.
Qed.

Lemma restore_current c s c' s' calls :
  cached_ok c → r_options s = o → r_lastEtag s = "" →
  restore IsValid nm (Some c) s = (c', s', calls, None) →
  c' = Some c ∧ same_frame s s' ∧ current s' ∧ (r_lastEtag s' = "" → r_lastUpdated s' = r_lastUpdated s).
Proof using HB.
  intros Hc Ho He. unfold restore. rewrite Ho. destruct (LoadRuleSet_cached c Hc) as (r & -> & Hr).
  destruct r as [saved|]; [|intros Heq; simplify_eq; by repeat split; left].
  destruct (Hr saved eq_refl) as (Hcont & Hne & _). destruct (loadBytes IsValid nm (Content saved) s) as [[s1 cs] [e1|]] eqn:Hl.
  - apply loadBytes_error in Hl as [-> ->]. destruct e1; intros Heq; simplify_eq; by repeat split; left.
  - apply loadBytes_ok in Hl as (Hh & Hf & _). intros Heq. simplify_eq. split; [done|]. split; [done|]. split; [right|by intros Hnil; destruct Hne].
    cbn [set_updated r_lastEtag]. rewrite <-Hcont. done.
Qed.
(** A rule set that is created, started on the cache file and referred to by
    [S k] rules. *)
Definition refer (k : nat) (s : RemoteRuleSet) : RemoteRuleSet :=
  set_core (on_rules (Nat.iter (S k) IncRef) (r_core s)) s.
Definition starts (om : OManager) (now : Z) (do : Request → result Response) (k : nat) (c c' : CacheFile) (s' : RemoteRuleSet) : Prop :=
  ∃ s1 calls, Remote_StartContext endpoint IsValid nm now None do om (Some c) (NewRemoteRuleSet o) = (Some c', s1, calls, None) ∧
    s' = refer k s1.

(** The program over time: it starts with a cache file that does not know the
    rule set, updates the set, saves other rule sets in the file, and is started
    again from it, while the content on the server changes. *)
Inductive history : CacheFile → RemoteRuleSet → Prop :=
| history_first c m om now e do k c' s' :
    holds (db c) m → settings_ok c m bucketRuleSet → value m (bucket_path c bucketRuleSet) (bytes_of tag) = None →
    valid_time now → known e → answers e do → starts om now do k c c' s' → history c' s'
| history_restart c s om now e do k c' s' :
    history c s → valid_time now → known e → answers e do → starts om now do k c c' s' → history c' s'
| history_update c s now e do c' s' calls err :
    history c s → valid_time now → known e → answers e do →
    updateOnce IsValid nm now None do (Some c) s = (Some c', s', calls, err) → history c' s'
| history_other c s tag' set :
    history c s → tag' ≠ tag → tag' ≠ "" → (Z.of_nat (String.length tag') <= MaxKeySize)%Z → savable set →
    history (SaveRuleSet tag' set c).1 s.

Record running (c : CacheFile) (s : RemoteRuleSet) : Prop := {
  run_cached : cached_ok c;
  run_options : r_options s = o;
  run_current : holds_rules (content_of (r_lastEtag s)) s;
  run_refs : (0 < rs_refs (core_rules (r_core s)))%Z;
}.

Lemma iter_IncRef n r :
  rs_rules (Nat.iter n IncRef r) = rs_rules r ∧ rs_refs (Nat.iter n IncRef r) = (rs_refs r + Z.of_nat n)%Z.
Proof.
  induction n as [|n [IHr IHn]]; [cbn; split; [done|lia]|]. rewrite Nat.iter_succ. cbn [IncRef rs_rules rs_refs].
  rewrite IHr, IHn. split; [done|lia].
Qed.

Lemma refer_frame k s :
  rs_rules (core_rules (r_core (refer k s))) = rs_rules (core_rules (r_core s)) ∧
  rs_refs (core_rules (r_core (refer k s))) = (rs_refs (core_rules (r_core s)) + Z.of_nat (S k))%Z.
Proof. apply iter_IncRef. Qed.

Lemma holds_rules_refer content k s : holds_rules content s → holds_rules content (refer k s).
Proof.
  intros (rules & Rs & Hp & Hb & Hr & Hm). exists rules, Rs. destruct (refer_frame k s) as [Hf _]. by rewrite Hf.
Qed.

Lemma starts_running om now do e k c c' s' :
  cached_ok c → valid_time now → known e → answers e do → starts om now do k c c' s' → running c' s'.
Proof using tag_ok HB.
  intros Hc Ht He Hans (s1 & calls & Hst & ->). unfold Remote_StartContext in Hst.
  destruct (if decide _ then _ else _) as [dialer|] in Hst; [|done].
  destruct (restore IsValid nm (Some c) (with_dialer dialer (NewRemoteRuleSet o))) as [[[c1 s2] cs] [|]] eqn:Hr; [done|].
  apply restore_current in Hr as (-> & [Ho Hn] & Hcur & Hz); [|done..].
  assert (∃ s3, s1 = with_ticker s3 ∧ cached_ok c' ∧ r_options s3 = o ∧ holds_rules (content_of (r_lastEtag s3)) s3 ∧ rs_refs (core_rules (r_core s3)) = 0%Z) as
    (s3 & -> & Hc' & Ho3 & Hcur3 & Hn3).
  { destruct (IsZero (r_lastUpdated s2)) eqn:Hzero.
    2:{ simplify_eq. exists s2. rewrite Ho. destruct Hcur as [He2|]; [|done]. by rewrite (Hz He2) in Hzero. }
    destruct (fetch IsValid nm now None do (Some c) s2) as [[[c2 s3] cs'] [|]] eqn:Hf; [done|]. simplify_eq.
    destruct (fetch_current now do e c s2 (Some c') s3 cs') as (c3 & Hc3 & Hcok & [Ho2 Hn2] & Hetag & Hh); try done.
    exists s3. simplify_eq. split; [done|]. split; [done|]. rewrite Ho2, Hn2, Ho, Hn. split; [done|]. done. }
  split.
  - done.
  - done.
  - by apply holds_rules_refer.
  - destruct (refer_frame k (with_ticker s3)) as [_ ->]. change (core_rules (r_core (with_ticker s3))) with (core_rules (r_core s3)). lia.
Qed.
(** A referred set keeps its rules. *)
Lemma Cleanup_running s : (0 < rs_refs (core_rules (r_core s)))%Z → Remote_Cleanup s = s.
Proof.
  intros Hn. unfold Remote_Cleanup, on_rules, Cleanup. unfold core_rules in Hn.
  destruct (Z.eqb_spec (rs_refs (core_set (r_core s)).1) 0); [lia|]. destruct s as [? ? ? [[? ?] ? ?] ? ? ? ?]. done.
Qed.

Lemma update_running now do e c s c' s' calls err :
  running c s → valid_time now → known e → answers e do →
  updateOnce IsValid nm now None do (Some c) s = (c', s', calls, err) →
  ∃ c1, c' = Some c1 ∧ running c1 s' ∧ (err = None → r_lastEtag s' = e ∧ holds_rules (content_of e) s').
Proof using tag_ok HB.
  intros Hrun Ht He Hans. unfold updateOnce. pose proof Hrun as [Hc Ho Hcur Hn].
  destruct (fetch IsValid nm now None do (Some c) s) as [[[c1 s1] cs] [e1|]] eqn:Hf; intros Heq; simplify_eq.
  - apply fetch_error in Hf as (-> & -> & _). by exists c.
  - destruct (fetch_current now do e c s c' s1 calls) as (c2 & -> & Hc2 & [Ho2 Hn2] & Hetag & Hh); try done; [by right|].
    rewrite Cleanup_running by (rewrite Hn2; done). exists c2. split; [done|]. split; [|done].
    split; [done|congruence|by rewrite Hetag|lia].
Qed.

Lemma history_running c s : history c s → running c s.
Proof using tag_ok HB.
  induction 1 as [c m om now e do k c' s' Hh Hok Hv Ht He Hans Hst|c s om now e do k c' s' _ IH Ht He Hans Hst
                 |c s now e do c' s' calls err _ IH Ht He Hans Hu|c s tag' set _ [Hc Ho Hcur Hn] Htag Hne Hlen Hsav].
  - eapply starts_running; try done. exists m. by rewrite Hv.
  - eapply starts_running; try done. apply IH.
  - by destruct (update_running now do e c s (Some c') s' calls err) as (c1 & [= <-] & Hrun & _).
  - split; [|done..]. destruct Hc as (m & Hh & Hok & Hv). destruct (length_saved set Hsav) as [_ Hl].
    destruct (store_value_spec c m bucketRuleSet (bytes_of tag') (SavedBinary_MarshalBinary set) Hh Hok)
      as (db1 & m1 & Hst & Hh1 & Hok1 & Hv1); [by apply bytes_of_nonempty|by rewrite length_bytes_of|done|].
    unfold SaveRuleSet, failure. rewrite Hst. cbn [fst]. exists m1. split; [done|]. split; [by apply Hok1|].
    change (bucket_path (set_db db1 c) bucketRuleSet) with (bucket_path c bucketRuleSet). rewrite Hv1, decide_False; [done|].
    intros [_ Heq]. by apply Htag, bytes_of_inj.
Qed.

(** C36: A downloaded rule set is the one the server has.  Whatever the server's
    content was in between, whatever failed, and however often the program was
    started again from its cache file: after an update that succeeds, the rules
    in force and the metadata are those of the content the server has, and so is
    the ETag; an update that fails keeps rules that are content of the ETag the
    set remembers.  The server names each content by an ETag. *)
Theorem remote_rules_are_current c s now do e c' s' calls err :
  history c s → valid_time now → known e → answers e do →
  updateOnce IsValid nm now None do (Some c) s = (c', s', calls, err) →
  match err with
  | None => r_lastEtag s' = e ∧ holds_rules (content_of e) s'
  | Some _ => s' = s ∧ holds_rules (content_of (r_lastEtag s)) s
  end.
Proof using tag_ok HB.
  intros Hh Ht He Hans Hu. pose proof (history_running c s Hh) as Hrun. destruct err as [er|].
  - unfold updateOnce in Hu. destruct (fetch IsValid nm now None do (Some c) s) as [[[c1 s1] cs] [e1|]] eqn:Hf; [|done].
    simplify_eq. apply fetch_error in Hf as (_ & -> & _). split; [done|]. apply Hrun.
  - destruct (update_running now do e c s c' s' calls None) as (c1 & _ & _ & Hok); auto.
Qed.
End server.
End props.
