(* ===== verification/Groups.v ===== *)
(** * Interruption, selector and URL-test groups

    First a model of src/runtime/sing-box/common/interrupt: a group keeps the
    connections dialled through it and closes them when its outbound changes.  A
    connection is a connection of an outbound, or the wrapper a group gave out for
    one; closing a wrapper takes it off its group's list first.  Then one of
    src/runtime/sing-box/protocol/group. *)
From S2P Require Import Prelude Bytes RuleItems Netip Registry OutboundManager FakeIP CacheFile.

Inductive Conn :=
| Raw (id : nat)
| Grouped (group : nat) (element : nat) (inner : Conn).

Fixpoint raw (c : Conn) : nat := match c with Raw id => id | Grouped _ _ c => raw c end.

(** [groupConnItem], under the number of its list element. *)
Record Item := mkItem { it_element : nat; it_conn : Conn; isExternal : bool }.

(** All groups, the next list element, and the connections closed so far. *)
Record Interrupts := mkInterrupts {
  ig_items : gmap nat (list Item);
  ig_next : nat;
  ig_closed : list nat;
}.
Definition members (g : nat) (s : Interrupts) : list Item := default [] (ig_items s !! g).
Definition set_members (g : nat) (l : list Item) (s : Interrupts) : Interrupts :=
  mkInterrupts (<[g := l]> (ig_items s)) (ig_next s) (ig_closed s).
Definition remove (g element : nat) (s : Interrupts) : Interrupts :=
  set_members g (filter (λ i, it_element i ≠ element) (members g s)) s.

(** group.go, [NewGroup], [NewConn] and [NewPacketConn]. *)
Definition NewGroup (g : nat) (s : Interrupts) : Interrupts := set_members g [] s.
Definition NewConn (g : nat) (c : Conn) (external : bool) (s : Interrupts) : Interrupts * Conn :=
  (mkInterrupts (<[g := members g s ++ [mkItem (ig_next s) c external]]> (ig_items s)) (S (ig_next s)) (ig_closed s),
   Grouped g (ig_next s) c).

(** conn.go, [Close] of a connection. *)
Fixpoint Conn_Close (c : Conn) (s : Interrupts) : Interrupts :=
  match c with
  | Raw id => mkInterrupts (ig_items s) (ig_next s) (ig_closed s ++ [id])
  | Grouped g element inner => Conn_Close inner (remove g element s)
  end.

(** [Interrupt]: the connections are closed in order, then taken off the list. *)
Definition interrupted (interruptExternal : bool) (i : Item) : bool := negb (isExternal i) || interruptExternal.
Definition Interrupt (g : nat) (interruptExternal : bool) (s : Interrupts) : Interrupts :=
  let items := members g s in
  let s := foldl (λ s i, if interrupted interruptExternal i then Conn_Close (it_conn i) s else s) s items in
  foldl (λ s i, if interrupted interruptExternal i then remove g (it_element i) s else s) s items.

(** ** What a group closes *)

(** The groups a connection was given out by, from the outside. *)
Fixpoint layers (c : Conn) : list (nat * nat) := match c with Raw _ => [] | Grouped g e c => (g, e) :: layers c end.

(** Element numbers are in use once, and no connection of a group was given out
    by the group itself or twice by another. *)
Record ig_wf (s : Interrupts) : Prop := {
  ig_fresh g i : i ∈ members g s → it_element i < ig_next s;
  ig_nodup g : NoDup (it_element <$> members g s);
  ig_layers g i h e : i ∈ members g s → (h, e) ∈ layers (it_conn i) → h ≠ g ∧ e < ig_next s;
}.

Lemma members_set g h l s : members h (set_members g l s) = if decide (h = g) then l else members h s.
Proof.
  unfold members, set_members. cbn. case_decide; [subst; by rewrite lookup_insert_eq|by rewrite lookup_insert_ne].
Qed.

Lemma filter_id {A} (P : A → Prop) `{∀ x, Decision (P x)} (l : list A) : (∀ x, x ∈ l → P x) → filter P l = l.
Proof.
  induction l as [|x l IH]; intros Hl; [done|]. rewrite filter_cons_True by (apply Hl; by left). f_equal. apply IH.
  intros y Hy. apply Hl. by right.
Qed.

Lemma members_close c g s :
  members g (Conn_Close c s) = filter (λ i, ¬ (g, it_element i) ∈ layers c) (members g s).
Proof.
  revert s. induction c as [id|h e c IH]; intros s; cbn [Conn_Close layers].
  - unfold members. cbn. symmetry. apply filter_id. intros i _. apply not_elem_of_nil.
  - rewrite IH. unfold remove. rewrite members_set. case_decide as Hg; [subst h|].
    + rewrite list_filter_filter. apply list_filter_iff. intros i. rewrite elem_of_cons. naive_solver.
    + apply list_filter_iff. intros i. rewrite elem_of_cons. naive_solver.
Qed.

Lemma closed_close c s : ig_closed (Conn_Close c s) = ig_closed s ++ [raw c].
Proof. revert s. induction c as [id|h e c IH]; intros s; cbn; [done|]. by rewrite IH. Qed.
Lemma next_close c s : ig_next (Conn_Close c s) = ig_next s.
Proof. revert s. induction c as [id|h e c IH]; intros s; cbn; [done|]. by rewrite IH. Qed.

Lemma filter_ext_in {A} (P Q : A → Prop) `{∀ x, Decision (P x)} `{∀ x, Decision (Q x)} (l : list A) :
  (∀ x, x ∈ l → P x ↔ Q x) → filter P l = filter Q l.
Proof.
  induction l as [|x l IH]; intros Hl; [done|]. specialize (IH (λ y Hy, Hl y (list_elem_of_further _ _ _ Hy))).
  destruct (decide (P x)) as [Hp|Hp].
  - rewrite !filter_cons_True by (done || (apply Hl; [by left|done])). by rewrite IH.
  - rewrite !filter_cons_False; [done| |done]. intros Hq. apply Hp, Hl; [by left|done].
Qed.

(** Closing the connections of a list. *)
Lemma close_all_spec b g items s :
  (∀ i e, i ∈ items → (g, e) ∉ layers (it_conn i)) →
  let s' := foldl (λ s i, if interrupted b i then Conn_Close (it_conn i) s else s) s items in
  members g s' = members g s ∧ ig_closed s' = ig_closed s ++ ((raw ∘ it_conn) <$> filter (λ i, interrupted b i = true) items).
Proof.
  revert s. induction items as [|i items IH]; intros s Hl; cbn [foldl]; [by rewrite app_nil_r|].
  assert (∀ j e, j ∈ items → (g, e) ∉ layers (it_conn j)) as Hl' by (intros j e Hj; apply Hl; by right).
  destruct (interrupted b i) eqn:Hi.
  - destruct (IH (Conn_Close (it_conn i) s) Hl') as [-> ->]. rewrite members_close, closed_close, filter_cons_True by done.
    split; [|by rewrite <-app_assoc]. apply filter_id. intros j _. apply Hl. by left.
  - destruct (IH s Hl') as [-> ->]. rewrite filter_cons_False by congruence. done.
Qed.

(** Taking the elements of a list off a group. *)
Lemma remove_all_spec b g items s :
  let s' := foldl (λ s i, if interrupted b i then remove g (it_element i) s else s) s items in
  members g s' = filter (λ i, it_element i ∉ it_element <$> filter (λ i, interrupted b i = true) items) (members g s) ∧
  ig_closed s' = ig_closed s.
Proof.
  revert s. induction items as [|i items IH]; intros s; cbn [foldl].
  { split; [|done]. symmetry. apply filter_id. intros j _. apply not_elem_of_nil. }
  destruct (interrupted b i) eqn:Hi.
  - destruct (IH (remove g (it_element i) s)) as [-> ->]. unfold remove at 1. rewrite members_set, decide_True by done.
    split; [|done]. rewrite list_filter_filter, (filter_cons_True _ i) by done. apply list_filter_iff. intros j. cbn. rewrite elem_of_cons. naive_solver.
  - destruct (IH s) as [-> ->]. split; [|done]. rewrite (filter_cons_False _ i) by congruence. done.
Qed.

Lemma Interrupt_spec g b s :
  ig_wf s →
  members g (Interrupt g b s) = filter (λ i, interrupted b i = false) (members g s) ∧
  ig_closed (Interrupt g b s) = ig_closed s ++ ((raw ∘ it_conn) <$> filter (λ i, interrupted b i = true) (members g s)).
Proof.
  intros [Hf Hn Hl]. unfold Interrupt. set (items := members g s).
  destruct (close_all_spec b g items s) as [Hm Hc]; [intros i e Hi He; by destruct (Hl g i g e Hi He)|].
  destruct (remove_all_spec b g items (foldl (λ s i, if interrupted b i then Conn_Close (it_conn i) s else s) s items)) as [-> ->].
  rewrite Hm, Hc. split; [|done]. fold items. specialize (Hn g). fold items in Hn. clear -Hn.
  apply filter_ext_in. intros i Hi. rewrite list_elem_of_fmap. split.
  - intros Hno. destruct (interrupted b i) eqn:Hint; [|done]. destruct Hno. exists i. split; [done|]. by apply list_elem_of_filter.
  - intros Hint (j & Hij & Hj). apply list_elem_of_filter in Hj as [Hj Hin].
    rewrite (NoDup_fmap_elem it_element items i j) in Hint by done. congruence.
Qed.

(** *** Runs *)

(** What happens to the lists: groups are made, connections are given out by a
    group that is not among those they were given out by before, closed, and
    interrupted. *)
Inductive ig_step (s : Interrupts) : Interrupts → Prop :=
| ig_new g : ig_step s (NewGroup g s)
| ig_conn g c external : (∀ h e, (h, e) ∈ layers c → h ≠ g ∧ e < ig_next s) → ig_step s (NewConn g c external s).1
| ig_close c : ig_step s (Conn_Close c s)
| ig_interrupt g b : ig_step s (Interrupt g b s).

(** Lists that only lose items. *)
Definition shrinks (s s' : Interrupts) : Prop := ig_next s' = ig_next s ∧ ∀ g, sublist (members g s') (members g s).
Lemma shrinks_trans s1 s2 s3 : shrinks s1 s2 → shrinks s2 s3 → shrinks s1 s3.
Proof. intros [H1 H2] [H3 H4]. split; [congruence|]. intros g. etrans; [apply H4|apply H2]. Qed.
Lemma shrinks_wf s s' : shrinks s s' → ig_wf s → ig_wf s'.
Proof.
  intros [Hn Hs] [Hf Hd Hl]. assert (∀ g i, i ∈ members g s' → i ∈ members g s) as Hin.
  { intros g. apply sublist_subseteq, Hs. }
  split.
  - intros g i Hi. rewrite Hn. by eapply Hf, Hin.
  - intros g. eapply sublist_NoDup; [apply (Hd g)|]. by apply fmap_sublist.
  - intros g i h e Hi. rewrite Hn. by eapply Hl, Hin.
Qed.
Lemma shrinks_filter g (P : Item → Prop) `{∀ i, Decision (P i)} s : shrinks s (set_members g (filter P (members g s)) s).
Proof. split; [done|]. intros h. rewrite members_set. case_decide; [subst; apply sublist_filter|done]. Qed.
Lemma shrinks_close c s : shrinks s (Conn_Close c s).
Proof. split; [apply next_close|]. intros g. rewrite members_close. apply sublist_filter. Qed.
Lemma shrinks_foldl {A} (f : Interrupts → A → Interrupts) l s : (∀ s a, shrinks s (f s a)) → shrinks s (foldl f s l).
Proof. intros Hf. revert s. induction l as [|a l IH]; intros s; [by split|]. cbn. by eapply shrinks_trans. Qed.
Lemma shrinks_interrupt g b s : shrinks s (Interrupt g b s).
Proof.
  unfold Interrupt. eapply shrinks_trans; [apply (shrinks_foldl (A := Item))|apply (shrinks_foldl (A := Item))]; intros s' i; cbv beta; case_match;
    [apply shrinks_close|by split|apply shrinks_filter|by split].
Qed.

Lemma ig_step_wf s s' : ig_step s s' → ig_wf s → ig_wf s'.
Proof.
  intros Hstep Hwf. destruct Hstep as [g|g c external Hc|c|g b].
  - apply (shrinks_wf s); [|done]. split; [done|]. intros h. unfold NewGroup. rewrite members_set. case_decide; [apply sublist_nil_l|done].
  - destruct Hwf as [Hf Hd Hl].
    assert (∀ h, members h (NewConn g c external s).1 = if decide (h = g) then members g s ++ [mkItem (ig_next s) c external] else members h s) as Hm.
    { intros h. unfold members, NewConn. cbn. case_decide; [subst; by rewrite lookup_insert_eq|by rewrite lookup_insert_ne]. }
    assert (∀ h i, i ∈ members h (NewConn g c external s).1 → i ∈ members h s ∨ (h = g ∧ i = mkItem (ig_next s) c external)) as Hin.
    { intros h i. rewrite Hm. case_decide; [|auto]. subst. rewrite elem_of_app, list_elem_of_singleton. tauto. }
    split; cbn [ig_next NewConn fst].
    + intros h i [Hi|[_ ->]]%Hin; [specialize (Hf h i Hi); lia|cbn; lia].
    + intros h. rewrite Hm. case_decide; [|apply Hd]. rewrite fmap_app. apply NoDup_app. split; [apply Hd|]. split; [|apply NoDup_singleton].
      intros e (i & -> & Hi)%list_elem_of_fmap. cbn. rewrite list_elem_of_singleton. specialize (Hf g i Hi). lia.
    + intros h i k e [Hi|[-> ->]]%Hin He; [destruct (Hl h i k e Hi He); split; [done|lia]|]. destruct (Hc k e He). split; [done|lia].
  - by eapply shrinks_wf, Hwf; apply shrinks_close.
  - by eapply shrinks_wf, Hwf; apply shrinks_interrupt.
Qed.
Lemma ig_empty_wf : ig_wf (mkInterrupts ∅ 0 []).
Proof.
  assert (∀ g, members g (mkInterrupts ∅ 0 []) = []) as Hm by (intros g; unfold members; cbn; by rewrite lookup_empty).
  split; intros g; rewrite Hm; [by intros i ?%elem_of_nil|constructor|by intros i h e ?%elem_of_nil].
Qed.
Lemma ig_run_wf s : rtc ig_step (mkInterrupts ∅ 0 []) s → ig_wf s.
Proof. intros Hr. pose proof ig_empty_wf as Hwf. induction Hr; [done|]. eauto using ig_step_wf. Qed.

(** ** Selector and URL-test groups

    Model of src/runtime/sing-box/protocol/group (selector.go, urltest.go) and of
    the history of common/urltest.  Outbounds are objects of a heap, found by
    the identity of their adapter; groups are outbounds that hand connections on
    to others and may be nested.  What a plain outbound dials and what a test of
    an outbound gives are arguments; tests run concurrently, so starting a round
    of tests, the end of each test and the end of the round are separate
    operations.  Times are nanoseconds, delays milliseconds in [uint16]. *)

(** common/urltest/urltest.go, [HistoryStorage]. *)
Record URLTestHistory := mkHistory { h_Time : Z; h_Delay : Z }.
Notation History := (gmap string URLTestHistory) (only parsing).
Definition LoadURLTestHistory (tag : string) (h : History) : option URLTestHistory := h !! tag.
Definition DeleteURLTestHistory (tag : string) (h : History) : History := delete tag h.
Definition StoreURLTestHistory (tag : string) (r : URLTestHistory) (h : History) : History := <[tag := r]> h.

Definition NetworkTCP : string := "tcp".
Definition NetworkUDP : string := "udp".
Definition uint16 (z : Z) : Z := z mod 65536.
Definition minute : Z := 60 * 1000000000.

Record Selector := mkSelector {
  sel_Tag : string;
  sel_tags : list string;
  sel_defaultTag : string;
  sel_outbounds : gmap string Adapter;
  sel_selected : option Adapter;
  sel_interruptGroup : nat;
  sel_interruptExternal : bool;
}.

(** The ticker is a number; [ug_loops] are the tickers of running check loops. *)
Record URLTestGroup := mkURLTestGroup {
  ug_outbounds : list Adapter;
  ug_interval : Z;
  ug_tolerance : Z;
  ug_idleTimeout : Z;
  ug_history : nat;
  ug_checking : bool;
  ug_selectedTCP : option Adapter;
  ug_selectedUDP : option Adapter;
  ug_interruptGroup : nat;
  ug_interruptExternal : bool;
  ug_ticker : option nat;
  ug_loops : list nat;
  ug_nextTicker : nat;
  ug_closed : bool;
  ug_started : bool;
  ug_lastActive : Z;
}.

Record URLTest := mkURLTest {
  ut_Tag : string;
  ut_tags : list string;
  ut_interval : Z;
  ut_tolerance : Z;
  ut_idleTimeout : Z;
  ut_interruptExternal : bool;
  ut_group : option URLTestGroup;
}.

(** A plain outbound: its networks, and whether it handles connections itself. *)
Inductive Object :=
| Plain (networks : list string) (handler : bool)
| ASelector (s : Selector)
| AnURLTest (u : URLTest).

Section groups.
Context `{Bolt} `{SingAddr} {E : Type} `{EndpointManager E} (endpoint : E).
(** [N.NetworkName] of the sing library: "tcp4" is "tcp". *)
Context (NetworkName : string → string).

Record World := mkWorld {
  w_objects : gmap nat Object;
  w_histories : gmap nat (gmap string URLTestHistory);
  w_interrupts : Interrupts;
  w_cacheFile : option CacheFile;
}.
Definition object (w : World) (x : Adapter) : Object := default (Plain [] false) (w_objects w !! a_id x).
Definition set_object (x : Adapter) (o : Object) (w : World) : World :=
  mkWorld (<[a_id x := o]> (w_objects w)) (w_histories w) (w_interrupts w) (w_cacheFile w).
Definition set_interrupts (i : Interrupts) (w : World) : World :=
  mkWorld (w_objects w) (w_histories w) i (w_cacheFile w).
Definition set_cacheFile (c : option CacheFile) (w : World) : World :=
  mkWorld (w_objects w) (w_histories w) (w_interrupts w) c.
Definition history (w : World) (h : nat) : gmap string URLTestHistory := default ∅ (w_histories w !! h).
Definition on_history (h : nat) (f : gmap string URLTestHistory → gmap string URLTestHistory) (w : World) : World :=
  mkWorld (w_objects w) (<[h := f (history w h)]> (w_histories w)) (w_interrupts w) (w_cacheFile w).

(** ** Tags and networks *)

Definition nil_panic : error := EPanic "invalid memory address or nil pointer dereference".

Definition Selector_Now (s : Selector) : result string :=
  match sel_selected s with
  | Some x => Ok (a_Tag x)
  | None => match sel_tags s with [] => Err (EPanic "index out of range [0] with length 0") | tag :: _ => Ok tag end
  end.
Definition URLTest_Now (u : URLTest) : result string :=
  match ut_group u with
  | None => Err nil_panic
  | Some g =>
      Ok match ug_selectedTCP g, ug_selectedUDP g with
         | Some x, _ => a_Tag x
         | None, Some x => a_Tag x
         | None, None => ""
         end
  end.

(** selector.go, [RealTag]. *)
Definition RealTag (w : World) (detour : Adapter) : result string :=
  match object w detour with
  | Plain _ _ => Ok (a_Tag detour)
  | ASelector s => Selector_Now s
  | AnURLTest u => URLTest_Now u
  end.

(** [Network] of an outbound: a selector has the networks of the selected one,
    which may be a selector again.  Groups depend on each other without cycles;
    [fuel] bounds the depth. *)
Fixpoint Network (fuel : nat) (w : World) (x : Adapter) : list string :=
  match object w x with
  | Plain networks _ => networks
  | AnURLTest _ => [NetworkTCP; NetworkUDP]
  | ASelector s =>
      match sel_selected s, fuel with
      | Some y, S fuel => Network fuel w y
      | None, _ => [NetworkTCP; NetworkUDP]
      | Some _, 0 => []
      end
  end.
Definition depth (w : World) : nat := size (w_objects w).
Definition supports (w : World) (network : string) (x : Adapter) : bool := bool_decide (network ∈ Network (depth w) w x).

(** ** Selector *)

Definition NewSelector (tag : string) (tags : list string) (defaultTag : string) (interrupt : bool) (group : nat) : result Selector :=
  if decide (length tags = 0) then Err (ENew "missing tags")
  else Ok (mkSelector tag tags defaultTag ∅ None group interrupt).

Definition select (x : option Adapter) (s : Selector) : Selector :=
  mkSelector (sel_Tag s) (sel_tags s) (sel_defaultTag s) (sel_outbounds s) x (sel_interruptGroup s) (sel_interruptExternal s).
Definition set_outbounds (m : gmap string Adapter) (s : Selector) : Selector :=
  mkSelector (sel_Tag s) (sel_tags s) (sel_defaultTag s) m (sel_selected s) (sel_interruptGroup s) (sel_interruptExternal s).

(** The loop of [Start] over the tags. *)
Fixpoint find_outbounds (om : OManager) (i : nat) (tags : list string) (acc : list Adapter) : list Adapter * option error :=
  match tags with
  | [] => (acc, None)
  | tag :: tags =>
      match Outbound endpoint tag om with
      | None => (acc, Some (ENew ("outbound " +:+ pretty i +:+ " not found: " +:+ tag)))
      | Some detour => find_outbounds om (S i) tags (acc ++ [detour])
      end
  end.

Definition cached_selection (s : Selector) (c : option CacheFile) : option CacheFile * option Adapter :=
  if decide (sel_Tag s = "") then (c, None)
  else
    match c with
    | None => (None, None)
    | Some c =>
        let '(c, selected) := LoadSelected (sel_Tag s) c in
        (Some c, if decide (selected = "") then None else sel_outbounds s !! selected)
    end.

Definition Selector_Start (om : OManager) (c : option CacheFile) (s : Selector) : option CacheFile * Selector * option error :=
  let '(detours, err) := find_outbounds om 0 (sel_tags s) [] in
  let s := set_outbounds (foldl (λ m p, <[p.1 := p.2]> m) (sel_outbounds s) (zip (sel_tags s) detours)) s in
  match err with
  | Some e => (c, s, Some e)
  | None =>
      match cached_selection s c with
      | (c, Some detour) => (c, select (Some detour) s, None)
      | (c, None) =>
          if decide (sel_defaultTag s = "") then
            match sel_tags s with
            | [] => (c, s, Some (EPanic "index out of range [0] with length 0"))
            | tag :: _ => (c, select (sel_outbounds s !! tag) s, None)
            end
          else
            match sel_outbounds s !! sel_defaultTag s with
            | None => (c, s, Some (ENew ("default outbound not found: " +:+ sel_defaultTag s)))
            | Some detour => (c, select (Some detour) s, None)
            end
      end
  end.

(** [SelectOutbound]; a failure to store the selection is logged. *)
Definition SelectOutbound (tag : string) (s : Selector) (w : World) : World * Selector * bool :=
  match sel_outbounds s !! tag with
  | None => (w, s, false)
  | Some detour =>
      if decide (sel_selected s = Some detour) then (w, s, true)
      else
        let s := select (Some detour) s in
        let w :=
          if decide (sel_Tag s = "") then w
          else
            match w_cacheFile w with
            | None => w
            | Some c => set_cacheFile (Some (StoreSelected (sel_Tag s) tag c).1) w
            end in
        (set_interrupts (Interrupt (sel_interruptGroup s) (sel_interruptExternal s) (w_interrupts w)) w, s, true)
  end.

(** ** URL tests *)

Definition NewURLTest (tag : string) (tags : list string) (interval tolerance idleTimeout : Z) (interrupt : bool) : result URLTest :=
  if decide (length tags = 0) then Err (ENew "missing tags")
  else Ok (mkURLTest tag tags interval tolerance idleTimeout interrupt None).

(** [NewURLTestGroup], with the history it finds in its context or creates. *)
Definition NewURLTestGroup (outbounds : list Adapter) (interval tolerance idleTimeout : Z) (interrupt : bool) (history group : nat)
    : result URLTestGroup :=
  let interval := if decide (interval = 0)%Z then (3 * minute)%Z else interval in
  let tolerance := if decide (tolerance = 0)%Z then 50%Z else tolerance in
  let idleTimeout := if decide (idleTimeout = 0)%Z then (30 * minute)%Z else idleTimeout in
  if decide (interval > idleTimeout)%Z then Err (ENew "interval must be less or equal than idle_timeout")
  else Ok (mkURLTestGroup outbounds interval tolerance idleTimeout history false None None group interrupt None [] 0 false false 0).

Definition URLTest_Start (om : OManager) (history group : nat) (u : URLTest) : URLTest * option error :=
  match find_outbounds om 0 (ut_tags u) [] with
  | (_, Some e) => (u, Some e)
  | (outbounds, None) =>
      match NewURLTestGroup outbounds (ut_interval u) (ut_tolerance u) (ut_idleTimeout u) (ut_interruptExternal u) history group with
      | Err e => (u, Some e)
      | Ok g => (mkURLTest (ut_Tag u) (ut_tags u) (ut_interval u) (ut_tolerance u) (ut_idleTimeout u) (ut_interruptExternal u) (Some g), None)
      end
  end.

(** Setters. *)
Definition set_checking (b : bool) (g : URLTestGroup) : URLTestGroup :=
  mkURLTestGroup (ug_outbounds g) (ug_interval g) (ug_tolerance g) (ug_idleTimeout g) (ug_history g) b (ug_selectedTCP g)
    (ug_selectedUDP g) (ug_interruptGroup g) (ug_interruptExternal g) (ug_ticker g) (ug_loops g) (ug_nextTicker g) (ug_closed g)
    (ug_started g) (ug_lastActive g).
Definition set_selected (tcp udp : option Adapter) (g : URLTestGroup) : URLTestGroup :=
  mkURLTestGroup (ug_outbounds g) (ug_interval g) (ug_tolerance g) (ug_idleTimeout g) (ug_history g) (ug_checking g) tcp
    udp (ug_interruptGroup g) (ug_interruptExternal g) (ug_ticker g) (ug_loops g) (ug_nextTicker g) (ug_closed g)
    (ug_started g) (ug_lastActive g).
Definition set_ticker (t : option nat) (loops : list nat) (next : nat) (closed : bool) (g : URLTestGroup) : URLTestGroup :=
  mkURLTestGroup (ug_outbounds g) (ug_interval g) (ug_tolerance g) (ug_idleTimeout g) (ug_history g) (ug_checking g) (ug_selectedTCP g)
    (ug_selectedUDP g) (ug_interruptGroup g) (ug_interruptExternal g) t loops next closed (ug_started g) (ug_lastActive g).
Definition set_active (started : bool) (t : Z) (g : URLTestGroup) : URLTestGroup :=
  mkURLTestGroup (ug_outbounds g) (ug_interval g) (ug_tolerance g) (ug_idleTimeout g) (ug_history g) (ug_checking g) (ug_selectedTCP g)
    (ug_selectedUDP g) (ug_interruptGroup g) (ug_interruptExternal g) (ug_ticker g) (ug_loops g) (ug_nextTicker g) (ug_closed g)
    started t.

(** [PostStart], up to the check it starts, and [Touch], which starts a loop
    when none has a ticker. *)
Definition PostStart (now : Z) (g : URLTestGroup) : URLTestGroup := set_active true now g.
Definition Touch (now : Z) (g : URLTestGroup) : URLTestGroup :=
  if negb (ug_started g) then g
  else
    match ug_ticker g with
    | Some _ => set_active true now g
    | None => set_ticker (Some (ug_nextTicker g)) (ug_nextTicker g :: ug_loops g) (S (ug_nextTicker g)) (ug_closed g) g
    end.
Definition Group_Close (g : URLTestGroup) : URLTestGroup * option error :=
  match ug_ticker g with
  | None => (g, None)
  | Some _ =>
      (set_ticker None (ug_loops g) (ug_nextTicker g) true g,
       if ug_closed g then Some (EPanic "close of closed channel") else None)
  end.

(** [Select]: the outbound that is selected and was tested comes first. *)
Definition selected_of (network : string) (g : URLTestGroup) : option Adapter :=
  if decide (network = NetworkTCP) then ug_selectedTCP g
  else if decide (network = NetworkUDP) then ug_selectedUDP g else None.
Definition tested (w : World) (g : URLTestGroup) (x : Adapter) : result (option Z) :=
  let? tag := RealTag w x in Ok (h_Delay <$> LoadURLTestHistory tag (history w (ug_history g))).
Fixpoint select_loop (w : World) (g : URLTestGroup) (network : string) (outbounds : list Adapter)
    (minDelay : Z) (minOutbound : option Adapter) : result (option Adapter) :=
  match outbounds with
  | [] => Ok minOutbound
  | detour :: outbounds =>
      if supports w network detour then
        let? delay := tested w g detour in
        match delay with
        | None => select_loop w g network outbounds minDelay minOutbound
        | Some d =>
            if decide (minDelay = 0 ∨ minDelay > uint16 (d + ug_tolerance g))%Z
            then select_loop w g network outbounds d (Some detour)
            else select_loop w g network outbounds minDelay minOutbound
        end
      else select_loop w g network outbounds minDelay minOutbound
  end.
Definition Select (w : World) (g : URLTestGroup) (network : string) : result (option Adapter * bool) :=
  let? first :=
    match selected_of network g with
    | None => Ok (0%Z, None)
    | Some x => let? delay := tested w g x in Ok match delay with Some d => (d, Some x) | None => (0%Z, None) end
    end in
  let? best := select_loop w g network (ug_outbounds g) first.1 first.2 in
  Ok match best with
     | Some x => (Some x, true)
     | None => (List.find (supports w network) (ug_outbounds g), false)
     end.

(** [performUpdateCheck]. *)
Definition moves (current : option Adapter) (choice : option Adapter * bool) : bool :=
  match choice.1 with
  | None => false
  | Some x => match current with None => true | Some y => choice.2 && negb (bool_decide (x = y)) end
  end.
Definition performUpdateCheck (g : URLTestGroup) (w : World) : result (World * URLTestGroup) :=
  let? tcp := Select w g NetworkTCP in
  let updatedTCP := moves (ug_selectedTCP g) tcp && bool_decide (is_Some (ug_selectedTCP g)) in
  let g := set_selected (if moves (ug_selectedTCP g) tcp then tcp.1 else ug_selectedTCP g) (ug_selectedUDP g) g in
  let? udp := Select w g NetworkUDP in
  let updatedUDP := moves (ug_selectedUDP g) udp && bool_decide (is_Some (ug_selectedUDP g)) in
  let g := set_selected (ug_selectedTCP g) (if moves (ug_selectedUDP g) udp then udp.1 else ug_selectedUDP g) g in
  Ok (if updatedTCP || updatedUDP
      then set_interrupts (Interrupt (ug_interruptGroup g) (ug_interruptExternal g) (w_interrupts w)) w else w, g).

(** [urlTest], in three parts.  The tests that a round starts: of every outbound
    whose real tag was not tested yet in the round and has no recent result. *)
Fixpoint tests (om : OManager) (force : bool) (now : Z) (w : World) (g : URLTestGroup) (outbounds : list Adapter)
    (checked : gset string) : result (list (string * string * Adapter)) :=
  match outbounds with
  | [] => Ok []
  | detour :: outbounds =>
      let? realTag := RealTag w detour in
      if decide (realTag ∈ checked) then tests om force now w g outbounds checked
      else
        let recent := match LoadURLTestHistory realTag (history w (ug_history g)) with
                      | Some r => bool_decide (now - h_Time r < ug_interval g)%Z
                      | None => false
                      end in
        if negb force && recent then tests om force now w g outbounds checked
        else
          match Outbound endpoint realTag om with
          | None => tests om force now w g outbounds (checked ∪ {[realTag]})
          | Some p =>
              let? l := tests om force now w g outbounds (checked ∪ {[realTag]}) in
              Ok ((a_Tag detour, realTag, p) :: l)
          end
  end.
(** [None] when a round is in progress. *)
Definition urlTest_begin (om : OManager) (force : bool) (now : Z) (w : World) (g : URLTestGroup)
    : URLTestGroup * result (option (list (string * string * Adapter))) :=
  if ug_checking g then (g, Ok None)
  else (set_checking true g, let? l := tests om force now w g (ug_outbounds g) ∅ in Ok (Some l)).
(** A test ends: [Ok] with the delay, or a failure. *)
Definition test_done (realTag : string) (now : Z) (r : result Z) (h : History) : History :=
  match r with
  | Err _ => DeleteURLTestHistory realTag h
  | Ok t => StoreURLTestHistory realTag (mkHistory now t) h
  end.
Definition urlTest_end (g : URLTestGroup) (w : World) : result (World * URLTestGroup) :=
  let? r := performUpdateCheck g w in Ok (r.1, set_checking false r.2).

(** A round without other operations in between. *)
Definition urlTest (om : OManager) (force : bool) (now : Z) (test : Adapter → result Z) (g : URLTestGroup) (w : World)
    : result (World * URLTestGroup * list (string * Z)) :=
  match urlTest_begin om force now w g with
  | (g, Err e) => Err e
  | (g, Ok None) => Ok (w, g, [])
  | (g, Ok (Some l)) =>
      let w := on_history (ug_history g) (λ h, foldl (λ h t, test_done t.1.2 now (test t.2) h) h l) w in
      let? r := urlTest_end g w in
      Ok (r.1, r.2, omap (λ t, match test t.2 with Ok d => Some (t.1.1, d) | Err _ => None end) l)
  end.

(** [loopCheck]: its start, and a tick; [true] when it calls [CheckOutbounds]. *)
Definition loop_start (now : Z) (g : URLTestGroup) : URLTestGroup * bool :=
  if decide (now - ug_lastActive g > ug_interval g)%Z then (set_active (ug_started g) now g, true) else (g, false).
Definition loop_tick (ticker : nat) (now : Z) (g : URLTestGroup) : URLTestGroup * bool :=
  let loops := filter (.≠ ticker) (ug_loops g) in
  if ug_closed g then (set_ticker (ug_ticker g) loops (ug_nextTicker g) true g, false)
  else if decide (now - ug_lastActive g > ug_idleTimeout g)%Z then
    (set_ticker (if decide (ug_ticker g = Some ticker) then None else ug_ticker g) loops (ug_nextTicker g) false g, false)
  else (g, true).

(** ** Connections *)

(** [isHandler]: the selected outbound is a [ConnectionHandlerEx]. *)
Definition is_handler (o : Object) : bool := match o with Plain _ handler => handler | _ => true end.

Definition put_group (x : Adapter) (u : URLTest) (g : URLTestGroup) (w : World) : World :=
  set_object x (AnURLTest (mkURLTest (ut_Tag u) (ut_tags u) (ut_interval u) (ut_tolerance u) (ut_idleTimeout u)
                             (ut_interruptExternal u) (Some g))) w.

(** The outbound of a URL test for a network: the one that is selected, or one
    that [Select] finds on the spot. *)
Definition urltest_outbound (network : string) (select : string) (w : World) (g : URLTestGroup) : result Adapter :=
  let? outbound :=
    match selected_of network g with
    | Some x => Ok (Some x)
    | None => let? r := Select w g select in Ok r.1
    end in
  match outbound with Some x => Ok x | None => Err (ENew "missing supported outbound") end.

(** Opening a stream on a network, or a packet connection. *)
Inductive Op := Dial (network : string) | Listen.

(** The outbound a URL test uses for it; the network is looked up by its name
    first, and as it is when nothing is selected yet. *)
Definition urltest_choice (op : Op) (w : World) (g : URLTestGroup) : result Adapter :=
  match op with
  | Listen => urltest_outbound NetworkUDP NetworkUDP w g
  | Dial network =>
      if decide (NetworkName network = NetworkTCP ∨ NetworkName network = NetworkUDP)
      then urltest_outbound (NetworkName network) network w g
      else Err (ECause (ENew "unknown network") network)
  end.

Fixpoint open (fuel : nat) (now : Z) (plain : Adapter → Op → result nat) (external : bool)
    (x : Adapter) (op : Op) (w : World) : World * result Conn :=
  match object w x, fuel with
  | Plain _ _, _ => (w, let? id := plain x op in Ok (Raw id))
  | _, 0 => (w, Err (EPanic "stack overflow"))
  | ASelector s, S fuel =>
      match sel_selected s with
      | None => (w, Err nil_panic)
      | Some y =>
          match open fuel now plain external y op w with
          | (w, Err e) => (w, Err e)
          | (w, Ok c) =>
              let '(i, c) := NewConn (sel_interruptGroup s) c external (w_interrupts w) in
              (set_interrupts i w, Ok c)
          end
      end
  | AnURLTest u, S fuel =>
      match ut_group u with
      | None => (w, Err nil_panic)
      | Some g =>
          let g := Touch now g in
          let w := put_group x u g w in
          match urltest_choice op w g with
          | Err e => (w, Err e)
          | Ok y =>
              match open fuel now plain external y op w with
              | (w, Ok c) =>
                  let '(i, c) := NewConn (ug_interruptGroup g) c external (w_interrupts w) in
                  (set_interrupts i w, Ok c)
              | (w, Err e) => (on_history (ug_history g) (DeleteURLTestHistory (a_Tag y)) w, Err e)
              end
          end
      end
  end.
Definition DialContext (now : Z) (plain : Adapter → Op → result nat) (external : bool) (x : Adapter) (network : string)
    (w : World) : World * result Conn := open (depth w) now plain external x (Dial network) w.
Definition ListenPacket (now : Z) (plain : Adapter → Op → result nat) (external : bool) (x : Adapter) (w : World)
    : World * result Conn := open (depth w) now plain external x Listen w.

(** [NewConnectionEx] and [NewPacketConnectionEx]: a connection of an inbound.
    The selector hands it to the selected outbound if that handles connections,
    or has the connection manager open that outbound; the URL test has the
    connection manager open the URL test.  A plain outbound that handles
    connections does with it what it does, [Ok None] here. *)
Fixpoint new_connection (fuel : nat) (now : Z) (plain : Adapter → Op → result nat) (x : Adapter) (op : Op) (w : World)
    : World * result (option Conn) :=
  let opened (r : World * result Conn) := (r.1, let? c := r.2 in Ok (Some c)) in
  match object w x, fuel with
  | Plain _ true, _ => (w, Ok None)
  | ASelector s, S fuel =>
      match sel_selected s with
      | None => (w, Err nil_panic)
      | Some y =>
          if is_handler (object w y) then new_connection fuel now plain y op w
          else opened (open fuel now plain true y op w)
      end
  | AnURLTest _, _ | Plain _ false, _ => opened (open fuel now plain true x op w)
  | ASelector _, 0 => (w, Err (EPanic "stack overflow"))
  end.
Definition NewConnectionEx (now : Z) (plain : Adapter → Op → result nat) (x : Adapter) (w : World) : World * result (option Conn) :=
  new_connection (depth w) now plain x (Dial NetworkTCP) w.
Definition NewPacketConnectionEx (now : Z) (plain : Adapter → Op → result nat) (x : Adapter) (w : World) : World * result (option Conn) :=
  new_connection (depth w) now plain x Listen w.

(** [NewDirectRouteConnection]: the outbound it is passed on to. *)
Definition direct_outbound (w : World) (network : string) (selected : Adapter) : result Adapter :=
  if supports w network selected then Ok selected
  else Err (ENew (network +:+ " is not supported by outbound: " +:+ a_Tag selected)).
Definition NewDirectRouteConnection (now : Z) (x : Adapter) (network : string) (w : World) : World * result Adapter :=
  match object w x with
  | Plain _ _ => (w, Ok x)
  | ASelector s =>
      (w, match sel_selected s with None => Err nil_panic | Some y => direct_outbound w network y end)
  | AnURLTest u =>
      match ut_group u with
      | None => (w, Err nil_panic)
      | Some g =>
          let g := Touch now g in
          let w := put_group x u g w in
          (w, let? y := urltest_outbound NetworkTCP NetworkTCP w g in direct_outbound w network y)
      end
  end.
End groups.
