(* ===== verification/GroupsProps.v ===== *)
(** * What groups promise

    The outbound a URL test selects is within its tolerance of the fastest one
    and changes only when another is faster by more than that; selections of a
    selector survive restarts; changing the outbound of a selector closes exactly
    the connections it gave out that it has to. *)
From S2P Require Import Prelude Bytes RuleItems Netip Registry OutboundManager FakeIP CacheFile FakeIPRange FakeIPProps CacheFileProps CacheFileSettings Groups.

Section select.
Context `{Bolt} `{SingAddr}.

(** The outbounds that support the network and were tested, with their delays. *)
Definition delay_of (w : World) (g : URLTestGroup) (x : Adapter) : option Z :=
  match tested w g x with Ok o => o | Err _ => None end.
Definition candidates (w : World) (g : URLTestGroup) (network : string) : list (Adapter * Z) :=
  omap (λ x, if supports w network x then d ← delay_of w g x; Some (x, d) else None) (ug_outbounds g).

(** Every outbound has a real tag; a delay is positive and, with the tolerance,
    below the width of its type. *)
Definition measured (w : World) (g : URLTestGroup) (x : Adapter) : Prop :=
  ∃ o, tested w g x = Ok o ∧ ∀ d, o = Some d → (0 < d ∧ d + ug_tolerance g < 65536)%Z.

(** The scan of [Select] on delays alone. *)
Definition better (tol : Z) (best : Z * option Adapter) (c : Adapter * Z) : Z * option Adapter :=
  if decide (best.1 = 0 ∨ best.1 > c.2 + tol)%Z then (c.2, Some c.1) else best.

Lemma select_loop_scan w g network l m mo :
  (0 <= ug_tolerance g)%Z → Forall (measured w g) l →
  select_loop w g network l m mo =
    Ok (foldl (better (ug_tolerance g)) (m, mo)
          (omap (λ x, if supports w network x then d ← delay_of w g x; Some (x, d) else None) l)).2.
Proof.
  intros Htol Hl. revert m mo. induction Hl as [|x l (o & Ho & Hpos) _ IH]; intros m mo; cbn [select_loop omap list_omap]; [done|].
  destruct (supports w network x); [|apply IH]. unfold delay_of at 1. rewrite Ho. cbn [result_bind mbind option_bind].
  destruct o as [d|]; [|apply IH]. destruct (Hpos d eq_refl) as [Hd Hw].
  unfold uint16. rewrite Z.mod_small by lia.
  transitivity (Ok (foldl (better (ug_tolerance g)) (better (ug_tolerance g) (m, mo) (x, d))
    (omap (λ x, if supports w network x then d ← delay_of w g x; Some (x, d) else None) l)).2); [|done].
  unfold better at 2. cbn [fst snd]. case_decide; apply IH.
Qed.

Lemma scan_spec tol cs best :
  (0 <= tol)%Z → Forall (λ c, 0 < c.2)%Z cs → (0 <= best.1)%Z →
  let r := foldl (better tol) best cs in
  (r = best ∧ (best.1 = 0%Z → cs = []) ∨ ∃ y, r.2 = Some y ∧ (y, r.1) ∈ cs) ∧
  (∀ c, c ∈ cs → r.1 <= c.2 + tol)%Z ∧ (best.1 ≠ 0 → r.1 <= best.1)%Z ∧
  (best.1 ≠ 0%Z → (∀ c, c ∈ cs → best.1 <= c.2 + tol)%Z → r = best).
Proof.
  intros Htol Hcs. revert best. induction Hcs as [|[x d] cs Hc _ IH]; intros best Hb; cbn [foldl].
  { split; [by left|]. split; [by intros c ?%elem_of_nil|done]. }
  cbn in Hc. set (best' := better tol best (x, d)).
  assert ((best' = (d, Some x) ∧ (best.1 = 0 ∨ best.1 > d + tol)%Z) ∨ (best' = best ∧ 0 < best.1 <= d + tol)%Z) as Hstep.
  { unfold best', better. cbn [fst snd]. case_decide; [by left|]. right. split; [done|]. lia. }
  destruct (IH best') as (Hr & Hle & Hmin & Hkeep); [destruct Hstep as [[-> _]|[-> ?]]; cbn; lia|].
  destruct Hstep as [[Heq Hwhy]|[Heq Hwhy]]; rewrite Heq in *; cbn [fst] in *.
  - specialize (Hmin ltac:(lia)). split; [|split; [|split]].
    + right. destruct Hr as [[Hr _]|(y & Hy & Hin)]; [exists x; rewrite Hr; split; [done|by left]|]. exists y. split; [done|by right].
    + intros c [->|Hc']%elem_of_cons; [cbn; lia|]. by apply Hle.
    + intros Hne. lia.
    + intros Hne Hall. specialize (Hall (x, d) ltac:(by left)). cbn in Hall. lia.
  - split; [|split; [|split]].
    + destruct Hr as [[Hr _]|(y & Hy & Hin)]; [left; split; [done|lia]|]. right. exists y. split; [done|by right].
    + intros c [->|Hc']%elem_of_cons; [cbn; specialize (Hmin ltac:(lia)); lia|]. by apply Hle.
    + done.
    + intros Hne Hall. apply Hkeep; [done|]. intros c Hc'. apply Hall. by right.
Qed.

(** What [Select] looks at. *)
Definition alike (w : World) (g : URLTestGroup) (w' : World) (g' : URLTestGroup) : Prop :=
  w_objects w' = w_objects w ∧ w_histories w' = w_histories w ∧
  ug_outbounds g' = ug_outbounds g ∧ ug_tolerance g' = ug_tolerance g ∧ ug_history g' = ug_history g.

Lemma object_alike w w' x : w_objects w' = w_objects w → object w' x = object w x.
Proof. unfold object. by intros ->. Qed.
Lemma Network_alike w w' fuel x : w_objects w' = w_objects w → Network fuel w' x = Network fuel w x.
Proof.
  intros Hw. revert x. induction fuel as [|fuel IH]; intros x; cbn [Network]; rewrite (object_alike w w' x Hw); [done|].
  destruct (object w x) as [|s|]; [done| |done]. by destruct (sel_selected s).
Qed.
Lemma supports_alike w w' network x : w_objects w' = w_objects w → supports w' network x = supports w network x.
Proof. intros Hw. unfold supports, depth. by rewrite Hw, (Network_alike w w'). Qed.
Lemma tested_alike w g w' g' x : alike w g w' g' → tested w' g' x = tested w g x.
Proof.
  intros (Ho & Hh & _ & _ & Hg). unfold tested, RealTag, history. by rewrite (object_alike w w' x Ho), Hh, Hg.
Qed.
Lemma candidates_alike w g w' g' network : alike w g w' g' → candidates w' g' network = candidates w g network.
Proof.
  intros Ha. pose proof Ha as (Ho & _ & Hos & _). unfold candidates. rewrite Hos. apply list_omap_ext, Forall2_same_length_lookup_2; [done|].
  intros i x y Hx Hy. simplify_eq. unfold delay_of. by rewrite (supports_alike w w'), (tested_alike w g w' g').
Qed.

(** The group can be measured: its outbounds and the selected ones. *)
Record sound (w : World) (g : URLTestGroup) : Prop := {
  snd_tolerance : (0 <= ug_tolerance g)%Z;
  snd_outbounds : Forall (measured w g) (ug_outbounds g);
  snd_selected network x : selected_of network g = Some x → measured w g x;
}.

Lemma candidates_positive w g network : sound w g → Forall (λ c, 0 < c.2)%Z (candidates w g network).
Proof.
  intros [_ Hos _]. unfold candidates. induction Hos as [|x l (o & Ho & Hpos) _ IH]; [done|]. cbn [omap list_omap].
  destruct (supports w network x); [|done]. unfold delay_of at 1. rewrite Ho. destruct o as [d|]; [|done]. cbn. constructor; [|done]. cbn. by apply Hpos.
Qed.

Lemma candidate_tested w g network x d : (x, d) ∈ candidates w g network → delay_of w g x = Some d ∧ x ∈ ug_outbounds g ∧ supports w network x = true.
Proof.
  unfold candidates. rewrite list_elem_of_omap. intros (y & Hy & Heq). destruct (supports w network y) eqn:Hs; [|done].
  destruct (delay_of w g y) eqn:Hd; cbn in Heq; simplify_eq. done.
Qed.

(** The delays [Select] starts from. *)
Definition first_best (w : World) (g : URLTestGroup) (network : string) : Z * option Adapter :=
  match selected_of network g with
  | None => (0%Z, None)
  | Some x => match delay_of w g x with Some d => (d, Some x) | None => (0%Z, None) end
  end.

Lemma Select_scan w g network :
  sound w g →
  Select w g network =
    let best := foldl (better (ug_tolerance g)) (first_best w g network) (candidates w g network) in
    Ok match best.2 with
       | Some x => (Some x, true)
       | None => (List.find (supports w network) (ug_outbounds g), false)
       end.
Proof.
  intros [Htol Hos Hsel]. unfold Select, first_best, candidates.
  destruct (selected_of network g) as [x|] eqn:Hx.
  - destruct (Hsel network x Hx) as (o & Ho & _). unfold delay_of at 1. rewrite Ho. cbn [result_bind].
    destruct o; cbn [fst snd]; by rewrite (select_loop_scan w g network (ug_outbounds g)).
  - cbn [result_bind fst snd]. by rewrite (select_loop_scan w g network (ug_outbounds g)).
Qed.

Lemma Select_spec w g network :
  sound w g → ∃ choice, Select w g network = Ok choice ∧
    (∀ y, choice.1 = Some y → selected_of network g = Some y ∨ y ∈ ug_outbounds g ∧ supports w network y = true) ∧
    (if choice.2
     then ∃ y d, choice.1 = Some y ∧ delay_of w g y = Some d ∧ ∀ c, c ∈ candidates w g network → (d <= c.2 + ug_tolerance g)%Z
     else candidates w g network = [] ∧ (∀ s, selected_of network g = Some s → delay_of w g s = None) ∧
          choice.1 = List.find (supports w network) (ug_outbounds g)) ∧
    (∀ s d, selected_of network g = Some s → delay_of w g s = Some d →
       (∀ c, c ∈ candidates w g network → (d <= c.2 + ug_tolerance g)%Z) → choice = (Some s, true)).
Proof.
  intros Hs. rewrite (Select_scan w g network Hs). eexists. split; [done|].
  assert (0 <= (first_best w g network).1)%Z as Hb0.
  { unfold first_best. destruct (selected_of network g) as [x|] eqn:Hx; [|done].
    destruct (snd_selected w g Hs network x Hx) as (o & Ho & Hpos). unfold delay_of. rewrite Ho.
    destruct o as [d|]; [|done]. cbn. specialize (Hpos d eq_refl). lia. }
  destruct (scan_spec (ug_tolerance g) (candidates w g network) (first_best w g network)) as (Hr & Hle & Hmin & Hkeep);
    [apply Hs|by apply candidates_positive|done|].
  set (r := foldl _ _ _) in *. split; [|split].
  - intros y Hy. destruct r.2 as [z|] eqn:Hz; cbn in Hy.
    + simplify_eq. destruct Hr as [[Hr _]|(y' & Hy' & Hin)].
      * left. rewrite Hr in Hz. unfold first_best in Hz. destruct (selected_of network g) as [x|]; [|done].
        by destruct (delay_of w g x); cbn in Hz; simplify_eq.
      * right. rewrite Hy' in Hz. simplify_eq. by destruct (candidate_tested _ _ _ _ _ Hin) as (_ & ? & ?).
    + right. apply List.find_some in Hy as [Hy Hs']. by rewrite <-list_elem_of_In in Hy.
  - destruct r.2 as [z|] eqn:Hz; cbn [fst snd].
    + exists z, r.1. split; [done|]. split; [|done]. destruct Hr as [[Hr _]|(y' & Hy' & Hin)].
      * rewrite Hr in Hz |- *. unfold first_best in *. destruct (selected_of network g) as [x|]; [|done].
        destruct (delay_of w g x) eqn:Hd; cbn in *; by simplify_eq.
      * rewrite Hy' in Hz. simplify_eq. by destruct (candidate_tested _ _ _ _ _ Hin) as (? & _).
    + destruct Hr as [[Hr Hnil]|(y' & Hy' & _)]; [|congruence]. rewrite Hr in Hz. unfold first_best in Hz, Hnil.
      destruct (selected_of network g) as [x|]; [destruct (delay_of w g x) eqn:Hd; [done|]|]; cbn in Hnil; naive_solver.
  - intros s d Hsel Hd Hall. assert (first_best w g network = (d, Some s)) as Hf by (unfold first_best; by rewrite Hsel, Hd).
    rewrite Hf in *. cbn [fst] in *. destruct (snd_selected w g Hs network s Hsel) as (o & Ho & Hpos). unfold delay_of in Hd. rewrite Ho in Hd. subst o.
    specialize (Hpos d eq_refl). rewrite (Hkeep ltac:(lia) Hall). done.
Qed.

(** The selection after [performUpdateCheck], for a network. *)
Definition chosen (network : string) (g : URLTestGroup) (choice : option Adapter * bool) : option Adapter :=
  if moves (selected_of network g) choice then choice.1 else selected_of network g.
Definition within (w : World) (g : URLTestGroup) (network : string) (y : Adapter) : Prop :=
  ∃ d, delay_of w g y = Some d ∧ ∀ c, c ∈ candidates w g network → (d <= c.2 + ug_tolerance g)%Z.

Lemma chosen_cases w g network choice :
  sound w g → Select w g network = Ok choice →
  (choice.2 = true ∧ ∃ y, choice = (Some y, true) ∧ chosen network g choice = Some y ∧ within w g network y) ∨
  (choice.2 = false ∧ candidates w g network = [] ∧ (∀ s, chosen network g choice = Some s → delay_of w g s = None) ∧
   (chosen network g choice = None → List.find (supports w network) (ug_outbounds g) = None)).
Proof.
  intros Hs Hsel. destruct (Select_spec w g network Hs) as (ch & Hch & Hwho & Hb & _). rewrite Hsel in Hch. simplify_eq.
  destruct ch as [o []]; cbn [fst snd] in *.
  - left. split; [done|]. destruct Hb as (y & d & -> & Hd & Hall). exists y. split; [done|]. split; [|by exists d].
    unfold chosen, moves. cbn [fst snd]. destruct (selected_of network g) as [z|]; [|done]. cbn. case_bool_decide; cbn; congruence.
  - right. destruct Hb as (Hnil & Hnone & Hfind). split; [done|]. split; [done|]. unfold chosen, moves. cbn [fst snd].
    split; [|by destruct o, (selected_of network g)]. intros s. destruct o as [y|]; [|by apply Hnone]. destruct (selected_of network g) as [z|] eqn:Hz; [cbn; by intros [= <-]; apply Hnone|].
    intros [= <-]. destruct (Hwho y eq_refl) as [?|[Hin Hsup]]; [done|]. destruct (delay_of w g y) as [d|] eqn:Hd; [|done].
    exfalso. assert ((y, d) ∈ candidates w g network) as Hc; [|rewrite Hnil in Hc; by apply elem_of_nil in Hc].
    unfold candidates. apply list_elem_of_omap. exists y. split; [done|]. by rewrite Hsup, Hd.
Qed.

Lemma chosen_keeps w g network choice s :
  sound w g → Select w g network = Ok choice → selected_of network g = Some s → within w g network s →
  chosen network g choice = Some s.
Proof.
  intros Hs Hsel Hg (d & Hd & Hall). destruct (Select_spec w g network Hs) as (ch & Hch & _ & _ & Hk). rewrite Hsel in Hch. simplify_eq.
  rewrite (Hk s d) by done. unfold chosen, moves. rewrite Hg. cbn. by rewrite bool_decide_true.
Qed.

Lemma chosen_measured w g network choice y :
  sound w g → Select w g network = Ok choice → chosen network g choice = Some y → measured w g y.
Proof.
  intros Hs Hsel. destruct (Select_spec w g network Hs) as (ch & Hch & Hwho & _). rewrite Hsel in Hch. simplify_eq.
  unfold chosen. destruct (moves _ _); [|apply Hs]. intros Hy. destruct (Hwho y Hy) as [Hg|[Hin _]]; [by eapply snd_selected|].
  pose proof (snd_outbounds w g Hs) as Hall. rewrite Forall_forall in Hall. by apply Hall.
Qed.

Lemma measured_alike w g w' g' x : alike w g w' g' → measured w g x → measured w' g' x.
Proof. intros Ha (o & Ho & Hpos). exists o. pose proof Ha as (_ & _ & _ & Htol & _). by rewrite (tested_alike w g w' g'), Htol. Qed.

(** Selecting again changes nothing. *)
(** A tested outbound is the selected one or a candidate. *)
Lemma no_candidates w g network y d :
  candidates w g network = [] → delay_of w g y = Some d →
  (selected_of network g = Some y ∨ y ∈ ug_outbounds g ∧ supports w network y = true) → selected_of network g = Some y.
Proof.
  intros Hnil Hd [?|[Hin Hsup]]; [done|]. exfalso.
  assert ((y, d) ∈ candidates w g network) as Hc; [|rewrite Hnil in Hc; by apply elem_of_nil in Hc].
  unfold candidates. apply list_elem_of_omap. exists y. split; [done|]. by rewrite Hsup, Hd.
Qed.

Lemma chosen_stable w g w' g' network choice :
  sound w g → Select w g network = Ok choice → alike w g w' g' → sound w' g' →
  selected_of network g' = chosen network g choice →
  ∃ choice', Select w' g' network = Ok choice' ∧ moves (selected_of network g') choice' = false.
Proof.
  intros Hs Hsel Ha Hs' Hg'. destruct (Select_spec w' g' network Hs') as (ch & Hch & Hwho & Hb & Hk). exists ch. split; [done|].
  pose proof (candidates_alike w g w' g' network Ha) as Hcs. pose proof Ha as (Hobj & _ & Hos & Htol & _).
  assert (∀ x, delay_of w' g' x = delay_of w g x) as Hdel by (intros x; unfold delay_of; by rewrite (tested_alike w g w' g' x Ha)).
  destruct (chosen_cases w g network choice Hs Hsel) as [(_ & y & _ & Hy & d & Hd & Hall)|(_ & Hnil & Hnone & Hfind)]; rewrite Hg'.
  - rewrite (Hk y d); [|congruence|by rewrite Hdel|by rewrite Hcs, Htol]. rewrite Hy. unfold moves. cbn. by rewrite bool_decide_true.
  - destruct ch as [o []]; cbn [fst snd] in *.
    + exfalso. destruct Hb as (y & d & -> & Hd & _). pose proof (no_candidates w' g' network y d ltac:(congruence) Hd (Hwho y eq_refl)) as Hy.
      rewrite Hg' in Hy. specialize (Hnone y Hy). rewrite Hdel in Hd. congruence.
    + destruct (chosen network g choice) as [s|]; [by destruct o|]. destruct Hb as (_ & _ & ->). rewrite Hos.
      assert (List.find (supports w' network) (ug_outbounds g) = List.find (supports w network) (ug_outbounds g)) as ->; [|by rewrite Hfind].
      clear -Hobj. induction (ug_outbounds g) as [|x l IH]; [done|]. cbn. by rewrite (supports_alike w w'), IH.
Qed.

Lemma Select_alike w g w' g' network :
  sound w g → sound w' g' → alike w g w' g' → selected_of network g' = selected_of network g → Select w' g' network = Select w g network.
Proof.
  intros Hs Hs' Ha Hsel. rewrite (Select_scan w' g'), (Select_scan w g) by done. pose proof Ha as (Hobj & _ & Hos & Htol & _).
  rewrite (candidates_alike w g w' g' network Ha), Hos, Htol. unfold first_best, delay_of. rewrite Hsel.
  assert (List.find (supports w' network) (ug_outbounds g) = List.find (supports w network) (ug_outbounds g)) as ->.
  { clear -Hobj. induction (ug_outbounds g) as [|x l IH]; [done|]. cbn. by rewrite (supports_alike w w'), IH. }
  destruct (selected_of network g) as [x|]; [|done]. by rewrite (tested_alike w g w' g' x Ha).
Qed.

Lemma selected_set network tcp udp g :
  selected_of network (set_selected tcp udp g) =
  if decide (network = NetworkTCP) then tcp else if decide (network = NetworkUDP) then udp else None.
Proof. done. Qed.

Lemma sound_set w g i tcp udp :
  sound w g → (∀ x, tcp = Some x → measured w g x) → (∀ x, udp = Some x → measured w g x) →
  sound (set_interrupts i w) (set_selected tcp udp g).
Proof.
  intros [Ht Ho _] Htcp Hudp. assert (alike w g (set_interrupts i w) (set_selected tcp udp g)) as Ha by done. split; [done| |].
  - eapply Forall_impl; [exact Ho|]. intros x. by apply measured_alike.
  - intros network x. rewrite selected_set. repeat case_decide; intros Hx; [..|done]; apply (measured_alike w g); auto.
Qed.

Lemma set_interrupts_id w : set_interrupts (w_interrupts w) w = w.
Proof. by destruct w. Qed.

(** A check: two selections, and an interrupt if one replaced another. *)
Lemma performUpdateCheck_eq w g :
  sound w g → ∃ t u, Select w g NetworkTCP = Ok t ∧ Select w g NetworkUDP = Ok u ∧
    performUpdateCheck g w =
      Ok (if (moves (ug_selectedTCP g) t && bool_decide (is_Some (ug_selectedTCP g)))
             || (moves (ug_selectedUDP g) u && bool_decide (is_Some (ug_selectedUDP g)))
          then set_interrupts (Interrupt (ug_interruptGroup g) (ug_interruptExternal g) (w_interrupts w)) w else w,
          set_selected (chosen NetworkTCP g t) (chosen NetworkUDP g u) g).
Proof.
  intros Hs. destruct (Select_spec w g NetworkTCP Hs) as (t & Ht & _). destruct (Select_spec w g NetworkUDP Hs) as (u & Hu & _).
  exists t, u. split; [done|]. split; [done|]. unfold performUpdateCheck. rewrite Ht. cbn [result_bind].
  set (g1 := set_selected _ _ _). assert (sound w g1) as Hs1.
  { rewrite <-(set_interrupts_id w). apply sound_set; [done| |].
    - intros x Hx. by eapply (chosen_measured w g NetworkTCP t).
    - intros x Hx. by apply (snd_selected w g Hs NetworkUDP). }
  rewrite (Select_alike w g w g1 NetworkUDP Hs Hs1), Hu by done. done.
Qed.

(** C37: A URL test selects a fast outbound and does not flap.  If its outbounds
    have real tags and every test result is positive and, with the tolerance,
    below 65536 ms, a check of the group succeeds and, for each network: as long as some outbound of the group that supports the network was
    tested, the selected outbound was tested and is at most the tolerance slower
    than any of them; an outbound that was selected and is not slower than that
    stays selected.  Connections are interrupted only if a selected outbound was
    replaced; checking again with the same results changes nothing and interrupts
    nothing.  The bounds on the results are needed: 0 ms counts as no result
    ([zero_delay_loses]) and a larger sum wraps around ([tolerance_overflows]). *)
Theorem urltest_selects_and_is_stable w g :
  (0 <= ug_tolerance g)%Z →
  (∀ x, x ∈ ug_outbounds g ∨ ug_selectedTCP g = Some x ∨ ug_selectedUDP g = Some x →
     ∃ o, tested w g x = Ok o ∧ ∀ d, o = Some d → (0 < d ∧ d + ug_tolerance g < 65536)%Z) →
  ∃ w' g', performUpdateCheck g w = Ok (w', g') ∧
    (∀ network, network = NetworkTCP ∨ network = NetworkUDP →
       (candidates w g network ≠ [] → ∃ y, selected_of network g' = Some y ∧ within w g network y) ∧
       (∀ s, selected_of network g = Some s → within w g network s → selected_of network g' = Some s)) ∧
    ((∀ network s, selected_of network g = Some s → selected_of network g' = Some s) → w' = w) ∧
    performUpdateCheck g' w' = Ok (w', g').
Proof.
  intros Htol Hres. assert (sound w g) as Hs.
  { split; [done|apply Forall_forall; intros x Hx; by apply Hres; left|]. intros network x. unfold selected_of.
    repeat case_decide; intros Hx; [apply Hres; by right; left|apply Hres; by right; right|done]. }
  destruct (performUpdateCheck_eq w g Hs) as (t & u & Ht & Hu & Hp).
  set (w' := if _ || _ then _ else w) in Hp. set (g' := set_selected _ _ g) in Hp. exists w', g'. split; [done|].
  assert (∀ network, network = NetworkTCP ∨ network = NetworkUDP → ∃ c, Select w g network = Ok c ∧ selected_of network g' = chosen network g c) as Hnet.
  { intros network [->| ->]; eauto. }
  assert (∃ i, w' = set_interrupts i w) as [i Hi].
  { unfold w'. case_match; [eauto|]. exists (w_interrupts w). by rewrite set_interrupts_id. }
  assert (sound w' g') as Hs'.
  { rewrite Hi. apply sound_set; [done|..]; intros x; by apply chosen_measured. }
  split; [|split].
  - intros network Hn. destruct (Hnet network Hn) as (c & Hc & ->). split.
    + intros Hne. destruct (chosen_cases w g network c Hs Hc) as [(_ & y & _ & Hy & Hw)|(_ & Hnil & _)]; eauto; done.
    + intros s. by eapply chosen_keeps.
  - intros Hkeep. unfold w'. destruct (_ || _) eqn:Hor; [|done]. exfalso.
    assert (∀ network c s, moves (selected_of network g) c = true → selected_of network g = Some s → chosen network g c ≠ Some s) as Hmoved.
    { intros network c s Hm Hsome. unfold chosen. rewrite Hm. rewrite Hsome in Hm. unfold moves in Hm. destruct c as [[x|] []]; cbn in *; [|done..].
      apply negb_true_iff, bool_decide_eq_false in Hm. congruence. }
    apply orb_prop in Hor as [Hm|Hm]; apply andb_prop in Hm as [Hm [s Hsome]%bool_decide_eq_true].
    + by apply (Hmoved NetworkTCP t s Hm Hsome), (Hkeep NetworkTCP s).
    + by apply (Hmoved NetworkUDP u s Hm Hsome), (Hkeep NetworkUDP s).
  - destruct (performUpdateCheck_eq w' g' Hs') as (t' & u' & Ht' & Hu' & ->).
    assert (alike w g w' g') as Ha by (rewrite Hi; done).
    destruct (chosen_stable w g w' g' NetworkTCP t Hs Ht Ha Hs' eq_refl) as (t2 & Ht2 & Hmt). rewrite Ht' in Ht2. injection Ht2 as <-.
    destruct (chosen_stable w g w' g' NetworkUDP u Hs Hu Ha Hs' eq_refl) as (u2 & Hu2 & Hmu). rewrite Hu' in Hu2. injection Hu2 as <-.
    change (ug_selectedTCP g') with (selected_of NetworkTCP g'). change (ug_selectedUDP g') with (selected_of NetworkUDP g').
    assert (chosen NetworkTCP g' t' = selected_of NetworkTCP g') as -> by (unfold chosen at 1; by rewrite Hmt).
    assert (chosen NetworkUDP g' u' = selected_of NetworkUDP g') as -> by (unfold chosen at 1; by rewrite Hmu).
    rewrite Hmt, Hmu. done.
Qed.
End select.

(** ** Rounds of tests *)

Section rounds.
Context `{Bolt} `{SingAddr} {E : Type} `{EndpointManager E} (endpoint : E).

(** A round tests no real tag twice. *)
Lemma tests_nodup om force now w g outbounds checked l :
  tests endpoint om force now w g outbounds checked = Ok l →
  NoDup ((λ t, t.1.2) <$> l) ∧ ∀ t, t ∈ l → t.1.2 ∉ checked.
Proof.
  revert checked l. induction outbounds as [|x outbounds IH]; intros checked l Ht; cbn [tests] in Ht.
  { simplify_eq. split; [constructor|]. by intros t ?%elem_of_nil. }
  destruct (RealTag w x) as [tag|]; [|done]. cbn [result_bind] in Ht. case_decide as Hin; [by apply IH|].
  destruct (negb force && _); [by apply IH|]. destruct (Outbound endpoint tag om) as [p|].
  - destruct (tests _ _ _ _ _ _ outbounds _) as [l'|] eqn:Hl; [|done]. cbn [result_bind] in Ht. simplify_eq.
    destruct (IH _ _ Hl) as [Hn Hc]. split.
    + cbn. constructor; [|done]. intros (t & Ht & Htl)%list_elem_of_fmap. apply (Hc t Htl). set_solver.
    + intros t [->|Htl]%elem_of_cons; [done|]. specialize (Hc t Htl). set_solver.
  - destruct (IH _ _ Ht) as [Hn Hc]. split; [done|]. intros t Htl. specialize (Hc t Htl). set_solver.
Qed.

(** The tests of a round may end in any order. *)
Lemma round_in_any_order now test (l l' : list (string * string * Adapter)) h :
  NoDup ((λ t, t.1.2) <$> l) → l ≡ₚ l' →
  foldl (λ h t, test_done t.1.2 now (test t.2) h) h l = foldl (λ h t, test_done t.1.2 now (test t.2) h) h l'.
Proof.
  intros Hn Hp. revert h. induction Hp as [|t l l' _ IH|t u l|l1 l2 l3 Hp1 IH1 _ IH2]; intros h; cbn [foldl]; [done|..].
  - apply IH. cbn in Hn. by apply NoDup_cons in Hn as [_ ?].
  - f_equal. cbn in Hn. apply NoDup_cons in Hn as [Hn _]. assert (t.1.2 ≠ u.1.2) as Hne by (intros Heq; apply Hn; rewrite Heq; by left).
    unfold test_done, DeleteURLTestHistory, StoreURLTestHistory.
    destruct (test t.2), (test u.2); [by rewrite insert_insert_ne|by rewrite delete_insert_ne|by rewrite delete_insert_ne|by rewrite delete_delete].
  - rewrite IH1 by done. apply IH2. by rewrite <-Hp1.
Qed.
End rounds.

(** ** Selectors *)

Section selectors.
Context `{HB : BoltLaws} `{SingAddr} {E : Type} `{EndpointManager E} (endpoint : E).

Lemma find_outbounds_ok om i tags acc :
  (∀ t, t ∈ tags → is_Some (Outbound endpoint t om)) →
  ∃ ds, find_outbounds endpoint om i tags acc = (acc ++ ds, None) ∧ Forall2 (λ tag d, Outbound endpoint tag om = Some d) tags ds.
Proof.
  revert i acc. induction tags as [|tag tags IH]; intros i acc Hall; cbn [find_outbounds].
  { exists []. by rewrite app_nil_r. }
  destruct (Hall tag) as [d Hd]; [by left|]. rewrite Hd.
  destruct (IH (S i) (acc ++ [d])) as (ds & Hf & Hds); [intros t Ht; apply Hall; by right|].
  exists (d :: ds). rewrite Hf, <-app_assoc. by split; [|constructor].
Qed.

Lemma insert_outbounds om tags ds (m : gmap string Adapter) tag :
  Forall2 (λ tag d, Outbound endpoint tag om = Some d) tags ds →
  foldl (λ m p, <[p.1 := p.2]> m) m (zip tags ds) !! tag =
    if decide (tag ∈ tags) then Outbound endpoint tag om else m !! tag.
Proof.
  intros Hall. revert m. induction Hall as [|t d tags ds Hd _ IH]; intros m; cbn [zip zip_with foldl]; [by rewrite decide_False by apply not_elem_of_nil|].
  rewrite IH. cbn [fst snd]. destruct (decide (tag ∈ tags)) as [Hin|Hni].
  - by rewrite decide_True by by right.
  - destruct (decide (tag = t)) as [->|Hne]; [rewrite lookup_insert_eq, decide_True by left; done|].
    rewrite lookup_insert_ne, decide_False by (done || rewrite not_elem_of_cons; done). done.
Qed.

Lemma settings_ok_same c c' m name : cacheID c' = cacheID c → settings_ok c m name → settings_ok c' m name.
Proof.
  intros Hid [[Hn Hi] Hl]. unfold settings_ok, bucket_path in *. rewrite Hid. split; [|done]. split; [done|]. by rewrite Hid.
Qed.

Lemma StoreSelected_spec c m group tag :
  holds (db c) m → settings_ok c m bucketSelected → group ≠ "" → (Z.of_nat (String.length group) <= MaxKeySize)%Z →
  (Z.of_nat (String.length tag) < 2 ^ 31 - 1)%Z →
  ∃ db' m', StoreSelected group tag c = (set_db db' c, None) ∧ holds db' m' ∧ settings_ok (set_db db' c) m' bucketSelected ∧
    LoadSelected group (set_db db' c) = (set_db db' c, tag) ∧
    ∀ group', group' ≠ group → (LoadSelected group' (set_db db' c)).2 = (LoadSelected group' c).2.
Proof using HB.
  intros Hh Hok Hg Hlen Hv.
  destruct (store_value_spec c m bucketSelected (bytes_of group) (bytes_of tag) Hh Hok)
    as (db1 & m1 & Hst & Hh1 & Hok1 & Hv1); [by apply bytes_of_nonempty|by rewrite length_bytes_of|by rewrite length_bytes_of|].
  exists db1, m1. assert (∀ name, bucket_path (set_db db1 c) name = bucket_path c name) as Hpath by done.
  unfold StoreSelected, failure, LoadSelected. rewrite Hst. split; [done|]. split; [done|]. split; [by apply Hok1|].
  rewrite (view_load (set_db db1 c) m1) by (done || by apply Hok1). rewrite Hpath, Hv1, decide_True by done.
  split; [by rewrite string_of_list_of_string|]. intros group' Hne.
  rewrite (view_load (set_db db1 c) m1), (view_load c m) by (done || by apply Hok1). rewrite Hpath, Hv1, decide_False; [done|].
  intros [_ Heq]. by apply Hne, bytes_of_inj.
Qed.

(** A selection survives a restart.  After another outbound was selected in a
    selector with a tag, the selector of the next process, started on the cache
    file that was left, has the outbound of that tag selected, whatever its
    default is, as long as it still lists the tag; the selections of other groups
    are what they were. *)
Lemma selection_survives_restart om tag x s s0 w w' s' c m :
  holds (db c) m → settings_ok c m bucketSelected → w_cacheFile w = Some c →
  sel_Tag s ≠ "" → (Z.of_nat (String.length (sel_Tag s)) <= MaxKeySize)%Z → tag ≠ "" → (Z.of_nat (String.length tag) < 2 ^ 31 - 1)%Z →
  sel_outbounds s !! tag = Some x → sel_selected s ≠ Some x →
  SelectOutbound tag s w = (w', s', true) →
  sel_Tag s0 = sel_Tag s → tag ∈ sel_tags s0 → (∀ t, t ∈ sel_tags s0 → is_Some (Outbound endpoint t om)) →
  ∃ c', w_cacheFile w' = Some c' ∧
    (∃ s1, Selector_Start endpoint om (Some (reopened c')) s0 = (Some (reopened c'), s1, None) ∧
       sel_selected s1 = Outbound endpoint tag om) ∧
    ∀ group, group ≠ sel_Tag s → (LoadSelected group c').2 = (LoadSelected group c).2.
Proof using HB.
  intros Hh Hok Hc Hg Hlg Ht Hlt Hx Hne Hsel Htag Hin Hall.
  destruct (StoreSelected_spec c m (sel_Tag s) tag Hh Hok Hg Hlg Hlt) as (db1 & m1 & Hst & Hh1 & Hok1 & Hload & Hother).
  unfold SelectOutbound in Hsel. rewrite Hx, decide_False in Hsel by done. cbn [select sel_Tag] in Hsel.
  rewrite decide_False, Hc, Hst in Hsel by done. simplify_eq. exists (set_db db1 c). split; [done|]. split; [|done].
  destruct (find_outbounds_ok om 0 (sel_tags s0) [] Hall) as (ds & Hf & Hds).
  unfold Selector_Start. rewrite Hf. cbn [app]. unfold cached_selection. cbn [set_outbounds sel_Tag]. rewrite Htag, decide_False by done.
  assert (LoadSelected (sel_Tag s) (reopened (set_db db1 c)) = (reopened (set_db db1 c), tag)) as ->.
  { unfold LoadSelected in *. rewrite (view_load (set_db db1 c) m1) in Hload by done.
    rewrite (view_load (reopened (set_db db1 c)) m1) by (done || by apply (settings_ok_same (set_db db1 c))).
    change (bucket_path (reopened (set_db db1 c)) bucketSelected) with (bucket_path (set_db db1 c) bucketSelected).
    by injection Hload as ->. }
  rewrite decide_False by done. cbn [set_outbounds sel_outbounds]. rewrite (insert_outbounds om), decide_True by done.
  destruct (Hall tag Hin) as [y Hy]. rewrite Hy. eexists. split; [done|]. done.
Qed.

Lemma depth_positive w x o : w_objects w !! a_id x = Some o → ∃ n, depth w = S n.
Proof.
  intros Ho. unfold depth. destruct (base.size (w_objects w)) eqn:Hs; [|eauto]. apply map_size_empty_iff in Hs. by rewrite Hs, lookup_empty in Ho.
Qed.
Lemma object_Some w x o : object w x = o → o ≠ Plain [] false → w_objects w !! a_id x = Some o.
Proof. unfold object. destruct (w_objects w !! a_id x); cbn; congruence. Qed.

(** A connection routed through a URL test is one of its group's. *)
Lemma urltest_routes_registered (NetworkName : string → string) now plain w x u g z id ns :
  NetworkName NetworkTCP = NetworkTCP → object w x = AnURLTest u → ut_group u = Some g → ug_selectedTCP g = Some z →
  a_id z ≠ a_id x → object w z = Plain ns false → plain z (Dial NetworkTCP) = Ok id →
  ∃ w' e, NewConnectionEx NetworkName now plain x w = (w', Ok (Some (Grouped (ug_interruptGroup g) e (Raw id)))) ∧
    mkItem e (Raw id) true ∈ members (ug_interruptGroup g) (w_interrupts w').
Proof.
  intros Hname Hx Hg Hz Hne Hp Hid. destruct (depth_positive w x _ (object_Some w x _ Hx ltac:(done))) as [n Hn].
  unfold NewConnectionEx. rewrite Hn. cbn [new_connection]. rewrite Hx. cbn [open]. rewrite Hx, Hg.
  set (g' := Touch now g). set (w1 := put_group x u g' w).
  assert (ug_selectedTCP g' = Some z ∧ ug_interruptGroup g' = ug_interruptGroup g) as [Hz' Hig].
  { unfold g', Touch. destruct (ug_started g); cbn [negb]; [|done]. by destruct (ug_ticker g). }
  unfold urltest_choice. rewrite Hname, decide_True by by left. unfold urltest_outbound, selected_of.
  rewrite decide_True, Hz' by done. cbn [result_bind].
  assert (object w1 z = Plain ns false) as Hp1. { unfold object, w1, put_group, set_object. cbn. by rewrite lookup_insert_ne. }
  destruct n; cbn [open]; rewrite Hp1, Hid; cbn [result_bind fst snd]; rewrite Hig.
  all: eexists _, _; split; [done|]; unfold members; cbn; rewrite lookup_insert_eq; cbn; apply elem_of_app; right; by left.
Qed.

(** C38: What switching a selector interrupts.  In any state that giving out,
    closing and interrupting connections leads to, groups not being nested in
    themselves, selecting another outbound closes, of the connections the
    selector gave out, exactly the internal ones, and all of them when existing
    connections are to be interrupted, in the order they were opened, and keeps
    the others.  But when the selected outbound is a plain dialer that does not
    handle connections itself, a connection an inbound routes to the selector is
    opened directly on it and is not among those the selector gave out: it is not
    interrupted, although the documentation of interrupt_exist_connections says
    that inbound connections are. *)
Theorem switching_interrupts NetworkName now plain tag x y s w w' s' ok :
  rtc ig_step (mkInterrupts ∅ 0 []) (w_interrupts w) →
  sel_outbounds s !! tag = Some y → sel_selected s ≠ Some y → SelectOutbound tag s w = (w', s', ok) →
  ok = true ∧ sel_selected s' = Some y ∧
  ig_closed (w_interrupts w') = ig_closed (w_interrupts w) ++
    ((raw ∘ it_conn) <$> filter (λ i, isExternal i = false ∨ sel_interruptExternal s = true) (members (sel_interruptGroup s) (w_interrupts w))) ∧
  members (sel_interruptGroup s) (w_interrupts w') =
    filter (λ i, isExternal i = true ∧ sel_interruptExternal s = false) (members (sel_interruptGroup s) (w_interrupts w)) ∧
  ∀ z ns id, object w x = ASelector s → sel_selected s = Some z → object w z = Plain ns false → plain z (Dial NetworkTCP) = Ok id →
    NewConnectionEx NetworkName now plain x w = (w, Ok (Some (Raw id))).
Proof.
  intros Hrun Hy Hyz Hsel. pose proof (ig_run_wf _ Hrun) as Hwf. unfold SelectOutbound in Hsel. rewrite Hy, decide_False in Hsel by done.
  destruct (Interrupt_spec (sel_interruptGroup s) (sel_interruptExternal s) (w_interrupts w) Hwf) as [Hm Hc].
  assert (w_interrupts w' = Interrupt (sel_interruptGroup s) (sel_interruptExternal s) (w_interrupts w) ∧ s' = select (Some y) s ∧ ok = true)
    as (Hi & -> & ->).
  { simplify_eq. cbn [set_interrupts w_interrupts select sel_Tag sel_interruptGroup sel_interruptExternal].
    split; [|done]. case_decide; [done|]. by destruct (w_cacheFile w). }
  rewrite Hi, Hm, Hc. split; [done|]. split; [done|].
  split; [do 2 f_equal; apply list_filter_iff; intros i; unfold interrupted; by destruct (isExternal i), (sel_interruptExternal s); naive_solver|].
  split; [apply list_filter_iff; intros i; unfold interrupted; by destruct (isExternal i), (sel_interruptExternal s); naive_solver|].
  intros z ns id Hx Hz Hp Hid. destruct (depth_positive w x _ (object_Some w x _ Hx ltac:(done))) as [n Hn].
  unfold NewConnectionEx. rewrite Hn. cbn [new_connection]. rewrite Hx, Hz, Hp. cbn [is_handler].
  destruct n; cbn [open]; by rewrite Hp, Hid.
Qed.
End selectors.
