(* ===== verification/StorageRun.v ===== *)
(** * Concrete runs of the cache file

    A database with the behaviour [BoltLaws] asks for, and runs over it. *)
From S2P Require Import Prelude Registry OutboundManager Bytes MatchState RuleItems Netip Rules RulesProps RuleAction RuleBuild RuleBuildProps Srs SrsProps SrsRoundtrip SrsMeaning SrsRun Groups FakeIP CacheFile FakeIPRange FakeIPProps CacheFileProps CacheFileSettings RuleSets RuleSetsProps GroupsProps.

Module BoltRun.

(** Buckets by path. *)
Notation file := (gmap (list (list Ascii.ascii)) (gmap (list Ascii.ascii) (list Ascii.ascii))) (only parsing).

Definition create (p : list (list Ascii.ascii)) (d : file) : result file :=
  match d !! p with Some _ => Ok d | None => Ok (<[p := ∅]> d) end.
Definition delete_bucket (p : list (list Ascii.ascii)) (d : file) : result file :=
  match d !! p with
  | None => Err ErrBucketNotFound
  | Some _ => Ok (filter (λ x, ¬ p `prefix_of` x.1) d)
  end.
Definition on (p : list (list Ascii.ascii)) (f : gmap (list Ascii.ascii) (list Ascii.ascii) → gmap (list Ascii.ascii) (list Ascii.ascii))
    (d : file) : result file :=
  match d !! p with None => Err (EPanic "nil bucket") | Some kv => Ok (<[p := f kv]> d) end.

#[export] Instance bolt : Bolt := {
  DB := file;
  Bucket p d := Ok (bool_decide (is_Some (d !! p)));
  CreateBucketIfNotExists := create;
  DeleteBucket := delete_bucket;
  Get p k d := Ok (d !! p ≫= (.!! k));
  Put p k v d := if decide (k = []) then Err (ENew "key required") else on p <[k := v]> d;
  CacheFile.Delete p k d := on p (delete k) d;
  closed d := d;
  reopen := Some ∅;
}.

#[export, refine] Instance bolt_laws : BoltLaws := { holds d m := d = m }.
Proof.
  - by intros d m p <-.
  - intros d m p kv k <- Hp. cbn. by rewrite Hp.
  - intros d m p kv <- Hp. cbn. unfold create. by rewrite Hp.
  - intros d m q n <- Hq _ _. cbn. unfold create. rewrite Hq. eauto.
  - intros d m p <- Hp. cbn. unfold delete_bucket. by rewrite Hp.
  - intros d m p kv <- Hp. cbn. unfold delete_bucket. rewrite Hp. eauto.
  - intros d m p kv k v <- Hp Hk _ _ _. cbn. rewrite decide_False by done. unfold on. rewrite Hp. eauto.
  - intros d m p kv k <- Hp _. cbn. unfold on. rewrite Hp. eauto.
Defined.

#[export] Existing Instance NetipRun.sing_addr.

(** A file, and a store with the range 198.18.0.0/29 started on it. *)
Definition c0 : CacheFile := New "" true true 0 (∅ : file).
Definition range : Prefix := mkPrefix (Addr4 3323068416) 29.
Definition none : Prefix := mkPrefix AddrInvalid (-1).
Definition st0 : Store CacheFile := Start c0 (NewStore range none).

Lemma c0_represents : file_represents c0 ∅.
Proof.
  repeat split; try done. exists ∅. split; [done|]. split.
  - intros k. by rewrite lookup_empty.
  - intros a d Ha. by rewrite lookup_empty in Ha.
  - intros a _. unfold value. by rewrite !lookup_empty.
  - intros is4. exists (λ _, None). split; [intros d; unfold value; by rewrite lookup_empty|].
    intros d a. rewrite lookup_empty. naive_solver.
Qed.

Lemma bolt_range_wide : wide range.
Proof. repeat split; cbn; lia. Qed.

Lemma bolt_st0_inv : StoreInv st0 ∅.
Proof.
  split.
  - intros []; [by left|]. right. split; [exact bolt_range_wide|]. split; [done|]. split; [done|].
    exists 3323068417%Z. split; [done|]. split; vm_compute; reflexivity.
  - eexists. split; [done|]. exact c0_represents.
  - intros a d Ha. by rewrite lookup_empty in Ha.
Qed.

(** The position the timer saves is the one after the first domain of the
    process: after a crash the next domain takes the address of the second. *)
Example timer_saves_the_first_position :
  let st := Creates [("a.org", false); ("b.org", false)] st0 in
  match storage st with
  | None => False
  | Some c =>
      let st' := Start (reopened (fire_timer c)) (NewStore range none) in
      (Create "b.org" false st).2 = Ok (Addr4 3323068419) ∧ (Create "c.org" false st').2 = Ok (Addr4 3323068419) ∧
      (Lookup (Addr4 3323068419) (Create "c.org" false st').1).2 = Ok (Some "c.org")
  end.
Proof. vm_compute. by repeat split. Qed.
End BoltRun.
Import BoltRun.

(** After one domain. *)
Lemma one_domain :
  ∃ table x0, StoreInv (Create "a.org" false st0).1 table ∧ table !! addr_of range x0 = Some "a.org".
Proof.
  destruct (kept_start st0 ∅ "a.org" false bolt_st0_inv) as (st1 & x0 & Hc & Hcfg & Hk).
  - reflexivity.
  - intros a Hu. destruct (usable_facts range a) as (_ & _ & Hw & Hz & Hv & _); [exact bolt_range_wide|done|].
    split; [done|]. split; [done|]. unfold MaxKeySize. cbn. lia.
  - reflexivity.
  - destruct Hk as (t & x & HI & _ & _ & Ht & _). destruct (Hcfg false) as [Hr _]. rewrite Hr in Ht.
    exists t, x0. by rewrite Hc.
Qed.

Lemma fakeip_restart_resumes_witness :
  ∃ table x0, table !! addr_of range x0 = Some "a.org" ∧
  let st := (Create "a.org" false st0).1 in
  ∃ c, Close st = (set_storage c st, None) ∧
    let st' := Start (reopened c) (NewStore (inet4Range st) (inet6Range st)) in
    StoreInv st' table ∧ inet4Current st' = inet4Current st ∧ inet6Current st' = inet6Current st ∧
    ∀ a d, table !! a = Some d → Lookup a st' = (st', Ok (Some d)).
Proof.
  destruct one_domain as (table & x0 & HI & Ht). exists table, x0. split; [exact Ht|].
  exact (fakeip_restart_resumes (Create "a.org" false st0).1 table HI).
Defined.

(** The file a process with one domain leaves. *)
Notation st_one := (Create "a.org" false st0).1 (only parsing).
Notation left_behind := (match storage (Close (Create "a.org" false st0).1).1 with Some c => reopened c | None => c0 end) (only parsing).

Lemma left_behind_table :
  ∃ table x0, table !! addr_of range x0 = Some "a.org" ∧ file_table (db left_behind) table ∧
    value (db left_behind) [bucketFakeIP] keyMetadata = Some (FakeIPMetadata_MarshalBinary (store_metadata st_one)) ∧
    wf_metadata (store_metadata st_one).
Proof.
  destruct one_domain as (table & x0 & HI & Ht). exists table, x0. split; [exact Ht|].
  pose proof (StoreInv_metadata _ _ HI) as Hmd. destruct (si_storage _ _ HI) as (c & Hs & Hr).
  destruct (file_save_metadata c table _ Hr Hmd) as (db1 & m1 & Hsave & Hh1 & Ht1 & Hb1 & Hv1). cbn in Hh1. subst m1.
  assert (db left_behind = db1) as Hdb.
  { unfold Close. rewrite Hs. cbn [FakeIPSaveMetadata File_storage]. rewrite Hsave. done. }
  rewrite Hdb. exact (conj Ht1 (conj Hv1 Hmd)).
Qed.

Lemma fakeip_range_change_keeps_stale_addresses_witness :
  ∃ x0, let st := Start left_behind (NewStore (mkPrefix (Addr4 167772160) 8) none) in
    Create "a.org" false st = (st, Ok (Addr4 x0)) ∧ Contains st (Addr4 3323068418) = false.
Proof.
  destruct left_behind_table as (table & x0 & Ht & Hft & Hv & Hmd). exists x0. split; [|reflexivity].
  eapply (fakeip_range_change_keeps_stale_addresses left_behind (db left_behind) table (store_metadata st_one)
           (mkPrefix (Addr4 167772160) 8) none (Addr4 x0) "a.org").
  - reflexivity.
  - reflexivity.
  - reflexivity.
  - reflexivity.
  - exact Hft.
  - vm_compute. reflexivity.
  - apply not_eq_None_Some, (bool_decide_eq_true_1 _). vm_compute. reflexivity.
  - exact Hv.
  - exact Hmd.
  - apply (bool_decide_eq_false_1 _). vm_compute. reflexivity.
  - exact Ht.
  - reflexivity.
Defined.

(** A rule set in an empty file with a cache ID. *)
Definition c_id : CacheFile := New "node" true true 0 (∅ : gmap (list (list Ascii.ascii)) (gmap (list Ascii.ascii) (list Ascii.ascii))).
Definition saved : SavedBinary := mkSavedBinary [u8 1; u8 2] 1500000000000000001 "etag".

Lemma empty_settings name : name ≠ [] → settings_ok c_id ∅ name.
Proof.
  intros Hn. split; [split; [done|]|].
  - intros id [= <-]. repeat split; unfold value; by rewrite ?lookup_empty.
  - intros key. apply lookup_empty.
Qed.

Lemma ruleset_saved_and_loaded_witness :
  ∃ c', SaveRuleSet "geosite" saved c_id = (c', None) ∧ LoadRuleSet "geosite" c' = (c', Some (whole_seconds saved)) ∧
    (∀ tag', tag' ≠ "geosite" → (LoadRuleSet tag' c').2 = (LoadRuleSet tag' c_id).2) ∧
    (∀ group, (LoadSelected group c').2 = (LoadSelected group c_id).2).
Proof.
  apply (ruleset_saved_and_loaded c_id ∅ "geosite" saved).
  - reflexivity.
  - by apply empty_settings.
  - by apply empty_settings.
  - discriminate.
  - vm_compute. discriminate.
  - repeat split; vm_compute; discriminate || reflexivity.
  - intros tag' e. unfold value. rewrite lookup_empty. discriminate.
Defined.

Lemma rdrc_expires_witness :
  ∃ c', SaveRDRC 1500000000 "remote" "example.org" 1 c_id = (c', None) ∧
    (LoadRDRC 604801000000001 "remote" "example.org" 1 c').2
    = bool_decide (604801000000001 <= (1500000000 + rdrcTimeout c_id) / second * second)%Z.
Proof.
  apply (rdrc_expires 1500000000 604801000000001 c_id ∅ "remote" "example.org" 1).
  - reflexivity.
  - split; [apply empty_settings; discriminate|discriminate|..]; intros; unfold value; by rewrite lookup_empty.
  - reflexivity.
  - vm_compute. discriminate.
  - split; vm_compute; discriminate || reflexivity.
Defined.

(** ** Groups of concrete outbounds *)

Module GroupRun.
#[export] Existing Instance BoltRun.bolt.
#[export] Existing Instance BoltRun.bolt_laws.
#[export] Existing Instance NetipRun.sing_addr.

Definition outbound (id : nat) (tag : string) : Adapter := mkAdapter id "direct" tag [] Lifecycle false.
Definition a : Adapter := outbound 1 "a".
Definition b : Adapter := outbound 2 "b".
Definition c : Adapter := outbound 3 "c".

(** Three outbounds, of which [b] is the fastest and [c] has no UDP. *)
Definition delays : gmap string URLTestHistory := {["a" := mkHistory 0 100; "b" := mkHistory 0 80; "c" := mkHistory 0 300]}.
Definition objects : gmap nat Object :=
  {[1 := Plain ["tcp"; "udp"] false; 2 := Plain ["tcp"; "udp"] false; 3 := Plain ["tcp"] false]}.
Definition w : World := mkWorld objects {[0 := delays]} (mkInterrupts ∅ 0 []) (Some BoltRun.c0).
Definition group (tolerance : Z) (tcp udp : option Adapter) : URLTestGroup :=
  mkURLTestGroup [a; b; c] 1 tolerance 1 0 false tcp udp 7 false None [] 0 false true 0.

Lemma group_measured x : x ∈ [a; b; c] ∨ Some a = Some x ∨ Some c = Some x →
  ∃ o, tested w (group 50 (Some a) (Some c)) x = Ok o ∧ ∀ d, o = Some d → (0 < d ∧ d + 50 < 65536)%Z.
Proof.
  intros Hx. assert (x = a ∨ x = b ∨ x = c) as Habc.
  { rewrite !elem_of_cons, elem_of_nil in Hx. destruct Hx as [[->|[->|[->|[]]]]|[[= <-]|[= <-]]]; auto. }
  destruct Habc as [->|[->| ->]]; eexists; (split; [vm_compute; reflexivity|]); intros d [= <-]; lia.
Qed.

(** An outbound that answers within the first millisecond loses to every other
    that was tested after it in the list. *)
Definition fast : World := mkWorld objects {[0 := <["a" := mkHistory 0 0]> delays]} (mkInterrupts ∅ 0 []) None.
Example zero_delay_loses : Select fast (group 50 (Some a) None) "tcp" = Ok (Some b, true).
Proof. vm_compute. reflexivity. Qed.

(** A tolerance near the width of a delay: the slowest outbound is selected. *)
Example tolerance_overflows : Select w (group 65300 None None) "tcp" = Ok (Some c, true).
Proof. vm_compute. reflexivity. Qed.
End GroupRun.
Import GroupRun.

Lemma urltest_selects_and_is_stable_witness :
  ∃ w' g', performUpdateCheck (group 50 (Some a) (Some c)) w = Ok (w', g') ∧
    selected_of "tcp" g' = Some a ∧ (∃ y, selected_of "udp" g' = Some y ∧ within w (group 50 (Some a) (Some c)) "udp" y) ∧
    performUpdateCheck g' w' = Ok (w', g').
Proof.
  destruct (urltest_selects_and_is_stable w (group 50 (Some a) (Some c)) ltac:(done) group_measured) as (w' & g' & Hp & Hn & _ & Hs).
  exists w', g'. split; [exact Hp|]. split; [|split; [|exact Hs]].
  - apply (proj2 (Hn "tcp" (or_introl eq_refl)) a); [reflexivity|]. exists 100%Z. split; [vm_compute; reflexivity|].
    assert (candidates w (group 50 (Some a) (Some c)) "tcp" = [(a, 100%Z); (b, 80%Z); (c, 300%Z)]) as -> by (vm_compute; reflexivity).
    intros y Hy. rewrite !elem_of_cons, elem_of_nil in Hy. destruct Hy as [->|[->|[->|[]]]]; vm_compute; discriminate.
  - apply (proj1 (Hn "udp" (or_intror eq_refl))). vm_compute. discriminate.
Defined.

(** A selector with the outbounds [a] (selected) and [b], one connection of its
    own and one of an inbound. *)
Definition sel : Selector := mkSelector "group" ["a"; "b"] "" {["a" := a; "b" := b]} (Some a) 9 false.
Definition me : Adapter := mkAdapter 9 "selector" "group" ["a"; "b"] Lifecycle false.
Definition own : Item := mkItem 0 (Raw 100) false.
Definition inbound : Item := mkItem 1 (Raw 101) true.
Definition sw : World :=
  mkWorld (<[9 := ASelector sel]> objects) {[0 := delays]} (mkInterrupts {[9 := [own; inbound]]} 2 []) (Some BoltRun.c0).

Lemma sw_run : rtc ig_step (mkInterrupts ∅ 0 []) (w_interrupts sw).
Proof.
  change (w_interrupts sw) with (mkInterrupts {[9 := [own; inbound]]} 2 []).
  assert (mkInterrupts {[9 := [own; inbound]]} 2 [] = (NewConn 9 (Raw 101) true (NewConn 9 (Raw 100) false (NewGroup 9 (mkInterrupts ∅ 0 []))).1).1) as ->
    by (vm_compute; reflexivity).
  eapply rtc_l; [apply (ig_new _ 9)|]. eapply rtc_l; [apply (ig_conn _ 9 (Raw 100) false); by intros h e ?%elem_of_nil|].
  eapply rtc_l; [apply (ig_conn _ 9 (Raw 101) true); by intros h e ?%elem_of_nil|]. apply rtc_refl.
Qed.

Lemma switching_interrupts_witness :
  let r := SelectOutbound "b" sel sw in
  r.2 = true ∧ ig_closed (w_interrupts r.1.1) = [100] ∧ members 9 (w_interrupts r.1.1) = [inbound] ∧
  NewConnectionEx (λ n, n) 0 (λ _ _, Ok 102) me sw = (sw, Ok (Some (Raw 102))).
Proof.
  destruct (switching_interrupts (λ n, n) 0 (λ _ _, Ok 102) "b" me b sel sw
    (SelectOutbound "b" sel sw).1.1 (SelectOutbound "b" sel sw).1.2 (SelectOutbound "b" sel sw).2 sw_run)
    as (Hok & _ & Hc & Hm & Hn);
    [reflexivity|discriminate|by destruct (SelectOutbound "b" sel sw) as [[] ]|].
  split; [exact Hok|]. split; [rewrite Hc; reflexivity|]. split; [exact Hm|].
  apply (Hn a ["tcp"; "udp"]); reflexivity.
Defined.

(** The outbounds of the next process. *)
Definition om : OManager := set_table [a; b] {["a" := a; "b" := b]} (NewOManager "").

Lemma selection_survives_restart_witness :
  ∃ c', w_cacheFile (SelectOutbound "b" sel sw).1.1 = Some c' ∧
    ∃ s1, Selector_Start NewManager om (Some (reopened c')) (mkSelector "group" ["a"; "b"] "a" ∅ None 9 false) = (Some (reopened c'), s1, None) ∧
      sel_selected s1 = Some b.
Proof.
  destruct (selection_survives_restart NewManager om "b" b sel (mkSelector "group" ["a"; "b"] "a" ∅ None 9 false) sw
    (SelectOutbound "b" sel sw).1.1 (SelectOutbound "b" sel sw).1.2 BoltRun.c0 ∅) as (c' & Hc & Hs & _).
  - reflexivity.
  - split; [by split|]. intros key. by rewrite lookup_empty.
  - reflexivity.
  - discriminate.
  - vm_compute. discriminate.
  - discriminate.
  - vm_compute. reflexivity.
  - reflexivity.
  - discriminate.
  - destruct (SelectOutbound "b" sel sw) as [[w' s'] ok] eqn:Hsel. cbn [fst snd].
    assert (ok = true) as -> by (change ok with (w', s', ok).2; rewrite <-Hsel; reflexivity). reflexivity.
  - reflexivity.
  - cbn. set_solver.
  - intros t Ht. cbn in Ht. rewrite !elem_of_cons, elem_of_nil in Ht. destruct Ht as [->|[->|[]]]; vm_compute; eauto.
  - exists c'. split; [exact Hc|]. exact Hs.
Defined.

(** ** A downloaded rule set on a concrete server

    The rule set of [SrsRun] is downloaded, the program is started again from its
    cache file, fails to reach the server and reaches it again. *)

Module SetsRun.
#[export] Existing Instance SrsRun.env.
#[export] Existing Instance SrsRun.srs_env.
#[export] Existing Instance BuildRun.act_env.
#[export] Existing Instance NetipRun.sing_addr.
#[export] Existing Instance BoltRun.bolt.
#[export] Existing Instance BoltRun.bolt_laws.
#[export] Instance set_env : RuleSetEnv := { UnmarshalExtended _ := Err (ENew "invalid character") }.

Definition o : RuleSetOptions := mkRuleSetOptions "remote" "geo" "binary" [] "" "https://example.org/geo.srs" "" 0.
(** Two contents: the rule set of [SrsRun], and before it a single rule. *)
Definition old_file : bytes := match Write [SrsRun.rule SrsRun.port] 3 with Ok b => b | Err _ => [] end.
Definition content_of (e : string) : bytes := if decide (e = "v1") then old_file else if decide (e = "v2") then SrsRun.file else [].
Definition server (e : string) (req : Request) : result Response :=
  if decide (req_IfNoneMatch req = Some e) then Ok (mkResponse 304 "304 Not Modified" (Ok []) e)
  else Ok (mkResponse 200 "200 OK" (Ok (content_of e)) e).
Definition broken (req : Request) : result Response := Ok (mkResponse 502 "502 Bad Gateway" (Ok []) "").

Lemma server_answers e : answers content_of e (server e).
Proof.
  intros req resp. unfold server. case_decide as Hd; intros Heq; simplify_eq; cbn; (split; [|done]); [done|]. split; [done|]. naive_solver.
Qed.
Lemma broken_answers e : answers content_of e broken.
Proof. intros req resp Heq. unfold broken in Heq. simplify_eq. done. Qed.

Definition om : OManager := NewOManager "".
Definition now : Z := 1700000000 * second.
Notation start do c := (Remote_StartContext NewManager SrsRun.IsValid false now None do om (Some c) (NewRemoteRuleSet o)) (only parsing).
Notation update do c s := (updateOnce SrsRun.IsValid false now None do (Some c) s) (only parsing).

(** What an operation on a cache file gives, when it gives one. *)
Definition succeeds {A B C} (err : bool) (r : option A * B * C * option error) : bool :=
  match r with (Some _, _, _, e) => eqb (bool_decide (is_Some e)) err | _ => false end.
Definition file_of {A B C} (d : A) (r : option A * B * C * option error) : A := default d r.1.1.1.
Lemma succeeds_eq {A B C} (d : A) (r : option A * B * C * option error) :
  succeeds false r = true → r = (Some (file_of d r), r.1.1.2, r.1.2, None).
Proof. destruct r as [[[[a|] b] c] [e|]]; by cbn. Qed.
Lemma fails_eq {A B C} (d : A) (r : option A * B * C * option error) :
  succeeds true r = true → r = (Some (file_of d r), r.1.1.2, r.1.2, r.2).
Proof. destruct r as [[[[a|] b] c] [e|]]; by cbn. Qed.

(** Started with the old content; started again while the server has the new
    one; an update fails. *)
Notation first := (start (server "v1") BoltRun.c0) (only parsing).
Notation c1 := (file_of BoltRun.c0 first) (only parsing).
Notation again := (start (server "v2") c1) (only parsing).
Notation c2 := (file_of BoltRun.c0 again) (only parsing).
Notation s2 := (refer 0 again.1.1.2) (only parsing).
Notation failed := (update broken c2 s2) (only parsing).
Notation c3 := (file_of BoltRun.c0 failed) (only parsing).
Notation s3 := failed.1.1.2 (only parsing).
Notation last := (update (server "v2") c3 s3) (only parsing).

Lemma tag_ok : so_Tag o ≠ "" ∧ (Z.of_nat (String.length (so_Tag o)) <= MaxKeySize)%Z.
Proof. split; [done|]. vm_compute. discriminate. Qed.
Lemma known_v1 : known content_of "v1".
Proof. split; [done|]. vm_compute. discriminate. Qed.
Lemma known_v2 : known content_of "v2".
Proof. split; [done|]. vm_compute. discriminate. Qed.
Lemma now_valid : valid_time now.
Proof. split; vm_compute; [discriminate|reflexivity]. Qed.
Lemma c0_settings : settings_ok BoltRun.c0 ∅ bucketRuleSet.
Proof. split; [split; [done|done]|]. intros key. by rewrite lookup_empty. Qed.

Lemma ran : RuleSetsProps.history NewManager SrsRun.IsValid false o content_of c3 s3.
Proof.
  assert (succeeds false first && succeeds false again && succeeds true failed = true) as Hok by (vm_compute; reflexivity).
  apply andb_prop in Hok as [Hok H3]. apply andb_prop in Hok as [H1 H2].
  eapply (history_update _ _ _ _ _ c2 s2 now "v2" broken); [|apply now_valid|apply known_v2|apply broken_answers|exact (fails_eq BoltRun.c0 _ H3)].
  eapply (history_restart _ _ _ _ _ c1 (refer 0 first.1.1.2) om now "v2" (server "v2") 0);
    [|apply now_valid|apply known_v2|apply server_answers|eexists _, _; split; [exact (succeeds_eq BoltRun.c0 _ H2)|reflexivity]].
  eapply (history_first _ _ _ _ _ BoltRun.c0 ∅ om now "v1" (server "v1") 0);
    [done|apply c0_settings|reflexivity|apply now_valid|apply known_v1|apply server_answers|].
  eexists _, _. split; [exact (succeeds_eq BoltRun.c0 _ H1)|reflexivity].
Qed.
End SetsRun.
Import SetsRun.

Lemma remote_rules_are_current_witness :
  r_lastEtag s3 = "v1" ∧ r_lastEtag last.1.1.2 = "v2" ∧ holds_rules SrsRun.IsValid false SrsRun.file last.1.1.2.
Proof.
  split; [vm_compute; reflexivity|].
  assert (succeeds false last = true) as Hok by (vm_compute; reflexivity).
  exact (remote_rules_are_current NewManager SrsRun.IsValid false o content_of tag_ok c3 s3 now (server "v2") "v2"
    (Some (file_of BoltRun.c0 last)) last.1.1.2 last.1.2 None ran now_valid known_v2 (server_answers "v2") (succeeds_eq BoltRun.c0 _ Hok)).
Defined.

Lemma failed_ruleset_update_changes_nothing_witness :
  updateOnce SrsRun.IsValid false now None broken (Some c2) s2 =
    (Some c2, s2, [], Some (ENew "unexpected status: 502 Bad Gateway")) ∧ s3 = s2.
Proof.
  assert (updateOnce SrsRun.IsValid false now None broken (Some c2) s2 =
    (Some c2, s2, [], Some (ENew "unexpected status: 502 Bad Gateway"))) as He by reflexivity.
  split; [exact He|].
  destruct (proj2 (failed_ruleset_update_changes_nothing SrsRun.IsValid false) _ _ _ _ _ _ _ _ _ He) as (_ & Hs & _).
  rewrite He. exact Hs.
Defined.
