(* ===== verification/DnsRouter.v ===== *)
(** * The DNS router

    Model of src/runtime/sing-box/dns/router.go: choosing a server for a query
    with the DNS rules, retrying with later rules when a response violates the
    address limits of the rule that asked, and the reverse mapping.  The servers
    are a parameter; the client is that of DnsClient. *)
From S2P Require Import Prelude MatchState RuleItems Netip Rules RuleAction RuleBuild DnsRule DnsClient Route.

Section router.
Context `{RuleEnv} `{DnsEnv} (rt : Runtime) (metadata : RuleSet RuleAction → RuleSetMetadata).

(** The transport manager, as far as the router uses it. *)
Record Transports := mkTransports { transportByTag : gmap string DNSTransport; defaultTransport : option DNSTransport }.

(** [Router]: the rules, the default strategy, the client and the reverse
    mapping with the times its entries were added at and their lifetimes. *)
Record DNSRouter := mkDNSRouter {
  rules : list (Rule RuleAction);
  defaultDomainStrategy : Z;
  client : Client;
  dnsReverseMapping : option (gmap Addr (string * Z * Z));
}.
Definition set_client (c : Client) (r : DNSRouter) : DNSRouter :=
  mkDNSRouter (rules r) (defaultDomainStrategy r) c (dnsReverseMapping r).
Definition set_mapping (m : option (gmap Addr (string * Z * Z))) (r : DNSRouter) : DNSRouter :=
  mkDNSRouter (rules r) (defaultDomainStrategy r) (client r) m.

Definition DNSTypeFakeIP : string := "fakeip".

(** Options an action sets, and those of a legacy transport. *)
Definition apply_dns_options (force : bool) (a : RuleActionDNSRouteOptions) (o : QueryOptions) : QueryOptions :=
  mkQueryOptions (o_Transport o) (if decide (Strategy a ≠ 0)%Z then Strategy a else o_Strategy o) (o_LookupStrategy o)
    (force || DisableCache a || o_DisableCache o)
    (match RewriteTTL a with Some t => Some t | None => o_RewriteTTL o end)
    (if Prefix_IsValid (ClientSubnet a) then ClientSubnet a else o_ClientSubnet o).
Definition legacy_options (t : DNSTransport) (o : QueryOptions) : QueryOptions :=
  match t_Legacy t with
  | None => o
  | Some (strategy, subnet) =>
      mkQueryOptions (o_Transport o) (if decide (o_Strategy o = 0)%Z then strategy else o_Strategy o) (o_LookupStrategy o)
        (o_DisableCache o) (o_RewriteTTL o) (if Prefix_IsValid (o_ClientSubnet o) then o_ClientSubnet o else subnet)
  end.
Definition default_strategy (r : DNSRouter) (o : QueryOptions) : QueryOptions :=
  mkQueryOptions (o_Transport o) (if decide (o_Strategy o = 0)%Z then defaultDomainStrategy r else o_Strategy o)
    (o_LookupStrategy o) (o_DisableCache o) (o_RewriteTTL o) (o_ClientSubnet o).

(** What [matchDNS] returns: the context and options it leaves, the transport,
    the rule and its index, negative for none. *)
Record Matched := mkMatched {
  md_after : InboundContext;
  options_after : QueryOptions;
  transport : option DNSTransport;
  rule : option (Rule RuleAction);
  ruleIndex : Z;
}.

(** The loop of [matchDNS] over the remaining rules, the first of index [i]. *)
Fixpoint match_rules (ts : Transports) (allowFakeIP isAddressQuery : bool) (i : Z) (rs : list (Rule RuleAction))
    (md : InboundContext) (o : QueryOptions) : Matched :=
  match rs with
  | [] =>
      let t := defaultTransport ts in
      mkMatched md (match t with Some t => legacy_options t o | None => o end) t None (-1)
  | r :: rs =>
      if WithAddressLimit metadata r && negb isAddressQuery then match_rules ts allowFakeIP isAddressQuery (i + 1) rs md o
      else
        match dns_Match rt r (ResetRuleCache md) with
        | (md, false) => match_rules ts allowFakeIP isAddressQuery (i + 1) rs md o
        | (md, true) =>
            match rule_action r with
            | Some (ActionDNSRoute server a) =>
                match transportByTag ts !! server with
                | None => match_rules ts allowFakeIP isAddressQuery (i + 1) rs md o
                | Some t =>
                    let isFakeIP := bool_decide (t_Type t = DNSTypeFakeIP) in
                    if isFakeIP && negb allowFakeIP then match_rules ts allowFakeIP isAddressQuery (i + 1) rs md o
                    else mkMatched md (legacy_options t (apply_dns_options isFakeIP a o)) (Some t) (Some r) i
                end
            | Some (ActionDNSRouteOptions a) =>
                match_rules ts allowFakeIP isAddressQuery (i + 1) rs md (apply_dns_options false a o)
            | Some (ActionReject _) | Some (ActionPredefined _ _ _ _) => mkMatched md o None (Some r) i
            | _ => match_rules ts allowFakeIP isAddressQuery (i + 1) rs md o
            end
        end
  end.

(** [matchDNS] from the rule after [ruleIndex]. *)
Definition matchDNS (ts : Transports) (allowFakeIP : bool) (ruleIndex : Z) (isAddressQuery : bool) (r : DNSRouter)
    (md : InboundContext) (o : QueryOptions) : Matched :=
  let start := if decide (ruleIndex = -1)%Z then 0%Z else (ruleIndex + 1)%Z in
  match_rules ts allowFakeIP isAddressQuery start (drop (Z.to_nat start) (rules r)) md o.

(** [isAddressQuery]. *)
Definition isAddressQuery (m : Msg) : bool :=
  existsb (λ q, bool_decide (Qtype q = TypeA) || bool_decide (Qtype q = TypeAAAA) || bool_decide (Qtype q = TypeHTTPS))
    (Questions m).

(** The context with the addresses of a response. *)
Definition with_addresses (addresses : list Addr) (c : InboundContext) : InboundContext :=
  with_destination (Destination c) addresses (Domain c) (ProcessInfo c) c.

(** [addressLimitResponseCheck]. *)
Definition addressLimitResponseCheck (r : option (Rule RuleAction)) (md : InboundContext) : option (list Addr → bool) :=
  match r with
  | Some r => if WithAddressLimit metadata r then Some (λ addresses, MatchAddressLimit rt r (with_addresses addresses md)) else None
  | None => None
  end.

(** The context of a query. *)
Definition query_context (domain : string) (q : option Z) (md : InboundContext) : InboundContext :=
  let c := with_destination (mkSocksaddr AddrInvalid 0 "") (DestinationAddresses md) (FqdnToDomain domain) (ProcessInfo md) md in
  match q with
  | None => c
  | Some qtype =>
      let version := if decide (qtype = TypeA) then 4%Z else if decide (qtype = TypeAAAA) then 6%Z else IPVersion c in
      mkInboundContext (Inbound c) version (Network c) (Source c) (Destination c) (User c) (RuleItems.Outbound c)
        (Protocol c) (Domain c) (RuleItems.Client c) (DestinationAddresses c) (ProcessInfo c) qtype (IPCIDRMatchSource c)
        (IPCIDRAcceptEmpty c) (SourceAddressMatch c) (SourcePortMatch c) (DestinationAddressMatch c)
        (DestinationPortMatch c) (DidMatch c) (IgnoreDestinationIPCIDRMatch c)
  end.

(** ** Exchange *)

(** What a query comes to: a response, a dropped query, an error or a panic. *)
Inductive exchanged :=
| Responded (m : Msg)
| Dropped
| NotResponded (e : dns_error)
| Panicked (msg : string).

(** The responses of the router itself. *)
Definition bad_question (m : Msg) : Msg := mkMsg (Id m) true false false false RcodeFormatError (Questions m) [] [] [].
Definition refused (m : Msg) : Msg := mkMsg (Id m) true false false false RcodeRefused (take 1 (Questions m)) [] [] [].
Definition predefined (m : Msg) (rcode : Z) (answer ns extra : list RR) : Msg :=
  let q := default "" (Name <$> head (Questions m)) in
  mkMsg (Id m) true true true true rcode (Questions m) (rewriteRecords answer q) (rewriteRecords ns q) (rewriteRecords extra q).

(** The exchange with a server; with no transport the client panics, unless the
    strategy settles the query before. *)
Definition client_exchange (before after : Z) (inTransport : option string) (sent : DNSTransport → Msg → answered)
    (t : option DNSTransport) (m : Msg) (o : QueryOptions) (checker : option (list Addr → bool)) (c : Client)
    : Client * exchanged :=
  match t with
  | Some t =>
      match Exchange before after inTransport sent t m o checker c with
      | (c, _, Some e) => (c, NotResponded e)
      | (c, Some response, None) => (c, Responded response)
      | (c, None, None) => (c, Panicked "nil response")
      end
  | None =>
      match Questions m with
      | q :: _ => if strategy_rejects (Qtype q) (o_Strategy o) then (c, Responded (FixedResponseStatus m RcodeSuccess))
                  else (c, Panicked "nil pointer dereference")
      | [] => (c, Responded (FixedResponseStatus m RcodeFormatError))
      end
  end.

Section exchange.
Context (ts : Transports) (before after : Z) (inTransport : option string) (sent : DNSTransport → Msg → answered).

(** What the action of a rule answers itself. *)
Definition own_answer (m : Msg) (r : option (Rule RuleAction)) : option exchanged :=
  match r ≫= rule_action with
  | Some (ActionReject a) =>
      if decide (Method a = "default") then Some (Responded (refused m))
      else if decide (Method a = "drop") then Some Dropped else None
  | Some (ActionPredefined rcode answer ns extra) => Some (Responded (predefined m rcode answer ns extra))
  | _ => None
  end.

(** The loop of [Exchange]: rejected responses are retried with the rules after
    the one that asked.  The result is an answer of a rule itself, or what the
    client answered, with the transport that was used. *)
Fixpoint exchange_loop (fuel : nat) (index : Z) (m : Msg) (o : QueryOptions) (md : InboundContext) (r : DNSRouter)
    : DNSRouter * option (exchanged + option DNSTransport * exchanged) :=
  match fuel with
  | 0 => (r, None)
  | S fuel =>
      let x := matchDNS ts true index (isAddressQuery m) r md o in
      match own_answer m (rule x) with
      | Some answer => (r, Some (inl answer))
      | None =>
          let responseCheck := addressLimitResponseCheck (rule x) (md_after x) in
          let '(c, response) := client_exchange before after inTransport sent (transport x) m
                                  (default_strategy r (options_after x)) responseCheck (client r) in
          let r := set_client c r in
          match response with
          | NotResponded e =>
              if bool_decide (is_Some responseCheck) && is_rejected e then exchange_loop fuel (ruleIndex x) m o (md_after x) r
              else (r, Some (inr (transport x, response)))
          | _ => (r, Some (inr (transport x, response)))
          end
      end
  end.

(** The entries a response adds to the reverse mapping. *)
Definition map_answer (now : Z) (mapping : gmap Addr (string * Z * Z)) (record : RR) : gmap Addr (string * Z * Z) :=
  match RR_data record with
  | DataA a | DataAAAA a => <[a := (FqdnToDomain (RR_Name record), now, (RR_Ttl record * second)%Z)]> mapping
  | _ => mapping
  end.
Definition remember (now : Z) (t : option DNSTransport) (response : Msg) (r : DNSRouter) : DNSRouter :=
  match dnsReverseMapping r with
  | Some mapping =>
      if match t with Some t => bool_decide (t_Type t = DNSTypeFakeIP) | None => false end then r
      else set_mapping (Some (foldl (map_answer now) mapping (Answer response))) r
  | None => r
  end.

(** [Exchange]. *)
Definition Router_Exchange (m : Msg) (o : QueryOptions) (md : InboundContext) (r : DNSRouter) : DNSRouter * exchanged :=
  match Questions m with
  | [q] =>
      let md := query_context (Name q) (Some (Qtype q)) md in
      let '(r, result) :=
        match o_Transport o with
        | Some t =>
            let '(c, response) := client_exchange before after inTransport sent (Some t) m
                                    (default_strategy r (legacy_options t o)) None (client r) in
            (set_client c r, Some (inr (Some t, response)))
        | None => exchange_loop (S (length (rules r))) (-1) m o md r
        end in
      match result with
      | Some (inl answer) => (r, answer)
      | Some (inr (t, Responded response)) => (remember after t response r, Responded response)
      | Some (inr (_, other)) => (r, other)
      | None => (r, Panicked "out of fuel")
      end
  | _ => (r, Responded (bad_question m))
  end.

(** ** Look-ups *)

Inductive looked_up :=
| Addresses (addresses : list Addr)
| LookupFailed (errors : list dns_error)
| EmptyResult
| LookupRejected (action : RuleActionReject) (answer : result rejection)
| LookupPanicked (msg : string).

(** [printResult]: no address is an error as well. *)
Definition looked (addresses : list Addr) (errors : list dns_error) : looked_up :=
  match errors with
  | [] => match addresses with [] => EmptyResult | _ => Addresses addresses end
  | _ => LookupFailed errors
  end.

(** The addresses of a predefined answer. *)
Definition predefined_addresses (rcode : Z) (answer : list RR) : looked_up :=
  if decide (rcode ≠ RcodeSuccess) then looked [] [RcodeError rcode]
  else looked (answer ≫= λ r, match RR_data r with DataA a | DataAAAA a => [a] | _ => [] end) [].

(** The loop of [Lookup]: every error is retried under address limits. *)
Fixpoint lookup_loop (fuel : nat) (index : Z) (domain : string) (o : QueryOptions) (md : InboundContext) (r : DNSRouter)
    : DNSRouter * option looked_up :=
  match fuel with
  | 0 => (r, None)
  | S fuel =>
      let x := matchDNS ts false index true r md o in
      match rule x ≫= rule_action with
      | Some (ActionReject a) => let '(a, answer) := Reject_Error after a in (r, Some (LookupRejected a answer))
      | Some (ActionPredefined rcode answer _ _) => (r, Some (predefined_addresses rcode answer))
      | _ =>
          match transport x with
          | None => (r, Some (LookupPanicked "nil pointer dereference"))
          | Some t =>
              let responseCheck := addressLimitResponseCheck (rule x) (md_after x) in
              let '(c, (addresses, errors)) := Lookup before after inTransport sent t domain
                                                 (default_strategy r (options_after x)) responseCheck (client r) in
              let r := set_client c r in
              if bool_decide (is_Some responseCheck) && bool_decide (errors ≠ [])
              then lookup_loop fuel (ruleIndex x) domain o (md_after x) r
              else (r, Some (looked addresses errors))
          end
      end
  end.

(** [Lookup]. *)
Definition Router_Lookup (domain : string) (o : QueryOptions) (md : InboundContext) (r : DNSRouter) : DNSRouter * looked_up :=
  let md := query_context domain None md in
  match o_Transport o with
  | Some t =>
      let '(c, (addresses, errors)) := Lookup before after inTransport sent t domain
                                         (default_strategy r (legacy_options t o)) None (client r) in
      (set_client c r, looked addresses errors)
  | None =>
      match lookup_loop (S (length (rules r))) (-1) domain o md r with
      | (r, Some result) => (r, result)
      | (r, None) => (r, LookupPanicked "out of fuel")
      end
  end.
End exchange.

(** [Initialize]: the rules built so far are kept when one fails. *)
Fixpoint Router_Initialize (valid : DNSRuleOptions → bool) (i : nat) (os : list DNSOptions) (r : DNSRouter)
    : DNSRouter * option error :=
  match os with
  | [] => (r, None)
  | o :: os =>
      match NewDNSRule valid true o with
      | Err e => (r, Some (cause ("parse dns rule[" +:+ pretty i +:+ "]") e))
      | Ok x =>
          Router_Initialize valid (S i) os
            (mkDNSRouter (rules r ++ [x]) (defaultDomainStrategy r) (client r) (dnsReverseMapping r))
      end
  end.

(** [LookupReverseMapping] at a time, and [ClearCache]. *)
Definition Router_LookupReverseMapping (now : Z) (ip : Addr) (r : DNSRouter) : option string :=
  match dnsReverseMapping r with
  | None => None
  | Some mapping => '(domain, added, lifetime) ← mapping !! ip; if lru_alive added lifetime now then Some domain else None
  end.
Definition Router_ClearCache (r : DNSRouter) : DNSRouter := set_client (ClearCache (client r)) r.
End router.
