(* ===== verification/DnsRuleProps.v ===== *)
(** * Theorems about DNS rules

    Built DNS rules are tidy, and what the two phases of matching one decide. *)
From S2P Require Import Prelude MatchState RuleItems Rules RulesSpec RulesProps RuleAction RuleBuild RuleBuildProps DnsRule Route RouteProps DnsRouter.

Section tidy.
Context `{RuleEnv} `{ActionEnv}.

Lemma dns_plain_tidy o d d' : open_tidy d → dns_plain o d = Ok d' → open_tidy d'.
Proof. intros Hd Hb. unfold dns_plain in Hb. tidy_chain. Qed.

Lemma dns_domain_tidy o d d' : open_tidy d → dns_domain o d = Ok d' → open_tidy d'.
Proof. intros Hd Hb. unfold dns_domain in Hb. tidy_chain. Qed.

Lemma dns_address_tidy o d d' : open_tidy d → dns_address o d = Ok d' → open_tidy d'.
Proof. intros Hd Hb. unfold dns_address in Hb. tidy_chain. Qed.

Lemma dns_ports_tidy o d d' : open_tidy d → dns_ports o d = Ok d' → open_tidy d'.
Proof. intros Hd Hb. unfold dns_ports in Hb. tidy_chain. Qed.

Lemma dns_process_tidy o d d' : open_tidy d → dns_process o d = Ok d' → open_tidy d'.
Proof. intros Hd Hb. unfold dns_process in Hb. tidy_chain. Qed.

Lemma dns_network_tidy o d : open_tidy d → open_tidy (dns_network o d).
Proof. intros Hd. unfold dns_network. solve_tidy. Qed.

Lemma dns_ruleset_tidy o d d' : open_tidy d → dns_ruleset o d = Ok d' → tidy d'.
Proof.
  intros Hd. unfold dns_ruleset. destruct (q_RuleSet o); [by intros [= <-]; destruct Hd|].
  destruct (q_Deprecated_RulesetIPCIDRMatchSource o); [done|]. intros [= <-]. by apply set_ruleSet_tidy.
Qed.

Lemma NewDefaultDNSRule_tidy o d : NewDefaultDNSRule o = Ok d → tidy d.
Proof.
  unfold NewDefaultDNSRule. intros Hb. do 6 inv_bind Hb.
  eapply dns_ruleset_tidy; [|done]. apply dns_network_tidy. eapply dns_process_tidy; [|done].
  eapply dns_ports_tidy; [|done]. eapply dns_address_tidy; [|done]. eapply dns_domain_tidy; [|done].
  eapply dns_plain_tidy; [|done]. apply tidy_empty.
Qed.
End tidy.

(** ** Items that do not look at resolved addresses *)

Section address_free.
Context `{RuleEnv} `{ActionEnv}.
Notation D := (abstractDefaultRule RuleAction (Rule RuleAction)).

Definition address_free (it : Item) : bool :=
  match it with
  | IPCIDRItem _ src _ | IPIsPrivateItem src => src
  | IPAcceptAnyItem | PreferredByItem _ _ => false
  | _ => true
  end.

(** Two contexts that differ in the addresses and in flags an item of such a
    kind does not read. *)
Lemma address_free_match rt it addrs b md :
  address_free it = true → Item_Match rt it (with_addresses addrs (set_ignore b md)) = Item_Match rt it md.
Proof. by destruct it as [| |? [] ?| | | | | | | | [] | | | | | | | | | | | | | | | | | | | | | |]. Qed.

(** Every item outside of the address group is of that kind. *)
Definition others (d : D) : list Item :=
  items d ++ sourceAddressItems d ++ sourcePortItems d ++ destinationAddressItems d ++ destinationPortItems d.
Definition clean (inv : bool) (d : D) : Prop := Forall (λ it, address_free it = true) (others d) ∧ invert d = inv.

Definition adds_clean (add : Item → D → D) (P : Item → Prop) : Prop := ∀ inv i d, P i → clean inv d → clean inv (add i d).
Definition free (it : Item) : Prop := address_free it = true.

Lemma adds_clean_free add (pre post : D → list Item) :
  (∀ i d, others d = pre d ++ post d ∧ others (add i d) = pre d ++ [i] ++ post d ∧ invert (add i d) = invert d) →
  adds_clean add free.
Proof.
  intros Hadd inv i d Hi [Hc Hinv]. unfold clean. destruct (Hadd i d) as (Hd & -> & ->). rewrite Hd in Hc.
  split; [|done]. apply Forall_app in Hc as [? ?]. apply Forall_app. split; [done|]. by constructor.
Qed.

Lemma add_item_clean : adds_clean add_item free.
Proof.
  apply (adds_clean_free _ items (λ d, sourceAddressItems d ++ sourcePortItems d ++ destinationAddressItems d ++ destinationPortItems d)).
  intros i d. unfold others. simpl. by rewrite <-!app_assoc.
Qed.
Lemma add_sourceAddress_clean : adds_clean add_sourceAddress free.
Proof.
  apply (adds_clean_free _ (λ d, items d ++ sourceAddressItems d) (λ d, sourcePortItems d ++ destinationAddressItems d ++ destinationPortItems d)).
  intros i d. unfold others. simpl. by rewrite <-!app_assoc.
Qed.
Lemma add_sourcePort_clean : adds_clean add_sourcePort free.
Proof.
  apply (adds_clean_free _ (λ d, items d ++ sourceAddressItems d ++ sourcePortItems d) (λ d, destinationAddressItems d ++ destinationPortItems d)).
  intros i d. unfold others. simpl. by rewrite <-!app_assoc.
Qed.
Lemma add_destinationAddress_clean : adds_clean add_destinationAddress free.
Proof.
  apply (adds_clean_free _ (λ d, items d ++ sourceAddressItems d ++ sourcePortItems d ++ destinationAddressItems d) destinationPortItems).
  intros i d. unfold others. simpl. by rewrite <-!app_assoc.
Qed.
Lemma add_destinationPort_clean : adds_clean add_destinationPort free.
Proof.
  apply (adds_clean_free _ (λ d, items d ++ sourceAddressItems d ++ sourcePortItems d ++ destinationAddressItems d ++ destinationPortItems d) (λ _, [])).
  intros i d. unfold others. simpl. by rewrite <-!app_assoc, !app_nil_r.
Qed.
Lemma add_destinationIPCIDR_clean : adds_clean add_destinationIPCIDR (λ _, True).
Proof. by intros inv i d _. Qed.

Lemma when_some_clean {X} P (xs : list X) add new inv d : adds_clean add P → (∀ xs, P (new xs)) → clean inv d → clean inv (when_some xs add new d).
Proof. intros Ha Hp Hc. unfold when_some. destruct xs; [done|by apply Ha]. Qed.
Lemma when_clean P b add i inv d : adds_clean add P → P i → clean inv d → clean inv (when b add i d).
Proof. intros Ha Hp Hc. unfold when. destruct b; [by apply Ha|done]. Qed.
Lemma when_some_err_clean {X} P (xs : list X) add new wrap inv d d' :
  adds_clean add P → (∀ xs i, new xs = Ok i → P i) → clean inv d → when_some_err xs add new wrap d = Ok d' → clean inv d'.
Proof.
  intros Ha Hp Hc. unfold when_some_err. destruct xs; [by intros [= <-]|]. destruct (new _) eqn:Hn; [|done].
  intros [= <-]. apply Ha; [by eapply Hp|done].
Qed.

(** The constructors that can fail. *)
Lemma NewDomainItem_free a b i : NewDomainItem a b = Ok i → free i.
Proof. unfold NewDomainItem. repeat (case_bool_decide; try done). by intros [= <-]. Qed.
Lemma NewDomainRegexItem_free xs i : NewDomainRegexItem xs = Ok i → free i.
Proof. unfold NewDomainRegexItem. intros Hb. inv_bind Hb. by injection Hb as <-. Qed.
Lemma NewProcessPathRegexItem_free xs i : NewProcessPathRegexItem xs = Ok i → free i.
Proof. unfold NewProcessPathRegexItem. intros Hb. inv_bind Hb. by injection Hb as <-. Qed.
Lemma NewIPCIDRItem_free xs i : NewIPCIDRItem true xs = Ok i → free i.
Proof. unfold NewIPCIDRItem. intros Hb. do 2 inv_bind Hb. by injection Hb as <-. Qed.
Lemma NewPortRangeItem_free src xs i : NewPortRangeItem src xs = Ok i → free i.
Proof. unfold NewPortRangeItem. intros Hb. inv_bind Hb. by injection Hb as <-. Qed.
End address_free.

#[export] Hint Resolve add_item_clean add_sourceAddress_clean add_sourcePort_clean add_destinationAddress_clean
  add_destinationPort_clean add_destinationIPCIDR_clean : go.
#[export] Hint Resolve NewDomainItem_free NewDomainRegexItem_free NewProcessPathRegexItem_free NewIPCIDRItem_free
  NewPortRangeItem_free : go.

(** A chain of additions keeps a rule clean. *)
Ltac solve_clean :=
  repeat first
    [ eassumption
    | eapply when_some_clean; [solve [eauto with go]|first [done|reflexivity]|]
    | eapply when_clean; [solve [eauto with go]|first [done|reflexivity]|]
    | apply add_item_clean; [first [reflexivity|solve [eauto with go]]|]
    | apply add_destinationAddress_clean; [first [reflexivity|solve [eauto with go]]|] ].

Ltac clean_chain :=
  repeat match goal with
  | Hb : result_bind ?r _ = Ok _ |- _ =>
      let E := fresh "E" in destruct r eqn:E; cbn [result_bind] in Hb; [|discriminate Hb]
  | Hb : Ok _ = Ok _ |- _ => injection Hb as Hb; try subst
  | Hb : Err _ = Ok _ |- _ => discriminate Hb
  | Hb : when_some_err _ _ _ _ _ = Ok _ |- _ =>
      eapply when_some_err_clean in Hb; [|solve [eauto with go]|first [solve [intros; eauto with go]|done]|solve [solve_clean]]
  | Hb : (if ?b then _ else _) = Ok _ |- _ => destruct b
  end; solve_clean.

Section built.
Context `{RuleEnv} `{ActionEnv}.

Lemma dns_plain_clean inv o d d' : clean inv d → dns_plain o d = Ok d' → clean inv d'.
Proof. intros Hd Hb. unfold dns_plain in Hb. clean_chain. Qed.

Lemma dns_domain_clean inv o d d' : clean inv d → dns_domain o d = Ok d' → clean inv d'.
Proof. intros Hd Hb. unfold dns_domain in Hb. clean_chain. Qed.

Lemma dns_address_clean inv o d d' : clean inv d → dns_address o d = Ok d' → clean inv d'.
Proof. intros Hd Hb. unfold dns_address in Hb. clean_chain. Qed.

Lemma dns_ports_clean inv o d d' : clean inv d → dns_ports o d = Ok d' → clean inv d'.
Proof. intros Hd Hb. unfold dns_ports in Hb. clean_chain. Qed.

Lemma dns_process_clean inv o d d' : clean inv d → dns_process o d = Ok d' → clean inv d'.
Proof. intros Hd Hb. unfold dns_process in Hb. clean_chain. Qed.

Lemma dns_network_clean inv o d : clean inv d → clean inv (dns_network o d).
Proof. intros Hd. unfold dns_network. solve_clean. Qed.

(** Without rule sets, the items outside of the address group do not look at
    resolved addresses, and the rule is inverted as its options say. *)
Lemma NewDefaultDNSRule_clean o d :
  NewDefaultDNSRule o = Ok d → q_RuleSet o = [] → clean (q_Invert o) d ∧ ruleSetItem d = None.
Proof.
  unfold NewDefaultDNSRule, dns_ruleset. intros Hb Hs. rewrite Hs in Hb. do 6 inv_bind Hb. injection Hb as <-. split.
  - apply dns_network_clean. eapply dns_process_clean; [|done]. eapply dns_ports_clean; [|done].
    eapply dns_address_clean; [|done]. eapply dns_domain_clean; [|done]. eapply dns_plain_clean; [|done]. by split; [constructor|].
  - assert (open_tidy (dns_network o a4)) as [_ ?]; [|done].
    apply dns_network_tidy. eapply dns_process_tidy; [|done]. eapply dns_ports_tidy; [|done].
    eapply dns_address_tidy; [|done]. eapply dns_domain_tidy; [|done]. eapply dns_plain_tidy; [|done]. apply tidy_empty.
Qed.
End built.

(** ** The two phases *)

Section phases.
Context `{RuleEnv} `{ActionEnv} (rt : Runtime).
Notation D := (abstractDefaultRule RuleAction (Rule RuleAction)).

Lemma any_ext its md md' :
  (∀ it, it ∈ its → Item_Match rt it md = Item_Match rt it md') → matchAnyItem rt its md = matchAnyItem rt its md'.
Proof.
  unfold matchAnyItem. induction its as [|it its IH]; intros Hit; [done|]. cbn [existsb].
  rewrite (Hit it) by (by left). f_equal. apply IH. intros. apply Hit. by right.
Qed.
Lemma forall_ext its md md' :
  (∀ it, it ∈ its → Item_Match rt it md = Item_Match rt it md') →
  forallb (λ it, Item_Match rt it md) its = forallb (λ it, Item_Match rt it md') its.
Proof.
  induction its as [|it its IH]; intros Hit; [done|]. cbn [forallb].
  rewrite (Hit it) by (by left). f_equal. apply IH. intros. apply Hit. by right.
Qed.

(** A rule with conditions, built without rule sets and not inverted, matches
    when its items match and its groups do. *)
Lemma plain_Match (d : D) md :
  allItems d ≠ [] → invert d = false → ruleSetItem d = None →
  Match rt (DefaultRule d) md = forallb (λ it, Item_Match rt it md) (items d) && groups_match rt d md.
Proof.
  intros Hall Hinv Hrs. unfold Match, matchStates. rewrite default_rule_result by done. cbn [snd]. cbn zeta.
  unfold invertedFailure. rewrite Hinv.
  pose proof (condition_nonempty rt d md) as Hc. rewrite Hrs in Hc. setoid_rewrite list_elem_of_In in Hc.
  rewrite <-forallb_forall, <-andb_true_iff in Hc.
  destruct (StateSet.isEmpty (condition_states rt d md 0)) eqn:He.
  - symmetry. apply not_true_is_false. intros Ht%Hc. done.
  - rewrite He. symmetry. by apply Hc.
Qed.

(** The groups of a rule before the query, and on a response. *)
Definition free_groups (d : D) (md : InboundContext) : bool :=
  (negb (bool_decide (0 < length (sourceAddressItems d))) || matchAnyItem rt (sourceAddressItems d) md)
  && (negb (bool_decide (0 < length (sourcePortItems d))) || matchAnyItem rt (sourcePortItems d) md)
  && (negb (bool_decide (0 < length (destinationPortItems d))) || matchAnyItem rt (destinationPortItems d) md).

Lemma groups_before d md :
  IgnoreDestinationIPCIDRMatch md = true →
  groups_match rt d md = free_groups d md &&
    (negb (bool_decide (0 < length (destinationAddressItems d))) || matchAnyItem rt (destinationAddressItems d) md).
Proof.
  intros Hi. unfold groups_match, free_groups, requiresSourceAddressMatch, requiresDestinationAddressMatch, source_matches,
    destination_matches, destinationIPCIDRMatchesSource, destinationIPCIDRMatchesDestination. rewrite Hi. cbn [negb andb].
  rewrite !orb_false_r. by destruct (negb (bool_decide (0 < length (sourceAddressItems d))) || _),
    (negb (bool_decide (0 < length (sourcePortItems d))) || _), (negb (bool_decide (0 < length (destinationAddressItems d))) || _),
    (negb (bool_decide (0 < length (destinationPortItems d))) || _).
Qed.

Lemma groups_after d md :
  IgnoreDestinationIPCIDRMatch md = false → IPCIDRMatchSource md = false →
  groups_match rt d md = free_groups d md &&
    (negb (bool_decide (0 < length (destinationAddressItems d)) || bool_decide (0 < length (destinationIPCIDRItems d)))
     || (matchAnyItem rt (destinationAddressItems d) md || matchAnyItem rt (destinationIPCIDRItems d) md)).
Proof.
  intros Hi Hs. unfold groups_match, free_groups, requiresSourceAddressMatch, requiresDestinationAddressMatch, source_matches,
    destination_matches, destinationIPCIDRMatchesSource, destinationIPCIDRMatchesDestination. rewrite Hi, Hs. cbn [negb andb].
  rewrite !orb_false_r.
  assert (bool_decide (0 < length (destinationIPCIDRItems d)) && matchAnyItem rt (destinationIPCIDRItems d) md
          = matchAnyItem rt (destinationIPCIDRItems d) md) as -> by (by destruct (destinationIPCIDRItems d)).
  by destruct (negb (bool_decide (0 < length (sourceAddressItems d))) || _),
    (negb (bool_decide (0 < length (sourcePortItems d))) || _), (negb (_ || _) || _),
    (negb (bool_decide (0 < length (destinationPortItems d))) || _).
Qed.

Lemma dns_Match_spec (d : D) md : ∃ b,
  dns_Match rt (DefaultRule d) md =
    (set_DidMatch b (set_ignore false md), Match rt (DefaultRule d) (set_ignore true md)).
Proof.
  unfold dns_Match. destruct (matchStates_ctx rt (DefaultRule d) (set_ignore true md)) as [b Hb]. exists b.
  unfold Match. destruct (matchStates rt (DefaultRule d) (set_ignore true md)) as [c states]. cbn in Hb. by subst c.
Qed.

(** What address limits decide.  For a DNS rule that is built without rule
    sets and inversion: if it has no domain condition, a response is accepted
    exactly when the rule was selected for the query and one of its address
    conditions holds of the addresses of the response (so a rule that is passed
    over before the query would have accepted no response); if it has a domain
    condition, the domain alone decides, and every response is accepted. *)
Lemma address_limits_decide o d md addrs :
  NewDefaultDNSRule o = Ok d → q_RuleSet o = [] → q_Invert o = false → allItems d ≠ [] →
  IPCIDRMatchSource md = false → IgnoreDestinationIPCIDRMatch md = false →
  let pre := dns_Match rt (DefaultRule d) md in
  let accepted := MatchAddressLimit rt (DefaultRule d) (with_addresses addrs pre.1) in
  (destinationAddressItems d = [] →
     accepted = pre.2 && (bool_decide (destinationIPCIDRItems d = [])
                          || matchAnyItem rt (destinationIPCIDRItems d) (with_addresses addrs md))) ∧
  (destinationAddressItems d ≠ [] → pre.2 = true → accepted = true).
Proof.
  intros Hd Hrs Hinv Hall Hsrc Hign pre accepted.
  destruct (NewDefaultDNSRule_clean o d Hd Hrs) as [[Hclean Hi] Hrsi]. rewrite Hinv in Hi.
  unfold others in Hclean. rewrite !Forall_app in Hclean. destruct Hclean as (Hc1 & Hc2 & Hc3 & Hc4 & Hc5).
  destruct (dns_Match_spec d md) as [b Hpre]. subst accepted pre. rewrite Hpre. cbn [fst snd]. unfold MatchAddressLimit.
  rewrite !plain_Match by done. rewrite (groups_before d (set_ignore true md)) by done.
  set (md1 := with_addresses addrs (set_DidMatch b (set_ignore false md))).
  rewrite (groups_after d md1) by done.
  assert (∀ it, Item_Match rt it md1 = Item_Match rt it (with_addresses addrs (set_ignore false md))) as Hdid
    by (intros it; apply (Item_Match_DidMatch rt it b (with_addresses addrs (set_ignore false md)))).
  assert (∀ its, Forall (λ it, address_free it = true) its → ∀ g : list Item → InboundContext → bool,
    (∀ md md', (∀ it, it ∈ its → Item_Match rt it md = Item_Match rt it md') → g its md = g its md') →
    g its md1 = g its md ∧ g its (set_ignore true md) = g its md) as Hfree.
  { intros its Hf g Hg. rewrite Forall_forall in Hf. split; apply Hg; intros it Hit.
    - rewrite Hdid. by apply address_free_match, Hf.
    - apply (address_free_match rt it (DestinationAddresses md) true md). by apply Hf. }
  destruct (Hfree _ Hc1 (λ its md, forallb (λ it, Item_Match rt it md) its) (forall_ext _)) as [-> ->].
  unfold free_groups. destruct (Hfree _ Hc2 (matchAnyItem rt) (any_ext _)) as [-> ->].
  destruct (Hfree _ Hc3 (matchAnyItem rt) (any_ext _)) as [-> ->].
  destruct (Hfree _ Hc4 (matchAnyItem rt) (any_ext _)) as [-> ->].
  destruct (Hfree _ Hc5 (matchAnyItem rt) (any_ext _)) as [-> ->].
  assert (matchAnyItem rt (destinationIPCIDRItems d) md1 = matchAnyItem rt (destinationIPCIDRItems d) (with_addresses addrs md)) as ->.
  { apply any_ext. intros it _. rewrite Hdid. by replace (set_ignore false md) with md by (by destruct md; simpl in Hign; subst). }
  split.
  - intros Hnil. rewrite Hnil. cbn [length matchAnyItem existsb orb]. rewrite (bool_decide_false (0 < 0)) by lia. cbn [negb orb].
    rewrite !andb_true_r, <-!andb_assoc. f_equal. f_equal.
    destruct (destinationIPCIDRItems d) as [|it its]; [done|].
    rewrite (bool_decide_false (it :: its = [])) by done. rewrite (bool_decide_true (0 < length (it :: its))) by (simpl; lia). done.
  - intros Hne. assert (0 < length (destinationAddressItems d)) as Hl by (destruct (destinationAddressItems d); [done|simpl; lia]).
    rewrite (bool_decide_true _ Hl). cbn [negb orb]. intros [Hit [Hg Hm]%andb_true_iff]%andb_true_iff. by rewrite Hit, Hg, Hm.
Qed.
End phases.
