(* ===== verification/DnsProps.v ===== *)
(** * Theorems about DNS rules, client and router

    Retrying terminates and honours the address limits of rules, the two phases
    of matching a DNS rule, and the lifetimes of cached responses. *)
From S2P Require Import Prelude MatchState RuleItems Rules RulesSpec RulesProps RuleAction RuleBuild RuleBuildProps.
From S2P Require Import DnsRule DnsClient Route DnsRouter.

(** ** Responses *)

Section responses.
Context `{DnsEnv}.

(** Rewriting lifetimes leaves the addresses alone. *)
Lemma addresses_map f m :
  (∀ r, RR_data (f r) = RR_data r) → MessageToAddresses (map_records f m) = MessageToAddresses m.
Proof.
  intros Hf. unfold MessageToAddresses. cbn. case_decide; [|done].
  induction (Answer m) as [|r rs IH]; [done|]. cbn. rewrite IH. f_equal.
  unfold answer_addresses. destruct (is_opt r); [done|]. by rewrite Hf.
Qed.

Lemma addresses_set_Id id m : MessageToAddresses (set_Id id m) = MessageToAddresses m.
Proof. done. Qed.

Lemma addresses_fix_edns req m : MessageToAddresses (fix_edns req m) = MessageToAddresses m ∧ Rcode (fix_edns req m) = Rcode m.
Proof. unfold fix_edns. destruct (IsEdns0 (Extra m)), (IsEdns0 (Extra req)); try done. by destruct (_ <? _)%Z. Qed.

(** The check sees the addresses of the response. *)
Lemma rejects_check check m : rejects (Some check) m = false ↔
  (Rcode m = RcodeSuccess ∨ Rcode m = RcodeNameError) ∧ check (MessageToAddresses m) = true.
Proof.
  unfold rejects.
  assert (match Answer m with [] => [] | _ => MessageToAddresses m end = MessageToAddresses m) as ->.
  { unfold MessageToAddresses. destruct (Answer m); [|done]. by case_decide. }
  destruct (bool_decide (Rcode m ≠ RcodeSuccess) && bool_decide (Rcode m ≠ RcodeNameError)) eqn:Hr.
  - apply andb_true_iff in Hr as [H1%bool_decide_eq_true H2%bool_decide_eq_true]. split; [done|]. intros [[?|?] _]; done.
  - rewrite negb_false_iff. split; [|by intros [_ ?]]. intros Hc. split; [|done].
    apply andb_false_iff in Hr as [Hr|Hr]; apply bool_decide_eq_false in Hr; [left|right]; by apply dec_stable.
Qed.

(** What the client answers carries the response of the server on. *)
Definition passed_on (q : Question) (resp m' : Msg) : Prop :=
  Rcode m' = Rcode resp ∧ (Qtype q ≠ TypeHTTPS → MessageToAddresses m' = MessageToAddresses resp).

(** The end of an exchange that is not cached. *)
Lemma finish_uncached now t q req m o checker c :
  ∃ m', finish_exchange now true t q req m o checker c =
    (c, Some m', if rejects checker m then Some ResponseRejected else None) ∧
    (rejects checker m = false → passed_on q m m').
Proof.
  unfold finish_exchange. destruct (rejects checker m).
  { exists m. split; [|done]. by destruct (rdrc c). }
  cbn [orb]. eexists. split; [reflexivity|]. intros _. unfold passed_on.
  match goal with |- Rcode (fix_edns req (set_Id _ (map_records (RR_with_Ttl ?n) ?x))) = _ ∧ _ =>
    destruct (addresses_fix_edns req (set_Id (Id req) (map_records (RR_with_Ttl n) x))) as [-> ->] end.
  split; [by destruct (_ && _)|]. intros Hq. rewrite addresses_set_Id, addresses_map by (intros; apply with_Ttl_data).
  by rewrite (bool_decide_false (Qtype q = TypeHTTPS)).
Qed.

(** An exchange with a client that does not cache: it leaves the client, and
    what it answers or rejects is what the server replied. *)
Lemma client_exchange_uncached before after inT sent t m o checker c q qs :
  disableCache c = true → Questions m = q :: qs → strategy_rejects (Qtype q) (o_Strategy o) = false →
  ∃ out, client_exchange before after inT sent (Some t) m o checker c = (c, out) ∧
    match out with
    | Responded m' => ∃ resp, reply_of sent t (asked m o c) = Some resp ∧ rejects checker resp = false ∧ passed_on q resp m'
    | NotResponded e => is_rejected e = true →
        ∃ resp, reply_of sent t (asked m o c) = Some resp ∧ rejects checker resp = true
    | _ => False
    end.
Proof.
  intros Hd Hq Hs. unfold client_exchange, Exchange. rewrite Hq, Hs, Hd, orb_true_r. fold (asked m o c). cbn [orb].
  destruct (bool_decide _); [by eexists|]. cbn [negb andb]. unfold reply_of.
  destruct (sent t (asked m o c)) as [resp|code|e]; [| |by eexists].
  - destruct (finish_uncached after t q (asked m o c) (stripDNSPadding resp) o checker c) as (m' & -> & Hp).
    destruct (rejects checker (stripDNSPadding resp)) eqn:Hr; eexists; (split; [reflexivity|]); cbv beta iota; eauto.
  - destruct (finish_uncached after t q (asked m o c) (FixedResponseStatus (asked m o c) code) o checker c) as (m' & -> & Hp).
    destruct (rejects checker (FixedResponseStatus (asked m o c) code)) eqn:Hr; eexists; (split; [reflexivity|]); cbv beta iota; eauto.
Qed.
End responses.

(** ** The loops of the router *)

Section router.
Context `{RuleEnv} `{DnsEnv} (rt : Runtime) (metadata : RuleSet RuleAction → RuleSetMetadata).
Context (ts : Transports) (before after : Z) (inTransport : option string) (sent : DNSTransport → Msg → answered).

(** A rule that is returned is the one at the index returned with it. *)
Lemma match_rules_index allow addr rs : ∀ i md o r,
  rule (match_rules rt metadata ts allow addr i rs md o) = Some r →
  ∃ k : nat, ruleIndex (match_rules rt metadata ts allow addr i rs md o) = (i + Z.of_nat k)%Z ∧ rs !! k = Some r.
Proof.
  induction rs as [|r' rs IH]; intros i md o r; [done|]. cbn [match_rules].
  assert (∀ md o, rule (match_rules rt metadata ts allow addr (i + 1) rs md o) = Some r →
    ∃ k : nat, ruleIndex (match_rules rt metadata ts allow addr (i + 1) rs md o) = (i + Z.of_nat k)%Z ∧ (r' :: rs) !! k = Some r) as Hnext.
  { intros md' o' (k & -> & Hk)%IH. exists (S k). split; [lia|done]. }
  destruct (WithAddressLimit metadata r' && negb addr); [apply Hnext|].
  destruct (dns_Match rt r' (ResetRuleCache md)) as [md' []]; [|apply Hnext].
  assert (∀ t o', rule (mkMatched md' o' t (Some r') i) = Some r →
    ∃ k : nat, ruleIndex (mkMatched md' o' t (Some r') i) = (i + Z.of_nat k)%Z ∧ (r' :: rs) !! k = Some r) as Hhere.
  { intros t o' [= <-]. exists 0. split; [simpl; lia|done]. }
  destruct (rule_action r') as [[]|]; try apply Hnext; try apply Hhere.
  destruct (transportByTag ts !! Server) as [t|]; [|apply Hnext].
  destruct (bool_decide _ && _); [apply Hnext|apply Hhere].
Qed.

(** Where the rules after an index begin. *)
Definition next_start (index : Z) : nat := Z.to_nat (if decide (index = -1)%Z then 0 else index + 1).

Lemma matchDNS_progress allow addr index r md o rl :
  (-1 <= index)%Z → rule (matchDNS rt metadata ts allow index addr r md o) = Some rl →
  next_start index < next_start (ruleIndex (matchDNS rt metadata ts allow index addr r md o)) ≤ length (rules r) ∧
  (-1 <= ruleIndex (matchDNS rt metadata ts allow index addr r md o))%Z.
Proof.
  intros Hi Hr. unfold matchDNS in *. destruct (match_rules_index _ _ _ _ _ _ _ Hr) as (k & Hk & Hl). rewrite Hk.
  apply lookup_lt_Some in Hl. rewrite length_drop in Hl. unfold next_start in *. repeat case_decide; lia.
Qed.

Lemma check_rule r md check : addressLimitResponseCheck rt metadata r md = Some check → is_Some r.
Proof. unfold addressLimitResponseCheck. by destruct r. Qed.

Lemma exchange_loop_returns m o : ∀ fuel index md r,
  (-1 <= index)%Z → next_start index ≤ length (rules r) → length (rules r) - next_start index < fuel →
  is_Some (exchange_loop rt metadata ts before after inTransport sent fuel index m o md r).2.
Proof.
  induction fuel as [|fuel IH]; intros index md r Hi Hs Hf; [lia|]. cbn [exchange_loop].
  destruct (own_answer _ _) as [answer|]; [by eexists|].
  destruct (client_exchange _ _ _ _ _ _ _ _ _) as [c [| |e|]]; try by eexists.
  destruct (addressLimitResponseCheck rt metadata _ _) as [check|] eqn:Hc; [|by eexists].
  destruct (is_rejected e); cbn [andb]; [|by rewrite andb_false_r; eexists].
  rewrite bool_decide_true by done. cbn [andb].
  apply check_rule in Hc as [rl Hrl]. destruct (matchDNS_progress _ _ _ _ _ _ _ Hi Hrl) as [[Hlt Hle] Hge].
  apply IH; cbn [rules set_client]; [done|done|lia].
Qed.

Lemma lookup_loop_returns domain o : ∀ fuel index md r,
  (-1 <= index)%Z → next_start index ≤ length (rules r) → length (rules r) - next_start index < fuel →
  is_Some (lookup_loop rt metadata ts before after inTransport sent fuel index domain o md r).2.
Proof.
  induction fuel as [|fuel IH]; intros index md r Hi Hs Hf; [lia|]. cbn [lookup_loop].
  set (x := matchDNS rt metadata ts false index true r md o).
  assert (∀ c, is_Some (rule x) →
    is_Some (lookup_loop rt metadata ts before after inTransport sent fuel (ruleIndex x) domain o (md_after x) (set_client c r)).2)
    as Hnext.
  { intros c [rl Hrl]. destruct (matchDNS_progress _ _ _ _ _ _ _ Hi Hrl) as [[Hlt Hle] Hge].
    apply IH; cbn [rules set_client]; [done|done|unfold x; lia]. }
  clearbody x.
  match goal with |- context [match transport x with Some t => @?f t | None => ?n end] =>
    assert (is_Some (match transport x with Some t => f t | None => n end).2) as Hgo end.
  { destruct (transport x) as [t|]; [|by eexists]. destruct (Lookup _ _ _ _ _ _ _ _ _) as [c [addresses errors]].
    destruct (addressLimitResponseCheck rt metadata _ _) as [check|] eqn:Hc; [|by eexists].
    apply check_rule in Hc. rewrite (bool_decide_true (is_Some (Some check))) by done. cbn [andb].
    destruct (bool_decide (errors ≠ [])); [by apply Hnext|by eexists]. }
  destruct (rule x ≫= rule_action) as [[| | | | | |a| | | |]|]; try exact Hgo; [|by eexists].
  destruct (Reject_Error _ _). by eexists.
Qed.

(** A response is within the address limits of a rule. *)
Definition within (rl : Rule RuleAction) (md : InboundContext) (resp : Msg) : Prop :=
  (Rcode resp = RcodeSuccess ∨ Rcode resp = RcodeNameError) ∧
  MatchAddressLimit rt rl (with_addresses (MessageToAddresses resp) md) = true.

(** How a response may come about, from the rules after an index: a rule
    answers itself; the address family strategy settles the query; the server of
    the rule that matched replies within the limits of that rule; or its reply
    violates them, and the response comes from the rules after it. *)
Inductive responds (m : Msg) (q : Question) (o : QueryOptions) (r : DNSRouter) : Z → InboundContext → Msg → Prop :=
| rs_own index md m' :
    let x := matchDNS rt metadata ts true index (isAddressQuery m) r md o in
    own_answer m (rule x) = Some (Responded m') → responds m q o r index md m'
| rs_strategy index md :
    let x := matchDNS rt metadata ts true index (isAddressQuery m) r md o in
    own_answer m (rule x) = None →
    strategy_rejects (Qtype q) (o_Strategy (default_strategy r (options_after x))) = true →
    responds m q o r index md (FixedResponseStatus m RcodeSuccess)
| rs_reply index md t resp m' :
    let x := matchDNS rt metadata ts true index (isAddressQuery m) r md o in
    own_answer m (rule x) = None → transport x = Some t →
    reply_of sent t (asked m (default_strategy r (options_after x)) (client r)) = Some resp →
    (∀ rl, rule x = Some rl → WithAddressLimit metadata rl = true → within rl (md_after x) resp) →
    passed_on q resp m' → responds m q o r index md m'
| rs_retry index md t resp rl m' :
    let x := matchDNS rt metadata ts true index (isAddressQuery m) r md o in
    own_answer m (rule x) = None → transport x = Some t →
    reply_of sent t (asked m (default_strategy r (options_after x)) (client r)) = Some resp →
    rule x = Some rl → WithAddressLimit metadata rl = true → ¬ within rl (md_after x) resp →
    responds m q o r (ruleIndex x) (md_after x) m' → responds m q o r index md m'.

Lemma set_client_same (r : DNSRouter) : set_client (client r) r = r.
Proof. by destruct r. Qed.

(** The check of a rule is that of its limits. *)
Lemma rejects_limits r md resp :
  rejects (addressLimitResponseCheck rt metadata r md) resp = false ↔
  ∀ rl, r = Some rl → WithAddressLimit metadata rl = true → within rl md resp.
Proof.
  unfold addressLimitResponseCheck. destruct r as [rl|]; [|by split].
  destruct (WithAddressLimit metadata rl) eqn:Hw; [|split; [|done]; intros _ ? [= <-]; congruence].
  rewrite rejects_check. unfold within. split; [by intros ? ? [= <-]|]. intros Hx. by apply Hx.
Qed.

Lemma exchange_loop_responds m o q : ∀ fuel index md r r' res,
  disableCache (client r) = true → Questions m = [q] →
  exchange_loop rt metadata ts before after inTransport sent fuel index m o md r = (r', Some res) →
  ∀ m', res = inl (Responded m') ∨ (∃ t, res = inr (t, Responded m')) → responds m q o r index md m'.
Proof.
  induction fuel as [|fuel IH]; intros index md r r' res Hd Hq; [done|]. cbn [exchange_loop].
  set (x := matchDNS rt metadata ts true index (isAddressQuery m) r md o).
  destruct (own_answer m (rule x)) as [a|] eqn:Ho.
  { intros [= _ <-] m' [[= ->]|[t [=]]]. by apply rs_own. }
  destruct (strategy_rejects (Qtype q) (o_Strategy (default_strategy r (options_after x)))) eqn:Hs.
  { assert (client_exchange before after inTransport sent (transport x) m (default_strategy r (options_after x))
      (addressLimitResponseCheck rt metadata (rule x) (md_after x)) (client r) =
      (client r, Responded (FixedResponseStatus m RcodeSuccess))) as ->.
    { unfold client_exchange, Exchange. rewrite Hq, Hs. by destruct (transport x). }
    intros [= _ <-] m' [[=]|[t [= _ <-]]]. by apply rs_strategy. }
  destruct (transport x) as [t|] eqn:Ht.
  2:{ unfold client_exchange. rewrite Hq, Hs. intros [= _ <-] m' [[=]|[t [=]]]. }
  destruct (client_exchange_uncached before after inTransport sent t m (default_strategy r (options_after x))
    (addressLimitResponseCheck rt metadata (rule x) (md_after x)) (client r) q [] Hd Hq Hs) as (out & -> & Hout).
  rewrite set_client_same. destruct out as [m1| |e|]; try done.
  - destruct Hout as (resp & Hr & Hrej & Hp). intros [= _ <-] m' [[=]|[t' [= _ <-]]].
    rewrite rejects_limits in Hrej. by eapply rs_reply.
  - destruct (bool_decide _ && is_rejected e) eqn:Hb; [|intros [= _ <-] m' [[=]|[t' [=]]]].
    apply andb_true_iff in Hb as [Hck%bool_decide_eq_true Hrej]. destruct (Hout Hrej) as (resp & Hr & Hbad).
    intros Hloop m' Hm'. pose proof (IH _ _ _ _ _ Hd Hq Hloop m' Hm') as Hrest.
    unfold addressLimitResponseCheck in Hck. destruct (rule x) as [rl|] eqn:Hrl; [|by destruct Hck].
    destruct (WithAddressLimit metadata rl) eqn:Hw; [|by destruct Hck].
    eapply rs_retry; [fold x; rewrite Hrl; exact Ho|exact Ht|exact Hr|exact Hrl|exact Hw| |exact Hrest]. intros Hin.
    assert (rejects (addressLimitResponseCheck rt metadata (rule x) (md_after x)) resp = false) as Hok.
    { apply rejects_limits. rewrite Hrl. by intros ? [= <-] _. }
    rewrite Hrl in Hok. congruence.
Qed.

(** queries and look-ups come to an end.  Whatever the servers answer, a
    query that is retried because of address limits tries each rule at most
    once: one iteration more than there are rules always suffices. *)
Lemma dns_retries_terminate m o domain md r :
  is_Some (exchange_loop rt metadata ts before after inTransport sent (S (length (rules r))) (-1) m o md r).2 ∧
  is_Some (lookup_loop rt metadata ts before after inTransport sent (S (length (rules r))) (-1) domain o md r).2.
Proof. split; [apply exchange_loop_returns|apply lookup_loop_returns]; unfold next_start; simpl; lia. Qed.

End router.
