(* ===== verification/DnsRun.v ===== *)
(** * Concrete runs of the DNS router

    Queries through a router with concrete rules and servers. *)
From S2P Require Import Prelude MatchState RuleItems Rules RulesSpec RulesProps RuleAction RuleBuild RuleBuildProps.
From S2P Require Import DnsRule DnsClient Route DnsRouter DnsRuleProps DnsProps.

Module DnsRun.
#[export] Existing Instance EnvRun.env.

(** Resource records as miekg/dns has them, as far as they are looked at. *)
Record record := mkRecord { h_Name : string; h_Rrtype : Z; h_Class : Z; h_Ttl : Z; h_data : rdata }.
#[export] Instance act_env : ActionEnv := {
  ParseSocksaddrHostPort s p := mkSocksaddr AddrInvalid p s;
  Socksaddr_IsValid a := negb (bool_decide (sa_Fqdn a = ""));
  AddrString a := sa_Fqdn a;
  Duration_String d := pretty d +:+ "ns";
  ClientSubnet_Build p := default (mkPrefix AddrInvalid 0) p;
  ClientSubnet_String _ := "subnet";
  Addr_String _ := "addr";
  Sprintf_0x n := "0x" +:+ pretty n;
  Dialer := unit;
  dialer_New _ := Ok tt;
  RR := record;
  RR_Name := h_Name;
  RR_with_Name n r := mkRecord n (h_Rrtype r) (h_Class r) (h_Ttl r) (h_data r);
  RR_String r := h_Name r;
  RcodeToString c := pretty c;
}.
#[export, refine] Instance dns_env : DnsEnv := {
  RR_Rrtype := h_Rrtype;
  RR_Class := h_Class;
  RR_Ttl r := (h_Ttl r mod 2 ^ 32)%Z;
  RR_data r := match h_data r with DataSOA m => DataSOA (m mod 2 ^ 32)%Z | d => d end;
  RR_with_Ttl t r := mkRecord (h_Name r) (h_Rrtype r) (h_Class r) t (h_data r);
  OPT_with_Option o r := mkRecord (h_Name r) (h_Rrtype r) (h_Class r) (h_Ttl r) (DataOPT o);
  HTTPS_with_Value v r := mkRecord (h_Name r) (h_Rrtype r) (h_Class r) (h_Ttl r) (DataHTTPS v);
  NewOPT := mkRecord "." TypeOPT 0 0 (DataOPT []);
  IsEdns0 rs := List.find (λ r, (h_Rrtype r =? TypeOPT)%Z) (rev rs);
  EdnsVersion _ := 0%Z;
  SetEdns0 r := r;
  lru_alive added lifetime now := (now <=? added + lifetime)%Z;
  IsFqdn s := false;
  Fqdn s := s +:+ ".";
}.
Proof.
  - intros r. apply Z.mod_pos_bound. lia.
  - intros r m. destruct (h_data r); try discriminate. intros [= <-]. apply Z.mod_pos_bound. lia.
  - intros t r Ht. cbn. by apply Z.mod_small.
  - done.
  - done.
  - done.
  - done.
Defined.

Definition home : Addr := Addr4 167772161.
Definition abroad : Addr := Addr4 134744072.
Definition far : Addr := Addr4 151587081.
Definition local : DNSTransport := mkDNSTransport "udp" "local" None.
Definition remote : DNSTransport := mkDNSTransport "udp" "remote" None.
Definition ts : Transports := mkTransports (list_to_map [("local", local); ("remote", remote)]) (Some remote).

(** A rule of given domains and addresses, with an action. *)
Definition options (domains cidrs : list string) (a : DNSRuleActionOptions) : DNSRuleOptions :=
  mkDNSRuleOptions [] 0 [] [] [] [] domains [] [] [] [] [] [] cidrs false false [] false [] [] [] [] [] [] [] [] [] []
    [] "" [] false false [] [] [] [] [] [] false false false false a.
Definition act (name server method : string) : DNSRuleActionOptions :=
  mkDNSRuleActionOptions name server 0 false None None 0 false None None method false None [] [] [].
Definition built (o : DNSRuleOptions) : Rule RuleAction :=
  match NewDefaultDNSRule o with Ok d => DefaultRule d | Err _ => LogicalRule [] "and" false None end.
(** The local server may answer for 10.0.0.1 only. *)
Definition limited : DNSRuleOptions := options [] ["10.0.0.1"] (act "route" "local" "").
Definition limited_domain : DNSRuleOptions := options ["example.org"] ["10.0.0.1"] (act "route" "local" "").
Definition no_metadata : RuleSet RuleAction → RuleSetMetadata := λ _, RuleBuild.mkMetadata false false false.

Definition client (disabled : bool) : Client := mkClient disabled false false (mkPrefix AddrInvalid 0) ∅ ∅ None.
Definition router (disabled : bool) (rs : list (Rule RuleAction)) : DNSRouter := mkDNSRouter rs 0 (client disabled) None.
Definition question : Question := mkQuestion "example.org" TypeA ClassINET.
Definition query : Msg := mkMsg 7 false false true false 0 [question] [] [] [].
Definition reply (a : Addr) : Msg :=
  mkMsg 9 true false true true RcodeSuccess [question] [mkRecord "example.org" TypeA ClassINET 300 (DataA a)] [] [].
(** Both servers answer with an address outside of the limits. *)
Definition sent (t : DNSTransport) (_ : Msg) : answered :=
  Answered (reply (if decide (t_Tag t = "local") then abroad else far)).
Definition plain : QueryOptions := mkQueryOptions None 0 0 false None (mkPrefix AddrInvalid 0).
Definition nobody : InboundContext :=
  mkInboundContext "" 0 "" (mkSocksaddr AddrInvalid 0 "") (mkSocksaddr AddrInvalid 0 "") "" "" "" "" "" [] None 0
    false false false false false false false false.
Notation exchange now r := (Router_Exchange EnvRun.rt no_metadata ts now now None sent query plain nobody r).
Definition addresses (e : exchanged) : option (list Addr) :=
  match e with Responded m => Some (MessageToAddresses m) | _ => None end.
End DnsRun.
Import (hints) DnsRun.

(** Running a query that is answered. *)
Lemma exchange_responds now r a :
  DnsRun.addresses (DnsRun.exchange now r).2 = Some a →
  ∃ r' m', DnsRun.exchange now r = (r', Responded m') ∧ MessageToAddresses m' = a.
Proof. destruct (DnsRun.exchange now r) as [r' [m'| | |]]; cbn; try discriminate. intros [= <-]. by exists r', m'. Qed.


(** Nothing was heard before. *)
Definition silence : Question → Z → option Z → Msg → Prop := λ _ _ _ _, False.


Lemma address_limits_decide_witness :
  ∃ d, NewDefaultDNSRule DnsRun.limited = Ok d ∧
    MatchAddressLimit EnvRun.rt (DefaultRule d) (with_addresses [DnsRun.home] (dns_Match EnvRun.rt (DefaultRule d) DnsRun.nobody).1) = true ∧
    MatchAddressLimit EnvRun.rt (DefaultRule d) (with_addresses [DnsRun.far] (dns_Match EnvRun.rt (DefaultRule d) DnsRun.nobody).1) = false.
Proof.
  assert (match NewDefaultDNSRule DnsRun.limited with
          | Ok d => bool_decide (length (allItems d) = 1) && bool_decide (length (destinationAddressItems d) = 0)
                    && (dns_Match EnvRun.rt (DefaultRule d) DnsRun.nobody).2
                    && matchAnyItem EnvRun.rt (destinationIPCIDRItems d) (with_addresses [DnsRun.home] DnsRun.nobody)
                    && negb (bool_decide (length (destinationIPCIDRItems d) = 0))
                    && negb (matchAnyItem EnvRun.rt (destinationIPCIDRItems d) (with_addresses [DnsRun.far] DnsRun.nobody))
          | Err _ => false end = true) as Hd by (vm_compute; reflexivity).
  destruct (NewDefaultDNSRule DnsRun.limited) as [d|] eqn:Hb; [|discriminate Hd]. exists d. split; [reflexivity|].
  rewrite !andb_true_iff, !negb_true_iff, !bool_decide_eq_true, bool_decide_eq_false in Hd.
  destruct Hd as (((((Hall & Hda) & Hpre) & Hhome) & Hip) & Hfar).
  assert (allItems d ≠ []) as Hne by (intros He; rewrite He in Hall; discriminate Hall).
  assert (destinationAddressItems d = []) as Hnil by (by apply length_zero_iff_nil).
  assert (destinationIPCIDRItems d ≠ []) as Hipn by (intros He; rewrite He in Hip; by apply Hip).
  split.
  - rewrite (proj1 (address_limits_decide EnvRun.rt DnsRun.limited d DnsRun.nobody [DnsRun.home] Hb eq_refl eq_refl Hne eq_refl eq_refl) Hnil).
    by rewrite Hpre, Hhome, orb_true_r.
  - rewrite (proj1 (address_limits_decide EnvRun.rt DnsRun.limited d DnsRun.nobody [DnsRun.far] Hb eq_refl eq_refl Hne eq_refl eq_refl) Hnil).
    by rewrite Hpre, Hfar, bool_decide_false.
Defined.

(** ** Where the code departs from its documentation *)

(** An address limit next to a domain condition has no effect. *)
Lemma limit_ignored_with_domain :
  DnsRun.addresses (DnsRun.exchange 0 (DnsRun.router true [DnsRun.built DnsRun.limited_domain])).2 = Some [DnsRun.abroad].
Proof. vm_compute. reflexivity. Qed.

(** A cached response is returned even to a rule that rejects it. *)
Lemma cached_response_is_not_checked :
  let c := (Exchange 0 0 None DnsRun.sent DnsRun.remote DnsRun.query DnsRun.plain None (DnsRun.client false)).1.1 in
  match Exchange 5 5 None DnsRun.sent DnsRun.local DnsRun.query DnsRun.plain (Some (λ _, false)) c with
  | (_, Some m, None) => MessageToAddresses m = [DnsRun.far]
  | _ => False
  end.
Proof. vm_compute. reflexivity. Qed.

(** A rule that rejects queries with the method reply brings the router down. *)
Lemma reply_rejection_panics :
  (DnsRun.exchange 0 (DnsRun.router true [DnsRun.built (DnsRun.options ["example.org"] [] (DnsRun.act "reject" "" "reply"))])).2
  = Panicked "nil pointer dereference".
Proof. vm_compute. reflexivity. Qed.

(** A client subnet is put into a second OPT record when the first is not the
    last additional record. *)
Lemma second_opt_record :
  let opt := mkMsg 0 false false true false 0 [DnsRun.question] [] []
               [NewOPT; DnsRun.mkRecord "key" 250 255 0 DataOther] in
  is_opt <$> Extra (SetClientSubnet opt (mkPrefix DnsRun.home 24)) = [true; false; true].
Proof. vm_compute. reflexivity. Qed.
