(* ===== verification/FakeIPRoute.v ===== *)
(** * Fake addresses from the answer to the route

    The fake-IP transport answers a query, and a connection to the answered
    address gets its domain back when it is routed. *)
From S2P Require Import Prelude Bytes RuleItems Netip Rules RulesSpec RulesProps RuleAction RuleBuild RuleBuildProps.
From S2P Require Import DnsClient Sniff Route RouteDispatch FakeIP FakeIPRange FakeIPProps RouteRun DnsRun.

(** Comparisons of the two query types. *)
Ltac eval_types :=
  change (bool_decide (TypeA = TypeA)) with true; change (bool_decide (TypeAAAA = TypeAAAA)) with true;
  change (bool_decide (TypeA = TypeAAAA)) with false; change (bool_decide (TypeAAAA = TypeA)) with false;
  cbn [negb andb orb].

Section start.
Context {S : Type} `{FakeIPStorageLaws S}.

(** A configured range: none, or a wide one of the family. *)
Definition good_range (v6 : bool) (p : Prefix) : Prop :=
  p = mkPrefix AddrInvalid (-1) ∨ (wide p ∧ Addr_Is4 (p_ip p) = negb v6).

(** A store that starts anew has the invariant, with no domain yet. *)
Lemma Start_inv (chosen : S) r4 r6 :
  good_range false r4 → good_range true r6 →
  (LoadMetadata chosen).2 = None → represents (FakeIPReset (LoadMetadata chosen).1).1 ∅ →
  StoreInv (Start chosen (NewStore r4 r6)) ∅.
Proof.
  intros H4 H6 Hmd Hreset. unfold Start. destruct (LoadMetadata chosen) as [s md]. cbn in Hmd, Hreset. subst md.
  split.
  - assert (∀ p, wide p → let x := (addr_num (p_ip p) + 1)%Z in
      Next (p_ip p) = addr_of p x ∧ (addr_num (p_ip p) < x < last_num p)%Z) as Hfirst.
    { intros p (Hwf & Hv & Hw). split; [|lia]. rewrite <-(addr_of_base p Hwf) at 1. apply Next_addr_of; [done|done|lia]. }
    intros [].
    + destruct H6 as [->|[Hw Hf]]; [by left|]. right. pose proof Hw as (_ & Hv & _). cbn. rewrite Hv.
      destruct (Hfirst r6 Hw). eauto 10.
    + destruct H4 as [->|[Hw Hf]]; [by left|]. right. pose proof Hw as (_ & Hv & _). cbn. rewrite Hv.
      destruct (Hfirst r4 Hw). eauto 10.
  - eexists. split; [done|exact Hreset].
  - intros a d Ha. by rewrite lookup_empty in Ha.
Qed.

(** ** Routing with the store of a transport *)

(** The environment of the router with this store as its fake-IP store. *)
Definition with_store (E : RouteEnv) (st : Store S) : RouteEnv := {|
  processSearcher := @processSearcher E;
  IsLoopback := @IsLoopback E;
  MyInterfaceAddress := @MyInterfaceAddress E;
  Interfaces := @Interfaces E;
  fakeip := Some (Contains st, λ a, match (Lookup a st).2 with Ok domain => domain | Err _ => None end);
  LookupReverseMapping := @LookupReverseMapping E;
  dns_Lookup := @dns_Lookup E;
  has_transport := @has_transport E;
  IsIPv4 := @IsIPv4 E;
  IsDomain := @IsDomain E;
|}.

Context `{RuleEnv} `{ActionEnv} `{SniffEnv} (E : RouteEnv).

Lemma prepare_restores st (m : Metadata) a port d :
  Destination (ctx m) = mkSocksaddr a port "" → Addr_IsValid a = true →
  Contains st a = true → Lookup a st = (st, Ok (Some d)) → d ≠ "" →
  ∃ m', prepare_metadata (H2 := with_store E st) m = Ok m' ∧
        Destination (ctx m') = mkSocksaddr AddrInvalid port d ∧
        OriginDestination m' = mkSocksaddr a port "" ∧ FakeIP m' = true.
Proof.
  intros Hd Hv Hc Hl Hne. unfold prepare_metadata. cbn [fakeip with_store].
  cbn [with_destination Destination]. rewrite Hd. cbn [sa_Addr]. rewrite Hv, Hc, Hl. cbn [snd result_bind].
  rewrite decide_False by done. eexists. split; [done|]. done.
Qed.

Context `{!DnsEnv} `{!FixedRR}.

(** The answer carries the allocated address and nothing else. *)
Lemma FixedResponse_addresses id (q : Question) a ttl (v6 : bool) :
  Qtype q = (if v6 then TypeAAAA else TypeA) → Addr_Is4 a = negb v6 → Addr_IsValid a = true →
  MessageToAddresses (FixedResponse id q [a] ttl) = [a].
Proof.
  intros Hq Hf Hv. unfold MessageToAddresses, FixedResponse. rewrite decide_True by done. cbn [Answer omap list_omap].
  destruct v6; rewrite Hq; destruct a as [|b|b z]; try done; cbn; unfold answer_addresses; eval_types; cbn.
  - by rewrite NewAAAA_data.
  - by rewrite NewA_data.
Qed.

(** C32: A client that asks the fake-IP server, in a family that is enabled and
    has a range, for a domain it has not asked for before is answered with one
    address, provided the storage can hold the domains it is asked for.  As long as fewer other domains are then
    asked for in its family than the range has usable addresses, however often
    and in whatever order, a connection to that address is routed to the domain,
    with its port, and keeps the address it was made to as its original
    destination. *)
Theorem fakeip_domain_restored (t : Transport S) table (query : Msg) q qs (v6 : bool) reqs :
  StoreInv (store t) table →
  Questions query = q :: qs → Qtype q = (if v6 then TypeAAAA else TypeA) → FqdnToDomain (Name q) ≠ "" →
  (if v6 then inet6Enabled t else inet4Enabled t) = true → Prefix_IsValid (range_of v6 (store t)) = true →
  (Create_fast (FqdnToDomain (Name q)) v6 (store t)).2 = Ok None →
  (∀ r, r ∈ (FqdnToDomain (Name q), v6) :: reqs → ∀ a, usable (range_of r.2 (store t)) a → storable a r.1) →
  (Z.of_nat (base.size (others_of (FqdnToDomain (Name q)) v6 reqs)) < size (range_of v6 (store t)))%Z →
  ∃ t' answer a,
    Exchange query t = (t', Ok answer) ∧ MessageToAddresses answer = [a] ∧
    ∀ (m : Metadata) port, Destination (ctx m) = mkSocksaddr a port "" →
    ∃ m', prepare_metadata (H2 := with_store E (Creates reqs (store t'))) m = Ok m' ∧
          Destination (ctx m') = mkSocksaddr AddrInvalid port (FqdnToDomain (Name q)) ∧
          OriginDestination m' = mkSocksaddr a port "" ∧ FakeIP m' = true.
Proof.
  intros HI Hqs Hq Hne Hen Hv Hnew Hst Hsize.
  destruct (kept_start (store t) table (FqdnToDomain (Name q)) v6 HI Hv) as (st1 & x0 & Hcr & Hcfg & Hk); [|done|].
  { apply (Hst (FqdnToDomain (Name q), v6)). by left. }
  destruct (kept_run reqs st1 _ v6 x0 ∅ Hk) as (Hcfg' & j & Hk').
  { intros r Hr. destruct (Hcfg r.2) as [-> _]. apply Hst. by right. }
  { destruct (Hcfg v6) as [-> _]. by rewrite (left_id_L ∅ (∪)). }
  destruct (kept_answers _ _ _ _ _ Hk') as (Hlook & _ & Hcont & _).
  set (st2 := Creates reqs st1) in *.
  assert (range_of v6 st2 = range_of v6 (store t)) as Hrange.
  { destruct (Hcfg' v6) as [-> _]. by destruct (Hcfg v6). }
  destruct Hk' as (t2 & x & _ & Hwide & Hfam & _ & Hx0 & _). rewrite Hrange in *.
  destruct (usable_facts (range_of v6 (store t)) (addr_of (range_of v6 (store t)) x0) Hwide) as (_ & _ & _ & _ & Hva & Hf4); [by exists x0|].
  set (a := addr_of (range_of v6 (store t)) x0) in *.
  exists (mkTransport st1 (inet4Enabled t) (inet6Enabled t)), (FixedResponse (Id query) q [a] DefaultDNSTTL), a. split.
  { unfold Exchange. rewrite Hqs, Hq. destruct v6; eval_types; rewrite Hen; cbn [negb andb orb]; rewrite Hcr; reflexivity. }
  split; [apply (FixedResponse_addresses _ _ _ _ v6 Hq); congruence|].
  intros m port Hm. by apply prepare_restores.
Qed.
End start.

(** A domain that is given a new address keeps it: as long as fewer other
    domains of the family follow than the range has usable addresses, however
    often and in whatever order, the address leads to the domain, asking again gives
    the same address, and it is in the range and not its broadcast address. *)
Lemma fakeip_mapping_survives {S} `{FakeIPStorageLaws S} (st : Store S) table d v6 reqs :
  StoreInv st table → Prefix_IsValid (range_of v6 st) = true →
  (Create_fast d v6 st).2 = Ok None →
  (∀ r, r ∈ (d, v6) :: reqs → ∀ a, usable (range_of r.2 st) a → storable a r.1) →
  (Z.of_nat (base.size (others_of d v6 reqs)) < size (range_of v6 st))%Z →
  ∃ st1 a, Create d v6 st = (st1, Ok a) ∧
    let st2 := Creates reqs st1 in
    Lookup a st2 = (st2, Ok (Some d)) ∧ Create d v6 st2 = (st2, Ok a) ∧ Contains st2 a = true ∧
    a ≠ broadcastAddress (range_of v6 st).
Proof.
  intros HI Hv Hnew Hst Hsize.
  destruct (kept_start st table d v6 HI Hv) as (st1 & x0 & Hcr & Hcfg & Hk); [|done|].
  { apply (Hst (d, v6)). by left. }
  destruct (kept_run reqs st1 d v6 x0 ∅ Hk) as (Hcfg' & j & Hk').
  { intros r Hr. destruct (Hcfg r.2) as [-> _]. apply Hst. by right. }
  { destruct (Hcfg v6) as [-> _]. by rewrite (left_id_L ∅ (∪)). }
  destruct (kept_answers _ _ _ _ _ Hk') as (Hlook & Hcre & Hcont & Hlast).
  eexists _, _. split; [exact Hcr|]. destruct (Hcfg' v6) as [Hr' Hl']. destruct (Hcfg v6) as [Hr Hl].
  rewrite Hr', Hr in *. repeat split; try done. rewrite Hl', Hl in Hlast.
  destruct (si_family st table HI v6) as [[Hbad _]|(_ & _ & <- & _)]; [by rewrite Hbad in Hv|done].
Qed.

(** A store in memory with a range for one family. *)
Definition single_store (v6 : bool) (r : Prefix) : Store MemoryStorage :=
  let none := mkPrefix AddrInvalid (-1) in
  Start NewMemoryStorage (NewStore (if v6 then none else r) (if v6 then r else none)).

Lemma next_address_first range last : next_address range last (Next (p_ip range)) = Next (Next (p_ip range)).
Proof. unfold next_address. by destruct (_ || _). Qed.

(** The second address after the base is an address of the range, or invalid. *)
Lemma second_address p :
  wf_prefix p → Prefix_IsValid p = true →
  (Next (Next (p_ip p)) = addr_of p (addr_num (p_ip p) + 2) ∨
   Next (Next (p_ip p)) = AddrInvalid ∧ (2 ^ BitLen (p_ip p) <= addr_num (p_ip p) + 2)%Z).
Proof.
  intros (_ & Hz & _) Hv. unfold addr_of, Prefix_IsValid in *. destruct (p_ip p) as [|b|b z]; [done| |]; cbn in *; subst.
  all: case_decide; cbn; [case_decide|]; [left; f_equal; lia|right; split; [done|lia]..].
Qed.

(** The first domain of a store with one range gets an address of that range
    other than its broadcast address exactly when the base has at least three
    addresses after it; otherwise the answered address is the broadcast address
    or outside the range, where no connection is ever turned back. *)
Lemma fakeip_first_address_usable_iff v6 r d st' a :
  wf_prefix r → Prefix_IsValid r = true → Addr_Is4 (p_ip r) = negb v6 →
  Create d v6 (single_store v6 r) = (st', Ok a) →
  (Contains st' a = true ∧ a ≠ broadcastAddress r ↔ (addr_num (p_ip r) + 2 < last_num r)%Z).
Proof.
  intros Hwf Hv Hf Hcr.
  assert (a = Next (Next (p_ip r)) ∧ Contains st' a = Prefix_Contains r a) as [-> ->].
  { destruct v6; cbn in Hcr; rewrite Hv in Hcr; cbn in Hcr; unfold Create, Create_locked in Hcr; cbn in Hcr;
      rewrite lookup_empty in Hcr; cbn in Hcr; destruct (Addr_IsValid (Next (p_ip r))); [|done| |done];
      cbn in Hcr; rewrite next_address_first in Hcr;
      simplify_eq; split; try done; unfold Contains; cbn; by rewrite ?orb_false_r. }
  pose proof (last_num_range r Hwf Hv) as Hlast. pose proof (base_in_interval r Hwf Hv).
  destruct (second_address r Hwf Hv) as [->|[-> Hbig]].
  - rewrite (broadcastAddress_last r Hwf Hv), (Contains_addr_of r Hwf Hv). split.
    + intros [Hin Hne]. destruct (decide (addr_num (p_ip r) + 2 = last_num r)%Z) as [Heq|]; [by rewrite Heq in Hne|lia].
    + intros Hlt. split; [lia|]. intros Heq%(addr_of_inj r Hv). lia.
  - split; [|lia]. intros [Hc _]. unfold Prefix_Contains in Hc. exfalso.
    destruct r as [ip bits]; cbn in *. destruct ip; cbn in *; [done| |]; rewrite ?andb_false_r in Hc; cbn in Hc; done.
Qed.

(** ** A concrete store *)

Module FakeIPRun.
#[export] Existing Instance EnvRun.env.
#[export] Existing Instance DnsRun.act_env.
#[export] Existing Instance DnsRun.dns_env.
#[export] Existing Instance RouteRun.sniff_env.
#[export, refine] Instance fixed_rr : FixedRR := {
  NewA name class ttl a := DnsRun.mkRecord name TypeA class ttl (DataA a);
  NewAAAA name class ttl a := DnsRun.mkRecord name TypeAAAA class ttl (DataAAAA a);
}.
Proof. all: done. Defined.

(** 198.18.0.0/29, whose usable addresses end in 2 to 6. *)
Definition range : Prefix := mkPrefix (Addr4 3323068416) 29.
Definition st0 : Store MemoryStorage := single_store false range.
Definition transport : Transport MemoryStorage := mkTransport st0 true false.
Definition query : Msg := mkMsg 7 false false true false 0 [mkQuestion "example.org" TypeA ClassINET] [] [] [].
Definition reqs : list (string * bool) :=
  [("a.org", false); ("b.org", true); ("c.org", false); ("a.org", false); ("example.org", false); ("d.org", false); ("c.org", false)].
Definition conn (a : Addr) : Metadata :=
  set_ctx (with_destination (mkSocksaddr a 443 "") [] "" None (ctx RouteRun.meta0)) RouteRun.meta0.

Lemma range_wide : wide range.
Proof. repeat split; cbn; lia. Qed.

Lemma st0_inv : StoreInv st0 ∅.
Proof.
  apply (Start_inv NewMemoryStorage).
  - right. split; [apply range_wide|done].
  - by left.
  - done.
  - split; [done|]. intros [] d a; cbn; rewrite !lookup_empty; naive_solver.
Qed.

(** The six addresses of a run of six domains, the fourth asked for twice. *)
Example addresses_of_run :
  foldl (λ acc r, let '(st, l) := acc in let '(st', res) := Create r.1 r.2 st in (st', l ++ [res])) (st0, [])
    [("a", false); ("b", false); ("c", false); ("d", false); ("d", false); ("e", false); ("f", false)]
  = (Creates [("a", false); ("b", false); ("c", false); ("d", false); ("d", false); ("e", false); ("f", false)] st0,
     [Ok (Addr4 3323068418); Ok (Addr4 3323068419); Ok (Addr4 3323068420); Ok (Addr4 3323068421);
      Ok (Addr4 3323068421); Ok (Addr4 3323068422); Ok (Addr4 3323068418)]).
Proof. vm_compute. reflexivity. Qed.
End FakeIPRun.
Import FakeIPRun.

Lemma fakeip_mapping_survives_witness :
  ∃ st1 a, Create "example.org" false FakeIPRun.st0 = (st1, Ok a) ∧
    let st2 := Creates FakeIPRun.reqs st1 in
    Lookup a st2 = (st2, Ok (Some "example.org")) ∧ Create "example.org" false st2 = (st2, Ok a) ∧
    Contains st2 a = true ∧ a ≠ broadcastAddress (range_of false FakeIPRun.st0).
Proof.
  apply (fakeip_mapping_survives FakeIPRun.st0 ∅ "example.org" false FakeIPRun.reqs).
  - apply FakeIPRun.st0_inv.
  - reflexivity.
  - reflexivity.
  - intros r _ a _. exact I.
  - vm_compute. reflexivity.
Defined.

Lemma fakeip_domain_restored_witness :
  ∃ t' answer a,
    Exchange FakeIPRun.query FakeIPRun.transport = (t', Ok answer) ∧ MessageToAddresses answer = [a] ∧
    ∀ (m : Metadata) port, Destination (ctx m) = mkSocksaddr a port "" →
    ∃ m', prepare_metadata (H2 := with_store RouteRun.route_env (Creates FakeIPRun.reqs (store t'))) m = Ok m' ∧
          Destination (ctx m') = mkSocksaddr AddrInvalid port "example.org" ∧
          OriginDestination m' = mkSocksaddr a port "" ∧ FakeIP m' = true.
Proof.
  change "example.org" with (FqdnToDomain (Name (mkQuestion "example.org" TypeA ClassINET))).
  apply (fakeip_domain_restored RouteRun.route_env FakeIPRun.transport ∅ FakeIPRun.query
           (mkQuestion "example.org" TypeA ClassINET) [] false FakeIPRun.reqs).
  - apply FakeIPRun.st0_inv.
  - reflexivity.
  - reflexivity.
  - discriminate.
  - reflexivity.
  - reflexivity.
  - reflexivity.
  - intros r _ a _. exact I.
  - vm_compute. reflexivity.
Defined.

(** A range of two addresses: the answered address is outside. *)
Lemma fakeip_first_address_usable_iff_witness :
  Contains (Create "example.org" false (single_store false (mkPrefix (Addr4 3323068416) 31))).1 (Addr4 3323068418) = true ∧
  Addr4 3323068418 ≠ broadcastAddress (mkPrefix (Addr4 3323068416) 31) ↔ (3323068416 + 2 < last_num (mkPrefix (Addr4 3323068416) 31))%Z.
Proof.
  apply (fakeip_first_address_usable_iff false (mkPrefix (Addr4 3323068416) 31) "example.org").
  - repeat split; cbn; lia.
  - reflexivity.
  - reflexivity.
  - vm_compute. reflexivity.
Defined.
